(* ===== verification/_CoqProject ===== *)
-Q . S2P
Prelude.v
Json.v
Errors.v
Dict.v
Text.v
JsonText.v
Documents.v
Hierarchy.v
Chunking.v
ChunkingCorrect.v
Ids.v
Context.v
Reach.v
Rebac.v
AuthzProvider.v
Visibility.v
Revisions.v
Cache.v
Messages.v
HotThread.v
Window.v
Segments.v
Blob.v
Tenancy.v
TenancyRepo.v
ApiKeys.v
Idempotency.v
AuthzService.v
ScopeCache.v
TenancyService.v
Tasks.v
Outbox.v
UnitOfWork.v
TenantRegistry.v
MemoryModel.v
GraphStore.v
MemoryRepo.v
MemoryUow.v
Retention.v
MemoryService.v
Feedback.v
Tools.v
ApproveWhen.v
FeedbackService.v
FeedbackVotes.v
FeedbackSafety.v
FeedbackLearning.v
Approvals.v
Trajectories.v
Procedures.v
ToolEdges.v
Learning.v
ConversationRepo.v
Summary.v
Profile.v
Conversation.v
Archive.v
ArchiveSafety.v
