(* ===== verification/Prelude.v ===== *)
(** * The agent memory service: a verification development

    The service (src/src/memory_service/) stores the conversations, memories and
    documents of many tenants' agents, decides who may read each of them, and
    answers from caches that must never widen that decision. This library
    models its core, component by component, as executable definitions over
    explicit state, and proves what makes each component correct.

    ** The parts of the program and the files that model them

    Paths are under src/src/memory_service/. [domain/] holds the data,
    [modules/] the services, [adapters/] the stores behind the [ports/]
    interfaces, [api/] the HTTP layer.

    - [Prelude] : the state-and-exception monad [prog] of the service's
      coroutines, the JSON values they persist, and lemmas on lists, strings and
      maps. It models no code of the service.
    - [Errors] : domain/errors.py; every exception class with its code, HTTP
      status and retry flag. [Ids] : domain/ids.py. [Context] :
      domain/context.py, the execution context a request carries, its
      validators, its principal and its fingerprints.
    - [Reach] : least fixed points by bounded iteration over a finite graph;
      the termination argument of [Rebac]. [Rebac] : adapters/authz/model.py
      and memory_provider.py, the relationship-based authorization model
      (tuples, rewrite rules, check, object listing). [AuthzProvider] :
      ports/authorization.py, the port as a class with laws, which the
      in-memory provider is proved to satisfy; its clients are proved against
      the laws.
    - [Visibility] : modules/authz/visibility.py and the filter of
      ports/search.py: the audience keys of an object, the scope of a
      principal, the decision. [AuthzService] : modules/authz/service.py and
      scope.py: resolving a scope, caching it, deciding, and every grant.
      [ScopeCache] : readers and grants interleaved over the scope cache.
    - [Revisions] : domain/revisions.py with the counters of
      adapters/db/repositories.py, modules/memory/revisions.py and the keys the
      context builder reads.
    - [Cache] : ports/cache.py as a class with laws and
      adapters/cache/memory_cache.py as its instance. [HotThread] :
      modules/working_memory/hot_thread.py over it.
    - [Tenancy] : domain/tenancy.py. [TenancyRepo] :
      adapters/db/tenancy_repository.py. [TenancyService] :
      modules/tenancy/service.py and gate.py. [TenantRegistry] :
      modules/tenancy/registry.py. [ApiKeys] : modules/auth/keys.py.
    - [Idempotency] : modules/idempotency/service.py and api/idempotent.py.
    - [Tasks] : ports/tasks.py and the enqueueing half of
      adapters/tasks/inline_queue.py. [Outbox] : the outbox table of
      adapters/db/repositories.py and the relay of adapters/db/uow.py.
      [UnitOfWork] : adapters/db/uow.py, one transaction with its revision
      bumps and jobs.
    - [MemoryModel] : domain/memory.py, domain/evidence.py and the pure parts of
      modules/memory/pipeline.py and replacement.py: a memory, its scope and
      temporal state, building one from a candidate, superseding it, marking it
      replaced. [MemoryRepo] : adapters/db/memory_repository.py, the rows with
      the cascade that retracts what was derived from a changed memory, and the
      keyset listing. [MemoryService] : modules/memory/service.py and the
      restore of forgetting.py over the repository, the authorization service,
      the outbox and the revision counters.
    - [Messages] : domain/conversation.py, threads, sessions, turns and messages
      with the JSON a message is cached as. [ConversationRepo] : the thread,
      session, turn, message, run and observation repositories of
      adapters/db/repositories.py with the constraints of their tables.
      [Conversation] : modules/conversation/service.py over them, the
      authorization service, the outbox and [HotThread].
    - [Json] : Python's json.dumps and json.loads and str.splitlines, which the
      archive is written with. [Blob] : ports/blob.py as a class with laws and
      adapters/blob/memory.py as its instance. [Segments] :
      modules/archive/segments.py. [Archive] : modules/archive/service.py and
      the archive repository. [ArchiveSafety] : the archive's operations as
      steps of a transition system in which a crash, a lost answer or another
      worker may come between any two transactions or calls.
    - [Text] : characters and strings as ingestion uses them: UTF-8, whitespace,
      token estimates (domain/text.py, modules/ingestion/hierarchy.py), and an
      executable engine for its regular expressions. [Documents] :
      domain/documents.py. [Hierarchy] : modules/ingestion/hierarchy.py.
      [Chunking] : modules/ingestion/chunking.py, and [ChunkingCorrect] its
      theorems.
    - [MemoryUow] : the memory repository inside the unit of work of
      adapters/db/uow.py. [Retention] : modules/tenancy/retention.py over it.
    - [Window] : modules/context/window.py and [render_window] of
      modules/context/builder.py, the conversation a caller replays.
    - [Dict] : Python's insertion-ordered dict and stable sort. [GraphStore] :
      adapters/graph/memory_store.py with modules/graph/invalidation.py and
      domain/graph.py, the entities and bitemporal facts of the knowledge graph.
    - [Summary] : modules/conversation/summary.py and the thread summaries of
      adapters/db/profile_repository.py; a refresh is two units of work.
    - [Profile] : modules/profile/service.py, domain/profile.py and the blocks of
      adapters/db/profile_repository.py; a job reads in one unit of work and writes
      in another, with the model's answer between them an argument.
    - [JsonText] : JSON values as Python's json module writes them. [Feedback] :
      domain/feedback.py, modules/feedback/votes.py and
      adapters/db/feedback_repository.py: the judgements, their review queue and
      their votes. [Tools] : domain/tools.py, domain/learning.py and the tables of
      adapters/db/tool_repository.py that feedback reads and writes.
      [FeedbackService] : modules/feedback/service.py, the service and the
      projector that applies a judgement to memories, runs, calls and procedures.
      [FeedbackVotes] : whose vote counts, as an invariant of the table;
      [FeedbackSafety] and [FeedbackLearning] : the operations as steps of a
      transition system, and what every interleaving keeps.
    - [ApproveWhen] : src/sdk/python/src/trellis/memory/approval.py, the lexer,
      parser and evaluator of approval expressions. [Approvals] :
      modules/tools/approvals.py, the rules decisions support and accepting one.
    - [Trajectories] : modules/tools/trajectories.py, runs of tool calls and the
      statistics of what follows what. [Procedures] : modules/tools/procedures.py,
      the procedure mined from them. [ToolEdges] : modules/tools/edges.py, the
      facts a call adds to the graph. [Learning] : modules/tools/learning.py with
      the procedures table, the job that keeps one procedure of a task pattern.
    ** How the state and the operations correspond

    A coroutine that reads and writes stores is a [prog S A], a function from
    the state [S] to an outcome and a state; an exception is [Raise e] with the
    state as it was when it was raised, so a database transaction's rollback is
    written where the code has it ([UnitOfWork.with_uow],
    [TenancyService.transact], [Idempotency.in_uow]); tuples written to the
    authorization provider are outside the transaction and stay. A table is a
    [gmap] from its primary key; a query filters its rows and sorts them by the
    columns of its ORDER BY. Time is an integer argument (in seconds),
    randomness an argument (the fresh id or
    secret), and a cache that is away is a flag of the cache state. Concurrency
    is modelled where a property is about it: the steps of a request are
    separated at its awaits and a step relation interleaves them ([ApiKeys],
    [ScopeCache], [TenancyService.tsteps], [HotThread.hstep],
    [TenantRegistry.refresh]).

    ** What the theorems show

    - Reading: a document, memory or message passes a principal's filter exactly
      when the principal is in its audience ([Visibility]), the filter resolves
      what the authorization tuples say ([AuthzService], [Rebac]), a scope read
      through the cache is what resolving it gave at some instant since the last
      committed grant that moved its revision, so it is up to date unless tuples
      were written without such a bump ([ScopeCache], with the run of a workspace
      created unseen), keys of one tenant match nothing of another.
    - Authorization: check answers the least relation the rules define,
      terminates on cyclic tuples, writes keep the store well typed.
    - Caches: what is served is what the store holds, or a miss, with the
      exceptions stated as theorems about the code's own gaps.
    - Tenancy: the tuples of a workspace's roles mirror its member rows as long as
      no request that touched them failed after writing a tuple, be it a provider
      that went away or a commit that failed ([roles_mirror_members], with a run
      where one did); deletion is complete and final, a revoked
      key is refused by every process, administrative changes reach every
      process, a quota follows the key.
    - Effects: a request with an idempotency key runs once; a unit of work is
      all or nothing; every job of the outbox is dispatched or gives up within a
      bounded number of sweeps, in order.
    - Memories: a page of the listing is exactly the readable memories below its
      cursor, newest first; forgetting a memory takes its twins and everything
      derived from it, for ever; superseding leaves one current version linked
      both ways to a closed history; saying the same thing twice stores it once;
      an agent never changes what a person said.
    - Conversations: the messages of a thread are numbered 1, 2, ... in the order
      they are appended, and nothing else writes them; an import stores a source
      message once; answers share the turn of their question; a page is the newest
      messages the thread may show, whether the cache or the store answers; a
      deleted thread takes no message and cannot be created again. The cached list
      may have lost, late and reordered pushes; the one run in which it is stale, an
      internal message pushed over a missing visible one, is exhibited.
    - The archive: a segment reads back as the records it was built from; the
      grouping is a greedy partition within its limits; archiving a segment is
      all or nothing; in every state of the transition system a message's text
      is in its row or in a stored segment, and a purged one is read from there;
      three runs show how a reader can still miss it.
    - Ingestion: a document's blocks become a tree in reading order whose page
      ranges nest; its chunks lose no character that is not white space (but the
      header of a table over the budget whose other rows are blank), stay within the
      token budget, and break sentences only at their ends.
    - Retention: a sweep deletes exactly the memories older than their tenant
      keeps them, oldest first, and repeated sweeps reach every one of them.
    - The conversation window: calls are never parted from their results, the
      budget holds unless the newest turn alone is over it, what is shown is the
      end of the thread in order, and the grade of the evidence follows the record.
    - The graph: the in-memory walk returns exactly the visible entities within its
      hops, those behind a hidden one included, and discloses nothing else; facts are closed, never lost, and what was true or
      known before they were closed stays so.
    - The summary: overlapping refreshes keep one gapless history of versions,
      each a fold of the one before; enough refreshes leave nothing unread; the
      extractive digest is bounded and keeps the newest lines.
    - Feedback: of one voter's votes on a target one counts, and an older applied
      one was reversed once; a judgement is stored, decided and applied once; an
      approval counts only while a recorded call is left that backs it; a run's
      outcome is the word of the highest rank. The first two hold of [orderly] steps,
      the third of steps that [reads_all]; both conditions are the limits of the
      code's own reads.
    - Approval rules: a learned rule changes exactly the calls of its argument
      shape, and accepting one never makes a tool ask less.
    - Tool learning: the statistics of a pair of tools are exactly those of the
      runs with it; a mined procedure is a chain that enough successful runs
      followed, and its arguments come from outputs of earlier steps or were the
      same in every run; the job leaves nothing of its batch to learn, and makes
      active only what two successful runs or more followed, six in ten at least of
      those that followed it, and one of them lately.
    - The profile: a refresh that read a block never loses an edit of fewer than
      4000 characters; two runs show how the others lose one.
    ** Bounds and fuel

    [Rebac.check_rec] takes fuel; [check] runs it with one more than the number
    of nodes reachable in the tuple store, and [check_terminates] shows that more
    fuel never changes the answer. Every other recursion is structural or over
    a list the code iterates. Constants of config/constants.py are definitions
    of the component that uses them, with their values. Python integers are
    [Z]; there are no machine-width integers in the modelled code.

    ** Parameters

    SHA-256 and JSON text are parameters ([content_hash], codecs with a
    round-trip law), instantiated by concrete functions in the witnesses.

    ** Not modelled

    - Language models, embeddings, rerankers, search engines, blob stores,
      parsers, the PostgreSQL and Redis adapters, OpenFGA and Procrastinate:
      clients of services whose behaviour is not in the source.
    - The FastAPI routes and schemas, configuration, wiring, logging, metrics,
      command-line tools and the SDK: glue over the modelled services.
    - Limits of the models: in [UnitOfWork] the database's commit is not an
      operation that can fail of its own: a commit that fails is a body that
      raises in its place, with the same rollback ([TenancyService] and
      [ScopeCache] have failing commits); an authorization write either happens or
      raises, with nothing or all of its tuples written; [TenantRegistry] takes the fields of a message to be strings when
      present; [UnitOfWork] always has a relay; the listener and refresh
      loops' timing is not modelled.
    - [MemoryService] runs on the working copy of its unit of work (the commit
      is [UnitOfWork]'s); the row lock of [lock] is a no-op of the sequential
      model; language detection, date mentions and the normalised hash are
      parameters.
    - [ConversationRepo] has the primary keys, foreign keys and unique columns of
      its tables but no column widths; the advisory lock of an append is a no-op
      of the sequential model; attachments are read in insertion order; the
      full-text search of a user's recent messages ([owned_recent]) is left out,
      and [str] of a client label that is not a string is a parameter.
    - [Json] has integers as its only numbers; compression and the digest are
      parameters ([compress] with the law that [decompress] undoes it, [sha]);
      the blob store's laws say that stored objects stay as they are, so bit rot
      is outside the model while failed calls and lost answers are in it.
    - [Text] takes the tables of Unicode white space and decimal digits as the
      functions [isspace] and [isdecimal] over scalar values; [Chunking] takes
      entity extraction and footnote citations as arguments, and the situating
      of chunks by a language model is left out.
    - An operation on feedback is one atomic unit of work: its advisory locks are
      no-ops of the sequential model. The step relations are unrestricted; what is
      proved of one voter's votes is of steps with [FeedbackSafety.in_order] (a
      submission at a clock later than the records of its target, a projection while
      at most 20 approved votes of the voter on the target, [APPLIED_LIMIT], are
      stored), and of counted approvals of steps with [FeedbackLearning.reads_all] (at
      most 500 counted decisions, [APPROVAL_DECISIONS_READ]): the code reads no further.
      Confidence is an exact rational; [repr] of an argument, [log10] and
      the rounding of a decimal literal are parameters; a suggestion's identifier
      is taken as the agent, tool and shape it encodes.
    - The learning job is one sequence: a feedback that changes an outcome between
      its transactions is not interleaved. Case folding, formatting a number with
      ten digits, the values a task names, rounding, JSON floats and entity names
      are parameters of [Procedures], [ToolEdges] and [Learning].
    *)
From Stdlib Require Export ZArith Lia Ascii String.
From Stdlib Require Import DecimalString DecimalZ DecimalPos.
From stdpp Require Export base tactics list gmap strings sorting.

#[global] Open Scope string_scope.
#[global] Open Scope list_scope.
#[global] Open Scope Z_scope.

#[global] Arguments String.append !_ _ / : simpl nomatch.

Declare Scope prog_scope.
Delimit Scope prog_scope with prog.

(** ** Outcomes and the state-and-exception monad

    A Python coroutine of the service reads and writes the state [S] of the
    stores it was given and ends with a value or with an exception of type [E].
    The state reached when an exception is raised is kept, as Python keeps it:
    nothing is rolled back unless the code does it. *)

Inductive outcome (E A : Type) : Type :=
| Ok (a : A)
| Raise (e : E).
Arguments Ok {E A} a.
Arguments Raise {E A} e.

Definition M (E S A : Type) : Type := S → outcome E A * S.

Definition ret {E S A} (a : A) : M E S A := λ s, (Ok a, s).

Definition raise {E S A} (e : E) : M E S A := λ s, (Raise e, s).

Definition bind {E S A B} (m : M E S A) (k : A → M E S B) : M E S B :=
  λ s, match m s with
       | (Ok a, s') => k a s'
       | (Raise e, s') => (Raise e, s')
       end.

Definition gets {E S A} (f : S → A) : M E S A := λ s, (Ok (f s), s).

Definition modify {E S} (f : S → S) : M E S unit := λ s, (Ok tt, f s).

(** [try m h]: run [m]; an exception [e] for which [h e] is a handler is
    caught, and the handler runs in the state the exception left. *)
Definition try {E S A} (m : M E S A) (h : E → option (M E S A)) : M E S A :=
  λ s, match m s with
       | (Raise e, s') => match h e with
                          | Some k => k s'
                          | None => (Raise e, s')
                          end
       | r => r
       end.

Notation "x <- m ;; k" := (bind m (λ x, k))
  (at level 100, m at next level, right associativity) : prog_scope.
Notation "m ;;; k" := (bind m (λ _, k))
  (at level 100, right associativity) : prog_scope.

(** [zoom get put m] runs a step of a component inside a larger state. *)
Definition zoom {E S T A} (get : T → S) (put : S → T → T) (m : M E S A) : M E T A :=
  λ t, let '(r, s') := m (get t) in (r, put s' t).

Fixpoint mapM_ {E S A} (f : A → M E S unit) (l : list A) : M E S unit :=
  match l with
  | [] => ret tt
  | x :: l' => bind (f x) (λ _, mapM_ f l')
  end.

Definition obind {E A B} (m : outcome E A) (k : A → outcome E B) : outcome E B :=
  match m with
  | Ok a => k a
  | Raise e => Raise e
  end.

(** ** Strings

    A Python [str] is a [string] of 8-bit characters. The service only joins
    strings and cuts them at ASCII separators, so nothing depends on how a
    character above 127 is encoded. *)

Fixpoint str_in (c : ascii) (s : string) : bool :=
  match s with
  | EmptyString => false
  | String a s' => if Ascii.eqb a c then true else str_in c s'
  end.

(** [str_partition c s] is [s.partition(c)]: the text before the first [c],
    whether there is one, and the text after it. *)
Fixpoint str_partition (c : ascii) (s : string) : string * bool * string :=
  match s with
  | EmptyString => (EmptyString, false, EmptyString)
  | String a s' =>
      if Ascii.eqb a c then (EmptyString, true, s')
      else let '(l, b, r) := str_partition c s' in (String a l, b, r)
  end.

(** [str_rpart c s] is [s.rsplit(c, 1)[-1]]: the text after the last [c]. *)
Fixpoint str_rpart (c : ascii) (s : string) : string :=
  match s with
  | EmptyString => EmptyString
  | String a s' => if str_in c s' then str_rpart c s'
                   else if Ascii.eqb a c then s' else String a s'
  end.

Fixpoint str_forall (p : ascii → bool) (s : string) : bool :=
  match s with
  | EmptyString => true
  | String a s' => p a && str_forall p s'
  end.

(** [s[len(p):]] when [s] starts with [p]. *)
Fixpoint strip_prefix (p s : string) : option string :=
  match p, s with
  | EmptyString, _ => Some s
  | String a p', String b s' => if Ascii.eqb a b then strip_prefix p' s' else None
  | String _ _, EmptyString => None
  end.

Definition truthy (s : string) : bool := negb (String.eqb s "").

(** Python truth of an optional string: neither [None] nor [""]. *)
Definition otruthy (o : option string) : bool :=
  match o with
  | Some s => truthy s
  | None => false
  end.

(** [o or d] for an optional string. *)
Definition or_str (o : option string) (d : string) : string :=
  match o with
  | Some s => if truthy s then s else d
  | None => d
  end.

(** [a or b] for two optional strings. *)
Definition or_opt (a b : option string) : option string :=
  if otruthy a then a else b.

Fixpoint str_join (sep : string) (l : list string) : string :=
  match l with
  | [] => ""
  | [x] => x
  | x :: l' => x +:+ sep +:+ str_join sep l'
  end.

(** [str(n)] and [int(s)] on the decimal text the service itself writes (Python
    also accepts blanks and underscores in [int], which no modelled code
    writes). *)
Definition text_of_Z (n : Z) : string := NilZero.string_of_int (Z.to_int n).
Definition Z_of_text (s : string) : option Z := Z.of_int <$> NilZero.int_of_string s.

(** ** Lists *)

Fixpoint dedup_from {A} `{EqDecision A} (seen : list A) (l : list A) : list A :=
  match l with
  | [] => []
  | x :: l' => if decide (x ∈ seen) then dedup_from seen l'
               else x :: dedup_from (x :: seen) l'
  end.

(** [list(dict.fromkeys(l))]: duplicates dropped, the first kept. *)
Definition fromkeys {A} `{EqDecision A} (l : list A) : list A := dedup_from [] l.

(** [l[-n:]] for [n > 0]. *)
Definition lastn {A} (n : nat) (l : list A) : list A := drop (length l - n)%nat l.

(** Strings ordered as Python orders them (by code point). *)
Definition str_le (a b : string) : Prop := String.leb a b = true.
#[export] Instance str_le_dec a b : Decision (str_le a b).
Proof. unfold str_le. apply _. Defined.

Definition str_sorted (l : list string) : list string := merge_sort str_le l.

(** ** JSON values: what [dict[str, Any]] fields hold *)

#[warnings="-register-all"]
Inductive json : Set :=
| JNull
| JBool (b : bool)
| JNum (n : Z)
| JStr (s : string)
| JList (l : list json)
| JObj (fields : list (string * json)).

(** ** Lemmas on programs *)

Lemma bind_ok {E S A B} (m : M E S A) (k : A → M E S B) s x s' :
  m s = (Ok x, s') → bind m k s = k x s'.
Proof. unfold bind. by intros ->. Qed.

Lemma bind_raise {E S A B} (m : M E S A) (k : A → M E S B) s e s' :
  m s = (Raise e, s') → bind m k s = (Raise e, s').
Proof. unfold bind. by intros ->. Qed.

Lemma bind_Ok_inv {E S A B} (m : M E S A) (k : A → M E S B) s y s' :
  bind m k s = (Ok y, s') → ∃ x s1, m s = (Ok x, s1) ∧ k x s1 = (Ok y, s').
Proof. unfold bind. destruct (m s) as [[x|e] s1]; [|done]. by exists x, s1. Qed.

Lemma bind_ext {E S A B} (m : M E S A) (k1 k2 : A → M E S B) s :
  (∀ a s', k1 a s' = k2 a s') → bind m k1 s = bind m k2 s.
Proof. intros Hk. unfold bind. destruct (m s) as [[a|e] s']; [apply Hk|done]. Qed.

Lemma mapM__fmap {E S A B} (f : B → M E S unit) (g : A → B) l s :
  mapM_ f (g <$> l) s = mapM_ (λ x, f (g x)) l s.
Proof.
  revert s. induction l as [|x l IH]; intros s; [done|]. csimpl. apply bind_ext. intros _ s'. apply IH.
Qed.

(** *** What a program leaves alone *)

Definition leaves {E S A V} (f : S → V) (m : M E S A) : Prop := ∀ s, f (snd (m s)) = f s.

Section leaves.
Context {E S V : Type} (f : S → V).

Lemma leaves_run {A} (m : M E S A) s r s' : leaves f m → m s = (r, s') → f s' = f s.
Proof. intros Hm Hr. pose proof (Hm s) as Hs. by rewrite Hr in Hs. Qed.

Lemma leaves_ret {A} (a : A) : leaves f (ret (E := E) a).
Proof. done. Qed.

Lemma leaves_raise {A} (e : E) : leaves f (raise (A := A) e).
Proof. done. Qed.

Lemma leaves_gets {A} (g : S → A) : leaves f (gets (E := E) g).
Proof. done. Qed.

Lemma leaves_modify (g : S → S) : (∀ s, f (g s) = f s) → leaves f (modify (E := E) g).
Proof. intros Hg s. apply Hg. Qed.

Lemma leaves_bind {A B} (m : M E S A) (k : A → M E S B) : leaves f m → (∀ a, leaves f (k a)) → leaves f (bind m k).
Proof.
  intros Hm Hk s. unfold bind. pose proof (Hm s) as Hs. destruct (m s) as [[a|e] s']; [|done]. cbn in *. by rewrite Hk.
Qed.

Lemma leaves_if {A} (b : bool) (m m' : M E S A) : leaves f m → leaves f m' → leaves f (if b then m else m').
Proof. by destruct b. Qed.

Lemma leaves_mapM {A} (g : A → M E S unit) l : (∀ x, leaves f (g x)) → leaves f (mapM_ g l).
Proof. intros Hg. induction l as [|x l IH]; [done|]. by apply leaves_bind. Qed.

(** A component beside [f], or one [f] is read from. *)
Lemma leaves_away {T A} (get : S → T) put (m : M E T A) : (∀ x s, f (put x s) = f s) → leaves f (zoom get put m).
Proof. intros Hput s. unfold zoom. destruct (m (get s)). apply Hput. Qed.

Lemma leaves_zoom {T A} (g : T → V) (get : S → T) put (m : M E T A) :
  (∀ s, f s = g (get s)) → (∀ x s, get (put x s) = x) → leaves g m → leaves f (zoom get put m).
Proof.
  intros Hf Hput Hm s. unfold zoom. pose proof (Hm (get s)) as Hs. destruct (m (get s)) as [r x]. cbn in *.
  by rewrite !Hf, Hput.
Qed.
End leaves.

(** *** What a program keeps, whether it raises or not *)

Definition within {E S A} (R : S → S → Prop) (m : M E S A) : Prop := ∀ s, R s (snd (m s)).

Section within.
Context {E S : Type} (R : S → S → Prop) `{!PreOrder R}.

Lemma within_run {A} (m : M E S A) s r s' : within R m → m s = (r, s') → R s s'.
Proof. intros Hm Hr. pose proof (Hm s) as Hs. by rewrite Hr in Hs. Qed.

Lemma within_ret {A} (a : A) : within R (ret (E := E) a).
Proof. intros s. reflexivity. Qed.

Lemma within_raise {A} (e : E) : within R (raise (A := A) e).
Proof. intros s. reflexivity. Qed.

Lemma within_gets {A} (g : S → A) : within R (gets (E := E) g).
Proof. intros s. reflexivity. Qed.

Lemma within_bind {A B} (m : M E S A) (k : A → M E S B) : within R m → (∀ a, within R (k a)) → within R (bind m k).
Proof.
  intros Hm Hk s. unfold bind. pose proof (Hm s) as Hs. destruct (m s) as [[a|e] s']; [|done]. cbn in *.
  etrans; [exact Hs|apply Hk].
Qed.

(** The rest of the program only sees what [m] returns. *)
Lemma within_bind_when {A B} (post : A → Prop) (m : M E S A) (k : A → M E S B) :
  within R m → (∀ s a s', m s = (Ok a, s') → post a) → (∀ a, post a → within R (k a)) → within R (bind m k).
Proof.
  intros Hm Hpost Hk s. unfold bind. pose proof (Hm s) as Hs. destruct (m s) as [[a|e] s'] eqn:Hrun; [|done]. cbn in *.
  etrans; [exact Hs|]. apply Hk. by eapply Hpost.
Qed.

Lemma within_if {A} (b : bool) (m m' : M E S A) : within R m → within R m' → within R (if b then m else m').
Proof. by destruct b. Qed.

Lemma within_mapM {A} (g : A → M E S unit) l : (∀ x, within R (g x)) → within R (mapM_ g l).
Proof. intros Hg. induction l as [|x l IH]; [apply within_ret|]. by apply within_bind. Qed.

(** A relation on what the program leaves alone. *)
Lemma within_leaves {A V} (f : S → V) (m : M E S A) : (∀ s s', f s' = f s → R s s') → leaves f m → within R m.
Proof. intros HR Hm s. apply HR, Hm. Qed.
End within.

(** ** Lemmas on strings *)

Lemma Z_to_int_nonnil n : Z.to_int n ≠ Decimal.Pos Decimal.Nil ∧ Z.to_int n ≠ Decimal.Neg Decimal.Nil.
Proof.
  destruct n as [|p|p]; simpl; split; try discriminate; intros H; injection H as H;
    by apply (DecimalPos.Unsigned.to_uint_nonnil p).
Qed.

Lemma Z_of_text_of_Z n : Z_of_text (text_of_Z n) = Some n.
Proof.
  unfold Z_of_text, text_of_Z. pose proof (Z_to_int_nonnil n) as [H1 H2].
  rewrite NilZero.isi by done. simpl. by rewrite DecimalZ.of_to.
Qed.

Lemma text_of_Z_inj n m : text_of_Z n = text_of_Z m → n = m.
Proof. intros H. apply (f_equal Z_of_text) in H. rewrite !Z_of_text_of_Z in H. congruence. Qed.

Section strings.
Implicit Types (c : ascii) (s a b p : string).

Lemma str_app_nil_r s : s +:+ "" = s.
Proof. induction s; simpl; congruence. Qed.

Lemma str_app_assoc a b s : (a +:+ b) +:+ s = a +:+ (b +:+ s).
Proof. induction a; simpl; congruence. Qed.

Lemma str_app_cancel_l p a b : p +:+ a = p +:+ b → a = b.
Proof. induction p; simpl; [done | intros [= H]; auto]. Qed.

Lemma str_in_app c a b : str_in c (a +:+ b) = str_in c a || str_in c b.
Proof. induction a as [|x a IH]; simpl; [done|]. by destruct (Ascii.eqb x c). Qed.

Lemma str_partition_app c a b :
  str_in c a = false → str_partition c (a +:+ String c b) = (a, true, b).
Proof.
  induction a as [|x a IH]; simpl; [by rewrite Ascii.eqb_refl|].
  destruct (Ascii.eqb x c); [done | intros H; by rewrite IH].
Qed.

Lemma str_partition_none c s :
  str_in c s = false → str_partition c s = (s, false, "").
Proof.
  induction s as [|x s IH]; simpl; [done|].
  destruct (Ascii.eqb x c); [done | intros H; by rewrite IH].
Qed.

(** What [partition] returns puts the string back together. *)
Lemma str_partition_inv c s l r :
  str_partition c s = (l, true, r) → s = l +:+ String c r ∧ str_in c l = false.
Proof.
  revert l r; induction s as [|x s IH]; simpl; intros l r; [done|].
  destruct (Ascii.eqb_spec x c) as [->|Hne]; [by intros [= <- <-]|].
  destruct (str_partition c s) as [[l' b] r'] eqn:E; intros [= <- -> <-].
  destruct (IH _ _ eq_refl) as [-> Hl]. simpl.
  by rewrite (proj2 (Ascii.eqb_neq x c) Hne).
Qed.

(** Two strings joined at a character neither head contains are equal only
    piecewise. *)
Lemma str_sep_inj c a a' b b' :
  str_in c a = false → str_in c a' = false →
  a +:+ String c b = a' +:+ String c b' → a = a' ∧ b = b'.
Proof.
  intros Ha Ha' H. apply (f_equal (str_partition c)) in H.
  rewrite !str_partition_app in H by done. by simplify_eq.
Qed.

Lemma strip_prefix_app p s : strip_prefix p (p +:+ s) = Some s.
Proof. induction p; simpl; [by destruct s | by rewrite Ascii.eqb_refl]. Qed.

Lemma strip_prefix_Some p s r : strip_prefix p s = Some r → s = p +:+ r.
Proof.
  revert s; induction p as [|x p IH]; intros [|y s]; simpl; try congruence.
  destruct (Ascii.eqb_spec x y) as [->|]; [intros H; by rewrite (IH _ H) | done].
Qed.

Lemma str_forall_not_in q c s : str_forall q s = true → q c = false → str_in c s = false.
Proof.
  induction s as [|x s IH]; simpl; [done|]. intros [Hx Hs]%andb_true_iff Hc.
  destruct (Ascii.eqb_spec x c) as [->|]; [congruence | auto].
Qed.

Lemma truthy_spec s : truthy s = true ↔ s ≠ "".
Proof. unfold truthy. destruct (String.eqb_spec s ""); naive_solver. Qed.

Lemma str_join_cons sep x l :
  l ≠ [] → str_join sep (x :: l) = x +:+ sep +:+ str_join sep l.
Proof. by destruct l. Qed.

(** A join by a separator character no part contains determines the parts. *)
Lemma str_join_inj c l l' :
  length l = length l' →
  Forall (λ x, str_in c x = false) l → Forall (λ x, str_in c x = false) l' →
  str_join (String c "") l = str_join (String c "") l' → l = l'.
Proof.
  revert l'; induction l as [|x l IH]; intros [|y l'] Hlen Hl Hl' Heq; try done.
  apply Forall_cons in Hl as [Hx Hl], Hl' as [Hy Hl'].
  injection Hlen as Hlen.
  destruct l as [|x' l], l' as [|y' l']; try done; [simpl in Heq; by subst|].
  rewrite !str_join_cons in Heq by done.
  apply str_sep_inj in Heq as [-> Heq]; [|done..].
  f_equal. by apply IH.
Qed.
(** The same without the lengths, for lists that are not empty. *)
Lemma str_join_inj_ne c l l' :
  l ≠ [] → l' ≠ [] →
  Forall (λ x, str_in c x = false) l → Forall (λ x, str_in c x = false) l' →
  str_join (String c "") l = str_join (String c "") l' → l = l'.
Proof.
  assert (∀ x y m, str_in c x = false → m ≠ [] → x ≠ str_join (String c "") (y :: m)) as Hone.
  { intros x y m Hx Hm Heq. rewrite str_join_cons in Heq by done. rewrite Heq, str_in_app in Hx.
    apply orb_false_iff in Hx as [_ Hx]. rewrite str_in_app in Hx. simpl in Hx. by rewrite Ascii.eqb_refl in Hx. }
  revert l'; induction l as [|x l IH]; intros [|y l'] Hne Hne' Hl Hl' Heq; try done.
  apply Forall_cons in Hl as [Hx Hl], Hl' as [Hy Hl'].
  destruct l as [|x' l], l' as [|y' l']; [by simpl in Heq; subst|by apply Hone in Heq|
    by symmetry in Heq; apply Hone in Heq|].
  rewrite !str_join_cons in Heq by done.
  apply (str_sep_inj c) in Heq as [<- Heq]; [|done..]. f_equal. by apply IH.
Qed.

End strings.

(** ** Lemmas on lists *)

Section lists.
Context {A : Type}.
Implicit Types (l : list A).

Lemma lastn_length n l : (length (lastn n l) = Nat.min n (length l))%nat.
Proof. unfold lastn. rewrite length_drop. lia. Qed.

Lemma lastn_all n l : (length l ≤ n)%nat → lastn n l = l.
Proof. intros H. unfold lastn. by replace (length l - n)%nat with 0%nat by lia. Qed.

Lemma lastn_app_r n l1 l2 :
  (n ≤ length l2)%nat → lastn n (l1 ++ l2) = lastn n l2.
Proof.
  intros H. unfold lastn. rewrite length_app, drop_app_ge by lia. f_equal. lia.
Qed.

Lemma lastn_lastn n m l : (n ≤ m)%nat → lastn n (lastn m l) = lastn n l.
Proof.
  intros H. unfold lastn. rewrite drop_drop, length_drop. f_equal. lia.
Qed.

Lemma lastn_snoc n l x : lastn (S n) (l ++ [x]) = lastn n l ++ [x].
Proof.
  unfold lastn. rewrite length_app, drop_app_le by (simpl; lia). do 2 f_equal.
  simpl. lia.
Qed.

Lemma elem_of_lastn n l x : x ∈ lastn n l → x ∈ l.
Proof. unfold lastn. intros H. by eapply subseteq_drop. Qed.

Lemma fmap_lastn {B} (f : A → B) n l : f <$> lastn n l = lastn n (f <$> l).
Proof. unfold lastn. by rewrite length_fmap, <- fmap_drop. Qed.

Context `{EqDecision A}.

Lemma elem_of_dedup_from seen l x : x ∈ dedup_from seen l ↔ x ∈ l ∧ x ∉ seen.
Proof.
  revert seen; induction l as [|y l IH]; intros seen; simpl; [set_solver|].
  case_decide; [rewrite IH; set_solver|].
  rewrite elem_of_cons, IH, not_elem_of_cons.
  destruct (decide (x = y)); set_solver.
Qed.

Lemma elem_of_fromkeys l x : x ∈ fromkeys l ↔ x ∈ l.
Proof. unfold fromkeys. rewrite elem_of_dedup_from. set_solver. Qed.

Lemma NoDup_fromkeys l : NoDup (fromkeys l).
Proof.
  unfold fromkeys. generalize (@nil A). induction l as [|y l IH]; intros seen; simpl.
  - constructor.
  - case_decide; [apply IH|]. constructor; [|apply IH].
    rewrite elem_of_dedup_from. set_solver.
Qed.

Lemma fromkeys_NoDup_id l : NoDup l → fromkeys l = l.
Proof.
  unfold fromkeys. intros Hl. assert (∀ x, x ∈ l → x ∉ (@nil A)) as H by set_solver.
  revert H. generalize (@nil A). induction Hl as [|y l Hy Hl IH]; intros seen H; simpl; [done|].
  case_decide; [set_solver|]. f_equal. apply IH. set_solver.
Qed.
End lists.

Section filtering.
Context {A : Type} (P : A → Prop) `{∀ x, Decision (P x)}.
Implicit Types (l : list A).

Lemma Forall_filter (Q : A → Prop) l : Forall Q l → Forall Q (filter P l).
Proof. rewrite !Forall_forall. intros HQ x [_ Hx]%list_elem_of_filter. auto. Qed.

Lemma Sorted_take {B} (R : B → B → Prop) n (l : list B) : Sorted R l → Sorted R (take n l).
Proof.
  intros Hl. revert n. induction Hl as [|x l Hl IH Hx]; intros [|n]; try constructor; [apply IH|].
  destruct l as [|y l], n; simpl; constructor. by inversion Hx.
Qed.

Lemma StronglySorted_filter R l : StronglySorted R l → StronglySorted R (filter P l).
Proof.
  induction 1 as [|x l _ IH Hx]; [constructor|].
  destruct (decide (P x)); [rewrite filter_cons_True by done|by rewrite filter_cons_False].
  constructor; [done|by apply Forall_filter].
Qed.
End filtering.

Lemma StronglySorted_lookup {A} (R : A → A → Prop) l i j x y :
  StronglySorted R l → l !! i = Some x → l !! j = Some y → (i < j)%nat → R x y.
Proof.
  intros H. revert i j. induction H as [|z l _ IH Hz]; intros i j Hx Hy Hlt; [done|].
  destruct j as [|j]; [lia|]. destruct i as [|i]; simpl in *; simplify_eq; [|eapply IH; eauto; lia].
  rewrite Forall_lookup in Hz. by eapply Hz.
Qed.

Lemma Sorted_lookup_S {A} (R : A → A → Prop) l k x y : Sorted R l → l !! k = Some x → l !! S k = Some y → R x y.
Proof.
  intros H. revert k. induction H as [|z l _ IH Hz]; intros k Hx Hy; [done|].
  destruct k as [|k]; simpl in *; [|by eapply IH]. simplify_eq. destruct l; simplify_eq/=. by inversion Hz.
Qed.

Section sorting.

#[export] Instance str_le_total : Total str_le.
Proof. intros a b. unfold str_le. destruct (String.leb_total a b); auto. Qed.

Lemma str_sorted_perm l : str_sorted l ≡ₚ l.
Proof. apply merge_sort_Permutation. Qed.

Lemma leb_cons a s b t :
  String.leb (String a s) (String b t) =
  match Ascii.compare a b with Lt => true | Eq => String.leb s t | Gt => false end.
Proof. unfold String.leb. simpl. by destruct (Ascii.compare a b). Qed.

#[export] Instance str_le_transitive : Transitive str_le.
Proof.
  intros x. unfold str_le. induction x as [|a x IH]; intros [|b y] [|c z]; try done.
  rewrite !leb_cons. unfold Ascii.compare.
  destruct (N.compare_spec (N_of_ascii a) (N_of_ascii b)), (N.compare_spec (N_of_ascii b) (N_of_ascii c)),
    (N.compare_spec (N_of_ascii a) (N_of_ascii c)); try done; try lia; eauto.
Qed.

#[export] Instance str_le_antisymm : AntiSymm (=) str_le.
Proof. intros a b. apply String.leb_antisym. Qed.

Lemma str_sorted_strongly l : StronglySorted str_le (str_sorted l).
Proof. apply StronglySorted_merge_sort; apply _. Qed.

(** The longer of two strings with one prefix is the greater. *)
Lemma leb_app_nil p x : str_le (p +:+ x) p → x = "".
Proof.
  unfold str_le. induction p as [|c p IH]; simpl; [by destruct x|]. rewrite leb_cons.
  unfold Ascii.compare. rewrite N.compare_refl. exact IH.
Qed.

(** What sorts first among strings with one prefix is the prefix. *)
Lemma str_sorted_head l p :
  p ∈ l → Forall (λ k, ∃ x, k = p +:+ x) l → ∃ l', str_sorted l = p :: l'.
Proof.
  intros Hp Hl. pose proof (str_sorted_perm l) as Hperm. pose proof (str_sorted_strongly l) as Hs.
  destruct (str_sorted l) as [|h l'].
  { apply Permutation_nil in Hperm. subst. by apply elem_of_nil in Hp. }
  exists l'. f_equal. rewrite <- Hperm in Hp, Hl. apply Forall_cons in Hl as [[x ->] _].
  apply StronglySorted_inv in Hs as [_ Hs]. apply elem_of_cons in Hp as [Heq|Hp]; [by symmetry|].
  rewrite Forall_forall in Hs. specialize (Hs p Hp). apply leb_app_nil in Hs. subst. apply str_app_nil_r.
Qed.

Lemma elem_of_str_sorted l x : x ∈ str_sorted l ↔ x ∈ l.
Proof. by rewrite str_sorted_perm. Qed.
End sorting.

(** ** Records as text

    pydantic's [model_dump_json] and [model_validate_json], and [json.dumps] of
    a dict: reading back what was dumped gives the value that was dumped, and
    what is dumped is a JSON object. *)
Class Codec (A : Type) := {
  dump : A → string;
  parse : string → option A;
  parse_dump x : parse (dump x) = Some x;
  dump_object x : ∃ s, dump x = String "{" s;
}.

(** The text after the first character. *)
Definition str_tail (s : string) : string :=
  match s with
  | String _ s' => s'
  | EmptyString => EmptyString
  end.

(** A codec for every record that is a list of texts, for evaluation. *)
Definition text_of_opt (o : option string) : string :=
  match o with
  | Some s => String "+"%char s
  | None => ""
  end.

Definition opt_of_text (s : string) : option string :=
  match s with
  | String _ s' => Some s'
  | EmptyString => None
  end.

Fixpoint bits_of (p : positive) : string :=
  match p with
  | xH => ""
  | xO q => String "0"%char (bits_of q)
  | xI q => String "1"%char (bits_of q)
  end.

Fixpoint of_bits (s : string) : positive :=
  match s with
  | EmptyString => xH
  | String c s' => if Ascii.eqb c "0"%char then xO (of_bits s') else xI (of_bits s')
  end.

Lemma opt_of_text_of_opt o : opt_of_text (text_of_opt o) = o.
Proof. by destruct o. Qed.

Lemma of_bits_of p : of_bits (bits_of p) = p.
Proof. induction p; simpl; congruence. Qed.

Program Definition fields_codec {A} {fields : A → list string} {of_fields : list string → option A}
    (Hf : ∀ x, of_fields (fields x) = Some x) : Codec A := {|
  dump x := String "{" (bits_of (encode (fields x)));
  parse s := l ← decode (of_bits (str_tail s)); of_fields l;
|}.
Next Obligation. intros A fields of_fields Hf x. simpl. rewrite of_bits_of, decode_encode. apply Hf. Qed.
Next Obligation. intros. by eexists. Qed.

(** JSON as text: the tree of a value, flattened by stdpp's encoding. *)
Fixpoint json_tree (j : json) : gen_tree string :=
  match j with
  | JNull => GenLeaf "n"
  | JBool b => GenLeaf (if b then "t" else "f")
  | JNum n => GenLeaf (String "#" (text_of_Z n))
  | JStr s => GenLeaf (String "$" s)
  | JList l => GenNode 0 (json_tree <$> l)
  | JObj fs => GenNode 1 ((λ '(k, v), GenNode 2 [GenLeaf k; json_tree v]) <$> fs)
  end.

Fixpoint json_of_tree (t : gen_tree string) : json :=
  match t with
  | GenLeaf "n" => JNull
  | GenLeaf "t" => JBool true
  | GenLeaf (String "#" s) => JNum (default 0 (Z_of_text s))
  | GenLeaf (String "$" s) => JStr s
  | GenLeaf _ => JBool false
  | GenNode 0 l => JList (json_of_tree <$> l)
  | GenNode _ l => JObj ((λ t, match t with
                               | GenNode _ [GenLeaf k; v] => (k, json_of_tree v)
                               | _ => ("", JNull)
                               end) <$> l)
  end.

Fixpoint json_tree_back (j : json) : json_of_tree (json_tree j) = j.
Proof.
  destruct j as [|b|n|s|l|fs]; simpl; [done|by destruct b|by rewrite Z_of_text_of_Z|done| |].
  - f_equal. induction l as [|j l IH]; csimpl; [done|]. by rewrite json_tree_back, IH.
  - f_equal. induction fs as [|[k v] fs IH]; csimpl; [done|]. by rewrite json_tree_back, IH.
Qed.

#[export] Instance json_eq_dec : EqDecision json.
Proof.
  intros j k. destruct (decide (json_tree j = json_tree k)) as [Heq|Hne]; [left|right; congruence].
  by rewrite <- (json_tree_back j), <- (json_tree_back k), Heq.
Defined.

#[export] Instance json_countable : Countable json :=
  inj_countable' json_tree json_of_tree json_tree_back.

(** Any countable type as text. *)
Program Definition countable_codec {A} `{Countable A} : Codec A := {|
  dump x := String "{" (bits_of (encode x));
  parse s := decode (of_bits (str_tail s));
|}.
Next Obligation. intros A ?? x. simpl. by rewrite of_bits_of, decode_encode. Qed.
Next Obligation. intros. by eexists. Qed.

(** ** Automation *)

Create HintDb frame.
#[export] Hint Resolve leaves_ret leaves_raise leaves_gets leaves_if leaves_mapM : frame.
#[export] Hint Extern 1 (leaves _ (bind _ _)) => apply leaves_bind : frame.
#[export] Hint Extern 1 (leaves _ (match ?x with _ => _ end)) => destruct x : frame.

Create HintDb keeps.
#[export] Hint Extern 0 (within _ (ret _)) => solve [apply within_ret; apply _] : keeps.
#[export] Hint Extern 0 (within _ (raise _)) => solve [apply within_raise; apply _] : keeps.
#[export] Hint Extern 0 (within _ (gets _)) => solve [apply within_gets; apply _] : keeps.

Create HintDb svc.
#[export] Hint Rewrite @elem_of_fromkeys elem_of_str_sorted @elem_of_dedup_from : svc.
#[export] Hint Resolve lastn_all : svc.

(** Split a boolean hypothesis or goal made of [&&], [||], [negb]. *)
Ltac split_bool :=
  repeat match goal with
  | H : andb _ _ = true |- _ => apply andb_true_iff in H as [? ?]
  | H : orb _ _ = false |- _ => apply orb_false_iff in H as [? ?]
  | H : negb _ = true |- _ => apply negb_true_iff in H
  | H : negb _ = false |- _ => apply negb_false_iff in H
  | H : bool_decide _ = true |- _ => apply bool_decide_eq_true in H
  | H : bool_decide _ = false |- _ => apply bool_decide_eq_false in H
  end.

(** Case analysis on the scrutinee of the first [match] or [if] of the goal or
    of a hypothesis, closing impossible cases. *)
Ltac cases_in H := repeat (case_match; simplify_eq/=; try done).

(** Unfold a monadic program step by step. *)
Ltac run := unfold bind, ret, raise, gets, modify, try, zoom in *; simpl in *.

(** ** Tables

    A table is a map from its primary key; a query filters its rows, sorts them
    by the columns of its ORDER BY and takes its LIMIT. *)

Definition rows {K V} `{Countable K} (m : gmap K V) : list V := snd <$> map_to_list m.

(** Rows in a given order, at most [limit] of them ([None] is no limit). *)
Definition ordered {A} (R : A → A → Prop) `{∀ x y, Decision (R x y)} (limit : option nat)
    (l : list A) : list A :=
  match limit with
  | Some n => take n (merge_sort R l)
  | None => merge_sort R l
  end.

Definition by_text {A} (f : A → string) (x y : A) : Prop := str_le (f x) (f y).
#[export] Instance by_text_dec {A} (f : A → string) x y : Decision (by_text f x y).
Proof. unfold by_text. apply _. Defined.

Definition str_lt (a b : string) : bool := String.ltb a b.

Lemma elem_of_rows {K V} `{Countable K} (m : gmap K V) v : v ∈ rows m ↔ ∃ k, m !! k = Some v.
Proof.
  unfold rows. rewrite list_elem_of_fmap. split.
  - intros ([k v'] & -> & Hin). exists k. by apply elem_of_map_to_list.
  - intros [k Hk]. exists (k, v). split; [done|]. by apply elem_of_map_to_list.
Qed.

Lemma elem_of_ordered {A} (R : A → A → Prop) `{∀ x y, Decision (R x y)} limit l x :
  (∀ n, limit = Some n → (length l ≤ n)%nat) → x ∈ ordered R limit l ↔ x ∈ l.
Proof.
  intros Hn. unfold ordered. destruct limit as [n|].
  - rewrite take_ge; [by rewrite merge_sort_Permutation|].
    rewrite merge_sort_Permutation. by apply Hn.
  - by rewrite merge_sort_Permutation.
Qed.

Lemma elem_of_ordered_sub {A} (R : A → A → Prop) `{∀ x y, Decision (R x y)} limit l x :
  x ∈ ordered R limit l → x ∈ l.
Proof.
  unfold ordered. destruct limit as [n|]; [intros Hx%elem_of_take|by rewrite merge_sort_Permutation].
  destruct Hx as (i & Hi & _). apply list_elem_of_lookup_2 in Hi. by rewrite merge_sort_Permutation in Hi.
Qed.

(** *** Keyset pages

    A list in strict order, cut at its [n]th element: what is after that element
    is what the order puts after it, so a page that starts there misses nothing
    and repeats nothing. *)
Section keyset.
Context {A : Type} (after : A → A → bool).
Implicit Types (l : list A) (x y : A).

Abbreviation strictly l := (StronglySorted (λ x y, after x y = true) l).

Lemma filter_all_true (p : A → bool) l : Forall (λ x, p x = true) l → filter (λ x, p x = true) l = l.
Proof. induction 1 as [|x l Hx _ IH]; [done|]. rewrite filter_cons_True by done. by rewrite IH. Qed.

Lemma filter_all_false (p : A → bool) l : Forall (λ x, p x = false) l → filter (λ x, p x = true) l = [].
Proof. induction 1 as [|x l Hx _ IH]; [done|]. rewrite filter_cons_False by congruence. done. Qed.

Lemma drop_after n l x :
  (∀ x y, after x y = true → after y x = false) → (∀ x, after x x = false) →
  strictly l → last (take n l) = Some x → drop n l = filter (λ y, after x y = true) l.
Proof.
  intros Hasym Hirr Hl Hlast. rewrite <- (take_drop n l) in Hl |- *. rewrite take_drop in *.
  rewrite <- (take_drop n l) at 2. rewrite <- (take_drop n l) in Hl.
  apply last_Some in Hlast as [l1 Hl1]. rewrite Hl1 in *. rewrite <- app_assoc in Hl.
  apply StronglySorted_app in Hl as (Hbefore & _ & Hl2). apply StronglySorted_inv in Hl2 as [_ Hafter].
  rewrite filter_app, (filter_all_true _ (drop n l)) by done. rewrite filter_all_false; [done|].
  apply Forall_forall. intros y [Hy| ->%list_elem_of_singleton]%elem_of_app; [|done].
  apply Hasym, (Hbefore y x); [done|]. by left.
Qed.

Lemma strictly_filter (p : A → bool) l : strictly l → strictly (filter (λ x, p x = true) l).
Proof. apply StronglySorted_filter. Qed.

(** Two pages of what passes a test are one page of it. *)
Lemma take_filter_pages (p : A → bool) n k l :
  (length (filter (λ x, p x = true) (take k l)) ≤ n)%nat →
  filter (λ x, p x = true) (take k l) ++
    take (n - length (filter (λ x, p x = true) (take k l))) (filter (λ x, p x = true) (drop k l)) =
  take n (filter (λ x, p x = true) l).
Proof.
  intros Hn. rewrite <- (take_drop k l) at 4. rewrite filter_app.
  set (a := filter _ (take k l)) in *. replace n with (length a + (n - length a))%nat at 2 by lia.
  by rewrite take_app_add.
Qed.
End keyset.

Lemma list_filter_ext {A} (p q : A → bool) (l : list A) :
  (∀ x, x ∈ l → p x = q x) → filter (λ x, p x = true) l = filter (λ x, q x = true) l.
Proof.
  induction l as [|x l IH]; [done|]. intros Heq. rewrite !filter_cons, (Heq x) by by left.
  rewrite IH by by intros y Hy; apply Heq; right. done.
Qed.

(** A sorted list of what passes a test is the test of the sorted list. *)
Lemma merge_sort_filter {A} (R : A → A → Prop) `{∀ x y, Decision (R x y)} `{!Transitive R} `{!Total R}
    (p : A → bool) (l : list A) :
  (∀ x y, x ∈ l → y ∈ l → R x y → R y x → x = y) →
  merge_sort R (filter (λ x, p x = true) l) = filter (λ x, p x = true) (merge_sort R l).
Proof.
  intros Hanti. apply (StronglySorted_unique_strong R).
  - intros x y Hx Hy. rewrite merge_sort_Permutation in Hx.
    apply list_elem_of_filter in Hx as [_ Hx], Hy as [_ Hy]. rewrite merge_sort_Permutation in Hy. by apply Hanti.
  - by apply StronglySorted_merge_sort.
  - apply StronglySorted_filter. by apply StronglySorted_merge_sort.
  - by rewrite !merge_sort_Permutation.
Qed.

(** A sorted list without repetition is strictly sorted. *)
Lemma strongly_strict {A} (R : A → A → Prop) (after : A → A → bool) (l : list A) :
  (∀ x y, x ∈ l → y ∈ l → R x y → x ≠ y → after x y = true) →
  StronglySorted R l → NoDup l → StronglySorted (λ x y, after x y = true) l.
Proof.
  intros Hstrict. induction 1 as [|x l Hl IH Hx]; [constructor|]. intros [Hni Hnd]%NoDup_cons.
  constructor; [apply IH; [|done]; intros y z Hy Hz; apply Hstrict; by right|].
  rewrite Forall_forall in *. intros y Hy. apply Hstrict; [by left|by right|by apply Hx|]. by intros ->.
Qed.

Lemma str_lt_spec a b : str_lt a b = true ↔ str_le a b ∧ a ≠ b.
Proof.
  unfold str_lt, str_le, String.ltb, String.leb. destruct (String.compare a b) eqn:E.
  - apply String.compare_eq_iff in E. naive_solver.
  - split; [|done]. intros _. split; [done|]. intros ->.
    pose proof (String.compare_antisym b b) as Hb. by rewrite E in Hb.
  - split; [done|]. by intros [].
Qed.
