(* ===== verification/Json.v ===== *)
(** * JSON as text and the lines of a text

    What the service uses of Python's [json] and of [str.splitlines]: [dumps]
    is [json.dumps(v, separators=(",", ":"), ensure_ascii=False)], [loads] is
    [json.loads], for the values of [Prelude.json] (integers are the only
    numbers; a text is its UTF-8 bytes). Reading back what was written gives the
    value, and a value is written on one line exactly when none of its texts has
    one of the line separators above ASCII, which JSON does not escape. *)
From stdpp Require Import base list strings.
From Stdlib Require Import ZArith Lia Ascii String DecimalString.
From S2P Require Import Prelude.
#[local] Open Scope string_scope.
#[local] Open Scope Z_scope.

(** ** Characters *)

Definition code (c : ascii) : Z := Z.of_N (N_of_ascii c).
Definition chr (n : Z) : ascii := ascii_of_N (Z.to_N n).

Definition is_digit (c : ascii) : bool := (48 <=? code c) && (code c <=? 57).

(** The digits of [\uXXXX]. *)
Definition hex_digit (n : Z) : ascii := if n <? 10 then chr (48 + n) else chr (87 + n).
Definition hex_value (c : ascii) : option Z :=
  let n := code c in
  if (48 <=? n) && (n <=? 57) then Some (n - 48)
  else if (97 <=? n) && (n <=? 102) then Some (n - 87)
  else if (65 <=? n) && (n <=? 70) then Some (n - 55)
  else None.

Definition hex4 (a b c d : ascii) : option Z :=
  w ← hex_value a; x ← hex_value b; y ← hex_value c; z ← hex_value d; Some (((w * 16 + x) * 16 + y) * 16 + z).

(** The UTF-8 bytes of a code point. *)
Definition utf8 (n : Z) : string :=
  let tail k := chr (128 + Z.land (Z.shiftr n k) 63) in
  if n <? 128 then String (chr n) ""
  else if n <? 2048 then String (chr (192 + Z.shiftr n 6)) (String (tail 0) "")
  else if n <? 65536 then String (chr (224 + Z.shiftr n 12)) (String (tail 6) (String (tail 0) ""))
  else String (chr (240 + Z.shiftr n 18)) (String (tail 12) (String (tail 6) (String (tail 0) ""))).

(** ** Writing *)

Definition quote : ascii := "034"%char.

(** One character inside a JSON text: controls, the quote and the backslash are
    escaped, nothing else. *)
Definition escape (c : ascii) : string :=
  let n := code c in
  if n =? 34 then String "\" (String quote "")
  else if n =? 92 then "\\"
  else if n =? 10 then "\n"
  else if n =? 13 then "\r"
  else if n =? 9 then "\t"
  else if n =? 8 then "\b"
  else if n =? 12 then "\f"
  else if n <? 32 then "\u00" +:+ String (hex_digit (n / 16)) (String (hex_digit (n mod 16)) "")
  else String c "".

Fixpoint escaped (s : string) : string :=
  match s with
  | EmptyString => ""
  | String c s' => escape c +:+ escaped s'
  end.

Definition dumps_str (s : string) : string := String quote (escaped s +:+ String quote "").

Fixpoint dumps (j : json) : string :=
  match j with
  | JNull => "null"
  | JBool true => "true"
  | JBool false => "false"
  | JNum n => text_of_Z n
  | JStr s => dumps_str s
  | JList l => "[" +:+ str_join "," (dumps <$> l) +:+ "]"
  | JObj fields => "{" +:+ str_join "," ((λ '(k, v), dumps_str k +:+ ":" +:+ dumps v) <$> fields) +:+ "}"
  end.

(** ** Reading *)

Definition is_space (c : ascii) : bool :=
  let n := code c in (n =? 32) || (n =? 9) || (n =? 10) || (n =? 13).

Fixpoint skip (s : string) : string :=
  match s with
  | String c s' => if is_space c then skip s' else s
  | EmptyString => ""
  end.

(** The rest of a text after its opening quote: its bytes, and what follows the
    closing quote. A surrogate that is not one of a pair is refused: it has no
    UTF-8 form. *)
Fixpoint scan_str (s : string) : option (string * string) :=
  match s with
  | EmptyString => None
  | String c r =>
      if Ascii.eqb c quote then Some ("", r)
      else if Ascii.eqb c "\" then
        match r with
        | String "u" (String a (String b (String x (String y r')))) =>
            n ← hex4 a b x y;
            if (n <? 55296) || (57344 <=? n) then '(t, rest) ← scan_str r'; Some (utf8 n +:+ t, rest)
            else if 56320 <=? n then None
            else match r' with
                 | String "\" (String "u" (String a' (String b' (String x' (String y' r''))))) =>
                     m ← hex4 a' b' x' y';
                     if (56320 <=? m) && (m <? 57344) then
                       '(t, rest) ← scan_str r'';
                       Some (utf8 (65536 + (n - 55296) * 1024 + (m - 56320)) +:+ t, rest)
                     else None
                 | _ => None
                 end
        | String e r' =>
            let one (d : ascii) := '(t, rest) ← scan_str r'; Some (String d t, rest) in
            let n := code e in
            if (n =? 34) || (n =? 92) || (n =? 47) then one e
            else if n =? 110 then one (chr 10)
            else if n =? 114 then one (chr 13)
            else if n =? 116 then one (chr 9)
            else if n =? 98 then one (chr 8)
            else if n =? 102 then one (chr 12)
            else None
        | EmptyString => None
        end
      else if code c <? 32 then None
      else '(t, rest) ← scan_str r; Some (String c t, rest)
  end.

Fixpoint digits (s : string) : string * string :=
  match s with
  | String c r => if is_digit c then let '(d, rest) := digits r in (String c d, rest) else ("", s)
  | EmptyString => ("", "")
  end.

(** An integer with no leading zero; a fraction or an exponent would make it a
    float, which no modelled value is. *)
Definition scan_int (s : string) : option (Z * string) :=
  let '(sign, r) := match s with String "-" r => ("-", r) | _ => ("", s) end in
  let '(ds, rest) := match r with String "0" r' => ("0", r') | _ => digits r end in
  match rest with
  | String ("." | "e" | "E") _ => None
  | _ => n ← Z_of_text (sign +:+ ds); Some (n, rest)
  end.

(** [n] bounds the nesting and the length of what is read. *)
Fixpoint scan (n : nat) (s : string) : option (json * string) :=
  match n with
  | O => None
  | S n =>
      match skip s with
      | String "n" (String "u" (String "l" (String "l" r))) => Some (JNull, r)
      | String "t" (String "r" (String "u" (String "e" r))) => Some (JBool true, r)
      | String "f" (String "a" (String "l" (String "s" (String "e" r)))) => Some (JBool false, r)
      | String "[" r =>
          match skip r with
          | String "]" r' => Some (JList [], r')
          | r' => '(l, rest) ← scan_list n r'; Some (JList l, rest)
          end
      | String "{" r =>
          match skip r with
          | String "}" r' => Some (JObj [], r')
          | r' => '(l, rest) ← scan_fields n r'; Some (JObj l, rest)
          end
      | String c r =>
          if Ascii.eqb c quote then '(t, rest) ← scan_str r; Some (JStr t, rest)
          else '(k, rest) ← scan_int (String c r); Some (JNum k, rest)
      | EmptyString => None
      end
  end
with scan_list (n : nat) (s : string) : option (list json * string) :=
  match n with
  | O => None
  | S n =>
      '(v, r) ← scan n s;
      match skip r with
      | String "," r' => '(vs, rest) ← scan_list n r'; Some (v :: vs, rest)
      | String "]" r' => Some ([v], r')
      | _ => None
      end
  end
with scan_fields (n : nat) (s : string) : option (list (string * json) * string) :=
  match n with
  | O => None
  | S n =>
      match skip s with
      | String c r =>
          if Ascii.eqb c quote then
            '(k, r1) ← scan_str r;
            match skip r1 with
            | String ":" r2 =>
                '(v, r3) ← scan n r2;
                match skip r3 with
                | String "," r4 => '(vs, rest) ← scan_fields n r4; Some ((k, v) :: vs, rest)
                | String "}" r4 => Some ([(k, v)], r4)
                | _ => None
                end
            | _ => None
            end
          else None
      | EmptyString => None
      end
  end.

(** [json.loads]: one value, with nothing but blanks after it. *)
Definition loads (s : string) : option json :=
  '(j, rest) ← scan (S (String.length s)) s;
  match skip rest with EmptyString => Some j | _ => None end.

(** ** Lines *)

(** A line boundary above ASCII at the head of a text, and the text after it: NEL
    (U+0085), LS (U+2028) and PS (U+2029). *)
Definition wide_boundary (s : string) : option string :=
  match s with
  | String c (String d r) =>
      if (code c =? 194) && (code d =? 133) then Some r
      else if (code c =? 226) && (code d =? 128)
           then match r with
                | String e r' => if (code e =? 168) || (code e =? 169) then Some r' else None
                | EmptyString => None
                end
           else None
  | _ => None
  end.

(** The others: LF, CR, CR LF, VT, FF and the separators FS, GS and RS. *)
Definition is_break (c : ascii) : bool :=
  (10 <=? code c) && (code c <=? 13) || (28 <=? code c) && (code c <=? 30).

Definition boundary (s : string) : option string :=
  match s with
  | String c r =>
      if is_break c
      then Some match r with String d r' => if (code c =? 13) && (code d =? 10) then r' else r | EmptyString => r end
      else wide_boundary s
  | EmptyString => None
  end.

(** [s.splitlines()], with the line read so far (its characters reversed). *)
Fixpoint split_from (n : nat) (line s : string) : list string :=
  match n with
  | O => []
  | S n =>
      match boundary s, s with
      | Some r, _ => line :: split_from n "" r
      | None, String c r => split_from n (line +:+ String c "") r
      | None, EmptyString => if String.eqb line "" then [] else [line]
      end
  end.
Definition splitlines (s : string) : list string := split_from (S (String.length s)) "" s.

(** Has a line boundary; has one above ASCII. *)
Fixpoint anywhere (p : string → bool) (s : string) : bool :=
  match s with
  | EmptyString => false
  | String _ r => p s || anywhere p r
  end.
Definition found_at (f : string → option string) (s : string) : bool := match f s with Some _ => true | None => false end.
Definition broken : string → bool := anywhere (found_at boundary).
Definition wide : string → bool := anywhere (found_at wide_boundary).

Fixpoint json_wide (j : json) : bool :=
  match j with
  | JStr s => wide s
  | JList l => existsb json_wide l
  | JObj fields => existsb (λ '(k, v), wide k || json_wide v) fields
  | _ => false
  end.

Example dumps_ex : dumps (JObj [("a", JList [JNum 12; JStr ("x" +:+ String quote (String (chr 10) ""))]); ("b", JNull)]) =
  "{" +:+ dumps_str "a" +:+ ":[12," +:+ String quote ("x\" +:+ String quote ("\n" +:+ String quote ("]," +:+ dumps_str "b" +:+ ":null}"))).
Proof. reflexivity. Qed.
Example loads_ex : loads (" [1, -20,{" +:+ dumps_str "a" +:+ " : true }] ") = Some (JList [JNum 1; JNum (-20); JObj [("a", JBool true)]]).
Proof. reflexivity. Qed.
Example splitlines_ex : splitlines ("ab" +:+ String (chr 10) (String (chr 10) "c")) = ["ab"; ""; "c"].
Proof. reflexivity. Qed.

(** ** Lemmas: texts and numbers *)

Lemma str_app_cons c a b : String c a +:+ b = String c (a +:+ b).
Proof. done. Qed.

Lemma escape_scan c s : scan_str (escape c +:+ s) = '(t, rest) ← scan_str s; Some (String c t, rest).
Proof. destruct c as [[] [] [] [] [] [] [] []]; reflexivity. Qed.

Lemma scan_str_escaped s rest : scan_str (escaped s +:+ String quote rest) = Some (s, rest).
Proof.
  induction s as [|c s IH]; [done|]. cbn [escaped]. by rewrite str_app_assoc, escape_scan, IH.
Qed.

Lemma scan_dumps_str n s rest : scan (S n) (dumps_str s +:+ rest) = Some (JStr s, rest).
Proof.
  unfold dumps_str. rewrite str_app_cons, str_app_assoc. cbn.
  change (scan_str (escaped s +:+ String quote ("" +:+ rest)) ≫= (λ '(t, r), Some (JStr t, r)) = Some (JStr s, rest)).
  by rewrite scan_str_escaped.
Qed.

(** What may follow a number: nothing that would continue it. *)
Definition ends_number (s : string) : bool :=
  match s with
  | String c _ => negb (is_digit c) && negb (String.eqb (String c "") "." || String.eqb (String c "") "e" || String.eqb (String c "") "E")
  | EmptyString => true
  end.

Lemma string_of_uint_digits d : str_forall is_digit (NilEmpty.string_of_uint d) = true.
Proof. by induction d. Qed.

Lemma digits_app s rest : str_forall is_digit s = true → ends_number rest = true → digits (s +:+ rest) = (s, rest).
Proof.
  intros Hs Hrest. induction s as [|c s IH]; cbn in *.
  - destruct rest as [|c r]; [done|]. cbn in *. by destruct (is_digit c).
  - apply andb_true_iff in Hs as [Hc Hs]. by rewrite Hc, IH.
Qed.

Lemma to_uint_normal p : Decimal.nzhead (Pos.to_uint p) = Pos.to_uint p.
Proof.
  pose proof (DecimalPos.Unsigned.to_of (Pos.to_uint p)) as Hn. rewrite DecimalPos.Unsigned.of_to in Hn.
  cbn [N.to_uint] in Hn. unfold Decimal.unorm in Hn. destruct (Decimal.nzhead (Pos.to_uint p)) eqn:Hz; [|done..].
  pose proof (DecimalPos.Unsigned.of_to p) as Hp. by rewrite Hn in Hp.
Qed.

Lemma nzhead_not_zero d n : Decimal.nzhead d ≠ Decimal.D0 n.
Proof. induction d; cbn; congruence. Qed.

Lemma string_of_pos p : ∃ c ds, NilZero.string_of_uint (Pos.to_uint p) = String c ds ∧
  is_digit c = true ∧ str_forall is_digit ds = true ∧ c ≠ "0"%char.
Proof.
  pose proof (to_uint_normal p) as Hn. pose proof (DecimalPos.Unsigned.to_uint_nonnil p) as Hnil.
  destruct (Pos.to_uint p) as [|d|d|d|d|d|d|d|d|d|d]; [done|by apply nzhead_not_zero in Hn|..];
    (eexists _, _; split_and!; [reflexivity|reflexivity|apply string_of_uint_digits|done]).
Qed.

(** The decimal text of a number: a sign, then digits that start with a zero only
    if there is no other. *)
Lemma text_of_Z_shape z : ∃ sign c ds, text_of_Z z = sign +:+ String c ds ∧ (sign = "" ∨ sign = "-") ∧
  is_digit c = true ∧ str_forall is_digit ds = true ∧ (c = "0"%char → ds = "").
Proof.
  unfold text_of_Z. destruct z as [|p|p]; cbn [Z.to_int NilZero.string_of_int].
  - exists "", "0"%char, "". split_and!; [done|by left|done..].
  - destruct (string_of_pos p) as (c & ds & -> & Hc & Hds & H0).
    exists "", c, ds. split_and!; [done|by left|done..].
  - destruct (string_of_pos p) as (c & ds & -> & Hc & Hds & H0).
    exists "-", c, ds. split_and!; [done|by right|done..].
Qed.

Lemma digit_cases c : is_digit c = true →
  c = "0"%char ∨ (c ≠ "0"%char ∧ c ≠ "-"%char ∧ c ≠ quote ∧ is_space c = false).
Proof. destruct c as [[] [] [] [] [] [] [] []]; intros Hc; try discriminate Hc; (by left) || (right; split_and!; done). Qed.

Lemma scan_int_text z rest : ends_number rest = true → scan_int (text_of_Z z +:+ rest) = Some (z, rest).
Proof.
  intros Hrest. pose proof (Z_of_text_of_Z z) as Hz. destruct (text_of_Z_shape z) as (sign & c & ds & Ht & Hsign & Hc & Hds & H0).
  rewrite Ht in *. unfold scan_int.
  assert ((match (sign +:+ String c ds) +:+ rest with String "-" r => ("-", r) | _ => ("", (sign +:+ String c ds) +:+ rest) end)
    = (sign, String c (ds +:+ rest))) as ->.
  { destruct Hsign as [-> | ->]; cbn; [|done]. destruct c as [[] [] [] [] [] [] [] []]; try discriminate Hc; done. }
  assert ((match String c (ds +:+ rest) with String "0" r' => ("0", r') | _ => digits (String c (ds +:+ rest)) end) =
    (String c ds, rest)) as ->.
  { destruct (digit_cases c Hc) as [->|(Hne & _)]; [by rewrite H0|].
    rewrite <- str_app_cons. rewrite digits_app; [|by cbn; rewrite Hc|done].
    destruct c as [[] [] [] [] [] [] [] []]; done. }
  rewrite Hz. destruct rest as [|d r]; [done|]. cbn in Hrest.
  destruct d as [[] [] [] [] [] [] [] []]; done.
Qed.

(** ** Lemmas: values *)

Lemma json_induction (Q : json → Prop) :
  Q JNull → (∀ b, Q (JBool b)) → (∀ n, Q (JNum n)) → (∀ s, Q (JStr s)) →
  (∀ l, Forall Q l → Q (JList l)) → (∀ fs, Forall (λ kv, Q kv.2) fs → Q (JObj fs)) → ∀ j, Q j.
Proof.
  intros Hnull Hbool Hnum Hstr Hlist Hobj. fix go 1. intros [|b|n|s|l|fs]; [done|done|done|done|..].
  - apply Hlist. induction l as [|x l IH]; constructor; [apply go|apply IH].
  - apply Hobj. induction fs as [|[k x] fs IH]; constructor; [apply go|apply IH].
Qed.

Lemma scan_number n z rest : ends_number rest = true → scan (S n) (text_of_Z z +:+ rest) = Some (JNum z, rest).
Proof.
  intros Hrest. pose proof (scan_int_text z rest Hrest) as Hint.
  destruct (text_of_Z_shape z) as (sign & c & ds & Ht & Hsign & Hc & _). rewrite Ht in *.
  assert (∃ d s, (sign +:+ String c ds) +:+ rest = String d s ∧ (is_digit d = true ∨ d = "-"%char)) as (d & s & Heq & Hd).
  { destruct Hsign as [-> | ->]; [exists c, (ds +:+ rest)|exists "-"%char, (String c ds +:+ rest)];
      (split; [done|]); [by left|by right]. }
  rewrite Heq in *. transitivity ('(k, r) ← scan_int (String d s); Some (JNum k, r)); [|by rewrite Hint].
  destruct Hd as [Hd | ->]; [|done]. destruct d as [[] [] [] [] [] [] [] []]; try discriminate Hd; done.
Qed.

Lemma skip_dumps j rest : skip (dumps j +:+ rest) = dumps j +:+ rest.
Proof.
  destruct j as [|[]|z|s|l|fs]; try done. cbn [dumps].
  destruct (text_of_Z_shape z) as (sign & c & ds & -> & [-> | ->] & Hc & _); [|done].
  destruct c as [[] [] [] [] [] [] [] []]; try discriminate Hc; done.
Qed.

Lemma length_app_str a b : String.length (a +:+ b) = (String.length a + String.length b)%nat.
Proof. induction a as [|c a IH]; cbn; [done|by rewrite IH]. Qed.

Lemma dumps_length j : (1 ≤ String.length (dumps j))%nat.
Proof.
  destruct j as [|[]|z|s|l|fs]; cbn; try lia. destruct (text_of_Z_shape z) as (sign & c & ds & -> & _).
  rewrite length_app_str. cbn. lia.
Qed.

(** A value is read back whole, whatever follows it. *)
Definition reads_back (j : json) : Prop :=
  ∀ n rest, (String.length (dumps j) ≤ n)%nat → ends_number rest = true → scan n (dumps j +:+ rest) = Some (j, rest).

Lemma scan_elements l : Forall reads_back l → l ≠ [] → ∀ n rest,
  (String.length (str_join "," (dumps <$> l)) < n)%nat →
  scan_list n (str_join "," (dumps <$> l) +:+ "]" +:+ rest) = Some (l, rest).
Proof.
  induction 1 as [|x l Hx _ IH]; [done|]. intros _ [|n] rest Hn; [lia|]. cbn [scan_list]. destruct l as [|y l].
  - cbn in Hn |- *. by rewrite Hx by (done || lia).
  - change (str_join "," (dumps <$> x :: y :: l)) with (dumps x +:+ "," +:+ str_join "," (dumps <$> y :: l)) in *.
    remember (str_join "," (dumps <$> y :: l)) as t. rewrite !length_app_str in Hn. cbn [String.length] in Hn.
    pose proof (dumps_length x). rewrite !str_app_assoc, Hx by (done || lia).
    specialize (IH ltac:(done) n rest ltac:(lia)). cbn in IH |- *. change (is_space ",") with false. cbn. by rewrite IH.
Qed.

Abbreviation field_text := (λ '(k, v), dumps_str k +:+ ":" +:+ dumps v).

Lemma scan_members fs : Forall (λ kv, reads_back kv.2) fs → fs ≠ [] → ∀ n rest,
  (String.length (str_join "," (field_text <$> fs)) < n)%nat →
  scan_fields n (str_join "," (field_text <$> fs) +:+ "}" +:+ rest) = Some (fs, rest).
Proof.
  induction 1 as [|[k v] fs Hv _ IH]; [done|]. intros _ [|n] rest Hn; [lia|]. cbn [snd] in Hv.
  assert (∀ t, (String.length (dumps_str k +:+ ":" +:+ dumps v) ≤ n)%nat → ends_number t = true →
    scan_fields (S n) ((dumps_str k +:+ ":" +:+ dumps v) +:+ t) =
    match skip t with
    | String "," r4 => '(vs, rest) ← scan_fields n r4; Some ((k, v) :: vs, rest)
    | String "}" r4 => Some ([(k, v)], r4)
    | _ => None
    end) as Hfield.
  { intros t Hlen Ht. unfold dumps_str. rewrite !str_app_cons, !str_app_assoc. cbn [scan_fields skip].
    change (is_space quote) with false. change (Ascii.eqb quote quote) with true. cbn match. rewrite str_app_cons, scan_str_escaped.
    cbn. change (is_space ":") with false. cbn. rewrite Hv; [done| |done]. rewrite !length_app_str in Hlen. cbn in Hlen. lia. }
  change (field_text (k, v)) with (dumps_str k +:+ ":" +:+ dumps v) in *.
  destruct fs as [|f fs].
  - change (str_join "," (field_text <$> [(k, v)])) with (dumps_str k +:+ ":" +:+ dumps v) in *.
    rewrite Hfield; [done|lia|done].
  - change (str_join "," (field_text <$> (k, v) :: f :: fs))
      with ((dumps_str k +:+ ":" +:+ dumps v) +:+ "," +:+ str_join "," (field_text <$> f :: fs)) in *.
    remember (str_join "," (field_text <$> f :: fs)) as t. rewrite (length_app_str (dumps_str k +:+ ":" +:+ dumps v)), (length_app_str "," t) in Hn.
    cbn [String.length] in Hn. rewrite (str_app_assoc (dumps_str k +:+ ":" +:+ dumps v)), Hfield; [|lia|done].
    specialize (IH ltac:(done) n rest ltac:(lia)). cbn in IH |- *. change (is_space ",") with false. cbn. by rewrite IH.
Qed.

(** How a written value starts. *)
Lemma dumps_head j : ∃ c s, dumps j = String c s ∧ c ≠ "]"%char ∧ c ≠ "}"%char ∧ code c < 128.
Proof.
  destruct j as [|[]|z|s|l|fs]; try (eexists _, _; split_and!; [reflexivity|done..]).
  cbn [dumps]. destruct (text_of_Z_shape z) as (sign & c & ds & -> & [-> | ->] & Hc & _);
    (eexists _, _; split_and!; [reflexivity|..]); try done; destruct c as [[] [] [] [] [] [] [] []]; done.
Qed.

Lemma not_bracket {A} c s (f g : string → A) : c ≠ "]"%char →
  match String c s with String "]" r => f r | r => g r end = g (String c s).
Proof. destruct c as [[] [] [] [] [] [] [] []]; done. Qed.

Lemma join_dumps_head x l s : ∃ t, str_join "," (dumps <$> x :: l) +:+ s = dumps x +:+ t.
Proof. destruct l; cbn [fmap list_fmap str_join]; [by eexists|]. rewrite str_app_assoc. by eexists. Qed.

Lemma join_fields_head k v fs s : ∃ t, str_join "," (field_text <$> (k, v) :: fs) +:+ s = String quote t.
Proof. destruct fs; cbn; by eexists. Qed.

Lemma reads_back_all j : reads_back j.
Proof.
  induction j as [|b|z|s|l IH|fs IH] using json_induction; intros n rest Hn Hrest;
    (destruct n as [|n]; [match type of Hn with (String.length (dumps ?v) ≤ _)%nat => pose proof (dumps_length v); lia end|]).
  - done.
  - by destruct b.
  - by apply scan_number.
  - apply scan_dumps_str.
  - destruct l as [|x l]; [done|]. cbn [dumps] in Hn |- *. rewrite !length_app_str in Hn. cbn [String.length] in Hn.
    rewrite !str_app_assoc. pose proof (scan_elements _ IH ltac:(done) n rest ltac:(lia)) as Hl.
    destruct (join_dumps_head x l ("]" +:+ rest)) as [t Ht]. destruct (dumps_head x) as (c & u & Hd & Hc & _).
    rewrite Ht in Hl. transitivity ('(l, rest) ← scan_list n (dumps x +:+ t); Some (JList l, rest)); [|by rewrite Hl].
    rewrite Ht. change (match skip (dumps x +:+ t) with
      | String "]" r' => Some (JList [], r') | r' => '(l, rest) ← scan_list n r'; Some (JList l, rest) end =
      '(l, rest) ← scan_list n (dumps x +:+ t); Some (JList l, rest)).
    rewrite skip_dumps, Hd.
    exact (not_bracket c (u +:+ t) (λ r, Some (JList [], r)) (λ r, '(l, rest) ← scan_list n r; Some (JList l, rest)) Hc).
  - destruct fs as [|[k v] fs]; [done|]. cbn [dumps] in Hn |- *. rewrite !length_app_str in Hn. cbn [String.length] in Hn.
    rewrite !str_app_assoc. pose proof (scan_members _ IH ltac:(done) n rest ltac:(lia)) as Hl.
    destruct (join_fields_head k v fs ("}" +:+ rest)) as [t Ht].
    rewrite Ht in Hl |- *. transitivity ('(l, rest) ← scan_fields n (String quote t); Some (JObj l, rest)); [|by rewrite Hl].
    done.
Qed.

(** Reading back what was written gives the value. *)
Lemma loads_dumps j : loads (dumps j) = Some j.
Proof.
  unfold loads. pose proof (reads_back_all j (S (String.length (dumps j))) "" ltac:(lia) eq_refl) as Hj.
  rewrite str_app_nil_r in Hj. by rewrite Hj.
Qed.

(** ** Lemmas: lines *)

Lemma boundary_shorter s r : boundary s = Some r → (String.length r < String.length s)%nat.
Proof.
  destruct s as [|c s]; [done|]. cbn. destruct (is_break c).
  - intros [= <-]. destruct s as [|d s]; cbn; [lia|]. destruct (_ && _); cbn; lia.
  - destruct s as [|d s]; [done|]. destruct (_ && _); [intros [= <-]; cbn; lia|]. destruct (_ && _); [|done].
    destruct s as [|e s]; [done|]. destruct (_ || _); [intros [= <-]; cbn; lia|done].
Qed.

Lemma split_fuel n m line s : (String.length s < n)%nat → (String.length s < m)%nat →
  split_from n line s = split_from m line s.
Proof.
  revert m line s. induction n as [|n IH]; [lia|]. intros [|m] line s Hn Hm; [lia|]. cbn [split_from].
  destruct (boundary s) as [r|] eqn:Hb.
  - apply boundary_shorter in Hb. f_equal. apply IH; lia.
  - destruct s as [|c s]; [done|]. cbn in Hn, Hm. apply IH; lia.
Qed.

(** A newline ends a line. *)
Lemma boundary_newline r : boundary (String (chr 10) r) = Some r.
Proof. destruct r as [|d r]; [done|]. cbn. by destruct (code d =? 10). Qed.

Lemma found_app_ascii c b x a : code c < 128 → found_at boundary (String x a) = false →
  found_at boundary (String x (a +:+ String c b)) = false.
Proof.
  intros Hc. unfold found_at. cbn [boundary]. destruct (is_break x); [done|].
  destruct a as [|d a]; cbn.
  - intros _. rewrite (proj2 (Z.eqb_neq (code c) 133)), (proj2 (Z.eqb_neq (code c) 128)), !andb_false_r; [done|lia..].
  - destruct (_ && _); [done|]. destruct (_ && _); [|done]. destruct a as [|e a]; cbn; [|by destruct (_ || _)].
    intros _. rewrite (proj2 (Z.eqb_neq (code c) 168)), (proj2 (Z.eqb_neq (code c) 169)); [done|lia..].
Qed.

Lemma broken_app a c b : code c < 128 → broken a = false → broken (String c b) = false → broken (a +:+ String c b) = false.
Proof.
  intros Hc Ha Hb. induction a as [|x a IH]; [done|]. unfold broken in *. cbn [anywhere append] in Ha |- *.
  apply orb_false_iff in Ha as [Hx Ha]. by rewrite found_app_ascii, IH.
Qed.

Lemma split_line n line a rest : (String.length a + S (String.length rest) < n)%nat → broken a = false →
  split_from n line (a +:+ String (chr 10) rest) = (line +:+ a) :: splitlines rest.
Proof.
  revert n line. induction a as [|c a IH]; intros [|n] line Hn Ha; [lia| |lia|].
  - cbn [append split_from]. rewrite boundary_newline, str_app_nil_r. f_equal. apply split_fuel; cbn in Hn; lia.
  - unfold broken in Ha. cbn [anywhere] in Ha. apply orb_false_iff in Ha as [Hc Ha]. cbn [append split_from].
    pose proof (found_app_ascii (chr 10) rest c a ltac:(done) Hc) as Hnone. unfold found_at in Hnone.
    destruct (boundary _); [done|]. cbn in Hn. rewrite IH; [|lia|done]. by rewrite str_app_assoc.
Qed.

(** Lines written one per line are the lines read. *)
Lemma splitlines_join l : l ≠ [] → Forall (λ a, broken a = false) l →
  splitlines (str_join (String (chr 10) "") l +:+ String (chr 10) "") = l.
Proof.
  intros Hl Hall. induction Hall as [|a l Ha Hall IH]; [done|]. unfold splitlines. destruct l as [|b l].
  - cbn [str_join]. rewrite split_line; [done| |done]. rewrite length_app_str. cbn. lia.
  - change (str_join (String (chr 10) "") (a :: b :: l)) with (a +:+ String (chr 10) (str_join (String (chr 10) "") (b :: l))).
    rewrite str_app_assoc, str_app_cons, split_line; [by rewrite IH| |done].
    rewrite !length_app_str. cbn [String.length]. rewrite length_app_str. cbn. lia.
Qed.

(** Characters that neither end a line nor start a wide boundary. *)
Definition plain (c : ascii) : bool := (code c <? 128) && negb (is_break c).

Lemma found_plain c s : plain c = true → found_at boundary (String c s) = false.
Proof.
  intros [Hc Hb]%andb_true_iff. apply Z.ltb_lt in Hc. apply negb_true_iff in Hb.
  unfold found_at, boundary. rewrite Hb. unfold wide_boundary. destruct s as [|d s]; [done|].
  by rewrite (proj2 (Z.eqb_neq (code c) 194)), (proj2 (Z.eqb_neq (code c) 226)) by lia.
Qed.

Lemma broken_plain a b : str_forall plain a = true → broken b = false → broken (a +:+ b) = false.
Proof.
  intros Ha Hb. induction a as [|c a IH]; [done|]. cbn [str_forall] in Ha. apply andb_true_iff in Ha as [Hc Ha].
  unfold broken in *. cbn [append anywhere]. by rewrite found_plain, IH.
Qed.

Lemma escape_shape c : (code c < 128 ∧ str_forall plain (escape c) = true ∧ ∃ e t, escape c = String e t ∧ code e < 128) ∨
  (128 ≤ code c ∧ escape c = String c "" ∧ is_break c = false).
Proof.
  destruct c as [[] [] [] [] [] [] [] []]; (by right) || (left; split_and!; [done|done|by eexists _, _]).
Qed.

Lemma wide_head_ascii c e t : code e < 128 → found_at wide_boundary (String c (String e t)) = false.
Proof.
  intros He. unfold found_at, wide_boundary.
  by rewrite (proj2 (Z.eqb_neq (code e) 133)), (proj2 (Z.eqb_neq (code e) 128)), !andb_false_r by lia.
Qed.

Lemma wide_escaped c s : found_at wide_boundary (String c (escaped s)) = found_at wide_boundary (String c s).
Proof.
  destruct s as [|d s]; [done|]. cbn [escaped].
  destruct (escape_shape d) as [(Hd & _ & e & t & -> & He)|(Hd & -> & _)].
  - cbn [append]. by rewrite !wide_head_ascii.
  - cbn [append]. unfold found_at, wide_boundary. destruct (_ && _); [done|]. destruct (_ && _); [|done].
    destruct s as [|f s]; [done|]. cbn [escaped].
    destruct (escape_shape f) as [(Hf & _ & e & t & -> & He)|(Hf & -> & _)]; [|by cbn; destruct (_ || _)].
    cbn [append]. by rewrite !(proj2 (Z.eqb_neq _ 168)), !(proj2 (Z.eqb_neq _ 169)) by lia.
Qed.

Lemma broken_escaped s : wide s = false → broken (escaped s) = false.
Proof.
  induction s as [|c s IH]; [done|]. unfold wide. cbn [anywhere escaped]. intros [Hc Hs]%orb_false_iff.
  destruct (escape_shape c) as [(_ & Hp & _)|(_ & -> & Hb)]; [by apply broken_plain, IH|].
  unfold broken in *. cbn [append anywhere]. rewrite (IH Hs), orb_false_r. rewrite <- Hc, <- wide_escaped.
  unfold found_at, boundary. by rewrite Hb.
Qed.

(** A piece of a written value: no boundary in it, and none made by putting it
    after another piece. *)
Definition piece (t : string) : Prop :=
  broken t = false ∧ match t with String c _ => code c < 128 | EmptyString => True end.

Lemma piece_app a b : piece a → piece b → piece (a +:+ b).
Proof.
  intros [Ha Hfa] [Hb Hfb]. split.
  - destruct b as [|c b]; [by rewrite str_app_nil_r|by apply broken_app].
  - by destruct a.
Qed.

Lemma piece_plain a : str_forall plain a = true → piece a.
Proof.
  intros Ha. split; [by rewrite <- (str_app_nil_r a), broken_plain|]. destruct a as [|c a]; [done|].
  cbn in Ha. apply andb_true_iff in Ha as [[Hc _]%andb_true_iff _]. by apply Z.ltb_lt.
Qed.

Lemma piece_str s : wide s = false → piece (dumps_str s).
Proof.
  intros Hs. split; [|done]. unfold dumps_str. change (broken (String quote "" +:+ (escaped s +:+ String quote "")) = false).
  apply broken_plain; [done|]. by apply broken_app; [|apply broken_escaped|].
Qed.

Lemma piece_join l : Forall piece l → piece (str_join "," l).
Proof.
  induction 1 as [|t l Ht _ IH]; [done|]. destruct l as [|u l]; [done|].
  change (str_join "," (t :: u :: l)) with (t +:+ "," +:+ str_join "," (u :: l)).
  by apply piece_app, piece_app; [|apply piece_plain|].
Qed.

Lemma digits_plain s : str_forall is_digit s = true → str_forall plain s = true.
Proof.
  induction s as [|c s IH]; [done|]. cbn. intros [Hc Hs]%andb_true_iff. rewrite IH by done.
  destruct c as [[] [] [] [] [] [] [] []]; try discriminate Hc; done.
Qed.

(** A value none of whose texts has a wide boundary is written on one line. *)
Lemma dumps_piece j : json_wide j = false → piece (dumps j).
Proof.
  induction j as [|[]|z|s|l IH|fs IH] using json_induction; intros Hw; try by apply piece_plain.
  - apply piece_plain. cbn [dumps]. destruct (text_of_Z_shape z) as (sign & c & ds & -> & Hsign & Hc & Hds & _).
    assert (str_forall plain (String c ds) = true) by by apply digits_plain; cbn; rewrite Hc.
    by destruct Hsign as [-> | ->].
  - by apply piece_str.
  - apply piece_app, piece_app; [by apply piece_plain| |by apply piece_plain]. apply piece_join.
    cbn in Hw. induction IH as [|x l Hx _ IHl]; constructor; cbn in Hw; apply orb_false_iff in Hw as [Hw1 Hw2]; auto.
  - apply piece_app, piece_app; [by apply piece_plain| |by apply piece_plain]. apply piece_join.
    cbn in Hw. induction IH as [|[k x] l Hx _ IHl]; constructor; cbn in Hw; apply orb_false_iff in Hw as [Hw1 Hw2]; [|auto].
    apply orb_false_iff in Hw1 as [Hk Hv]. by apply piece_app, piece_app; [apply piece_str|apply piece_plain|apply Hx].
Qed.

(** Text written as one value per line is read back value by value. *)
Lemma lines_read_back l : l ≠ [] → Forall (λ j, json_wide j = false) l →
  loads <$> splitlines (str_join (String (chr 10) "") (dumps <$> l) +:+ String (chr 10) "") = Some <$> l.
Proof.
  intros Hl Hall. rewrite splitlines_join.
  - rewrite <- list_fmap_compose. apply list_fmap_ext. intros _ j _. apply loads_dumps.
  - by destruct l.
  - apply Forall_fmap. eapply Forall_impl; [exact Hall|]. intros j Hj. apply (dumps_piece j Hj).
Qed.
