(* ===== verification/Errors.v ===== *)
(** * Errors: the exceptions the service raises (domain/errors.py, domain/enums.py).

    The class hierarchy is an inductive type; [error_code], [http_status] and
    [retryable] are the class attributes, inherited where the class does not
    set them. [exn] adds the built-in exceptions the modelled code raises or
    catches. *)
From S2P Require Import Prelude.

Inductive ErrorCode : Set :=
| VALIDATION | AUTHENTICATION | AUTHORIZATION | SCOPE_DENIED | NOT_FOUND | CONFLICT
| PAYLOAD_TOO_LARGE | RATE_LIMIT | DEPENDENCY_UNAVAILABLE | TIMEOUT | CORRUPT_SOURCE
| INTERNAL.

Inductive error_class : Set :=
| MemoryServiceError | ValidationFailed | AuthenticationFailed | AuthorizationFailed
| ScopeDenied | NotFound | PayloadTooLarge | Conflict | DependencyUnavailable
| OperationTimedOut | CorruptSource | ProviderNotConfigured.

Definition error_code (c : error_class) : ErrorCode :=
  match c with
  | MemoryServiceError => INTERNAL
  | ValidationFailed => VALIDATION
  | AuthenticationFailed => AUTHENTICATION
  | AuthorizationFailed => AUTHORIZATION
  | ScopeDenied => SCOPE_DENIED
  | NotFound => NOT_FOUND
  | PayloadTooLarge => PAYLOAD_TOO_LARGE
  | Conflict => CONFLICT
  | DependencyUnavailable | ProviderNotConfigured => DEPENDENCY_UNAVAILABLE
  | OperationTimedOut => TIMEOUT
  | CorruptSource => CORRUPT_SOURCE
  end.

Definition http_status (c : error_class) : Z :=
  match c with
  | MemoryServiceError => 500
  | ValidationFailed | CorruptSource => 422
  | AuthenticationFailed => 401
  | AuthorizationFailed | ScopeDenied => 403
  | NotFound => 404
  | PayloadTooLarge => 413
  | Conflict => 409
  | DependencyUnavailable | ProviderNotConfigured => 503
  | OperationTimedOut => 504
  end.

Definition class_retryable (c : error_class) : bool :=
  match c with
  | DependencyUnavailable | ProviderNotConfigured | OperationTimedOut => true
  | _ => false
  end.

(** An exception in flight. [Service c m r] is an instance of the class [c]
    with message [m]; [r] is its [retryable] attribute, which the code may set
    on the instance; [Other] is an exception of a port or a library, by the name
    of its class. *)
Inductive exn : Set :=
| Service (c : error_class) (message : string) (retry : bool)
| ValueError (message : string)
| CacheUnavailable
| IndexError
| KeyError (message : string)
| ConnectionError (message : string)
| LookupError (message : string)
| IntegrityError
| AssertionError
| Other (name message : string).

Definition err (c : error_class) (m : string) : exn := Service c m (class_retryable c).

#[export] Instance error_class_eq_dec : EqDecision error_class.
Proof. solve_decision. Defined.
#[export] Instance exn_eq_dec : EqDecision exn.
Proof. solve_decision. Defined.

Abbreviation prog S A := (M exn S A).
Abbreviation res A := (outcome exn A).

(** [with contextlib.suppress(CacheUnavailable)] and
    [except CacheUnavailable: return d]. *)
Definition suppress_cache {S A} (d : A) (m : prog S A) : prog S A :=
  try m (λ e, match e with
              | CacheUnavailable => Some (ret d)
              | _ => None
              end).

(** The exception of a run, if it ended with one. *)
Definition raised {A} (r : res A) : option exn :=
  match r with
  | Ok _ => None
  | Raise e => Some e
  end.

(** Facts of a concrete run, decided by evaluation. *)
Lemma ran {S A} (f : A → bool) (r : res A * S) :
  match fst r with Ok a => f a | Raise _ => false end = true → ∃ a, r = (Ok a, snd r) ∧ f a = true.
Proof. destruct r as [[a|e] s]; [|done]. intros Hf. by exists a. Qed.

(** [type(exc).__name__]. *)
Definition class_name (c : error_class) : string :=
  match c with
  | MemoryServiceError => "MemoryServiceError"
  | ValidationFailed => "ValidationFailed"
  | AuthenticationFailed => "AuthenticationFailed"
  | AuthorizationFailed => "AuthorizationFailed"
  | ScopeDenied => "ScopeDenied"
  | NotFound => "NotFound"
  | PayloadTooLarge => "PayloadTooLarge"
  | Conflict => "Conflict"
  | DependencyUnavailable => "DependencyUnavailable"
  | OperationTimedOut => "OperationTimedOut"
  | CorruptSource => "CorruptSource"
  | ProviderNotConfigured => "ProviderNotConfigured"
  end.

Definition exn_name (e : exn) : string :=
  match e with
  | Service c _ _ => class_name c
  | ValueError _ => "ValueError"
  | KeyError _ => "KeyError"
  | ConnectionError _ => "ConnectionError"
  | CacheUnavailable => "CacheUnavailable"
  | IndexError => "IndexError"
  | AssertionError => "AssertionError"
  | LookupError _ => "LookupError"
  | IntegrityError => "IntegrityError"
  | Other name _ => name
  end.

(** [str(exc)]. *)
Definition exn_message (e : exn) : string :=
  match e with
  | Service _ m _ | ValueError m | KeyError m | ConnectionError m | LookupError m | Other _ m => m
  | CacheUnavailable | IndexError | AssertionError | IntegrityError => ""
  end.

(** [f"{type(exc).__name__}: {exc}"]. *)
Definition exn_text (e : exn) : string := exn_name e +:+ ": " +:+ exn_message e.
