(* ===== verification/Dict.v ===== *)
(** * Dict: a dictionary with string keys in insertion order

    Python's [dict] where the code depends on the order it iterates in: setting a
    key that is there keeps its place, a new key goes last. Also the stable sort
    of [sorted]. It models no code of the service. *)
From S2P Require Import Prelude.

Section dict.
Context {A : Type}.

Abbreviation dict := (list (string * A)).

(** [d.get(k)]. *)
Fixpoint dget (k : string) (d : dict) : option A :=
  match d with
  | [] => None
  | (k', v) :: d' => if decide (k = k') then Some v else dget k d'
  end.

(** [d[k] = v]. *)
Fixpoint dset (k : string) (v : A) (d : dict) : dict :=
  match d with
  | [] => [(k, v)]
  | (k', v') :: d' => if decide (k = k') then (k, v) :: d' else (k', v') :: dset k v d'
  end.

(** [del d[k]]. *)
Definition ddel (k : string) (d : dict) : dict := filter (λ kv, kv.1 ≠ k) d.

(** [d.values()]. *)
Definition dvalues (d : dict) : list A := d.*2.

(** Every key once. *)
Definition dict_ok (d : dict) : Prop := NoDup d.*1.

Lemma dget_dset_eq k v d : dget k (dset k v d) = Some v.
Proof. induction d as [|[k' v'] d IH]; simpl; [by rewrite decide_True|]. case_decide; simpl; by rewrite ?decide_True, ?decide_False by done. Qed.

Lemma dget_dset_ne k k' v d : k ≠ k' → dget k (dset k' v d) = dget k d.
Proof.
  intros Hk. induction d as [|[k2 v2] d IH]; simpl; [by rewrite decide_False|].
  destruct (decide (k' = k2)) as [->|]; simpl; [by rewrite !decide_False|]. by rewrite IH.
Qed.

Lemma dget_dset k k' v d : dget k (dset k' v d) = if decide (k = k') then Some v else dget k d.
Proof. case_decide as H; [by subst; apply dget_dset_eq|by apply dget_dset_ne]. Qed.

Lemma dkeys_dset k v d : k ∈ d.*1 → (dset k v d).*1 = d.*1.
Proof.
  induction d as [|[k' v'] d IH]; csimpl; [by intros ?%elem_of_nil|]. case_decide as H; csimpl; [by subst|].
  intros [?|?]%elem_of_cons; [done|]. by rewrite IH.
Qed.

Lemma dkeys_dset_new k v d : k ∉ d.*1 → (dset k v d).*1 = d.*1 ++ [k].
Proof.
  induction d as [|[k' v'] d IH]; csimpl; [done|]. intros H. rewrite decide_False by (intros ->; apply H; by left). csimpl.
  rewrite IH; [done|]. intros ?. apply H. by right.
Qed.

Lemma elem_dkeys_dset k k' v d : k ∈ (dset k' v d).*1 ↔ k = k' ∨ k ∈ d.*1.
Proof.
  destruct (decide (k' ∈ d.*1)) as [Hin|Hout].
  - rewrite dkeys_dset by done. split; [by right|]. by intros [->|?].
  - rewrite dkeys_dset_new by done. rewrite elem_of_app, list_elem_of_singleton. tauto.
Qed.

Lemma dict_ok_dset k v d : dict_ok d → dict_ok (dset k v d).
Proof.
  unfold dict_ok. intros H. destruct (decide (k ∈ d.*1)); [by rewrite dkeys_dset|]. rewrite dkeys_dset_new by done.
  apply NoDup_app. split_and!; [done| |apply NoDup_singleton]. intros x Hx ->%list_elem_of_singleton. done.
Qed.

Lemma elem_of_ddel kv k d : kv ∈ ddel k d ↔ kv ∈ d ∧ kv.1 ≠ k.
Proof. unfold ddel. rewrite list_elem_of_filter. tauto. Qed.

Lemma dict_ok_ddel k d : dict_ok d → dict_ok (ddel k d).
Proof.
  unfold dict_ok, ddel. intros H. eapply sublist_NoDup; [exact H|]. apply fmap_sublist, sublist_filter.
Qed.

Lemma dget_elem k v d : dget k d = Some v → (k, v) ∈ d.
Proof. induction d as [|[k' v'] d IH]; simpl; [done|]. case_decide; [intros [= <-]; subst; left|intros; right; auto]. Qed.

Lemma elem_dget k v d : dict_ok d → (k, v) ∈ d → dget k d = Some v.
Proof.
  unfold dict_ok. induction d as [|[k' v'] d IH]; csimpl; [by intros _ ?%elem_of_nil|].
  intros [Hk Hd]%NoDup_cons [[= <- <-]|Hin]%elem_of_cons; [by rewrite decide_True|].
  rewrite decide_False; [by apply IH|]. intros ->. apply Hk, list_elem_of_fmap. by exists (k', v).
Qed.

Lemma dget_None k d : dget k d = None ↔ k ∉ d.*1.
Proof.
  induction d as [|[k' v'] d IH]; csimpl; [split; [by intros _ ?%elem_of_nil|done]|].
  case_decide as H; [split; [done|]; intros Hn; destruct Hn; subst; by left|]. rewrite IH, not_elem_of_cons. tauto.
Qed.

Lemma elem_dvalues v d : v ∈ dvalues d ↔ ∃ k, (k, v) ∈ d.
Proof. unfold dvalues. rewrite list_elem_of_fmap. split; [intros ([k x] & -> & ?); eauto|intros [k ?]; by exists (k, v)]. Qed.

(** A dictionary whose keys are a field of its values. *)
Definition keyed (key : A → string) (d : dict) : Prop := ∀ k v, (k, v) ∈ d → key v = k.

Lemma elem_dset k v x d : x ∈ dset k v d → x = (k, v) ∨ x ∈ d.
Proof.
  induction d as [|[k' v'] d IH]; simpl; [by intros ->%list_elem_of_singleton; left|].
  case_decide; rewrite !elem_of_cons; [by intros [->|?]; eauto|]. intros [->|?]; [by eauto|]. destruct (IH H0); eauto.
Qed.

Lemma keyed_dset key k v d : keyed key d → key v = k → keyed key (dset k v d).
Proof. intros Hd Hv k' v' [[= -> ->]|?]%elem_dset; [done|by apply Hd]. Qed.

Lemma keyed_ddel key k d : keyed key d → keyed key (ddel k d).
Proof. intros Hd k' v' [? _]%elem_of_ddel. by apply Hd. Qed.
End dict.



Abbreviation dict A := (list (string * A)).

(** ** [sorted]: a stable sort *)

Section sorted.
Context {A : Type} (leb : A → A → bool).

Fixpoint insort (x : A) (l : list A) : list A :=
  match l with
  | [] => [x]
  | y :: l' => if leb x y then x :: l else y :: insort x l'
  end.

Definition sorted_by (l : list A) : list A := foldr insort [] l.

Lemma insort_perm x l : insort x l ≡ₚ x :: l.
Proof. induction l as [|y l IH]; simpl; [done|]. destruct (leb x y); [done|]. rewrite IH. apply Permutation_swap. Qed.

Lemma sorted_by_perm l : sorted_by l ≡ₚ l.
Proof. induction l as [|x l IH]; simpl; [done|]. by rewrite insort_perm, IH. Qed.

Lemma elem_sorted_by x l : x ∈ sorted_by l ↔ x ∈ l.
Proof. by rewrite sorted_by_perm. Qed.
Hypothesis leb_total : ∀ x y, leb x y = true ∨ leb y x = true.

Lemma insort_sorted x l : Sorted (λ a b, leb a b = true) l → Sorted (λ a b, leb a b = true) (insort x l).
Proof.
  induction 1 as [|y l Hl IH Hy]; simpl; [by repeat constructor|]. destruct (leb x y) eqn:Hxy; [by repeat constructor|].
  constructor; [done|]. destruct (leb_total x y) as [?|Hyx]; [congruence|].
  destruct l as [|z l]; simpl; [by constructor|]. destruct (leb x z); constructor; [done|by inversion Hy].
Qed.

Lemma sorted_by_sorted l : Sorted (λ a b, leb a b = true) (sorted_by l).
Proof. induction l as [|x l IH]; simpl; [constructor|by apply insort_sorted]. Qed.
End sorted.
