(* ===== verification/Text.v ===== *)
(** * Text: Python text by character, and the part of [re] the text code uses

    A [str] is a list of Unicode scalar values (domain/text.py, and
    [estimate_tokens] of modules/ingestion/hierarchy.py, count characters, not
    bytes). A regular expression is a tree of the constructs the patterns have;
    [ends] lists the ends of its matches at a position in the order the matcher
    tries them, and [finditer] is [re.Pattern.finditer], empty matches included.

    A lone surrogate is not a [char]: the text the service stores is UTF-8. *)
From stdpp Require Import base list strings.
From Stdlib Require Import ZArith NArith Lia Ascii String.
From S2P Require Import Prelude.
#[local] Open Scope Z_scope.

(** ** Characters *)

(** A Unicode scalar value: a code point that is no surrogate. *)
Definition scalar (n : N) : bool := (n <? 55296)%N || ((57343 <? n) && (n <? 1114112))%N.

Record char : Set := Char { ord : N; ord_scalar : scalar ord = true }.

Abbreviation text := (list char).

#[export] Instance char_eq_dec : EqDecision char.
Proof.
  intros [a Ha] [b Hb]. destruct (decide (a = b)) as [->|Hn].
  - left. f_equal. apply (proof_irrel Ha Hb).
  - right. by intros [=].
Defined.

Lemma ascii_scalar (a : ascii) : scalar (N_of_ascii a) = true.
Proof. by destruct a as [[] [] [] [] [] [] [] []]. Qed.

Definition chr (a : ascii) : char := Char (N_of_ascii a) (ascii_scalar a).

(** A literal of the source. *)
Definition lit (s : string) : text := chr <$> list_ascii_of_string s.

(** [chr(n)]; U+FFFD where [n] is no scalar value. *)
Definition uni (n : N) : char :=
  match decide (scalar n = true) with
  | left H => Char n H
  | right _ => Char 65533 eq_refl
  end.

Definition newline : char := chr "010".

Definition isascii (c : char) : bool := (ord c <? 128)%N.

Definition within_ranges (ranges : list (N * N)) (c : char) : bool :=
  existsb (λ r, (r.1 <=? ord c) && (ord c <=? r.2))%N ranges.

(** [str.isspace] of one character, which is also [\s]: the characters of
    bidirectional class WS, B or S and of category Zs. *)
Definition isspace (c : char) : bool :=
  within_ranges [(9, 13); (28, 32); (133, 133); (160, 160); (5760, 5760); (8192, 8202); (8232, 8233); (8239, 8239);
                 (8287, 8287); (12288, 12288)]%N c.

(** The decimal digits of every script (category Nd of Unicode 15), ten by ten. *)
Definition decimal_ranges : list (N * N) :=
    [(48, 57); (1632, 1641); (1776, 1785); (1984, 1993); (2406, 2415); (2534, 2543); (2662, 2671); (2790, 2799);
     (2918, 2927); (3046, 3055); (3174, 3183); (3302, 3311); (3430, 3439); (3558, 3567); (3664, 3673); (3792, 3801);
     (3872, 3881); (4160, 4169); (4240, 4249); (6112, 6121); (6160, 6169); (6470, 6479); (6608, 6617); (6784, 6793);
     (6800, 6809); (6992, 7001); (7088, 7097); (7232, 7241); (7248, 7257); (42528, 42537); (43216, 43225);
     (43264, 43273); (43472, 43481); (43504, 43513); (43600, 43609); (44016, 44025); (65296, 65305); (66720, 66729);
     (68912, 68921); (69734, 69743); (69872, 69881); (69942, 69951); (70096, 70105); (70384, 70393); (70736, 70745);
     (70864, 70873); (71248, 71257); (71360, 71369); (71472, 71481); (71904, 71913); (72016, 72025); (72784, 72793);
     (73040, 73049); (73120, 73129); (73552, 73561); (92768, 92777); (92864, 92873); (93008, 93017); (120782, 120831);
     (123200, 123209); (123632, 123641); (124144, 124153); (125264, 125273); (130032, 130041)]%N.

(** [\d]. *)
Definition isdecimal (c : char) : bool := within_ranges decimal_ranges c.

(** What a decimal digit is worth. *)
Definition digit_value (c : char) : Z :=
  match find (λ r, (r.1 <=? ord c) && (ord c <=? r.2))%N decimal_ranges with
  | Some r => Z.of_N ((ord c - r.1) mod 10)
  | None => 0
  end.

(** [len(c.encode("utf-8"))]. *)
Definition utf8_len (c : char) : Z :=
  if (ord c <? 128)%N then 1 else if (ord c <? 2048)%N then 2 else if (ord c <? 65536)%N then 3 else 4.

(** [c.encode("utf-8")]. *)
Definition utf8_bytes (c : char) : list N :=
  let n := ord c in
  if (n <? 128)%N then [n]
  else if (n <? 2048)%N then [192 + n / 64; 128 + n mod 64]%N
  else if (n <? 65536)%N then [224 + n / 4096; 128 + n / 64 mod 64; 128 + n mod 64]%N
  else [240 + n / 262144; 128 + n / 4096 mod 64; 128 + n / 64 mod 64; 128 + n mod 64]%N.

(** [t.encode("utf-8")], the bytes as a [string]. *)
Definition encode (t : text) : string := string_of_list_ascii (ascii_of_N <$> (t ≫= utf8_bytes)).

(** The characters of a [str] the other components hold as its UTF-8 bytes;
    U+FFFD for a sequence that is cut short. *)
Fixpoint chars (s : string) : text :=
  match s with
  | EmptyString => []
  | String a r =>
      let n := N_of_ascii a in
      let tail x := (N_of_ascii x - 128)%N in
      if (n <? 128)%N then uni n :: chars r
      else if (n <? 224)%N then
        match r with String b r' => uni ((n - 192) * 64 + tail b)%N :: chars r' | _ => [uni 65533] end
      else if (n <? 240)%N then
        match r with
        | String b (String c r') => uni ((n - 224) * 4096 + tail b * 64 + tail c)%N :: chars r'
        | _ => [uni 65533]
        end
      else
        match r with
        | String b (String c (String d r')) =>
            uni ((n - 240) * 262144 + tail b * 4096 + tail c * 64 + tail d)%N :: chars r'
        | _ => [uni 65533]
        end
  end.

Lemma utf8_len_bytes c : utf8_len c = Z.of_nat (length (utf8_bytes c)).
Proof. unfold utf8_len, utf8_bytes. by repeat case_match. Qed.

Definition token_units (character : char) : Z :=
  if isascii character then (if bool_decide (character = newline) then 5 else 1) else 4 * utf8_len character.

(** [sum(map(token_units, text))]. *)
Definition weight (t : text) : Z := foldr (λ c n, token_units c + n) 0 t.

Definition count_char (c : char) (t : text) : Z := Z.of_nat (length (filter (λ d, d = c) t)).

Definition estimate_tokens (t : text) : Z :=
  if forallb isascii t then Z.max 1 (Z.of_nat (length t) / 4 + count_char newline t)
  else Z.max 1 (weight t / 4).

(** ** Slices *)

(** [t[a:b]] for [0 <= a <= b <= len(t)]. *)
Definition slice (t : text) (a b : nat) : text := take (b - a) (drop a t).

(** [t[i].isspace()] for [i < len(t)]. *)
Definition space_at (t : text) (i : nat) : bool := match t !! i with Some c => isspace c | None => false end.

(** A character a reader sees stands at [i]. *)
Definition ink_at (t : text) (i : nat) : Prop := ∃ c, t !! i = Some c ∧ isspace c = false.

(** [str.strip()], by its two sides. *)
Fixpoint lstrip (t : text) : text :=
  match t with
  | [] => []
  | c :: t' => if isspace c then lstrip t' else t
  end.

Definition rstrip (t : text) : text := reverse (lstrip (reverse t)).

Definition strip (t : text) : text := rstrip (lstrip t).

(** [sep.join(parts)]. *)
Fixpoint join (sep : text) (parts : list text) : text :=
  match parts with
  | [] => []
  | [p] => p
  | p :: ps => p ++ sep ++ join sep ps
  end.

(** [t.split("\n")], which always has a first piece. *)
Fixpoint split_on (d : char) (t : text) : list text :=
  match t with
  | [] => [[]]
  | c :: t' =>
      let r := split_on d t' in
      if bool_decide (c = d) then [] :: r
      else match r with [] => [[c]] | p :: ps => (c :: p) :: ps end
  end.

(** [t.split()]: the runs of characters that are no white space. *)
Fixpoint words_from (current t : text) : list text :=
  let flushed := match current with [] => [] | _ => [reverse current] end in
  match t with
  | [] => flushed
  | c :: t' => if isspace c then flushed ++ words_from [] t' else words_from (c :: current) t'
  end.

Definition words (t : text) : list text := words_from [] t.

(** [t.startswith(p)]. *)
Fixpoint starts_with (p t : text) : bool :=
  match p, t with
  | [], _ => true
  | c :: p', d :: t' => bool_decide (c = d) && starts_with p' t'
  | _ :: _, [] => false
  end.

(** [p in t]. *)
Fixpoint contains (p t : text) : bool :=
  starts_with p t || match t with [] => false | _ :: t' => contains p t' end.

(** [t.split(sep)] for a separator that is not empty: [skip] characters of it
    are still to pass, [current] is the piece so far, backwards. *)
Fixpoint split_by_from (sep : text) (skip : nat) (current t : text) : list text :=
  match t with
  | [] => [reverse current]
  | c :: t' =>
      match skip with
      | S k => split_by_from sep k current t'
      | O => if starts_with sep t then reverse current :: split_by_from sep (pred (length sep)) [] t'
             else split_by_from sep O (c :: current) t'
      end
  end.

Definition split_by (sep t : text) : list text := split_by_from sep O [] t.

Example split_by_ex : split_by (lit "; ") (lit "a; b;c; ") = [lit "a"; lit "b;c"; []].
Proof. vm_compute. reflexivity. Qed.

Example words_ex : words (lit "  what  is it ") = [lit "what"; lit "is"; lit "it"].
Proof. vm_compute. reflexivity. Qed.

(** [counts[name] = counts.get(name, 0) + 1]. *)
Fixpoint count_up (name : text) (counts : list (text * Z)) : list (text * Z) :=
  match counts with
  | [] => [(name, 1)]
  | (k, n) :: rest => if bool_decide (k = name) then (k, n + 1) :: rest else (k, n) :: count_up name rest
  end.

(** [str.upper] and [str.lower] as far as the result is ASCII: the characters
    beyond ASCII whose capitals are ASCII letters (dotless i, long s, sharp s and
    the Latin ligatures), and the Kelvin sign, whose small letter is. *)
Definition upper_char (c : char) : text :=
  let n := ord c in
  if ((97 <=? n) && (n <=? 122))%N then [uni (n - 32)]
  else if (n =? 305)%N then lit "I"
  else if (n =? 383)%N then lit "S"
  else if (n =? 223)%N then lit "SS"
  else if (n =? 64256)%N then lit "FF"
  else if (n =? 64257)%N then lit "FI"
  else if (n =? 64258)%N then lit "FL"
  else if (n =? 64259)%N then lit "FFI"
  else if (n =? 64260)%N then lit "FFL"
  else if ((n =? 64261) || (n =? 64262))%N then lit "ST"
  else [c].

Definition lower_char (c : char) : char :=
  let n := ord c in
  if ((65 <=? n) && (n <=? 90))%N then uni (n + 32) else if (n =? 8490)%N then chr "k" else c.

Definition upper (t : text) : text := t ≫= upper_char.
Definition lower (t : text) : text := lower_char <$> t.

(** [str.splitlines]: lines end at the line boundaries of Unicode, a carriage
    return with the newline after it. [current] is the line so far, backwards. *)
Definition is_boundary (c : char) : bool :=
  within_ranges [(10, 13); (28, 30); (133, 133); (8232, 8233)]%N c.

Fixpoint splitlines_from (current t : text) : list text :=
  match t with
  | [] => match current with [] => [] | _ => [reverse current] end
  | c :: t' =>
      if is_boundary c then
        reverse current ::
          match t' with
          | d :: t'' => if bool_decide (c = chr "013") && bool_decide (d = newline) then splitlines_from [] t''
                        else splitlines_from [] t'
          | [] => splitlines_from [] t'
          end
      else splitlines_from (c :: current) t'
  end.

Definition splitlines (t : text) : list text := splitlines_from [] t.

(** [str.casefold] as far as the result is ASCII: the capitals, and the
    characters beyond ASCII that fold to ASCII letters. *)
Definition casefold_char (c : char) : text :=
  let n := ord c in
  if ((65 <=? n) && (n <=? 90))%N then [uni (n + 32)]
  else if (n =? 383)%N then lit "s"
  else if (n =? 8490)%N then lit "k"
  else if ((n =? 223) || (n =? 7838))%N then lit "ss"
  else if (n =? 64256)%N then lit "ff"
  else if (n =? 64257)%N then lit "fi"
  else if (n =? 64258)%N then lit "fl"
  else if (n =? 64259)%N then lit "ffi"
  else if (n =? 64260)%N then lit "ffl"
  else if ((n =? 64261) || (n =? 64262))%N then lit "st"
  else [c].

Definition casefold (t : text) : text := t ≫= casefold_char.

(** ** Regular expressions *)

Inductive regex : Type :=
| One (p : char → bool)      (** a character of a class *)
| Many (p : char → bool)     (** the class starred, greedily *)
| Behind (p : char → bool)   (** [(?<=...)] of a one-character class *)
| Opt (r : regex)            (** [r?], greedily *)
| Repeat (r : regex)         (** [(?:r)*], greedily *)
| Then (r s : regex)
| Either (r s : regex).

Definition Plus (p : char → bool) : regex := Then (One p) (Many p).

(** How many characters of the class [t] starts with. *)
Fixpoint run_length (p : char → bool) (t : text) : nat :=
  match t with
  | [] => O
  | c :: t' => if p c then S (run_length p t') else O
  end.

(** The ends of the matches of [r] at [i] in [t[:stop]], in the order the
    matcher tries them. *)
Fixpoint ends (t : text) (stop : nat) (r : regex) (i : nat) : list nat :=
  match r with
  | One p => match slice t i stop with c :: _ => if p c then [S i] else [] | [] => [] end
  | Many p => (λ k, (i + k)%nat) <$> reverse (seq 0 (S (run_length p (slice t i stop))))
  | Behind p => match i with
                | O => []
                | S j => match t !! j with Some c => if p c then [i] else [] | None => [] end
                end
  | Opt r' => ends t stop r' i ++ [i]
  | Repeat r' =>
      (fix again (n : nat) (i : nat) : list nat :=
         match n with
         | O => [i]
         | S n' => (e ← filter (λ e, e ≠ i) (ends t stop r' i); again n' e) ++ [i]
         end) (stop - i)%nat i
  | Then r1 r2 => e ← ends t stop r1 i; ends t stop r2 e
  | Either r1 r2 => ends t stop r1 i ++ ends t stop r2 i
  end.

(** [pattern.match(t, i, stop)]: where it ends. After an empty match at [i] the
    matcher refuses another one there ([advance]). *)
Definition match_at (t : text) (stop : nat) (r : regex) (i : nat) (advance : bool) : option nat :=
  head (filter (λ e, advance = false ∨ e ≠ i) (ends t stop r i)).

(** The first match that starts at [i] or after it, trying [S n] positions. *)
Fixpoint search_from (t : text) (stop : nat) (r : regex) (n i : nat) (advance : bool) : option (nat * nat) :=
  match match_at t stop r i advance with
  | Some e => Some (i, e)
  | None => match n with O => None | S n' => search_from t stop r n' (S i) false end
  end.

Fixpoint finditer_from (t : text) (stop : nat) (r : regex) (fuel i : nat) (advance : bool) : list (nat * nat) :=
  match fuel with
  | O => []
  | S fuel' =>
      match search_from t stop r (stop - i) i advance with
      | None => []
      | Some (a, b) => (a, b) :: finditer_from t stop r fuel' b (bool_decide (a = b))
      end
  end.

(** What the search may still report from [i]: every character once, and an
    empty match between them. *)
Definition finditer_fuel (stop i : nat) : nat := S (2 * (stop - i) + 1).

Definition finditer (t : text) (r : regex) (start stop : nat) : list (nat * nat) :=
  finditer_from t stop r (finditer_fuel stop start) start false.

(** [re.split(pattern, t)], for a pattern whose matches are not empty. *)
Fixpoint pieces_from (t : text) (start : nat) (matches : list (nat * nat)) : list text :=
  match matches with
  | [] => [slice t start (length t)]
  | (a, b) :: rest => slice t start a :: pieces_from t b rest
  end.

Definition re_split (t : text) (r : regex) : list text := pieces_from t 0 (finditer t r 0 (length t)).

Example finditer_ex :
  finditer (lit "One. Two.  Three") (Then (Behind (λ c, bool_decide (c = chr "."))) (Plus isspace)) 0 16 = [(4, 5); (9, 11)]%nat.
Proof. vm_compute. reflexivity. Qed.

(** An empty match is reported once, and the next one is looked for beyond it. *)
Example finditer_empty_ex : finditer (lit "ab c") (Many isspace) 0 4 = [(0, 0); (1, 1); (2, 3); (3, 3); (4, 4)]%nat.
Proof. vm_compute. reflexivity. Qed.

(** ** UTF-8 both ways *)

Ltac div_lia := zify; Z.to_euclidean_division_equations; lia.

Lemma uni_ord c : uni (ord c) = c.
Proof.
  destruct c as [n H]. unfold uni. simpl. destruct (decide _) as [H'|]; [|done]. f_equal. apply (proof_irrel H' H).
Qed.

Lemma encode_cons c t : encode (c :: t) = string_of_list_ascii (ascii_of_N <$> utf8_bytes c) +:+ encode t.
Proof.
  unfold encode. rewrite bind_cons, fmap_app. induction (ascii_of_N <$> utf8_bytes c) as [|a l IH]; [done|]. simpl. by f_equal.
Qed.

Lemma ord_cases c : (ord c < 55296)%N ∨ (57343 < ord c < 1114112)%N.
Proof.
  destruct c as [n H]. simpl. unfold scalar in H.
  apply orb_true_iff in H as [H%N.ltb_lt|[H1%N.ltb_lt H%N.ltb_lt]%andb_true_iff]; [by left|by right].
Qed.

Lemma ord_bound c : (ord c < 1114112)%N.
Proof. pose proof (ord_cases c). lia. Qed.

Lemma chars_char c s : chars (string_of_list_ascii (ascii_of_N <$> utf8_bytes c) +:+ s) = c :: chars s.
Proof.
  pose proof (ord_bound c) as Hc.
  pose proof (uni_ord c) as Hu. revert Hu. unfold utf8_bytes. set (n := ord c) in *. intros Hu.
  destruct (N.ltb_spec n 128); [|destruct (N.ltb_spec n 2048); [|destruct (N.ltb_spec n 65536)]];
    cbn [fmap list_fmap string_of_list_ascii String.append chars]; rewrite !N_ascii_embedding by div_lia.
  - rewrite (proj2 (N.ltb_lt _ _)) by div_lia. f_equal. exact Hu.
  - rewrite (proj2 (N.ltb_ge _ _)), (proj2 (N.ltb_lt _ _)) by div_lia. f_equal. transitivity (uni n); [f_equal; div_lia|exact Hu].
  - rewrite (proj2 (N.ltb_ge _ 128)), (proj2 (N.ltb_ge _ 224)), (proj2 (N.ltb_lt _ _)) by div_lia. f_equal. transitivity (uni n); [f_equal; div_lia|exact Hu].
  - rewrite (proj2 (N.ltb_ge _ 128)), (proj2 (N.ltb_ge _ 224)), (proj2 (N.ltb_ge _ 240)) by div_lia. f_equal. transitivity (uni n); [f_equal; div_lia|exact Hu].
Qed.

Lemma chars_encode t : chars (encode t) = t.
Proof. induction t as [|c t IH]; [done|]. by rewrite encode_cons, chars_char, IH. Qed.

(** ** Weights and slices *)

Lemma token_units_bounds c : 1 ≤ token_units c ≤ 16.
Proof. unfold token_units, utf8_len. repeat case_match; lia. Qed.

Lemma weight_app a b : weight (a ++ b) = weight a + weight b.
Proof. induction a as [|c a IH]; simpl; [done|]. lia. Qed.

Lemma weight_nonneg t : 0 ≤ weight t.
Proof. induction t as [|c t IH]; simpl; [done|]. pose proof (token_units_bounds c). lia. Qed.

(** The two branches of [estimate_tokens] are one formula: a newline counts
    five quarters in the one as in the other. *)
Lemma estimate_tokens_weight t : estimate_tokens t = Z.max 1 (weight t / 4).
Proof.
  unfold estimate_tokens. destruct (forallb isascii t) eqn:Ha; [|done]. f_equal.
  assert (weight t = Z.of_nat (length t) + count_char newline t * 4) as ->; [|by rewrite Z.div_add].
  induction t as [|c t IH]; [done|]. simpl in Ha. split_bool. specialize (IH ltac:(done)).
  unfold count_char in *. cbn [weight foldr length] in *. fold (weight t). rewrite IH, filter_cons.
  unfold token_units. replace (isascii c) with true. case_decide as Hc; case_bool_decide; try done; simpl; lia.
Qed.

Lemma weight_estimate t m : 1 ≤ m → weight t ≤ m * 4 → estimate_tokens t ≤ m.
Proof. intros. rewrite estimate_tokens_weight. apply Z.max_lub; [lia|]. apply Z.div_le_upper_bound; lia. Qed.

Lemma slice_split t a b c : (a ≤ b ≤ c)%nat → slice t a c = slice t a b ++ slice t b c.
Proof.
  intros. unfold slice. replace (c - a)%nat with ((b - a) + (c - b))%nat by lia. rewrite <- take_take_drop, drop_drop.
  by replace (a + (b - a))%nat with b by lia.
Qed.

Lemma slice_nil t a b : (b ≤ a)%nat → slice t a b = [].
Proof. intros. unfold slice. by replace (b - a)%nat with O by lia. Qed.

Lemma slice_one t i c : t !! i = Some c → slice t i (S i) = [c].
Proof.
  intros Hi. unfold slice. replace (S i - i)%nat with 1%nat by lia. by rewrite (drop_S _ _ _ Hi).
Qed.

Lemma slice_cons t i stop c r : slice t i stop = c :: r → t !! i = Some c ∧ (i < stop)%nat ∧ r = slice t (S i) stop.
Proof.
  unfold slice. intros H. destruct (decide (i < stop)%nat) as [Hi|]; [|by replace (stop - i)%nat with O in H by lia].
  replace (stop - i)%nat with (S (stop - S i)) in H by lia.
  destruct (t !! i) as [d|] eqn:Hl.
  - rewrite (drop_S _ _ _ Hl) in H. simpl in H. by simplify_eq.
  - rewrite drop_ge in H; [done|]. by apply lookup_ge_None.
Qed.

Lemma slice_length t a b : (b ≤ length t)%nat → length (slice t a b) = (b - a)%nat.
Proof. intros. unfold slice. rewrite length_take, length_drop. lia. Qed.

Lemma lookup_slice t a b i : (a + i < b)%nat → slice t a b !! i = t !! (a + i)%nat.
Proof. intros. unfold slice. rewrite lookup_take_lt, lookup_drop; [done|lia]. Qed.

Lemma slice_all t : slice t 0 (length t) = t.
Proof. unfold slice. by rewrite Nat.sub_0_r, drop_0, firstn_all. Qed.

Lemma weight_slice_S t a i c : t !! i = Some c → (a ≤ i)%nat → weight (slice t a (S i)) = weight (slice t a i) + token_units c.
Proof. intros Hi Ha. rewrite (slice_split t a i (S i)), weight_app, (slice_one t i c Hi) by lia. simpl. lia. Qed.

Lemma weight_slice_split t a b c : (a ≤ b ≤ c)%nat → weight (slice t a c) = weight (slice t a b) + weight (slice t b c).
Proof. intros. by rewrite (slice_split t a b c), weight_app. Qed.

Lemma ink_space_at t i : ink_at t i → space_at t i = false.
Proof. unfold space_at. by intros (c & -> & Hc). Qed.

Lemma not_space_ink t i : (i < length t)%nat → space_at t i = false → ink_at t i.
Proof. unfold space_at, ink_at. intros Hi. destruct (lookup_lt_is_Some_2 t i Hi) as [c ->]. eauto. Qed.

(** ** What a regular expression of blanks matches *)

(** Every character a match of [r] takes is a space. *)
Fixpoint blank (r : regex) : Prop :=
  match r with
  | One p | Many p => ∀ c, p c = true → isspace c = true
  | Behind _ => True
  | Opt r' | Repeat r' => blank r'
  | Then r1 r2 | Either r1 r2 => blank r1 ∧ blank r2
  end.

Definition spaces (t : text) (a b : nat) : Prop := ∀ j, (a ≤ j < b)%nat → space_at t j = true.

Lemma run_length_spec p t k : (k < run_length p t)%nat → ∃ c, t !! k = Some c ∧ p c = true.
Proof.
  revert k. induction t as [|c t IH]; simpl; [lia|]. destruct (p c) eqn:Hc; [|lia].
  intros [|k] Hk; [eauto|]. apply IH. lia.
Qed.

Lemma run_length_le p t : (run_length p t ≤ length t)%nat.
Proof. induction t as [|c t IH]; simpl; [done|]. destruct (p c); lia. Qed.

Lemma slice_length_le t a b : (length (slice t a b) ≤ b - a)%nat.
Proof. unfold slice. rewrite length_take. lia. Qed.

(** A match starts where it is looked for, ends inside the text given and, when
    the expression is of blanks, takes only spaces. *)
Lemma ends_spec t stop r i e :
  e ∈ ends t stop r i → (i ≤ stop)%nat → (i ≤ e ≤ stop)%nat ∧ (blank r → spaces t i e).
Proof.
  revert i e. induction r as [p|p|p|r IH|r IH|r1 IH1 r2 IH2|r1 IH1 r2 IH2]; intros i e He Hi; cbn [ends] in He.
  - destruct (slice t i stop) as [|c l] eqn:Hs; [set_solver|]. apply slice_cons in Hs as (Hc & Hlt & _).
    destruct (p c) eqn:Hp; [|set_solver]. apply list_elem_of_singleton in He as ->. split; [lia|].
    intros Hb j Hj. replace j with i by lia. unfold space_at. rewrite Hc. by apply Hb.
  - apply list_elem_of_fmap in He as (k & -> & Hk). apply elem_of_reverse, elem_of_seq in Hk.
    pose proof (run_length_le p (slice t i stop)). pose proof (slice_length_le t i stop). split; [lia|].
    intros Hb j Hj. destruct (run_length_spec p (slice t i stop) (j - i)) as (c & Hc & Hp); [lia|].
    rewrite lookup_slice in Hc by lia. replace (i + (j - i))%nat with j in Hc by lia.
    unfold space_at. rewrite Hc. by apply Hb.
  - destruct i as [|i]; [set_solver|]. repeat case_match; try set_solver.
    apply list_elem_of_singleton in He as ->. split; [lia|]. intros _ j ?. lia.
  - apply elem_of_app in He as [He|He]; [by apply IH|]. apply list_elem_of_singleton in He as ->.
    split; [lia|]. intros _ j ?. lia.
  - remember (stop - i)%nat as n eqn:Hn in He. clear Hn. revert i He Hi. induction n as [|n IHn]; intros i He Hi.
    + apply list_elem_of_singleton in He as ->. split; [lia|]. intros _ j ?. lia.
    + apply elem_of_app in He as [He|He].
      2: { apply list_elem_of_singleton in He as ->. split; [lia|]. intros _ j ?. lia. }
      apply list_elem_of_bind in He as (m & He & [_ Hm]%list_elem_of_filter). destruct (IH _ _ Hm Hi) as [? B1].
      destruct (IHn m He) as [? B2]; [lia|]. split; [lia|]. intros Hb j Hj. destruct (decide (j < m)%nat); [apply B1|apply B2]; auto; lia.
  - apply list_elem_of_bind in He as (m & He & Hm). destruct (IH1 _ _ Hm Hi) as [? B1]. destruct (IH2 _ _ He) as [? B2]; [lia|].
    split; [lia|]. intros [Hb1 Hb2] j Hj. destruct (decide (j < m)%nat); [apply B1|apply B2]; auto; lia.
  - apply elem_of_app in He as [He|He].
    + destruct (IH1 _ _ He Hi) as [? B]. split; [done|]. intros [? ?]. by apply B.
    + destruct (IH2 _ _ He Hi) as [? B]. split; [done|]. intros [? ?]. by apply B.
Qed.

Lemma match_at_spec t stop r i advance e :
  match_at t stop r i advance = Some e → (i ≤ stop)%nat →
  (i ≤ e ≤ stop)%nat ∧ (blank r → spaces t i e) ∧ (advance = true → i ≠ e).
Proof.
  unfold match_at. intros H Hi. apply head_Some_elem_of in H. apply list_elem_of_filter in H as [Hf He].
  destruct (ends_spec _ _ _ _ _ He Hi). split_and!; try done; destruct advance; naive_solver.
Qed.

Lemma search_from_spec t stop r n i advance a b :
  search_from t stop r n i advance = Some (a, b) → (i + n ≤ stop)%nat →
  (i ≤ a ≤ b)%nat ∧ (b ≤ stop)%nat ∧ (blank r → spaces t a b) ∧ (advance = true → a = i → a ≠ b).
Proof.
  revert i advance. induction n as [|n IH]; intros i advance; cbn [search_from];
    destruct (match_at t stop r i advance) as [e|] eqn:Hm; intros H Hn; try done.
  1, 2: simplify_eq; apply match_at_spec in Hm as (? & ? & ?); [split_and!; auto; lia|lia].
  apply IH in H as (? & ? & ? & ?); [|lia]. split_and!; auto; lia.
Qed.

(** The matches found, from left to right and apart from each other. *)
Fixpoint apart (t : text) (r : regex) (lo stop : nat) (l : list (nat * nat)) : Prop :=
  match l with
  | [] => True
  | (a, b) :: l' => (lo ≤ a ≤ b)%nat ∧ (b ≤ stop)%nat ∧ (blank r → spaces t a b) ∧ apart t r b stop l'
  end.

Lemma finditer_from_apart t stop r fuel i advance : (i ≤ stop)%nat → apart t r i stop (finditer_from t stop r fuel i advance).
Proof.
  revert i advance. induction fuel as [|fuel IH]; intros i advance Hi; cbn [finditer_from]; [done|].
  destruct (search_from t stop r (stop - i) i advance) as [[a b]|] eqn:Hs; [|done].
  apply search_from_spec in Hs as (? & ? & ? & ?); [|lia]. cbn [apart]. repeat split; try done; try lia. by apply IH.
Qed.

Lemma finditer_apart t r start stop : (start ≤ stop)%nat → apart t r start stop (finditer t r start stop).
Proof. apply finditer_from_apart. Qed.

(** The fuel is enough: with more, the same matches are found. *)
Lemma finditer_from_fuel t stop r fuel extra i (advance : bool) :
  (i ≤ stop)%nat → (2 * (stop - i) + (if advance then 1 else 2) ≤ fuel)%nat →
  finditer_from t stop r (fuel + extra) i advance = finditer_from t stop r fuel i advance.
Proof.
  revert i advance. induction fuel as [|fuel IH]; intros i advance Hi Hf; [destruct advance; lia|].
  cbn [Nat.add finditer_from]. destruct (search_from t stop r (stop - i) i advance) as [[a b]|] eqn:Hs; [|done].
  apply search_from_spec in Hs as (? & ? & _ & Hadv); [|lia]. f_equal. apply IH; [lia|].
  case_bool_decide; destruct advance; lia.
Qed.

Lemma finditer_fuel_enough t r start stop extra :
  (start ≤ stop)%nat →
  finditer_from t stop r (finditer_fuel stop start + extra) start false = finditer t r start stop.
Proof. intros. apply finditer_from_fuel; [done|]. unfold finditer_fuel. lia. Qed.

(** ** Stripping *)

Lemma lstrip_suffix t : ∃ a, t = a ++ lstrip t ∧ Forall (λ c, isspace c = true) a.
Proof.
  induction t as [|c t (a & IH & Ha)]; simpl; [by exists []|]. destruct (isspace c) eqn:Hc; [|by exists []].
  exists (c :: a). rewrite IH at 1. by repeat constructor.
Qed.

(** The characters a reader sees. *)
Definition ink (t : text) : text := filter (λ c, isspace c = false) t.

Lemma ink_app a b : ink (a ++ b) = ink a ++ ink b.
Proof. apply filter_app. Qed.

Lemma ink_spaces t : Forall (λ c, isspace c = true) t → ink t = [].
Proof. induction 1 as [|c t Hc _ IH]; [done|]. unfold ink. rewrite filter_cons, decide_False by congruence. done. Qed.

Lemma spaces_ink t a b : spaces t a b → ink (slice t a b) = [].
Proof.
  intros H. apply ink_spaces. apply Forall_lookup. intros k c Hk.
  assert (k < b - a)%nat by (apply lookup_lt_Some in Hk; pose proof (slice_length_le t a b); lia).
  rewrite lookup_slice in Hk by lia. specialize (H (a + k)%nat ltac:(lia)). unfold space_at in H. by rewrite Hk in H.
Qed.

Lemma join_ink sep parts : ink sep = [] → ink (join sep parts) = ink (concat parts).
Proof.
  intros Hs. induction parts as [|p ps IH]; [done|]. destruct ps as [|q ps]; [by simpl; rewrite app_nil_r|].
  cbn [join concat] in *. by rewrite !ink_app, Hs, IH, ink_app.
Qed.

(** Splitting at a character and joining by it are inverse. *)
Lemma join_split_on d t : join [d] (split_on d t) = t.
Proof.
  induction t as [|c t IH]; [done|]. cbn [split_on].
  assert (split_on d t ≠ []) as Hne by (destruct t; simpl; [done|]; repeat case_match; done).
  case_bool_decide as Hc; destruct (split_on d t) as [|p ps]; try done.
  - cbn [join] in *. by rewrite IH, Hc.
  - destruct ps; cbn [join] in *; simpl; by rewrite <- IH.
Qed.
