(* ===== verification/JsonText.v ===== *)
(** * JsonText: [json.dumps] in ASCII, and reading its strings back

    What the code hashes or writes into an expression is [json.dumps] with its
    defaults: every character outside printable ASCII is escaped. A string
    literal is read as [json.loads] reads it, surrogate pairs joined; a lone
    surrogate is no [char] and is read as U+FFFD. *)
From S2P Require Import Prelude Text.
#[local] Open Scope Z_scope.

Definition quote : char := chr "034".
Definition backslash : char := chr "\".

(** ** Writing *)

Definition hex (n : N) : char := uni (if (n <? 10)%N then 48 + n else 87 + n)%N.

Definition u4 (n : N) : text :=
  [backslash; chr "u"; hex (n / 4096); hex (n / 256 mod 16); hex (n / 16 mod 16); hex (n mod 16)]%N.

Definition short_escapes : list (N * N) := [(34, 34); (92, 92); (8, 98); (12, 102); (10, 110); (13, 114); (9, 116)]%N.

Definition escape_ascii (c : char) : text :=
  match find (λ p, p.1 =? ord c)%N short_escapes with
  | Some p => [backslash; uni p.2]
  | None =>
      if (32 <=? ord c)%N && (ord c <=? 126)%N then [c]
      else if (ord c <? 65536)%N then u4 (ord c)
      else let v := (ord c - 65536)%N in u4 (55296 + v / 1024)%N ++ u4 (56320 + v mod 1024)%N
  end.

Definition quoted (t : text) : text := quote :: (t ≫= escape_ascii) ++ [quote].

(** [json.dumps(j, separators=(",", ":"))]. *)
Fixpoint dumps_ascii (j : json) : text :=
  match j with
  | JNull => lit "null"
  | JBool b => if b then lit "true" else lit "false"
  | JNum n => lit (text_of_Z n)
  | JStr s => quoted (chars s)
  | JList l => lit "[" ++ join (lit ",") (dumps_ascii <$> l) ++ lit "]"
  | JObj fields => lit "{" ++ join (lit ",") ((λ '(k, v), quoted (chars k) ++ lit ":" ++ dumps_ascii v) <$> fields) ++ lit "}"
  end.

(** ** Reading a string *)

Definition hex_digit (c : char) : option N :=
  let n := ord c in
  if (48 <=? n)%N && (n <=? 57)%N then Some (n - 48)%N
  else if (97 <=? n)%N && (n <=? 102)%N then Some (n - 87)%N
  else if (65 <=? n)%N && (n <=? 70)%N then Some (n - 55)%N
  else None.

Definition hex4 (a b c d : char) : option N :=
  w ← hex_digit a; x ← hex_digit b; y ← hex_digit c; z ← hex_digit d; Some (((w * 16 + x) * 16 + y) * 16 + z)%N.

(** The characters between the quotes and what follows them: what the string
    token's regular expression matches after its first quote, a backslash taking
    the character after it (a line break excepted). *)
Fixpoint string_end (t : text) : option (text * text) :=
  match t with
  | [] => None
  | c :: r =>
      if bool_decide (c = quote) then Some ([], r)
      else if bool_decide (c = backslash) then
        match r with
        | d :: r' => if bool_decide (d = newline) then None
                     else '(inner, rest) ← string_end r'; Some (c :: d :: inner, rest)
        | [] => None
        end
      else '(inner, rest) ← string_end r; Some (c :: inner, rest)
  end.

Definition high (n : N) : bool := (55296 <=? n)%N && (n <=? 56319)%N.
Definition low (n : N) : bool := (56320 <=? n)%N && (n <=? 57343)%N.

(** What was read before a low surrogate: a pending high one is joined to it. *)
Definition joined (a b : N) : char := uni (65536 + (a - 55296) * 1024 + (b - 56320))%N.

(** One [\uXXXX], with the pair's second half when there is one. *)
Definition read_u (n : N) (rest : text) : char * text :=
  match rest with
  | b :: u :: w :: x :: y :: z :: rest' =>
      if high n && bool_decide (b = backslash) && bool_decide (u = chr "u") then
        match hex4 w x y z with
        | Some m => if low m then (joined n m, rest') else (uni n, rest)
        | None => (uni n, rest)
        end
      else (uni n, rest)
  | _ => (uni n, rest)
  end.

Fixpoint unescape (fuel : nat) (t : text) : option text :=
  match fuel with
  | O => None
  | S fuel =>
      match t with
      | [] => Some []
      | c :: r =>
          if bool_decide (c = backslash) then
            match r with
            | [] => None
            | e :: r' =>
                if bool_decide (e = chr "u") then
                  match r' with
                  | w :: x :: y :: z :: r'' =>
                      n ← hex4 w x y z;
                      let '(ch, rest) := read_u n r'' in
                      out ← unescape fuel rest; Some (ch :: out)
                  | _ => None
                  end
                else
                  match find (λ p, p.2 =? ord e)%N ((47, 47)%N :: short_escapes) with
                  | Some p => out ← unescape fuel r'; Some (uni p.1 :: out)
                  | None => None
                  end
            end
          else if (ord c <? 32)%N then None
          else out ← unescape fuel r; Some (c :: out)
      end
  end.

Definition read_string (inner : text) : option text := unescape (S (length inner)) inner.

(** ** A string reads back *)

Lemma ord_uni n : scalar n = true → ord (uni n) = n.
Proof. intros Hn. unfold uni. by destruct (decide (scalar n = true)). Qed.

Lemma hex_digit_hex n : (n < 16)%N → hex_digit (hex n) = Some n.
Proof.
  intros Hn. unfold hex_digit, hex. rewrite ord_uni.
  - destruct (N.ltb_spec n 10).
    + rewrite (proj2 (N.leb_le _ _)), (proj2 (N.leb_le _ _)) by lia. simpl. f_equal. lia.
    + rewrite (proj2 (N.leb_gt (87 + n) 57)) by lia. rewrite andb_false_r.
      rewrite (proj2 (N.leb_le 97 _)), (proj2 (N.leb_le _ 102)) by lia. simpl. f_equal. lia.
  - unfold scalar. apply orb_true_iff. left. apply N.ltb_lt. destruct (n <? 10)%N; lia.
Qed.

Lemma hex4_u4 n : (n < 65536)%N →
  hex4 (hex (n / 4096)) (hex (n / 256 mod 16)) (hex (n / 16 mod 16)) (hex (n mod 16)) = Some n.
Proof.
  intros Hn. unfold hex4. rewrite !hex_digit_hex by (try (apply N.mod_lt; lia); apply N.Div0.div_lt_upper_bound; lia).
  cbn [mbind option_bind]. f_equal. rewrite !(N.mul_comm _ 16).
  assert (n / 256 = 16 * (n / 4096) + n / 256 mod 16)%N as H1.
  { rewrite (N.div_mod (n / 256) 16) at 1 by lia. do 2 f_equal. rewrite N.Div0.div_div. done. }
  assert (n / 16 = 16 * (n / 256) + n / 16 mod 16)%N as H2.
  { rewrite (N.div_mod (n / 16) 16) at 1 by lia. do 2 f_equal. rewrite N.Div0.div_div. done. }
  rewrite (N.div_mod n 16) at 5 by lia. lia.
Qed.

Lemma unescape_short fuel p rest : p ∈ short_escapes →
  unescape (S fuel) (backslash :: uni p.2 :: rest) = (λ out, uni p.1 :: out) <$> unescape fuel rest.
Proof.
  intros Hp. cbn [unescape]. rewrite bool_decide_eq_true_2 by done.
  repeat (apply elem_of_cons in Hp as [->|Hp]; [|]); try by apply elem_of_nil in Hp.
  all: cbn; by destruct (unescape fuel rest).
Qed.

Lemma unescape_u fuel n rest : (n < 65536)%N →
  unescape (S fuel) (u4 n ++ rest) = let '(ch, rest') := read_u n rest in (λ out, ch :: out) <$> unescape fuel rest'.
Proof.
  intros Hn. unfold u4. cbn [app unescape]. rewrite !bool_decide_eq_true_2 by done. rewrite hex4_u4 by done. cbn [mbind option_bind].
  destruct (read_u n rest) as [ch rest']. by destruct (unescape fuel rest').
Qed.

Lemma unescape_pair fuel c rest : (65536 ≤ ord c)%N →
  let v := (ord c - 65536)%N in
  unescape (S fuel) (u4 (55296 + v / 1024)%N ++ u4 (56320 + v mod 1024)%N ++ rest) = (λ out, c :: out) <$> unescape fuel rest.
Proof.
  intros Hc v. pose proof (ord_bound c) as Hc'.
  assert (v / 1024 < 1024)%N as Hhi by (apply N.Div0.div_lt_upper_bound; unfold v; lia).
  assert (v mod 1024 < 1024)%N as Hlo by (apply N.mod_lt; lia).
  assert (ord c = 65536 + (1024 * (v / 1024) + v mod 1024))%N as Hv by (rewrite <- N.div_mod by done; unfold v; lia).
  revert Hv Hhi Hlo. generalize (v / 1024)%N (v mod 1024)%N. clear v. intros a b Hv Ha Hb.
  rewrite unescape_u by lia.
  assert (read_u (55296 + a) (u4 (56320 + b) ++ rest) = (c, rest)) as ->; [|done].
  unfold read_u, u4. cbn [app]. unfold high. rewrite (proj2 (N.leb_le 55296 _)), (proj2 (N.leb_le _ 56319)) by lia.
  rewrite !bool_decide_eq_true_2 by done. cbn [andb]. rewrite hex4_u4 by lia.
  unfold low. rewrite (proj2 (N.leb_le 56320 _)), (proj2 (N.leb_le _ 57343)) by lia. cbn [andb]. f_equal.
  transitivity (uni (ord c)); [unfold joined; f_equal; lia|apply uni_ord].
Qed.

Lemma escape_cases c :
  (∃ p, p ∈ short_escapes ∧ c = uni p.1 ∧ escape_ascii c = [backslash; uni p.2]) ∨
  (c ≠ quote ∧ c ≠ backslash ∧ (32 ≤ ord c ≤ 126)%N ∧ escape_ascii c = [c]) ∨
  (ord c < 65536)%N ∧ escape_ascii c = u4 (ord c) ∨
  (65536 ≤ ord c)%N ∧ escape_ascii c = u4 (55296 + (ord c - 65536) / 1024)%N ++ u4 (56320 + (ord c - 65536) mod 1024)%N.
Proof.
  unfold escape_ascii. destruct (find _ _) as [p|] eqn:Hp.
  - left. exists p. apply find_some in Hp as [Hin%list_elem_of_In Heq%N.eqb_eq]. split; [done|]. split; [|done]. by rewrite Heq, uni_ord.
  - right. destruct (_ && _) eqn:Hr.
    + left. apply andb_true_iff in Hr as [H1%N.leb_le H2%N.leb_le].
      split_and!; [..|done]; [intros ->|intros ->|lia|lia]; vm_compute in Hp; done.
    + right. destruct (N.ltb_spec (ord c) 65536); [by left|by right].
Qed.

(** Reading what was escaped: one step of fuel for each character. *)
Lemma unescape_escaped t : ∀ fuel, (length t < fuel)%nat → unescape fuel (t ≫= escape_ascii) = Some t.
Proof.
  induction t as [|c t IH]; intros fuel Hf; (destruct fuel as [|fuel]; [simpl in Hf; lia|]); [done|].
  specialize (IH fuel ltac:(simpl in Hf; lia)). rewrite bind_cons.
  destruct (escape_cases c) as [(p & Hp & -> & ->)|[(Hq & Hb & Hc & ->)|[[Hc ->]|[Hc ->]]]].
  - cbn [app]. rewrite unescape_short by done. by rewrite IH.
  - cbn [app unescape]. rewrite bool_decide_eq_false_2 by done. rewrite (proj2 (N.ltb_ge _ _)) by lia. by rewrite IH.
  - rewrite unescape_u by done. assert (read_u (ord c) (t ≫= escape_ascii) = (c, t ≫= escape_ascii)) as ->; [|by rewrite IH].
    unfold read_u. assert (high (ord c) = false) as ->.
    { unfold high. apply andb_false_iff. destruct (ord_cases c); [left|right]; apply N.leb_gt; lia. }
    simpl. rewrite uni_ord. by repeat case_match.
  - rewrite <- app_assoc. rewrite unescape_pair by done. by rewrite IH.
Qed.

Lemma escape_length t : (length t ≤ length (t ≫= escape_ascii))%nat.
Proof.
  induction t as [|c t IH]; [done|]. rewrite bind_cons, length_app. simpl.
  destruct (escape_cases c) as [(p & _ & _ & ->)|[(_ & _ & _ & ->)|[[_ ->]|[_ ->]]]]; rewrite ?length_app; simpl; lia.
Qed.

Lemma read_string_escaped t : read_string (t ≫= escape_ascii) = Some t.
Proof. apply unescape_escaped. pose proof (escape_length t). lia. Qed.

(** Characters the literal's end is found past. *)
Lemma string_end_plain l rest : Forall (λ c, c ≠ quote ∧ c ≠ backslash) l →
  string_end (l ++ rest) = '(inner, r) ← string_end rest; Some (l ++ inner, r).
Proof.
  induction 1 as [|c l [Hq Hb] _ IH]; [cbn [app]; by destruct (string_end rest) as [[? ?]|]|].
  cbn [app string_end]. rewrite !bool_decide_eq_false_2 by done. rewrite IH. by destruct (string_end rest) as [[? ?]|].
Qed.

Lemma hex_plain n : (n < 16)%N → hex n ≠ quote ∧ hex n ≠ backslash.
Proof.
  intros Hn. pose proof (hex_digit_hex n Hn) as Hh. split; intros H; rewrite H in Hh; vm_compute in Hh; discriminate.
Qed.

Lemma string_end_backslash d r : d ≠ newline →
  string_end (backslash :: d :: r) = '(inner, rest) ← string_end r; Some (backslash :: d :: inner, rest).
Proof.
  intros Hd. cbn [string_end]. rewrite (bool_decide_eq_false_2 (backslash = quote)) by (by vm_compute).
  by rewrite bool_decide_eq_true_2, bool_decide_eq_false_2.
Qed.

Lemma string_end_u4 n rest : (n < 65536)%N →
  string_end (u4 n ++ rest) = '(inner, r) ← string_end rest; Some (u4 n ++ inner, r).
Proof.
  intros Hn. unfold u4. cbn [app]. rewrite string_end_backslash by (by vm_compute).
  pose proof (string_end_plain [hex (n / 4096); hex (n / 256 mod 16); hex (n / 16 mod 16); hex (n mod 16)]%N rest) as Hp.
  cbn [app] in Hp. rewrite Hp.
  - by destruct (string_end rest) as [[? ?]|].
  - repeat constructor; apply hex_plain; (try (apply N.mod_lt; lia)); apply N.Div0.div_lt_upper_bound; lia.
Qed.

Lemma string_end_escape c rest :
  string_end (escape_ascii c ++ rest) = '(inner, r) ← string_end rest; Some (escape_ascii c ++ inner, r).
Proof.
  destruct (escape_cases c) as [(p & Hp & _ & ->)|[(Hq & Hb & _ & ->)|[[Hc ->]|[Hc ->]]]].
  - cbn [app]. apply string_end_backslash.
    repeat (apply elem_of_cons in Hp as [->|Hp]; [by vm_compute|]). by apply elem_of_nil in Hp.
  - apply (string_end_plain [c]). by repeat constructor.
  - by apply string_end_u4.
  - set (v := (ord c - 65536)%N). pose proof (ord_bound c) as Hc'.
    assert (v / 1024 < 1024)%N by (apply N.Div0.div_lt_upper_bound; unfold v; lia). assert (v mod 1024 < 1024)%N by (apply N.mod_lt; lia).
    rewrite <- !app_assoc, string_end_u4 by lia. rewrite string_end_u4 by lia.
    destruct (string_end rest) as [[? ?]|]; [|done]. cbn [mbind option_bind]. by rewrite <- app_assoc.
Qed.

(** The literal of a text is found whole, whatever follows. *)
Lemma string_end_quoted t rest : string_end ((t ≫= escape_ascii) ++ quote :: rest) = Some (t ≫= escape_ascii, rest).
Proof.
  induction t as [|c t IH]; [done|]. rewrite bind_cons, <- app_assoc, string_end_escape, IH. done.
Qed.

Lemma string_end_spec t : ∀ inner rest, string_end t = Some (inner, rest) →
  (length rest < length t)%nat ∧ ∀ s, string_end (t ++ s) = Some (inner, rest ++ s).
Proof.
  induction t as [t IH] using (induction_ltof1 _ length). unfold ltof in IH. destruct t as [|c t]; [done|]. intros inner rest.
  cbn [string_end app length]. destruct (bool_decide (c = quote)); [intros [= <- <-]; split; [lia|done]|].
  destruct (bool_decide (c = backslash)).
  - destruct t as [|d t]; [done|]. cbn [app length]. destruct (bool_decide (d = newline)); [done|].
    destruct (string_end t) as [[i r]|] eqn:E; [|done]. simpl. intros [= <- <-].
    destruct (IH t ltac:(simpl; lia) i r E) as [Hl Hs]. split; [lia|]. intros s. by rewrite Hs.
  - destruct (string_end t) as [[i r]|] eqn:E; [|done]. simpl. intros [= <- <-].
    destruct (IH t ltac:(simpl; lia) i r E) as [Hl Hs]. split; [lia|]. intros s. by rewrite Hs.
Qed.
