(* ===== verification/Documents.v ===== *)
(** * Documents: the nodes of a parsed document and its chunks (domain/documents.py)

    Fields that hold text are texts by character ([Text]); identifiers and
    metadata keys are strings as everywhere else. *)
From stdpp Require Import base list strings.
From Stdlib Require Import ZArith String.
From S2P Require Import Prelude Json Text.
#[local] Open Scope Z_scope.

(** [domain.enums.Representation]. *)
Inductive Representation : Set :=
| RAW_FILE | DOCUMENT | DOCUMENT_VERSION | SECTION | SUBSECTION | PARAGRAPH | TABLE | CODE_BLOCK | CHUNK | SUMMARY
| ENTITY | RELATION | EMBEDDING | MESSAGE | MEMORY.

#[export] Instance Representation_eq_dec : EqDecision Representation.
Proof. solve_decision. Defined.

Record DocumentNode : Type := {
  node_id : string;
  n_document_id : string;
  n_document_version_id : string;
  n_tenant_id : string;
  representation : Representation;
  parent_id : option string;
  n_ordinal : Z;
  depth : Z;
  n_title : option text;
  section_path : text;
  page_start : option Z;
  page_end : option Z;
  n_text : text;
  n_text_hash : string;
  token_estimate : Z;
  n_entities : list text;
  n_system_metadata : list (string * json);
}.

(** [chunk_id], [indexed_at], [index_fingerprint] and [lang] are set by their
    defaults and by the indexer. *)
Record Chunk : Type := {
  c_node_id : string;
  c_document_id : string;
  c_document_version_id : string;
  c_tenant_id : string;
  c_ordinal : Z;
  c_text : text;
  c_text_hash : string;
  contextual_text : text;
  c_page : option Z;
  c_section_path : text;
  c_token_estimate : Z;
  c_entities : list text;
}.

(** The representations that only hold others: the document and its sections. *)
Definition is_section (r : Representation) : bool :=
  bool_decide (r = DOCUMENT ∨ r = SECTION ∨ r = SUBSECTION).
