(* ===== verification/Hierarchy.v ===== *)
(** * Document hierarchy (modules/ingestion/hierarchy.py)

    [build_hierarchy]: a flat list of blocks becomes a tree of nodes, in reading
    order. The state is what the function's locals hold: the nodes, the stack of
    open sections (its top first here), the next ordinal under each node and the
    pages each node's descendants span. [new_id] numbers the ids the nodes get. *)
From stdpp Require Import base gmap list strings.
From Stdlib Require Import ZArith Lia Ascii String.
From S2P Require Import Prelude Json Text Documents.
#[local] Open Scope Z_scope.

Inductive BlockKind : Set := heading | paragraph | table | code | list_ | footnote | caption.

#[export] Instance BlockKind_eq_dec : EqDecision BlockKind.
Proof. solve_decision. Defined.

Definition block_kind_value (k : BlockKind) : string :=
  match k with
  | heading => "heading" | paragraph => "paragraph" | table => "table" | code => "code" | list_ => "list"
  | footnote => "footnote" | caption => "caption"
  end.

Record Block : Type := {
  b_kind : BlockKind;
  b_text : text;
  b_level : Z;
  b_page : option Z;
  b_label : option text;
  b_metadata : list (string * json);
}.

(** The representation of a block that is no heading. *)
Definition block_representation (k : BlockKind) : Representation :=
  match k with
  | table => TABLE
  | code => CODE_BLOCK
  | _ => PARAGRAPH
  end.

Definition digits : regex := Plus isdecimal.
Definition dot (c : char) : bool := bool_decide (c = chr ".").

(** [_HEADING_NUMBER], its group (digits, then dots and digits) and what follows
    it (a dot or none, then spaces). *)
Definition heading_group : regex := Then digits (Repeat (Then (One dot) digits)).
Definition heading_tail : regex := Then (Opt (One dot)) (Plus isspace).

(** [number.group(1)]: the first group the matcher tries that the rest follows. *)
Definition heading_number (t : text) : option text :=
  slice t 0 <$> head (filter (λ e, ends t (length t) heading_tail e ≠ []) (ends t (length t) heading_group 0)).

Section build.
Context (sha256 : string → string) (new_id : nat → string).
Context (document_id document_version_id tenant_id : string) (title : text).

(** [content_hash(text)]. *)
Definition text_hash (t : text) : string := sha256 (encode t).

Definition root : DocumentNode :=
  {| node_id := new_id 0; n_document_id := document_id; n_document_version_id := document_version_id; n_tenant_id := tenant_id;
     representation := DOCUMENT; parent_id := None; n_ordinal := 0; depth := 0; n_title := Some title; section_path := title;
     page_start := None; page_end := None; n_text := []; n_text_hash := text_hash []; token_estimate := 0; n_entities := [];
     n_system_metadata := [] |}.

Record building := {
  nodes : list DocumentNode;
  stack : list (Z * DocumentNode);
  ordinals : gmap string Z;
  page_span : gmap string (Z * Z);
}.

Definition initial : building := {| nodes := [root]; stack := [(0, root)]; ordinals := {[new_id 0 := 0]}; page_span := ∅ |}.

(** [f"{path} > {title}" if path else title]. *)
Definition under (path heading_title : text) : text :=
  match path with [] => heading_title | _ => path ++ lit " > " ++ heading_title end.

(** [span[0], span[1] = min(span[0], page), max(span[1], page)], set by default. *)
Definition widen (page : Z) (spans : gmap string (Z * Z)) (ancestor : DocumentNode) : gmap string (Z * Z) :=
  let '(lo, hi) := default (page, page) (spans !! node_id ancestor) in
  <[node_id ancestor := (Z.min lo page, Z.max hi page)]> spans.

Definition _child (st : building) (parent : DocumentNode) (rep : Representation) (t : text) (title_ : option text)
    (page : option Z) (meta : list (string * json)) : DocumentNode * building :=
  let ordinal := default 0 (ordinals st !! node_id parent) in
  let path := if bool_decide (representation parent = DOCUMENT) then title else section_path parent in
  let path :=
    match title_ with
    | Some (c :: r) => if bool_decide (rep = SECTION ∨ rep = SUBSECTION) then under path (c :: r) else path
    | _ => path
    end in
  let id := new_id (length (nodes st)) in
  let node :=
    {| node_id := id; n_document_id := document_id; n_document_version_id := document_version_id; n_tenant_id := tenant_id;
       representation := rep; parent_id := Some (node_id parent); n_ordinal := ordinal; depth := depth parent + 1;
       n_title := title_; section_path := path; page_start := page; page_end := page; n_text := t; n_text_hash := text_hash t;
       token_estimate := match t with [] => 0 | _ => estimate_tokens t end; n_entities := []; n_system_metadata := meta |} in
  (node,
   {| nodes := nodes st ++ [node]; stack := stack st;
      ordinals := <[id := 0]> (<[node_id parent := ordinal + 1]> (ordinals st));
      page_span := match page with
                   | Some p => foldl (widen p) (page_span st) (reverse (stack st)).*2
                   | None => page_span st
                   end |}).

(** [while len(stack) > 1 and stack[-1][0] >= level: stack.pop()]. *)
Fixpoint pop_to (level : Z) (s : list (Z * DocumentNode)) : list (Z * DocumentNode) :=
  match s with
  | (l, n) :: ((_ :: _) as rest) => if level <=? l then pop_to level rest else s
  | _ => s
  end.

(** [stack[-1][1]]: the stack always holds the root. *)
Definition top (s : list (Z * DocumentNode)) : DocumentNode :=
  match s with (_, n) :: _ => n | [] => root end.

Definition add_heading (st : building) (block : Block) : building :=
  let level := Z.max 1 (Z.min (b_level block) 6) in
  let heading_text := strip (b_text block) in
  if (level =? 1) && (length (nodes st) =? 1)%nat && bool_decide (heading_text = title) then
    {| nodes := nodes st; stack := [(1, root)]; ordinals := ordinals st; page_span := page_span st |}
  else
    let s := pop_to level (stack st) in
    let parent := top s in
    let rep := if bool_decide (representation parent = DOCUMENT) then SECTION else SUBSECTION in
    let meta :=
      ("heading_level"%string, JNum level) ::
      match heading_number heading_text with Some n => [("section_number"%string, JStr (encode n))] | None => [] end in
    let r :=
      _child {| nodes := nodes st; stack := s; ordinals := ordinals st; page_span := page_span st |}
        parent rep [] (Some heading_text) (b_page block) meta in
    {| nodes := nodes (snd r); stack := (level, fst r) :: stack (snd r); ordinals := ordinals (snd r);
       page_span := page_span (snd r) |}.

(** [{"block_kind": kind, **metadata}] and the label. *)
Definition block_meta (block : Block) : list (string * json) :=
  ("block_kind"%string, JStr (block_kind_value (b_kind block))) :: b_metadata block ++
  match b_label block with Some (c :: r) => [("label"%string, JStr (encode (c :: r)))] | _ => [] end.

Definition add_content (st : building) (block : Block) : building :=
  let t := strip (b_text block) in
  match t with
  | [] => st
  | _ =>
      snd (_child st (top (stack st)) (block_representation (b_kind block)) t
             (if bool_decide (b_kind block = table) then b_label block else None) (b_page block) (block_meta block))
  end.

Definition add_block (st : building) (block : Block) : building :=
  if bool_decide (b_kind block = heading) then add_heading st block else add_content st block.

(** [node.model_copy(update={"page_start": span[0], "page_end": span[1]})]. *)
Definition with_pages (node : DocumentNode) (lo hi : Z) : DocumentNode :=
  {| node_id := node_id node; n_document_id := n_document_id node; n_document_version_id := n_document_version_id node;
     n_tenant_id := n_tenant_id node; representation := representation node; parent_id := parent_id node;
     n_ordinal := n_ordinal node; depth := depth node; n_title := n_title node; section_path := section_path node;
     page_start := Some lo; page_end := Some hi; n_text := n_text node; n_text_hash := n_text_hash node;
     token_estimate := token_estimate node; n_entities := n_entities node; n_system_metadata := n_system_metadata node |}.

Definition apply_span (spans : gmap string (Z * Z)) (node : DocumentNode) : DocumentNode :=
  match spans !! node_id node with
  | Some (lo, hi) => if is_section (representation node) then with_pages node lo hi else node
  | None => node
  end.

Definition build_hierarchy (blocks : list Block) : list DocumentNode :=
  let st := foldl add_block initial blocks in apply_span (page_span st) <$> nodes st.
End build.

(** ** The tree being built *)

Definition children (ns : list DocumentNode) (id : string) : list DocumentNode := filter (λ n, parent_id n = Some id) ns.

(** The heading level a section records. *)
Definition heading_level (n : DocumentNode) : option Z :=
  match n_system_metadata n with
  | (k, JNum l) :: _ => if bool_decide (k = "heading_level"%string) then Some l else None
  | _ => None
  end.

(** [n] lies under [p]: its parent, one level up; under the document when [n] is a
    section, and under a section of a smaller level when it is a subsection. *)
Record lies_under (p n : DocumentNode) : Prop := {
  under_parent : parent_id n = Some (node_id p);
  under_section : is_section (representation p) = true;
  under_depth : depth n = depth p + 1;
  under_kind : is_section (representation n) = true → (representation n = SECTION ↔ representation p = DOCUMENT);
  under_level : representation n = SUBSECTION → ∃ l m, heading_level p = Some l ∧ heading_level n = Some m ∧ l < m;
}.

Section tree.
Context (sha256 : string → string) (new_id : nat → string) `{!Inj (=) (=) new_id}.
Context (document_id document_version_id tenant_id : string) (title : text).

Abbreviation root_ := (root sha256 new_id document_id document_version_id tenant_id title).
Abbreviation child := (_child sha256 new_id document_id document_version_id tenant_id title).
Abbreviation step := (add_block sha256 new_id document_id document_version_id tenant_id title).
Abbreviation top_ := (top sha256 new_id document_id document_version_id tenant_id title).
Abbreviation pop := (pop_to).

(** The stack, top first: sections each under the next, their levels falling to
    the root at the bottom. *)
Inductive sections : list (Z * DocumentNode) → Prop :=
| sections_root l : sections [(l, root_)]
| sections_push l n l' p s :
    sections ((l', p) :: s) → lies_under p n → is_section (representation n) = true → heading_level n = Some l →
    (representation p ≠ DOCUMENT → l' < l) → representation n ≠ DOCUMENT →
    sections ((l, n) :: (l', p) :: s).

Lemma sections_pop level s : sections s → sections (pop level s) ∧ pop level s ⊆ s.
Proof.
  induction 1 as [l|l n l' p s Hs [IH Hsub]]; [by split; [constructor|]|]. cbn [pop_to] in *.
  destruct (level <=? l); [|by split; [econstructor|]]. split; [done|]. set_solver.
Qed.

(** What the top is after the pops: the root, or a section of a smaller level. *)
Lemma sections_pop_top level s :
  sections s → ∃ l n rest, pop level s = (l, n) :: rest ∧ (n = root_ ∨ (representation n ≠ DOCUMENT ∧ l < level ∧ heading_level n = Some l)).
Proof.
  induction 1 as [l|l n l' p s Hs IH]; cbn [pop_to]; [by eauto 6|].
  destruct (level <=? l) eqn:Hl; [done|]. apply Z.leb_gt in Hl. eauto 8.
Qed.

Record tree (st : building) : Prop := {
  tree_root : nodes st !! 0%nat = Some root_;
  tree_ids : ∀ k n, nodes st !! k = Some n → node_id n = new_id k;
  tree_under : ∀ k n, nodes st !! S k = Some n → ∃ j p, (j ≤ k)%nat ∧ nodes st !! j = Some p ∧ lies_under p n;
  tree_next : ∀ n, n ∈ nodes st → ordinals st !! node_id n = Some (Z.of_nat (length (children (nodes st) (node_id n))));
  tree_ordinals : ∀ n, n ∈ nodes st →
    n_ordinal <$> children (nodes st) (node_id n) = Z.of_nat <$> seq 0 (length (children (nodes st) (node_id n)));
  tree_stack : sections (stack st);
  tree_open : ∀ e, e ∈ stack st → e.2 ∈ nodes st;
}.

Lemma tree_initial : tree (initial sha256 new_id document_id document_version_id tenant_id title).
Proof.
  split; cbn [nodes stack ordinals initial].
  - done.
  - by intros [|k] n [= <-].
  - done.
  - intros n ->%list_elem_of_singleton. unfold children. rewrite filter_cons_False by done. by apply lookup_singleton_Some.
  - intros n ->%list_elem_of_singleton. unfold children. by rewrite filter_cons_False by done.
  - constructor.
  - intros e ->%list_elem_of_singleton. by left.
Qed.

Lemma tree_id_inj st n n' : tree st → n ∈ nodes st → n' ∈ nodes st → node_id n = node_id n' → n = n'.
Proof.
  intros Ht [k Hk]%list_elem_of_lookup [k' Hk']%list_elem_of_lookup. rewrite (tree_ids _ Ht _ _ Hk), (tree_ids _ Ht _ _ Hk').
  intros ?%(inj new_id). by simplify_eq.
Qed.

Lemma children_snoc ns n id : children (ns ++ [n]) id = children ns id ++ (if decide (parent_id n = Some id) then [n] else []).
Proof. unfold children. rewrite filter_app. by case_decide as H; [rewrite filter_cons_True|rewrite filter_cons_False]. Qed.

(** No node is under an id not given out yet. *)
Lemma children_new st : tree st → children (nodes st) (new_id (length (nodes st))) = [].
Proof.
  intros Ht. apply elem_of_nil_inv. intros n. unfold children. intros [Hp [[|k] Hk]%list_elem_of_lookup]%list_elem_of_filter.
  - rewrite (tree_root _ Ht) in Hk. by simplify_eq.
  - destruct (tree_under _ Ht _ _ Hk) as (j & p & Hj & Hp' & Hu). rewrite (under_parent _ _ Hu) in Hp. simplify_eq.
    rewrite (tree_ids _ Ht _ _ Hp') in Hp. apply (inj new_id) in Hp. apply lookup_lt_Some in Hp'. lia.
Qed.

Lemma length_children_seq ns id o :
  (o <$> children ns id) = Z.of_nat <$> seq 0 (length (children ns id)) →
  ∀ n, o n = Z.of_nat (length (children ns id)) →
  (o <$> children ns id ++ [n]) = Z.of_nat <$> seq 0 (length (children ns id ++ [n])).
Proof. intros H n Hn. rewrite fmap_app, H, length_app, seq_app, fmap_app. simpl. by rewrite Hn. Qed.

(** A child is added under a node of the tree. *)
Lemma child_tree st parent rep t ti page meta :
  tree st → parent ∈ nodes st →
  let r := child st parent rep t ti page meta in
  lies_under parent (fst r) → tree (snd r).
Proof.
  intros Ht Hp r Hu. set (node := fst r) in *.
  assert (node_id node = new_id (length (nodes st))) as Hid by done.
  assert (nodes (snd r) = nodes st ++ [node]) as Hns by done.
  assert (stack (snd r) = stack st) as Hst by done.
  assert (n_ordinal node = Z.of_nat (length (children (nodes st) (node_id parent)))) as Hord.
  { unfold node, r. simpl. by rewrite (tree_next _ Ht _ Hp). }
  assert (ordinals (snd r) = <[node_id node := 0]> (<[node_id parent := n_ordinal node + 1]> (ordinals st))) as Hos by done.
  assert (parent_id node = Some (node_id parent)) as Hpar by apply Hu.
  assert (children (nodes st) (node_id node) = []) as Hnew by (rewrite Hid; by apply children_new).
  assert (∀ n, n ∈ nodes st → node_id n ≠ node_id node) as Hfresh.
  { intros n [k Hk]%list_elem_of_lookup He. rewrite (tree_ids _ Ht _ _ Hk), Hid in He. apply (inj new_id) in He.
    apply lookup_lt_Some in Hk. lia. }
  set (st1 := snd r) in *. clearbody st1 node. clear r.
  split; rewrite ?Hns, ?Hst, ?Hos.
  - apply lookup_app_l_Some, Ht.
  - intros k n [Hk|[Hk Hn]]%lookup_app_Some; [by apply Ht|]. apply list_lookup_singleton_Some in Hn as [Hz <-].
    rewrite Hid. f_equal. lia.
  - intros k n [Hk|[Hk Hn]]%lookup_app_Some.
    + destruct (tree_under _ Ht _ _ Hk) as (j & p & ? & Hj & ?). exists j, p. split_and!; [done| |done]. by apply lookup_app_l_Some.
    + apply list_lookup_singleton_Some in Hn as [Hz <-]. apply list_elem_of_lookup in Hp as [j Hj]. exists j, parent.
      split_and!; [|by apply lookup_app_l_Some|done]. apply lookup_lt_Some in Hj. lia.
  - intros n [Hn|Hn]%elem_of_app.
    + rewrite lookup_insert_ne by (symmetry; by apply Hfresh). rewrite children_snoc, Hpar. case_decide as Hc.
      * injection Hc as Hc. rewrite <- Hc, lookup_insert_eq, Hord, length_app. f_equal. simpl. lia.
      * rewrite lookup_insert_ne by congruence. rewrite app_nil_r. by apply Ht.
    + apply list_elem_of_singleton in Hn as ->. rewrite lookup_insert_eq, children_snoc, Hnew, Hpar.
      rewrite decide_False; [done|]. intros [=Hc]. by apply (Hfresh parent).
  - intros n [Hn|Hn]%elem_of_app.
    + rewrite children_snoc, Hpar. case_decide as Hc; [|rewrite app_nil_r; by apply Ht].
      injection Hc as Hc. rewrite <- Hc in *. apply length_children_seq; [|done]. by apply Ht.
    + apply list_elem_of_singleton in Hn as ->. rewrite children_snoc, Hnew, Hpar.
      rewrite decide_False; [done|]. intros [=Hc]. by apply (Hfresh parent).
  - apply Ht.
  - intros e He. apply elem_of_app. left. by apply Ht.
Qed.

Lemma sections_top s : sections s → ∃ l rest, s = (l, top_ s) :: rest ∧ is_section (representation (top_ s)) = true.
Proof. destruct 1; simpl; eauto 6. Qed.

Lemma tree_restack st s : tree st → sections s → (∀ e, e ∈ s → e.2 ∈ nodes st) →
  tree {| nodes := nodes st; stack := s; ordinals := ordinals st; page_span := page_span st |}.
Proof. intros [] ? ?. by split. Qed.

(** The node a heading adds lies under the section on top after the pops. *)
Lemma heading_under st s level ht page meta :
  sections s → (∃ n rest, s = n :: rest ∧ (n.2 = root_ ∨ (representation n.2 ≠ DOCUMENT ∧ n.1 < level ∧ heading_level n.2 = Some n.1))) →
  let parent := top_ s in
  let rep := if bool_decide (representation parent = DOCUMENT) then SECTION else SUBSECTION in
  lies_under parent (fst (child st parent rep [] (Some ht) page (("heading_level"%string, JNum level) :: meta))).
Proof.
  intros Hs ([l n] & rest & -> & Hn) parent rep. simpl in *. unfold parent, rep. simpl.
  destruct (sections_top _ Hs) as (? & ? & _ & Hsec). simpl in Hsec.
  split; cbn [_child fst parent_id depth representation]; try done.
  - intros _. by case_bool_decide.
  - case_bool_decide as Hd; [done|]. intros _. destruct Hn as [->|(_ & Hl & He)]; [done|]. exists l, level. by split_and!.
Qed.

(** A node added and opened. *)
Lemma open_child_tree st level l n rest rep ht page meta :
  tree st → stack st = (l, n) :: rest → (n = root_ ∨ (representation n ≠ DOCUMENT ∧ l < level ∧ heading_level n = Some l)) →
  rep = (if bool_decide (representation n = DOCUMENT) then SECTION else SUBSECTION) →
  let r := child st n rep [] (Some ht) page (("heading_level"%string, JNum level) :: meta) in
  tree {| nodes := nodes (snd r); stack := (level, fst r) :: stack (snd r); ordinals := ordinals (snd r); page_span := page_span (snd r) |}.
Proof.
  intros Ht Hst Hn -> r. pose proof (tree_stack _ Ht) as Hs. rewrite Hst in Hs.
  assert (n ∈ nodes st) as Hin by (apply (tree_open _ Ht (l, n)); rewrite Hst; by left).
  assert (lies_under n (fst r)) as Hu.
  { apply (heading_under st ((l, n) :: rest) level ht page meta Hs). by eexists _, _. }
  pose proof (child_tree st n _ [] (Some ht) page _ Ht Hin Hu) as Hc. fold r in Hc.
  apply tree_restack; [done| |].
  - change (stack (snd r)) with (stack st). rewrite Hst. constructor; try done.
    + unfold r. simpl. by case_bool_decide.
    + intros Hd. by destruct Hn as [->|(_ & ? & _)].
    + unfold r. simpl. by case_bool_decide.
  - intros e [->|He]%elem_of_cons; [|by apply (tree_open _ Hc)]. unfold r. simpl. apply elem_of_app. right. by left.
Qed.

Lemma add_heading_tree st b : tree st → tree (add_heading sha256 new_id document_id document_version_id tenant_id title st b).
Proof.
  intros Ht. unfold add_heading. set (level := Z.max 1 _). set (ht := strip _). destruct (_ && _).
  { apply tree_restack; [done|constructor|]. intros e ->%list_elem_of_singleton. simpl.
    apply list_elem_of_lookup. exists 0%nat. apply Ht. }
  pose proof (tree_stack _ Ht) as Hs. destruct (sections_pop level _ Hs) as [Hs' Hsub].
  destruct (sections_pop_top level _ Hs) as (l & n & rest & Hpop & Hn). rewrite Hpop in *. cbn [top].
  assert (tree {| nodes := nodes st; stack := (l, n) :: rest; ordinals := ordinals st; page_span := page_span st |}) as Ht'.
  { apply tree_restack; try done. intros e He. by apply Ht, Hsub. }
  by apply (open_child_tree _ level l n rest _ ht (b_page b) _ Ht').
Qed.

Lemma add_content_tree st b :
  b_kind b ≠ heading → tree st → tree (add_content sha256 new_id document_id document_version_id tenant_id title st b).
Proof.
  intros Hb Ht. unfold add_content. destruct (strip (b_text b)) as [|c r] eqn:Htx; [done|].
  destruct (sections_top _ (tree_stack _ Ht)) as (l & rest & Heq & Hsec).
  apply child_tree; [done| |].
  - apply (tree_open _ Ht (l, _)). rewrite Heq at 2. by left.
  - split; cbn [_child fst parent_id depth representation]; try done; by destruct (b_kind b).
Qed.

Lemma build_tree blocks : tree (foldl step (initial sha256 new_id document_id document_version_id tenant_id title) blocks).
Proof.
  assert (∀ st, tree st → tree (foldl step st blocks)) as H; [|by apply H, tree_initial].
  induction blocks as [|b blocks IH]; intros st Ht; simpl; [done|]. apply IH. unfold add_block.
  case_bool_decide; [by apply add_heading_tree|by apply add_content_tree].
Qed.

(** ** Pages *)

(** A page range widened by a page. *)
Definition widened (page : Z) (o : option (Z * Z)) : Z * Z :=
  let '(lo, hi) := default (page, page) o in (Z.min lo page, Z.max hi page).

Lemma foldl_widen page ns m id :
  foldl (widen page) m ns !! id = if decide (id ∈ node_id <$> ns) then Some (widened page (m !! id)) else m !! id.
Proof.
  revert m. induction ns as [|n ns IH]; intros m; [done|]. simpl. rewrite IH. clear IH.
  assert (widen page m n = <[node_id n := widened page (m !! node_id n)]> m) as ->.
  { unfold widen, widened. by destruct (default _ _). }
  destruct (decide (id = node_id n)) as [->|Hne].
  - rewrite lookup_insert_eq, (decide_True (P := node_id n ∈ node_id n :: _)) by by left. case_decide; [|done].
    f_equal. unfold widened. destruct (m !! node_id n) as [[lo hi]|]; simpl; f_equal; lia.
  - rewrite lookup_insert_ne by done. case_decide as H1; case_decide as H2; try done; exfalso.
    + apply H2. by right.
    + apply elem_of_cons in H2 as [|]; [done|]. by apply H1.
Qed.

(** The range [o] holds the range [a..b]. *)
Definition holds_range (o : option (Z * Z)) (a b : Z) : Prop := ∃ lo hi, o = Some (lo, hi) ∧ lo ≤ a ∧ b ≤ hi.

Lemma holds_widened page o a b : holds_range o a b → holds_range (Some (widened page o)) a b.
Proof. intros (lo & hi & -> & ? & ?). exists (Z.min lo page), (Z.max hi page). split_and!; [done|lia|lia]. Qed.

Lemma widened_holds_page page o : holds_range (Some (widened page o)) page page.
Proof. unfold widened. destruct o as [[lo hi]|]; simpl; eexists _, _; (split; [done|lia]). Qed.

Lemma widened_mono page o o' :
  (∀ a b, o = Some (a, b) → holds_range o' a b) →
  ∀ a b, widened page o = (a, b) → holds_range (Some (widened page o')) a b.
Proof.
  intros H a b Hw. destruct o as [[x y]|]; unfold widened in Hw; simpl in Hw; simplify_eq.
  - destruct (H x y eq_refl) as (lo & hi & -> & ? & ?). eexists _, _. split; [done|]. lia.
  - rewrite Z.min_id, Z.max_id. apply widened_holds_page.
Qed.

Record paged (st : building) : Prop := {
  paged_one : ∀ n, n ∈ nodes st → page_end n = page_start n;
  paged_dom : ∀ id r, page_span st !! id = Some r → id ∈ node_id <$> nodes st;
  paged_child : ∀ p n, p ∈ nodes st → n ∈ nodes st → parent_id n = Some (node_id p) →
    (∀ a, page_start n = Some a → holds_range (page_span st !! node_id p) a a) ∧
    (∀ a b, page_span st !! node_id n = Some (a, b) → holds_range (page_span st !! node_id p) a b);
}.

(** Of an open section the parent is open too. *)
Lemma sections_closed s e id : sections s → e ∈ s → parent_id e.2 = Some id → id ∈ node_id <$> s.*2.
Proof.
  induction 1 as [l|l n l' p s Hs IH Hu]; intros He Hid.
  - apply list_elem_of_singleton in He as ->. done.
  - apply elem_of_cons in He as [->|He]; [|by right; apply IH]. simpl in Hid. rewrite (under_parent _ _ Hu) in Hid. simplify_eq.
    right. by left.
Qed.

Definition open_ids (st : building) : list string := node_id <$> (stack st).*2.

Lemma open_ids_inv st id : tree st → id ∈ open_ids st → ∃ e, e ∈ stack st ∧ id = node_id e.2 ∧ e.2 ∈ nodes st.
Proof. intros Ht (n & -> & (e & -> & He)%list_elem_of_fmap)%list_elem_of_fmap. exists e. split_and!; try done. by apply Ht. Qed.

(** The ranges after a child: those of the open sections take its page in. *)
Lemma child_spans st parent rep t ti page meta id :
  page_span (snd (child st parent rep t ti page meta)) !! id =
  match page with
  | Some pg => if decide (id ∈ open_ids st) then Some (widened pg (page_span st !! id)) else page_span st !! id
  | None => page_span st !! id
  end.
Proof.
  simpl. destruct page as [pg|]; [|done]. rewrite foldl_widen.
  assert (id ∈ node_id <$> (reverse (stack st)).*2 ↔ id ∈ open_ids st) as H.
  { unfold open_ids. by rewrite !fmap_reverse, elem_of_reverse. }
  case_decide; case_decide; tauto.
Qed.

Lemma new_id_fresh st n : tree st → n ∈ nodes st → node_id n ≠ new_id (length (nodes st)).
Proof.
  intros Ht [k Hk]%list_elem_of_lookup He. rewrite (tree_ids _ Ht _ _ Hk) in He. apply (inj new_id) in He.
  apply lookup_lt_Some in Hk. lia.
Qed.

(** Between nodes there before, ranges stay nested. *)
Lemma child_paged_old st parent rep t ti page meta p n :
  tree st → paged st → p ∈ nodes st → n ∈ nodes st → parent_id n = Some (node_id p) →
  let spans := page_span (snd (child st parent rep t ti page meta)) in
  (∀ a, page_start n = Some a → holds_range (spans !! node_id p) a a) ∧
  (∀ a b, spans !! node_id n = Some (a, b) → holds_range (spans !! node_id p) a b).
Proof.
  intros Ht Hp Hpn Hnn Hpid spans. destruct (paged_child _ Hp p n Hpn Hnn Hpid) as [H1 H2]. unfold spans. rewrite !child_spans.
  destruct page as [pg|]; [|done]. split.
  { intros a Ha. specialize (H1 a Ha). case_decide; [by apply holds_widened|done]. }
  intros a b. destruct (decide (node_id n ∈ open_ids st)) as [Hno|Hno].
  2: { intros Hs. specialize (H2 a b Hs). case_decide; [by apply holds_widened|done]. }
  destruct (open_ids_inv _ _ Ht Hno) as (e & He & Heid & Hen). apply (tree_id_inj _ _ _ Ht Hnn Hen) in Heid. subst n.
  rewrite decide_True by by eapply sections_closed; [apply Ht|..]. intros [= Hw]. by eapply widened_mono.
Qed.

(** The page of the new node is in its parent's range; it has no range itself. *)
Lemma child_paged_new st parent rep t ti page meta :
  tree st → paged st → node_id parent ∈ open_ids st →
  let spans := page_span (snd (child st parent rep t ti page meta)) in
  (∀ a, page = Some a → holds_range (spans !! node_id parent) a a) ∧ spans !! new_id (length (nodes st)) = None.
Proof.
  intros Ht Hp Hpar spans. unfold spans. split.
  - intros a ->. rewrite child_spans, decide_True by done. apply widened_holds_page.
  - assert (page_span st !! new_id (length (nodes st)) = None) as Hnone.
    { apply eq_None_not_Some. intros [r Hr]. apply (paged_dom _ Hp) in Hr as (m & Hm & Hin)%list_elem_of_fmap. by apply (new_id_fresh st m). }
    rewrite child_spans, Hnone. destruct page as [pg|]; [|done]. case_decide as Hd; [|done].
    destruct (open_ids_inv _ _ Ht Hd) as (e & _ & He & Hin). by destruct (new_id_fresh st e.2).
Qed.

Lemma child_paged st parent rep t ti page meta :
  tree st → paged st → node_id parent ∈ open_ids st → parent ∈ nodes st → paged (snd (child st parent rep t ti page meta)).
Proof.
  intros Ht Hp Hopen Hpar. set (node := fst (child st parent rep t ti page meta)).
  destruct (child_paged_new st parent rep t ti page meta Ht Hp Hopen) as [Hn1 Hn2].
  split; change (nodes (snd (child st parent rep t ti page meta))) with (nodes st ++ [node]).
  - intros n [Hn|Hn]%elem_of_app; [by apply Hp|]. by apply list_elem_of_singleton in Hn as ->.
  - intros id r. rewrite child_spans, fmap_app, elem_of_app. intros Hr. left. destruct page as [pg|]; [|by eapply Hp].
    case_decide as Hd; [|by eapply Hp]. destruct (open_ids_inv _ _ Ht Hd) as (e & _ & -> & ?). by apply list_elem_of_fmap_2.
  - intros p n [Hpn|Hpn]%elem_of_app [Hnn|Hnn]%elem_of_app Hpid; try apply list_elem_of_singleton in Hpn as ->;
      try apply list_elem_of_singleton in Hnn as ->.
    + by apply child_paged_old.
    + simpl in Hpid. injection Hpid as Hpid. rewrite <- Hpid. split; [exact Hn1|]. intros a b Hs.
      change (node_id node) with (new_id (length (nodes st))) in Hs. by rewrite Hn2 in Hs.
    + exfalso. assert (n ∈ children (nodes st) (new_id (length (nodes st)))) as Hc by (by apply list_elem_of_filter).
      rewrite children_new in Hc by done. by apply not_elem_of_nil in Hc.
    + exfalso. simpl in Hpid. injection Hpid as Hpid. by apply (new_id_fresh st parent).
Qed.

Lemma restack_paged st s : paged st → paged {| nodes := nodes st; stack := s; ordinals := ordinals st; page_span := page_span st |}.
Proof. by intros []. Qed.

Lemma add_block_paged st b : tree st → paged st → paged (step st b).
Proof.
  intros Ht Hp. pose proof (tree_stack _ Ht) as Hs. unfold add_block. case_bool_decide.
  - unfold add_heading. set (level := Z.max 1 _). set (ht := strip _). destruct (_ && _); [by apply restack_paged|].
    destruct (sections_pop level _ Hs) as [Hs' Hsub].
    assert (tree {| nodes := nodes st; stack := pop_to level (stack st); ordinals := ordinals st; page_span := page_span st |}) as Ht'.
    { apply tree_restack; try done. intros e He. by apply Ht, Hsub. }
    destruct (sections_top _ Hs') as (l & rest & Heq & _).
    apply restack_paged, child_paged; [done|by apply restack_paged| |].
    + unfold open_ids. simpl. rewrite Heq at 2. by left.
    + apply (tree_open _ Ht' (l, _)). simpl. rewrite Heq at 2. by left.
  - unfold add_content. destruct (strip (b_text b)) as [|c tx]; [done|]. destruct (sections_top _ Hs) as (l & rest & Heq & _).
    apply child_paged; [done|done| |].
    + unfold open_ids. rewrite Heq at 2. by left.
    + apply (tree_open _ Ht (l, _)). rewrite Heq at 2. by left.
Qed.

Lemma paged_initial : paged (initial sha256 new_id document_id document_version_id tenant_id title).
Proof.
  split; cbn [nodes page_span initial].
  - by intros n ->%list_elem_of_singleton.
  - by intros id r; rewrite lookup_empty.
  - intros p n _ ->%list_elem_of_singleton. done.
Qed.

Lemma build_paged blocks :
  let st := foldl step (initial sha256 new_id document_id document_version_id tenant_id title) blocks in tree st ∧ paged st.
Proof.
  assert (∀ st, tree st → paged st → tree (foldl step st blocks) ∧ paged (foldl step st blocks)) as H;
    [|apply H; [apply tree_initial|apply paged_initial]].
  induction blocks as [|b blocks IH]; intros st Ht Hp; simpl; [done|].
  apply IH; [|by apply add_block_paged]. unfold add_block. case_bool_decide; [by apply add_heading_tree|by apply add_content_tree].
Qed.

(** ** Order *)

(** What a node shows: a section its title, any other its text. *)
Definition entry (n : DocumentNode) : bool * text :=
  if is_section (representation n) then (true, default [] (n_title n)) else (false, n_text n).

(** What the blocks show, in order: each heading but the one that repeats the
    document's title before anything else, and each other block with text. *)
Fixpoint entries (started : bool) (blocks : list Block) : list (bool * text) :=
  match blocks with
  | [] => []
  | b :: bs =>
      let t := strip (b_text b) in
      if bool_decide (b_kind b = heading) then
        if negb started && (Z.max 1 (Z.min (b_level b) 6) =? 1) && bool_decide (t = title) then entries started bs
        else (true, t) :: entries true bs
      else match t with [] => entries started bs | _ => (false, t) :: entries true bs end
  end.

Lemma build_entries blocks st :
  nodes st ≠ [] →
  entry <$> nodes (foldl step st blocks) = (entry <$> nodes st) ++ entries (1 <? length (nodes st))%nat blocks.
Proof.
  revert st. induction blocks as [|b blocks IH]; intros st Hne; cbn [foldl entries]; [by rewrite app_nil_r|].
  assert (∀ st' x, nodes st' = nodes st ++ [x] → entry <$> nodes (foldl step st' blocks) = (entry <$> nodes st) ++ entry x :: entries true blocks) as Hsnoc.
  { intros st' x Hx. rewrite IH by (rewrite Hx; by destruct (nodes st)). rewrite Hx, fmap_app, length_app, <- app_assoc. simpl.
    by replace (1 <? length (nodes st) + 1)%nat with true by (destruct (nodes st); simpl in *; [done|symmetry; apply Nat.ltb_lt; lia]). }
  assert (negb (1 <? length (nodes st))%nat = (length (nodes st) =? 1)%nat) as Hone.
  { destruct (nodes st) as [|x [|y l]]; simpl; try done. }
  unfold add_block at 2. rewrite Hone. case_bool_decide.
  - unfold add_heading. rewrite (andb_comm (length (nodes st) =? 1)%nat). destruct (_ && _).
    { by rewrite IH. }
    erewrite Hsnoc by reflexivity. unfold entry at 2. cbn [fst _child representation n_title]. by case_bool_decide.
  - unfold add_content. destruct (strip (b_text b)) as [|c tx] eqn:Htx; [by rewrite IH|].
    erewrite Hsnoc by reflexivity. unfold entry at 2. cbn [fst _child representation n_text].
    by destruct (b_kind b).
Qed.

(** ** The nodes returned *)

Lemma apply_span_id spans n : node_id (apply_span spans n) = node_id n.
Proof. unfold apply_span. by repeat case_match. Qed.
Lemma apply_span_parent spans n : parent_id (apply_span spans n) = parent_id n.
Proof. unfold apply_span. by repeat case_match. Qed.
Lemma apply_span_ordinal spans n : n_ordinal (apply_span spans n) = n_ordinal n.
Proof. unfold apply_span. by repeat case_match. Qed.
Lemma apply_span_entry spans n : entry (apply_span spans n) = entry n.
Proof. unfold apply_span. by repeat case_match. Qed.
Lemma apply_span_same spans n :
  representation (apply_span spans n) = representation n ∧ depth (apply_span spans n) = depth n ∧
  heading_level (apply_span spans n) = heading_level n.
Proof. unfold apply_span. destruct (spans !! node_id n) as [[lo hi]|]; [|done]. by destruct (is_section _). Qed.
Lemma apply_span_under spans p n : lies_under p n → lies_under (apply_span spans p) (apply_span spans n).
Proof.
  destruct (apply_span_same spans p) as (Hr1 & Hd1 & Hl1), (apply_span_same spans n) as (Hr2 & Hd2 & Hl2).
  intros []. split; by rewrite ?apply_span_parent, ?apply_span_id, ?Hr1, ?Hr2, ?Hd1, ?Hd2, ?Hl1, ?Hl2.
Qed.

Lemma children_apply spans ns id : children (apply_span spans <$> ns) id = apply_span spans <$> children ns id.
Proof.
  unfold children. induction ns as [|n ns IH]; [done|]. rewrite fmap_cons, !filter_cons, apply_span_parent, IH.
  by case_decide.
Qed.

Abbreviation built := (build_hierarchy sha256 new_id document_id document_version_id tenant_id title).

(** C36: [build_hierarchy] returns a tree, parents first. The first node is the
    document; every other node has its parent before it in the list: the document
    or a section, one level up, a heading's own level being larger than that of
    the section it is in. The ids are distinct and the children of a node are
    numbered 0, 1, 2 and so on. *)
Theorem hierarchy_is_tree blocks :
  let nodes := build_hierarchy sha256 new_id document_id document_version_id tenant_id title blocks in
  (∃ d rest, nodes = d :: rest ∧ representation d = DOCUMENT ∧ parent_id d = None ∧ depth d = 0) ∧
  NoDup (node_id <$> nodes) ∧
  (∀ k n, nodes !! S k = Some n → ∃ j p, (j ≤ k)%nat ∧ nodes !! j = Some p ∧ lies_under p n) ∧
  (∀ p, p ∈ nodes →
    n_ordinal <$> children nodes (node_id p) = Z.of_nat <$> seq 0 (length (children nodes (node_id p)))).
Proof.
  cbn zeta. destruct (build_paged blocks) as [Ht _]. unfold build_hierarchy. set (st := foldl _ _ _) in *. set (f := apply_span (page_span st)).
  split_and!.
  - pose proof (tree_root _ Ht) as Hr. destruct (nodes st) as [|d rest]; [done|]. injection Hr as ->.
    exists (f root_), (f <$> rest). unfold f, apply_span. split_and!; [done|..]; by repeat case_match.
  - apply NoDup_alt. intros i j x Hi Hj. rewrite !list_lookup_fmap in Hi, Hj.
    destruct (nodes st !! i) as [n|] eqn:Hn; [|done]. destruct (nodes st !! j) as [m|] eqn:Hm; [|done]. simpl in *.
    unfold f in *. rewrite apply_span_id in Hi, Hj. rewrite (tree_ids _ Ht _ _ Hn) in Hi. rewrite (tree_ids _ Ht _ _ Hm) in Hj.
    simplify_eq. by apply (inj new_id).
  - intros k n. rewrite list_lookup_fmap. destruct (nodes st !! S k) as [m|] eqn:Hm; [|done]. intros [= <-].
    destruct (tree_under _ Ht _ _ Hm) as (j & p & ? & Hp & Hu). exists j, (f p). split_and!; [done| |by apply apply_span_under].
    by rewrite list_lookup_fmap, Hp.
  - intros p (q & -> & Hq)%list_elem_of_fmap. unfold f. rewrite apply_span_id, children_apply, length_fmap.
    rewrite <- (tree_ordinals _ Ht q Hq), <- list_fmap_compose. apply list_fmap_ext. intros ? x _. apply apply_span_ordinal.
Qed.

(** The nodes after the document show what the blocks say, in the blocks'
    order: nothing is left out but empty blocks and the heading that repeats the
    document's title before anything else. *)
Theorem hierarchy_reads_in_order blocks : entry <$> build_hierarchy sha256 new_id document_id document_version_id tenant_id title blocks = (true, title) :: entries false blocks.
Proof.
  unfold build_hierarchy. rewrite <- list_fmap_compose.
  rewrite (list_fmap_ext _ entry) by (intros; apply apply_span_entry).
  by rewrite build_entries by done.
Qed.

(** Page ranges nest: the range of a section, or of the document, holds the
    range of everything in it. *)
Theorem page_ranges_nest blocks p n a b :
  let nodes := build_hierarchy sha256 new_id document_id document_version_id tenant_id title blocks in
  p ∈ nodes → n ∈ nodes → parent_id n = Some (node_id p) → page_start n = Some a → page_end n = Some b →
  ∃ lo hi, page_start p = Some lo ∧ page_end p = Some hi ∧ lo ≤ a ∧ b ≤ hi.
Proof.
  cbn zeta. destruct (build_paged blocks) as [Ht Hp]. unfold build_hierarchy. set (st := foldl _ _ _) in *. set (f := apply_span (page_span st)).
  intros (q & -> & Hq)%list_elem_of_fmap (m & -> & Hm)%list_elem_of_fmap. unfold f. rewrite apply_span_id, apply_span_parent.
  intros Hpid Ha Hb. destruct (paged_child _ Hp q m Hq Hm Hpid) as [H1 H2].
  assert (holds_range (page_span st !! node_id q) a b) as (lo & hi & Hs & ? & ?).
  { unfold apply_span in Ha, Hb. destruct (page_span st !! node_id m) as [[x y]|] eqn:Hsm.
    - destruct (is_section _).
      + simpl in Ha, Hb. simplify_eq. by apply H2.
      + rewrite (paged_one _ Hp m Hm) in Hb. simplify_eq. by apply H1.
    - rewrite (paged_one _ Hp m Hm) in Hb. simplify_eq. by apply H1. }
  assert (is_section (representation q) = true) as Hsec.
  { apply list_elem_of_lookup in Hm as [[|k] Hk].
    - rewrite (tree_root _ Ht) in Hk. simplify_eq.
    - destruct (tree_under _ Ht _ _ Hk) as (j & r & _ & Hr & Hu). rewrite (under_parent _ _ Hu) in Hpid. injection Hpid as Hpid.
      apply list_elem_of_lookup_2 in Hr. rewrite <- (tree_id_inj _ _ _ Ht Hr Hq Hpid). apply Hu. }
  exists lo, hi. unfold apply_span. rewrite Hs, Hsec. done.
Qed.
End tree.

(** ** A document *)

Definition w_ids (n : nat) : string := text_of_Z (Z.of_nat n).

#[export] Instance w_ids_inj : Inj (=) (=) w_ids.
Proof. intros n m ?%text_of_Z_inj. lia. Qed.

Definition w_block (k : BlockKind) (level page : Z) (t : string) : Block :=
  {| b_kind := k; b_text := lit t; b_level := level; b_page := Some page; b_label := None; b_metadata := [] |}.

Definition w_blocks : list Block :=
  [w_block heading 1 1 "Guide"; w_block heading 1 3 "1.2 Scope "; w_block paragraph 0 4 "What it covers."; w_block heading 2 4 "Terms";
   w_block table 0 5 "|a|b|"; w_block heading 1 6 "End"].

Abbreviation w_built := (build_hierarchy (λ s, s) w_ids "d" "v" "t" (lit "Guide") w_blocks).

(** The document's nodes; the section number is read, and the range of the first
    section starts with its text, on page 4, though its heading is on page 3. *)
Example hierarchy_ex :
  (λ n, (parent_id n, n_ordinal n, depth n, page_start n, page_end n)) <$> w_built =
    [(None, 0, 0, Some 3, Some 6); (Some "0", 0, 1, Some 4, Some 5); (Some "1", 0, 2, Some 4, Some 4);
     (Some "1", 1, 2, Some 5, Some 5); (Some "3", 0, 3, Some 5, Some 5); (Some "0", 1, 1, Some 6, Some 6)]%string ∧
  heading_number (lit "1.2 Scope") = Some (lit "1.2").
Proof. split; vm_compute; reflexivity. Qed.

Lemma hierarchy_is_tree_witness :
  length w_built = 6%nat ∧ NoDup (node_id <$> w_built) ∧
  ∃ j p n, (j ≤ 4)%nat ∧ w_built !! 5%nat = Some n ∧ w_built !! j = Some p ∧ parent_id n = Some (node_id p).
Proof.
  destruct (hierarchy_is_tree (λ s, s) w_ids "d" "v" "t" (lit "Guide") w_blocks) as (_ & Hn & Hu & _).
  split; [vm_compute; reflexivity|]. split; [exact Hn|].
  destruct (w_built !! 5%nat) as [n|] eqn:H5; [|vm_compute in H5; discriminate].
  destruct (Hu 4%nat n H5) as (j & p & Hj & Hp & Hup). exists j, p, n. split; [exact Hj|]. split; [reflexivity|]. split; [exact Hp|].
  exact (under_parent _ _ Hup).
Defined.

Abbreviation w_nth k := (nth k w_built (root (λ s, s) w_ids "d" "v" "t" (lit "Guide"))).

Lemma page_ranges_nest_witness :
  page_start (w_nth 3) = Some 5 ∧ ∃ lo hi, page_start (w_nth 1) = Some lo ∧ page_end (w_nth 1) = Some hi ∧ lo ≤ 5 ∧ 5 ≤ hi.
Proof.
  split; [vm_compute; reflexivity|].
  apply (page_ranges_nest (λ s, s) w_ids "d" "v" "t" (lit "Guide") w_blocks (w_nth 1) (w_nth 3) 5 5).
  - apply list_elem_of_In, nth_In. vm_compute. lia.
  - apply list_elem_of_In, nth_In. vm_compute. lia.
  - vm_compute. reflexivity.
  - vm_compute. reflexivity.
  - vm_compute. reflexivity.
Defined.
