(* ===== verification/Chunking.v ===== *)
(** * Chunking (modules/ingestion/chunking.py)

    The spans a node's text is cut into: trimming, the hard split of text without
    boundaries, packing units greedily with an overlap, sentences, code blocks and
    tables, the merging of tiny parts, and the chunks of a document's nodes.
    Positions are characters of the node's text; a span is [start, end).

    [extract_entities] and [footnote_citations] of context_graph.py, which only
    fill the header, are arguments of [chunk_nodes]. *)
From stdpp Require Import base list strings sorting.
From Stdlib Require Import ZArith Lia Ascii String.
From S2P Require Import Prelude Json Errors Text Documents.
#[local] Open Scope Z_scope.

Abbreviation Span := (nat * nat)%type.

(** ** Trimming and weights *)

(** [while start < end and text[start].isspace(): start += 1]. *)
Fixpoint trim_start (t : text) (n i : nat) : nat :=
  match n with
  | O => i
  | S n' => if space_at t i then trim_start t n' (S i) else i
  end.

(** [while end > start and text[end - 1].isspace(): end -= 1]. *)
Fixpoint trim_end (t : text) (n j : nat) : nat :=
  match n with
  | O => j
  | S n' => if space_at t (pred j) then trim_end t n' (pred j) else j
  end.

Definition _trimmed (t : text) (start stop : nat) : option Span :=
  let start' := trim_start t (stop - start) start in
  let stop' := trim_end t (stop - start') stop in
  if (start' <? stop')%nat then Some (start', stop') else None.

(** [list(accumulate(values, initial=n))]. *)
Fixpoint accumulate (n : Z) (values : list Z) : list Z :=
  n :: match values with [] => [] | v :: vs => accumulate (n + v) vs end.

Definition _weights (t : text) : list Z := accumulate 0 (token_units <$> t).

(** [weights[b] - weights[a]]. *)
Definition between (weights : list Z) (a b : nat) : Z := default 0 (weights !! b) - default 0 (weights !! a).

(** [if span := _trimmed(...): spans.append(span)]. *)
Definition emit (t : text) (spans : list Span) (a b : nat) : list Span := spans ++ option_list (_trimmed t a b).

(** ** The hard split *)

Record splitting := {
  hs_spans : list Span;
  hs_start : nat;
  hs_weight : Z;
  hs_boundary : option nat;   (** [-1] is [None] *)
  hs_boundary_weight : Z;
}.

(** [boundary > start]. *)
Definition past_start (st : splitting) : option nat :=
  match hs_boundary st with
  | Some b => if (hs_start st <? b)%nat then Some b else None
  | None => None
  end.

(** The inner loop: parts are cut until the character fits. *)
Fixpoint make_room (t : text) (max_tokens cost : Z) (index n : nat) (st : splitting) : splitting :=
  match n with
  | O => st
  | S n' =>
      if (max_tokens * 4 <? hs_weight st + cost) && (hs_start st <? index)%nat then
        let cut := default index (past_start st) in
        make_room t max_tokens cost index n'
          {| hs_spans := emit t (hs_spans st) (hs_start st) cut; hs_start := cut;
             hs_weight := match past_start st with Some _ => hs_weight st - hs_boundary_weight st | None => 0 end;
             hs_boundary := None; hs_boundary_weight := 0 |}
      else st
  end.

(** The outer loop's body at [index]. *)
Definition hard_step (t : text) (max_tokens : Z) (index : nat) (st : splitting) : res splitting :=
  match t !! index with
  | None => Raise IndexError
  | Some c =>
      let cost := token_units c in
      if max_tokens * 4 <? cost then Raise (ValueError "max_tokens cannot hold one source character"%string)
      else
        let st := make_room t max_tokens cost index (index - hs_start st) st in
        let w := hs_weight st + cost in
        Ok {| hs_spans := hs_spans st; hs_start := hs_start st; hs_weight := w;
              hs_boundary := if isspace c then Some (S index) else hs_boundary st;
              hs_boundary_weight := if isspace c then w else hs_boundary_weight st |}
  end.

Fixpoint hard_loop (t : text) (max_tokens : Z) (n index : nat) (st : splitting) : res splitting :=
  match n with
  | O => Ok st
  | S n' => obind (hard_step t max_tokens index st) (hard_loop t max_tokens n' (S index))
  end.

Definition _hard_split_spans (t : text) (max_tokens : Z) (start stop : nat) : res (list Span) :=
  if max_tokens <? 1 then Raise (ValueError "max_tokens must be positive"%string)
  else
    obind (hard_loop t max_tokens (stop - start) start
             {| hs_spans := []; hs_start := start; hs_weight := 0; hs_boundary := None; hs_boundary_weight := 0 |})
      (λ st, Ok (emit t (hs_spans st) (hs_start st) stop)).

(** [[text[a:b] for a, b in spans]]. *)
Definition slices (t : text) (spans : list Span) : list text := (λ s, slice t s.1 s.2) <$> spans.

Definition _hard_split (t : text) (max_tokens : Z) : res (list text) :=
  obind (_hard_split_spans t max_tokens 0 (length t)) (λ spans, Ok (slices t spans)).

(** ** Units *)

Fixpoint _bounded_spans (t : text) (spans : list Span) (weights : list Z) (max_tokens : Z) : res (list Span) :=
  match spans with
  | [] => Ok []
  | (a, b) :: rest =>
      obind (if max_tokens * 4 <? between weights a b then _hard_split_spans t max_tokens a b else Ok [(a, b)]) (λ pieces,
      obind (_bounded_spans t rest weights max_tokens) (λ more, Ok (pieces ++ more)))
  end.

(** [bisect_right(starts, x)]: how many of the ascending [starts] are at most [x]. *)
Fixpoint bisect (starts : list nat) (x n lo hi : nat) : nat :=
  match n with
  | O => lo
  | S n' =>
      if (lo <? hi)%nat then
        let mid := Nat.div2 (lo + hi) in
        if (x <? default 0%nat (starts !! mid))%nat then bisect starts x n' lo mid else bisect starts x n' (S mid) hi
      else lo
  end.

Definition bisect_right (starts : list nat) (x : nat) : nat := bisect starts x (length starts) 0 (length starts).

(** The earliest point the next part may begin at, inside the part before it. *)
Fixpoint overlap_point (weights : list Z) (budget overlap : Z) (last b : nat) (points : list nat) : option nat :=
  match points with
  | [] => None
  | p :: ps =>
      if (last <=? p)%nat then None
      else if (between weights p last <=? overlap) && (between weights p b <=? budget) then Some p
      else overlap_point weights budget overlap last b ps
  end.

(** The part being filled ([first], [last]; [-1] is [None]) and the parts before it. *)
Fixpoint pack_loop (weights : list Z) (budget overlap : Z) (starts : list nat) (spans : list Span) (current : option Span) :
    list Span :=
  match spans with
  | [] => option_list current
  | (a, b) :: rest =>
      match current with
      | None => pack_loop weights budget overlap starts rest (Some (a, b))
      | Some (first, last) =>
          if budget <? between weights first b then
            let next :=
              if 0 =? overlap then None
              else overlap_point weights budget overlap last b (drop (bisect_right starts first) starts) in
            (first, last) :: pack_loop weights budget overlap starts rest (Some (default a next, b))
          else pack_loop weights budget overlap starts rest (Some (first, b))
      end
  end.

Definition _pack_spans (spans : list Span) (weights : list Z) (max_tokens overlap_tokens : Z) (starts : list nat) : list Span :=
  pack_loop weights (max_tokens * 4) (overlap_tokens * 4) starts spans None.

(** The pieces between the separators found, and the last one. *)
Fixpoint segments_from (t : text) (position stop : nat) (found : list Span) : list Span :=
  match found with
  | [] => option_list (_trimmed t position stop)
  | (a, b) :: rest => option_list (_trimmed t position a) ++ segments_from t b stop rest
  end.

Definition _segments (t : text) (separator : regex) (start stop : nat) : list Span :=
  segments_from t start stop (finditer t separator start stop).

Definition char_in (l : text) (c : char) : bool := bool_decide (c ∈ l).
Definition is_newline (c : char) : bool := bool_decide (c = newline).

(** [\n+] and [\n\s*\n]. *)
Definition _LINE_BREAK : regex := Plus is_newline.
Definition _BLANK_LINE : regex := Then (One is_newline) (Then (Many isspace) (One is_newline)).

(** [(?<=[.!?])\s+|(?<=[\u3002\uff01\uff1f\u0964\u0965\u061f\u06d4])\s*|\n+]. *)
Definition SENTENCE_BREAK : regex :=
  Either (Then (Behind (char_in (lit ".!?"))) (Plus isspace))
    (Either (Then (Behind (char_in (uni <$> [12290; 65281; 65311; 2404; 2405; 1567; 1748]%N))) (Many isspace))
       (Plus is_newline)).

(** The loop over the lines: the units and the sentence starts. *)
Fixpoint sentence_units (t : text) (max_tokens : Z) (weights : list Z) (lines : list Span) : res (list Span * list nat) :=
  match lines with
  | [] => Ok ([], [])
  | (a, b) :: rest =>
      obind (_bounded_spans t (_segments t SENTENCE_BREAK a b) weights max_tokens) (λ sentences,
      obind (sentence_units t max_tokens weights rest) (λ '(units, starts),
      Ok ((if between weights a b <=? max_tokens * 4 then [(a, b)] else sentences) ++ units, sentences.*1 ++ starts)))
  end.

Definition _split_sentence_spans (t : text) (max_tokens overlap_tokens : Z) : res (list Span) :=
  let weights := _weights t in
  obind (sentence_units t max_tokens weights (_segments t _LINE_BREAK 0 (length t))) (λ '(units, starts),
  Ok (_pack_spans units weights max_tokens overlap_tokens starts)).

Definition _split_code_spans (t : text) (max_tokens : Z) : res (list Span) :=
  let weights := _weights t in
  obind (_bounded_spans t (_segments t _BLANK_LINE 0 (length t)) weights max_tokens) (λ blocks,
  Ok (_pack_spans blocks weights max_tokens 0 [])).

(** ** Tables *)

(** The state of [_pack_units]: the parts, the fragments of the current one and
    its weight. *)
Record unit_packing := { up_parts : list text; up_current : list text; up_weight : Z }.

Section units.
Context (max_tokens : Z) (separator prefix : text).

Definition flushed (st : unit_packing) : list text := up_parts st ++ [prefix ++ join separator (up_current st)].

(** [separator_weight if current else 0]. *)
Definition sep_weight (current : list text) : Z := match current with [] => 0 | _ => weight separator end.

Definition add_fragment (st : unit_packing) (fragment : text) : unit_packing :=
  let added := weight fragment + sep_weight (up_current st) in
  let st :=
    if bool_decide (up_current st ≠ []) && (max_tokens * 4 <? up_weight st + added)
    then {| up_parts := flushed st; up_current := []; up_weight := weight prefix |} else st in
  {| up_parts := up_parts st; up_current := up_current st ++ [fragment];
     up_weight := up_weight st + (weight fragment + sep_weight (up_current st)) |}.

Fixpoint add_units (units : list text) (st : unit_packing) : res unit_packing :=
  match units with
  | [] => Ok st
  | unit_ :: rest =>
      obind (_hard_split unit_ ((max_tokens * 4 - weight prefix) / 4)) (λ fragments,
      add_units rest (foldl add_fragment st fragments))
  end.

Definition _pack_units (units : list text) : res (list text) :=
  obind (add_units units {| up_parts := []; up_current := []; up_weight := weight prefix |}) (λ st,
  Ok (match up_current st with [] => up_parts st | _ => flushed st end)).
End units.

(** [^\s*\|?\s*:?-{2,}]. *)
Definition _TABLE_RULE : regex :=
  let dash c := bool_decide (c = chr "-") in
  Then (Many isspace) (Then (Opt (One (λ c, bool_decide (c = chr "|")))) (Then (Many isspace)
    (Then (Opt (One (λ c, bool_decide (c = chr ":")))) (Then (One dash) (Then (One dash) (Many dash)))))).

(** The rows repeated in every part. *)
Definition header_rows (rows : list text) : nat :=
  match rows with
  | _ :: second :: _ => if match_at second (length second) _TABLE_RULE 0 false then 2 else 1
  | _ => 1
  end.

Definition _split_table (t : text) (max_tokens : Z) : res (list text) :=
  let rows := split_on newline t in
  if (length rows <? 3)%nat then _hard_split t max_tokens
  else
    let prefix := join [newline] (take (header_rows rows) rows) ++ [newline] in
    if max_tokens * 4 <? weight prefix + 16 then _hard_split t max_tokens
    else _pack_units max_tokens [newline] prefix (drop (header_rows rows) rows).

(** ** The parts of a node *)

Definition Part : Type := text * option Span.

Definition spans_parts (t : text) (spans : list Span) : list Part := (λ s, (slice t s.1 s.2, Some s)) <$> spans.

Definition _node_parts (node : DocumentNode) (max_tokens overlap_tokens : Z) : res (list Part) :=
  let t := n_text node in
  if estimate_tokens t <=? max_tokens then Ok (spans_parts t (option_list (_trimmed t 0 (length t))))
  else if bool_decide (representation node = TABLE) then
    obind (_split_table t max_tokens) (λ parts, Ok ((λ p, (p, None)) <$> filter (λ p, strip p ≠ []) parts))
  else if bool_decide (representation node = CODE_BLOCK) then
    obind (_split_code_spans t max_tokens) (λ spans, Ok (spans_parts t spans))
  else obind (_split_sentence_spans t max_tokens overlap_tokens) (λ spans, Ok (spans_parts t spans)).

(** Two parts as one. *)
Definition joined_part (t : text) (previous part : Part) : Part :=
  match previous.2, part.2 with
  | Some (a, _), Some (_, b) => (slice t a b, Some (a, b))
  | _, _ => (previous.1 ++ [newline] ++ part.1, None)
  end.

Definition merge_part (t : text) (max_tokens min_tokens : Z) (merged : list Part) (part : Part) : list Part :=
  match last merged with
  | Some previous =>
      let joined := joined_part t previous part in
      if (estimate_tokens part.1 <? min_tokens) && (estimate_tokens joined.1 <=? max_tokens)
      then take (pred (length merged)) merged ++ [joined] else merged ++ [part]
  | None => merged ++ [part]
  end.

Definition merge_parts (t : text) (parts : list Part) (max_tokens min_tokens : Z) : list Part :=
  foldl (merge_part t max_tokens min_tokens) [] parts.

Definition _merge_tiny (node : DocumentNode) (parts : list Part) (max_tokens min_tokens : Z) : list text :=
  (merge_parts (n_text node) parts max_tokens min_tokens).*1.

(** ** The header of a chunk *)

(** The order of Python's [str]. *)
Fixpoint text_leb (a b : text) : bool :=
  match a, b with
  | [], _ => true
  | _, [] => false
  | c :: a', d :: b' => (ord c <? ord d)%N || (bool_decide (c = d) && text_leb a' b')
  end.

(** [sorted(..., key=lambda kv: (-kv[1], kv[0]))]. *)
Definition more_salient (x y : text * Z) : Prop := y.2 < x.2 ∨ (x.2 = y.2 ∧ text_leb x.1 y.1 = true).

#[export] Instance more_salient_dec x y : Decision (more_salient x y).
Proof. unfold more_salient. apply _. Defined.

Definition _HEADER_MAX_TOKENS : Z := 96.

(** The header without the characters from the first one over the weight. *)
Fixpoint header_cut (budget : Z) (header : text) : option text :=
  match header with
  | [] => None
  | c :: h => if budget <? token_units c then Some [] else (λ r, c :: r) <$> header_cut (budget - token_units c) h
  end.

(** [f"{label}{t}"]. *)
Definition labelled (label : string) (t : text) : text := lit label ++ t.

(** A line where there is something to say. *)
Definition header_line (label : string) (t : option text) : list text :=
  match t with Some (c :: r) => [labelled label (c :: r)] | _ => [] end.

Definition contextual_header (document_title section_path : text) (page : option Z) (entities : list text)
    (table_title footnote_to : option text) : text :=
  let lines :=
    [labelled "Document: " document_title]
    ++ (if bool_decide (section_path = document_title) then [] else header_line "Section: " (Some section_path))
    ++ match page with Some n => [labelled "Page: " (lit (text_of_Z n))] | None => [] end
    ++ header_line "Table: " table_title
    ++ header_line "Footnote to: " footnote_to
    ++ match entities with [] => [] | _ => [labelled "Entities: " (join (lit ", ") (take 12 entities))] end in
  let header := join [newline] lines in
  match header_cut (_HEADER_MAX_TOKENS * 4) header with
  | Some cut => rstrip cut
  | None => header
  end.

Section chunks.
(** context_graph.py's [extract_entities] and [footnote_citations], and
    [content_hash] of a text. *)
Context (extract_entities : text → list text) (footnote_citations : list DocumentNode → string → option text)
        (content_hash : text → string).

(** [node.entities or extract_entities(node.text or "")]. *)
Definition entities_of (node : DocumentNode) : list text :=
  match n_entities node with [] => extract_entities (n_text node) | l => l end.

Definition _document_salience (nodes : list DocumentNode) : list text :=
  let counts := foldl (λ counts name, count_up name counts) [] (nodes ≫= entities_of) in
  take 8 (merge_sort more_salient counts).*1.

Definition _chunk_entities (node : DocumentNode) (document_entities : list text) : list text :=
  take 12 (fromkeys (entities_of node ++ document_entities)).

Definition node_chunks (nodes : list DocumentNode) (document_title : text) (max_tokens min_tokens overlap_tokens : Z)
    (contextual : bool) (node : DocumentNode) : res (list Chunk) :=
  if is_section (representation node) || bool_decide (n_text node = []) then Ok []
  else
    obind (_node_parts node max_tokens overlap_tokens) (λ found,
    let parts := _merge_tiny node found max_tokens min_tokens in
    let entities := _chunk_entities node (_document_salience nodes) in
    let header :=
      contextual_header document_title (section_path node) (page_start node) entities
        (if bool_decide (representation node = TABLE) then n_title node else None)
        (footnote_citations nodes (node_id node)) in
    Ok (imap (λ ordinal t,
          {| c_node_id := node_id node; c_document_id := n_document_id node;
             c_document_version_id := n_document_version_id node; c_tenant_id := n_tenant_id node;
             c_ordinal := Z.of_nat ordinal; c_text := t; c_text_hash := content_hash t;
             contextual_text := if contextual then header ++ [newline; newline] ++ t else t;
             c_page := page_start node; c_section_path := section_path node; c_token_estimate := estimate_tokens t;
             c_entities := entities |}) parts)).

Fixpoint chunks_of (make : DocumentNode → res (list Chunk)) (nodes : list DocumentNode) : res (list Chunk) :=
  match nodes with
  | [] => Ok []
  | node :: rest => obind (make node) (λ chunks, obind (chunks_of make rest) (λ more, Ok (chunks ++ more)))
  end.

Definition chunk_nodes (nodes : list DocumentNode) (document_title : text) (max_tokens min_tokens overlap_tokens : Z)
    (contextual : bool) : res (list Chunk) :=
  chunks_of (node_chunks nodes document_title max_tokens min_tokens overlap_tokens contextual) nodes.
End chunks.

Example split_ex :
  (slices (lit "Alpha beta. Gamma delta.  Epsilon zeta eta theta.")) <$>
    match _split_sentence_spans (lit "Alpha beta. Gamma delta.  Epsilon zeta eta theta.") 6 3 with Ok l => Some l | Raise _ => None end
  = Some [lit "Alpha beta. Gamma delta."; lit "Epsilon zeta eta theta."].
Proof. vm_compute. reflexivity. Qed.
