(* ===== verification/ChunkingCorrect.v ===== *)
(** * Chunking loses no text and keeps its budget

    Over [Chunking]: the spans of every split lie in the text, are not empty,
    weigh no more than the budget and, together, hold every character that is not
    a space; the parts of a packed text follow one another with no more than the
    overlap in common; a merge only joins what fits; so the chunks of a document
    hold every character of its nodes, each within the token budget. *)
From stdpp Require Import base list strings sorting.
From Stdlib Require Import ZArith Lia Ascii String.
From S2P Require Import Prelude Json Errors Text Documents Chunking.
#[local] Open Scope Z_scope.

(** ** Pieces of a text *)

(** Spans in order, none empty, between [lo] and [hi]. *)
Fixpoint ordered_spans (lo hi : nat) (l : list Span) : Prop :=
  match l with
  | [] => (lo ≤ hi)%nat
  | (a, b) :: l' => (lo ≤ a)%nat ∧ (a < b)%nat ∧ ordered_spans b hi l'
  end.

(** Every character of [lo, hi) that is not a space is in one of the spans. *)
Definition covers (t : text) (lo hi : nat) (l : list Span) : Prop :=
  ∀ i, (lo ≤ i < hi)%nat → ink_at t i → ∃ s, s ∈ l ∧ (s.1 ≤ i < s.2)%nat.

Definition pieces (t : text) (lo hi : nat) (l : list Span) : Prop := ordered_spans lo hi l ∧ covers t lo hi l.

(** A span that weighs no more than the budget. *)
Definition fits (t : text) (budget : Z) (s : Span) : Prop := weight (slice t s.1 s.2) ≤ budget.

(** A span of the text. *)
Definition inside (lo hi : nat) (s : Span) : Prop := (lo ≤ s.1)%nat ∧ (s.1 < s.2)%nat ∧ (s.2 ≤ hi)%nat.

Section text.
Context (t : text).

Lemma ordered_spans_le lo hi l : ordered_spans lo hi l → (lo ≤ hi)%nat.
Proof. revert lo. induction l as [|[a b] l IH]; intros lo; simpl; [done|]. intros (? & ? & H). apply IH in H. lia. Qed.

Lemma ordered_spans_app lo mid hi l1 l2 : ordered_spans lo mid l1 → ordered_spans mid hi l2 → ordered_spans lo hi (l1 ++ l2).
Proof.
  revert lo. induction l1 as [|[a b] l1 IH]; intros lo; simpl.
  - intros Hl H. destruct l2 as [|[a b] l2]; simpl in *; [lia|]. destruct H as (? & ? & ?). split_and!; auto; lia.
  - intros (? & ? & ?) ?. split_and!; auto.
Qed.

Lemma ordered_spans_inside lo hi l s : ordered_spans lo hi l → s ∈ l → inside lo hi s.
Proof.
  revert lo. induction l as [|[a b] l IH]; intros lo; simpl; [set_solver|].
  intros (? & ? & H) Hs. pose proof (ordered_spans_le _ _ _ H). apply elem_of_cons in Hs as [->|Hs].
  - unfold inside. simpl. lia.
  - destruct (IH _ H Hs) as (? & ? & ?). unfold inside. lia.
Qed.

Lemma covers_app lo mid hi l1 l2 : covers t lo mid l1 → covers t mid hi l2 → covers t lo hi (l1 ++ l2).
Proof.
  intros H1 H2 i Hi Hk. destruct (decide (i < mid)%nat).
  - destruct (H1 i) as (s & ? & ?); [lia|done|]. exists s. set_solver.
  - destruct (H2 i) as (s & ? & ?); [lia|done|]. exists s. set_solver.
Qed.

Lemma pieces_app lo mid hi l1 l2 : pieces t lo mid l1 → pieces t mid hi l2 → pieces t lo hi (l1 ++ l2).
Proof. intros [? ?] [? ?]. split; [by eapply ordered_spans_app|by eapply covers_app]. Qed.

(** Spaces need no span. *)
Lemma pieces_spaces lo hi : (lo ≤ hi)%nat → spaces t lo hi → pieces t lo hi [].
Proof. intros ? Hs. split; [done|]. intros i Hi Hk. apply ink_space_at in Hk. by rewrite Hs in Hk. Qed.

Lemma pieces_one lo hi : (lo < hi)%nat → pieces t lo hi [(lo, hi)].
Proof. intros. split; [simpl; lia|]. intros i Hi _. exists (lo, hi). set_solver. Qed.

(** Replacing each span by pieces of it. *)
Lemma covers_refine lo hi l l' :
  covers t lo hi l → (∀ s, s ∈ l → ∀ i, (s.1 ≤ i < s.2)%nat → ink_at t i → ∃ s', s' ∈ l' ∧ (s'.1 ≤ i < s'.2)%nat) → covers t lo hi l'.
Proof. intros H Hr i Hi Hk. destruct (H i Hi Hk) as (s & Hs & Hin). by apply (Hr s). Qed.

(** ** Trimming *)

Lemma trim_start_spec n i :
  let j := trim_start t n i in (i ≤ j ≤ i + n)%nat ∧ spaces t i j ∧ ((j < i + n)%nat → space_at t j = false).
Proof.
  revert i. induction n as [|n IH]; intros i; simpl; [split_and!; try lia; intros ? ?; lia|].
  destruct (space_at t i) eqn:Hs; [|split_and!; [lia|lia|intros ? ?; lia|done]].
  specialize (IH (S i)). simpl in IH. destruct IH as (? & Hsp & Hstop). split_and!; [lia|lia| |].
  - intros k ?. destruct (decide (k = i)) as [->|]; [done|]. apply Hsp. lia.
  - intros ?. apply Hstop. lia.
Qed.

Lemma trim_end_spec n j :
  (n ≤ j)%nat → let k := trim_end t n j in (j - n ≤ k ≤ j)%nat ∧ spaces t k j ∧ ((j - n < k)%nat → space_at t (pred k) = false).
Proof.
  revert j. induction n as [|n IH]; intros j Hn; simpl; [split_and!; try lia; intros ? ?; lia|].
  destruct (space_at t (pred j)) eqn:Hs; [|split_and!; [lia|lia|intros ? ?; lia|done]].
  specialize (IH (pred j)). simpl in IH. destruct IH as (? & Hsp & Hstop); [lia|]. split_and!; [lia|lia| |].
  - intros k ?. destruct (decide (k = pred j)) as [->|]; [done|]. apply Hsp. lia.
  - intros ?. apply Hstop. lia.
Qed.

Lemma trimmed_inside a b s : _trimmed t a b = Some s → (a ≤ b)%nat → inside a b s ∧ spaces t a s.1 ∧ spaces t s.2 b.
Proof.
  unfold _trimmed. intros H Hab. pose proof (trim_start_spec (b - a) a) as (? & Hs & _).
  set (a' := trim_start t (b - a) a) in *. pose proof (trim_end_spec (b - a') b ltac:(lia)) as (? & He & _).
  set (b' := trim_end t (b - a') b) in *. destruct (a' <? b')%nat eqn:Hlt; simplify_eq. apply Nat.ltb_lt in Hlt.
  unfold inside. simpl. split_and!; try done; lia.
Qed.

(** Trimming takes spaces only; what is left starts and ends with a character
    that is not one. *)
Lemma trimmed_pieces a b : (a ≤ b)%nat → pieces t a b (option_list (_trimmed t a b)).
Proof.
  intros Hab. unfold _trimmed. pose proof (trim_start_spec (b - a) a) as (? & Hs & _).
  set (a' := trim_start t (b - a) a) in *. pose proof (trim_end_spec (b - a') b ltac:(lia)) as (? & He & _).
  set (b' := trim_end t (b - a') b) in *. destruct (a' <? b')%nat eqn:Hlt.
  - apply Nat.ltb_lt in Hlt. simpl. change [(a', b')] with ([] ++ [(a', b')] ++ [] : list Span).
    eapply pieces_app; [by apply (pieces_spaces a a'); [lia|]|].
    eapply pieces_app; [by apply pieces_one|]. apply pieces_spaces; [lia|done].
  - apply Nat.ltb_ge in Hlt. simpl. apply pieces_spaces; [done|]. intros i Hi.
    destruct (decide (i < a')%nat); [apply Hs; lia|apply He; lia].
Qed.

Lemma trimmed_ink_ends a b s :
  _trimmed t a b = Some s → (a ≤ b)%nat → space_at t s.1 = false ∧ space_at t (pred s.2) = false.
Proof.
  unfold _trimmed. intros H Hab. pose proof (trim_start_spec (b - a) a) as (? & _ & Hs).
  set (a' := trim_start t (b - a) a) in *. pose proof (trim_end_spec (b - a') b ltac:(lia)) as (? & _ & He).
  set (b' := trim_end t (b - a') b) in *. destruct (a' <? b')%nat eqn:Hlt; simplify_eq. apply Nat.ltb_lt in Hlt.
  split; [apply Hs|apply He]; lia.
Qed.

Lemma fits_inside budget lo hi a b : fits t budget (lo, hi) → (lo ≤ a)%nat → (a ≤ b)%nat → (b ≤ hi)%nat → fits t budget (a, b).
Proof.
  unfold fits. simpl. intros. rewrite (weight_slice_split t lo a hi), (weight_slice_split t a b hi) in H by lia.
  pose proof (weight_nonneg (slice t lo a)). pose proof (weight_nonneg (slice t b hi)). lia.
Qed.

Lemma trimmed_fits budget a b : (a ≤ b)%nat → fits t budget (a, b) → Forall (fits t budget) (option_list (_trimmed t a b)).
Proof.
  intros Hab Hf. destruct (_trimmed t a b) as [[x y]|] eqn:Ht; simpl; [|done].
  apply trimmed_inside in Ht as ((? & ? & ?) & _); [|done]. repeat constructor. simpl in *. eapply fits_inside; eauto; lia.
Qed.
End text.

(** ** The hard split *)

Section hard.
Context (t : text) (max_tokens : Z) (lo : nat).

Record hs_inv (index : nat) (st : splitting) : Prop := {
  inv_pieces : pieces t lo (hs_start st) (hs_spans st);
  inv_fits : Forall (fits t (max_tokens * 4)) (hs_spans st);
  inv_start : (hs_start st ≤ index)%nat;
  inv_weight : hs_weight st = weight (slice t (hs_start st) index);
  inv_budget : hs_weight st ≤ max_tokens * 4;
  inv_boundary : ∀ b, past_start st = Some b → (b ≤ index)%nat ∧ hs_boundary_weight st = weight (slice t (hs_start st) b);
}.

Lemma past_start_lt st b : past_start st = Some b → (hs_start st < b)%nat.
Proof. unfold past_start. repeat case_match; intros [= ->]. by apply Nat.ltb_lt. Qed.

(** A part is cut: from the start to the last space, or to here. *)
Lemma emit_inv index st cut :
  hs_inv index st → (hs_start st ≤ cut ≤ index)%nat →
  pieces t lo cut (emit t (hs_spans st) (hs_start st) cut) ∧
  Forall (fits t (max_tokens * 4)) (emit t (hs_spans st) (hs_start st) cut).
Proof.
  intros [Hp Hf Hs Hw Hb _] Hc. unfold emit. split.
  - eapply pieces_app; [done|]. apply trimmed_pieces. lia.
  - apply Forall_app. split; [done|]. apply trimmed_fits; [lia|].
    apply (fits_inside t _ (hs_start st) index); try lia. unfold fits. simpl. lia.
Qed.

Lemma make_room_inv cost index n st :
  cost ≤ max_tokens * 4 → 0 ≤ max_tokens → hs_inv index st → (index - hs_start st ≤ n)%nat →
  let st' := make_room t max_tokens cost index n st in
  hs_inv index st' ∧ hs_weight st' + cost ≤ max_tokens * 4.
Proof.
  intros Hcost Hmax. revert st. induction n as [|n IH]; intros st Hinv Hn; cbn [make_room].
  - split; [done|]. rewrite (inv_weight _ _ Hinv), slice_nil by lia. simpl. lia.
  - pose proof (inv_start _ _ Hinv) as Hs.
    destruct (_ && _) eqn:Hcond.
    + apply andb_true_iff in Hcond as [Hc1%Z.ltb_lt Hc2%Nat.ltb_lt].
      assert (hs_start st < default index (past_start st) ≤ index)%nat as Hcut.
      { destruct (past_start st) as [b|] eqn:Hb; simpl; [|lia].
        destruct (inv_boundary _ _ Hinv b Hb). apply past_start_lt in Hb. lia. }
      destruct (emit_inv _ _ (default index (past_start st)) Hinv) as [Hp Hf]; [lia|].
      apply IH; cbn [hs_start]; [|lia]. split; cbn [hs_spans hs_start hs_weight hs_boundary]; try done; try lia.
      * destruct (past_start st) as [b|] eqn:Hb; simpl; [|by rewrite slice_nil].
        destruct (inv_boundary _ _ Hinv b Hb) as [? ->]. apply past_start_lt in Hb. rewrite (inv_weight _ _ Hinv).
        rewrite (weight_slice_split t (hs_start st) b index) by lia. lia.
      * pose proof (inv_budget _ _ Hinv). destruct (past_start st) as [b|] eqn:Hb; [|lia].
        destruct (inv_boundary _ _ Hinv b Hb) as [_ ->]. pose proof (weight_nonneg (slice t (hs_start st) b)). lia.
    + split; [done|]. apply andb_false_iff in Hcond as [Hc|Hc].
      * apply Z.ltb_ge in Hc. lia.
      * apply Nat.ltb_ge in Hc. rewrite (inv_weight _ _ Hinv), slice_nil by lia. simpl. lia.
Qed.

Lemma hard_step_inv index st :
  1 ≤ max_tokens → hs_inv index st → (∀ c, t !! index = Some c → token_units c ≤ max_tokens * 4) → (index < length t)%nat →
  ∃ st', hard_step t max_tokens index st = Ok st' ∧ hs_inv (S index) st'.
Proof.
  intros Hmax Hinv Hfit Hlt. unfold hard_step. destruct (lookup_lt_is_Some_2 t index Hlt) as [c Hc]. rewrite Hc.
  specialize (Hfit c Hc). replace (max_tokens * 4 <? token_units c) with false by lia. eexists. split; [done|].
  destruct (make_room_inv (token_units c) index (index - hs_start st) st) as [Hroom Hw]; [done|lia|done|done|].
  set (st' := make_room _ _ _ _ _ _) in *. clearbody st'.
  pose proof (inv_start _ _ Hroom). pose proof (weight_slice_S t (hs_start st') index c Hc ltac:(lia)) as HS.
  pose proof (inv_weight _ _ Hroom).
  split; cbn [hs_spans hs_start hs_weight hs_boundary]; try apply Hroom; try lia.
  intros b Hb. unfold past_start in Hb. cbn [hs_start hs_boundary hs_boundary_weight] in *.
  destruct (isspace c).
  - destruct (_ <? _)%nat in Hb; simplify_eq. split; [lia|]. by rewrite HS, <- (inv_weight _ _ Hroom).
  - destruct (inv_boundary _ _ Hroom b Hb) as [? Hbw]. split; [lia|done].
Qed.

Lemma hard_loop_inv n index st :
  1 ≤ max_tokens → hs_inv index st → (index + n ≤ length t)%nat → Forall (λ c, token_units c ≤ max_tokens * 4) t →
  ∃ st', hard_loop t max_tokens n index st = Ok st' ∧ hs_inv (index + n) st'.
Proof.
  intros Hmax Hinv Hn Hall. revert index st Hinv Hn. induction n as [|n IH]; intros index st Hinv Hn; cbn [hard_loop].
  - exists st. by rewrite Nat.add_0_r.
  - destruct (hard_step_inv index st) as (st1 & -> & H1); [done|done| |lia|].
    { intros c Hc. by eapply (proj1 (Forall_lookup _ _) Hall). }
    simpl. destruct (IH (S index) st1 H1) as (st2 & -> & H2); [lia|]. exists st2. split; [done|].
    by replace (index + S n)%nat with (S index + n)%nat by lia.
Qed.
End hard.

(** A budget that holds any one character. *)
Lemma holds_any t max_tokens : 4 ≤ max_tokens → Forall (λ c, token_units c ≤ max_tokens * 4) t.
Proof. intros. apply Forall_true. intros c. pose proof (token_units_bounds c). lia. Qed.

(** The hard split is total on a budget that holds each character; its spans are
    pieces of the range and fit the budget. *)
Lemma hard_split_spans_spec t max_tokens lo hi :
  1 ≤ max_tokens → (lo ≤ hi ≤ length t)%nat → Forall (λ c, token_units c ≤ max_tokens * 4) t →
  ∃ spans, _hard_split_spans t max_tokens lo hi = Ok spans ∧ pieces t lo hi spans ∧ Forall (fits t (max_tokens * 4)) spans.
Proof.
  intros Hmax Hr Hall. unfold _hard_split_spans. replace (max_tokens <? 1) with false by lia.
  edestruct (hard_loop_inv t max_tokens lo (hi - lo) lo) as (st & -> & Hst); [done| |lia|done|].
  { split; cbn; try lia; try done; [|by rewrite slice_nil]. apply pieces_spaces; [done|]. intros ? ?. lia. }
  replace (lo + (hi - lo))%nat with hi in Hst by lia. simpl. eexists. split; [done|].
  apply (emit_inv t max_tokens lo hi st hi Hst). pose proof (inv_start _ _ _ _ _ Hst). lia.
Qed.

(** ** Prefix sums *)

Lemma accumulate_lookup n vs i : (i ≤ length vs)%nat → accumulate n vs !! i = Some (n + foldr Z.add 0 (take i vs)).
Proof.
  revert n i. induction vs as [|v vs IH]; intros n i Hi; simpl in *.
  - replace i with O by lia. simpl. f_equal. lia.
  - destruct i as [|i]; simpl; [f_equal; lia|]. rewrite IH by lia. f_equal. lia.
Qed.

Lemma weight_take t i : foldr Z.add 0 (take i (token_units <$> t)) = weight (take i t).
Proof. revert i. induction t as [|c t IH]; intros [|i]; simpl; try done. by rewrite IH. Qed.

(** A slice's weight is one subtraction. *)
Lemma between_weight t a b : (a ≤ b ≤ length t)%nat → between (_weights t) a b = weight (slice t a b).
Proof.
  intros. unfold between, _weights. rewrite !accumulate_lookup by (rewrite length_fmap; lia). cbn [default].
  rewrite !weight_take. pose proof (weight_slice_split t 0 a b ltac:(lia)) as H1. unfold slice in *.
  rewrite !Nat.sub_0_r, !drop_0 in H1. simpl. lia.
Qed.

(** ** Units *)

Section bounded.
Context (t : text) (max_tokens : Z).

(** What is in a span of [l] is in a span of [l']. *)
Definition refines (l l' : list Span) : Prop :=
  ∀ s, s ∈ l → ∀ i, (s.1 ≤ i < s.2)%nat → ink_at t i → ∃ s', s' ∈ l' ∧ (s'.1 ≤ i < s'.2)%nat.

Lemma bounded_spans_refine lo hi spans :
  1 ≤ max_tokens → (hi ≤ length t)%nat → Forall (λ c, token_units c ≤ max_tokens * 4) t → ordered_spans lo hi spans →
  ∃ out, _bounded_spans t spans (_weights t) max_tokens = Ok out ∧ ordered_spans lo hi out ∧
         Forall (fits t (max_tokens * 4)) out ∧ refines spans out.
Proof.
  intros Hmax Hhi Hall. revert lo. induction spans as [|[a b] spans IH]; intros lo Hord; cbn [_bounded_spans].
  { exists []. split_and!; try done. by intros s ?%not_elem_of_nil. }
  destruct Hord as (Hlo & Hab & Hrest). pose proof (ordered_spans_le _ _ _ Hrest) as Hle.
  destruct (IH b Hrest) as (more & -> & Ho & Hf & Hr). rewrite between_weight by lia.
  assert (∃ ps, (if max_tokens * 4 <? weight (slice t a b) then _hard_split_spans t max_tokens a b else Ok [(a, b)]) = Ok ps ∧
                pieces t a b ps ∧ Forall (fits t (max_tokens * 4)) ps) as (ps & -> & [Hpo Hpc] & Hpf).
  { destruct (_ <? _) eqn:Hw.
    - apply hard_split_spans_spec; try done; lia.
    - eexists. split; [done|]. split; [by apply pieces_one|]. apply Z.ltb_ge in Hw. by repeat constructor. }
  simpl. exists (ps ++ more). split_and!; [done| |by apply Forall_app|].
  - eapply ordered_spans_app; [|done]. destruct ps as [|[x y] ps]; simpl in *; [lia|]. destruct Hpo as (? & ? & ?). split_and!; auto; lia.
  - intros s Hs i Hi Hk. apply elem_of_cons in Hs as [->|Hs].
    + destruct (Hpc i Hi Hk) as (s' & ? & ?). exists s'. set_solver.
    + destruct (Hr s Hs i Hi Hk) as (s' & ? & ?). exists s'. set_solver.
Qed.

Lemma bounded_spans_spec lo hi spans :
  1 ≤ max_tokens → (hi ≤ length t)%nat → Forall (λ c, token_units c ≤ max_tokens * 4) t → pieces t lo hi spans →
  ∃ out, _bounded_spans t spans (_weights t) max_tokens = Ok out ∧ pieces t lo hi out ∧ Forall (fits t (max_tokens * 4)) out.
Proof.
  intros Hmax Hhi Hall [Ho Hc]. destruct (bounded_spans_refine lo hi spans) as (out & ? & ? & ? & Hr); try done.
  exists out. split_and!; try done. split; [done|]. by eapply covers_refine.
Qed.

(** The pieces between separators of spaces. *)
Lemma segments_from_pieces r lo hi found :
  blank r → (lo ≤ hi)%nat → apart t r lo hi found → pieces t lo hi (segments_from t lo hi found).
Proof.
  intros Hb. revert lo. induction found as [|[a b] found IH]; intros lo Hle Hap; cbn [segments_from].
  - by apply trimmed_pieces.
  - destruct Hap as (? & ? & Hsp & Hap). eapply pieces_app; [apply trimmed_pieces; lia|].
    change (segments_from t b hi found) with ([] ++ segments_from t b hi found).
    eapply pieces_app; [apply (pieces_spaces t a b); [lia|by apply Hsp]|]. by apply IH.
Qed.

Lemma segments_pieces r lo hi : blank r → (lo ≤ hi)%nat → pieces t lo hi (_segments t r lo hi).
Proof. intros. apply (segments_from_pieces r); try done. by apply finditer_apart. Qed.
End bounded.

Lemma is_newline_space c : is_newline c = true → isspace c = true.
Proof. unfold is_newline. intros ->%bool_decide_eq_true_1. done. Qed.

Lemma line_break_blank : blank _LINE_BREAK.
Proof. by split; intros c ?%is_newline_space. Qed.

Lemma blank_line_blank : blank _BLANK_LINE.
Proof. repeat split; intros c; try done; apply is_newline_space. Qed.

Lemma sentence_break_blank : blank SENTENCE_BREAK.
Proof. repeat split; intros c; try done; apply is_newline_space. Qed.

#[export] Hint Resolve line_break_blank blank_line_blank sentence_break_blank : svc.

(** ** Packing *)

Lemma bisect_spec starts x n lo hi :
  StronglySorted lt starts → (hi - lo ≤ n)%nat → (lo ≤ hi ≤ length starts)%nat →
  (∀ k p, starts !! k = Some p → (hi ≤ k)%nat → (x < p)%nat) →
  ∀ p, p ∈ drop (bisect starts x n lo hi) starts → (x < p)%nat.
Proof.
  intros Hsort. revert lo hi. induction n as [|n IH]; intros lo hi Hn Hr Hhi p; cbn [bisect].
  - intros [k Hk]%list_elem_of_lookup. rewrite lookup_drop in Hk. eapply Hhi; [done|lia].
  - destruct (lo <? hi)%nat eqn:Hlt; [apply Nat.ltb_lt in Hlt|apply Nat.ltb_ge in Hlt].
    2: { intros [k Hk]%list_elem_of_lookup. rewrite lookup_drop in Hk. eapply Hhi; [done|lia]. }
    assert (lo ≤ Nat.div2 (lo + hi) < hi)%nat as Hmid.
    { rewrite Nat.div2_div. split; [apply Nat.div_le_lower_bound; lia|apply Nat.Div0.div_lt_upper_bound; lia]. }
    set (mid := Nat.div2 (lo + hi)) in *. destruct (lookup_lt_is_Some_2 starts mid ltac:(lia)) as [m Hm]. rewrite Hm. simpl.
    destruct (x <? m)%nat eqn:Hx; [|apply IH; [lia|lia|done]]. apply Nat.ltb_lt in Hx. apply IH; [lia|lia|].
    intros k q Hk Hge. destruct (decide (k = mid)) as [->|]; [by simplify_eq|].
    pose proof (StronglySorted_lookup _ _ _ _ _ _ Hsort Hm Hk ltac:(lia)). lia.
Qed.

Lemma bisect_right_spec starts x p : StronglySorted lt starts → p ∈ drop (bisect_right starts x) starts → (x < p)%nat.
Proof.
  intros Hs. apply bisect_spec; try done; try lia. intros k q Hk Hge. apply lookup_lt_Some in Hk. lia.
Qed.

Section pack.
Context (t : text) (budget overlap : Z) (starts : list nat).
Hypothesis starts_sorted : StronglySorted lt starts.

(** One part follows another: it begins and ends later, and the text they share
    weighs no more than the overlap. *)
Definition follows (p q : Span) : Prop :=
  (p.1 < q.1)%nat ∧ (p.2 < q.2)%nat ∧ ((q.1 < p.2)%nat → weight (slice t q.1 p.2) ≤ overlap).

(** A span lies whole in a part. *)
Definition whole_in (parts : list Span) (s : Span) : Prop := ∃ p, p ∈ parts ∧ (p.1 ≤ s.1)%nat ∧ (s.2 ≤ p.2)%nat.

Lemma overlap_point_spec last b points p :
  overlap_point (_weights t) budget overlap last b points = Some p → (last ≤ b ≤ length t)%nat →
  p ∈ points ∧ (p < last)%nat ∧ weight (slice t p last) ≤ overlap ∧ weight (slice t p b) ≤ budget.
Proof.
  intros H Hb. induction points as [|q points IH]; cbn [overlap_point] in H; [done|].
  destruct (last <=? q)%nat eqn:Hle; [done|]. apply Nat.leb_gt in Hle.
  rewrite !between_weight in H by lia. destruct (_ && _) eqn:Hc.
  - simplify_eq. apply andb_true_iff in Hc as [Ho%Z.leb_le Hb2%Z.leb_le]. split_and!; try done. by left.
  - destruct (IH H) as (? & ? & ? & ?). split_and!; try done. by right.
Qed.

Lemma pack_loop_head spans first last :
  ∃ last' rest, pack_loop (_weights t) budget overlap starts spans (Some (first, last)) = (first, last') :: rest.
Proof.
  revert first last. induction spans as [|[a b] spans IH]; intros first last; cbn [pack_loop]; [by exists last, []|].
  destruct (_ <? _); [by eauto|]. apply IH.
Qed.

Lemma pack_loop_spec spans first last lo hi :
  ordered_spans lo hi spans → (hi ≤ length t)%nat → Forall (fits t budget) spans →
  (first < last ≤ lo)%nat → fits t budget (first, last) →
  let out := pack_loop (_weights t) budget overlap starts spans (Some (first, last)) in
  Forall (fits t budget) out ∧ Forall (inside 0 hi) out ∧ Sorted follows out ∧
  Forall (λ p, (last ≤ p.2)%nat) out ∧ Forall (whole_in out) ((first, last) :: spans).
Proof.
  revert first last lo. induction spans as [|[a b] spans IH]; intros first last lo Hord Hhi Hfit Hfl Hcur; cbn [pack_loop].
  { simpl in Hord. simpl. split_and!; repeat constructor; simpl; try done; try lia.
    exists (first, last). split_and!; simpl; try lia. by left. }
  destruct Hord as (Hla & Hab & Hord). apply Forall_cons in Hfit as [Hf0 Hfit].
  pose proof (ordered_spans_le _ _ _ Hord) as Hbh. rewrite between_weight by lia. destruct (budget <? _) eqn:Hover.
  - set (next := if 0 =? overlap then None else overlap_point _ _ _ _ _ _).
    assert ((first < default a next ≤ a)%nat ∧ fits t budget (default a next, b) ∧
            ((default a next < last)%nat → weight (slice t (default a next) last) ≤ overlap)) as (Hn & Hnf & Hov).
    { destruct next as [p|] eqn:Hp; simpl; [|split_and!; try done; lia]. unfold next in Hp.
      destruct (0 =? overlap); [done|]. apply overlap_point_spec in Hp as (Hin & ? & ? & ?); [|lia].
      apply bisect_right_spec in Hin; [|done]. split_and!; try done; lia. }
    clearbody next. destruct (IH (default a next) b b) as (F1 & F2 & F3 & F4 & F5); try done; [lia|].
    split_and!.
    + by constructor.
    + constructor; [|done]. split_and!; simpl; lia.
    + constructor; [done|]. destruct (pack_loop_head spans (default a next) b) as (l' & rest & Hh).
      rewrite Hh in *. constructor. apply Forall_cons in F4 as [? _]. split_and!; simpl in *; lia.
    + constructor; [done|]. eapply Forall_impl; [exact F4|]. simpl. lia.
    + constructor; [|constructor].
      * exists (first, last). split_and!; simpl; try lia. by left.
      * apply Forall_cons in F5 as [(p & Hp & ? & ?) _]. exists p. simpl in *. split_and!; try lia. by right.
      * apply Forall_cons in F5 as [_ F5]. eapply Forall_impl; [exact F5|]. intros s (p & Hp & ? & ?). exists p. split_and!; try done. by right.
  - apply Z.ltb_ge in Hover. destruct (IH first b b) as (F1 & F2 & F3 & F4 & F5); try done; [lia|].
    split_and!; try done.
    + eapply Forall_impl; [exact F4|]. simpl. lia.
    + apply Forall_cons in F5 as [(p & Hp & Hp1 & Hp2) F5]. simpl in *.
      constructor; [|constructor; [|done]]; exists p; split_and!; simpl; try done; lia.
Qed.
End pack.

(** The parts of a split: each fits the budget, lies in the text, follows the one
    before it, and every character that is not a space is in one. *)
Record split_parts (t : text) (budget overlap : Z) (parts : list Span) : Prop := {
  parts_fit : Forall (fits t budget) parts;
  parts_inside : Forall (inside 0 (length t)) parts;
  parts_follow : Sorted (follows t overlap) parts;
  parts_cover : covers t 0 (length t) parts;
}.

Section splits.
Context (t : text) (max_tokens : Z).
Hypothesis holds_char : 4 ≤ max_tokens.

Lemma pack_spans_spec spans overlap_tokens starts :
  StronglySorted lt starts → pieces t 0 (length t) spans → Forall (fits t (max_tokens * 4)) spans →
  let out := _pack_spans spans (_weights t) max_tokens overlap_tokens starts in
  split_parts t (max_tokens * 4) (overlap_tokens * 4) out ∧ Forall (whole_in out) spans.
Proof.
  intros Hst [Hord Hcov] Hfit. destruct spans as [|[a b] spans]; simpl.
  { split; [|done]. by split. }
  destruct Hord as (_ & Hab & Hord). apply Forall_cons in Hfit as [Hf0 Hfit].
  pose proof (ordered_spans_le _ _ _ Hord).
  destruct (pack_loop_spec t (max_tokens * 4) (overlap_tokens * 4) starts Hst spans a b b (length t))
    as (F1 & F2 & F3 & _ & F5); try done.
  unfold _pack_spans. cbn [pack_loop]. split; [|done]. split; try done.
  eapply covers_refine; [exact Hcov|]. intros s Hs i Hi _. rewrite Forall_forall in F5.
  destruct (F5 s Hs) as (p & ? & ? & ?). exists p. split; [done|lia].
Qed.

Lemma ordered_spans_starts lo hi l :
  ordered_spans lo hi l → StronglySorted lt l.*1 ∧ Forall (λ p, (lo ≤ p < hi)%nat) l.*1.
Proof.
  revert lo. induction l as [|[a b] l IH]; intros lo; simpl; [by split; constructor|].
  intros (? & ? & H). pose proof (ordered_spans_le _ _ _ H). destruct (IH _ H) as [Hs Hf]. split; constructor; try done; try lia.
  - eapply Forall_impl; [exact Hf|]. simpl. lia.
  - eapply Forall_impl; [exact Hf|]. simpl. lia.
Qed.

(** The units of the lines: a line that fits is one unit. *)
Lemma sentence_units_spec lo hi lines :
  (hi ≤ length t)%nat → ordered_spans lo hi lines →
  ∃ units starts, sentence_units t max_tokens (_weights t) lines = Ok (units, starts) ∧
    ordered_spans lo hi units ∧ Forall (fits t (max_tokens * 4)) units ∧ refines t lines units ∧
    StronglySorted lt starts ∧ Forall (λ p, (lo ≤ p < hi)%nat) starts ∧
    (∀ s, s ∈ lines → fits t (max_tokens * 4) s → s ∈ units).
Proof.
  intros Hhi. revert lo. induction lines as [|[a b] lines IH]; intros lo Hord; cbn [sentence_units].
  { exists [], []. split_and!; try done; try constructor; by intros s ?%not_elem_of_nil. }
  destruct Hord as (Hlo & Hab & Hord). pose proof (ordered_spans_le _ _ _ Hord).
  destruct (IH b Hord) as (units & starts & -> & Ho & Hf & Hr & Hs & Hb & Hw).
  destruct (bounded_spans_spec t max_tokens a b (_segments t SENTENCE_BREAK a b)) as (sentences & -> & [Hso Hsc] & Hsf);
    [lia|lia|by apply holds_any|apply segments_pieces; auto with svc; lia|].
  rewrite between_weight by lia. simpl.
  destruct (ordered_spans_starts _ _ _ Hso) as [Hss Hsb].
  assert (ordered_spans a b (if weight (slice t a b) <=? max_tokens * 4 then [(a, b)] else sentences) ∧
          Forall (fits t (max_tokens * 4)) (if weight (slice t a b) <=? max_tokens * 4 then [(a, b)] else sentences) ∧
          refines t [(a, b)] (if weight (slice t a b) <=? max_tokens * 4 then [(a, b)] else sentences)) as (Uo & Uf & Ur).
  { destruct (_ <=? _) eqn:Hle.
    - apply Z.leb_le in Hle. split_and!; [simpl; lia|by repeat constructor|]. intros s Hs' i ? _. by exists s.
    - split_and!; try done. intros s ->%list_elem_of_singleton i Hi Hk. by apply Hsc. }
  do 2 eexists. split; [done|]. split_and!.
  - apply (ordered_spans_app lo b); [|done]. destruct (if _ : bool then _ else _) as [|[x y] us]; simpl in *; [lia|].
    destruct Uo as (? & ? & ?). split_and!; auto; lia.
  - by apply Forall_app.
  - intros s Hs' i Hi Hk. apply elem_of_cons in Hs' as [->|Hs'].
    + destruct (Ur (a, b) ltac:(set_solver) i Hi Hk) as (s' & ? & ?). exists s'. split; [|done]. apply elem_of_app. by left.
    + destruct (Hr s Hs' i Hi Hk) as (s' & ? & ?). exists s'. split; [|done]. apply elem_of_app. by right.
  - apply StronglySorted_app_2; [|done|done]. intros x y Hx Hy. rewrite Forall_forall in Hsb, Hb.
    specialize (Hsb _ Hx). specialize (Hb _ Hy). lia.
  - apply Forall_app. split; (eapply Forall_impl; [eassumption|]); simpl; lia.
  - intros s Hs' Hfs. apply elem_of_app. apply elem_of_cons in Hs' as [->|Hs']; [left|right; by apply Hw].
    unfold fits in Hfs. simpl in Hfs. replace (weight (slice t a b) <=? max_tokens * 4) with true by lia. by left.
Qed.

Lemma split_sentence_spans_spec overlap_tokens :
  ∃ parts, _split_sentence_spans t max_tokens overlap_tokens = Ok parts ∧
    split_parts t (max_tokens * 4) (overlap_tokens * 4) parts ∧
    (∀ line, line ∈ _segments t _LINE_BREAK 0 (length t) → fits t (max_tokens * 4) line → whole_in parts line).
Proof.
  destruct (segments_pieces t _LINE_BREAK 0 (length t)) as [Hlo Hlc]; [auto with svc|lia|].
  destruct (sentence_units_spec 0 (length t) _ ltac:(lia) Hlo) as (units & starts & Hu & Ho & Hf & Hr & Hs & _ & Hw).
  unfold _split_sentence_spans. rewrite Hu. simpl. eexists. split; [done|].
  destruct (pack_spans_spec units overlap_tokens starts Hs) as [Hp Hin].
  { split; [done|]. by eapply covers_refine. }
  { done. }
  split; [done|]. intros line Hl Hfl. rewrite Forall_forall in Hin. by apply Hin, Hw.
Qed.

Lemma split_code_spans_spec :
  ∃ parts, _split_code_spans t max_tokens = Ok parts ∧ split_parts t (max_tokens * 4) 0 parts.
Proof.
  unfold _split_code_spans.
  destruct (bounded_spans_spec t max_tokens 0 (length t) (_segments t _BLANK_LINE 0 (length t))) as (blocks & -> & Hp & Hf);
    [lia|lia|by apply holds_any|apply segments_pieces; auto with svc; lia|].
  simpl. eexists. split; [done|]. change 0 with (0 * 4). by apply pack_spans_spec; [constructor|..].
Qed.
End splits.

(** ** The ink of pieces *)

Lemma pieces_ink t lo hi spans :
  pieces t lo hi spans → (hi ≤ length t)%nat → ink (concat (slices t spans)) = ink (slice t lo hi).
Proof.
  revert lo. induction spans as [|[a b] spans IH]; intros lo [Hord Hcov] Hhi; simpl in *.
  - rewrite spaces_ink; [done|]. intros i Hi. destruct (space_at t i) eqn:Hs; [done|].
    destruct (Hcov i) as (s & Hs' & _); [lia|apply not_space_ink; [lia|done]|by apply not_elem_of_nil in Hs'].
  - destruct Hord as (? & ? & Hord). pose proof (ordered_spans_le _ _ _ Hord).
    rewrite (slice_split t lo a hi), (slice_split t a b hi), !ink_app by lia.
    rewrite (spaces_ink t lo a); [|intros i Hi]; simpl; [f_equal; apply IH; [split; [done|]|done]|].
    + intros i Hi Hk. destruct (Hcov i) as (s & Hs & ?); [lia|done|]. apply elem_of_cons in Hs as [->|Hs]; [simpl in *; lia|by exists s].
    + destruct (space_at t i) eqn:Hs; [done|].
      destruct (Hcov i) as (s & Hin & ?); [lia|apply not_space_ink; [lia|done]|].
      apply (ordered_spans_inside lo hi _ s) in Hin as Hins; [|simpl; auto].
      apply elem_of_cons in Hin as [->|Hin]; [simpl in *; lia|].
      destruct (ordered_spans_inside _ _ _ _ Hord Hin) as (? & ? & ?). lia.
Qed.

(** Every span of a hard split begins with a character that is not a space. *)
Definition begins (t : text) (s : Span) : Prop := space_at t s.1 = false.

Lemma emit_begins t spans a b : Forall (begins t) spans → Forall (begins t) (emit t spans a b).
Proof.
  intros Hs. unfold emit. apply Forall_app. split; [done|]. destruct (_trimmed t a b) as [s|] eqn:Ht; [|done]. repeat constructor.
  destruct (decide (a ≤ b)%nat); [by apply (trimmed_ink_ends t a b)|]. unfold _trimmed in Ht.
  replace (b - a)%nat with O in Ht by lia. simpl in Ht. replace (b - a)%nat with O in Ht by lia. simpl in Ht. case_match; simplify_eq.
  match goal with Hx : (_ <? _)%nat = true |- _ => apply Nat.ltb_lt in Hx end. lia.
Qed.

Lemma make_room_begins t max_tokens cost index n st :
  Forall (begins t) (hs_spans st) → Forall (begins t) (hs_spans (make_room t max_tokens cost index n st)).
Proof.
  revert st. induction n as [|n IH]; intros st Hs; cbn [make_room]; [done|]. destruct (_ && _); [|done]. apply IH. by apply emit_begins.
Qed.

Lemma hard_loop_begins t max_tokens n index st st' :
  Forall (begins t) (hs_spans st) → hard_loop t max_tokens n index st = Ok st' → Forall (begins t) (hs_spans st').
Proof.
  revert index st. induction n as [|n IH]; intros index st Hs; cbn [hard_loop]; [by intros [= <-]|].
  unfold hard_step. destruct (t !! index) as [c|]; [|done]. destruct (_ <? _); [done|]. simpl. apply IH. by apply make_room_begins.
Qed.

Lemma hard_split_begins t max_tokens lo hi spans : _hard_split_spans t max_tokens lo hi = Ok spans → Forall (begins t) spans.
Proof.
  unfold _hard_split_spans. destruct (_ <? _); [done|]. destruct (hard_loop _ _ _ _ _) as [st|e] eqn:Hl; [|done].
  intros [= <-]. apply emit_begins. by eapply hard_loop_begins; [|exact Hl].
Qed.

Lemma begins_says t s : begins t s → inside 0 (length t) s → ink (slice t s.1 s.2) ≠ [].
Proof.
  intros Hb (_ & Hlt & Hle). apply not_space_ink in Hb as (c & Hc & Hs); [|lia].
  intros Hn. assert (c ∈ ink (slice t s.1 s.2)) as Hin; [|rewrite Hn in Hin; by apply not_elem_of_nil in Hin].
  apply list_elem_of_filter. split; [done|]. unfold slice. apply list_elem_of_lookup. exists O.
  rewrite lookup_take_lt by lia. rewrite lookup_drop. by rewrite Nat.add_0_r.
Qed.

(** A hard split loses no character that is not a space and repeats none, and every
    part of it says something. *)
Lemma hard_split_spec t max_tokens :
  4 ≤ max_tokens →
  ∃ parts, _hard_split t max_tokens = Ok parts ∧ ink (concat parts) = ink t ∧ Forall (λ p, weight p ≤ max_tokens * 4) parts ∧
    Forall (λ p, ink p ≠ []) parts.
Proof.
  intros Hm. unfold _hard_split.
  destruct (hard_split_spans_spec t max_tokens 0 (length t)) as (spans & Hspans & Hp & Hf); [lia|lia|by apply holds_any|].
  rewrite Hspans. simpl. eexists. split; [done|]. split_and!.
  - rewrite (pieces_ink t 0 (length t)) by (done || lia). by rewrite slice_all.
  - apply Forall_fmap. exact Hf.
  - apply Forall_fmap, Forall_forall. intros s Hs. pose proof (hard_split_begins _ _ _ _ _ Hspans) as Hb. rewrite Forall_forall in Hb.
    apply begins_says; [by apply Hb|]. by apply (ordered_spans_inside 0 (length t) spans); [apply Hp|].
Qed.

(** ** Tables *)

Section pack_units.
Context (max_tokens : Z) (separator prefix : text).
Hypothesis sep_blank : ink separator = [].

Abbreviation make := (λ body, prefix ++ join separator body).

(** The parts are the prefix and the fragments so far, in order. *)
Record up_inv (done_ : list text) (st : unit_packing) : Prop := {
  up_bodies : ∃ bodies, up_parts st = make <$> bodies ∧ concat bodies ++ up_current st = done_ ∧ Forall (λ b, b ≠ []) bodies;
  up_fit : Forall (λ p, weight p ≤ max_tokens * 4) (up_parts st);
  up_weighed : up_weight st = weight (make (up_current st));
  up_budget : up_weight st ≤ max_tokens * 4;
}.

Lemma weight_join_snoc l f : weight (join separator (l ++ [f])) = weight (join separator l) + sep_weight separator l + weight f.
Proof.
  induction l as [|p l IH]; [simpl; lia|]. destruct l as [|q l]; [simpl; rewrite !weight_app; lia|].
  change (((p :: q :: l) ++ [f])) with (p :: ((q :: l) ++ [f])). cbn [join app] in *. rewrite !weight_app, IH. cbn [sep_weight]. lia.
Qed.

Lemma flush_inv done_ st : up_current st ≠ [] → up_inv done_ st → up_inv done_ {| up_parts := flushed separator prefix st; up_current := []; up_weight := weight prefix |}.
Proof.
  intros Hcur [(bodies & Hb & Hd & Hn) Hf Hw Hbud]. split; cbn [up_parts up_current up_weight].
  - exists (bodies ++ [up_current st]). unfold flushed. rewrite Hb, fmap_app. split_and!; [done| |by apply Forall_app; split; [|constructor]].
    by rewrite concat_app, app_nil_r; simpl; rewrite app_nil_r.
  - apply Forall_app. split; [done|]. constructor; [|done]. lia.
  - by rewrite app_nil_r.
  - rewrite Hw, weight_app in Hbud. pose proof (weight_nonneg (join separator (up_current st))). lia.
Qed.

Lemma add_fragment_inv done_ st f :
  weight prefix + weight f ≤ max_tokens * 4 → up_inv done_ st → up_inv (done_ ++ [f]) (add_fragment max_tokens separator prefix st f).
Proof.
  intros Hfits Hinv. unfold add_fragment.
  set (st1 := if _ : bool then _ else st).
  assert (up_inv done_ st1 ∧ up_weight st1 + (weight f + sep_weight separator (up_current st1)) ≤ max_tokens * 4) as [Hinv1 Hb].
  { unfold st1. destruct (_ && _) eqn:Hc; [split; [apply flush_inv; [|done]; by apply andb_true_iff in Hc as [?%bool_decide_eq_true _]|cbn; lia]|]. split; [done|].
    apply andb_false_iff in Hc as [Hc%bool_decide_eq_false_1|Hc%Z.ltb_ge]; [|done]. apply dec_stable in Hc.
    rewrite Hc. rewrite (up_weighed _ _ Hinv), Hc, app_nil_r. simpl. lia. }
  clearbody st1. destruct Hinv1 as [(bodies & Hp & Hd & Hn) Hf Hw _]. split; cbn [up_parts up_current up_weight]; try done.
  - exists bodies. split_and!; [done| |done]. by rewrite app_assoc, Hd.
  - rewrite Hw, !weight_app, weight_join_snoc. lia.
Qed.

Lemma add_fragments_inv fs done_ st :
  Forall (λ f, weight prefix + weight f ≤ max_tokens * 4) fs → up_inv done_ st →
  up_inv (done_ ++ fs) (foldl (add_fragment max_tokens separator prefix) st fs).
Proof.
  intros Hfs. revert done_ st. induction Hfs as [|f fs Hf _ IH]; intros done_ st Hinv; simpl; [by rewrite app_nil_r|].
  change (f :: fs) with ([f] ++ fs). rewrite app_assoc. by apply IH, add_fragment_inv.
Qed.

Lemma add_units_inv units done_ st :
  4 ≤ (max_tokens * 4 - weight prefix) / 4 → up_inv done_ st →
  ∃ st' fs, add_units max_tokens separator prefix units st = Ok st' ∧ up_inv (done_ ++ fs) st' ∧ ink (concat fs) = ink (concat units) ∧
    Forall (λ f, ink f ≠ []) fs.
Proof.
  intros Hav. revert done_ st. induction units as [|u units IH]; intros done_ st Hinv; cbn [add_units].
  - exists st, []. by rewrite app_nil_r.
  - destruct (hard_split_spec u _ Hav) as (fs & -> & Hink & Hfs & Hsay). simpl.
    edestruct (IH (done_ ++ fs)) as (st' & fs' & Hok & Hinv' & Hink' & Hsay').
    { apply add_fragments_inv; [|exact Hinv]. eapply Forall_impl; [exact Hfs|]. simpl. intros f Hf.
      pose proof (Z.mul_div_le (max_tokens * 4 - weight prefix) 4). lia. }
    exists st', (fs ++ fs'). split_and!; [done|by rewrite app_assoc| |by apply Forall_app]. by rewrite concat_app, !ink_app, Hink, Hink'.
Qed.

(** Shares of fragments that say something say something. *)
Lemma bodies_say (bodies : list (list text)) : Forall (λ b, b ≠ []) bodies → Forall (λ f, ink f ≠ []) (concat bodies) →
  Forall (λ b, ink (join separator b) ≠ []) bodies.
Proof.
  intros Hn Hs. apply Forall_forall. intros b Hb. rewrite Forall_forall in Hn. specialize (Hn b Hb). rewrite join_ink by done.
  destruct b as [|f b]; [done|]. cbn [concat]. rewrite ink_app. intros [Hf _]%app_nil. rewrite Forall_forall in Hs. apply (Hs f); [|done].
  apply list_elem_of_In, in_concat. exists (f :: b). split; [by apply list_elem_of_In|by left].
Qed.

(** Units are packed after the prefix, none of them lost. *)
Lemma pack_units_spec units :
  4 ≤ (max_tokens * 4 - weight prefix) / 4 →
  ∃ bodies, _pack_units max_tokens separator prefix units = Ok (make <$> bodies) ∧
    Forall (λ p, weight p ≤ max_tokens * 4) (make <$> bodies) ∧
    ink (concat (join separator <$> bodies)) = ink (concat units) ∧ Forall (λ b, ink (join separator b) ≠ []) bodies.
Proof.
  intros Hav. unfold _pack_units.
  destruct (add_units_inv units [] {| up_parts := []; up_current := []; up_weight := weight prefix |} Hav)
    as (st & fs & -> & [(bodies & Hb & Hd & Hn) Hf Hw Hbud] & Hink & Hsay).
  { split; cbn [up_parts up_current up_weight]; try done; [by exists []|by rewrite app_nil_r|].
    pose proof (Z.mul_div_le (max_tokens * 4 - weight prefix) 4). lia. }
  assert (∀ l : list (list text), ink (concat (join separator <$> l)) = ink (concat (concat l))) as Hj.
  { induction l as [|b l IH]; [done|]. rewrite fmap_cons. cbn [concat]. by rewrite concat_app, !ink_app, join_ink, IH. }
  cbn [obind app] in *. destruct (up_current st) as [|c cur] eqn:Hcur.
  - exists bodies. rewrite <- Hb, Hj. rewrite app_nil_r in Hd. rewrite Hd. split_and!; try done. apply bodies_say; [done|by rewrite Hd].
  - assert (concat (bodies ++ [c :: cur]) = fs) as Hcat by (rewrite concat_app; simpl; by rewrite app_nil_r).
    exists (bodies ++ [c :: cur]). rewrite Hj, Hcat. unfold flushed. rewrite Hb, Hcur, fmap_app. split_and!; [done| |done|].
    2: { apply bodies_say; [by apply Forall_app; split; [|constructor]|by rewrite Hcat]. }
    simpl. rewrite <- Hb. apply Forall_app. split; [done|].
    constructor; [|done]. change (weight (prefix ++ join separator (c :: cur)) ≤ max_tokens * 4). lia.
Qed.
End pack_units.

(** Whether the parts of a table repeat its header rows: it has other rows and its
    header leaves room for them. *)
Definition header_fits (t : text) (max_tokens : Z) : bool :=
  let rows := split_on newline t in
  (3 <=? length rows)%nat && (weight (join [newline] (take (header_rows rows) rows) ++ [newline]) + 16 <=? max_tokens * 4).

(** What the parts of a table that is over the budget say. With [header_fits] the
    other rows are shared out: the header rows come before each share, every share
    says something, and together they say what the other rows say. *)
Definition says_rows (t : text) (max_tokens : Z) (parts : text) : Prop :=
  let rows := split_on newline t in
  if header_fits t max_tokens then
    ∃ shares, Forall (λ share, ink share ≠ []) shares ∧
      ink parts = concat ((λ share, ink (concat (take (header_rows rows) rows)) ++ ink share) <$> shares) ∧
      ink (concat shares) = ink (concat (drop (header_rows rows) rows))
  else ink parts = ink t.

(** A table is split into parts within the budget. *)
Lemma split_table_spec t max_tokens :
  4 ≤ max_tokens →
  ∃ parts, _split_table t max_tokens = Ok parts ∧ Forall (λ p, weight p ≤ max_tokens * 4) parts ∧ says_rows t max_tokens (concat parts).
Proof.
  intros Hm. unfold _split_table, says_rows, header_fits.
  destruct (hard_split_spec t max_tokens Hm) as (ps & Hps & Hink & Hw & _). set (rows := split_on newline t).
  destruct (_ <? 3)%nat eqn:H3.
  { exists ps. apply Nat.ltb_lt in H3. by replace (3 <=? length rows)%nat with false by (symmetry; apply Nat.leb_gt; lia). }
  apply Nat.ltb_ge in H3. replace (3 <=? length rows)%nat with true by (symmetry; by apply Nat.leb_le). set (k := header_rows rows).
  destruct (_ <? _) eqn:Hb.
  { exists ps. apply Z.ltb_lt in Hb. rewrite (proj2 (Z.leb_gt _ _)) by lia. done. }
  apply Z.ltb_ge in Hb. rewrite (proj2 (Z.leb_le _ _)) by lia. simpl.
  destruct (pack_units_spec max_tokens [newline] (join [newline] (take k rows) ++ [newline]) eq_refl (drop k rows))
    as (bodies & -> & Hf & Hi & Hs); [apply Z.div_le_lower_bound; lia|].
  eexists. split_and!; [done|done|]. exists (join [newline] <$> bodies). split_and!; [by apply Forall_fmap| |done].
  clear. induction bodies as [|b bs IH]; [done|]. rewrite !fmap_cons. cbn [concat]. rewrite ink_app, IH, !ink_app, join_ink by done. simpl.
  by rewrite app_nil_r.
Qed.

(** ** Merging tiny parts *)

Lemma Forall_snoc {A} (P : A → Prop) l x : Forall P l → P x → Forall P (l ++ [x]).
Proof. intros. apply Forall_app. by split; [|constructor]. Qed.

Section merging.
Context (t : text) (max_tokens min_tokens : Z).

Abbreviation light := (λ p : Part, estimate_tokens p.1 ≤ max_tokens).

Lemma merge_part_light merged part :
  Forall light merged → light part → Forall light (merge_part t max_tokens min_tokens merged part).
Proof.
  intros Hm Hp. unfold merge_part. destruct (last merged); [|by apply Forall_snoc].
  destruct (_ && _) eqn:Hc; [|by apply Forall_snoc].
  apply andb_true_iff in Hc as [_ Hc%Z.leb_le]. apply Forall_snoc; [by apply Forall_take|done].
Qed.

Lemma merge_parts_light parts : Forall light parts → Forall light (merge_parts t parts max_tokens min_tokens).
Proof.
  unfold merge_parts. assert (Forall light []) as Hacc by constructor. revert Hacc. generalize (@nil Part).
  intros acc Hacc Hp. revert acc Hacc. induction Hp as [|p parts Hp _ IH]; intros acc Hacc; simpl; [done|].
  by apply IH, merge_part_light.
Qed.

Lemma take_last_snoc {A} (l : list A) x : last l = Some x → l = take (pred (length l)) l ++ [x].
Proof.
  intros [l' ->]%last_Some. rewrite length_app. simpl. replace (pred (length l' + 1)) with (length l') by lia.
  by rewrite take_app_length.
Qed.

(** Where no part is a span, merging keeps every character a reader sees. *)
Lemma merge_part_ink merged part :
  Forall (λ p : Part, p.2 = None) merged → part.2 = None →
  let merged' := merge_part t max_tokens min_tokens merged part in
  Forall (λ p : Part, p.2 = None) merged' ∧ ink (concat merged'.*1) = ink (concat (merged.*1 ++ [part.1])).
Proof.
  intros Hm Hp. unfold merge_part.
  assert (Forall (λ p : Part, p.2 = None) (merged ++ [part]) ∧
          ink (concat (merged ++ [part]).*1) = ink (concat (merged.*1 ++ [part.1]))) as Happend.
  { rewrite fmap_app. split; [|done]. by apply Forall_snoc. }
  destruct (last merged) as [[pt po]|] eqn:Hl; [|done]. destruct (_ && _); [clear Happend|done].
  apply take_last_snoc in Hl. set (init := take (pred (length merged)) merged) in *. clearbody init. subst merged.
  apply Forall_app in Hm as [Hi Hpo]. rewrite Forall_singleton in Hpo. simpl in Hpo. subst po. split.
  - by apply Forall_snoc; [|unfold joined_part].
  - rewrite !fmap_app, !concat_app, !ink_app. unfold joined_part. simpl. by rewrite !app_nil_r, !ink_app, <- app_assoc.
Qed.

Lemma merge_parts_ink parts :
  Forall (λ p : Part, p.2 = None) parts →
  ink (concat (merge_parts t parts max_tokens min_tokens).*1) = ink (concat parts.*1).
Proof.
  unfold merge_parts. intros Hp.
  assert (∀ acc, Forall (λ p : Part, p.2 = None) acc →
    ink (concat (foldl (merge_part t max_tokens min_tokens) acc parts).*1) = ink (concat (acc.*1 ++ parts.*1))) as H; [|by rewrite H].
  induction Hp as [|p parts Hp Hps IH]; intros acc Hacc; simpl; [by rewrite app_nil_r|].
  destruct (merge_part_ink acc p Hacc Hp) as [Hacc' Hink]. rewrite IH by done.
  rewrite concat_app, ink_app, Hink, !concat_app, !ink_app. simpl. by rewrite app_nil_r, ink_app, <- app_assoc.
Qed.

(** One part that is a slice, merged or added. *)
Lemma merge_part_span lo hi l s :
  inside lo hi s → Forall (inside lo hi) l → (∀ p, last l = Some p → (p.1 ≤ s.1)%nat ∧ (p.2 ≤ s.2)%nat) →
  ∃ l1 p1, merge_part t max_tokens min_tokens (spans_parts t l) (slice t s.1 s.2, Some s) = spans_parts t (l1 ++ [p1]) ∧
    Forall (inside lo hi) (l1 ++ [p1]) ∧ Forall (whole_in (l1 ++ [p1])) (l ++ [s]) ∧ (p1.1 ≤ s.1)%nat ∧ p1.2 = s.2.
Proof.
  intros Hs Hl Hlast. unfold merge_part. replace (last (spans_parts t l)) with ((λ s, (slice t s.1 s.2, Some s)) <$> last l)
    by (unfold spans_parts; by rewrite fmap_last).
  destruct (last l) as [[a x]|] eqn:Hl0; cbn [fmap option_fmap option_map].
  2: { exists l, s. split_and!; try done; [by unfold spans_parts; rewrite fmap_app|by apply Forall_snoc|].
       apply Forall_forall. intros y Hy. by exists y. }
  destruct (_ && _).
  2: { exists l, s. split_and!; try done; [by unfold spans_parts; rewrite fmap_app|by apply Forall_snoc|].
       apply Forall_forall. intros y Hy. by exists y. }
  destruct (Hlast (a, x) eq_refl) as [Ha Hx]. apply take_last_snoc in Hl0. replace (length (spans_parts t l)) with (length l) by (unfold spans_parts; by rewrite length_fmap).
  set (init := take (pred (length l)) l) in *. exists init, (a, s.2). destruct s as [sa sb]. simpl in *.
  rewrite Hl0 in Hl. apply Forall_app in Hl as [Hi Hax]. rewrite Forall_singleton in Hax. split_and!; try done.
  - unfold init, spans_parts. by rewrite fmap_app, fmap_take.
  - apply Forall_snoc; [done|]. unfold inside in *. simpl in *. lia.
  - rewrite Hl0. rewrite <- app_assoc. apply Forall_app. split.
    + apply Forall_forall. intros y Hy. exists y. split; [|done]. apply elem_of_app. by left.
    + repeat constructor; exists (a, sb); simpl; (split; [|lia]); apply elem_of_app; right; by left.
Qed.

Lemma whole_in_trans l l1 l2 : Forall (whole_in l1) l → Forall (whole_in l2) l1 → Forall (whole_in l2) l.
Proof.
  intros H1 H2. eapply Forall_impl; [exact H1|]. intros x (p & Hp & ? & ?).
  rewrite Forall_forall in H2. destruct (H2 p Hp) as (q & ? & ? & ?). exists q. split_and!; try done; lia.
Qed.

(** The parts that are slices, merged: each is whole in a merged one. *)
Lemma merge_spans lo hi spans l overlap :
  Sorted (follows t overlap) spans → Forall (inside lo hi) spans → Forall (inside lo hi) l →
  (∀ p s, last l = Some p → head spans = Some s → (p.1 ≤ s.1)%nat ∧ (p.2 ≤ s.2)%nat) →
  ∃ l', foldl (merge_part t max_tokens min_tokens) (spans_parts t l) (spans_parts t spans) = spans_parts t l' ∧
        Forall (inside lo hi) l' ∧ Forall (whole_in l') (l ++ spans).
Proof.
  intros Hs. revert l. induction Hs as [|s spans Hs IH Hhd]; intros l Hin Hl Hlast; simpl.
  { exists l. split_and!; try done. rewrite app_nil_r. apply Forall_forall. intros s Hs. by exists s. }
  apply Forall_cons in Hin as [Hs0 Hin].
  destruct (merge_part_span lo hi l s Hs0 Hl) as (l1 & p1 & -> & Hi1 & Hw1 & Hp1 & Hp2); [by intros p ?; apply Hlast|].
  destruct (IH (l1 ++ [p1])) as (l' & -> & Hi' & Hw'); [done|done| |].
  { intros p s'. rewrite last_snoc. intros [= <-] Hh. destruct spans as [|s2 spans]; simplify_eq/=.
    inversion Hhd as [|? ? (? & ? & _)]. lia. }
  exists l'. split_and!; try done. apply Forall_app in Hw' as [Hw' Hrest].
  change (s :: spans) with ([s] ++ spans). rewrite app_assoc. apply Forall_app. split; [|done]. by eapply whole_in_trans.
Qed.
End merging.

(** ** The parts of a node *)

Lemma estimate_le a b : weight a ≤ weight b → estimate_tokens a ≤ estimate_tokens b.
Proof. intros. rewrite !estimate_tokens_weight. pose proof (Z.div_le_mono (weight a) (weight b) 4). lia. Qed.

Lemma weight_slice_le t a b : (a ≤ b ≤ length t)%nat → weight (slice t a b) ≤ weight t.
Proof.
  intros. rewrite <- (slice_all t) at 2. rewrite (weight_slice_split t 0 a (length t)), (weight_slice_split t a b (length t)) by lia.
  pose proof (weight_nonneg (slice t 0 a)). pose proof (weight_nonneg (slice t b (length t))). lia.
Qed.

(** A node's text as slices of it: they lie in it and hold all it says. *)
Definition kept_by (t : text) (spans : list Span) : Prop := Forall (inside 0 (length t)) spans ∧ covers t 0 (length t) spans.

(** The parts of a node that is no table, or fits. *)
Lemma node_parts_spec node max_tokens overlap_tokens :
  4 ≤ max_tokens → representation node ≠ TABLE →
  ∃ spans overlap, _node_parts node max_tokens overlap_tokens = Ok (spans_parts (n_text node) spans) ∧
    kept_by (n_text node) spans ∧ Sorted (follows (n_text node) overlap) spans ∧
    Forall (λ p : Part, estimate_tokens p.1 ≤ max_tokens) (spans_parts (n_text node) spans).
Proof.
  intros Hm Hrep. unfold _node_parts. set (t := n_text node). rewrite (bool_decide_eq_false_2 _ Hrep).
  assert (∀ spans overlap, split_parts t (max_tokens * 4) overlap spans →
    kept_by t spans ∧ Sorted (follows t overlap) spans ∧ Forall (λ p : Part, estimate_tokens p.1 ≤ max_tokens) (spans_parts t spans)) as H.
  { intros spans overlap [Hf Hi Hs Hc]. split_and!; try done. apply Forall_fmap. eapply Forall_impl; [exact Hf|].
    intros s Hs'. apply weight_estimate; [lia|done]. }
  destruct (estimate_tokens t <=? max_tokens) eqn:He.
  - apply Z.leb_le in He. exists (option_list (_trimmed t 0 (length t))), 0. split; [done|].
    destruct (trimmed_pieces t 0 (length t)) as [Ho Hc]; [lia|]. split_and!; [split; [|done]| |].
    + apply Forall_forall. intros s Hs. by eapply ordered_spans_inside.
    + destruct (_trimmed _ _ _); repeat constructor.
    + destruct (_trimmed t 0 (length t)) as [[a b]|] eqn:Ht; [|constructor]. repeat constructor. simpl.
      etransitivity; [|exact He]. apply estimate_le. apply trimmed_inside in Ht as ((? & ? & ?) & _); [|lia]. simpl in *.
      apply weight_slice_le. lia.
  - destruct (bool_decide _); simpl.
    + destruct (split_code_spans_spec t max_tokens Hm) as (spans & -> & Hp). eexists _, _. split; [done|]. by eapply H.
    + destruct (split_sentence_spans_spec t max_tokens Hm overlap_tokens) as (spans & -> & Hp & _). eexists _, _. split; [done|]. by eapply H.
Qed.

(** After the merge they are still slices that hold all the text. *)
Lemma merged_parts_spec node max_tokens min_tokens overlap_tokens :
  4 ≤ max_tokens → representation node ≠ TABLE →
  ∃ parts spans, _node_parts node max_tokens overlap_tokens = Ok parts ∧
    _merge_tiny node parts max_tokens min_tokens = slices (n_text node) spans ∧ kept_by (n_text node) spans ∧
    Forall (λ s, estimate_tokens s ≤ max_tokens) (slices (n_text node) spans).
Proof.
  intros Hm Hrep. destruct (node_parts_spec node max_tokens overlap_tokens Hm Hrep) as (spans & overlap & -> & [Hi Hc] & Hs & Hl).
  destruct (merge_spans (n_text node) max_tokens min_tokens 0 (length (n_text node)) spans [] overlap Hs Hi) as (l' & He & Hi' & Hw);
    [done|done|].
  assert ((spans_parts (n_text node) l').*1 = slices (n_text node) l') as Hfst.
  { unfold spans_parts, slices. by rewrite <- list_fmap_compose. }
  apply (merge_parts_light (n_text node) max_tokens min_tokens) in Hl. unfold merge_parts in Hl.
  change (spans_parts (n_text node) []) with (@nil Part) in He. rewrite He in Hl.
  eexists _, l'. split; [done|]. split_and!.
  - unfold _merge_tiny, merge_parts. by rewrite He.
  - split; [done|]. eapply covers_refine; [exact Hc|]. intros s Hs' i Hr _. simpl in Hw. rewrite Forall_forall in Hw.
    destruct (Hw s Hs') as (p & ? & ? & ?). exists p. split; [done|lia].
  - rewrite <- Hfst. by apply Forall_fmap.
Qed.

Lemma lstrip_nil t : lstrip t = [] → ink t = [].
Proof. destruct (lstrip_suffix t) as (a & Ht & Ha). intros Hn. rewrite Ht, Hn, app_nil_r. by apply ink_spaces. Qed.

Lemma ink_reverse t : ink (reverse t) = reverse (ink t).
Proof. apply filter_reverse. Qed.

Lemma strip_nil t : strip t = [] → ink t = [].
Proof.
  unfold strip, rstrip. intros Hn. assert (lstrip (reverse (lstrip t)) = []) as H%lstrip_nil.
  { apply (f_equal reverse) in Hn. by rewrite reverse_involutive in Hn. }
  rewrite ink_reverse in H. apply (f_equal reverse) in H. rewrite reverse_involutive in H.
  destruct (lstrip_suffix t) as (a & Ht & Ha). rewrite Ht, ink_app, (ink_spaces a Ha). done.
Qed.

Lemma ink_concat_filter (ps : list text) : ink (concat (filter (λ p, strip p ≠ []) ps)) = ink (concat ps).
Proof.
  induction ps as [|p ps IH]; [done|]. rewrite filter_cons. simpl. case_decide as Hp; simpl; rewrite ?ink_app, IH; [done|].
  by rewrite (strip_nil p) by tauto.
Qed.

(** What the texts a table is cut into say: all of it as it is when it fits. *)
Definition says_table (t : text) (max_tokens : Z) (texts : list text) : Prop :=
  if estimate_tokens t <=? max_tokens then ink (concat texts) = ink t else says_rows t max_tokens (concat texts).

(** A table's parts say what the table says: all of it as it is when it fits or
    has no rows to repeat, else its header rows again before each share of the
    others. *)
Lemma table_parts_spec node max_tokens min_tokens overlap_tokens :
  4 ≤ max_tokens → representation node = TABLE →
  ∃ parts, _node_parts node max_tokens overlap_tokens = Ok parts ∧
    let texts := _merge_tiny node parts max_tokens min_tokens in
    Forall (λ s, estimate_tokens s ≤ max_tokens) texts ∧
    says_table (n_text node) max_tokens texts.
Proof.
  intros Hm Hrep. unfold _node_parts, says_table. set (t := n_text node). rewrite (bool_decide_eq_true_2 _ Hrep).
  destruct (estimate_tokens t <=? max_tokens) eqn:He.
  - apply Z.leb_le in He. eexists. split; [done|]. unfold _merge_tiny. destruct (trimmed_pieces t 0 (length t)) as [Ho Hc]; [lia|].
    pose proof (pieces_ink t 0 (length t) _ (conj Ho Hc) ltac:(lia)) as Hink. rewrite slice_all in Hink.
    destruct (_trimmed t 0 (length t)) as [[a b]|] eqn:Ht; simpl in *; [|done].
    split; [|done]. constructor; [|done]. etransitivity; [|exact He]. apply estimate_le.
    apply trimmed_inside in Ht as ((? & ? & ?) & _); [|lia]. simpl in *.
    apply weight_slice_le. lia.
  - destruct (split_table_spec t max_tokens Hm) as (parts & -> & Hw & Hsays). simpl. eexists. split; [done|].
    set (ps := (λ p, (p, None)) <$> filter (λ p, strip p ≠ []) parts : list Part).
    assert (ps.*1 = filter (λ p, strip p ≠ []) parts) as Hps by (unfold ps; rewrite <- list_fmap_compose; apply list_fmap_id).
    assert (ink (concat (_merge_tiny node ps max_tokens min_tokens)) = ink (concat parts)) as Hink.
    { unfold _merge_tiny. rewrite merge_parts_ink, Hps, ink_concat_filter; [done|]. by apply Forall_fmap, Forall_true. }
    split.
    + apply Forall_fmap, (merge_parts_light t). apply Forall_fmap, Forall_filter. eapply Forall_impl; [exact Hw|].
      intros p Hp. simpl. apply weight_estimate; [lia|done].
    + unfold says_rows in *. by rewrite Hink.
Qed.

(** ** The header *)

Lemma header_cut_weight budget h :
  match header_cut budget h with Some r => weight r ≤ Z.max 0 budget | None => weight h ≤ Z.max 0 budget end.
Proof.
  revert budget. induction h as [|c h IH]; intros budget; simpl; [lia|].
  pose proof (token_units_bounds c). destruct (_ <? _) eqn:Hc; simpl; [lia|]. apply Z.ltb_ge in Hc.
  specialize (IH (budget - token_units c)). destruct (header_cut _ h); simpl; lia.
Qed.

Lemma weight_reverse t : weight (reverse t) = weight t.
Proof. induction t as [|c t IH]; [done|]. rewrite reverse_cons, weight_app, IH. simpl. lia. Qed.

Lemma weight_lstrip t : weight (lstrip t) ≤ weight t.
Proof. destruct (lstrip_suffix t) as (a & Ht & _). rewrite Ht at 2. rewrite weight_app. pose proof (weight_nonneg a). lia. Qed.

(** The header never displaces the text: it is cut at its own budget. *)
Lemma contextual_header_weight document_title path page entities table_title footnote_to :
  weight (contextual_header document_title path page entities table_title footnote_to) ≤ _HEADER_MAX_TOKENS * 4.
Proof.
  unfold contextual_header. set (header := join _ _). pose proof (header_cut_weight (_HEADER_MAX_TOKENS * 4) header) as H.
  destruct (header_cut _ header) as [r|]; [|done]. unfold rstrip. rewrite weight_reverse.
  pose proof (weight_lstrip (reverse r)). rewrite weight_reverse in *. unfold _HEADER_MAX_TOKENS in *. lia.
Qed.

(** ** The chunks of a document *)

Section chunk_nodes.
Context (extract_entities : text → list text) (footnote_citations : list DocumentNode → string → option text)
        (content_hash : text → string).

Abbreviation make_chunks := (node_chunks extract_entities footnote_citations content_hash).

(** What a node's chunks are. *)
Record chunks_from (node : DocumentNode) (max_tokens : Z) (contextual : bool) (chunks : list Chunk) : Prop := {
  from_node : Forall (λ c, c_node_id c = node_id node ∧ c_tenant_id c = n_tenant_id node) chunks;
  from_light : Forall (λ c, c_token_estimate c = estimate_tokens (c_text c) ∧ c_token_estimate c ≤ max_tokens) chunks;
  from_header : Forall (λ c, if contextual then ∃ header, contextual_text c = header ++ [newline; newline] ++ c_text c ∧
                                                      weight header ≤ _HEADER_MAX_TOKENS * 4
                             else contextual_text c = c_text c) chunks;
  from_slices : representation node ≠ TABLE → is_section (representation node) = false →
                ∃ spans, c_text <$> chunks = slices (n_text node) spans ∧ kept_by (n_text node) spans;
  from_rows : representation node = TABLE → says_table (n_text node) max_tokens (c_text <$> chunks);
  from_ordinals : c_ordinal <$> chunks = Z.of_nat <$> seq 0 (length chunks);
}.

Lemma node_parts_total node max_tokens min_tokens overlap_tokens :
  4 ≤ max_tokens →
  ∃ parts, _node_parts node max_tokens overlap_tokens = Ok parts ∧
    Forall (λ s, estimate_tokens s ≤ max_tokens) (_merge_tiny node parts max_tokens min_tokens) ∧
    (representation node ≠ TABLE → ∃ spans, _merge_tiny node parts max_tokens min_tokens = slices (n_text node) spans ∧ kept_by (n_text node) spans) ∧
    (representation node = TABLE → says_table (n_text node) max_tokens (_merge_tiny node parts max_tokens min_tokens)).
Proof.
  intros Hm. destruct (decide (representation node = TABLE)) as [Hr|Hr].
  - destruct (table_parts_spec node max_tokens min_tokens overlap_tokens Hm Hr) as (parts & ? & ? & ?). exists parts. by split_and!.
  - destruct (merged_parts_spec node max_tokens min_tokens overlap_tokens Hm Hr) as (parts & spans & ? & Hs & ? & ?).
    exists parts. split_and!; [done|by rewrite Hs| |done]. intros _. by exists spans.
Qed.

Lemma imap_const_fmap {A B C} (f : nat → A → B) (g : B → C) (h : A → C) l :
  (∀ i x, g (f i x) = h x) → g <$> imap f l = h <$> l.
Proof. intros H. apply list_eq. intros i. rewrite !list_lookup_fmap, list_lookup_imap. destruct (l !! i); simpl; [by rewrite H|done]. Qed.

Lemma Forall_imap {A B} (f : nat → A → B) (P : B → Prop) l : (∀ i x, x ∈ l → P (f i x)) → Forall P (imap f l).
Proof.
  intros H. apply Forall_lookup. intros i y. rewrite list_lookup_imap. destruct (l !! i) as [x|] eqn:Hx; [|done].
  intros [= <-]. apply H. by eapply list_elem_of_lookup_2.
Qed.

Lemma node_chunks_spec nodes title max_tokens min_tokens overlap_tokens contextual node :
  4 ≤ max_tokens →
  ∃ chunks, make_chunks nodes title max_tokens min_tokens overlap_tokens contextual node = Ok chunks ∧
            chunks_from node max_tokens contextual chunks.
Proof.
  intros Hm. unfold node_chunks. destruct (is_section _ || _) eqn:Hskip.
  { exists []. split; [done|].
    assert (is_section (representation node) = false → n_text node = []) as Hempty.
    { intros Hsec. rewrite Hsec in Hskip. by apply bool_decide_eq_true_1 in Hskip. }
    split; try by constructor.
    - intros _ Hsec. exists []. split; [done|]. rewrite Hempty by done. split; [constructor|]. intros i Hi. simpl in Hi. lia.
    - intros Hr. rewrite Hempty by (by rewrite Hr). unfold says_table. by case_match. }
  destruct (node_parts_total node max_tokens min_tokens overlap_tokens Hm) as (parts & -> & Hl & Hs & Ht). simpl.
  set (texts := _merge_tiny node parts max_tokens min_tokens) in *. clearbody texts. eexists. split; [done|].
  split.
  - by apply Forall_imap.
  - apply Forall_imap. intros i x Hx. simpl. split; [done|]. rewrite Forall_forall in Hl. by apply Hl.
  - apply Forall_imap. intros i x _. destruct contextual; simpl; [|done]. eexists. split; [done|]. apply contextual_header_weight.
  - intros Hr _. destruct (Hs Hr) as (spans & -> & Hk). exists spans. split; [|done].
    rewrite (imap_const_fmap _ _ id) by done. apply list_fmap_id.
  - intros Hr. rewrite (imap_const_fmap _ _ id) by done. rewrite list_fmap_id. by apply Ht.
  - rewrite length_imap. apply list_eq. intros i. rewrite !list_lookup_fmap, list_lookup_imap.
    destruct (texts !! i) eqn:Hi.
    + rewrite lookup_seq_lt by (by eapply lookup_lt_Some). done.
    + rewrite lookup_seq_ge by (by apply lookup_ge_None). done.
Qed.

Lemma chunk_nodes_spec nodes title max_tokens min_tokens overlap_tokens contextual :
  4 ≤ max_tokens →
  ∃ groups, chunk_nodes extract_entities footnote_citations content_hash nodes title max_tokens min_tokens overlap_tokens contextual
              = Ok (concat groups) ∧
            Forall2 (λ node chunks, chunks_from node max_tokens contextual chunks) nodes groups.
Proof.
  intros Hm. unfold chunk_nodes. generalize nodes at 1 as all. intros all.
  induction nodes as [|node nodes IH]; simpl; [by exists []|].
  destruct (node_chunks_spec all title max_tokens min_tokens overlap_tokens contextual node Hm) as (chunks & -> & Hc).
  destruct IH as (groups & -> & Hg). simpl. exists (chunks :: groups). split; [done|]. by constructor.
Qed.
End chunk_nodes.

(** ** Properties *)

Lemma slices_inv t (spans : list Span) (s : text) : s ∈ slices t spans → ∃ p, p ∈ spans ∧ s = slice t p.1 p.2.
Proof. unfold slices. intros (p & -> & ?)%list_elem_of_fmap. eauto. Qed.

Lemma elem_of_fmap_chunk (chunks : list Chunk) (x : text) : x ∈ c_text <$> chunks → ∃ c, c ∈ chunks ∧ c_text c = x.
Proof. intros (c & -> & ?)%list_elem_of_fmap. eauto. Qed.

(** C11: What chunking a document keeps, on a budget of four tokens or more and
    whatever the texts: [chunk_nodes] returns, for each node in order, that node's
    chunks, numbered from 0. Every chunk of a node that is no table is an exact slice
    of its text, and every character of the text that is not a space is in one. The
    chunks of a table say exactly what it says when it fits the budget, has fewer than
    three rows or has a header that leaves no room. Otherwise its other rows are dealt
    out in shares, each share says something and comes after the header rows, and the
    shares together say exactly what the other rows say; so a table over the budget
    whose other rows are all blank has no share, and only then is its header lost. *)
Theorem chunks_lose_nothing extract_entities footnote_citations content_hash nodes title max_tokens min_tokens overlap_tokens contextual :
  4 ≤ max_tokens →
  ∃ groups,
    chunk_nodes extract_entities footnote_citations content_hash nodes title max_tokens min_tokens overlap_tokens contextual
      = Ok (concat groups) ∧
    Forall2 (λ node chunks,
      Forall (λ c, c_node_id c = node_id node) chunks ∧
      c_ordinal <$> chunks = Z.of_nat <$> seq 0 (length chunks) ∧
      (representation node ≠ TABLE → is_section (representation node) = false →
        (∀ c, c ∈ chunks → ∃ a b, (a < b ≤ length (n_text node))%nat ∧ c_text c = slice (n_text node) a b) ∧
        (∀ i, ink_at (n_text node) i → ∃ c a b, c ∈ chunks ∧ c_text c = slice (n_text node) a b ∧ (a ≤ i < b)%nat)) ∧
      (representation node = TABLE → says_table (n_text node) max_tokens (c_text <$> chunks))) nodes groups.
Proof.
  intros Hm.
  destruct (chunk_nodes_spec extract_entities footnote_citations content_hash nodes title max_tokens min_tokens overlap_tokens contextual Hm)
    as (groups & Hok & Hg).
  exists groups. split; [done|]. eapply Forall2_impl; [exact Hg|]. intros node chunks [Hn _ _ Hs Ht Ho].
  split_and!; [by eapply Forall_impl; [exact Hn|intros c []]|done| |done].
  intros Hr Hsec. destruct (Hs Hr Hsec) as (spans & Htx & Hin & Hcov). split.
  - intros c Hc. assert (c_text c ∈ slices (n_text node) spans) as Hx by (rewrite <- Htx; apply list_elem_of_fmap; eauto).
    apply slices_inv in Hx as ([a b] & Hp & ->). rewrite Forall_forall in Hin. destruct (Hin _ Hp) as (? & ? & ?). eauto.
  - intros i Hi. destruct (Hcov i) as ([a b] & Hp & Hr'); [|done|].
    { destruct Hi as (c & Hc & _). apply lookup_lt_Some in Hc. lia. }
    destruct (elem_of_fmap_chunk chunks (slice (n_text node) a b)) as (c & ? & ?); [|by eauto 7].
    rewrite Htx. apply list_elem_of_fmap. by exists (a, b).
Qed.

(** C35: Chunking never fails on a budget of four tokens or more, and the budget is
    kept: every chunk is estimated at no more than [max_tokens], as recorded in its
    [token_estimate], and the header put before its text is itself bounded. *)
Theorem chunks_within_budget extract_entities footnote_citations content_hash nodes title max_tokens min_tokens overlap_tokens contextual :
  4 ≤ max_tokens →
  ∃ chunks,
    chunk_nodes extract_entities footnote_citations content_hash nodes title max_tokens min_tokens overlap_tokens contextual = Ok chunks ∧
    ∀ c, c ∈ chunks →
      estimate_tokens (c_text c) ≤ max_tokens ∧ c_token_estimate c = estimate_tokens (c_text c) ∧
      (contextual = true → ∃ header, contextual_text c = header ++ [newline; newline] ++ c_text c ∧ weight header ≤ _HEADER_MAX_TOKENS * 4) ∧
      (contextual = false → contextual_text c = c_text c).
Proof.
  intros Hm.
  destruct (chunk_nodes_spec extract_entities footnote_citations content_hash nodes title max_tokens min_tokens overlap_tokens contextual Hm)
    as (groups & Hok & Hg).
  exists (concat groups). split; [done|]. intros c Hc. apply list_elem_of_In, in_concat in Hc as (chunks & Hch & Hc).
  apply list_elem_of_In in Hch, Hc. apply list_elem_of_lookup in Hch as [k Hk].
  destruct (Forall2_lookup_r _ _ _ _ _ Hg Hk) as (node & _ & [_ Hl Hh _ _ _]).
  rewrite Forall_forall in Hl, Hh. destruct (Hl c Hc) as [He Hle]. specialize (Hh c Hc).
  split_and!; [lia|done|by intros ->|by intros ->].
Qed.

(** A long text is cut where its lines and sentences end: the parts follow one
    another, each later than the one before at both ends; two neighbours share no
    more than the overlap; every part fits the budget; and a line that fits it lies
    whole in one part. *)
Theorem sentence_parts_whole_lines t max_tokens overlap_tokens :
  4 ≤ max_tokens →
  ∃ parts, _split_sentence_spans t max_tokens overlap_tokens = Ok parts ∧
    (∀ k p q, parts !! k = Some p → parts !! S k = Some q →
      (p.1 < q.1)%nat ∧ (p.2 < q.2)%nat ∧ ((q.1 < p.2)%nat → weight (slice t q.1 p.2) ≤ overlap_tokens * 4)) ∧
    (∀ p, p ∈ parts → weight (slice t p.1 p.2) ≤ max_tokens * 4) ∧
    (∀ line, line ∈ _segments t _LINE_BREAK 0 (length t) → weight (slice t line.1 line.2) ≤ max_tokens * 4 →
      ∃ p, p ∈ parts ∧ (p.1 ≤ line.1)%nat ∧ (line.2 ≤ p.2)%nat).
Proof.
  intros Hm. destruct (split_sentence_spans_spec t max_tokens Hm overlap_tokens) as (parts & Hok & [Hf _ Hs _] & Hw).
  exists parts. split_and!; [done| | |exact Hw].
  - intros k p q Hp Hq. exact (Sorted_lookup_S _ _ _ _ _ Hs Hp Hq).
  - intros p Hp. rewrite Forall_forall in Hf. by apply Hf.
Qed.

Section witness.

Definition w_node (id : string) (r : Representation) (t : string) : DocumentNode :=
  {| node_id := id; n_document_id := "d"; n_document_version_id := "v"; n_tenant_id := "t"; representation := r; parent_id := None;
     n_ordinal := 0; depth := 1; n_title := None; section_path := lit "Guide"; page_start := Some 3; page_end := Some 3;
     n_text := lit t; n_text_hash := ""; token_estimate := 0; n_entities := [lit "Acme"]; n_system_metadata := [] |}.

Definition w_nodes : list DocumentNode :=
  [w_node "n1" PARAGRAPH "Alpha beta. Gamma delta.  Epsilon zeta eta theta iota kappa lambda.";
   w_node "n2" TABLE ("|a|b|" +:+ String "010" "|--|--|" +:+ String "010" "|first|row|" +:+ String "010" "|second|row|")].

Abbreviation w_chunks :=
  (chunk_nodes (λ _, []) (λ _ _, None) (λ _, ""%string) w_nodes (lit "Guide") 10 2 3 true).

(** A table over the budget with blank rows only: its header is in no chunk. *)
Definition blank_table : DocumentNode :=
  w_node "n3" TABLE ("|a|b|" +:+ String "010" "|--|--|" +:+ String "010" (String.concat "" (repeat "          " 5))).

Example blank_rows_lose_the_header :
  chunk_nodes (λ _, []) (λ _ _, None) (λ _, ""%string) [blank_table] (lit "Guide") 10 2 3 true = Ok [].
Proof. vm_compute. reflexivity. Qed.

Lemma chunks_lose_nothing_witness :
  match w_chunks with Ok l => c_node_id <$> l | Raise _ => [] end = ["n1"; "n1"; "n2"; "n2"]%string ∧
  ∃ groups, w_chunks = Ok (concat groups) ∧ length groups = 2%nat.
Proof.
  split; [vm_compute; reflexivity|].
  destruct (chunks_lose_nothing (λ _, []) (λ _ _, None) (λ _, ""%string) w_nodes (lit "Guide") 10 2 3 true ltac:(lia))
    as (groups & Hok & Hall).
  exists groups. split; [exact Hok|]. symmetry. exact (Forall2_length _ _ _ Hall).
Defined.

Lemma chunks_within_budget_witness :
  ∃ chunks, w_chunks = Ok chunks ∧ length chunks = 4%nat ∧ ∀ c, c ∈ chunks → estimate_tokens (c_text c) ≤ 10.
Proof.
  destruct (chunks_within_budget (λ _, []) (λ _ _, None) (λ _, ""%string) w_nodes (lit "Guide") 10 2 3 true ltac:(lia))
    as (chunks & Hok & Hall).
  exists chunks. split; [exact Hok|]. split; [|intros c Hc; exact (proj1 (Hall c Hc))].
  assert (match w_chunks with Ok l => length l | Raise _ => 0%nat end = 4%nat) as Hn by (vm_compute; reflexivity).
  rewrite Hok in Hn. exact Hn.
Defined.

Definition w_text : text := lit ("Alpha beta. Gamma delta." +:+ String "010" "Epsilon zeta eta theta iota. Kappa lambda mu.").

Lemma sentence_parts_whole_lines_witness :
  ∃ parts, _split_sentence_spans w_text 8 3 = Ok parts ∧ length parts = 3%nat ∧
    ∃ p, p ∈ parts ∧ (p.1 ≤ 0)%nat ∧ (24 ≤ p.2)%nat.
Proof.
  destruct (sentence_parts_whole_lines w_text 8 3 ltac:(lia)) as (parts & Hok & _ & _ & Hlines).
  exists parts. split; [exact Hok|]. split.
  - assert (match _split_sentence_spans w_text 8 3 with Ok l => length l | Raise _ => 0%nat end = 3%nat) as Hn by (vm_compute; reflexivity).
    rewrite Hok in Hn. exact Hn.
  - apply (Hlines (0, 24)%nat).
    + assert (_segments w_text _LINE_BREAK 0 (length w_text) = [(0, 24); (25, 70)]%nat) as -> by (vm_compute; reflexivity). by left.
    + vm_compute. discriminate.
Defined.
End witness.
