(* ===== verification/Ids.v ===== *)
(** * Ids: identifiers, hashes and keys (domain/ids.py).

    [sha256] and [blake2b] are functions of Python's standard library; they are
    parameters here, and what is proved of a key is proved of the string that
    is hashed. A fresh ULID is an argument of the operations that mint one. *)
From S2P Require Import Prelude Errors.

(** ** Definitions *)

Definition between (lo hi c : ascii) : bool :=
  (N.leb (N_of_ascii lo) (N_of_ascii c) && N.leb (N_of_ascii c) (N_of_ascii hi)).

Definition ascii_lower (c : ascii) : bool := between "a" "z" c.
Definition ascii_upper (c : ascii) : bool := between "A" "Z" c.
Definition ascii_digit (c : ascii) : bool := between "0" "9" c.

Definition alnum (c : ascii) : bool := ascii_upper c || ascii_lower c || ascii_digit c.

(** The characters after the first one in [ID_PATTERN]. *)
Definition id_char (c : ascii) : bool :=
  alnum c || Ascii.eqb c "." || Ascii.eqb c "_" || Ascii.eqb c ":" || Ascii.eqb c "-".

(** [ID_PATTERN.fullmatch(value)]. *)
Definition is_valid_id (value : string) : bool :=
  match value with
  | EmptyString => false
  | String a s => alnum a && str_forall id_char s && Nat.leb (String.length s) 199
  end.

(** The unit separator, U+001F. *)
Definition US : ascii := ascii_of_nat 31.

(** What [stable_key] hashes. *)
Definition stable_key_input (parts : list string) : string :=
  str_join (String US "") parts.

Section keys.
Variable blake2b : string → string.

Definition stable_key (parts : list string) : string := blake2b (stable_key_input parts).

Definition thread_session_id (tenant_id thread_id : string) : string :=
  "ses_" +:+ stable_key [tenant_id; thread_id].

Definition thread_turn_id (tenant_id thread_id : string) (sequence : Z) : string :=
  "trn_" +:+ stable_key [tenant_id; thread_id; text_of_Z sequence].
End keys.

(** ** What a valid identifier contains *)

(** A valid identifier has no character outside [ID_PATTERN]'s class: in
    particular none of the separators the service joins identifiers with. *)
Lemma valid_id_no_char c v :
  is_valid_id v = true → id_char c = false → str_in c v = false.
Proof.
  destruct v as [|a s]; simpl; [done|]. intros H Hc. split_bool.
  assert (id_char a = true) as Ha by (unfold id_char; by rewrite H).
  destruct (Ascii.eqb_spec a c) as [->|]; [congruence|].
  by eapply str_forall_not_in.
Qed.

Lemma valid_id_nonempty v : is_valid_id v = true → v ≠ "".
Proof. by destruct v. Qed.

Lemma valid_id_no_slash v : is_valid_id v = true → str_in "/" v = false.
Proof. intros H. by eapply valid_id_no_char. Qed.

Lemma valid_id_no_us v : is_valid_id v = true → str_in US v = false.
Proof. intros H. by eapply valid_id_no_char. Qed.

Lemma stable_key_input_inj l l' :
  length l = length l' →
  Forall (λ x, str_in US x = false) l → Forall (λ x, str_in US x = false) l' →
  stable_key_input l = stable_key_input l' → l = l'.
Proof. apply str_join_inj. Qed.

#[export] Hint Resolve valid_id_no_slash valid_id_no_us valid_id_nonempty : svc.
