(* ===== verification/Context.v ===== *)
(** * Context: the per-request execution context (domain/context.py).

    [MemoryExecutionContext] is a pydantic model: [validate] is what building
    one runs, field validators first and the model validator after them.
    [model_copy] runs neither, so [child_agent] does not. *)
From S2P Require Import Prelude Errors Ids.

(** ** Definitions *)

Definition SECURITY_FIELDS : gset string :=
  {["tenant_id"; "workspace_id"; "user_id"; "principal_id"; "principal_type"]}.

Definition LINEAGE_FIELDS : gset string :=
  {["thread_id"; "session_id"; "turn_id"; "work_id"; "task_id"; "agent_id";
    "agent_group_id"; "agent_run_id"; "parent_agent_run_id"]}.

Definition CORRELATION_FIELDS : gset string :=
  {["request_id"; "correlation_id"; "causation_id"; "trace_id"]}.

Definition RESERVED_METADATA_KEYS : gset string :=
  SECURITY_FIELDS ∪ LINEAGE_FIELDS ∪ CORRELATION_FIELDS.

Record MemoryExecutionContext := {
  tenant_id : string;
  workspace_id : option string;
  user_id : option string;
  thread_id : option string;
  session_id : option string;
  turn_id : option string;
  work_id : option string;
  task_id : option string;
  agent_id : option string;
  agent_group_id : option string;
  agent_run_id : option string;
  parent_agent_run_id : option string;
  request_id : string;
  correlation_id : string;
  causation_id : option string;
  trace_id : string;
  custom_metadata : gmap string json;
}.

Definition validate_optional_id (v : option string) : bool :=
  match v with
  | None => true
  | Some s => is_valid_id s
  end.

(** The fields the [_ids_are_valid] validator is declared on. *)
Definition id_fields (c : MemoryExecutionContext) : list (option string) :=
  [Some (tenant_id c); workspace_id c; user_id c; thread_id c; session_id c; turn_id c;
   work_id c; task_id c; agent_id c; agent_group_id c; agent_run_id c;
   parent_agent_run_id c; Some (request_id c); Some (correlation_id c); causation_id c;
   Some (trace_id c)].

Definition metadata_cannot_override_security (c : MemoryExecutionContext) : res unit :=
  if decide (RESERVED_METADATA_KEYS ∩ dom (custom_metadata c) ≠ ∅) then
    Raise (ValueError "custom_metadata may not contain reserved keys")
  else if bool_decide (is_Some (agent_run_id c)) && negb (bool_decide (is_Some (agent_id c))) then
    Raise (ValueError "agent_run_id requires agent_id")
  else if bool_decide (is_Some (session_id c)) && negb (bool_decide (is_Some (thread_id c))) then
    Raise (ValueError "session_id requires thread_id")
  else if bool_decide (is_Some (turn_id c)) && negb (bool_decide (is_Some (session_id c))) then
    Raise (ValueError "turn_id requires session_id")
  else Ok tt.

(** Building a context: the context, or pydantic's [ValidationError]. *)
Definition build (c : MemoryExecutionContext) : res MemoryExecutionContext :=
  if forallb validate_optional_id (id_fields c) then
    obind (metadata_cannot_override_security c) (λ _, Ok c)
  else Raise (ValueError "invalid identifier").

Definition valid_context (c : MemoryExecutionContext) : Prop := build c = Ok c.

Definition principal_id (c : MemoryExecutionContext) : string :=
  match agent_id c, user_id c with
  | Some a, Some u => "agent:" +:+ u +:+ "/" +:+ a
  | Some a, None => "agent:" +:+ a
  | None, Some u => "user:" +:+ u
  | None, None => "service:anonymous"
  end.

Definition is_agent (c : MemoryExecutionContext) : bool := bool_decide (is_Some (agent_id c)).

(** The fields a stored row copies ([provenance]), by name. *)
Definition provenance (c : MemoryExecutionContext) : list (string * option string) :=
  [("tenant_id", Some (tenant_id c)); ("workspace_id", workspace_id c);
   ("user_id", user_id c); ("thread_id", thread_id c); ("session_id", session_id c);
   ("turn_id", turn_id c); ("work_id", work_id c); ("task_id", task_id c);
   ("agent_id", agent_id c); ("agent_group_id", agent_group_id c);
   ("agent_run_id", agent_run_id c); ("parent_agent_run_id", parent_agent_run_id c);
   ("principal_id", Some (principal_id c)); ("trace_id", Some (trace_id c))].

Definition PROVENANCE_FIELDS : list string :=
  ["tenant_id"; "workspace_id"; "user_id"; "thread_id"; "session_id"; "turn_id"; "work_id";
   "task_id"; "agent_id"; "agent_group_id"; "agent_run_id"; "parent_agent_run_id";
   "principal_id"; "trace_id"].

(** [child_agent]; [fresh_run] and [fresh_request] are the ids [new_id] mints.
    [agent_run_id or new_id(..)]: an empty string counts as absent. *)
Definition child_agent (c : MemoryExecutionContext) (agent : string)
    (run group task : option string) (meta : gmap string json)
    (fresh_run fresh_request : string) : MemoryExecutionContext :=
  {| tenant_id := tenant_id c; workspace_id := workspace_id c; user_id := user_id c;
     thread_id := thread_id c; session_id := session_id c; turn_id := turn_id c;
     work_id := work_id c;
     task_id := or_opt task (task_id c);
     agent_id := Some agent;
     agent_group_id := or_opt group (agent_group_id c);
     agent_run_id := Some (or_str run fresh_run);
     parent_agent_run_id := agent_run_id c;
     request_id := fresh_request;
     correlation_id := correlation_id c;
     causation_id := Some (request_id c);
     trace_id := trace_id c;
     custom_metadata := meta ∪ custom_metadata c |}.

(** What [scope_fingerprint] hands to [stable_key]. *)
Definition scope_parts (c : MemoryExecutionContext) : list string :=
  [tenant_id c; or_str (workspace_id c) ""; or_str (user_id c) ""; or_str (agent_id c) "";
   or_str (agent_group_id c) ""; or_str (agent_run_id c) ""; or_str (parent_agent_run_id c) ""].

Definition scope_fingerprint (blake2b : string → string) (c : MemoryExecutionContext) : string :=
  stable_key blake2b (scope_parts c).

Definition log_fields (c : MemoryExecutionContext) : list (string * string) :=
  [("tenant_id", tenant_id c); ("trace_id", trace_id c)] ++
  omap (λ p, if otruthy (snd p) then (λ v, (fst p, v)) <$> snd p else None)
    [("thread_id", thread_id c); ("session_id", session_id c); ("turn_id", turn_id c);
     ("agent_run_id", agent_run_id c); ("request_id", Some (request_id c));
     ("correlation_id", Some (correlation_id c))].

(** ** Valid contexts *)

Section valid.
Context (c : MemoryExecutionContext) (Hc : valid_context c).

Lemma valid_context_field v s : v ∈ id_fields c → v = Some s → is_valid_id s = true.
Proof.
  unfold valid_context, build in Hc. intros Hin ->.
  destruct (forallb _ _) eqn:E in Hc; [|done].
  rewrite forallb_forall in E. apply list_elem_of_In in Hin. by apply E in Hin.
Qed.

Lemma valid_context_tenant : is_valid_id (tenant_id c) = true.
Proof. by eapply valid_context_field; [constructor|]. Qed.

Lemma valid_context_checks : metadata_cannot_override_security c = Ok tt.
Proof.
  unfold valid_context, build in Hc. destruct (forallb _ _); [|done].
  destruct (metadata_cannot_override_security c) as [[]|]; done.
Qed.
End valid.

(** An optional identifier of a valid context is recovered from [x or ""]. *)
Lemma or_str_valid_inj (a b : option string) :
  validate_optional_id a = true → validate_optional_id b = true →
  or_str a "" = or_str b "" → a = b.
Proof.
  destruct a as [a|], b as [b|]; simpl; intros Ha Hb; try done.
  - rewrite !(proj2 (truthy_spec _)) by eauto with svc. congruence.
  - rewrite !(proj2 (truthy_spec _)) by eauto with svc. intros ->. done.
  - rewrite !(proj2 (truthy_spec _)) by eauto with svc. intros <-. done.
Qed.

(** The fields of a context that [principal_id] and [scope_fingerprint] read
    are valid identifiers when the context is. *)
Lemma valid_context_opt c (Hc : valid_context c) v :
  v ∈ id_fields c → validate_optional_id v = true.
Proof. intros Hin. destruct v as [s|]; [|done]. by eapply valid_context_field. Qed.

Ltac ctx_field :=
  match goal with
  | H : valid_context ?c |- _ => apply (valid_context_opt c H); solve [repeat constructor]
  end.

Lemma scope_parts_no_us c (Hc : valid_context c) :
  Forall (λ x, str_in US x = false) (scope_parts c).
Proof.
  assert (∀ o, validate_optional_id o = true → str_in US (or_str o "") = false) as Ho.
  { intros [s|] Hs; simpl; [|done]. destruct (truthy s); [by apply valid_id_no_us|done]. }
  unfold scope_parts. repeat (apply Forall_cons; split); try (apply Ho; ctx_field); try done.
  by apply valid_id_no_us, valid_context_tenant.
Qed.

(** The parts of a scope fingerprint determine the fields they name. *)
Lemma scope_parts_inj (c1 c2 : MemoryExecutionContext) :
  valid_context c1 → valid_context c2 →
  stable_key_input (scope_parts c1) = stable_key_input (scope_parts c2) →
  tenant_id c1 = tenant_id c2 ∧ workspace_id c1 = workspace_id c2 ∧ user_id c1 = user_id c2 ∧
  agent_id c1 = agent_id c2 ∧ agent_group_id c1 = agent_group_id c2 ∧
  agent_run_id c1 = agent_run_id c2 ∧ parent_agent_run_id c1 = parent_agent_run_id c2.
Proof.
  intros H1 H2 H. apply stable_key_input_inj in H; [|done|by apply scope_parts_no_us..].
  unfold scope_parts in H. injection H as Ht Hw Hu Ha Hg Hr Hp.
  split; [done|]. repeat split; (apply or_str_valid_inj; [ctx_field|ctx_field|done]).
Qed.

(** ** Properties *)

(** Two validated contexts act as the same principal only if they carry the
    same agent and the same user: no choice of agent id lets one user's agent
    take the identity of another user's agent, of a user, or of an unattended
    agent. *)
Theorem principal_id_binds_user (c1 c2 : MemoryExecutionContext) :
  valid_context c1 → valid_context c2 → principal_id c1 = principal_id c2 →
  agent_id c1 = agent_id c2 ∧ user_id c1 = user_id c2.
Proof.
  intros H1 H2.
  assert (∀ c v s, valid_context c → v ∈ id_fields c → v = Some s → str_in "/" s = false) as Hs.
  { intros c v s Hc Hin ->. apply valid_id_no_slash. by eapply valid_context_field. }
  pose proof (λ s, Hs c1 (agent_id c1) s H1 ltac:(repeat constructor)) as A1.
  pose proof (λ s, Hs c2 (agent_id c2) s H2 ltac:(repeat constructor)) as A2.
  pose proof (λ s, Hs c1 (user_id c1) s H1 ltac:(repeat constructor)) as U1.
  pose proof (λ s, Hs c2 (user_id c2) s H2 ltac:(repeat constructor)) as U2.
  unfold principal_id.
  destruct (agent_id c1) as [a1|], (user_id c1) as [u1|], (agent_id c2) as [a2|],
    (user_id c2) as [u2|]; simpl; intros E;
    try (split; congruence); try discriminate E; injection E as H.
  - apply str_sep_inj in H as [-> ->]; auto.
  - specialize (A2 _ eq_refl). rewrite <- H, str_in_app in A2. simpl in A2.
    by rewrite orb_true_r in A2.
  - specialize (A1 _ eq_refl). rewrite H, str_in_app in A1. simpl in A1.
    by rewrite orb_true_r in A1.
Qed.

(** The string [scope_fingerprint] hashes determines the tenant, workspace,
    user, agent, agent group, run and parent run of a validated context, so
    two scopes share a cache key only if the hash collides. *)
Theorem scope_fingerprint_input_injective (c1 c2 : MemoryExecutionContext) :
  valid_context c1 → valid_context c2 →
  stable_key_input (scope_parts c1) = stable_key_input (scope_parts c2) →
  tenant_id c1 = tenant_id c2 ∧ workspace_id c1 = workspace_id c2 ∧ user_id c1 = user_id c2 ∧
  agent_id c1 = agent_id c2 ∧ agent_group_id c1 = agent_group_id c2 ∧
  agent_run_id c1 = agent_run_id c2 ∧ parent_agent_run_id c1 = parent_agent_run_id c2.
Proof. apply scope_parts_inj. Qed.

(** Deriving a context for a child run keeps the tenant, user, workspace and
    conversation, records the caller's run as the parent, and is a valid
    context again when the given ids are valid and the given metadata names no
    reserved key (which nothing checks: [model_copy] runs no validator). *)
Theorem child_agent_valid (c : MemoryExecutionContext) agent run group task meta fr fq :
  valid_context c →
  is_valid_id agent = true → validate_optional_id run = true →
  validate_optional_id group = true → validate_optional_id task = true →
  is_valid_id fr = true → is_valid_id fq = true →
  RESERVED_METADATA_KEYS ∩ dom meta = ∅ →
  let c' := child_agent c agent run group task meta fr fq in
  valid_context c' ∧ tenant_id c' = tenant_id c ∧ user_id c' = user_id c ∧
  workspace_id c' = workspace_id c ∧ thread_id c' = thread_id c ∧
  parent_agent_run_id c' = agent_run_id c.
Proof.
  intros Hc Ha Hr Hg Ht Hfr Hfq Hm c'. repeat split.
  assert (∀ a b, validate_optional_id a = true → validate_optional_id b = true →
    validate_optional_id (or_opt a b) = true) as Hor
    by (intros a b ??; unfold or_opt; by destruct (otruthy a)).
  assert (∀ o d, validate_optional_id o = true → is_valid_id d = true →
    is_valid_id (or_str o d) = true) as Hos.
  { intros [o|] d; simpl; [by destruct (truthy o)|done]. }
  unfold valid_context, build.
  assert (forallb validate_optional_id (id_fields c') = true) as ->.
  { apply forallb_forall. intros v Hv%list_elem_of_In. unfold id_fields in Hv. simpl in Hv.
    repeat (apply elem_of_cons in Hv as [->|Hv]); try (by apply elem_of_nil in Hv);
      try ctx_field; simpl; auto; apply Hor; auto; ctx_field. }
  pose proof (valid_context_checks c Hc) as Hck. unfold metadata_cannot_override_security in *.
  clear Hor Hos. revert Hm Hck. generalize RESERVED_METADATA_KEYS as R. intros R Hm Hck.
  destruct (decide (R ∩ dom (custom_metadata c) ≠ ∅)) as [|Hd]; [done|].
  destruct (decide (R ∩ dom (custom_metadata c') ≠ ∅)) as [Hd'|_].
  - exfalso. apply Hd'. simpl. rewrite dom_union_L. apply dec_stable in Hd. set_solver.
  - change (agent_id c') with (Some agent). change (session_id c') with (session_id c).
    change (thread_id c') with (thread_id c). change (turn_id c') with (turn_id c).
    change (bool_decide (is_Some (Some agent))) with true. rewrite andb_false_r.
    cases_in Hck.
Qed.

(** ** Examples and witnesses *)

Definition ctx_of (tenant : string) (user thread agent run : option string) :
    MemoryExecutionContext :=
  {| tenant_id := tenant; workspace_id := None; user_id := user; thread_id := thread;
     session_id := None; turn_id := None; work_id := None; task_id := None;
     agent_id := agent; agent_group_id := None; agent_run_id := run;
     parent_agent_run_id := None; request_id := "req_1"; correlation_id := "req_1";
     causation_id := None; trace_id := "req_1"; custom_metadata := ∅ |}.

Definition ctx_mallory : MemoryExecutionContext :=
  ctx_of "acme" (Some "mallory") (Some "thr_1") (Some "worker") (Some "run_1").
Definition ctx_unattended : MemoryExecutionContext :=
  ctx_of "acme" None None (Some "worker") None.

Example ctx_mallory_valid : valid_context ctx_mallory.
Proof. vm_compute. reflexivity. Qed.
Example ctx_mallory_principal : principal_id ctx_mallory = "agent:mallory/worker".
Proof. reflexivity. Qed.
Example ctx_run_without_agent :
  build (ctx_of "acme" None None None (Some "run_1"))
  = Raise (ValueError "agent_run_id requires agent_id").
Proof. vm_compute. reflexivity. Qed.

Lemma principal_id_binds_user_witness :
  agent_id ctx_mallory = agent_id ctx_mallory ∧ user_id ctx_mallory = user_id ctx_mallory.
Proof.
  apply (principal_id_binds_user ctx_mallory ctx_mallory);
    [vm_compute; reflexivity | vm_compute; reflexivity | reflexivity].
Defined.

Lemma scope_fingerprint_input_injective_witness :
  tenant_id ctx_unattended = tenant_id ctx_unattended.
Proof.
  apply (scope_fingerprint_input_injective ctx_unattended ctx_unattended);
    [vm_compute; reflexivity | vm_compute; reflexivity | reflexivity].
Defined.

Lemma child_agent_valid_witness :
  valid_context (child_agent ctx_mallory "research" None None None ∅ "run_2" "req_2") ∧
  parent_agent_run_id (child_agent ctx_mallory "research" None None None ∅ "run_2" "req_2")
  = Some "run_1".
Proof.
  pose proof (child_agent_valid ctx_mallory "research" None None None ∅ "run_2" "req_2"
    ltac:(vm_compute; reflexivity) eq_refl eq_refl eq_refl eq_refl eq_refl eq_refl
    ltac:(vm_compute; reflexivity)) as H.
  split; [exact (proj1 H) | reflexivity].
Defined.
