(* ===== verification/Reach.v ===== *)
(** * Reach: a depth-first search that refuses to revisit its own path.

    The relationship check of the authorization provider and other recursive
    lookups of the service have this shape: a node already on the current path
    answers no, a node that is a hit answers yes, and otherwise some successor
    has to answer yes. The visited set is passed down a branch and not shared
    between branches, as the code does it. *)
From S2P Require Import Prelude.

(** ** Definitions *)

(** [any_opt f l]: Python's [any] over a loop whose body may run out of fuel. *)
Fixpoint any_opt {A} (f : A → option bool) (l : list A) : option bool :=
  match l with
  | [] => Some false
  | x :: l' => match f x with
               | Some true => Some true
               | Some false => any_opt f l'
               | None => None
               end
  end.

(** [if a: return True] followed by [b]. *)
Definition or_else (a b : option bool) : option bool :=
  match a with
  | Some false => b
  | _ => a
  end.

Section dfs.
Context {K : Type} `{Countable K}.
Variable hit : K → bool.
Variable succ : K → list K.

Fixpoint dfs (fuel : nat) (visited : gset K) (k : K) : option bool :=
  match fuel with
  | O => None
  | S n => if decide (k ∈ visited) then Some false
           else if hit k then Some true
           else any_opt (dfs n (visited ∪ {[k]})) (succ k)
  end.

(** A hit can be reached from [k] along successors outside [visited]. *)
Inductive reach (visited : gset K) : K → Prop :=
| reach_hit k : k ∉ visited → hit k = true → reach visited k
| reach_step k k' : k ∉ visited → k' ∈ succ k → reach visited k' → reach visited k.

(** ** Lemmas *)

Lemma reach_fresh visited k : reach visited k → k ∉ visited.
Proof. by destruct 1. Qed.

(** A path to a hit either avoids [k] or can be cut to start just after the
    last visit to [k]. *)
Lemma reach_cut visited k x :
  reach visited x →
  reach (visited ∪ {[k]}) x ∨
  (hit k = true ∨ ∃ k', k' ∈ succ k ∧ reach (visited ∪ {[k]}) k').
Proof.
  induction 1 as [x Hx Hh|x x' Hx Hs _ [IH|IH]].
  - destruct (decide (x = k)) as [->|]; [by auto|].
    left. apply reach_hit; [set_solver|done].
  - destruct (decide (x = k)) as [->|]; [eauto|].
    left. eapply reach_step; [set_solver|done..].
  - auto.
Qed.

Lemma reach_unfold visited k :
  reach visited k ↔
  k ∉ visited ∧ (hit k = true ∨ ∃ k', k' ∈ succ k ∧ reach (visited ∪ {[k]}) k').
Proof.
  split.
  - intros Hr. split; [by eapply reach_fresh|].
    destruct (reach_cut _ k _ Hr) as [Hk%reach_fresh|]; [set_solver|done].
  - intros [Hk [Hh|(k' & Hs & Hr)]]; [by apply reach_hit|].
    eapply reach_step; [done..|]. clear Hs.
    induction Hr as [x Hx Hh|x x' Hx Hs _ IH].
    + apply reach_hit; [set_solver|done].
    + eapply reach_step; [set_solver|done..].
Qed.
End dfs.

Section any.
Context {A : Type} (f : A → option bool).

Lemma any_opt_true l : any_opt f l = Some true → ∃ x, x ∈ l ∧ f x = Some true.
Proof.
  induction l as [|x l IH]; simpl; [done|]. destruct (f x) as [[]|] eqn:E; try done.
  - exists x. split; [constructor|done].
  - intros (y & ? & ?)%IH. exists y. split; [by constructor|done].
Qed.

Lemma any_opt_total l :
  (∀ x, x ∈ l → is_Some (f x)) → is_Some (any_opt f l).
Proof.
  induction l as [|x l IH]; simpl; [eauto|]. intros Hl.
  destruct (Hl x) as [[] ->]; [constructor|eauto|]. apply IH. intros y Hy. apply Hl. by constructor.
Qed.

Lemma any_opt_Some l b x :
  any_opt f l = Some b → x ∈ l → f x = Some true → b = true.
Proof.
  induction l as [|y l IH]; simpl; [set_solver|].
  destruct (f y) as [[]|] eqn:E; intros Hb Hx Hf; simplify_eq; try done.
  apply elem_of_cons in Hx as [->|Hx]; [congruence|eauto].
Qed.

Lemma any_opt_Some_all l b x :
  any_opt f l = Some b → x ∈ l → b = true ∨ ∃ c, f x = Some c.
Proof.
  induction l as [|y l IH]; simpl; [set_solver|].
  destruct (f y) as [[]|] eqn:E; intros Hb Hx; simplify_eq; [by left|].
  apply elem_of_cons in Hx as [->|Hx]; [right; eauto|eauto].
Qed.
End any.

Lemma any_opt_ext {A} (f g : A → option bool) l :
  (∀ x, x ∈ l → f x = g x) → any_opt f l = any_opt g l.
Proof.
  induction l as [|x l IH]; simpl; intros Hl; [done|].
  rewrite (Hl x) by constructor. rewrite IH; [done|]. intros y Hy. apply Hl. by constructor.
Qed.

Lemma any_opt_app {A} (f : A → option bool) l1 l2 :
  any_opt f (l1 ++ l2) = or_else (any_opt f l1) (any_opt f l2).
Proof. induction l1 as [|x l IH]; simpl; [done|]. by destruct (f x) as [[]|]. Qed.

Lemma any_opt_fmap {A B} (f : A → option bool) (g : B → A) l :
  any_opt f (g <$> l) = any_opt (f ∘ g) l.
Proof. induction l as [|x l IH]; csimpl; [done|]. by rewrite IH. Qed.

Lemma any_opt_omap {A B} (f : A → option bool) (g : B → option A) l :
  any_opt f (omap g l) =
  any_opt (λ x, match g x with Some y => f y | None => Some false end) l.
Proof.
  induction l as [|x l IH]; csimpl; [done|]. destruct (g x) as [y|]; simpl; [|done].
  by rewrite IH.
Qed.

Lemma any_opt_bind {A B} (f : A → option bool) (g : B → list A) l :
  any_opt f (l ≫= g) = any_opt (λ x, any_opt f (g x)) l.
Proof. induction l as [|x l IH]; [done|]. rewrite bind_cons, any_opt_app, IH. simpl. by destruct (any_opt f (g x)) as [[]|]. Qed.

Section correct.
Context {K : Type} `{Countable K} (hit : K → bool) (succ : K → list K).

(** When it answers, the search decides reachability. *)
Lemma dfs_correct fuel visited k b :
  dfs hit succ fuel visited k = Some b → (b = true ↔ reach hit succ visited k).
Proof.
  revert visited k b; induction fuel as [|n IH]; intros visited k b; simpl; [done|].
  rewrite reach_unfold. case_decide as Hk; [naive_solver|].
  destruct (hit k) eqn:Hh; [naive_solver|]. intros Hany. split.
  - intros ->. apply any_opt_true in Hany as (k' & Hs & Hk').
    split; [done|]. right. exists k'. split; [done|]. by eapply IH.
  - intros [_ [?|(k' & Hs & Hr)]]; [done|].
    destruct (any_opt_Some_all _ _ _ _ Hany Hs) as [|[c Hc]]; [done|].
    eapply any_opt_Some; [done..|]. rewrite Hc. f_equal. by eapply IH.
Qed.

(** It answers when the fuel exceeds the number of nodes not yet visited. *)
Lemma dfs_total (U : gset K) fuel visited k :
  (∀ x y, x ∈ U → y ∈ succ x → y ∈ U) → k ∈ U →
  (size (U ∖ visited) < fuel)%nat → is_Some (dfs hit succ fuel visited k).
Proof.
  intros HU. revert visited k; induction fuel as [|n IH]; intros visited k Hk Hn; simpl; [lia|].
  case_decide as Hv; [eauto|]. destruct (hit k); [eauto|].
  apply any_opt_total. intros k' Hk'. apply IH; [by eapply HU|].
  assert (size (U ∖ (visited ∪ {[k]})) < size (U ∖ visited))%nat; [|lia].
  apply subset_size. set_solver.
Qed.
End correct.
