(* ===== verification/Rebac.v ===== *)
(** * Rebac: relationship-based authorization (adapters/authz/model.py and
    adapters/authz/memory_provider.py).

    [MODEL] is the relation model; [write], [check] and [list_objects] are the
    operations of [MemoryAuthorizationProvider] on its tuple store. The
    recursion of [_check] is fuelled; [check_fuel_bound] is a fuel that always
    suffices ([check_terminates]). The specification of a check is [derives],
    the least relation closed under the three Zanzibar rules, and
    [check_iff_derives] says the recursion with its visited set decides it. *)
From S2P Require Import Prelude Errors Reach.

(** ** The relation model *)

Record Relation := {
  direct : list string;
  computed : list string;
  ttu : list (string * string);
}.

Record TypeDef := {
  type_name : string;
  relations : gmap string Relation;
}.

Definition rel (d c : list string) (t : list (string * string)) : Relation :=
  {| direct := d; computed := c; ttu := t |}.

Definition typedef (n : string) (rs : list (string * Relation)) : string * TypeDef :=
  (n, {| type_name := n; relations := list_to_map rs |}).

Definition model := gmap string TypeDef.

Definition MODEL_items : list (string * TypeDef) :=
  [typedef "user" [];
   typedef "agent" [("operator", rel ["user"] [] [])];
   typedef "tenant" [("admin", rel ["user"] [] []);
                     ("member", rel ["user"] ["admin"] [])];
   typedef "workspace" [("tenant", rel ["tenant"] [] []);
                        ("admin", rel ["user"] [] [("tenant", "admin")]);
                        ("member", rel ["user"; "agent"] ["admin"] []);
                        ("viewer", rel ["user"; "agent"] ["member"] [])];
   typedef "thread" [("tenant", rel ["tenant"] [] []);
                     ("workspace", rel ["workspace"] [] []);
                     ("owner", rel ["user"] [] []);
                     ("participant", rel ["user"; "agent"] [] []);
                     ("viewer", rel ["user"] ["owner"; "participant"] [("workspace", "admin")]);
                     ("can_read", rel [] ["viewer"] [("tenant", "admin")]);
                     ("can_write", rel [] ["owner"; "participant"] [("workspace", "admin")])];
   typedef "document" [("tenant", rel ["tenant"] [] []);
                       ("workspace", rel ["workspace"] [] []);
                       ("thread", rel ["thread"] [] []);
                       ("owner", rel ["user"] [] []);
                       ("viewer", rel ["user"; "agent"] [] []);
                       ("can_read", rel [] ["owner"; "viewer"]
                          [("thread", "can_read"); ("workspace", "viewer"); ("tenant", "admin")]);
                       ("can_write", rel [] ["owner"] [("workspace", "admin")])];
   typedef "memory" [("tenant", rel ["tenant"] [] []);
                     ("owner", rel ["user"; "agent"] [] []);
                     ("viewer", rel ["user"; "agent"] [] []);
                     ("can_read", rel [] ["owner"; "viewer"] [("tenant", "admin")]);
                     ("can_delete", rel [] ["owner"] [("tenant", "admin")])]].

Definition MODEL : model := list_to_map MODEL_items.

(** ** The tuple store *)

Record RelationTuple := { t_user : string; t_relation : string; t_object : string }.

Record provider := {
  p_model : model;
  tuples : gmap string (gmap string (gset string));
  objects_by_type : gmap string (gset string);
  max_listed_objects : nat;
  check_calls : nat;
  available : bool;
}.

Definition new_provider (m : model) (max : nat) : provider :=
  {| p_model := m; tuples := ∅; objects_by_type := ∅; max_listed_objects := max;
     check_calls := 0; available := true |}.

Definition split_object (obj : string) : string * string :=
  let '(t, _, i) := str_partition ":" obj in (t, i).

Definition obj_type (obj : string) : string := fst (split_object obj).

Definition lookup_rel (m : model) (rel_name obj : string) : option Relation :=
  td ← m !! obj_type obj; relations td !! rel_name.

(** [self._tuples.get(obj, {}).get(relation, set())]. *)
Definition users_of (ts : gmap string (gmap string (gset string))) (obj rel_name : string) :
    gset string :=
  default ∅ (ts !! obj ≫= λ rs, rs !! rel_name).

(** [u.split("#", 1)] of a user that holds a [#]. *)
Definition split_userset (u : string) : option (string * string) :=
  match str_partition "#" u with
  | (o, true, r) => Some (o, r)
  | _ => None
  end.

Definition user_ref (u : string) : string :=
  let '(ty, _, _) := str_partition ":" u in
  match split_userset u with
  | Some (_, r) => ty +:+ "#" +:+ r
  | None => ty
  end.

(** [_validate]: [None] when the tuple may be written, else the error. *)
Definition validate (m : model) (t : RelationTuple) : option exn :=
  match m !! obj_type (t_object t) with
  | None => Some (ValueError "unknown object type in tuple")
  | Some td =>
      match relations td !! t_relation t with
      | None => Some (ValueError "unknown relation")
      | Some r => if decide (user_ref (t_user t) ∈ direct r) then None
                  else Some (ValueError "may not be directly assigned")
      end
  end.

Definition tuples_update (f : gset string → gset string) (obj rel_name : string)
    (ts : gmap string (gmap string (gset string))) : gmap string (gmap string (gset string)) :=
  let rs := default ∅ (ts !! obj) in
  <[obj := <[rel_name := f (default ∅ (rs !! rel_name))]> rs]> ts.

Definition discard_tuple (t : RelationTuple) (p : provider) : provider :=
  {| p_model := p_model p;
     tuples := tuples_update (λ s, s ∖ {[t_user t]}) (t_object t) (t_relation t) (tuples p);
     objects_by_type := objects_by_type p; max_listed_objects := max_listed_objects p;
     check_calls := check_calls p; available := available p |}.

Definition add_tuple (t : RelationTuple) (p : provider) : provider :=
  {| p_model := p_model p;
     tuples := tuples_update (λ s, s ∪ {[t_user t]}) (t_object t) (t_relation t) (tuples p);
     objects_by_type :=
       <[obj_type (t_object t) :=
           default ∅ (objects_by_type p !! obj_type (t_object t)) ∪ {[t_object t]}]>
         (objects_by_type p);
     max_listed_objects := max_listed_objects p;
     check_calls := check_calls p; available := available p |}.

(** The deletes run first; an invalid tuple stops the write where it stands,
    after the deletes and the adds before it. *)
Definition write (add del : list RelationTuple) : prog provider unit :=
  bind (modify (λ p, foldl (λ p t, discard_tuple t p) p del)) (λ _,
  mapM_ (λ t, bind (gets p_model) (λ m,
    match validate m t with
    | Some e => raise e
    | None => modify (add_tuple t)
    end)) add).

(** ** The check *)

Section check.
Variable m : model.
Variable ts : gmap string (gmap string (gset string)).

(** [_check], one level of recursion per unit of fuel. *)
Fixpoint check_rec (fuel : nat) (user rel_name obj : string) (visited : gset (string * string)) :
    option bool :=
  match fuel with
  | O => None
  | S n =>
      let key := (rel_name, obj) in
      if decide (key ∈ visited) then Some false else
      let visited := visited ∪ {[key]} in
      match lookup_rel m rel_name obj with
      | None => Some false
      | Some r =>
          let direct_users := users_of ts obj rel_name in
          if decide (user ∈ direct_users) then Some true else
          or_else
            (any_opt (λ u, match split_userset u with
                           | Some (uo, ur) => check_rec n user ur uo visited
                           | None => Some false
                           end) (elements direct_users))
          (or_else
            (any_opt (λ other, check_rec n user other obj visited) (computed r))
            (any_opt (λ '(tupleset_rel, target_rel),
               any_opt (λ target, check_rec n user target_rel target visited)
                 (elements (users_of ts obj tupleset_rel))) (ttu r)))
      end
  end.

(** What a check may answer yes to: the three rules of the relation model. *)
Inductive derives (user : string) : string → string → Prop :=
| derives_direct rel_name obj r :
    lookup_rel m rel_name obj = Some r → user ∈ users_of ts obj rel_name →
    derives user rel_name obj
| derives_userset rel_name obj r u uo ur :
    lookup_rel m rel_name obj = Some r → u ∈ users_of ts obj rel_name →
    split_userset u = Some (uo, ur) → derives user ur uo → derives user rel_name obj
| derives_computed rel_name obj r other :
    lookup_rel m rel_name obj = Some r → other ∈ computed r → derives user other obj →
    derives user rel_name obj
| derives_ttu rel_name obj r tupleset_rel target_rel target :
    lookup_rel m rel_name obj = Some r → (tupleset_rel, target_rel) ∈ ttu r →
    target ∈ users_of ts obj tupleset_rel → derives user target_rel target →
    derives user rel_name obj.

(** The same recursion as a search over (relation, object) keys. *)
Definition check_hit (user : string) (k : string * string) : bool :=
  match lookup_rel m (fst k) (snd k) with
  | None => false
  | Some _ => bool_decide (user ∈ users_of ts (snd k) (fst k))
  end.

Definition check_succ (k : string * string) : list (string * string) :=
  match lookup_rel m (fst k) (snd k) with
  | None => []
  | Some r =>
      omap (λ u, prod_swap <$> split_userset u) (elements (users_of ts (snd k) (fst k)))
      ++ ((λ other, (other, snd k)) <$> computed r)
      ++ (ttu r ≫= λ p, (λ target, (snd p, target)) <$> elements (users_of ts (snd k) (fst p)))
  end.

(** Every user, object and relation name a check can visit. *)
Definition all_users : gset string :=
  list_to_set (map_to_list ts ≫= λ p, map_to_list (snd p) ≫= λ q, elements (snd q)).

Definition userset_parts : gset (string * string) :=
  list_to_set (omap split_userset (elements all_users)).

Definition model_targets : gset string :=
  list_to_set (map_to_list m ≫= λ p, map_to_list (relations (snd p)) ≫= λ q,
    computed (snd q) ++ (snd <$> ttu (snd q))).

Definition check_universe (rel_name obj : string) : gset (string * string) :=
  cprod ({[rel_name]} ∪ model_targets ∪ set_map snd userset_parts)
             ({[obj]} ∪ all_users ∪ set_map fst userset_parts).

Definition check_fuel_bound (rel_name obj : string) : nat :=
  S (size (check_universe rel_name obj)).
End check.

Definition decides (p : provider) (user rel_name obj : string) : bool :=
  default false (check_rec (p_model p) (tuples p)
    (check_fuel_bound (p_model p) (tuples p) rel_name obj) user rel_name obj ∅).

Definition guard : prog provider unit :=
  bind (gets available) (λ a, if a then ret tt
    else raise (err DependencyUnavailable "simulated authorization outage")).

Definition check (user rel_name obj : string) : prog provider bool :=
  bind guard (λ _,
  bind (modify (λ p, {| p_model := p_model p; tuples := tuples p;
      objects_by_type := objects_by_type p; max_listed_objects := max_listed_objects p;
      check_calls := S (check_calls p); available := available p |})) (λ _,
  gets (λ p, decides p user rel_name obj))).

Fixpoint mapM {S A B} (f : A → prog S B) (l : list A) : prog S (list B) :=
  match l with
  | [] => ret []
  | x :: l' => bind (f x) (λ y, bind (mapM f l') (λ ys, ret (y :: ys)))
  end.

Definition batch_check (checks : list (string * string * string)) : prog provider (list bool) :=
  bind guard (λ _, mapM (λ '(u, r, o), check u r o) checks).

Definition list_objects (user rel_name object_type : string) : prog provider (list string) :=
  bind guard (λ _,
  gets (λ p,
    take (max_listed_objects p + 1)
      (filter (λ obj, decides p user rel_name obj = true)
        (str_sorted (elements (default ∅ (objects_by_type p !! object_type))))))).

(** ** Lemmas on the tuple store *)

Lemma users_of_update f obj rel_name ts obj' rel' :
  users_of (tuples_update f obj rel_name ts) obj' rel' =
  if decide (obj' = obj ∧ rel' = rel_name) then f (users_of ts obj rel_name)
  else users_of ts obj' rel'.
Proof.
  unfold users_of, tuples_update. rewrite lookup_insert.
  destruct (decide (obj = obj')) as [->|Hobj].
  - simpl. rewrite lookup_insert. destruct (decide (rel_name = rel')) as [->|Hrel].
    + rewrite decide_True by done. simpl. by destruct (ts !! obj').
    + rewrite decide_False by naive_solver. by destruct (ts !! obj').
  - by rewrite decide_False by naive_solver.
Qed.

Lemma users_of_all ts obj rel_name u : u ∈ users_of ts obj rel_name → u ∈ all_users ts.
Proof.
  unfold users_of, all_users. destruct (ts !! obj) as [rs|] eqn:Ho; simpl; [|set_solver].
  destruct (rs !! rel_name) as [us|] eqn:Hr; simpl; [|set_solver]. intros Hu.
  apply elem_of_list_to_set, list_elem_of_bind. exists (obj, rs).
  split; [|by apply elem_of_map_to_list].
  apply list_elem_of_bind. exists (rel_name, us).
  split; [by apply elem_of_elements | by apply elem_of_map_to_list].
Qed.

Lemma lookup_rel_targets m rel_name obj r x :
  lookup_rel m rel_name obj = Some r → x ∈ computed r ++ (snd <$> ttu r) →
  x ∈ model_targets m.
Proof.
  unfold lookup_rel, model_targets. intros (td & Htd & Hr)%bind_Some Hx.
  apply elem_of_list_to_set, list_elem_of_bind. exists (obj_type obj, td).
  split; [|by apply elem_of_map_to_list].
  apply list_elem_of_bind. exists (rel_name, r).
  split; [done | by apply elem_of_map_to_list].
Qed.

Lemma userset_parts_spec ts u p :
  u ∈ all_users ts → split_userset u = Some p → p ∈ userset_parts ts.
Proof.
  intros Hu Hp. unfold userset_parts. apply elem_of_list_to_set, list_elem_of_omap.
  exists u. by rewrite elem_of_elements.
Qed.

(** ** The check is a search *)

Section check_search.
Context (m : model) (ts : gmap string (gmap string (gset string))).

Lemma check_rec_dfs fuel user rel_name obj visited :
  check_rec m ts fuel user rel_name obj visited =
  dfs (check_hit m ts user) (check_succ m ts) fuel visited (rel_name, obj).
Proof.
  revert rel_name obj visited; induction fuel as [|n IH]; intros rel_name obj visited; simpl.
  { done. }
  set (D := dfs (check_hit m ts user) (check_succ m ts) n) in *.
  unfold check_hit, check_succ; simpl.
  case_decide; [done|]. destruct (lookup_rel m rel_name obj) as [r|]; [|done].
  case_bool_decide as Hu; [by rewrite decide_True|]. rewrite decide_False by done.
  rewrite !any_opt_app, any_opt_omap, any_opt_fmap, any_opt_bind.
  f_equal; [|f_equal]; apply any_opt_ext.
  - intros u _. destruct (split_userset u) as [[uo ur]|]; [apply IH|done].
  - intros other _. apply IH.
  - intros [tupleset target_rel] _. rewrite any_opt_fmap. apply any_opt_ext.
    intros target _. apply IH.
Qed.

Lemma check_succ_spec rel_name obj rel' obj' :
  (rel', obj') ∈ check_succ m ts (rel_name, obj) ↔
  ∃ r, lookup_rel m rel_name obj = Some r ∧
    ((∃ u, u ∈ users_of ts obj rel_name ∧ split_userset u = Some (obj', rel')) ∨
     (rel' ∈ computed r ∧ obj' = obj) ∨
     (∃ s, (s, rel') ∈ ttu r ∧ obj' ∈ users_of ts obj s)).
Proof.
  unfold check_succ; simpl. destruct (lookup_rel m rel_name obj) as [r|]; [|set_solver].
  rewrite !elem_of_app, list_elem_of_omap, list_elem_of_fmap, list_elem_of_bind.
  setoid_rewrite elem_of_elements. split.
  - intros Hin. exists r. split; [done|]. destruct Hin as [(u & Hu & Hs)|[(o & ? & ?)|Hin]].
    + apply fmap_Some in Hs as [[uo ur] [Hs [= -> ->]]]. left. eauto.
    + simplify_eq. auto.
    + destruct Hin as ([s t] & (o & ? & Ho)%list_elem_of_fmap & Ht). simplify_eq/=.
      right; right. exists s. by rewrite elem_of_elements in Ho.
  - intros (r' & [= <-] & [(u & Hu & Hs)|[[Hc ->]|(s & Hs & Ho)]]).
    + left. exists u. by rewrite Hs.
    + right; left. eauto.
    + right; right. exists (s, rel'). split; [|done]. apply list_elem_of_fmap.
      exists obj'. by rewrite elem_of_elements.
Qed.

Lemma check_hit_spec user rel_name obj :
  check_hit m ts user (rel_name, obj) = true ↔
  is_Some (lookup_rel m rel_name obj) ∧ user ∈ users_of ts obj rel_name.
Proof.
  unfold check_hit; simpl. destruct (lookup_rel m rel_name obj).
  - rewrite bool_decide_eq_true. naive_solver.
  - naive_solver.
Qed.

Lemma derives_reach user rel_name obj :
  derives m ts user rel_name obj ↔
  reach (check_hit m ts user) (check_succ m ts) ∅ (rel_name, obj).
Proof.
  split.
  - induction 1 as [rn o r Hr Hu|rn o r u uo ur Hr Hu Hs _ IH|rn o r c Hr Hc _ IH
      |rn o r s t tgt Hr Ht Hs _ IH].
    + apply reach_hit; [set_solver|]. apply check_hit_spec. eauto.
    + eapply reach_step; [set_solver| |exact IH]. apply check_succ_spec. naive_solver.
    + eapply reach_step; [set_solver| |exact IH]. apply check_succ_spec. naive_solver.
    + eapply reach_step; [set_solver| |exact IH]. apply check_succ_spec. naive_solver.
  - remember (rel_name, obj) as k eqn:Hk. intros Hreach. revert rel_name obj Hk.
    induction Hreach as [k _ Hh|k [r' o'] _ Hs _ IH]; intros rn o ->.
    + apply check_hit_spec in Hh as [[r Hr] Hu]. by eapply derives_direct.
    + specialize (IH _ _ eq_refl). apply check_succ_spec in Hs
        as (r & Hr & [(u & Hu & Hsp)|[[Hc ->]|(s & Ht & Ho)]]).
      * by eapply derives_userset.
      * by eapply derives_computed.
      * by eapply derives_ttu.
Qed.

Lemma check_universe_closed rel_name obj x y :
  x ∈ check_universe m ts rel_name obj → y ∈ check_succ m ts x →
  y ∈ check_universe m ts rel_name obj.
Proof.
  destruct x as [rn o], y as [rn' o']. unfold check_universe.
  rewrite !elem_of_gset_cprod; simpl. intros [Hrn Ho] Hs.
  apply check_succ_spec in Hs as (r & Hr & [(u & Hu & Hsp)|[[Hc ->]|(s & Ht & Hto)]]).
  - pose proof (userset_parts_spec ts u _ (users_of_all _ _ _ _ Hu) Hsp).
    split; apply elem_of_union_r, elem_of_map; exists (o', rn'); done.
  - split; [|done]. apply elem_of_union_l, elem_of_union_r.
    eapply lookup_rel_targets; [done|]. set_solver.
  - split.
    + apply elem_of_union_l, elem_of_union_r. eapply lookup_rel_targets; [done|].
      apply elem_of_app; right. apply list_elem_of_fmap. by exists (s, rn').
    + apply elem_of_union_l, elem_of_union_r. by eapply users_of_all.
Qed.

Lemma check_rec_total fuel user rel_name obj :
  (check_fuel_bound m ts rel_name obj ≤ fuel)%nat →
  is_Some (check_rec m ts fuel user rel_name obj ∅).
Proof.
  intros Hf. rewrite check_rec_dfs. apply (dfs_total _ _ (check_universe m ts rel_name obj)).
  - apply check_universe_closed.
  - unfold check_universe. rewrite elem_of_gset_cprod; simpl. set_solver.
  - unfold check_fuel_bound in Hf. rewrite difference_empty_L. lia.
Qed.

Lemma check_rec_sound fuel user rel_name obj b :
  check_rec m ts fuel user rel_name obj ∅ = Some b →
  (b = true ↔ derives m ts user rel_name obj).
Proof. rewrite check_rec_dfs, derives_reach. apply dfs_correct. Qed.
End check_search.

Lemma decides_spec p user rel_name obj :
  decides p user rel_name obj = true ↔ derives (p_model p) (tuples p) user rel_name obj.
Proof.
  unfold decides.
  destruct (check_rec_total (p_model p) (tuples p) _ user rel_name obj (le_n _)) as [b Hb].
  rewrite Hb. by eapply check_rec_sound.
Qed.

(** ** Properties *)

(** C38: the recursive check terminates on every tuple store, cyclic ones
    included: past the bound every fuel gives an answer, and always the same
    one. *)
Theorem check_terminates (p : provider) user rel_name obj fuel :
  (check_fuel_bound (p_model p) (tuples p) rel_name obj ≤ fuel)%nat →
  check_rec (p_model p) (tuples p) fuel user rel_name obj ∅
  = Some (decides p user rel_name obj).
Proof.
  intros Hf. destruct (check_rec_total (p_model p) (tuples p) fuel user rel_name obj Hf) as [b Hb].
  rewrite Hb. f_equal. apply check_rec_sound in Hb.
  pose proof (decides_spec p user rel_name obj) as Hd.
  destruct b, (decides p user rel_name obj); naive_solver.
Qed.

(** C3: when the provider is available, [check] answers yes exactly when the
    three rules of the relation model (direct tuples and their usersets,
    computed relations, tuple-to-userset) derive the relation, and changes
    nothing but its call counter; when it is not, it raises. *)
Theorem check_iff_derives (p : provider) user rel_name obj :
  if available p then
    ∃ b p', check user rel_name obj p = (Ok b, p') ∧
      (b = true ↔ derives (p_model p) (tuples p) user rel_name obj) ∧
      tuples p' = tuples p ∧ objects_by_type p' = objects_by_type p ∧
      p_model p' = p_model p ∧ check_calls p' = S (check_calls p)
  else check user rel_name obj p
       = (Raise (err DependencyUnavailable "simulated authorization outage"), p).
Proof.
  unfold check, guard. destruct (available p) eqn:E; run; rewrite E; simpl; [|done].
  eexists _, _. split; [done|]. simpl. split; [|done].
  apply (decides_spec p).
Qed.

(** ** Writing tuples *)

Definition mk_tuple (u r o : string) : RelationTuple :=
  {| t_user := u; t_relation := r; t_object := o |}.

Lemma users_of_add t p obj rel_name :
  users_of (tuples (add_tuple t p)) obj rel_name =
  if decide (obj = t_object t ∧ rel_name = t_relation t)
  then users_of (tuples p) obj rel_name ∪ {[t_user t]} else users_of (tuples p) obj rel_name.
Proof. simpl. rewrite users_of_update. case_decide; naive_solver. Qed.

Lemma users_of_discard t p obj rel_name :
  users_of (tuples (discard_tuple t p)) obj rel_name =
  if decide (obj = t_object t ∧ rel_name = t_relation t)
  then users_of (tuples p) obj rel_name ∖ {[t_user t]} else users_of (tuples p) obj rel_name.
Proof. simpl. rewrite users_of_update. case_decide; naive_solver. Qed.

Lemma elem_users_add t p obj rel_name u :
  u ∈ users_of (tuples (add_tuple t p)) obj rel_name ↔
  mk_tuple u rel_name obj = t ∨ u ∈ users_of (tuples p) obj rel_name.
Proof.
  rewrite users_of_add. destruct t as [u' r' o']; unfold mk_tuple; simpl.
  case_decide; [|naive_solver]. rewrite elem_of_union, elem_of_singleton. naive_solver.
Qed.

Lemma elem_users_discard t p obj rel_name u :
  u ∈ users_of (tuples (discard_tuple t p)) obj rel_name ↔
  mk_tuple u rel_name obj ≠ t ∧ u ∈ users_of (tuples p) obj rel_name.
Proof.
  rewrite users_of_discard. destruct t as [u' r' o']; unfold mk_tuple; simpl.
  case_decide; [|naive_solver]. rewrite elem_of_difference, elem_of_singleton. naive_solver.
Qed.

Definition discards (del : list RelationTuple) (p : provider) : provider :=
  foldl (λ p t, discard_tuple t p) p del.
Definition adds (add : list RelationTuple) (p : provider) : provider :=
  foldl (λ p t, add_tuple t p) p add.

Lemma elem_users_discards del p obj rel_name u :
  u ∈ users_of (tuples (discards del p)) obj rel_name ↔
  mk_tuple u rel_name obj ∉ del ∧ u ∈ users_of (tuples p) obj rel_name.
Proof.
  revert p; induction del as [|t del IH]; intros p; simpl; [set_solver|].
  rewrite IH, elem_users_discard, not_elem_of_cons. naive_solver.
Qed.

Lemma elem_users_adds add p obj rel_name u :
  u ∈ users_of (tuples (adds add p)) obj rel_name ↔
  mk_tuple u rel_name obj ∈ add ∨ u ∈ users_of (tuples p) obj rel_name.
Proof.
  revert p; induction add as [|t add IH]; intros p; simpl; [set_solver|].
  rewrite IH, elem_users_add, elem_of_cons. naive_solver.
Qed.

Lemma discards_model del p : p_model (discards del p) = p_model p.
Proof. revert p; induction del as [|t del IH]; intros p; simpl; [done|]. by rewrite IH. Qed.

Lemma adds_model add p : p_model (adds add p) = p_model p.
Proof. revert p; induction add as [|t add IH]; intros p; simpl; [done|]. by rewrite IH. Qed.

(** The adds of a write up to the first tuple the model refuses, and its error. *)
Fixpoint valid_prefix (m : model) (add : list RelationTuple) : list RelationTuple * option exn :=
  match add with
  | [] => ([], None)
  | t :: l => match validate m t with
              | Some e => ([], Some e)
              | None => let '(a, e) := valid_prefix m l in (t :: a, e)
              end
  end.

Lemma valid_prefix_ok m add : Forall (λ t, validate m t = None) (fst (valid_prefix m add)).
Proof.
  induction add as [|t l IH]; simpl; [constructor|].
  destruct (validate m t) eqn:E; [constructor|]. destruct (valid_prefix m l). by constructor.
Qed.

Lemma valid_prefix_all m add :
  Forall (λ t, validate m t = None) add → valid_prefix m add = (add, None).
Proof. induction 1 as [|t l Ht _ IH]; simpl; [done|]. by rewrite Ht, IH. Qed.

Lemma write_eq add del p :
  write add del p =
  (match snd (valid_prefix (p_model p) add) with None => Ok tt | Some e => Raise e end,
   adds (fst (valid_prefix (p_model p) add)) (discards del p)).
Proof.
  unfold write, bind at 1, modify at 1. fold (discards del p).
  rewrite <- (discards_model del p). generalize (discards del p) as q. clear p del.
  induction add as [|t add IH]; intros q; simpl; [done|]. run.
  destruct (validate (p_model q) t) as [e|] eqn:Hv; [done|].
  rewrite IH. simpl. by destruct (valid_prefix (p_model q) add).
Qed.

(** Every stored tuple is one the model allows. *)
Definition well_typed (p : provider) : Prop :=
  ∀ u r o, u ∈ users_of (tuples p) o r → validate (p_model p) (mk_tuple u r o) = None.

Lemma well_typed_new m max : well_typed (new_provider m max).
Proof. intros u r o. unfold users_of; simpl. rewrite lookup_empty. simpl. set_solver. Qed.

Lemma well_typed_discards del p : well_typed p → well_typed (discards del p).
Proof.
  intros Hp u r o. rewrite elem_users_discards, discards_model. intros [_ ?]. by apply Hp.
Qed.

Lemma well_typed_adds add p :
  well_typed p → Forall (λ t, validate (p_model p) t = None) add → well_typed (adds add p).
Proof.
  intros Hp Hadd u r o. rewrite elem_users_adds, adds_model. intros [Hin|?]; [|by apply Hp].
  rewrite Forall_forall in Hadd. by apply Hadd.
Qed.

(** Whether a write succeeds or stops at a tuple the model refuses, the
    stored tuples all satisfy the model's typing afterwards. *)
Theorem write_preserves_typing (p : provider) (add del : list RelationTuple) :
  well_typed p → well_typed (snd (write add del p)).
Proof.
  intros Hp. rewrite write_eq; simpl. apply well_typed_adds.
  - by apply well_typed_discards.
  - rewrite discards_model. apply valid_prefix_ok.
Qed.

(** A write of tuples the model allows takes the deletes first and the adds
    after them: a tuple is stored afterwards exactly when it is among the adds,
    or was stored and is not among the deletes. *)
Theorem write_effect (p : provider) (add del : list RelationTuple) u r o :
  Forall (λ t, validate (p_model p) t = None) add →
  fst (write add del p) = Ok tt ∧
  (u ∈ users_of (tuples (snd (write add del p))) o r ↔
   mk_tuple u r o ∈ add ∨ (mk_tuple u r o ∉ del ∧ u ∈ users_of (tuples p) o r)).
Proof.
  intros Hadd. rewrite write_eq, (valid_prefix_all _ _ Hadd); simpl.
  by rewrite elem_users_adds, elem_users_discards.
Qed.

(** [list_objects] answers, of the objects of the type that were ever
    granted on, the first [max_listed_objects + 1] in order of those the
    principal holds the relation on; when nothing is cut it is exactly those. *)
Theorem list_objects_spec (p : provider) user rel_name ty :
  available p = true →
  ∃ l, list_objects user rel_name ty p = (Ok l, p) ∧
    (length l ≤ max_listed_objects p + 1)%nat ∧
    (∀ o, o ∈ l → derives (p_model p) (tuples p) user rel_name o) ∧
    ((length l ≤ max_listed_objects p)%nat →
      ∀ o, o ∈ default ∅ (objects_by_type p !! ty) →
        derives (p_model p) (tuples p) user rel_name o → o ∈ l).
Proof.
  intros Ha. unfold list_objects, guard; run; rewrite Ha; simpl.
  set (L := filter _ _). eexists. split; [done|]. split; [|split].
  - rewrite length_take. lia.
  - intros o Ho. assert (o ∈ L) as Hl by (by eapply subseteq_take).
    apply list_elem_of_filter in Hl as [Hd _]. by apply decides_spec.
  - intros Hlen o Hin Hd. rewrite length_take in Hlen. rewrite take_ge by lia.
    apply list_elem_of_filter. split; [by apply decides_spec|].
    by apply elem_of_str_sorted, elem_of_elements.
Qed.

(** ** Examples and witnesses *)

Definition demo_store : provider :=
  adds [mk_tuple "tenant:acme" "tenant" "thread:acme/t1";
        mk_tuple "user:ann" "owner" "thread:acme/t1";
        mk_tuple "user:root" "admin" "tenant:acme"] (new_provider MODEL 2000).

(** Two groups that contain each other: the recursion meets its own path. *)
Definition group_model : model :=
  list_to_map [typedef "group" [("member", rel ["user"; "group#member"] [] [])]].
Definition cyclic_store : provider :=
  adds [mk_tuple "group:a#member" "member" "group:b";
        mk_tuple "group:b#member" "member" "group:a";
        mk_tuple "user:ann" "member" "group:a"] (new_provider group_model 10).

Example owner_reads : decides demo_store "user:ann" "can_read" "thread:acme/t1" = true.
Proof. vm_compute. reflexivity. Qed.
Example admin_reads : decides demo_store "user:root" "can_read" "thread:acme/t1" = true.
Proof. vm_compute. reflexivity. Qed.
Example admin_does_not_write : decides demo_store "user:root" "can_write" "thread:acme/t1" = false.
Proof. vm_compute. reflexivity. Qed.
Example stranger_denied : decides demo_store "user:eve" "can_read" "thread:acme/t1" = false.
Proof. vm_compute. reflexivity. Qed.
Example cyclic_member : decides cyclic_store "user:ann" "member" "group:b" = true.
Proof. vm_compute. reflexivity. Qed.
Example cyclic_stranger : decides cyclic_store "user:eve" "member" "group:b" = false.
Proof. vm_compute. reflexivity. Qed.

Lemma check_terminates_witness :
  check_rec (p_model cyclic_store) (tuples cyclic_store) 60 "user:ann" "member" "group:b" ∅
  = Some (decides cyclic_store "user:ann" "member" "group:b").
Proof. apply (check_terminates cyclic_store). vm_compute. repeat constructor. Defined.

Lemma write_preserves_typing_witness :
  well_typed (snd (write [mk_tuple "user:ann" "owner" "thread:acme/t1";
                          mk_tuple "user:ann" "no_such" "thread:acme/t1"] []
                         (new_provider MODEL 2000))).
Proof. apply write_preserves_typing. apply well_typed_new. Defined.

Lemma write_effect_witness :
  fst (write [mk_tuple "user:ann" "admin" "workspace:acme/w"]
             [mk_tuple "user:ann" "member" "workspace:acme/w"] (new_provider MODEL 2000)) = Ok tt.
Proof.
  apply (write_effect (new_provider MODEL 2000) _ _ "user:ann" "admin" "workspace:acme/w").
  constructor; [vm_compute; reflexivity | constructor].
Defined.

Lemma list_objects_spec_witness :
  ∃ l, list_objects "user:ann" "can_read" "thread" demo_store = (Ok l, demo_store).
Proof.
  destruct (list_objects_spec demo_store "user:ann" "can_read" "thread" eq_refl) as (l & H & _).
  exists l. exact H.
Defined.
