(* ===== verification/AuthzProvider.v ===== *)
(** * AuthzProvider: what an authorization provider promises
    (ports/authorization.py), and the tenant boundary of the tuple store.

    [AuthorizationProvider] is the interface the services use; its laws speak of
    the relation model's derivations over the provider's tuples. The in-process
    provider of [Rebac] is an instance. The boundary: when every tuple that
    links two objects stays inside one tenant, no derivation leaves it. *)
From S2P Require Import Prelude Errors Rebac.

(** ** The interface *)

Abbreviation tuple_store := (gmap string (gmap string (gset string))).

Class AuthorizationProvider (P : Type) := {
  ap_write : list RelationTuple → list RelationTuple → prog P unit;
  ap_batch_check : list (string * string * string) → prog P (list bool);
  ap_list_objects : string → string → string → prog P (list string);
  ap_up : P → bool;
  ap_max : P → nat;
  ap_tuples : P → tuple_store;
  ap_ok : P → Prop;
}.

Section view.
Context {P : Type} `{AuthorizationProvider P}.

Definition holds (p : P) (user rel_name obj : string) : Prop :=
  derives MODEL (ap_tuples p) user rel_name obj.

Definition stored (p : P) (t : RelationTuple) : Prop :=
  t_user t ∈ users_of (ap_tuples p) (t_object t) (t_relation t).

Definition unavailable : exn := err DependencyUnavailable "simulated authorization outage".

(** What a write leaves. One that returned did what it was asked, the deletes first; one
    that raised (an outage, a time limit after the store had answered, a batch applied
    tuple by tuple up to the first failure) left each tuple as it was or as asked. *)
Definition wrote (r : outcome exn unit) (add del : list RelationTuple) (p p' : P) : Prop :=
  match r with
  | Ok _ => ∀ t, stored p' t ↔ t ∈ add ∨ (t ∉ del ∧ stored p t)
  | Raise _ => ∀ t, (stored p' t ↔ stored p t) ∨ (t ∈ add ∧ stored p' t) ∨ (t ∈ del ∧ ¬ stored p' t)
  end.

Lemma wrote_added r add del p p' t : wrote r add del p p' → stored p' t → t ∈ add ∨ stored p t.
Proof. destruct r as [a|e]; intros Hw Ht; specialize (Hw t); naive_solver. Qed.

Lemma wrote_frame r add del p p' t : wrote r add del p p' → t ∉ add → t ∉ del → stored p' t ↔ stored p t.
Proof. destruct r as [a|e]; intros Hw Ha Hd; specialize (Hw t); naive_solver. Qed.

(** The tuples and everything else an answer depends on are the same. *)
Record same_store (p p' : P) : Prop := {
  ss_tuples : ap_tuples p' = ap_tuples p;
  ss_up : ap_up p' = ap_up p;
  ss_max : ap_max p' = ap_max p;
  ss_ok : ap_ok p → ap_ok p';
}.
End view.

Class AuthorizationLaws (P : Type) `{AuthorizationProvider P} := {
  law_batch p checks : ap_ok p →
    ∃ bs p', ap_batch_check checks p = (if ap_up p then Ok bs else Raise unavailable, p') ∧
      same_store p p' ∧
      Forall2 (λ b '(u, r, o), b = true ↔ holds p u r o) bs checks;
  law_list_objects p u r ty : ap_ok p →
    ∃ l, ap_list_objects u r ty p = (if ap_up p then Ok l else Raise unavailable, p) ∧
      NoDup l ∧
      (∀ o, o ∈ l → obj_type o = ty ∧ holds p u r o) ∧
      ((length l ≤ ap_max p)%nat → ∀ o, obj_type o = ty → holds p u r o → o ∈ l);
  law_write p add del : ap_ok p → Forall (λ t, validate MODEL t = None) add →
    ∃ r p', ap_write add del p = (r, p') ∧ ap_ok p' ∧ ap_up p' = ap_up p ∧ ap_max p' = ap_max p ∧ wrote r add del p p';
}.

(** A provider whose writes do not fail, as the in-process one. *)
Class AuthorizationReliable (P : Type) `{AuthorizationProvider P} :=
  reliable_write p add del : ap_ok p → Forall (λ t, validate MODEL t = None) add → fst (ap_write add del p) = Ok tt.

(** ** The in-process provider *)

(** Every object a tuple is on is listed under its type, and every listed one
    has the type it is listed under. *)
Record indexed (p : provider) : Prop := {
  ix_model : p_model p = MODEL;
  ix_complete o r : users_of (tuples p) o r ≠ ∅ → o ∈ default ∅ (objects_by_type p !! obj_type o);
  ix_sound ty o : o ∈ default ∅ (objects_by_type p !! ty) → obj_type o = ty;
}.

#[export] Instance memory_rebac : AuthorizationProvider provider := {
  ap_write := write; ap_batch_check := batch_check; ap_list_objects := list_objects;
  ap_up := available; ap_max := max_listed_objects; ap_tuples := tuples; ap_ok := indexed;
}.

Lemma indexed_new max : indexed (new_provider MODEL max).
Proof. split; [done| |]; unfold users_of; simpl; intros ??; rewrite lookup_empty; simpl; set_solver. Qed.

(** Something is derived only on an object some tuple is on. *)
Lemma derives_tuple_on m ts u r o : derives m ts u r o → ∃ r', users_of ts o r' ≠ ∅.
Proof.
  induction 1 as [rn o r Hl Hu|rn o r x uo ur Hl Hu _ _ _|rn o r other Hl _ _ IH|rn o r tr tg x Hl _ Hx _ _];
    [exists rn; set_solver|exists rn; set_solver|done|exists tr; set_solver].
Qed.

Lemma discard_indexed t p : indexed p → indexed (discard_tuple t p).
Proof.
  intros [Hm Hc Hs]. split; [done| |done]. intros o r Hne. apply (Hc o r). intros Hempty. apply Hne.
  apply set_eq. intros u. rewrite elem_users_discard, Hempty. set_solver.
Qed.

Lemma add_indexed t p : indexed p → indexed (add_tuple t p).
Proof.
  intros [Hm Hc Hs]. split; [done| |].
  - intros o r Hne. apply set_choose_L in Hne as [u Hu]. apply elem_users_add in Hu. simpl.
    rewrite lookup_insert. destruct Hu as [<-|Hu].
    + simpl. rewrite decide_True by done. simpl. set_solver.
    + assert (o ∈ default ∅ (objects_by_type p !! obj_type o)) as Ho by (apply (Hc o r); set_solver).
      case_decide as Heq; [|done]. simpl. rewrite Heq. set_solver.
  - intros ty o. simpl. rewrite lookup_insert. case_decide as Heq; [|apply Hs]. simpl.
    rewrite elem_of_union, elem_of_singleton. intros [Ho| ->]; [|done].
    rewrite <- Heq. by apply Hs.
Qed.

Lemma discards_indexed del p : indexed p → indexed (discards del p).
Proof.
  revert p. induction del as [|t del IH]; intros p Hp; simpl; [done|]. by apply IH, discard_indexed.
Qed.

Lemma adds_indexed add p : indexed p → indexed (adds add p).
Proof. revert p. induction add as [|t add IH]; intros p Hp; simpl; [done|]. by apply IH, add_indexed. Qed.

Lemma adds_frame add p :
  available (adds add p) = available p ∧ max_listed_objects (adds add p) = max_listed_objects p.
Proof. revert p. induction add as [|t add IH]; intros p; simpl; [done|]. apply (IH (add_tuple t p)). Qed.

Lemma discards_frame del p :
  available (discards del p) = available p ∧
  max_listed_objects (discards del p) = max_listed_objects p.
Proof. revert p. induction del as [|t del IH]; intros p; simpl; [done|]. apply (IH (discard_tuple t p)). Qed.

Lemma check_once p u r o :
  available p = true →
  ∃ p', check u r o p = (Ok (decides p u r o), p') ∧ tuples p' = tuples p ∧ p_model p' = p_model p ∧
    available p' = true ∧ max_listed_objects p' = max_listed_objects p ∧
    objects_by_type p' = objects_by_type p.
Proof. intros Ha. unfold check, guard. run. rewrite Ha. simpl. by eexists. Qed.

Lemma decides_frame p p' u r o :
  tuples p' = tuples p → p_model p' = p_model p → decides p' u r o = decides p u r o.
Proof. unfold decides. by intros -> ->. Qed.

Lemma checks_all p checks :
  available p = true →
  ∃ p', mapM (λ '(u, r, o), check u r o) checks p =
    (Ok ((λ '(u, r, o), decides p u r o) <$> checks), p') ∧
    tuples p' = tuples p ∧ p_model p' = p_model p ∧ available p' = true ∧
    max_listed_objects p' = max_listed_objects p ∧ objects_by_type p' = objects_by_type p.
Proof.
  revert p. induction checks as [|[[u r] o] checks IH]; intros p Ha; simpl; [by eexists|].
  destruct (check_once p u r o Ha) as (p1 & Hc & Ht & Hm & Ha1 & Hx & Ho).
  destruct (IH p1 Ha1) as (p2 & Hi & Ht2 & Hm2 & Ha2 & Hx2 & Ho2).
  unfold bind. rewrite Hc, Hi. eexists. split.
  - unfold ret. do 3 f_equal. apply list_fmap_ext. intros _ [[u' r'] o'] _. by apply decides_frame.
  - split_and!; congruence.
Qed.

Lemma checks_decide p checks :
  indexed p →
  Forall2 (λ b '(u, r, o), b = true ↔ holds p u r o) ((λ '(u, r, o), decides p u r o) <$> checks) checks.
Proof.
  intros Hp. induction checks as [|[[u r] o] checks IH]; csimpl; constructor; [|done].
  unfold holds. rewrite <- (ix_model p Hp). apply decides_spec.
Qed.

Lemma memory_batch p checks :
  indexed p →
  ∃ bs p', batch_check checks p = (if available p then Ok bs else Raise unavailable, p') ∧
    same_store p p' ∧ Forall2 (λ b '(u, r, o), b = true ↔ holds p u r o) bs checks.
Proof.
  intros Hp. unfold batch_check, guard.
  destruct (available p) eqn:Ha.
  - destruct (checks_all p checks Ha) as (p' & Hm & Ht & Hmd & Ha' & Hx & Ho).
    exists ((λ '(u, r, o), decides p u r o) <$> checks), p'. split.
    { unfold bind, gets. rewrite Ha. simpl. exact Hm. }
    split; [|by apply checks_decide]. split; simpl; [done|congruence|done|].
    intros [H1 H2 H3]. split; [by rewrite Hmd|by rewrite Ht, Ho|by rewrite Ho].
  - exists ((λ '(u, r, o), decides p u r o) <$> checks), p.
    split; [run; by rewrite Ha|]. split; [done|by apply checks_decide].
Qed.

Lemma memory_list p u r ty :
  indexed p →
  ∃ l, list_objects u r ty p = (if available p then Ok l else Raise unavailable, p) ∧ NoDup l ∧
    (∀ o, o ∈ l → obj_type o = ty ∧ holds p u r o) ∧
    ((length l ≤ max_listed_objects p)%nat → ∀ o, obj_type o = ty → holds p u r o → o ∈ l).
Proof.
  intros Hp. unfold list_objects, guard.
  set (L := λ p, filter (λ obj, decides p u r obj = true)
    (str_sorted (elements (default ∅ (objects_by_type p !! ty))))).
  exists (take (max_listed_objects p + 1) (L p)). split; [run; by destruct (available p)|].
  assert (∀ o, o ∈ L p ↔ o ∈ default ∅ (objects_by_type p !! ty) ∧ holds p u r o) as HL.
  { intros o. unfold L, holds. rewrite list_elem_of_filter, elem_of_str_sorted, elem_of_elements.
    rewrite <- (ix_model p Hp), (decides_spec p). tauto. }
  split; [|split].
  - apply (sublist_NoDup _ (L p)); [|apply sublist_take].
    apply NoDup_filter. rewrite str_sorted_perm. apply NoDup_elements.
  - intros o Ho. assert (o ∈ L p) as [Hin Hh]%HL by (by eapply subseteq_take).
    split; [by eapply ix_sound|done].
  - intros Hlen o Hty Hh. rewrite length_take in Hlen. rewrite take_ge by lia. apply HL. split; [|done].
    unfold holds in Hh. destruct (derives_tuple_on _ _ _ _ _ Hh) as [r' Hr]. rewrite <- Hty.
    by apply (ix_complete p Hp o r').
Qed.

Lemma memory_write p add del :
  indexed p → Forall (λ t, validate MODEL t = None) add →
  ∃ p', write add del p = (Ok tt, p') ∧ indexed p' ∧ available p' = available p ∧
    max_listed_objects p' = max_listed_objects p ∧
    ∀ t, stored p' t ↔ t ∈ add ∨ (t ∉ del ∧ stored p t).
Proof.
  intros Hp Hadd. rewrite write_eq, (ix_model p Hp), (valid_prefix_all _ _ Hadd). simpl.
  eexists. split; [done|]. split; [by apply adds_indexed, discards_indexed|].
  destruct (adds_frame add (discards del p)) as [-> ->], (discards_frame del p) as [-> ->].
  split; [done|]. split; [done|]. intros [u r o]. unfold stored. simpl.
  rewrite elem_users_adds, elem_users_discards. done.
Qed.

#[export] Instance memory_rebac_laws : AuthorizationLaws provider.
Proof.
  split; [exact memory_batch|exact memory_list|]. intros p add del Hok Hadd.
  destruct (memory_write p add del Hok Hadd) as (p' & Hw & ? & ? & ? & ?). by exists (Ok tt), p'.
Qed.

#[export] Instance memory_rebac_reliable : AuthorizationReliable provider.
Proof. intros p add del Hok Hadd. destruct (memory_write p add del Hok Hadd) as (p' & Hw & _). change (fst (write add del p) = Ok tt). by rewrite Hw. Qed.

(** ** The tenant boundary *)

(** The tenant an object id names: [tenant:<t>] or [<type>:<t>/<id>]. *)
Definition tenant_of (obj : string) : string :=
  let '(ty, i) := split_object obj in
  if String.eqb ty "tenant" then i else let '(t, _, _) := str_partition "/" i in t.

(** The relations that hold objects rather than users. *)
Definition LINKS : list string := ["tenant"; "workspace"; "thread"].

(** No tuple names a userset, every object is [<type>:<id>], and a tuple that
    links two objects stays inside one tenant. *)
Definition bounded_tuple (t : RelationTuple) : Prop :=
  split_userset (t_user t) = None ∧ str_in ":" (t_object t) = true ∧
  (t_relation t ∈ LINKS → tenant_of (t_user t) = tenant_of (t_object t)).

Definition bounded (ts : tuple_store) : Prop :=
  ∀ u r o, u ∈ users_of ts o r → bounded_tuple (mk_tuple u r o).

Definition ttu_in_links (m : list (string * TypeDef)) : bool :=
  forallb (λ p, forallb (λ q, forallb (λ t, bool_decide (fst t ∈ LINKS)) (ttu (snd q)))
    (map_to_list (relations (snd p)))) m.

Lemma model_ttu_links obj rel_name r x y :
  lookup_rel MODEL rel_name obj = Some r → (x, y) ∈ ttu r → x ∈ LINKS.
Proof.
  intros Hl Hxy. unfold lookup_rel in Hl. apply bind_Some in Hl as (td & Htd & Hr).
  assert (ttu_in_links MODEL_items = true) as Hall by (vm_compute; done).
  unfold ttu_in_links in Hall. rewrite forallb_forall in Hall.
  apply elem_of_list_to_map_2, list_elem_of_In in Htd. specialize (Hall _ Htd). simpl in Hall.
  rewrite forallb_forall in Hall. apply elem_of_map_to_list, list_elem_of_In in Hr.
  specialize (Hall _ Hr). simpl in Hall. rewrite forallb_forall in Hall.
  apply list_elem_of_In in Hxy. specialize (Hall _ Hxy). by apply bool_decide_eq_true in Hall.
Qed.

(** Whatever is derived on an object rests on a tuple that names the user on
    an object of the same tenant. *)
Lemma bounded_derives ts user r o :
  bounded ts → derives MODEL ts user r o →
  ∃ r' o', tenant_of o' = tenant_of o ∧ user ∈ users_of ts o' r'.
Proof.
  intros Hb. induction 1 as [rn o r Hl Hu|rn o r x uo ur Hl Hu Hs _ _|rn o r other Hl _ _ IH|
    rn o r tr tg x Hl Hin Hx _ (r' & o' & Ht & Hu)].
  - eauto.
  - destruct (Hb _ _ _ Hu) as [Hn _]. simpl in Hn. congruence.
  - done.
  - exists r', o'. split; [|done]. rewrite Ht. destruct (Hb _ _ _ Hx) as (_ & _ & Hlink).
    apply Hlink. by eapply model_ttu_links.
Qed.
