(* ===== verification/Visibility.v ===== *)
(** * Visibility: who may read what (modules/authz/visibility.py).

    An object carries audience keys, a principal holds audience keys, and a
    read is a non-empty intersection. [visibility_keys] and [readable_by] make
    the object's keys at write time, [from_scope] the principal's at read time.
    The specification is [audience]: the people each visibility is meant for,
    with no strings in it; [allows_iff_audience] says the keys decide it. *)
From S2P Require Import Prelude Errors Ids Context.

(** ** Definitions *)

Inductive Visibility : Set :=
| PRIVATE | USER | AGENT_GROUP | RUN | THREAD | WORKSPACE | TENANT.

#[export] Instance Visibility_eq_dec : EqDecision Visibility.
Proof. solve_decision. Defined.

(** The anchors of domain/memory.py's [Scope] the keys are built from. *)
Record Scope := {
  scope_thread_id : option string;
  scope_user_id : option string;
  scope_agent_group_id : option string;
  scope_workspace_id : option string;
}.

Record anchors := {
  a_user_id : option string;
  a_thread_id : option string;
  a_workspace_id : option string;
  a_agent_group_id : option string;
  a_agent_run_id : option string;
  a_parent_agent_run_id : option string;
}.

(** [kind:tenant/ident]. *)
Definition key (kind t ident : string) : string := kind +:+ ":" +:+ t +:+ "/" +:+ ident.

Definition tenant_key (t : string) : string := "tenant:" +:+ t.

Definition require_anchor (o : option string) (msg : string) : res string :=
  match o with
  | Some s => if truthy s then Ok s else Raise (ValueError msg)
  | None => Raise (ValueError msg)
  end.

(** An anchor not passed explicitly is taken from the scope. *)
Definition with_scope (scope : option Scope) (a : anchors) : anchors :=
  match scope with
  | None => a
  | Some s => {| a_user_id := or_opt (a_user_id a) (scope_user_id s);
                 a_thread_id := or_opt (a_thread_id a) (scope_thread_id s);
                 a_workspace_id := or_opt (a_workspace_id a) (scope_workspace_id s);
                 a_agent_group_id := or_opt (a_agent_group_id a) (scope_agent_group_id s);
                 a_agent_run_id := a_agent_run_id a;
                 a_parent_agent_run_id := a_parent_agent_run_id a |}
  end.

Definition visibility_keys (t : string) (v : Visibility) (owner_principal : string)
    (scope : option Scope) (a : anchors) : res (list string) :=
  let a := with_scope scope a in
  match v with
  | PRIVATE => Ok [key "principal" t owner_principal]
  | USER => obind (require_anchor (a_user_id a) "USER visibility requires user_id")
              (λ u, Ok [key "user" t u])
  | AGENT_GROUP =>
      obind (require_anchor (a_agent_group_id a) "AGENT_GROUP visibility requires agent_group_id")
        (λ g, Ok [key "agroup" t g])
  | RUN => obind (require_anchor (a_agent_run_id a) "RUN visibility requires agent_run_id")
             (λ r, Ok (key "run" t r ::
                       match a_parent_agent_run_id a with
                       | Some p => if truthy p then [key "runup" t p] else []
                       | None => []
                       end))
  | THREAD => obind (require_anchor (a_thread_id a) "THREAD visibility requires thread_id")
                (λ th, Ok [key "thread" t th])
  | WORKSPACE =>
      obind (require_anchor (a_workspace_id a) "WORKSPACE visibility requires workspace_id")
        (λ w, Ok [key "workspace" t w])
  | TENANT => Ok [tenant_key t]
  end.

Definition NO_OWNER_KEY : list Visibility := [PRIVATE; RUN; THREAD].

Definition readable_by (t : string) (v : Visibility) (owner_principal : string)
    (scope : option Scope) (a : anchors) : res (list string) :=
  obind (visibility_keys t v owner_principal scope a) (λ keys,
    if decide (v ∈ NO_OWNER_KEY) then Ok keys
    else let owner := key "principal" t owner_principal in
         Ok (if decide (owner ∈ keys) then keys else keys ++ [owner])).

(** ports/authorization.py's [AuthorizedScope]. *)
Record AuthorizedScope := {
  s_tenant_id : string;
  s_principal : string;
  thread_ids : list string;
  document_ids : list string;
  agent_ids : list string;
  run_ids : list string;
  agent_group_ids : list string;
  workspace_ids : list string;
  s_user_id : option string;
  truncated : bool;
}.

Record VisibilitySpecification := {
  v_tenant_id : string;
  v_keys : gset string;
  v_truncated : bool;
}.

Definition narrow (current : option string) (l : list string) : list string :=
  match current with
  | None => l
  | Some c => filter (λ x, x = c) l
  end.

Definition from_scope (scope : AuthorizedScope)
    (current_thread_id current_agent_run_id current_workspace_id : option string) :
    VisibilitySpecification :=
  let t := s_tenant_id scope in
  {| v_tenant_id := t;
     v_keys := list_to_set (
       [tenant_key t; key "principal" t (s_principal scope)]
       ++ (match s_user_id scope with
           | Some u => if truthy u then [key "user" t u] else []
           | None => []
           end)
       ++ (key "thread" t <$> narrow current_thread_id (thread_ids scope))
       ++ (key "workspace" t <$> narrow current_workspace_id (workspace_ids scope))
       ++ (key "agroup" t <$> agent_group_ids scope)
       ++ (key "run" t <$> run_ids scope)
       ++ (match current_agent_run_id with
           | Some r => if truthy r then [key "runup" t r] else []
           | None => []
           end));
     v_truncated := truncated scope |}.

Definition allows (spec : VisibilitySpecification) (object_tenant_id : string)
    (object_keys : list string) : bool :=
  if String.eqb object_tenant_id (v_tenant_id spec)
  then existsb (λ k, bool_decide (k ∈ v_keys spec)) object_keys
  else false.

(** ports/search.py's [SearchFilter], the fields [search_filter] sets. *)
Record SearchFilter := {
  f_tenant_id : string;
  f_must : gmap string json;
  f_must_any : gmap string (list string);
}.

Definition VISIBILITY_FIELD : string := "visibility_keys".

Definition search_filter (spec : VisibilitySpecification) (must : gmap string json) :
    SearchFilter :=
  {| f_tenant_id := v_tenant_id spec; f_must := must;
     f_must_any := {[VISIBILITY_FIELD := str_sorted (elements (v_keys spec))]} |}.

(** An anchor of the context, if a stored row keeps it. *)
Definition persisted_anchor (ctx : MemoryExecutionContext) (name : string) : option string :=
  if decide (name ∈ PROVENANCE_FIELDS)
  then list_find (λ p, fst p = name) (provenance ctx) ≫= λ p, snd (snd p)
  else None.

Definition persisted_anchors (ctx : MemoryExecutionContext) : anchors :=
  {| a_user_id := persisted_anchor ctx "user_id";
     a_thread_id := persisted_anchor ctx "thread_id";
     a_workspace_id := persisted_anchor ctx "workspace_id";
     a_agent_group_id := persisted_anchor ctx "agent_group_id";
     a_agent_run_id := persisted_anchor ctx "agent_run_id";
     a_parent_agent_run_id := persisted_anchor ctx "parent_agent_run_id" |}.

(** [requested] is [hints.visibility]: [None] when there are no hints or no
    visibility in them. *)
Definition validate_requested_visibility (ctx : MemoryExecutionContext)
    (requested : option Visibility) : res unit :=
  match requested with
  | None => Ok tt
  | Some v =>
      match visibility_keys (tenant_id ctx) v (principal_id ctx) None (persisted_anchors ctx) with
      | Ok _ => Ok tt
      | Raise (ValueError msg) => Raise (err ValidationFailed msg)
      | Raise e => Raise e
      end
  end.

(** ** The specification: who an object is for *)

Definition in_current (current : option string) (x : string) : Prop :=
  match current with
  | None => True
  | Some c => x = c
  end.

(** [audience s ct cr cw v owner a]: a caller with scope [s], in thread [ct],
    run [cr] and workspace [cw], is among the people the visibility [v] of an
    object written by [owner] with anchors [a] is meant for. *)
Definition audience (s : AuthorizedScope) (ct cr cw : option string)
    (v : Visibility) (owner : string) (a : anchors) : Prop :=
  match v with
  | PRIVATE => s_principal s = owner
  | USER => s_user_id s = a_user_id a ∨ s_principal s = owner
  | AGENT_GROUP => (∃ g, a_agent_group_id a = Some g ∧ g ∈ agent_group_ids s)
                   ∨ s_principal s = owner
  | RUN => (∃ r, a_agent_run_id a = Some r ∧ r ∈ run_ids s)
           ∨ (∃ p, a_parent_agent_run_id a = Some p ∧ p ≠ "" ∧ cr = Some p)
  | THREAD => ∃ th, a_thread_id a = Some th ∧ th ∈ thread_ids s ∧ in_current ct th
  | WORKSPACE => (∃ w, a_workspace_id a = Some w ∧ w ∈ workspace_ids s ∧ in_current cw w)
                 ∨ s_principal s = owner
  | TENANT => True
  end.

(** ** Lemmas *)

Lemma key_inj kind t x y : key kind t x = key kind t y → x = y.
Proof. unfold key. by intros ?%str_app_cancel_l%str_app_cancel_l%str_app_cancel_l%str_app_cancel_l. Qed.

Lemma elem_narrow cur (l : list string) x : x ∈ narrow cur l ↔ x ∈ l ∧ in_current cur x.
Proof.
  destruct cur as [c|]; simpl; [|naive_solver]. rewrite list_elem_of_filter. naive_solver.
Qed.

Lemma elem_fmap_key kind t (l : list string) k : k ∈ key kind t <$> l ↔ ∃ x, x ∈ l ∧ k = key kind t x.
Proof. rewrite list_elem_of_fmap. naive_solver. Qed.

Lemma elem_opt_key kind t (o : option string) k :
  k ∈ match o with Some x => if truthy x then [key kind t x] else [] | None => [] end ↔
  ∃ x, o = Some x ∧ x ≠ "" ∧ k = key kind t x.
Proof.
  destruct o as [x|]; [|split; [by intros ?%elem_of_nil|naive_solver]].
  destruct (truthy x) eqn:E.
  - apply truthy_spec in E. rewrite list_elem_of_singleton. naive_solver.
  - split; [by intros ?%elem_of_nil|]. intros (y & [= <-] & Hy & _).
    apply truthy_spec in Hy. congruence.
Qed.

Section audience.
Context (s : AuthorizedScope) (ct cr cw : option string).
Let t := s_tenant_id s.
Let spec := from_scope s ct cr cw.

Lemma elem_v_keys k :
  k ∈ v_keys spec ↔
  k = tenant_key t ∨ k = key "principal" t (s_principal s) ∨
  (∃ x, s_user_id s = Some x ∧ x ≠ "" ∧ k = key "user" t x) ∨
  (∃ x, (x ∈ thread_ids s ∧ in_current ct x) ∧ k = key "thread" t x) ∨
  (∃ x, (x ∈ workspace_ids s ∧ in_current cw x) ∧ k = key "workspace" t x) ∨
  (∃ x, x ∈ agent_group_ids s ∧ k = key "agroup" t x) ∨
  (∃ x, x ∈ run_ids s ∧ k = key "run" t x) ∨
  (∃ x, cr = Some x ∧ x ≠ "" ∧ k = key "runup" t x).
Proof.
  unfold spec, from_scope. cbn [v_keys]. rewrite elem_of_list_to_set, !elem_of_app.
  rewrite !elem_fmap_key, !elem_opt_key. setoid_rewrite elem_narrow. fold t.
  rewrite !elem_of_cons, elem_of_nil. naive_solver.
Qed.

Ltac keys :=
  rewrite elem_v_keys; split;
  [ intros Hk; repeat (destruct Hk as [Hk|Hk]); destruct_and?;
    repeat match goal with H : ∃ _, _ |- _ => destruct H end; destruct_and?;
    try discriminate;
    try match goal with H : key _ _ _ = key _ _ _ |- _ => apply key_inj in H; subst end
  | intros ? ].

Lemma mem_principal p : key "principal" t p ∈ v_keys spec ↔ s_principal s = p.
Proof. keys; naive_solver. Qed.

Lemma mem_user u : u ≠ "" → key "user" t u ∈ v_keys spec ↔ s_user_id s = Some u.
Proof. intros Hu. keys; naive_solver. Qed.

Lemma mem_thread th : key "thread" t th ∈ v_keys spec ↔ th ∈ thread_ids s ∧ in_current ct th.
Proof. keys; naive_solver. Qed.

Lemma mem_workspace w :
  key "workspace" t w ∈ v_keys spec ↔ w ∈ workspace_ids s ∧ in_current cw w.
Proof. keys; naive_solver. Qed.

Lemma mem_agroup g : key "agroup" t g ∈ v_keys spec ↔ g ∈ agent_group_ids s.
Proof. keys; naive_solver. Qed.

Lemma mem_run r : key "run" t r ∈ v_keys spec ↔ r ∈ run_ids s.
Proof. keys; naive_solver. Qed.

Lemma mem_runup p : p ≠ "" → key "runup" t p ∈ v_keys spec ↔ cr = Some p.
Proof. intros Hp. keys; naive_solver. Qed.

Lemma mem_tenant : tenant_key t ∈ v_keys spec ↔ True.
Proof. rewrite elem_v_keys. naive_solver. Qed.

Lemma allows_spec ks : allows spec t ks = true ↔ Exists (λ k, k ∈ v_keys spec) ks.
Proof.
  unfold allows, t. replace (v_tenant_id spec) with (s_tenant_id s) by done.
  rewrite String.eqb_refl, existsb_exists, Exists_exists.
  setoid_rewrite bool_decide_eq_true. by setoid_rewrite <- list_elem_of_In.
Qed.
End audience.

Lemma require_anchor_Ok o m x : require_anchor o m = Ok x ↔ o = Some x ∧ x ≠ "".
Proof.
  destruct o as [y|]; simpl; [|naive_solver]. destruct (truthy y) eqn:E.
  - apply truthy_spec in E. naive_solver.
  - split; [done|]. intros [[= <-] Hy%truthy_spec]. congruence.
Qed.

Lemma obind_Ok {E A B} (m : outcome E A) (k : A → outcome E B) b :
  obind m k = Ok b ↔ ∃ a, m = Ok a ∧ k a = Ok b.
Proof. destruct m; simpl; naive_solver. Qed.

(** The keys of an object are [tenant:t] or of the form [kind:t/x]. *)
Definition key_of (t k : string) : Prop :=
  k = tenant_key t ∨ ∃ kind x, str_in ":" kind = false ∧ k = key kind t x.

Lemma key_of_key kind t x : str_in ":" kind = false → key_of t (key kind t x).
Proof. right. eauto. Qed.

Lemma visibility_keys_key_of t v owner scope a keys k :
  visibility_keys t v owner scope a = Ok keys → k ∈ keys → key_of t k.
Proof.
  unfold visibility_keys. destruct v; simpl;
    try (intros (x & _ & Hx)%obind_Ok; revert Hx); intros [= <-];
    rewrite ?elem_of_cons, ?elem_of_nil; intros Hk;
    destruct_or?; subst; try done; try (by apply key_of_key); [|by left].
  apply elem_opt_key in Hk as (p & _ & _ & ->). by apply key_of_key.
Qed.

Lemma readable_by_key_of t v owner scope a keys k :
  readable_by t v owner scope a = Ok keys → k ∈ keys → key_of t k.
Proof.
  unfold readable_by. intros (ks & Hks & H)%obind_Ok Hk.
  destruct (decide (v ∈ NO_OWNER_KEY)); [|destruct (decide (_ ∈ ks))]; simplify_eq.
  - by eapply visibility_keys_key_of.
  - by eapply visibility_keys_key_of.
  - apply elem_of_app in Hk as [Hk| ->%list_elem_of_singleton];
      [by eapply visibility_keys_key_of | by apply key_of_key].
Qed.

Lemma v_keys_key_of s ct cr cw k : k ∈ v_keys (from_scope s ct cr cw) → key_of (s_tenant_id s) k.
Proof.
  rewrite elem_v_keys. intros Hk. destruct_or?; subst;
    try (by left); try (by apply key_of_key); destruct_and?;
    repeat match goal with H : ∃ _, _ |- _ => destruct H end; destruct_and?; subst;
    by apply key_of_key.
Qed.

Lemma key_of_tenant t t' k :
  str_in "/" t = false → str_in "/" t' = false → key_of t k → key_of t' k → t = t'.
Proof.
  intros Ht Ht' [->|(k1 & x1 & H1 & ->)] [E|(k2 & x2 & H2 & E)].
  - by apply str_app_cancel_l in E.
  - change (tenant_key t) with ("tenant" +:+ String ":" t) in E.
    apply str_sep_inj in E as [_ E]; [|done..]. rewrite E, str_in_app in Ht. simpl in Ht.
    by rewrite orb_true_r in Ht.
  - symmetry in E. change (tenant_key t') with ("tenant" +:+ String ":" t') in E.
    apply str_sep_inj in E as [_ E]; [|done..]. rewrite E, str_in_app in Ht'. simpl in Ht'.
    by rewrite orb_true_r in Ht'.
  - apply str_sep_inj in E as [_ E]; [|done..]. by apply str_sep_inj in E as [? _].
Qed.

Lemma persisted_anchors_eq ctx :
  persisted_anchors ctx =
  {| a_user_id := user_id ctx; a_thread_id := thread_id ctx; a_workspace_id := workspace_id ctx;
     a_agent_group_id := agent_group_id ctx; a_agent_run_id := agent_run_id ctx;
     a_parent_agent_run_id := parent_agent_run_id ctx |}.
Proof. by destruct ctx. Qed.

(** ** Properties *)

(** C1: for an object and a caller of one tenant, the key intersection decides
    exactly the audience of the object's visibility: PRIVATE its author, USER
    its user (and author), RUN the run and the run that spawned it, THREAD the
    callers granted the thread and reading in it, WORKSPACE its members,
    TENANT everyone. *)
Theorem allows_iff_audience (s : AuthorizedScope) ct cr cw v owner scope a keys :
  readable_by (s_tenant_id s) v owner scope a = Ok keys →
  allows (from_scope s ct cr cw) (s_tenant_id s) keys = true ↔
  audience s ct cr cw v owner (with_scope scope a).
Proof.
  rewrite (allows_spec s ct cr cw).
  intros (ks & Hks & Hr)%obind_Ok.
  assert (∀ k0 : string, ks = [k0] → v ∉ NO_OWNER_KEY →
    Exists (λ k, k ∈ v_keys (from_scope s ct cr cw)) keys ↔
    k0 ∈ v_keys (from_scope s ct cr cw) ∨ s_principal s = owner) as Hown.
  { intros k0 -> Hv. rewrite decide_False in Hr by done.
    rewrite <- (mem_principal s ct cr cw owner).
    cbv zeta in Hr. case_decide as Hd; simpl in Hr; injection Hr as <-;
      rewrite !Exists_cons, Exists_nil; [apply list_elem_of_singleton in Hd as <-|]; tauto. }
  assert (v ∈ NO_OWNER_KEY → keys = ks) as Hno by (intros ?; rewrite decide_True in Hr by done; by injection Hr).
  clear Hr. unfold visibility_keys in Hks. destruct v; simpl in Hks |- *;
    try (apply obind_Ok in Hks as (x & [Hx Hne]%require_anchor_Ok & Hks));
    injection Hks as <-;
    try (rewrite (Hno ltac:(apply (bool_decide_unpack _); vm_compute; exact I)));
    try (rewrite (Hown _ eq_refl ltac:(apply (bool_decide_unpack _); vm_compute; exact I)));
    clear Hno Hown; rewrite ?Hx.
  - rewrite Exists_cons, Exists_nil, <- (mem_principal s ct cr cw owner). tauto.
  - by rewrite (mem_user s ct cr cw).
  - rewrite (mem_agroup s ct cr cw). naive_solver.
  - rewrite Exists_cons, (mem_run s ct cr cw), Exists_exists. setoid_rewrite elem_opt_key.
    assert (∀ p, p ≠ "" → key "runup" (s_tenant_id s) p ∈ v_keys (from_scope s ct cr cw) ↔ cr = Some p)
      by (intros; by apply mem_runup). naive_solver.
  - rewrite Exists_cons, Exists_nil, (mem_thread s ct cr cw). naive_solver.
  - rewrite (mem_workspace s ct cr cw). naive_solver.
  - rewrite (mem_tenant s ct cr cw). naive_solver.
Qed.

(** An object of one tenant carries no key that a caller of another tenant
    holds, whatever the visibility and the anchors, so a store-side any-of
    filter cannot cross the tenant boundary even without its tenant clause. *)
Theorem keys_do_not_cross_tenants (s : AuthorizedScope) ct cr cw t v owner scope a keys :
  is_valid_id t = true → is_valid_id (s_tenant_id s) = true → t ≠ s_tenant_id s →
  readable_by t v owner scope a = Ok keys →
  ∀ k, k ∈ keys → k ∉ v_keys (from_scope s ct cr cw).
Proof.
  intros Ht Hs Hne Hr k Hk Hv. apply Hne.
  eapply (key_of_tenant _ _ k); [by apply valid_id_no_slash..| |].
  - by eapply readable_by_key_of.
  - by eapply v_keys_key_of.
Qed.

(** The runs a scope carries: this run and its parent (what [resolve] sets). *)
Definition lineage (own parent : option string) : list string :=
  omap (λ o, if otruthy o then o else None) [own; parent].

Lemma elem_lineage own parent r :
  r ∈ lineage own parent ↔ r ≠ "" ∧ (own = Some r ∨ parent = Some r).
Proof.
  unfold lineage. rewrite list_elem_of_omap. split.
  - intros (o & Ho & Hr). destruct (otruthy o) eqn:E; [|done]. subst o.
    apply truthy_spec in E. rewrite !elem_of_cons, elem_of_nil in Ho. naive_solver.
  - intros [Hr Ho]. exists (Some r). simpl. rewrite (proj2 (truthy_spec r) Hr).
    split; [|done]. rewrite !elem_of_cons. naive_solver.
Qed.

(** A RUN memory written by run [r] (spawned by [p]) is read by exactly three
    kinds of caller: [r] itself, a run [r] spawned, and the run [p] that
    spawned it. A sibling run, spawned by [p] too, never reads it. *)
Theorem run_handoff_exact (s : AuthorizedScope) ct cw t r p own parent owner a keys :
  s_tenant_id s = t → run_ids s = lineage own parent → r ≠ "" →
  a_agent_run_id a = Some r → a_parent_agent_run_id a = p →
  readable_by t RUN owner None a = Ok keys →
  allows (from_scope s ct own cw) t keys = true ↔
  own = Some r ∨ parent = Some r ∨ (∃ q, p = Some q ∧ q ≠ "" ∧ own = Some q).
Proof.
  intros <- Hruns Hr Ha Hp Hk. rewrite (allows_iff_audience _ _ _ _ _ _ _ _ _ Hk). simpl.
  rewrite Ha, Hp, Hruns. setoid_rewrite elem_lineage. naive_solver.
Qed.

(** A requested visibility passes the submission check exactly when the
    context has the anchor the visibility needs, and the refusal is a 422
    [ValidationFailed]; so the keys built later from the stored provenance
    exist. *)
Theorem requested_visibility_checked (ctx : MemoryExecutionContext) (v : Visibility) :
  let anchor := match v with
                | USER => user_id ctx | AGENT_GROUP => agent_group_id ctx
                | RUN => agent_run_id ctx | THREAD => thread_id ctx
                | WORKSPACE => workspace_id ctx | PRIVATE | TENANT => Some "unused"
                end in
  if otruthy anchor then
    validate_requested_visibility ctx (Some v) = Ok tt ∧
    ∃ keys, readable_by (tenant_id ctx) v (principal_id ctx) None (persisted_anchors ctx) = Ok keys
  else ∃ msg, validate_requested_visibility ctx (Some v) = Raise (err ValidationFailed msg).
Proof.
  unfold validate_requested_visibility, readable_by, visibility_keys.
  rewrite persisted_anchors_eq. destruct v; simpl.
  all: try match goal with |- context [require_anchor ?o _] => destruct o as [x|]; simpl end.
  all: try destruct (truthy x); simpl; eauto.
Qed.

(** ** Witnesses *)

Definition scope_of (t p : string) (threads groups : list string) (runs : list string)
    (user : option string) : AuthorizedScope :=
  {| s_tenant_id := t; s_principal := p; thread_ids := threads; document_ids := [];
     agent_ids := []; run_ids := runs; agent_group_ids := groups; workspace_ids := [];
     s_user_id := user; truncated := false |}.

Definition anchors_of (user thread run parent : option string) : anchors :=
  {| a_user_id := user; a_thread_id := thread; a_workspace_id := None; a_agent_group_id := None;
     a_agent_run_id := run; a_parent_agent_run_id := parent |}.

Definition run_anchors : anchors := anchors_of None None (Some "run_a") (Some "run_p").

Example supervisor_reads :
  allows (from_scope (scope_of "acme" "agent:u/boss" [] [] ["run_p"] (Some "u"))
            None (Some "run_p") None) "acme" ["run:acme/run_a"; "runup:acme/run_p"] = true.
Proof. vm_compute. reflexivity. Qed.
Example sibling_denied :
  allows (from_scope (scope_of "acme" "agent:u/worker" [] [] ["run_b"; "run_p"] (Some "u"))
            None (Some "run_b") None) "acme" ["run:acme/run_a"; "runup:acme/run_p"] = false.
Proof. vm_compute. reflexivity. Qed.

Lemma allows_iff_audience_witness :
  allows (from_scope (scope_of "acme" "user:u" ["t1"; "t2"] [] [] (Some "u")) (Some "t2") None None)
    "acme" ["thread:acme/t1"] = true ↔
  ∃ th, Some "t1" = Some th ∧ th ∈ ["t1"; "t2"] ∧ th = "t2".
Proof.
  apply (allows_iff_audience (scope_of "acme" "user:u" ["t1"; "t2"] [] [] (Some "u"))
    (Some "t2") None None THREAD "user:u" None (anchors_of None (Some "t1") None None)).
  reflexivity.
Defined.

Lemma keys_do_not_cross_tenants_witness :
  "user:acme/u" ∉ v_keys (from_scope (scope_of "other" "user:u" [] [] [] (Some "u")) None None None).
Proof.
  apply (keys_do_not_cross_tenants (scope_of "other" "user:u" [] [] [] (Some "u")) None None None
    "acme" USER "user:v" None (anchors_of (Some "u") None None None)
    ["user:acme/u"; "principal:acme/user:v"]);
    [reflexivity | reflexivity | discriminate | reflexivity | left].
Defined.

Lemma run_handoff_exact_witness :
  allows (from_scope (scope_of "acme" "agent:u/w" [] [] (lineage (Some "run_b") (Some "run_p"))
                        (Some "u")) None (Some "run_b") None)
    "acme" ["run:acme/run_a"; "runup:acme/run_p"] = true ↔
  Some "run_b" = Some "run_a" ∨ Some "run_p" = Some "run_a" ∨
  (∃ q, Some "run_p" = Some q ∧ q ≠ "" ∧ Some "run_b" = Some q).
Proof.
  apply (run_handoff_exact (scope_of "acme" "agent:u/w" [] []
    (lineage (Some "run_b") (Some "run_p")) (Some "u")) None None "acme" "run_a" (Some "run_p")
    (Some "run_b") (Some "run_p") "agent:u/w" run_anchors);
    [reflexivity | reflexivity | discriminate | reflexivity | reflexivity | reflexivity].
Defined.
