(* ===== verification/Revisions.v ===== *)
(** * Revisions: the counters cached answers are keyed on (domain/revisions.py,
    modules/memory/revisions.py, SqlRevisionRepository of
    adapters/db/repositories.py, and the reader's side in
    modules/context/builder.py).

    A write bumps the counters [audience_revision_keys] names; a reader's cache
    key holds the counters [reader_revision_keys] names. What the scheme
    promises, that no reader who may see a change keeps an old key, is
    [readers_keys_move]. *)
From S2P Require Import Prelude Errors Ids Context Visibility.

(** ** Data *)

Inductive RevisionKind : Set :=
| RTenant | RevUser | RevThread | RevDocument | RevGraph | RevAgent | RMembership.

#[export] Instance RevisionKind_eq_dec : EqDecision RevisionKind.
Proof. solve_decision. Defined.

Definition kind_value (k : RevisionKind) : string :=
  match k with
  | RTenant => "tenant" | RevUser => "user" | RevThread => "thread" | RevDocument => "document"
  | RevGraph => "graph" | RevAgent => "agent" | RMembership => "membership"
  end.

Definition kind_of_value (s : string) : option RevisionKind :=
  list_find (λ k, kind_value k = s)
    [RTenant; RevUser; RevThread; RevDocument; RevGraph; RevAgent; RMembership] ≫= λ x, Some (snd x).

#[export] Instance RevisionKind_countable : Countable RevisionKind.
Proof. apply (inj_countable kind_value kind_of_value). by intros []. Defined.

Abbreviation revision_key := (RevisionKind * string)%type.

(** ** The repository: one counter per (tenant, kind, object) *)

Abbreviation revisions := (gmap (string * RevisionKind * string) Z).

Definition bump (tenant_id : string) (kind : RevisionKind) (object_id : string) :
    prog revisions Z :=
  λ r, let v := match r !! (tenant_id, kind, object_id) with
                | Some n => n + 1
                | None => 1
                end in
       (Ok v, <[(tenant_id, kind, object_id) := v]> r).

Definition revision_name (k : revision_key) : string := kind_value (fst k) +:+ ":" +:+ snd k.

Definition revision_value (tenant_id : string) (r : revisions) (k : revision_key) : Z :=
  default 0 (r !! (tenant_id, fst k, snd k)).

(** [get_many]: the counters by name, 0 where there is none. *)
Definition get_many (tenant_id : string) (keys : list revision_key) :
    prog revisions (gmap string Z) :=
  gets (λ r, list_to_map ((λ k, (revision_name k, revision_value tenant_id r k)) <$> keys)).

(** ** What a write moves *)

Definition SHARED_AUDIENCES : list string :=
  ["tenant"; "agroup"; "run"; "runup"; "thread"; "workspace"].

Definition audience_key (tenant_id audience : string) : list revision_key :=
  let '(kind, _, value) := str_partition ":" audience in
  if bool_decide (kind ∈ SHARED_AUDIENCES) then [(RTenant, "")]
  else if String.eqb kind "user" then
    let '(tenant, separator, identifier) := str_partition "/" value in
    if String.eqb tenant tenant_id && separator && truthy identifier
    then [(RevUser, identifier)] else []
  else if String.eqb kind "principal" then
    let '(tenant, _, principal) := str_partition "/" value in
    if negb (String.eqb tenant tenant_id) then []
    else
      let '(principal_kind, _, identifier) := str_partition ":" principal in
      if String.eqb principal_kind "user" && truthy identifier then [(RevUser, identifier)]
      else if String.eqb principal_kind "agent" && truthy identifier
      then [(RevAgent, str_rpart "/" identifier)]
      else [(RTenant, "")]
  else [].

Definition audience_revision_keys (tenant_id : string) (visibility_keys : list string) :
    gset revision_key :=
  list_to_set (visibility_keys ≫= audience_key tenant_id).

Definition document_revision_keys (tenant_id : string) (thread_id : option string)
    (visibility_keys : list string) : gset revision_key :=
  let keys := audience_revision_keys tenant_id visibility_keys ∪
    (match thread_id with
     | Some th => if truthy th then {[(RevThread, th)]} else ∅
     | None => ∅
     end) in
  if decide (keys = ∅) then {[(RTenant, "")]} else keys.

(** [memory_revision_keys] of a memory's scope and stored audience. *)
Definition memory_revision_keys (tenant_id : string) (scope_user scope_thread scope_agent : option string)
    (visibility_keys : list string) : gset revision_key :=
  let named kind o : gset revision_key :=
    match o with
    | Some i => if truthy i then {[(kind, i)]} else ∅
    | None => ∅
    end in
  let keys := named RevUser scope_user ∪ named RevThread scope_thread ∪ named RevAgent scope_agent
              ∪ audience_revision_keys tenant_id visibility_keys in
  if decide (keys = ∅) then {[(RTenant, "")]} else keys.

(** [bump_memory_revisions] on the touched keys, each once. *)
Definition bump_all (tenant_id : string) (keys : list revision_key) : prog revisions unit :=
  mapM_ (λ k, bind (bump tenant_id (fst k) (snd k)) (λ _, ret tt)) keys.

(** ** What a reader is keyed on ([ContextBuilder._revisions]) *)

Definition reader_revision_keys (ctx : MemoryExecutionContext) : list revision_key :=
  [(RTenant, ""); (RevUser, or_str (user_id ctx) ""); (RevThread, or_str (thread_id ctx) "");
   (RevAgent, or_str (agent_id ctx) ""); (RevGraph, ""); (RMembership, "");
   (RMembership, or_str (user_id ctx) ""); (RMembership, or_str (agent_id ctx) "")].

Definition reader_revisions (ctx : MemoryExecutionContext) : prog revisions (gmap string Z) :=
  get_many (tenant_id ctx) (reader_revision_keys ctx).

(** ** Lemmas *)

Lemma revision_name_inj (k1 k2 : revision_key) : revision_name k1 = revision_name k2 → k1 = k2.
Proof.
  destruct k1 as [a x], k2 as [b y]. unfold revision_name. simpl. intros Heq.
  assert (∀ k, str_in ":" (kind_value k) = false) as Hk by by intros [].
  destruct (str_sep_inj ":" (kind_value a) (kind_value b) x y (Hk a) (Hk b) Heq) as [Hab ->].
  f_equal. by destruct a, b.
Qed.

Lemma get_many_lookup t keys r k :
  k ∈ keys → ∃ m, fst (get_many t keys r) = Ok m ∧ m !! revision_name k = Some (revision_value t r k).
Proof.
  intros Hk. eexists. split; [done|]. induction keys as [|k' keys IH]; [by apply elem_of_nil in Hk|].
  csimpl. rewrite lookup_insert. case_decide as Hn.
  - by apply revision_name_inj in Hn as ->.
  - apply elem_of_cons in Hk as [->|Hk]; [done|by apply IH].
Qed.

Lemma get_many_names t keys r m k v :
  fst (get_many t keys r) = Ok m → m !! k = Some v → ∃ q, q ∈ keys ∧ k = revision_name q.
Proof.
  assert (fst (get_many t keys r) =
    Ok (list_to_map ((λ k, (revision_name k, revision_value t r k)) <$> keys))) as -> by done.
  generalize (revision_value t r) as f. intros f Hm Hv.
  assert (m = list_to_map ((λ k, (revision_name k, f k)) <$> keys)) as -> by congruence.
  apply elem_of_list_to_map_2, list_elem_of_fmap in Hv as (q & [= -> _] & Hq). eauto.
Qed.

Lemma bump_value t kind i r k :
  revision_value t (snd (bump t kind i r)) k =
  if decide (k = (kind, i)) then revision_value t r k + 1 else revision_value t r k.
Proof.
  unfold bump, revision_value. simpl. rewrite lookup_insert. destruct k as [kind' i']. simpl.
  destruct (decide ((kind', i') = (kind, i))) as [[= -> ->]|Hne].
  - rewrite decide_True by done. simpl. by destruct (r !! _).
  - by rewrite decide_False by congruence.
Qed.

Lemma bump_all_value t keys r k :
  NoDup keys →
  fst (bump_all t keys r) = Ok tt ∧
  revision_value t (snd (bump_all t keys r)) k =
  if decide (k ∈ keys) then revision_value t r k + 1 else revision_value t r k.
Proof.
  revert r. induction keys as [|k' keys IH]; intros r Hnd; [done|].
  apply NoDup_cons in Hnd as [Hnin Hnd]. unfold bump_all in *. simpl. unfold bind at 1.
  pose proof (bump_value t (fst k') (snd k') r k) as Hb.
  change (bind (bump t k'.1 k'.2) (λ _, ret tt) r) with (Ok (E:=exn) tt, snd (bump t k'.1 k'.2 r)).
  destruct (IH (snd (bump t k'.1 k'.2 r)) Hnd) as [Hok Hval]. split; [exact Hok|].
  etrans; [exact Hval|]. rewrite Hb. rewrite <- surjective_pairing.
  destruct (decide (k = k')) as [->|Hne].
  - by rewrite decide_False, decide_True by (try done; by left).
  - destruct (decide (k ∈ keys)); [rewrite decide_True by by right|
      rewrite decide_False by (rewrite elem_of_cons; tauto)]; done.
Qed.

Lemma str_rpart_app c a b : str_in c b = false → str_rpart c (a +:+ String c b) = b.
Proof.
  intros Hb. induction a as [|x a IH]; simpl.
  - by rewrite Hb, Ascii.eqb_refl.
  - rewrite str_in_app. simpl. by rewrite Ascii.eqb_refl, orb_true_r.
Qed.

Lemma str_rpart_none c s : str_in c s = false → str_rpart c s = s.
Proof.
  destruct s as [|x s]; simpl; [done|]. destruct (Ascii.eqb x c); [done|]. by intros ->.
Qed.

Lemma audience_key_shared t kind x :
  kind ∈ SHARED_AUDIENCES → audience_key t (kind +:+ String ":" x) = [(RTenant, "")].
Proof.
  intros Hk. unfold audience_key. rewrite str_partition_app; [by rewrite bool_decide_true|].
  unfold SHARED_AUDIENCES in Hk. repeat (apply elem_of_cons in Hk as [->|Hk]; [done|]).
  by apply elem_of_nil in Hk.
Qed.

Lemma audience_key_user t u :
  str_in "/" t = false → u ≠ "" → audience_key t (key "user" t u) = [(RevUser, u)].
Proof.
  intros Ht Hu. unfold audience_key, key.
  change ("user" +:+ ":" +:+ t +:+ "/" +:+ u) with ("user" +:+ String ":" (t +:+ String "/" u)).
  rewrite str_partition_app by done. simpl. rewrite str_partition_app by done.
  rewrite String.eqb_refl. by rewrite (proj2 (truthy_spec u) Hu).
Qed.

Lemma audience_key_principal t pk i :
  str_in "/" t = false → str_in ":" pk = false →
  audience_key t (key "principal" t (pk +:+ String ":" i)) =
  [if String.eqb pk "user" && truthy i then (RevUser, i)
   else if String.eqb pk "agent" && truthy i then (RevAgent, str_rpart "/" i)
   else (RTenant, "")].
Proof.
  intros Ht Hpk. unfold audience_key, key.
  change ("principal" +:+ ":" +:+ t +:+ "/" +:+ ?p) with ("principal" +:+ String ":" (t +:+ String "/" p)).
  rewrite str_partition_app by done. simpl. rewrite str_partition_app by done.
  rewrite String.eqb_refl. simpl. rewrite str_partition_app by done.
  by destruct (String.eqb pk "user" && truthy i), (String.eqb pk "agent" && truthy i).
Qed.

(** The counter of a principal's own key. *)
Lemma audience_key_self (ctx : MemoryExecutionContext) :
  valid_context ctx →
  ∃ q, audience_key (tenant_id ctx) (key "principal" (tenant_id ctx) (principal_id ctx)) = [q] ∧
       q ∈ reader_revision_keys ctx.
Proof.
  intros Hv. pose proof (valid_id_no_slash _ (valid_context_tenant _ Hv)) as Ht.
  assert (validate_optional_id (user_id ctx) = true) as Hu by ctx_field.
  assert (validate_optional_id (agent_id ctx) = true) as Ha by ctx_field.
  unfold principal_id, reader_revision_keys.
  destruct (agent_id ctx) as [a|], (user_id ctx) as [u|]; cbn [validate_optional_id] in *.
  - rewrite (audience_key_principal _ "agent" (u +:+ String "/" a)) by done.
    rewrite str_rpart_app by by apply valid_id_no_slash.
    assert (truthy (u +:+ String "/" a) = true) as -> by (apply truthy_spec; by destruct u).
    eexists. split; [done|]. simpl. rewrite (proj2 (truthy_spec a)) by auto with svc.
    do 3 right. by left.
  - rewrite (audience_key_principal _ "agent" a) by done.
    rewrite (str_rpart_none _ a) by by apply valid_id_no_slash.
    eexists. split; [done|]. simpl. rewrite (proj2 (truthy_spec a)) by auto with svc.
    do 3 right. by left.
  - rewrite (audience_key_principal _ "user" u) by done.
    eexists. split; [done|]. simpl. rewrite (proj2 (truthy_spec u)) by auto with svc.
    right. by left.
  - rewrite (audience_key_principal _ "service" "anonymous") by done.
    eexists. split; [done|]. by left.
Qed.

(** The counters of an audience a reader's specification holds are among the
    reader's own. *)
Lemma audience_key_read (ctx : MemoryExecutionContext) (s : AuthorizedScope) (ct cr cw : option string) k :
  valid_context ctx → s_tenant_id s = tenant_id ctx → s_principal s = principal_id ctx →
  s_user_id s = user_id ctx →
  k ∈ v_keys (from_scope s ct cr cw) →
  ∃ q, q ∈ audience_key (tenant_id ctx) k ∧ q ∈ reader_revision_keys ctx.
Proof.
  intros Hv Ht Hp Hu. rewrite elem_v_keys, Ht, Hp, Hu.
  assert (∀ kind x, kind ∈ SHARED_AUDIENCES → ∃ q, q ∈ audience_key (tenant_id ctx)
    (kind +:+ String ":" x) ∧ q ∈ reader_revision_keys ctx) as Hshared.
  { intros kind x Hk. exists (RTenant, ""). rewrite audience_key_shared by done. split; by left. }
  assert (validate_optional_id (user_id ctx) = true) as Huv by ctx_field.
  intros [->|[->|[(u & Hux & Hne & ->)|Hk]]].
  - apply (Hshared "tenant"). by left.
  - destruct (audience_key_self ctx Hv) as (q & -> & Hq). exists q. split; [by left|done].
  - exists (RevUser, u). rewrite audience_key_user; [|by apply valid_id_no_slash, valid_context_tenant|done].
    split; [by left|]. unfold reader_revision_keys. rewrite Hux. simpl.
    rewrite (proj2 (truthy_spec u) Hne). right. by left.
  - destruct Hk as [(x & _ & ->)|[(x & _ & ->)|[(x & _ & ->)|[(x & _ & ->)|(x & _ & _ & ->)]]]].
    + apply (Hshared "thread"). set_solver.
    + apply (Hshared "workspace"). set_solver.
    + apply (Hshared "agroup"). set_solver.
    + apply (Hshared "run"). set_solver.
    + apply (Hshared "runup"). set_solver.
Qed.

(** ** Properties *)

(** No reader keeps a stale key. Whenever the audience keys of a memory, a
    chunk or a fact let a reader read it, bumping the counters the write names
    ([audience_revision_keys], or the superset [memory_revision_keys] and
    [document_revision_keys] take) changes the revisions that reader's cache
    keys are made of. *)
Theorem readers_keys_move (ctx : MemoryExecutionContext) (s : AuthorizedScope) (ct cr cw : option string)
    (stored : list string) (keys : gset revision_key) (r : revisions) :
  valid_context ctx → s_tenant_id s = tenant_id ctx → s_principal s = principal_id ctx →
  s_user_id s = user_id ctx →
  allows (from_scope s ct cr cw) (tenant_id ctx) stored = true →
  audience_revision_keys (tenant_id ctx) stored ⊆ keys →
  fst (bump_all (tenant_id ctx) (elements keys) r) = Ok tt ∧
  fst (reader_revisions ctx (snd (bump_all (tenant_id ctx) (elements keys) r))) ≠
  fst (reader_revisions ctx r).
Proof.
  intros Hv Ht Hp Hu Hall Hsub.
  assert (NoDup (elements keys)) as Hnd by apply NoDup_elements.
  assert (∃ k, k ∈ stored ∧ k ∈ v_keys (from_scope s ct cr cw)) as (k & Hk & Hkv).
  { rewrite <- Ht in Hall. apply allows_spec, Exists_exists in Hall as (k & Hk & Hin). eauto. }
  destruct (audience_key_read ctx s ct cr cw k Hv Ht Hp Hu Hkv) as (q & Hq & Hqr).
  assert (q ∈ elements keys) as Hqk.
  { apply elem_of_elements, Hsub, elem_of_list_to_set, list_elem_of_bind. eauto. }
  destruct (bump_all_value (tenant_id ctx) (elements keys) r q Hnd) as [Hok Hval].
  rewrite decide_True in Hval by done. split; [done|]. unfold reader_revisions.
  destruct (get_many_lookup (tenant_id ctx) _ (snd (bump_all (tenant_id ctx) (elements keys) r)) q Hqr)
    as (m1 & -> & H1).
  destruct (get_many_lookup (tenant_id ctx) _ r q Hqr) as (m2 & -> & H2).
  intros Heq. assert (m1 = m2) as -> by congruence. rewrite H2 in H1. injection H1 as H1. lia.
Qed.

Lemma readers_keys_move_witness :
  let ctx := ctx_of "acme" (Some "alice") (Some "t1") (Some "bot") None in
  let s := {| s_tenant_id := "acme"; s_principal := principal_id ctx; thread_ids := ["t1"];
              document_ids := []; agent_ids := ["bot"]; run_ids := []; agent_group_ids := [];
              workspace_ids := []; s_user_id := Some "alice"; truncated := false |} in
  let keys : gset revision_key := {[(RevAgent, "bot")]} in
  fst (reader_revisions ctx (snd (bump_all "acme" (elements keys) ∅))) ≠ fst (reader_revisions ctx ∅).
Proof.
  intros ctx s keys.
  apply (readers_keys_move ctx s (Some "t1") None None [key "principal" "acme" (principal_id ctx)] keys ∅);
    [vm_compute; reflexivity|done|done|done|vm_compute; reflexivity|].
  apply (bool_decide_unpack _). vm_compute. exact I.
Defined.
