(* ===== verification/Cache.v ===== *)
(** * Cache: the cache port and its in-process provider (ports/cache.py,
    adapters/cache/memory_cache.py).

    Bytes are strings. [time.monotonic()] is the field [clock], which only the
    environment advances ([tick]). A failure switch makes every operation raise
    [CacheUnavailable], the way the port requires of a backend that is down.
    [CacheProvider] is the interface the service's components use;
    [MemoryCache_provider] is its instance, and the [cache_view] lemmas say
    what each operation does to the entries a reader can see. *)
From S2P Require Import Prelude Errors.

(** ** Definitions *)

Record MemoryCache := {
  c_data : gmap string (string * option Z);
  c_lists : gmap string (list string * option Z);
  c_available : bool;
  c_ops : nat;
  c_channels : gmap string (list (nat * list string));
  c_next : nat;
  clock : Z;
}.

Definition new_cache : MemoryCache :=
  {| c_data := ∅; c_lists := ∅; c_available := true; c_ops := 0; c_channels := ∅;
     c_next := 0; clock := 0 |}.

Definition set_data d (c : MemoryCache) : MemoryCache :=
  {| c_data := d; c_lists := c_lists c; c_available := c_available c; c_ops := c_ops c;
     c_channels := c_channels c; c_next := c_next c; clock := clock c |}.
Definition set_lists l (c : MemoryCache) : MemoryCache :=
  {| c_data := c_data c; c_lists := l; c_available := c_available c; c_ops := c_ops c;
     c_channels := c_channels c; c_next := c_next c; clock := clock c |}.
Definition set_channels ch n (c : MemoryCache) : MemoryCache :=
  {| c_data := c_data c; c_lists := c_lists c; c_available := c_available c; c_ops := c_ops c;
     c_channels := ch; c_next := n; clock := clock c |}.
Definition set_available b (c : MemoryCache) : MemoryCache :=
  {| c_data := c_data c; c_lists := c_lists c; c_available := b; c_ops := c_ops c;
     c_channels := c_channels c; c_next := c_next c; clock := clock c |}.
Definition count_op (c : MemoryCache) : MemoryCache :=
  {| c_data := c_data c; c_lists := c_lists c; c_available := c_available c;
     c_ops := S (c_ops c); c_channels := c_channels c; c_next := c_next c; clock := clock c |}.
Definition tick (d : Z) (c : MemoryCache) : MemoryCache :=
  {| c_data := c_data c; c_lists := c_lists c; c_available := c_available c; c_ops := c_ops c;
     c_channels := c_channels c; c_next := c_next c; clock := clock c + d |}.

Definition c_check : prog MemoryCache unit :=
  bind (modify count_op) (λ _,
  bind (gets c_available) (λ a, if a then ret tt else raise CacheUnavailable)).

(** [time.monotonic() + ttl_seconds if ttl_seconds else None]. *)
Definition expiry (ttl : option Z) (now : Z) : option Z :=
  match ttl with
  | Some s => if Z.eqb s 0 then None else Some (now + s)
  | None => None
  end.

Definition expired (e : option Z) (now : Z) : bool :=
  match e with
  | Some t => Z.ltb t now
  | None => false
  end.

(** [_live]: an expired entry is dropped when it is met. *)
Definition live (k : string) : prog MemoryCache (option string) :=
  λ c, match c_data c !! k with
       | None => (Ok None, c)
       | Some (v, e) => if expired e (clock c) then (Ok None, set_data (delete k (c_data c)) c)
                        else (Ok (Some v), c)
       end.

Definition get (k : string) : prog MemoryCache (option string) :=
  bind c_check (λ _, live k).

Definition set (k v : string) (ttl : option Z) : prog MemoryCache unit :=
  bind c_check (λ _, modify (λ c, set_data (<[k := (v, expiry ttl (clock c))]> (c_data c)) c)).

Definition set_if_absent (k v : string) (ttl : option Z) : prog MemoryCache bool :=
  bind c_check (λ _, bind (live k) (λ cur,
  match cur with
  | Some _ => ret false
  | None => bind (set k v ttl) (λ _, ret true)
  end)).

Fixpoint delete_keys (ks : list string) (n : Z) (c : MemoryCache) : Z * MemoryCache :=
  match ks with
  | [] => (n, c)
  | k :: ks' =>
      if decide (is_Some (c_data c !! k) ∨ is_Some (c_lists c !! k))
      then delete_keys ks' (n + 1)
             (set_lists (delete k (c_lists c)) (set_data (delete k (c_data c)) c))
      else delete_keys ks' n c
  end.

Definition delete_ (ks : list string) : prog MemoryCache Z :=
  bind c_check (λ _, λ c, let '(n, c') := delete_keys ks 0 c in (Ok n, c')).

Fixpoint mget_live (ks : list string) : prog MemoryCache (list (option string)) :=
  match ks with
  | [] => ret []
  | k :: ks' => bind (live k) (λ v, bind (mget_live ks') (λ vs, ret (v :: vs)))
  end.

Definition mget (ks : list string) : prog MemoryCache (list (option string)) :=
  bind c_check (λ _, mget_live ks).

Definition mset (items : list (string * string)) (ttl : option Z) : prog MemoryCache unit :=
  bind c_check (λ _, mapM_ (λ '(k, v), set k v ttl) items).

Definition incr_window (k : string) (ttl : Z) : prog MemoryCache Z :=
  bind c_check (λ _, bind (live k) (λ cur,
  match Z_of_text (or_str cur (text_of_Z 0)) with
  | None => raise (ValueError "invalid literal for int()")
  | Some n =>
      bind (modify (λ c, set_data (<[k := (text_of_Z (n + 1), Some (clock c + ttl))]> (c_data c)) c))
        (λ _, ret (n + 1))
  end)).

(** Python's [l[start:stop]] bounds: negative indices count from the end. *)
Definition py_index (n : nat) (i : Z) : nat :=
  if Z.ltb i 0 then Z.to_nat (Z.max 0 (Z.of_nat n + i)) else Nat.min (Z.to_nat i) n.

Definition py_slice {A} (l : list A) (start stop : Z) : list A :=
  let a := py_index (length l) start in
  let b := py_index (length l) stop in
  take (b - a) (drop a l).

(** The newest [max_len] items; no trim when [max_len] is [None] or 0. *)
Definition trim {A} (max_len : option nat) (l : list A) : list A :=
  match max_len with
  | Some (S n) => lastn (S n) l
  | _ => l
  end.

Definition list_push (k : string) (values : list string) (max_len : option nat)
    (ttl : option Z) : prog MemoryCache Z :=
  bind c_check (λ _, λ c,
    let items := trim max_len (default [] (fst <$> c_lists c !! k) ++ values) in
    (Ok (Z.of_nat (length items)),
     set_lists (<[k := (items, expiry ttl (clock c))]> (c_lists c)) c)).

Definition list_range (k : string) (start stop : Z) : prog MemoryCache (list string) :=
  bind c_check (λ _, λ c,
    match c_lists c !! k with
    | None => (Ok [], c)
    | Some (items, e) =>
        if expired e (clock c) then (Ok [], set_lists (delete k (c_lists c)) c)
        else let stop_idx := if Z.eqb stop (-1) then Z.of_nat (length items) else stop + 1 in
             (Ok (py_slice items start stop_idx), c)
    end).

Definition publish (channel message : string) : prog MemoryCache Z :=
  bind c_check (λ _, λ c,
    let queues := default [] (c_channels c !! channel) in
    (Ok (Z.of_nat (length queues)),
     match c_channels c !! channel with
     | None => c
     | Some qs =>
         set_channels (<[channel := (λ q, (fst q, snd q ++ [message])) <$> qs]> (c_channels c))
           (c_next c) c
     end)).

(** The three moments of a subscription: it opens, yields its next message,
    closes (an outage ends it at the next message). *)
Definition subscribe_open (channel : string) : prog MemoryCache nat :=
  bind c_check (λ _, λ c,
    (Ok (c_next c),
     set_channels (<[channel := default [] (c_channels c !! channel) ++ [(c_next c, [])]]>
                     (c_channels c)) (S (c_next c)) c)).

Definition subscribe_next (channel : string) (q : nat) : prog MemoryCache (option string) :=
  λ c, match list_find (λ x, fst x = q) (default [] (c_channels c !! channel)) with
       | Some (i, (_, m :: rest)) =>
           bind c_check (λ _, ret (Some m))
             (set_channels (<[channel := <[i := (q, rest)]> (default [] (c_channels c !! channel))]>
                              (c_channels c)) (c_next c) c)
       | _ => (Ok None, c)
       end.

Definition subscribe_close (channel : string) (q : nat) (c : MemoryCache) : MemoryCache :=
  set_channels (<[channel := filter (λ x, fst x ≠ q) (default [] (c_channels c !! channel))]>
                  (c_channels c)) (c_next c) c.

(** ** The interface *)

(** What a component may call, and what it may observe: whether the backend is
    up, its clock, the entries and lists a reader sees, and the list a push
    appends to (a provider may keep an expired list until it is next read). *)
Class CacheProvider (C : Type) := {
  cp_get : string → prog C (option string);
  cp_set : string → string → option Z → prog C unit;
  cp_set_if_absent : string → string → option Z → prog C bool;
  cp_delete : list string → prog C Z;
  cp_list_push : string → list string → option nat → option Z → prog C Z;
  cp_list_range : string → Z → Z → prog C (list string);
  up : C → bool;
  now : C → Z;
  entry : C → string → option (string * option Z);
  live_list : C → string → list string;
  stored_list : C → string → list string;
}.

Section frame.
Context {C : Type} `{CacheProvider C}.

(** Nothing a reader sees changed, except that expired lists may be gone. *)
Record same_lists (c c' : C) : Prop := {
  sl_up : up c' = up c;
  sl_now : now c' = now c;
  sl_live k : live_list c' k = live_list c k;
  sl_stored k : stored_list c' k = stored_list c k ∨ (stored_list c' k = [] ∧ live_list c k = []);
}.

Record same_cache (c c' : C) : Prop := {
  sc_lists : same_lists c c';
  sc_entry k : entry c' k = entry c k;
}.

Definition reply {A} (c : C) (a : A) : res A := if up c then Ok a else Raise CacheUnavailable.

Definition ttl_ok (ttl : option Z) : Prop :=
  match ttl with
  | Some s => 0 < s
  | None => True
  end.
End frame.

Class CacheLaws (C : Type) `{CacheProvider C} := {
  law_get k c : ∃ c', cp_get k c = (reply c (fst <$> entry c k), c') ∧ same_cache c c';
  law_set k v ttl c : ttl_ok ttl →
    ∃ c', cp_set k v ttl c = (reply c tt, c') ∧ same_lists c c' ∧
      ∀ k', entry c' k' = if up c && String.eqb k k' then Some (v, expiry ttl (now c))
                          else entry c k';
  law_set_if_absent k v ttl c : ttl_ok ttl →
    ∃ c', cp_set_if_absent k v ttl c = (reply c (bool_decide (entry c k = None)), c') ∧
      same_lists c c' ∧
      ∀ k', entry c' k' = if up c && String.eqb k k' && bool_decide (entry c k = None)
                          then Some (v, expiry ttl (now c)) else entry c k';
  law_delete ks c :
    ∃ n c', cp_delete ks c = (reply c n, c') ∧ up c' = up c ∧ now c' = now c ∧
      (∀ k, entry c' k = if up c && bool_decide (k ∈ ks) then None else entry c k) ∧
      (∀ k, live_list c' k = if up c && bool_decide (k ∈ ks) then [] else live_list c k) ∧
      (∀ k, stored_list c' k = if up c && bool_decide (k ∈ ks) then [] else stored_list c k);
  law_list_push k vs max ttl c : ttl_ok ttl →
    ∃ n c', cp_list_push k vs max ttl c = (reply c n, c') ∧ up c' = up c ∧ now c' = now c ∧
      (∀ k', entry c' k' = entry c k') ∧
      (∀ k', live_list c' k' = if up c && String.eqb k k' then trim max (stored_list c k ++ vs)
                               else live_list c k') ∧
      (∀ k', stored_list c' k' = if up c && String.eqb k k' then trim max (stored_list c k ++ vs)
                                 else stored_list c k');
  law_list_range k start stop c :
    ∃ c', cp_list_range k start stop c =
        (reply c (py_slice (live_list c k) start
           (if Z.eqb stop (-1) then Z.of_nat (length (live_list c k)) else stop + 1)), c') ∧
      same_cache c c';
  law_stored k c : stored_list c k = live_list c k ∨ live_list c k = [];
}.

(** ** The in-process provider satisfies the interface *)

Definition data_entry (c : MemoryCache) (k : string) : option (string * option Z) :=
  match c_data c !! k with
  | Some (v, e) => if expired e (clock c) then None else Some (v, e)
  | None => None
  end.

Definition list_entry (c : MemoryCache) (k : string) : list string :=
  match c_lists c !! k with
  | Some (l, e) => if expired e (clock c) then [] else l
  | None => []
  end.

Definition raw_list (c : MemoryCache) (k : string) : list string :=
  default [] (fst <$> c_lists c !! k).

#[export] Instance MemoryCache_provider : CacheProvider MemoryCache := {
  cp_get := get; cp_set := set; cp_set_if_absent := set_if_absent; cp_delete := delete_;
  cp_list_push := list_push; cp_list_range := list_range;
  up := c_available; now := clock; entry := data_entry; live_list := list_entry;
  stored_list := raw_list;
}.

Lemma expiry_fresh ttl n : ttl_ok ttl → expired (expiry ttl n) n = false.
Proof.
  destruct ttl as [s|]; simpl; [|done]. intros Hs. rewrite (proj2 (Z.eqb_neq s 0)) by lia. simpl. lia.
Qed.

Lemma c_check_eq {A} (k : unit → prog MemoryCache A) c :
  bind c_check k c =
  if c_available c then k tt (count_op c) else (Raise CacheUnavailable, count_op c).
Proof. unfold c_check; run. by destruct (c_available c). Qed.

Lemma live_eq k c :
  live k c = (Ok (fst <$> data_entry c k),
              match data_entry c k with None => set_data (delete k (c_data c)) c | Some _ => c end).
Proof.
  unfold live, data_entry. destruct (c_data c !! k) as [[v e]|] eqn:E.
  - by destruct (expired e (clock c)).
  - simpl. f_equal. destruct c; unfold set_data; simpl in *. f_equal. symmetry. by apply delete_id.
Qed.

Lemma data_entry_delete c k k' :
  data_entry (set_data (delete k (c_data c)) c) k' = if String.eqb k k' then None else data_entry c k'.
Proof.
  unfold data_entry; simpl. rewrite lookup_delete.
  destruct (String.eqb_spec k k'); [by rewrite decide_True|by rewrite decide_False].
Qed.

Lemma data_entry_insert c k v ttl k' :
  ttl_ok ttl →
  data_entry (set_data (<[k := (v, expiry ttl (clock c))]> (c_data c)) c) k' =
  if String.eqb k k' then Some (v, expiry ttl (clock c)) else data_entry c k'.
Proof.
  intros Ht. unfold data_entry; simpl. rewrite lookup_insert.
  destruct (String.eqb_spec k k'); [rewrite decide_True by done|by rewrite decide_False].
  by rewrite expiry_fresh.
Qed.

Lemma same_lists_of_eq (c c' : MemoryCache) :
  c_lists c' = c_lists c → c_available c' = c_available c → clock c' = clock c → same_lists c c'.
Proof.
  intros Hl Ha Hn. split; [done|done| |]; intros k;
    unfold live_list, stored_list, MemoryCache_provider, list_entry, raw_list; rewrite Hl, ?Hn; auto.
Qed.

Lemma delete_keys_spec ks n c :
  let '(_, c') := delete_keys ks n c in
  c_available c' = c_available c ∧ clock c' = clock c ∧
  (∀ k, c_data c' !! k = if decide (k ∈ ks) then None else c_data c !! k) ∧
  (∀ k, c_lists c' !! k = if decide (k ∈ ks) then None else c_lists c !! k).
Proof.
  revert n c; induction ks as [|k0 ks IH]; intros n c; simpl.
  { split_and!; try done; intros k; rewrite decide_False by set_solver; done. }
  case_decide as Hk.
  - specialize (IH (n + 1) (set_lists (delete k0 (c_lists c)) (set_data (delete k0 (c_data c)) c))).
    destruct (delete_keys ks _ _) as [m c']. simpl in IH. destruct IH as (Ha & Hn & Hd & Hl).
    split_and!; [done|done| |]; intros k; [rewrite Hd|rewrite Hl]; rewrite lookup_delete;
      repeat case_decide; set_solver.
  - specialize (IH n c). destruct (delete_keys ks _ _) as [m c']. destruct IH as (Ha & Hn & Hd & Hl).
    apply Decidable.not_or in Hk as [H1%eq_None_not_Some H2%eq_None_not_Some].
    split_and!; [done|done| |]; intros k; [rewrite Hd|rewrite Hl];
      repeat case_decide; try set_solver; destruct (decide (k = k0)) as [->|]; set_solver.
Qed.

Lemma count_op_frame c :
  c_available (count_op c) = c_available c ∧ clock (count_op c) = clock c ∧
  c_lists (count_op c) = c_lists c ∧ c_data (count_op c) = c_data c.
Proof. done. Qed.

Lemma memory_law_get k (c : MemoryCache) :
  ∃ c', get k c = (reply c (fst <$> data_entry c k), c') ∧ same_cache c c'.
Proof.
  unfold get. rewrite c_check_eq. unfold reply. cbn [up MemoryCache_provider].
  destruct (c_available c) eqn:Ha.
  - rewrite live_eq. eexists; split; [done|].
    split; [apply same_lists_of_eq; by destruct (data_entry (count_op c) k)|]. intros k'.
    cbn [entry MemoryCache_provider]. change (data_entry c) with (data_entry (count_op c)).
    destruct (data_entry (count_op c) k) eqn:E; [done|].
    rewrite data_entry_delete. destruct (String.eqb_spec k k'); congruence.
  - eexists; split; [done|]. split; [by apply same_lists_of_eq|done].
Qed.

Lemma memory_law_set k v ttl (c : MemoryCache) :
  ttl_ok ttl →
  ∃ c', set k v ttl c = (reply c tt, c') ∧ same_lists c c' ∧
    ∀ k', data_entry c' k' = if c_available c && String.eqb k k'
                             then Some (v, expiry ttl (clock c)) else data_entry c k'.
Proof.
  intros Ht. unfold set. rewrite c_check_eq. unfold reply. cbn [up MemoryCache_provider].
  destruct (c_available c) eqn:Ha; (eexists; split; [done|]);
    (split; [by apply same_lists_of_eq|]); [|done].
  intros k'. apply (data_entry_insert (count_op c) k v ttl k' Ht).
Qed.

Lemma memory_law_set_if_absent k v ttl (c : MemoryCache) :
  ttl_ok ttl →
  ∃ c', set_if_absent k v ttl c = (reply c (bool_decide (data_entry c k = None)), c') ∧
    same_lists c c' ∧
    ∀ k', data_entry c' k' =
      if c_available c && String.eqb k k' && bool_decide (data_entry c k = None)
      then Some (v, expiry ttl (clock c)) else data_entry c k'.
Proof.
  intros Ht. unfold set_if_absent. rewrite c_check_eq. unfold reply.
  cbn [up MemoryCache_provider].
  destruct (c_available c) eqn:Ha.
  2: { eexists; split; [done|]. split; [by apply same_lists_of_eq|done]. }
  unfold bind at 1. rewrite live_eq. change (data_entry (count_op c)) with (data_entry c).
  destruct (data_entry c k) as [[v' e']|] eqn:E; simpl.
  - eexists; split; [done|]. split; [by apply same_lists_of_eq|]. intros k'.
    by rewrite andb_false_r.
  - set (c1 := set_data _ (count_op c)).
    destruct (memory_law_set k v ttl c1 Ht) as (c2 & H2 & Hl & He).
    unfold bind. rewrite H2. unfold reply. cbn [up MemoryCache_provider].
    replace (c_available c1) with true in * by (by rewrite <- Ha). eexists; split; [done|]. split.
    + destruct Hl as [Hu Hn Hli Hs]. split; [by rewrite Hu|by rewrite Hn| |]; intros k'.
      * by rewrite Hli.
      * destruct (Hs k'); auto.
    + intros k'. rewrite He, andb_true_r. simpl.
      destruct (String.eqb_spec k k'); [done|].
      etransitivity; [exact (data_entry_delete (count_op c) k k')|].
      by rewrite (proj2 (String.eqb_neq k k')).
Qed.

Lemma data_entry_lookup c k c' k' :
  c_data c' !! k' = c_data c !! k → clock c' = clock c → data_entry c' k' = data_entry c k.
Proof. unfold data_entry. by intros -> ->. Qed.

Lemma memory_law_delete ks (c : MemoryCache) :
  ∃ n c', delete_ ks c = (reply c n, c') ∧ c_available c' = c_available c ∧ clock c' = clock c ∧
    (∀ k, data_entry c' k = if c_available c && bool_decide (k ∈ ks) then None else data_entry c k) ∧
    (∀ k, list_entry c' k = if c_available c && bool_decide (k ∈ ks) then [] else list_entry c k) ∧
    (∀ k, raw_list c' k = if c_available c && bool_decide (k ∈ ks) then [] else raw_list c k).
Proof.
  unfold delete_. rewrite c_check_eq. unfold reply. cbn [up MemoryCache_provider].
  destruct (c_available c) eqn:Ha.
  2: { exists 0. eexists; split; [done|]. by split_and!. }
  pose proof (delete_keys_spec ks 0 (count_op c)) as Hd.
  destruct (delete_keys ks 0 (count_op c)) as [n c'] eqn:E. destruct Hd as (Hav & Hn & Hd & Hl).
  exists n, c'. split; [done|]. split; [by rewrite Hav|]. split; [by rewrite Hn|].
  split_and!; intros k; simpl; case_bool_decide as Hk;
    unfold data_entry, list_entry, raw_list; rewrite ?Hd, ?Hl, ?Hn;
    rewrite ?decide_True, ?decide_False by done; done.
Qed.

Lemma memory_law_list_push k vs max ttl (c : MemoryCache) :
  ttl_ok ttl →
  ∃ n c', list_push k vs max ttl c = (reply c n, c') ∧ c_available c' = c_available c ∧
    clock c' = clock c ∧
    (∀ k', data_entry c' k' = data_entry c k') ∧
    (∀ k', list_entry c' k' = if c_available c && String.eqb k k'
                              then trim max (raw_list c k ++ vs) else list_entry c k') ∧
    (∀ k', raw_list c' k' = if c_available c && String.eqb k k'
                            then trim max (raw_list c k ++ vs) else raw_list c k').
Proof.
  intros Ht. unfold list_push. rewrite c_check_eq. unfold reply. cbn [up MemoryCache_provider].
  destruct (c_available c) eqn:Ha.
  2: { exists 0. eexists; split; [done|]. by split_and!. }
  eexists _, _; split; [done|]. split; [done|]. split; [done|]. split; [done|].
  split; intros k'; simpl; unfold list_entry, raw_list; simpl; rewrite lookup_insert;
    (destruct (String.eqb_spec k k') as [->|]; [rewrite decide_True by done|by rewrite decide_False]);
    [by rewrite expiry_fresh|done].
Qed.

Lemma memory_law_list_range k start stop (c : MemoryCache) :
  ∃ c', list_range k start stop c =
      (reply c (py_slice (list_entry c k) start
         (if Z.eqb stop (-1) then Z.of_nat (length (list_entry c k)) else stop + 1)), c') ∧
    same_cache c c'.
Proof.
  unfold list_range. rewrite c_check_eq. unfold reply. cbn [up MemoryCache_provider].
  destruct (c_available c) eqn:Ha.
  2: { eexists; split; [done|]. split; [by apply same_lists_of_eq|done]. }
  unfold list_entry. simpl. destruct (c_lists c !! k) as [[l e]|] eqn:E.
  2: { exists (count_op c); split; [|split; [by apply same_lists_of_eq|done]].
       unfold py_slice. by rewrite drop_nil, take_nil. }
  destruct (expired e (clock c)) eqn:He.
  2: { eexists; split; [done|]. split; [by apply same_lists_of_eq|done]. }
  exists (set_lists (delete k (c_lists c)) (count_op c)).
  split; [unfold py_slice; by rewrite drop_nil, take_nil|]. split; [|done]. split; [done|done| |]; intros k';
    cbn [live_list stored_list MemoryCache_provider]; unfold list_entry, raw_list; simpl;
    rewrite lookup_delete; case_decide as Hk; subst; rewrite ?E, ?He; auto.
Qed.

#[export] Instance MemoryCache_laws : CacheLaws MemoryCache.
Proof.
  split.
  - intros k c. apply memory_law_get.
  - intros k v ttl c Ht. by apply memory_law_set.
  - intros k v ttl c Ht. by apply memory_law_set_if_absent.
  - apply memory_law_delete.
  - intros k vs max ttl c Ht. by apply memory_law_list_push.
  - apply memory_law_list_range.
  - intros k c. cbn [live_list stored_list MemoryCache_provider]. unfold raw_list, list_entry.
    destruct (c_lists c !! k) as [[l e]|]; simpl; [|by left]. destruct (expired e (clock c)); auto.
Defined.

(** ** Properties *)

(** On the in-process provider an entry set with a positive time to live is
    read back as it was written until its time is over, and is gone after it;
    an unavailable provider raises [CacheUnavailable] and stores nothing. *)
Theorem cache_entry_lifetime (c : MemoryCache) k v ttl d :
  0 < ttl → 0 ≤ d →
  let c' := tick d (snd (set k v (Some ttl) c)) in
  fst (get k c') =
    if c_available c then Ok (if Z.leb d ttl then Some v else None) else Raise CacheUnavailable.
Proof.
  intros Ht Hd. unfold set, get. rewrite !c_check_eq.
  destruct (c_available c) eqn:Ha; simpl; rewrite Ha; [|done].
  rewrite live_eq; simpl. unfold data_entry; simpl. rewrite lookup_insert_eq.
  unfold expiry. rewrite (proj2 (Z.eqb_neq ttl 0)) by lia. simpl.
  destruct (Z.ltb_spec (clock c + ttl) (clock c + d)), (Z.leb_spec d ttl); try lia; done.
Qed.

Lemma cache_entry_lifetime_witness :
  fst (get "k" (tick 60 (snd (set "k" "v" (Some 60) new_cache)))) = Ok (Some "v") ∧
  fst (get "k" (tick 61 (snd (set "k" "v" (Some 60) new_cache)))) = Ok None.
Proof.
  split; [apply (cache_entry_lifetime new_cache "k" "v" 60 60); lia
         |apply (cache_entry_lifetime new_cache "k" "v" 60 61); lia].
Defined.
