(* ===== verification/Messages.v ===== *)
(** * Messages: the conversation data model (domain/conversation.py).

    Threads, sessions, turns, messages with their attachments and tool calls,
    and agent runs; why a message may not carry tool fields; and the JSON a
    message is cached as. Timestamps are integers; [None] is Python's [None]. *)
From S2P Require Import Prelude Errors.

(** ** Enumerations (domain/enums.py) *)

Inductive MessageRole : Set := RUser | RAssistant | RSystem | RTool | RAgent | REvent.
Inductive MessageKind : Set := VISIBLE | INTERNAL.
Inductive ArchiveStatus : Set := STAGED | ARCHIVING | ARCHIVED_ | PURGED.

#[export] Instance MessageRole_eq_dec : EqDecision MessageRole.
Proof. solve_decision. Defined.
#[export] Instance MessageKind_eq_dec : EqDecision MessageKind.
Proof. solve_decision. Defined.
#[export] Instance ArchiveStatus_eq_dec : EqDecision ArchiveStatus.
Proof. solve_decision. Defined.

Definition role_value (r : MessageRole) : string :=
  match r with
  | RUser => "USER" | RAssistant => "ASSISTANT" | RSystem => "SYSTEM" | RTool => "TOOL"
  | RAgent => "AGENT" | REvent => "EVENT"
  end.
Definition role_of (s : string) : option MessageRole :=
  list_find (λ r, role_value r = s) [RUser; RAssistant; RSystem; RTool; RAgent; REvent] ≫= λ p, Some (snd p).

Definition message_kind_value (k : MessageKind) : string :=
  match k with VISIBLE => "VISIBLE" | INTERNAL => "INTERNAL" end.
Definition message_kind_of (s : string) : option MessageKind :=
  list_find (λ k, message_kind_value k = s) [VISIBLE; INTERNAL] ≫= λ p, Some (snd p).

Definition archive_value (a : ArchiveStatus) : string :=
  match a with
  | STAGED => "STAGED" | ARCHIVING => "ARCHIVING" | ARCHIVED_ => "ARCHIVED" | PURGED => "PURGED"
  end.
Definition archive_of (s : string) : option ArchiveStatus :=
  list_find (λ a, archive_value a = s) [STAGED; ARCHIVING; ARCHIVED_; PURGED] ≫= λ p, Some (snd p).

(** ** Data *)

Record Thread := {
  th_id : string;
  th_tenant : string;
  th_workspace : option string;
  th_owner : option string;
  th_title : option string;
  th_source_system : option string;
  th_source_id : option string;
  th_system : gmap string json;
  th_custom : gmap string json;
  th_revision : Z;
  th_created_at : Z;
  th_updated_at : Z;
  th_archived_at : option Z;
  th_deleted_at : option Z;
}.

Record Session := {
  se_id : string;
  se_thread : string;
  se_tenant : string;
  se_user : option string;
  se_client : option string;
  se_started_at : Z;
  se_custom : gmap string json;
}.

(** One user question and everything that happened while answering it. *)
Record Turn := {
  tu_id : string;
  tu_session : string;
  tu_thread : string;
  tu_tenant : string;
  tu_sequence : Z;
  tu_started_at : Z;
  tu_custom : gmap string json;
}.

Record MessageToolCall := {
  tc_id : string;
  tc_name : string;
  tc_arguments : gmap string json;
}.

Record Attachment := {
  at_id : string;
  at_message : string;
  at_document : option string;
  at_filename : string;
  at_media_type : string;
  at_size_bytes : Z;
  at_checksum : string;
}.

Record Message := {
  message_id : string;
  m_thread_id : string;
  m_session_id : string;
  m_turn_id : string;
  m_tenant_id : string;
  role : MessageRole;
  kind : MessageKind;
  sequence : Z;
  content : string;
  content_hash : string;
  m_version : Z;
  author_principal : string;
  m_agent_run_id : option string;
  parent_message_id : option string;
  m_attachments : list Attachment;
  m_tool_calls : list MessageToolCall;
  tool_call_id : option string;
  source_system : option string;
  source_message_id : option string;
  occurred_at : Z;
  message_created_at : Z;
  archive_status : ArchiveStatus;
  m_system : gmap string json;
  m_custom_metadata : gmap string json;
  message_deleted_at : option Z;
}.

(** One execution of an agent within a turn. *)
Record AgentRun := {
  ar_id : string;
  ar_tenant : string;
  ar_thread : option string;
  ar_session : option string;
  ar_turn : option string;
  ar_work : option string;
  ar_task : option string;
  ar_agent : string;
  ar_group : option string;
  ar_parent : option string;
  ar_status : string;
  ar_started_at : Z;
  ar_completed_at : option Z;
  ar_trace : option string;
  ar_custom : gmap string json;
}.

(** Why a message may not carry these tool fields. *)
Definition tool_fields_problem (r : MessageRole) (tool_calls : list MessageToolCall) (call_id : option string) :
    option string :=
  if negb (bool_decide (tool_calls = [])) && negb (bool_decide (r = RAssistant))
  then Some "only an ASSISTANT message makes tool calls"
  else if bool_decide (is_Some call_id) && negb (bool_decide (r = RTool))
  then Some "only a TOOL message answers a tool call (tool_call_id)"
  else None.

Definition visible (m : Message) : bool := bool_decide (kind m = VISIBLE).

(** ** A message as JSON ([model_dump_json], [model_validate_json]) *)

Definition jopt (o : option string) : json := match o with Some s => JStr s | None => JNull end.
Definition jopt_num (o : option Z) : json := match o with Some n => JNum n | None => JNull end.
Definition jmap (m : gmap string json) : json := JObj (map_to_list m).

Definition str_of (j : json) : option string := match j with JStr s => Some s | _ => None end.
Definition num_of (j : json) : option Z := match j with JNum n => Some n | _ => None end.
Definition opt_of (j : json) : option (option string) :=
  match j with JStr s => Some (Some s) | JNull => Some None | _ => None end.
Definition opt_num_of (j : json) : option (option Z) :=
  match j with JNum n => Some (Some n) | JNull => Some None | _ => None end.
Definition map_of (j : json) : option (gmap string json) :=
  match j with JObj l => Some (list_to_map l) | _ => None end.
Definition list_of {A} (f : json → option A) (j : json) : option (list A) :=
  match j with JList l => mapM f l | _ => None end.

Definition tool_call_json (c : MessageToolCall) : json :=
  JObj [("id", JStr (tc_id c)); ("name", JStr (tc_name c)); ("arguments", jmap (tc_arguments c))].
Definition tool_call_of (j : json) : option MessageToolCall :=
  match j with
  | JObj [(_, i); (_, n); (_, a)] =>
      i ← str_of i; n ← str_of n; a ← map_of a; Some {| tc_id := i; tc_name := n; tc_arguments := a |}
  | _ => None
  end.

Definition attachment_json (a : Attachment) : json :=
  JObj [("attachment_id", JStr (at_id a)); ("message_id", JStr (at_message a)); ("document_id", jopt (at_document a));
        ("filename", JStr (at_filename a)); ("media_type", JStr (at_media_type a));
        ("size_bytes", JNum (at_size_bytes a)); ("checksum", JStr (at_checksum a))].
Definition attachment_of (j : json) : option Attachment :=
  match j with
  | JObj [(_, i); (_, m); (_, d); (_, f); (_, t); (_, n); (_, c)] =>
      i ← str_of i; m ← str_of m; d ← opt_of d; f ← str_of f; t ← str_of t; n ← num_of n; c ← str_of c;
      Some {| at_id := i; at_message := m; at_document := d; at_filename := f; at_media_type := t;
              at_size_bytes := n; at_checksum := c |}
  | _ => None
  end.

Definition message_json (m : Message) : json :=
  JObj [("message_id", JStr (message_id m)); ("thread_id", JStr (m_thread_id m));
        ("session_id", JStr (m_session_id m)); ("turn_id", JStr (m_turn_id m));
        ("tenant_id", JStr (m_tenant_id m)); ("role", JStr (role_value (role m)));
        ("kind", JStr (message_kind_value (kind m))); ("sequence", JNum (sequence m)); ("content", JStr (content m));
        ("content_hash", JStr (content_hash m)); ("version", JNum (m_version m));
        ("author_principal", JStr (author_principal m)); ("agent_run_id", jopt (m_agent_run_id m));
        ("parent_message_id", jopt (parent_message_id m));
        ("attachments", JList (attachment_json <$> m_attachments m));
        ("tool_calls", JList (tool_call_json <$> m_tool_calls m)); ("tool_call_id", jopt (tool_call_id m));
        ("source_system", jopt (source_system m)); ("source_message_id", jopt (source_message_id m));
        ("occurred_at", JNum (occurred_at m)); ("created_at", JNum (message_created_at m));
        ("archive_status", JStr (archive_value (archive_status m))); ("system_metadata", jmap (m_system m));
        ("custom_metadata", jmap (m_custom_metadata m)); ("deleted_at", jopt_num (message_deleted_at m))].

Definition message_of (j : json) : option Message :=
  match j with
  | JObj [(_, i); (_, th); (_, se); (_, tu); (_, te); (_, r); (_, k); (_, sq); (_, ct); (_, ch); (_, ve); (_, au);
          (_, ar); (_, pm); (_, at_); (_, cl); (_, tc); (_, ss); (_, sm); (_, oc); (_, cr); (_, st); (_, sy); (_, cu);
          (_, de)] =>
      i ← str_of i; th ← str_of th; se ← str_of se; tu ← str_of tu; te ← str_of te; r ← str_of r; r ← role_of r;
      k ← str_of k; k ← message_kind_of k; sq ← num_of sq; ct ← str_of ct; ch ← str_of ch; ve ← num_of ve; au ← str_of au;
      ar ← opt_of ar; pm ← opt_of pm; at_ ← list_of attachment_of at_; cl ← list_of tool_call_of cl; tc ← opt_of tc;
      ss ← opt_of ss; sm ← opt_of sm; oc ← num_of oc; cr ← num_of cr; st ← str_of st; st ← archive_of st;
      sy ← map_of sy; cu ← map_of cu; de ← opt_num_of de;
      Some {| message_id := i; m_thread_id := th; m_session_id := se; m_turn_id := tu; m_tenant_id := te;
              role := r; kind := k; sequence := sq; content := ct; content_hash := ch; m_version := ve;
              author_principal := au; m_agent_run_id := ar; parent_message_id := pm; m_attachments := at_;
              m_tool_calls := cl; tool_call_id := tc; source_system := ss; source_message_id := sm;
              occurred_at := oc; message_created_at := cr; archive_status := st; m_system := sy;
              m_custom_metadata := cu; message_deleted_at := de |}
  | _ => None
  end.

(** ** The round trip *)


Lemma opt_of_jopt o : opt_of (jopt o) = Some o.
Proof. by destruct o. Qed.

Lemma opt_num_of_jopt o : opt_num_of (jopt_num o) = Some o.
Proof. by destruct o. Qed.

Lemma map_of_jmap m : map_of (jmap m) = Some m.
Proof. unfold map_of, jmap. by rewrite list_to_map_to_list. Qed.

Lemma list_of_fmap {A} (f : json → option A) (g : A → json) l :
  (∀ x, f (g x) = Some x) → list_of f (JList (g <$> l)) = Some l.
Proof. intros Hfg. simpl. by apply mapM_fmap_Some. Qed.

Lemma tool_call_of_json c : tool_call_of (tool_call_json c) = Some c.
Proof. destruct c. unfold tool_call_of, tool_call_json. csimpl. by rewrite list_to_map_to_list. Qed.

Lemma attachment_of_json a : attachment_of (attachment_json a) = Some a.
Proof. by destruct a as [? ? [] ? ? ? ?]. Qed.

(** Reading back the JSON a message is cached as gives the message, its
    attachments, tool calls and metadata included. *)
Lemma message_of_json m : message_of (message_json m) = Some m.
Proof.
  destruct m as [i th se tu te r k sq ct ch ve au ar pm at_ cl tc ss sm oc cr st sy cu de].
  assert (role_of (role_value r) = Some r) as Hr by by destruct r.
  assert (message_kind_of (message_kind_value k) = Some k) as Hk by by destruct k.
  assert (archive_of (archive_value st) = Some st) as Hst by by destruct st.
  unfold message_of, message_json. cbn [message_id m_thread_id m_session_id m_turn_id m_tenant_id role kind sequence
    content content_hash m_version author_principal m_agent_run_id parent_message_id m_attachments m_tool_calls
    tool_call_id source_system source_message_id occurred_at message_created_at archive_status m_system
    m_custom_metadata message_deleted_at str_of num_of mbind option_bind].
  rewrite Hr, Hk, Hst, !opt_of_jopt, !map_of_jmap, opt_num_of_jopt. cbn [mbind option_bind].
  rewrite (list_of_fmap _ _ _ attachment_of_json), (list_of_fmap _ _ _ tool_call_of_json). done.
Qed.

#[export] Program Instance message_codec : Codec Message := {|
  dump m := String "{" (bits_of (encode (message_json m)));
  parse s := j ← decode (of_bits (str_tail s)); message_of j;
|}.
Next Obligation. intros m. simpl. rewrite of_bits_of, decode_encode. apply message_of_json. Qed.
Next Obligation. intros. by eexists. Qed.
