(* ===== verification/HotThread.v ===== *)
(** * HotThread: the recent messages of a thread, cached
    (modules/working_memory/hot_thread.py).

    The store is the list of a thread's messages, oldest first, with the
    thread's revision; the cache holds the newest visible ones and the revision
    they were pushed at. The specification is the store's own answer,
    [newest_visible]. [recent_is_newest] says the cache answers it whenever it
    answers at all, whatever pushes were lost, late or out of order, unless an
    internal message's revision was pushed over a missing visible one;
    [recent_stale_after_outage] is a run where it was. *)
From S2P Require Import Prelude Errors Cache Messages.

(** ** Operations *)

Section hot.
Context {C : Type} `{CacheLaws C} `{Codec Message}.
Variable max_messages : nat.
Variable ttl : Z.

Definition hot_key (tenant_id thread_id : string) : string :=
  "hot:thread:" +:+ tenant_id +:+ ":" +:+ thread_id.

Definition rev_key (tenant_id thread_id : string) : string :=
  hot_key tenant_id thread_id +:+ ":rev".

(** The push [append] and [refill] make: [list_push] on the thread's list. *)
Definition push (tenant_id thread_id : string) (m : Message) : prog C unit :=
  bind (cp_list_push (hot_key tenant_id thread_id) [dump m] (Some max_messages) (Some ttl))
    (λ _, ret tt).

(** [append], on a configured cache. *)
Definition append (m : Message) (revision : Z) : prog C unit :=
  suppress_cache tt (
    bind (if visible m
          then push (m_tenant_id m) (m_thread_id m) m
          else ret tt) (λ _,
    cp_set (rev_key (m_tenant_id m) (m_thread_id m)) (text_of_Z revision) (Some ttl))).

Definition refill (tenant_id thread_id : string) (messages : list Message) (revision : Z) :
    prog C unit :=
  match messages with
  | [] => ret tt
  | _ =>
      let vis := lastn max_messages (filter (λ m, visible m = true) messages) in
      suppress_cache tt (
        bind (cp_delete [hot_key tenant_id thread_id]) (λ _,
        bind (mapM_ (push tenant_id thread_id) vis) (λ _,
        cp_set (rev_key tenant_id thread_id) (text_of_Z revision) (Some ttl))))
  end.

Fixpoint parse_all (l : list string) : option (list Message) :=
  match l with
  | [] => Some []
  | x :: l' => m ← parse x; ms ← parse_all l'; Some (m :: ms)
  end.

(** [seqs == list(range(seqs[0], seqs[0] + len(seqs)))]. *)
Fixpoint consecutive (from : Z) (l : list Z) : bool :=
  match l with
  | [] => true
  | x :: l' => Z.eqb x from && consecutive (from + 1) l'
  end.

(** The checks on what the list held: [None] is a miss. *)
Definition accept (limit : Z) (messages : list Message) : option (list Message) :=
  match messages with
  | [] => None
  | m :: _ =>
      if negb (consecutive (sequence m) (sequence <$> messages)) then None
      else if Z.ltb (Z.of_nat (length messages)) limit && negb (Z.eqb (sequence m) 1) then None
      else Some messages
  end.

Definition read_range (tenant_id thread_id : string) (limit : Z) :
    prog C (option (list Message)) :=
  bind (suppress_cache None (bind (cp_list_range (hot_key tenant_id thread_id) (- limit) (-1))
                               (λ raw, ret (Some raw)))) (λ raw,
  match raw with
  | None | Some [] => ret None
  | Some raw => match parse_all raw with
                | None => raise (ValueError "invalid JSON")
                | Some ms => ret (accept limit ms)
                end
  end).

Definition recent (tenant_id thread_id : string) (limit : Z) (revision : option Z) :
    prog C (option (list Message)) :=
  match revision with
  | None => read_range tenant_id thread_id limit
  | Some r =>
      bind (suppress_cache None (bind (cp_get (rev_key tenant_id thread_id))
                                   (λ v, ret (Some v)))) (λ stored,
      match stored with
      | None | Some None => ret None
      | Some (Some v) => match Z_of_text v with
                         | None => raise (ValueError "invalid literal for int()")
                         | Some n => if Z.eqb n r then read_range tenant_id thread_id limit
                                     else ret None
                         end
      end)
  end.

Definition invalidate (tenant_id thread_id : string) : prog C unit :=
  suppress_cache tt (
    bind (cp_delete [hot_key tenant_id thread_id]) (λ _,
    bind (cp_delete [rev_key tenant_id thread_id]) (λ _, ret tt))).
End hot.

(** ** The specification: what the store would answer *)

(** The newest [limit] visible messages, oldest first. *)
Definition newest_visible (limit : nat) (store : list Message) : list Message :=
  lastn limit (filter (λ m, visible m = true) store).

(** How far the cached list is behind the store's visible messages. *)
Inductive hot_gap :=
| Whole    (** it ends with the newest one, or is empty *)
| Behind   (** a push is outstanding, was lost or came late *)
| Misled.  (** so, and an internal message's revision was pushed meanwhile *)
#[export] Instance hot_gap_eq_dec : EqDecision hot_gap.
Proof. solve_decision. Defined.

Definition vis_of (l : list Message) : list Message := filter (λ m, visible m = true) l.

(** The sequence of the newest visible message. *)
Definition newest_seq (l : list Message) : option Z := sequence <$> last (vis_of l).

(** The life of one thread: messages are committed; a push of a committed message
    runs at some later time, once or again, with the cache up or down; other writes
    move the thread's revision; the environment acts on the cache (time, evictions,
    outages); a reader refills it with what it read at an earlier instant; and it is
    invalidated. *)
Section life.
Context {C : Type} `{CacheLaws C} `{Codec Message}.
Variable max_messages : nat.
Variable ttl : Z.
Variables tid th : string.

Record hstate := {
  h_store : list Message;
  h_rev : Z;
  h_cache : C;
  h_gap : hot_gap;
  h_commits : list (Message * Z);   (** with the revision each commit left *)
}.

Definition hkey : string := hot_key tid th.
Definition rkey : string := rev_key tid th.

Definition committed (s : hstate) (m : Message) : hstate :=
  {| h_store := h_store s ++ [m]; h_rev := h_rev s + 1; h_cache := h_cache s;
     h_gap := if visible m then Behind else h_gap s; h_commits := (m, h_rev s + 1) :: h_commits s |}.

Definition pushed (s : hstate) (m : Message) (r : Z) : hstate :=
  {| h_store := h_store s; h_rev := h_rev s; h_cache := snd (append max_messages ttl m r (h_cache s));
     h_gap := if up (h_cache s) then
                if visible m then if bool_decide (newest_seq (h_store s) = Some (sequence m)) then Whole else Behind
                else match h_gap s with Whole => Whole | _ => Misled end
              else h_gap s;
     h_commits := h_commits s |}.

(** A message committed and pushed at once. *)
Definition after_append (s : hstate) (m : Message) : hstate := pushed (committed s m) m (h_rev s + 1).

Definition refilled (s : hstate) (limit : nat) (store0 : list Message) (r : Z) : hstate :=
  {| h_store := h_store s; h_rev := h_rev s;
     h_cache := snd (refill max_messages ttl tid th (newest_visible limit store0) r (h_cache s));
     h_gap := if up (h_cache s) then if bool_decide (newest_seq store0 = newest_seq (h_store s)) then Whole else Behind else h_gap s;
     h_commits := h_commits s |}.

Definition with_cache (s : hstate) (c : C) : hstate :=
  {| h_store := h_store s; h_rev := h_rev s; h_cache := c; h_gap := h_gap s; h_commits := h_commits s |}.

Inductive hstep (s : hstate) : hstate → Prop :=
| step_commit m :
    m_tenant_id m = tid → m_thread_id m = th →
    (∀ x, x ∈ h_store s → sequence x < sequence m) → 1 ≤ sequence m →
    hstep s (committed s m)
| step_push m r : (m, r) ∈ h_commits s → hstep s (pushed s m r)
| step_touch :
    hstep s {| h_store := h_store s; h_rev := h_rev s + 1; h_cache := h_cache s; h_gap := h_gap s; h_commits := h_commits s |}
| step_env c' :
    (stored_list c' hkey = stored_list (h_cache s) hkey ∨ stored_list c' hkey = []) →
    (entry c' rkey = entry (h_cache s) rkey ∨ entry c' rkey = None) →
    hstep s (with_cache s c')
| step_refill limit store0 r :
    store0 `prefix_of` h_store s → r ≤ h_rev s → (r = h_rev s → store0 = h_store s) →
    newest_visible limit store0 ≠ [] → hstep s (refilled s limit store0 r)
| step_invalidate : hstep s (with_cache s (snd (invalidate tid th (h_cache s)))).

Inductive reachable (c0 : C) : hstate → Prop :=
| reachable_start :
    stored_list c0 hkey = [] → entry c0 rkey = None →
    reachable c0 {| h_store := []; h_rev := 0; h_cache := c0; h_gap := Whole; h_commits := [] |}
| reachable_step s s' : reachable c0 s → hstep s s' → reachable c0 s'.

(** ** The invariant *)

Record hinv (s : hstate) : Prop := {
  inv_sorted : StronglySorted (λ x y, sequence x < sequence y) (h_store s);
  inv_pos : Forall (λ m, 1 ≤ sequence m) (h_store s);
  inv_commits m r : (m, r) ∈ h_commits s →
    m ∈ h_store s ∧ m_tenant_id m = tid ∧ m_thread_id m = th ∧ r ≤ h_rev s ∧ (r = h_rev s → last (h_store s) = Some m);
  inv_list : ∃ ls, stored_list (h_cache s) hkey = dump <$> ls ∧ (∀ x, x ∈ ls → x ∈ vis_of (h_store s)) ∧
               (h_gap s = Whole → ls = [] ∨ last ls = last (vis_of (h_store s)));
  inv_rev v e : entry (h_cache s) rkey = Some (v, e) →
               ∃ n, v = text_of_Z n ∧ n ≤ h_rev s ∧ (n = h_rev s → h_gap s ≠ Behind);
}.
End life.

(** ** Lemmas: lists of messages *)

Lemma py_slice_tail {A} (l : list A) limit :
  (1 ≤ limit)%nat → py_slice l (- Z.of_nat limit) (Z.of_nat (length l)) = lastn limit l.
Proof.
  intros Hl. unfold py_slice, py_index, lastn.
  rewrite (proj2 (Z.ltb_lt (- Z.of_nat limit) 0)) by lia. rewrite (proj2 (Z.ltb_ge (Z.of_nat (length l)) 0)) by lia.
  replace (Z.to_nat (Z.max 0 (Z.of_nat (length l) + - Z.of_nat limit))) with (length l - limit)%nat by lia.
  apply take_ge. rewrite length_drop. lia.
Qed.

Lemma parse_all_dump `{Codec Message} ms : parse_all (dump <$> ms) = Some ms.
Proof. induction ms as [|m ms IH]; csimpl; [done|]. rewrite parse_dump; simpl. by rewrite IH. Qed.

Lemma consecutive_snoc from l x :
  consecutive from (l ++ [x]) = consecutive from l && Z.eqb x (from + Z.of_nat (length l)).
Proof.
  revert from; induction l as [|y l IH]; intros from; simpl.
  - by rewrite Z.add_0_r, andb_true_r.
  - rewrite IH, andb_assoc. do 2 f_equal. lia.
Qed.

Lemma lastn_sublist {A} n (l : list A) : lastn n l `sublist_of` l.
Proof. apply sublist_drop. Qed.

Lemma last_lastn {A} n (l : list A) : (1 ≤ n)%nat → last (lastn n l) = last l.
Proof.
  intros Hn. destruct l as [|x l _] using rev_ind; [done|]. destruct n as [|n]; [lia|].
  by rewrite lastn_snoc, !last_snoc.
Qed.

Lemma lastn_nil_inv {A} n (l : list A) : (1 ≤ n)%nat → lastn n l = [] → l = [].
Proof.
  intros Hn Hl. apply (f_equal length) in Hl. rewrite lastn_length in Hl.
  destruct l; [done|]. simpl in Hl. lia.
Qed.

Section ordered.
Implicit Types (V t : list Message).
Abbreviation ordered V := (StronglySorted (λ x y, sequence x < sequence y) V).

Lemma ordered_app_l V1 V2 : ordered (V1 ++ V2) → ordered V1.
Proof. by intros (_ & ? & _)%StronglySorted_app. Qed.

Lemma ordered_snoc_lt V x y : ordered (V ++ [x]) → y ∈ V → sequence y < sequence x.
Proof. intros (Hlt & _)%StronglySorted_app Hy. apply Hlt; [done|by left]. Qed.

Lemma consecutive_fmap_snoc from t x :
  consecutive from (sequence <$> t ++ [x]) =
  consecutive from (sequence <$> t) && Z.eqb (sequence x) (from + Z.of_nat (length t)).
Proof.
  rewrite fmap_app. change (sequence <$> [x]) with [sequence x].
  by rewrite consecutive_snoc, length_fmap.
Qed.

Lemma consecutive_elem from t x : consecutive from (sequence <$> t) = true → x ∈ t →
  from ≤ sequence x < from + Z.of_nat (length t).
Proof.
  induction t as [|y t IH] using rev_ind; [by intros _ ?%elem_of_nil|]. rewrite consecutive_fmap_snoc, length_app. cbn [length].
  intros [Hc Hy%Z.eqb_eq]%andb_true_iff [Hx| ->%list_elem_of_singleton]%elem_of_app; [specialize (IH Hc Hx)|]; lia.
Qed.

(** A run of consecutive messages of an ordered list, in any order there, that ends
    with the last of them is the end of the list: nothing was skipped. *)
Lemma consecutive_suffix V t :
  ordered V → (∀ x, x ∈ t → x ∈ V) → last t = last V → t ≠ [] →
  (∃ from, consecutive from (sequence <$> t) = true) → t `suffix_of` V.
Proof.
  revert V. induction t as [|x t IH] using rev_ind; [done|].
  intros V HV Hsub Hlast _ [from Hc].
  destruct V as [|z V _] using rev_ind; [by destruct (not_elem_of_nil x); apply Hsub, elem_of_app; right; left|].
  rewrite !last_snoc in Hlast. injection Hlast as <-. apply suffix_snoc.
  destruct t as [|y t _] using rev_ind; [apply suffix_nil|].
  rewrite consecutive_fmap_snoc in Hc. apply andb_true_iff in Hc as [Hc Hx%Z.eqb_eq].
  assert (∀ w, w ∈ t ++ [y] → w ∈ V) as Hin.
  { intros w Hw. pose proof (consecutive_elem _ _ _ Hc Hw). destruct (elem_of_app V [x] w) as [Hv _].
    destruct Hv as [|Heq%list_elem_of_singleton]; [apply Hsub, elem_of_app; by left|done|subst; lia]. }
  apply (IH V); [by eapply ordered_app_l|done| |by destruct t|by exists from].
  assert (y ∈ V) as Hy by (apply Hin, elem_of_app; right; by left).
  pose proof Hc as Hc'. rewrite consecutive_fmap_snoc in Hc'.
  apply andb_true_iff in Hc' as [_ Hy'%Z.eqb_eq].
  rewrite last_snoc. destruct V as [|w V _] using rev_ind; [by apply elem_of_nil in Hy|].
  rewrite last_snoc. f_equal. rewrite length_app in Hx.
  simpl in Hx.
  pose proof (ordered_snoc_lt (V ++ [w]) x w HV ltac:(set_solver)).
  apply elem_of_app in Hy as [Hy|Hy%list_elem_of_singleton]; [|done].
  pose proof (ordered_snoc_lt V w y (ordered_app_l _ _ HV) Hy). lia.
Qed.

(** A sequence names one message. *)
Lemma ordered_inj V x y : ordered V → x ∈ V → y ∈ V → sequence x = sequence y → x = y.
Proof.
  induction 1 as [|z V HV IH Hz]; [by intros ?%elem_of_nil|]. rewrite Forall_forall in Hz.
  intros [->|Hx]%elem_of_cons [->|Hy]%elem_of_cons Heq; [done| | |by apply IH].
  - pose proof (Hz y Hy). lia.
  - pose proof (Hz x Hx). lia.
Qed.

(** An ordered list of positive sequences whose suffix starts at 1 is that
    suffix. *)
Lemma suffix_from_one V m t :
  ordered V → Forall (λ x, 1 ≤ sequence x) V → (m :: t) `suffix_of` V → sequence m = 1 →
  V = m :: t.
Proof.
  intros HV Hpos [p ->] Hm. destruct p as [|z p]; [done|]. exfalso.
  apply StronglySorted_app in HV as (Hlt & _).
  specialize (Hlt z m ltac:(set_solver) ltac:(set_solver)).
  rewrite Forall_forall in Hpos. specialize (Hpos z ltac:(set_solver)). lia.
Qed.

Lemma suffix_lastn {A} (l1 l2 : list A) : l1 `suffix_of` l2 → l1 = lastn (length l1) l2.
Proof.
  intros [p ->]. unfold lastn. rewrite length_app.
  replace (length p + length l1 - length l1)%nat with (length p) by lia. by rewrite drop_app_length.
Qed.

(** What passes [accept] is the newest visible messages. *)
Lemma accept_newest V ls limit r :
  ordered V → Forall (λ x, 1 ≤ sequence x) V → (∀ x, x ∈ ls → x ∈ V) → (1 ≤ limit)%nat →
  ls = [] ∨ last ls = last V →
  accept (Z.of_nat limit) (lastn limit ls) = Some r → r = lastn limit V.
Proof.
  intros HV Hpos Hsub Hlim Hlast. unfold accept.
  destruct (lastn limit ls) as [|m t] eqn:E; [done|].
  destruct (consecutive _ _) eqn:Hc; [simpl|done].
  destruct Hlast as [->|Hlast]; [by rewrite lastn_all in E by (simpl; lia)|].
  assert ((m :: t) `suffix_of` V) as Hsuf.
  { apply consecutive_suffix; [done| | |done|eauto].
    - rewrite <- E. intros x Hx. by apply Hsub, (elem_of_lastn limit).
    - rewrite <- E. by rewrite last_lastn. }
  case_match eqn:Hd; [done|]. intros [= <-]. apply andb_false_iff in Hd as [Hd|Hd].
  - apply Z.ltb_ge in Hd. rewrite (suffix_lastn _ _ Hsuf). f_equal.
    pose proof (lastn_length limit ls) as Hl. rewrite E in Hl. simpl in *. lia.
  - apply negb_false_iff, Z.eqb_eq in Hd. rewrite (suffix_from_one V m t) by done.
    pose proof (lastn_length limit ls) as Hl. rewrite E in Hl. symmetry.
    apply lastn_all. simpl in *. lia.
Qed.
End ordered.

(** ** Lemmas: one step of the cache *)

Section steps.
Context {C : Type} `{CacheLaws C} `{Codec Message}.
Variable max_messages : nat.
Variable ttl : Z.
Variables tid th : string.
Hypothesis Hmax : (1 ≤ max_messages)%nat.
Hypothesis Httl : 0 < ttl.

Let hk : string := hkey tid th.
Let rk : string := rkey tid th.

Lemma rk_ne_hk : rk ≠ hk.
Proof.
  unfold rk, hk, rkey, hkey, rev_key. intros Heq. apply (f_equal String.length) in Heq.
  assert (∀ a b, String.length (a +:+ b) = (String.length a + String.length b)%nat) as Hl.
  { induction a; simpl; auto. }
  rewrite Hl in Heq. simpl in Heq. lia.
Qed.

(** Setting the revision key leaves the lists alone. *)
Lemma set_rev_spec n c :
  let c' := snd (cp_set rk (text_of_Z n) (Some ttl) c) in
  fst (cp_set rk (text_of_Z n) (Some ttl) c) = reply c tt ∧ up c' = up c ∧
  (stored_list c' hk = stored_list c hk ∨ (stored_list c' hk = [] ∧ live_list c hk = [])) ∧
  entry c' rk = if up c then Some (text_of_Z n, expiry (Some ttl) (now c)) else entry c rk.
Proof.
  destruct (law_set rk (text_of_Z n) (Some ttl) c Httl) as (c' & -> & [Hu _ _ Hs] & He). simpl.
  split; [done|]. split; [done|]. split; [apply Hs|]. rewrite He, String.eqb_refl. by destruct (up c).
Qed.

Lemma trim_push (ls : list Message) m :
  trim (Some max_messages) ((dump <$> ls) ++ [dump m]) = dump <$> lastn max_messages (ls ++ [m]).
Proof. rewrite fmap_lastn, fmap_app. destruct max_messages; [lia|done]. Qed.

Lemma push_spec m c :
  ∃ c', push max_messages ttl tid th m c = (reply c tt, c') ∧ up c' = up c ∧ now c' = now c ∧
    (∀ k, entry c' k = entry c k) ∧
    (stored_list c' hk = if up c then trim (Some max_messages) (stored_list c hk ++ [dump m])
                         else stored_list c hk) ∧
    (up c = true → live_list c' hk = stored_list c' hk).
Proof.
  unfold push. fold (hkey tid th) hk.
  destruct (law_list_push hk [dump m] (Some max_messages) (Some ttl) c Httl)
    as (n & c1 & Hp & Hu & Hn & He & Hlv & Hst).
  exists c1. unfold bind. rewrite Hp, Hst, Hlv, String.eqb_refl, andb_true_r.
  unfold reply. by destruct (up c).
Qed.

(** An append moves the cached list and revision together, or neither. *)
Lemma append_spec m rev c ls :
  m_tenant_id m = tid → m_thread_id m = th → stored_list c hk = dump <$> ls →
  let c' := snd (append max_messages ttl m rev c) in
  (entry c' rk = if up c then Some (text_of_Z rev, expiry (Some ttl) (now c)) else entry c rk) ∧
  if up c && visible m then stored_list c' hk = dump <$> lastn max_messages (ls ++ [m]) ∨
                            stored_list c' hk = []
  else stored_list c' hk = stored_list c hk ∨ stored_list c' hk = [].
Proof.
  intros Ht Hth Hls. unfold append. rewrite Ht, Hth. fold (hkey tid th) (rkey tid th) hk rk.
  unfold suppress_cache, try. destruct (visible m) eqn:Hv.
  - destruct (push_spec m c) as (c1 & Hp & Hu & Hn & He & Hst & _).
    unfold bind. rewrite Hp. unfold reply. destruct (up c) eqn:Hup; simpl.
    + rewrite Hls, trim_push in Hst.
      destruct (set_rev_spec rev c1) as (Hr & _ & Hs & Hent). unfold reply in Hr.
      rewrite Hu in Hr, Hent. destruct (cp_set rk _ _ c1) as [r c2]. simpl in *. subst r. simpl.
      rewrite Hent, Hn. split; [done|]. rewrite <- Hst. tauto.
    + rewrite He. split; [done|]. left. by rewrite Hst.
  - unfold bind, ret. destruct (set_rev_spec rev c) as (Hr & _ & Hs & Hent). unfold reply in Hr.
    destruct (cp_set rk _ _ c) as [r c2]. simpl in *. subst r. rewrite andb_false_r.
    destruct (up c); simpl; (split; [done|tauto]).
Qed.

Lemma pushes_spec R acc c :
  (length (acc ++ R) ≤ max_messages)%nat → up c = true → stored_list c hk = dump <$> acc →
  let r := mapM_ (push max_messages ttl tid th) R c in
  fst r = Ok tt ∧ up (snd r) = true ∧ now (snd r) = now c ∧
  (∀ k, entry (snd r) k = entry c k) ∧ stored_list (snd r) hk = dump <$> (acc ++ R) ∧
  (R ≠ [] ∨ live_list c hk = stored_list c hk →
   live_list (snd r) hk = stored_list (snd r) hk).
Proof.
  revert acc c; induction R as [|m R IH]; intros acc c Hlen Hup Hst; simpl.
  { rewrite app_nil_r. split_and!; try done. by intros [|]. }
  destruct (push_spec m c) as (c1 & Hp & Hu & Hn & He & Hst1 & Hlv).
  unfold bind at 1 2 3 4 5 6 7. rewrite Hp. unfold reply. rewrite Hup in Hst1 |- *.
  rewrite length_app in Hlen. simpl in Hlen.
  destruct (IH (acc ++ [m]) c1) as (Ho & Hup' & Hn' & He' & Hst' & Hlv').
  - rewrite !length_app. simpl. lia.
  - by rewrite Hu.
  - rewrite Hst1, Hst, trim_push. f_equal. apply lastn_all. rewrite length_app. simpl. lia.
  - split; [done|]. split; [done|]. split; [by rewrite Hn'|].
    split; [intros k; by rewrite He'|]. split; [by rewrite Hst', <- app_assoc|].
    intros _. apply Hlv'. right. by apply Hlv.
Qed.

Lemma filter_visible_id (l : list Message) :
  Forall (λ m, visible m = true) l → filter (λ m, visible m = true) l = l.
Proof.
  induction 1 as [|m l Hm _ IH]; [done|]. rewrite filter_cons_True by done. by rewrite IH.
Qed.

Lemma newest_visible_visible limit store :
  Forall (λ m, visible m = true) (newest_visible limit store).
Proof.
  apply Forall_forall. intros m Hm%elem_of_lastn. by apply list_elem_of_filter in Hm as [? _].
Qed.

Lemma refill_spec ms rev c :
  ms ≠ [] → Forall (λ m, visible m = true) ms →
  let c' := snd (refill max_messages ttl tid th ms rev c) in
  if up c then
    up c' = true ∧
    entry c' rk = Some (text_of_Z rev, expiry (Some ttl) (now c)) ∧
    live_list c' hk = dump <$> lastn max_messages ms ∧
    (stored_list c' hk = dump <$> lastn max_messages ms ∨ stored_list c' hk = [])
  else entry c' rk = entry c rk ∧ stored_list c' hk = stored_list c hk.
Proof.
  intros Hne Hvis. assert (lastn max_messages ms ≠ []) as Hl by (intros ?%lastn_nil_inv; done).
  unfold refill. destruct ms as [|m0 ms0] eqn:E; [done|].
  rewrite filter_visible_id by done. rewrite <- E in *. clear E m0 ms0 Hne Hvis.
  fold (hkey tid th) (rkey tid th) hk rk. unfold suppress_cache, try.
  destruct (law_delete [hk] c) as (n & c1 & Hd & Hu & Hn & He & _ & Hst).
  unfold bind. rewrite Hd. unfold reply. destruct (up c) eqn:Hup; simpl.
  2: { by rewrite He, Hst. }
  specialize (Hst hk). rewrite bool_decide_true in Hst by by apply list_elem_of_singleton. simpl in Hst.
  destruct (pushes_spec (lastn max_messages ms) [] c1) as (Ho & Hup1 & Hn1 & He1 & Hst1 & Hlv).
  - simpl. rewrite lastn_length. lia.
  - by rewrite Hu.
  - done.
  - specialize (Hlv (or_introl Hl)). destruct (mapM_ _ _ c1) as [r c2]. simpl in *. subst r.
    destruct (law_set rk (text_of_Z rev) (Some ttl) c2 Httl) as (c3 & -> & [Hu3 _ Hl3 Hs3] & Hent).
    unfold reply. rewrite Hup1 in Hu3, Hent |- *. simpl. rewrite Hl3, Hlv, Hu3.
    rewrite Hent, String.eqb_refl, Hn1, Hn. simpl. split; [done|]. split; [done|]. rewrite <- Hst1.
    split; [done|]. specialize (Hs3 hk). tauto.
Qed.

Lemma invalidate_spec c :
  let c' := snd (invalidate tid th c) in
  (stored_list c' hk = stored_list c hk ∨ stored_list c' hk = []) ∧
  (entry c' rk = entry c rk ∨ entry c' rk = None).
Proof.
  unfold invalidate. fold (hkey tid th) (rkey tid th) hk rk. unfold suppress_cache, try, bind.
  destruct (law_delete [hk] c) as (n & c1 & Hd & Hu & Hn & He & _ & Hst). rewrite Hd. unfold reply.
  destruct (up c) eqn:Hup; simpl; [|by rewrite He, Hst; auto].
  destruct (law_delete [rk] c1) as (n2 & c2 & Hd2 & _ & _ & He2 & _ & Hst2). rewrite Hd2.
  unfold reply. rewrite Hu in He2, Hst2 |- *. simpl in *.
  rewrite Hst2, Hst, He2, He. repeat case_bool_decide; auto.
Qed.

(** Reduction that leaves the keys folded. *)
#[local] Ltac iota := cbv beta iota delta [ret fst fmap option_fmap option_map].

(** A read may only drop what has expired. *)
Lemma recent_env limit rev c :
  let c' := snd (recent tid th limit rev c) in
  (stored_list c' hk = stored_list c hk ∨ stored_list c' hk = []) ∧ entry c' rk = entry c rk ∧ up c' = up c.
Proof.
  assert (∀ c, let c' := snd (read_range tid th limit c) in
    (stored_list c' hk = stored_list c hk ∨ stored_list c' hk = []) ∧ entry c' rk = entry c rk ∧ up c' = up c) as Hread.
  { clear c. intros c. unfold read_range, suppress_cache, try, bind. fold (hkey tid th) hk.
    destruct (law_list_range hk (- limit) (-1) c) as (c1 & -> & [[Hu _ _ Hs] He]).
    assert ((stored_list c1 hk = stored_list c hk ∨ stored_list c1 hk = []) ∧ entry c1 rk = entry c rk ∧ up c1 = up c)
      by (destruct (Hs hk) as [|[? _]]; auto).
    unfold reply. destruct (up c); [|done]. cbn. destruct (py_slice _ _ _); [done|]. by destruct (parse_all _). }
  destruct rev as [r|]; [|apply Hread]. unfold recent, suppress_cache, try, bind. fold (rkey tid th) rk.
  destruct (law_get rk c) as (c1 & -> & [[Hu _ _ Hs] He]).
  assert ((stored_list c1 hk = stored_list c hk ∨ stored_list c1 hk = []) ∧ entry c1 rk = entry c rk ∧ up c1 = up c) as Hc1
    by (destruct (Hs hk) as [|[? _]]; auto). revert Hc1.
  unfold reply. destruct (up c); [|done]. iota.
  destruct (entry c rk) as [[v e]|]; iota; intros Hc1; [|exact Hc1]. destruct (Z_of_text v); [|exact Hc1]. destruct (Z.eqb _ _); [|exact Hc1].
  destruct (Hread c1) as (Hl & -> & ->). split; [|apply Hc1].
  destruct Hl as [->| ->]; [apply Hc1|by right].
Qed.

(** ** Every step keeps the invariant *)

Lemma vis_of_snoc (l : list Message) m :
  vis_of (l ++ [m]) = if visible m then vis_of l ++ [m] else vis_of l.
Proof.
  unfold vis_of. rewrite filter_app. destruct (visible m) eqn:E.
  - by rewrite filter_cons_True.
  - rewrite filter_cons_False by congruence. by rewrite filter_nil, app_nil_r.
Qed.

Lemma hinv_store_snoc (l : list Message) m :
  StronglySorted (λ x y, sequence x < sequence y) l → (∀ x, x ∈ l → sequence x < sequence m) →
  StronglySorted (λ x y, sequence x < sequence y) (l ++ [m]).
Proof.
  intros Hs Hlt. apply StronglySorted_app. split_and!; [|done|repeat constructor].
  intros x y Hx Hy%list_elem_of_singleton. subst. by apply Hlt.
Qed.

Lemma vis_in (l : list Message) m : m ∈ vis_of l → m ∈ l.
Proof. by intros [_ ?]%list_elem_of_filter. Qed.

(** The message with the newest visible sequence is the newest visible one. *)
Lemma newest_is (l : list Message) m : StronglySorted (λ x y, sequence x < sequence y) l → m ∈ l → visible m = true →
  newest_seq l = Some (sequence m) → last (vis_of l) = Some m.
Proof.
  intros Hs Hm Hv Hn. unfold newest_seq in Hn. destruct (last (vis_of l)) as [x|] eqn:Hx; [|done]. injection Hn as Hn. f_equal.
  apply (ordered_inj l); [done| |done|done]. apply vis_in. apply last_Some in Hx as [l' ->]. apply elem_of_app. right. by left.
Qed.

Lemma hinv_commit s m :
  hinv tid th s → m_tenant_id m = tid → m_thread_id m = th →
  (∀ x, x ∈ h_store s → sequence x < sequence m) → 1 ≤ sequence m → hinv tid th (committed s m).
Proof.
  intros [Hsort Hpos Hcom (ls & Hst & Hsub & Hcur) Hrev] Ht Hth Hlt Hseq. split; cbn [committed h_store h_rev h_cache h_gap h_commits].
  - by apply hinv_store_snoc.
  - apply Forall_app. split; [done|]. by constructor.
  - intros x r [[= -> ->]|Hx]%elem_of_cons.
    + split_and!; [apply elem_of_app; right; by left|done|done|lia|]. intros _. apply last_snoc.
    + destruct (Hcom x r Hx) as (? & ? & ? & ? & _). split_and!; [apply elem_of_app; by left|done|done|lia|lia].
  - exists ls. split; [done|]. rewrite vis_of_snoc. destruct (visible m).
    + split; [|done]. intros x Hx. apply elem_of_app. left. by apply Hsub.
    + by split.
  - intros v e Hv. destruct (Hrev v e Hv) as (n & -> & Hn & _). exists n. split; [done|]. split; lia.
Qed.

Lemma hinv_push s m r : hinv tid th s → (m, r) ∈ h_commits s → hinv tid th (pushed max_messages ttl s m r).
Proof.
  intros [Hsort Hpos Hcom (ls & Hst & Hsub & Hcur) Hrev] Hmr. destruct (Hcom m r Hmr) as (Hm & Ht & Hth & Hr & Hlast).
  destruct (append_spec m r (h_cache s) ls Ht Hth Hst) as [Hent Hlist].
  split; cbn [pushed h_store h_rev h_cache h_gap h_commits]; [done..| |].
  - fold hk in Hst |- *. destruct (up (h_cache s)), (visible m) eqn:Hv; cbn [andb] in Hlist.
    1: destruct Hlist as [->| ->]; [exists (lastn max_messages (ls ++ [m]))|exists []]; (split; [done|]); [|split; [by intros ? ?%elem_of_nil|by left]].
    { split.
      - intros x [Hx| ->%list_elem_of_singleton]%elem_of_lastn%elem_of_app; [by apply Hsub|by apply list_elem_of_filter].
      - case_bool_decide as Hn; [|done]. intros _. right. rewrite last_lastn, last_snoc by done. by rewrite (newest_is (h_store s) m). }
    all: destruct Hlist as [->| ->]; [exists ls|exists []]; (split; [done|]); [|split; [by intros ? ?%elem_of_nil|by left]].
    all: split; [done|]. 2, 3: done.
    intros Hg. apply Hcur. by destruct (h_gap s).
  - fold rk. rewrite Hent. intros v e. destruct (up (h_cache s)); [|by apply Hrev]. intros [= <- _]. exists r. split_and!; [done..|].
    intros Heq. destruct (visible m) eqn:Hv; [|by destruct (h_gap s)]. rewrite bool_decide_eq_true_2; [done|].
    specialize (Hlast Heq). apply last_Some in Hlast as [l Hl]. unfold newest_seq. by rewrite Hl, vis_of_snoc, Hv, last_snoc.
Qed.

(** What time, evictions and invalidation do. *)
Lemma hinv_env s c' : hinv tid th s →
  (stored_list c' hk = stored_list (h_cache s) hk ∨ stored_list c' hk = []) →
  (entry c' rk = entry (h_cache s) rk ∨ entry c' rk = None) → hinv tid th (with_cache s c').
Proof.
  intros [Hsort Hpos Hcom (ls & Hst & Hsub & Hcur) Hrev] Hs He. split; cbn [with_cache h_store h_rev h_cache h_gap h_commits]; [done..| |].
  - fold hk. destruct Hs as [->| ->]; [by exists ls|]. exists []. split; [done|]. split; [by intros ? ?%elem_of_nil|by left].
  - fold rk. intros v e Hv. destruct He as [He|He]; rewrite He in Hv; [|done]. by eapply Hrev.
Qed.

Lemma vis_prefix (l l' : list Message) x : l `prefix_of` l' → x ∈ vis_of l → x ∈ vis_of l'.
Proof. intros [k ->] Hx. unfold vis_of in *. rewrite filter_app. apply elem_of_app. by left. Qed.

Lemma last_newest limit (l : list Message) : newest_visible limit l ≠ [] → last (newest_visible limit l) = last (vis_of l).
Proof.
  intros Hne. unfold newest_visible. fold (vis_of l). destruct limit as [|limit]; [|apply last_lastn; lia].
  unfold newest_visible, lastn in Hne. rewrite Nat.sub_0_r, drop_ge in Hne; done.
Qed.

Lemma hinv_refill s limit store0 r : hinv tid th s → store0 `prefix_of` h_store s → r ≤ h_rev s → (r = h_rev s → store0 = h_store s) →
  newest_visible limit store0 ≠ [] → hinv tid th (refilled max_messages ttl tid th s limit store0 r).
Proof.
  intros [Hsort Hpos Hcom (ls & Hst & Hsub & Hcur) Hrev] Hpre Hle Hnow Hne.
  pose proof (refill_spec (newest_visible limit store0) r (h_cache s) Hne (newest_visible_visible _ _)) as Hr. simpl in Hr.
  fold hk in Hst. fold rk in Hrev. split; cbn [refilled h_store h_rev h_cache h_gap h_commits]; [done..| |]; fold hk rk; destruct (up (h_cache s)).
  - destruct Hr as (_ & _ & _ & [->| ->]); [|exists []; split; [done|]; split; [by intros ? ?%elem_of_nil|by left]].
    exists (lastn max_messages (newest_visible limit store0)). split; [done|]. split.
    + intros x Hx%elem_of_lastn%elem_of_lastn. by apply (vis_prefix store0).
    + case_bool_decide as Hn; [|done]. intros _. right. rewrite last_lastn, last_newest by done.
      destruct (last (vis_of store0)) as [x|] eqn:Hx.
      * symmetry. apply newest_is; [done| | |]; [apply vis_in, (vis_prefix store0); [done|]| |];
          [apply last_Some in Hx as [l' ->]; apply elem_of_app; right; by left| |].
        -- apply last_Some in Hx as [l' Hx]. assert (x ∈ vis_of store0) as [Hv _]%list_elem_of_filter; [|done].
           rewrite Hx. apply elem_of_app. right. by left.
        -- rewrite <- Hn. unfold newest_seq. by rewrite Hx.
      * unfold newest_seq in Hn. rewrite Hx in Hn. by destruct (last (vis_of (h_store s))).
  - destruct Hr as [_ ->]. by exists ls.
  - destruct Hr as (_ & -> & _). intros v e [= <- _]. exists r. split_and!; [done..|]. intros Heq. by rewrite (Hnow Heq), bool_decide_eq_true_2.
  - destruct Hr as [-> _]. apply Hrev.
Qed.

Lemma hinv_step s s' : hinv tid th s → hstep max_messages ttl tid th s s' → hinv tid th s'.
Proof.
  intros Hinv Hstep. destruct Hstep as [m Ht Hth Hlt Hseq|m r Hmr| |c' Hs He|limit store0 r Hpre Hle Hnow Hne|].
  - by apply hinv_commit.
  - by apply hinv_push.
  - destruct Hinv as [Hsort Hpos Hcom Hlist Hrev]. split; cbn [h_store h_rev h_cache h_gap h_commits]; [done|done| |done|].
    + intros m r Hmr. destruct (Hcom m r Hmr) as (? & ? & ? & ? & _). split_and!; [done..|lia|lia].
    + intros v e Hv. destruct (Hrev v e Hv) as (n & -> & Hn & _). exists n. split; [done|]. split; lia.
  - by apply hinv_env.
  - by apply hinv_refill.
  - destruct (invalidate_spec (h_cache s)) as [Hs He]. by apply hinv_env.
Qed.

Lemma reachable_hinv c0 s : reachable max_messages ttl tid th c0 s → hinv tid th s.
Proof.
  induction 1 as [Hst He|s s' _ IH Hstep]; [|by eapply hinv_step].
  split; simpl; [constructor|constructor|by intros ? ? ?%elem_of_nil| |by rewrite He].
  exists []. rewrite Hst. split; [done|]. split; [by intros ? ?%elem_of_nil|by left].
Qed.

(** ** Reading *)

Lemma read_range_spec c limit ls :
  (1 ≤ limit)%nat → stored_list c hk = dump <$> ls →
  ∃ c' r, read_range tid th (Z.of_nat limit) c = (Ok r, c') ∧
    (r = None ∨ r = accept (Z.of_nat limit) (lastn limit ls)).
Proof.
  intros Hl Hst. unfold read_range. fold (hkey tid th) hk. unfold suppress_cache, try, bind.
  destruct (law_list_range hk (- Z.of_nat limit) (-1) c) as (c1 & Hr & Hsc). rewrite Hr.
  unfold reply. destruct (up c); simpl; [|by eexists _, _; split; [done|left]].
  assert (∃ ls', live_list c hk = dump <$> ls' ∧ (ls' = ls ∨ ls' = [])) as (ls' & Hlive & Hls').
  { destruct (law_stored hk c) as [Hs|Hs]; [exists ls|exists []]; [|by auto].
    rewrite <- Hs, Hst. auto. }
  rewrite Hlive. rewrite py_slice_tail by done. rewrite <- fmap_lastn.
  destruct (lastn limit ls') as [|m t] eqn:E; [by eexists _, _; split; [done|left]|].
  csimpl. rewrite parse_dump, parse_all_dump. simpl.
  eexists _, _. split; [done|]. right. destruct Hls' as [->| ->]; [by rewrite E|].
  by rewrite lastn_all in E by (simpl; lia).
Qed.
End steps.

(** ** Properties *)

(** In every state a thread can reach in which the cached list was not [Misled] (an
    internal message pushed its revision while a visible one was missing), a read at
    the thread's revision never raises, and answers either nothing (the caller reads the store) or
    exactly the newest [limit] visible messages the store holds. *)
Lemma recent_is_newest {C} `{CacheLaws C} `{Codec Message} max_messages ttl tid th
    (c0 : C) (s : hstate) (limit : nat) :
  (1 ≤ max_messages)%nat → 0 < ttl → (1 ≤ limit)%nat →
  reachable max_messages ttl tid th c0 s → h_gap s ≠ Misled →
  ∃ r, fst (recent tid th (Z.of_nat limit) (Some (h_rev s)) (h_cache s)) = Ok r ∧
       (r = None ∨ r = Some (newest_visible limit (h_store s))).
Proof.
  intros Hmax Httl Hl Hreach Hgap.
  destruct (reachable_hinv _ _ _ _ Hmax Httl _ _ Hreach) as [Hsort Hpos _ (ls & Hst & Hsub & Hcur) Hrev].
  unfold recent, suppress_cache, try. unfold bind at 1. unfold bind at 1.
  destruct (law_get (rev_key tid th) (h_cache s)) as (c1 & -> & [[_ _ _ Hsc] _]).
  unfold reply. destruct (up (h_cache s)); simpl; [|by exists None; auto].
  destruct (entry (h_cache s) (rev_key tid th)) as [[v e]|] eqn:Hent; simpl; [|by exists None; auto].
  destruct (Hrev v e Hent) as (n & -> & _ & Hn). rewrite Z_of_text_of_Z.
  destruct (Z.eqb_spec n (h_rev s)) as [Heq|]; [|by exists None; auto].
  assert (∃ ls', stored_list c1 (hkey tid th) = dump <$> ls' ∧ (ls' = ls ∨ ls' = []))
    as (ls' & Hst' & Hls').
  { destruct (Hsc (hkey tid th)) as [->|[-> _]]; [exists ls|exists []]; auto. }
  destruct (read_range_spec max_messages tid th Hmax c1 limit ls' Hl Hst') as (c2 & r & -> & Hr).
  exists r. split; [done|]. destruct Hr as [|Hr]; [by left|]. destruct r as [r|]; [|by left].
  right. f_equal. symmetry in Hr. revert Hr. apply accept_newest; [| | |done|].
  - by apply StronglySorted_filter.
  - apply Forall_filter; done.
  - destruct Hls' as [->| ->]; [done|]. by intros ? ?%elem_of_nil.
  - destruct Hls' as [->| ->]; [|by left]. apply Hcur. specialize (Hn Heq). by destruct (h_gap s).
Qed.

Definition msg (seq : Z) (k : MessageKind) (text : string) : Message :=
  {| message_id := "m" +:+ text_of_Z seq; m_thread_id := "th"; m_session_id := "s"; m_turn_id := "u";
     m_tenant_id := "t"; role := RUser; kind := k; sequence := seq; content := text;
     content_hash := ""; m_version := 1; author_principal := "user:alice"; m_agent_run_id := None;
     parent_message_id := None; m_attachments := []; m_tool_calls := []; tool_call_id := None; source_system := None;
     source_message_id := None; occurred_at := 0; message_created_at := 0; archive_status := STAGED;
     m_system := ∅; m_custom_metadata := ∅; message_deleted_at := None |}.

(** Two messages, the push of the second lost in an outage. *)
Definition hot_start : hstate := {| h_store := []; h_rev := 0; h_cache := new_cache; h_gap := Whole; h_commits := [] |}.
Definition hot_one : hstate := after_append 200 3600 hot_start (msg 1 VISIBLE "hi").
Definition hot_down : hstate := with_cache hot_one (set_available false (h_cache hot_one)).
Definition hot_lost : hstate := after_append 200 3600 hot_down (msg 2 VISIBLE "there").

(** Right after a refill with a run of consecutive visible messages, read
    without further writes at the revision it was made at, the cache answers
    with those messages: the list is not only never wrong, it hits. *)
Theorem refill_then_recent {C} `{CacheLaws C} `{Codec Message} max_messages ttl tid th
    (c : C) ms rev m t :
  (1 ≤ max_messages)%nat → 0 < ttl → up c = true → (length ms ≤ max_messages)%nat →
  Forall (λ x, visible x = true) ms → ms = m :: t →
  consecutive (sequence m) (sequence <$> ms) = true →
  ∀ limit, (1 ≤ limit)%nat → limit = length ms ∨ (length ms ≤ limit)%nat ∧ sequence m = 1 →
  fst (recent tid th (Z.of_nat limit) (Some rev)
         (snd (refill max_messages ttl tid th ms rev c))) = Ok (Some ms).
Proof.
  intros Hmax Httl Hup Hlen Hvis Hms Hc limit Hl Hlim.
  pose proof (refill_spec max_messages ttl tid th Hmax Httl ms rev c) as Hr. rewrite Hup in Hr.
  destruct Hr as (Hup' & Hent & Hlive & _); [by subst|done|]. rewrite lastn_all in Hlive by done.
  destruct (refill _ _ _ _ _ _ c) as [o c1]. simpl in *.
  unfold recent, read_range, suppress_cache, try, bind.
  destruct (law_get (rev_key tid th) c1) as (c2 & -> & [[Hu _ Hsl _] _]).
  fold (rkey tid th) (hkey tid th). rewrite Hent. unfold reply. rewrite Hup'. simpl.
  rewrite Z_of_text_of_Z, Z.eqb_refl.
  destruct (law_list_range (hkey tid th) (- Z.of_nat limit) (-1) c2) as (c3 & -> & _).
  unfold reply. rewrite Hu, Hup', Hsl, Hlive. simpl.
  rewrite py_slice_tail by done. rewrite lastn_all by (rewrite length_fmap; lia).
  destruct (dump <$> ms) as [|d ds] eqn:Hd; [by subst|]. rewrite <- Hd, parse_all_dump.
  simpl. do 2 f_equal. unfold accept. subst ms. rewrite Hc. simpl in *.
  destruct (Z.ltb_spec (Z.of_nat (S (length t))) (Z.of_nat limit)); [|done].
  destruct Hlim as [|[_ ->]]; [lia|done].
Qed.

Lemma refill_then_recent_witness :
  fst (recent "t" "th" 2 (Some 7)
         (snd (refill 200 3600 "t" "th" [msg 4 VISIBLE "a"; msg 5 VISIBLE "b"] 7 new_cache))) =
  Ok (Some [msg 4 VISIBLE "a"; msg 5 VISIBLE "b"]).
Proof.
  apply (refill_then_recent 200 3600 "t" "th" new_cache [msg 4 VISIBLE "a"; msg 5 VISIBLE "b"] 7
           (msg 4 VISIBLE "a") [msg 5 VISIBLE "b"]) with (limit := 2%nat);
    [lia|lia|done|simpl; lia|by repeat constructor|done|done|lia|by left].
Defined.

(** The run [recent_is_newest] leaves out. The push of visible message 2 is
    lost in an outage, then INTERNAL message 3 is recorded with the backend up:
    it sets the revision without pushing, and a read at the thread's current
    revision answers with message 1 alone, at any of these limits, where the
    store's newest visible messages end with 2. *)
Theorem recent_stale_after_outage :
  let hot_up := with_cache hot_lost (set_available true (h_cache hot_lost)) in
  let s := after_append 200 3600 hot_up (msg 3 INTERNAL "tool trace") in
  h_gap s = Misled ∧
  Forall (λ limit,
    fst (recent "t" "th" (Z.of_nat limit) (Some (h_rev s)) (h_cache s)) =
      Ok (Some [msg 1 VISIBLE "hi"]) ∧
    last (newest_visible limit (h_store s)) = Some (msg 2 VISIBLE "there")) [1; 2; 50; 200]%nat.
Proof. intros hot_up s. unfold s, hot_up. split; [vm_compute; reflexivity|]. repeat constructor. Qed.
