(* ===== verification/Window.v ===== *)
(** * Window: the conversation window in the messages form
    (modules/context/window.py, and [render_window] of modules/context/builder.py)

    The most recent turns of a thread, for a caller that replays them to its
    model: messages are cut into units (a call with its results), units into
    turns, and each turn is given in layers within a token budget.

    A message's texts are its UTF-8 bytes; what is cut, counted or shown is their
    characters. [orjson_dumps] (a third-party library), the order a dictionary
    iterates in, [str] of a list or dictionary and [datetime.fromisoformat] are
    arguments; numbers are integers, and [.1f] is exact on those below 2^53. *)
From S2P Require Import Prelude Errors Text Messages.
From S2P Require Json.

(** ** Data (domain/context_bundle.py) *)

Inductive WindowFormat : Set := RENDERED | MESSAGES.

Record WindowMessage := {
  wm_message_id : string;
  wm_role : string;
  wm_text : text;
  wm_tool_calls : list MessageToolCall;
  wm_tool_call_id : option string;
  wm_run_record : option (gmap string json);
}.

Record ConversationWindow := {
  cw_thread_id : option string;
  cw_message_ids : list string;
  cw_messages : list WindowMessage;
  cw_rendered : text;
  cw_token_estimate : Z;
  cw_form : WindowFormat;
  cw_over_budget : bool;
  cw_record : text;
}.

(** ** Units and turns *)

Abbreviation unit_ := (list Message).
Abbreviation turn_ := (list unit_).

Definition MESSAGE_OVERHEAD_TOKENS : Z := 4.
Definition RUN_RECORD : string := "run_record".
Definition ARGUMENT_CHARS : nat := 60.
Definition QUESTION_CHARS : nat := 120.
Definition FROM_STEP_CHARS : nat := 3.
Definition CALL_OK : text := lit "ok".
Definition RUN_FAILED : list text := [lit "FAILED"; lit "CANCELLED"; lit "TIMED_OUT"; lit "REJECTED"].
Definition SURE_high : text := lit "high".
Definition SURE_medium : text := lit "medium".
Definition SURE_low : text := lit "low".

Definition replayable (m : Message) : bool :=
  bool_decide (kind m = VISIBLE) || (bool_decide (role m = RTool) && bool_decide (is_Some (tool_call_id m))).

(** [open_calls], and the units backwards, the last one's messages backwards too. *)
Definition answers (open_calls : list string) (m : Message) : bool :=
  bool_decide (role m = RTool) && match tool_call_id m with Some i => bool_decide (i ∈ open_calls) | None => false end.

Definition add_message (st : list unit_ * list string) (m : Message) : list unit_ * list string :=
  match st.1 with
  | u :: out => if answers st.2 m then ((u ++ [m]) :: out, st.2) else ([m] :: u :: out, tc_id <$> m_tool_calls m)
  | [] => ([[m]], tc_id <$> m_tool_calls m)
  end.

Definition units (messages : list Message) : list unit_ := reverse (foldl add_message ([], []) messages).1.

Definition without_calls (m : Message) : Message :=
  {| message_id := message_id m; m_thread_id := m_thread_id m; m_session_id := m_session_id m; m_turn_id := m_turn_id m;
     m_tenant_id := m_tenant_id m; role := role m; kind := kind m; sequence := sequence m; content := content m;
     content_hash := content_hash m; m_version := m_version m; author_principal := author_principal m;
     m_agent_run_id := m_agent_run_id m; parent_message_id := parent_message_id m; m_attachments := m_attachments m;
     m_tool_calls := []; tool_call_id := tool_call_id m; source_system := source_system m;
     source_message_id := source_message_id m; occurred_at := occurred_at m; message_created_at := message_created_at m;
     archive_status := archive_status m; m_system := m_system m; m_custom_metadata := m_custom_metadata m;
     message_deleted_at := message_deleted_at m |}.

Definition whole (u : unit_) : unit_ :=
  match u with
  | [] => []
  | h :: results =>
      if bool_decide (role h = RTool) then []
      else if forallb (λ c, bool_decide (Some (tc_id c) ∈ tool_call_id <$> results)) (m_tool_calls h) then u
      else if truthy (content h) then [without_calls h] else []
  end.

Definition opens_turn (u : unit_) : bool :=
  match u with h :: _ => bool_decide (role h = RUser) | [] => false end.

Definition add_unit (out : list turn_) (u : unit_) : list turn_ :=
  match out with
  | t :: rest => if opens_turn u then [u] :: out else (t ++ [u]) :: rest
  | [] => [[u]]
  end.

Definition turns (pieces : list unit_) : list turn_ := reverse (foldl add_unit [] pieces).

Definition from_a_question (found : list turn_) : list turn_ :=
  match found with
  | (u :: _) :: ((_ :: _) as rest) => if opens_turn u then found else rest
  | _ => found
  end.

(** ** The steps list of a turn *)

Definition ellipsis : char := uni 8230.

Definition _cut (t : text) (most : nat) : text :=
  if (length t <=? most)%nat then t else take (pred most) t ++ [ellipsis].

(** Python's truth of a value. *)
Definition value_truthy (v : json) : bool :=
  match v with
  | JNull => false
  | JBool b => b
  | JNum n => negb (Z.eqb n 0)
  | JStr s => truthy s
  | JList l => match l with [] => false | _ => true end
  | JObj l => match l with [] => false | _ => true end
  end.

(** [facts.get(k)] where it is truthy. *)
Definition said_fact (facts : gmap string json) (k : string) : option json :=
  match facts !! k with
  | Some v => if value_truthy v then Some v else None
  | None => None
  end.

(** [isinstance(v, int | float)]: a boolean is an integer. *)
Definition number_of (v : json) : option Z :=
  match v with JNum n => Some n | JBool b => Some (if b then 1 else 0) | _ => None end.

(** [f"{n:.1f}"]. *)
Definition one_decimal (n : Z) : text := lit (text_of_Z n) ++ lit ".0".

(** [", ".join(x for x in said if x)]. *)
Definition told (sep : string) (said : list (option text)) : text :=
  join (lit sep) (filter (λ x, x ≠ []) (omap id said)).

Definition empty_facts : gmap string json := ∅.

Definition _facts (m : option Message) : gmap string json :=
  match m with
  | Some m => match m_custom_metadata m !! RUN_RECORD with Some (JObj l) => list_to_map l | _ => empty_facts end
  | None => empty_facts
  end.

Definition _seconds (v : option json) : option text :=
  match v ≫= number_of with Some n => Some (one_decimal n ++ lit " s") | None => None end.

Definition _said (label : string) (v : option json) : option text :=
  match v with Some (JStr s) => if truthy s then Some (lit label ++ lit ": " ++ chars s) else None | _ => None end.

Definition _asked (turn : turn_) : text :=
  match turn with
  | (first :: _) :: _ =>
      if negb (bool_decide (role first = RUser)) || bool_decide (strip (chars (content first)) = [])
      then lit "an answer whose question is not in the conversation"
      else [chr "034"] ++ _cut (join (lit " ") (words (chars (content first)))) QUESTION_CHARS ++ [chr "034"]
  | _ => lit "an answer whose question is not in the conversation"
  end.

Record Step := {
  st_name : text;
  st_arguments : gmap string json;
  st_facts : gmap string json;
  st_result : text;
}.

(** [results]: the last result a call has in the turn. *)
Definition result_of (turn : turn_) (call : string) : option Message :=
  last (filter (λ m, tool_call_id m = Some call) (turn ≫= tail)).

Definition _steps (turn : turn_) : list Step :=
  turn ≫= λ u, match u with
               | h :: _ => (λ c, {| st_name := chars (tc_name c); st_arguments := tc_arguments c;
                                    st_facts := _facts (result_of turn (tc_id c));
                                    st_result := match result_of turn (tc_id c) with Some r => chars (content r) | None => [] end |})
                           <$> m_tool_calls h
               | [] => []
               end.

Section steps.
Context (orjson_dumps : json → text) (items : gmap string json → list (string * json)) (repr_ : json → text).
Context (fromisoformat : string → option (Z * option Z)).

(** [str(v)]. *)
Definition str_value (v : json) : text :=
  match v with
  | JNull => lit "None"
  | JBool true => lit "True"
  | JBool false => lit "False"
  | JNum n => lit (text_of_Z n)
  | JStr s => chars s
  | JList _ | JObj _ => repr_ v
  end.

Definition _short (v : json) : text := _cut (orjson_dumps v) ARGUMENT_CHARS.

Definition _from_step (arguments : gmap string json) (earlier : list text) : option text :=
  let values := filter (λ v, (FROM_STEP_CHARS ≤ length v)%nat) (str_value ∘ snd <$> items arguments) in
  match list_find (λ t, existsb (λ v, contains v t) values = true) earlier with
  | Some (n, _) => Some (lit "from step " ++ lit (text_of_Z (Z.of_nat (S n))))
  | None => None
  end.

(** [Step.line]. *)
Definition line (s : Step) (n : nat) (earlier : list text) : text :=
  let args := join (lit ", ") ((λ kv, chars kv.1 ++ lit "=" ++ _short kv.2) <$> items (st_arguments s)) in
  let facts := st_facts s in
  let said := told ", " [str_value <$> said_fact facts "status"; _seconds (facts !! "seconds");
                         _said "fetched" (facts !! "fetched"); _said "source" (facts !! "sources");
                         _from_step (st_arguments s) earlier] in
  lit (text_of_Z (Z.of_nat n)) ++ lit ". " ++ st_name s ++ lit "(" ++ args ++ lit ")" ++
    match said with [] => [] | _ => lit ": " ++ said end.

(** The instant a text names, as seconds since the epoch; without an offset it is in UTC. *)
Definition _when (v : option json) : option Z :=
  match v with
  | Some (JStr s) => match fromisoformat s with Some (at_, offset) => Some (at_ - default 0 offset) | None => None end
  | _ => None
  end.

Definition out_of_date (s : Step) (now : Z) : bool :=
  match st_facts s !! "max_age" ≫= number_of, _when (st_facts s !! "fetched") with
  | Some age, Some at_ => age <? now - at_
  | _, _ => false
  end.

(** The texts a step's sources name. *)
Definition named_sources (s : Step) : list text :=
  filter (λ t, t ≠ []) (split_by (lit "; ") (match said_fact (st_facts s) "sources" with Some v => str_value v | None => [] end)).

Definition plural (n : nat) (one many : string) : text := lit (if Nat.eqb n 1 then one else many).

Definition nat_text (n : nat) : text := lit (text_of_Z (Z.of_nat n)).

Definition _sources (steps : list Step) : text :=
  match foldl (λ named source, count_up source named) [] (steps ≫= named_sources) with
  | [] => lit "no call named a source"
  | named =>
      nat_text (length named) ++ lit " " ++ plural (length named) "source" "sources" ++ lit ": " ++
      join (lit "; ") ((λ kv, kv.1 ++ lit " (named by " ++ lit (text_of_Z kv.2) ++ lit " of " ++ nat_text (length steps) ++ lit ")") <$> named)
  end.

Definition status_text (facts : gmap string json) : text := str_value (default (JStr "") (facts !! "status")).

Definition run_failed (run : gmap string json) : bool := bool_decide (upper (status_text run) ∈ RUN_FAILED).

Definition call_ok (s : Step) : bool := bool_decide (lower (status_text (st_facts s)) = CALL_OK).

Definition has_fact (k : string) (s : Step) : bool := bool_decide (is_Some (said_fact (st_facts s) k)).

Definition _grade (steps : list Step) (run : gmap string json) (ok : nat) (recorded stale : bool) : text :=
  if run_failed run || (recorded && Nat.eqb ok 0) then SURE_low
  else if Nat.eqb ok (length steps) && existsb (has_fact "sources") steps && negb stale then SURE_high
  else SURE_medium.

Definition stale_names (steps : list Step) (now : Z) : list text :=
  fromkeys (st_name <$> filter (λ s, out_of_date s now = true) steps).

Definition succeeded (steps : list Step) : nat := length (filter (λ s, call_ok s = true) steps).

(** The grade of the evidence line. *)
Definition sure (steps : list Step) (run : gmap string json) (now : Z) : text :=
  _grade steps run (succeeded steps) (existsb (has_fact "status") steps)
    (match stale_names steps now with [] => false | _ => true end).

Definition evidence (steps : list Step) (run : gmap string json) (now : Z) : option text :=
  if bool_decide (run = empty_facts) && forallb (λ s, bool_decide (st_facts s = empty_facts)) steps then None
  else
    let said := [Some (if existsb (has_fact "status") steps
                       then nat_text (succeeded steps) ++ lit " of " ++ nat_text (length steps) ++ lit " calls succeeded"
                       else lit "no call status recorded");
                 Some (_sources steps);
                 match stale_names steps now with
                 | [] => None
                 | stale => Some (lit "out of date now: " ++ join (lit ", ") stale ++ lit " (fetch again for current values)")
                 end] in
    Some (lit "Evidence: " ++ told "; " said ++ lit ". How sure, from this record: " ++ sure steps run now ++ lit ".").

(** The last message of the turn. *)
Definition turn_end (turn : turn_) : option Message := last turn ≫= last.

Definition steps_list (turn : turn_) (now : Z) : text :=
  match _steps turn with
  | [] => []
  | steps =>
      let lines := imap (λ i s, line s (S i) (take i (st_result <$> steps))) steps in
      let run := _facts (turn_end turn) in
      let said := told ", " [(λ v, lit "status " ++ str_value v) <$> said_fact run "status"; _seconds (run !! "seconds");
                             _said "approvals" (run !! "approvals")] in
      let first := lit "For " ++ _asked turn ++ lit " (" ++ nat_text (length lines) ++ lit " " ++
                   plural (length lines) "call" "calls" ++ lit "):" in
      join [newline] ([first] ++ lines ++ match said with [] => [] | _ => [lit "The run: " ++ said ++ lit "."] end ++
                      option_list (evidence steps run now))
  end.

(** ** Layers *)

Definition message_tokens (m : Message) : Z :=
  estimate_tokens (chars (content m)) +
  foldr (λ c n, estimate_tokens (chars (tc_name c)) + estimate_tokens (orjson_dumps (JObj (items (tc_arguments c)))) + n) 0
        (m_tool_calls m) + MESSAGE_OVERHEAD_TOKENS.

Definition _shown (calls : bool) (m : Message) : WindowMessage :=
  {| wm_message_id := message_id m; wm_role := role_value (role m); wm_text := chars (content m);
     wm_tool_calls := if calls then m_tool_calls m else [];
     wm_tool_call_id := if calls then tool_call_id m else None;
     wm_run_record := if bool_decide (_facts (Some m) = empty_facts) then None else Some (_facts (Some m)) |}.

Record Layers := {
  l_steps : option text;
  l_text : list Message;
  l_whole : list Message;
}.

(** [Layers.of]. *)
Definition layers_of (now : Z) (turn : turn_) : Layers :=
  let steps := steps_list turn now in
  {| l_steps := match steps with [] => None | _ => Some steps end;
     l_text := filter (λ m, role m ≠ RTool ∧ truthy (content m) = true) (concat turn);
     l_whole := concat turn |}.

Definition sum_tokens (l : list Message) : Z := foldr (λ m n, message_tokens m + n) 0 l.

(** [Layers.cost], of each layer. *)
Definition cost_steps (l : Layers) : Z :=
  match l_steps l with Some ((_ :: _) as t) => estimate_tokens t | _ => 0 end.

Definition cost_text (l : Layers) : Z := sum_tokens (without_calls <$> l_text l).

Definition cost_whole (l : Layers) : Z := sum_tokens (l_whole l) - cost_text l.

(** [Layers.messages]. *)
Definition layer_messages (l : Layers) (text_ whole_ : bool) : list WindowMessage :=
  _shown whole_ <$> (if whole_ then l_whole l else if text_ then l_text l else []).

(** A turn's core: its steps list, or the text of one without calls. *)
Definition core (l : Layers) : Z := match l_steps l with Some (_ :: _) => cost_steps l | _ => cost_text l end.

(** [_cores], past the newest turn. *)
Fixpoint cores_from (layers : list Layers) (budget used : Z) (kept : nat) : nat * Z :=
  match layers with
  | [] => (kept, used)
  | turn :: rest =>
      if budget <? used + core turn then (kept, used) else cores_from rest budget (used + core turn) (S kept)
  end.

Definition _cores (newest : Layers) (older : list Layers) (budget : Z) : nat * Z :=
  cores_from older budget (cost_steps newest + cost_text newest) 1.

(** [_texts], past the newest turn. *)
Fixpoint texts_from (layers : list Layers) (budget used : Z) (texts : nat) : nat * Z :=
  match layers with
  | [] => (texts, used)
  | turn :: rest =>
      match l_steps turn with
      | None => texts_from rest budget used (S texts)
      | Some _ =>
          if budget <? used + cost_text turn then (texts, used) else texts_from rest budget (used + cost_text turn) (S texts)
      end
  end.

Definition _texts (older : list Layers) (kept : nat) (used budget : Z) : nat * Z :=
  texts_from (take (pred kept) older) budget used 1.

Definition _shown_turns (layers : list Layers) (texts : nat) (full : bool) : list WindowMessage :=
  concat (reverse (imap (λ n turn, layer_messages turn (n <? texts)%nat (Nat.eqb n 0 && full)) layers)).

(** ** The window *)

Definition found_turns (messages : list Message) (max_turns : option Z) : list turn_ :=
  let pieces := filter (λ u, u ≠ []) (whole <$> units (filter (λ m, replayable m = true) messages)) in
  let found := from_a_question (turns pieces) in
  match max_turns with
  | Some n => if 0 <? n then lastn (Z.to_nat n) found else []
  | None => found
  end.

Definition empty_window (thread_id : string) : ConversationWindow :=
  {| cw_thread_id := Some thread_id; cw_message_ids := []; cw_messages := []; cw_rendered := []; cw_token_estimate := 0;
     cw_form := MESSAGES; cw_over_budget := false; cw_record := [] |}.

Definition replay_window (thread_id : string) (messages : list Message) (token_budget : Z) (max_turns : option Z) (now : Z) :
    ConversationWindow :=
  match layers_of now <$> reverse (found_turns messages max_turns) with
  | [] => empty_window thread_id
  | newest :: older =>
      let '(kept, used) := _cores newest older token_budget in
      let '(texts, used) := _texts older kept used token_budget in
      let full := bool_decide (is_Some (l_steps newest)) && (used + cost_whole newest <=? token_budget) in
      let used := if full then used + cost_whole newest else used in
      let given := newest :: take (pred kept) older in
      let shown := _shown_turns given texts full in
      {| cw_thread_id := Some thread_id; cw_message_ids := wm_message_id <$> shown; cw_messages := shown;
         cw_rendered := join [newline] ((λ m, lit (wm_role m) ++ lit ": " ++ wm_text m) <$> filter (λ m, wm_text m ≠ []) shown);
         cw_token_estimate := used; cw_form := MESSAGES; cw_over_budget := token_budget <? used;
         cw_record := join [newline; newline] (omap l_steps (reverse given)) |}
  end.

(** ** Units *)

(** A message, or one with calls followed by results of its calls. *)
Definition unit_ok (u : unit_) : Prop :=
  ∃ h rs, u = h :: rs ∧
    Forall (λ r, role r = RTool ∧ ∃ c, c ∈ m_tool_calls h ∧ tool_call_id r = Some (tc_id c)) rs.

Definition open_ok (out : list unit_) (calls : list string) : Prop :=
  match out with (h :: _) :: _ => calls = tc_id <$> m_tool_calls h | _ => True end.

Lemma answers_inv calls m : answers calls m = true → role m = RTool ∧ ∃ i, tool_call_id m = Some i ∧ i ∈ calls.
Proof.
  unfold answers. intros [Hr%bool_decide_eq_true H]%andb_true_iff. split; [done|].
  destruct (tool_call_id m) as [i|]; [|done]. apply bool_decide_eq_true in H. eauto.
Qed.

Lemma add_messages_ok ms : ∀ out calls,
  Forall unit_ok out → open_ok out calls →
  Forall unit_ok (foldl add_message (out, calls) ms).1 ∧
  concat (reverse (foldl add_message (out, calls) ms).1) = concat (reverse out) ++ ms.
Proof.
  assert (∀ m : Message, unit_ok [m]) as Hone by (intros m; exists m, []; split; [done|by constructor]).
  induction ms as [|m ms IH]; intros out calls Hout Hopen; cbn [foldl]; [by rewrite app_nil_r|].
  assert (∀ o : list unit_, concat (reverse ([m] :: o)) ++ ms = concat (reverse o) ++ m :: ms) as Hsnoc.
  { intros o. rewrite reverse_cons, concat_app. csimpl. by rewrite <- (assoc_L (++)). }
  destruct out as [|u out]; unfold add_message at 2 4; cbn [fst snd].
  - destruct (IH [[m]] (tc_id <$> m_tool_calls m)) as [H1 H2]; [by repeat constructor|done|]. split; [done|]. by rewrite H2.
  - apply Forall_cons in Hout as [(h & rs & -> & Hrs) Hout]. simpl in Hopen. subst calls.
    destruct (answers _ m) eqn:Ha.
    + destruct (IH (((h :: rs) ++ [m]) :: out) (tc_id <$> m_tool_calls h)) as [H1 H2]; [|done|].
      * constructor; [|done]. exists h, (rs ++ [m]). split; [done|]. apply Forall_app. split; [done|].
        apply Forall_singleton. apply answers_inv in Ha as (? & i & ? & (c & -> & ?)%list_elem_of_fmap). eauto.
      * split; [done|]. rewrite H2, !reverse_cons, !concat_app. csimpl. rewrite !app_nil_r, <- !app_assoc. csimpl. by rewrite <- app_assoc.
    + destruct (IH ([m] :: (h :: rs) :: out) (tc_id <$> m_tool_calls m)) as [H1 H2]; [|done|].
      * constructor; [apply Hone|]. constructor; [|done]. by exists h, rs.
      * split; [done|]. rewrite H2. by apply Hsnoc.
Qed.

Lemma units_spec ms : Forall unit_ok (units ms) ∧ concat (units ms) = ms.
Proof. unfold units. destruct (add_messages_ok ms [] []) as [H1 H2]; [done|done|]. split; [by apply Forall_reverse|done]. Qed.

(** What a model API accepts: every call has its result, every result its call. *)
Definition accepted (u : unit_) : Prop :=
  ∃ h rs, u = h :: rs ∧ role h ≠ RTool ∧
    Forall (λ r, role r = RTool ∧ ∃ c, c ∈ m_tool_calls h ∧ tool_call_id r = Some (tc_id c)) rs ∧
    Forall (λ c, Some (tc_id c) ∈ tool_call_id <$> rs) (m_tool_calls h).

Lemma whole_spec u : unit_ok u → (whole u = [] ∨ accepted (whole u)) ∧ sublist (message_id <$> whole u) (message_id <$> u).
Proof.
  intros (h & rs & -> & Hrs). unfold whole.
  case_bool_decide; [split; [by left|apply sublist_nil_l]|]. destruct (forallb _ _) eqn:Hf.
  - split; [right|done]. exists h, rs. split_and!; [done..|]. apply Forall_forall. intros c Hc.
    rewrite forallb_forall in Hf. apply list_elem_of_In in Hc. by apply Hf, bool_decide_eq_true in Hc.
  - destruct (truthy _); [|split; [by left|apply sublist_nil_l]]. split.
    + right. exists (without_calls h), []. split_and!; [done|done|constructor|constructor].
    + csimpl. apply sublist_skip, sublist_nil_l.
Qed.

Lemma wholes_sublist us : Forall unit_ok us →
  sublist (message_id <$> concat (filter (λ u, u ≠ []) (whole <$> us))) (message_id <$> concat us).
Proof.
  induction 1 as [|u us Hu _ IH]; [done|]. csimpl. rewrite filter_cons.
  destruct (whole_spec u Hu) as [_ Hs]. case_decide as Hw; csimpl; rewrite ?fmap_app.
  - by apply sublist_app.
  - by apply sublist_inserts_l.
Qed.

(** ** Turns *)

(** Units of which only the first may open a turn. *)
Definition turn_ok (t : turn_) : Prop := ∃ u us, t = u :: us ∧ Forall (λ v, opens_turn v = false) us.

Lemma add_units_spec us : ∀ out,
  Forall turn_ok out →
  Forall turn_ok (foldl add_unit out us) ∧ concat (reverse (foldl add_unit out us)) = concat (reverse out) ++ us.
Proof.
  assert (∀ u : unit_, turn_ok [u]) as Hone by (intros u; by exists u, []).
  assert (∀ (u : unit_) (o : list turn_) us', concat (reverse ([u] :: o)) ++ us' = concat (reverse o) ++ u :: us') as Hsnoc.
  { intros u o us'. rewrite reverse_cons, concat_app. csimpl. by rewrite <- app_assoc. }
  induction us as [|u us IH]; intros out Hout; cbn [foldl]; [by rewrite app_nil_r|].
  destruct out as [|t out]; cbn [add_unit].
  - destruct (IH [[u]]) as [H1 H2]; [by repeat constructor|]. split; [done|]. by rewrite H2.
  - apply Forall_cons in Hout as [(v & vs & -> & Hvs) Hout]. destruct (opens_turn u) eqn:Hu.
    + destruct (IH ([u] :: (v :: vs) :: out)) as [H1 H2].
      { constructor; [apply Hone|]. constructor; [|done]. by exists v, vs. }
      split; [done|]. rewrite H2. apply Hsnoc.
    + destruct (IH (((v :: vs) ++ [u]) :: out)) as [H1 H2].
      { constructor; [|done]. exists v, (vs ++ [u]). split; [done|]. apply Forall_app. split; [done|]. by apply Forall_singleton. }
      split; [done|]. rewrite H2, !reverse_cons, !concat_app. csimpl. rewrite !app_nil_r, <- !app_assoc. csimpl.
      by rewrite <- app_assoc.
Qed.

Lemma turns_spec us : Forall turn_ok (turns us) ∧ concat (turns us) = us.
Proof. unfold turns. destruct (add_units_spec us []) as [H1 H2]; [done|]. split; [by apply Forall_reverse|done]. Qed.

Lemma from_a_question_suffix found : ∃ left, found = left ++ from_a_question found.
Proof.
  unfold from_a_question. repeat case_match; try (by exists []). by eexists [_].
Qed.

Lemma lastn_suffix {A} n (l : list A) : ∃ left, l = left ++ lastn n l.
Proof. exists (take (length l - n) l). unfold lastn. by rewrite take_drop. Qed.

(** The turns a window is cut from: accepted units, and the messages of the
    thread in order. *)
Lemma found_turns_spec messages max_turns :
  Forall (Forall accepted) (found_turns messages max_turns) ∧ Forall turn_ok (found_turns messages max_turns) ∧
  sublist (message_id <$> concat (concat (found_turns messages max_turns))) (message_id <$> messages) ∧
  (∀ n, max_turns = Some n → (length (found_turns messages max_turns) ≤ Z.to_nat n)%nat).
Proof.
  set (shown := filter (λ m, replayable m = true) messages). set (pieces := filter (λ u, u ≠ []) (whole <$> units shown)).
  destruct (units_spec shown) as [Hu Hconcat]. destruct (turns_spec pieces) as [Ht Hts].
  assert (Forall accepted pieces) as Hacc.
  { apply Forall_forall. intros u [Hne (v & -> & Hv)%list_elem_of_fmap]%list_elem_of_filter.
    rewrite Forall_forall in Hu. by destruct (whole_spec v (Hu v Hv)) as [[?|?] _]. }
  assert (sublist (message_id <$> concat pieces) (message_id <$> messages)) as Hsub.
  { etransitivity; [by apply wholes_sublist|]. rewrite Hconcat. apply fmap_sublist, sublist_filter. }
  assert (∃ left, turns pieces = left ++ found_turns messages max_turns) as [left Hleft].
  { destruct (from_a_question_suffix (turns pieces)) as [l1 H1]. unfold found_turns. fold shown pieces.
    destruct max_turns as [n|]; [|by exists l1]. case_match; [|exists (turns pieces); by rewrite app_nil_r].
    destruct (lastn_suffix (Z.to_nat n) (from_a_question (turns pieces))) as [l2 H2].
    exists (l1 ++ l2). by rewrite <- app_assoc, <- H2. }
  rewrite Hleft in Ht, Hts. rewrite concat_app in Hts. split_and!.
  - rewrite <- Hts in Hacc. apply Forall_app in Hacc as [_ Hacc]. clear -Hacc. revert Hacc.
    induction (found_turns messages max_turns) as [|t l IH]; [done|]. simpl. rewrite Forall_app. intros []. constructor; auto.
  - by apply Forall_app in Ht as [_ ?].
  - etransitivity; [|exact Hsub]. rewrite <- Hts, concat_app, fmap_app. by apply sublist_inserts_l.
  - intros n ->. unfold found_turns. case_match; [|simpl; lia]. rewrite lastn_length. lia.
Qed.
(** ** What the window shows and what it costs *)

(** The messages of a turn that said something, and all of them. *)
Definition said_in (turn : turn_) : list Message :=
  filter (λ m, role m ≠ RTool ∧ truthy (content m) = true) (concat turn).

Definition view_text (turn : turn_) : list WindowMessage := _shown false <$> said_in turn.
Definition view_whole (turn : turn_) : list WindowMessage := _shown true <$> concat turn.

Lemma layer_messages_of now t b w :
  layer_messages (layers_of now t) b w = if w then view_whole t else if b then view_text t else [].
Proof. unfold layer_messages. by destruct w, b. Qed.

Lemma shown_texts ts : ∀ n,
  concat (reverse (imap (λ i t, if (i <? n)%nat then view_text t else []) ts)) = concat (view_text <$> reverse (take n ts)).
Proof.
  induction ts as [|t ts IH]; intros n; [by rewrite take_nil|]. rewrite imap_cons, reverse_cons, concat_app.
  destruct n as [|n]; csimpl.
  - rewrite app_nil_r. specialize (IH O). by rewrite take_0 in IH.
  - rewrite reverse_cons, fmap_app, concat_app, <- IH. csimpl. by rewrite app_nil_r.
Qed.

Lemma shown_turns_of now newest older n full :
  _shown_turns (layers_of now <$> newest :: older) (S n) full =
  concat (view_text <$> reverse (take n older)) ++ (if full then view_whole newest else view_text newest).
Proof.
  unfold _shown_turns. csimpl. rewrite reverse_cons, concat_app, <- shown_texts. csimpl.
  rewrite app_nil_r, layer_messages_of. f_equal. do 2 f_equal. rewrite imap_fmap. apply imap_ext. intros i t _. csimpl.
  by rewrite layer_messages_of.
Qed.

(** The tokens of messages as shown. *)
Definition shown_cost (m : WindowMessage) : Z :=
  estimate_tokens (wm_text m) +
  foldr (λ c n, estimate_tokens (chars (tc_name c)) + estimate_tokens (orjson_dumps (JObj (items (tc_arguments c)))) + n) 0
        (wm_tool_calls m) + MESSAGE_OVERHEAD_TOKENS.

Fixpoint total {A} (f : A → Z) (l : list A) : Z :=
  match l with [] => 0 | x :: l' => f x + total f l' end.

Lemma sum_tokens_total l : sum_tokens l = total message_tokens l.
Proof. unfold sum_tokens. induction l as [|m l IH]; simpl; [done|]. by rewrite IH. Qed.

Lemma total_app {A} (f : A → Z) l k : total f (l ++ k) = total f l + total f k.
Proof. induction l as [|x l IH]; simpl; [done|]. lia. Qed.

Lemma total_nonneg {A} (f : A → Z) l : (∀ x, 0 ≤ f x) → 0 ≤ total f l.
Proof. intros Hf. induction l as [|x l IH]; simpl; [done|]. specialize (Hf x). lia. Qed.

Lemma total_fmap {A B} (f : B → Z) (g : A → B) l : total f (g <$> l) = total (λ x, f (g x)) l.
Proof. induction l as [|x l IH]; csimpl; [done|]. by rewrite IH. Qed.

Lemma total_reverse {A} (f : A → Z) l : total f (reverse l) = total f l.
Proof. induction l as [|x l IH]; [done|]. rewrite reverse_cons, total_app, IH. simpl. lia. Qed.

Lemma total_take {A} (f : A → Z) n l : (∀ x, 0 ≤ f x) → total f (take n l) ≤ total f l.
Proof. intros Hf. rewrite <- (take_drop n l) at 2. rewrite total_app. pose proof (total_nonneg f (drop n l) Hf). lia. Qed.

Lemma total_concat {A} (f : A → Z) ls : total f (concat ls) = total (total f) ls.
Proof. induction ls as [|l ls IH]; simpl; [done|]. by rewrite total_app, IH. Qed.

Lemma estimate_pos t : 1 ≤ estimate_tokens t.
Proof. rewrite estimate_tokens_weight. lia. Qed.

Lemma without_calls_cheaper m : 0 ≤ message_tokens (without_calls m) ≤ message_tokens m.
Proof.
  unfold message_tokens, MESSAGE_OVERHEAD_TOKENS. simpl. pose proof (estimate_pos (chars (content m))).
  assert (∀ l, 0 ≤ foldr (λ c n, estimate_tokens (chars (tc_name c)) + estimate_tokens (orjson_dumps (JObj (items (tc_arguments c)))) + n) 0 l).
  { induction l as [|c l IH]; simpl; [done|]. pose proof (estimate_pos (chars (tc_name c))).
    pose proof (estimate_pos (orjson_dumps (JObj (items (tc_arguments c))))). lia. }
  specialize (H0 (m_tool_calls m)). lia.
Qed.

Lemma cost_text_of now t : cost_text (layers_of now t) = total shown_cost (view_text t).
Proof. unfold cost_text, view_text. by rewrite sum_tokens_total, !total_fmap. Qed.

Lemma cost_text_nonneg l : 0 ≤ cost_text l.
Proof. unfold cost_text. rewrite sum_tokens_total, total_fmap. apply total_nonneg. intros m. apply without_calls_cheaper. Qed.

Lemma cost_steps_nonneg l : 0 ≤ cost_steps l.
Proof. unfold cost_steps. repeat case_match; try lia. match goal with |- 0 ≤ estimate_tokens ?t => pose proof (estimate_pos t) end. lia. Qed.

Lemma core_nonneg l : 0 ≤ core l.
Proof. unfold core. pose proof (cost_text_nonneg l). pose proof (cost_steps_nonneg l). by repeat case_match. Qed.

Lemma cost_whole_of now t :
  0 ≤ cost_whole (layers_of now t) ∧ cost_text (layers_of now t) + cost_whole (layers_of now t) = total shown_cost (view_whole t).
Proof.
  unfold cost_whole, view_whole. rewrite total_fmap, sum_tokens_total. split; [|change (total (λ m, shown_cost (_shown true m))) with (total message_tokens); simpl; lia].
  unfold cost_text. rewrite sum_tokens_total, total_fmap. cbn [l_text l_whole layers_of].
  induction (concat t) as [|m ms IH]; [done|]. rewrite filter_cons. pose proof (without_calls_cheaper m). case_decide; csimpl; lia.
Qed.
Lemma cores_from_spec budget layers : ∀ used kept k' used',
  cores_from layers budget used kept = (k', used') →
  ∃ n, k' = (kept + n)%nat ∧ (n ≤ length layers)%nat ∧ used' = used + total core (take n layers) ∧
    (used ≤ budget → used' ≤ budget) ∧ (budget < used → n = O).
Proof.
  induction layers as [|l layers IH]; intros used kept k' used' H; simpl in H.
  - simplify_eq. exists O. simpl. split_and!; lia.
  - destruct (Z.ltb_spec budget (used + core l)).
    + simplify_eq. exists O. simpl. split_and!; lia.
    + apply IH in H as (n & -> & ? & -> & ? & ?). pose proof (core_nonneg l). exists (S n). simpl. split_and!; lia.
Qed.

(** What [texts_from] adds pays the text of the turns it gives it to, less what
    their cores have paid. *)
Lemma texts_from_spec budget layers : ∀ used texts k' used',
  texts_from layers budget used texts = (k', used') →
  ∃ n, k' = (texts + n)%nat ∧ (n ≤ length layers)%nat ∧
    total cost_text (take n layers) + total cost_steps (take n layers) ≤ used' - used + total core (take n layers) ∧
    used ≤ used' ∧ (used ≤ budget → used' ≤ budget) ∧ (budget < used → used' = used).
Proof.
  induction layers as [|l layers IH]; intros used texts k' used' H; simpl in H.
  - simplify_eq. exists O. simpl. split_and!; lia.
  - pose proof (cost_text_nonneg l). destruct (l_steps l) as [t|] eqn:Hl.
    + destruct (Z.ltb_spec budget (used + cost_text l)).
      * simplify_eq. exists O. simpl. split_and!; lia.
      * apply IH in H as (n & -> & ? & ? & ? & ? & ?). exists (S n).
        assert (cost_steps l ≤ core l) by (unfold core, cost_steps; rewrite Hl; destruct t; lia).
        simpl. split_and!; lia.
    + apply IH in H as (n & -> & ? & ? & ? & ? & ?). exists (S n).
      assert (cost_steps l + cost_text l = core l) by (unfold core, cost_steps; rewrite Hl; lia).
      simpl. split_and!; lia.
Qed.

Lemma total_drop_nonneg {A} (f : A → Z) n l : (∀ x, 0 ≤ f x) → total f (take n l) + total f (drop n l) = total f l.
Proof. intros. by rewrite <- total_app, take_drop. Qed.

Lemma steps_below_core ls n : total cost_steps ls - total cost_steps (take n ls) ≤ total core ls - total core (take n ls).
Proof.
  assert (∀ l, cost_steps l ≤ core l) as Hle.
  { intros l. pose proof (cost_text_nonneg l). unfold core, cost_steps. by repeat case_match. }
  rewrite <- (take_drop n ls) at 1 3. rewrite !total_app.
  assert (total cost_steps (drop n ls) ≤ total core (drop n ls)); [|lia].
  induction (drop n ls) as [|l k IH]; simpl; [done|]. specialize (Hle l). lia.
Qed.

(** A run of [replay_window] over the turns [newest :: older], newest first: [k]
    older turns are kept, [n] of them in text. *)
Record replayed (now budget : Z) (newest : turn_) (older : list turn_) (n k : nat) (full : bool) (w : ConversationWindow) : Prop := {
  rp_within : (n ≤ k ≤ length older)%nat;
  rp_messages : cw_messages w =
    concat (view_text <$> reverse (take n older)) ++ (if full then view_whole newest else view_text newest);
  rp_ids : cw_message_ids w = wm_message_id <$> cw_messages w;
  rp_record : cw_record w = join [newline; newline] (omap l_steps (reverse (layers_of now <$> newest :: take k older)));
  rp_over : cw_over_budget w = (budget <? cw_token_estimate w);
  rp_paid : total shown_cost (cw_messages w) + total cost_steps (layers_of now <$> newest :: take k older) ≤ cw_token_estimate w;
  rp_kept : cost_steps (layers_of now newest) + cost_text (layers_of now newest) ≤ budget ∨ n = O ∧ k = O ∧ full = false;
  rp_budget : cost_steps (layers_of now newest) + cost_text (layers_of now newest) ≤ budget → cw_token_estimate w ≤ budget;
}.

Lemma replay_run thread_id messages budget max_turns now newest older :
  reverse (found_turns messages max_turns) = newest :: older →
  ∃ n k full, replayed now budget newest older n k full (replay_window thread_id messages budget max_turns now).
Proof.
  intros Hf. unfold replay_window. rewrite Hf, fmap_cons. cbn beta iota.
  set (ln := layers_of now newest). set (lo := layers_of now <$> older).
  destruct (_cores _ _ _) as [kept used] eqn:Hc. unfold _cores in Hc. apply cores_from_spec in Hc as (k & -> & Hk & Hused & Hin & Hout).
  destruct (_texts _ _ _ _) as [texts used'] eqn:Ht. unfold _texts in Ht. change (pred (1 + k)) with k in *.
  apply texts_from_spec in Ht as (n & -> & Hn & Hpaid & Hle & Hin' & Hout'). rewrite length_take in Hn.
  unfold lo in Hk, Hn. rewrite length_fmap in Hk, Hn.
  destruct (cost_whole_of now newest) as [Hw0 Hw]. fold ln in Hw0, Hw.
  set (full := bool_decide (is_Some (l_steps ln)) && (used' + cost_whole ln <=? budget)).
  assert (full = true → used' + cost_whole ln ≤ budget) as Hfull by (intros [_ H%Z.leb_le]%andb_true_iff; done).
  assert (_shown_turns (ln :: take k lo) (1 + n) full =
    concat (view_text <$> reverse (take n (take k older))) ++ (if full then view_whole newest else view_text newest)) as Hshown.
  { unfold ln, lo. rewrite <- fmap_take. apply shown_turns_of. }
  rewrite take_take, Nat.min_l in Hshown by lia.
  exists n, k, full. constructor; cbn [cw_messages cw_message_ids cw_record cw_over_budget cw_token_estimate]; rewrite ?Hshown.
  - lia.
  - done.
  - done.
  - rewrite fmap_cons, fmap_take. done.
  - done.
  - rewrite total_app, total_concat, total_fmap, total_reverse.
    assert (total (λ t, total shown_cost (view_text t)) (take n older) = total cost_text (take n (take k lo))) as ->.
    { unfold lo. rewrite take_take, Nat.min_l, <- fmap_take, total_fmap by lia. clear. induction (take n older) as [|t l IH]; [done|].
      simpl. by rewrite IH, cost_text_of. }
    pose proof (steps_below_core (take k lo) n). rewrite fmap_cons, fmap_take. fold ln lo. cbn [total].
    pose proof (cost_text_of now newest) as Hnt. fold ln in Hnt. destruct full; lia.
  - destruct (Z.le_gt_cases (cost_steps ln + cost_text ln) budget); [by left|right]. specialize (Hout ltac:(lia)) as ->.
    split_and!; [lia|done|]. destruct full; [specialize (Hfull eq_refl)|done]. simpl in Hused. lia.
  - intros. destruct full; [by apply Hfull|]. auto.
Qed.
(** ** The theorems *)

(** What a model API accepts of the messages shown: one message that makes no
    call, or one followed by the results of its calls, all of them there. *)
Definition answered (g : list WindowMessage) : Prop :=
  ∃ h rs, g = h :: rs ∧ wm_role h ≠ "TOOL" ∧
    Forall (λ r, wm_role r = "TOOL" ∧ ∃ c, c ∈ wm_tool_calls h ∧ wm_tool_call_id r = Some (tc_id c)) rs ∧
    Forall (λ c, Some (tc_id c) ∈ wm_tool_call_id <$> rs) (wm_tool_calls h).

Lemma role_tool r : role_value r = "TOOL" ↔ r = RTool.
Proof. by destruct r. Qed.

Lemma view_text_answered t : ∃ groups, view_text t = concat groups ∧ Forall answered groups.
Proof.
  exists ((λ m, [m]) <$> view_text t). split; [induction (view_text t) as [|m l IH]; csimpl; congruence|].
  apply Forall_fmap, Forall_forall. intros g (m & -> & [[Hr _] _]%list_elem_of_filter)%list_elem_of_fmap. simpl.
  exists (_shown false m), []. split_and!; [done| |constructor|constructor]. simpl. by rewrite role_tool.
Qed.

Definition shown_units (t : turn_) : list (list WindowMessage) := (λ u : unit_, _shown true <$> u) <$> t.

Lemma view_whole_answered t : Forall accepted t → view_whole t = concat (shown_units t) ∧ Forall answered (shown_units t).
Proof.
  intros Ht. unfold shown_units. split; [unfold view_whole; clear; induction t as [|u t IH]; csimpl; [done|by rewrite fmap_app, IH]|].
  apply Forall_fmap. eapply Forall_impl; [exact Ht|]. intros u (h & rs & -> & Hh & Hrs & Hcs). csimpl.
  exists (_shown true h), (_shown true <$> rs). split_and!; [done|simpl; by rewrite role_tool| |].
  - apply Forall_fmap. eapply Forall_impl; [exact Hrs|]. intros r [Hr ?]. simpl. by rewrite role_tool.
  - simpl. rewrite <- list_fmap_compose. exact Hcs.
Qed.

Lemma views_answered ts : ∃ groups, concat (view_text <$> ts) = concat groups ∧ Forall answered groups.
Proof.
  induction ts as [|t ts (g2 & H2 & Hg2)]; [by exists []|]. destruct (view_text_answered t) as (g1 & H1 & Hg1).
  exists (g1 ++ g2). csimpl. rewrite concat_app, H1, H2. split; [done|by apply Forall_app].
Qed.

Lemma reverse_nil_inv {A} (l : list A) : reverse l = [] → l = [].
Proof. intros H. rewrite <- (reverse_involutive l). by rewrite H. Qed.

Lemma record_cost now ts : total estimate_tokens (omap l_steps (layers_of now <$> ts)) = total cost_steps (layers_of now <$> ts).
Proof.
  induction ts as [|t ts IH]; [done|]. rewrite fmap_cons.
  assert (cost_steps (layers_of now t) = match l_steps (layers_of now t) with Some x => estimate_tokens x | None => 0 end) as H.
  { unfold cost_steps, layers_of. cbn [l_steps]. by destruct (steps_list t now). }
  revert H. generalize (layers_of now t). intros L H. csimpl. rewrite H. destruct (l_steps L); simpl; lia.
Qed.

Lemma take_reverse_lastn {A} n (l : list A) : reverse (take n (reverse l)) = lastn n l.
Proof.
  unfold lastn. rewrite <- (take_drop (length l - n) l) at 1. rewrite reverse_app.
  destruct (decide (n ≤ length l)%nat).
  - rewrite take_app_length'; [by rewrite reverse_involutive|]. rewrite length_reverse, length_drop. lia.
  - replace (length l - n)%nat with O by lia. rewrite take_0, drop_0, reverse_nil, app_nil_r.
    rewrite take_ge, reverse_involutive; [done|]. rewrite length_reverse. lia.
Qed.

Lemma view_text_ids t : sublist (wm_message_id <$> view_text t) (message_id <$> concat t).
Proof.
  unfold view_text. rewrite <- list_fmap_compose. change (sublist (message_id <$> said_in t) (message_id <$> concat t)).
  apply fmap_sublist, sublist_filter.
Qed.

Lemma view_texts_ids ts : sublist (wm_message_id <$> concat (view_text <$> ts)) (message_id <$> concat (concat ts)).
Proof.
  induction ts as [|t ts IH]; [done|]. csimpl. rewrite concat_app, !fmap_app. apply sublist_app; [apply view_text_ids|done].
Qed.

Lemma lastn_ids n ts : sublist (message_id <$> concat (concat (lastn n ts))) (message_id <$> concat (concat ts)).
Proof.
  destruct (lastn_suffix n ts) as [l Hl]. rewrite Hl at 2. rewrite !concat_app, fmap_app. by apply sublist_inserts_l.
Qed.

(** C23: A call and its results are never parted: whatever the thread holds and
    whatever the budget, the messages of a window are made of single messages
    without calls, and of messages with calls each followed by its results, one
    for every call at least and none for another call. *)
Theorem window_calls_answered thread_id messages budget max_turns now :
  ∃ groups, cw_messages (replay_window thread_id messages budget max_turns now) = concat groups ∧ Forall answered groups.
Proof.
  destruct (reverse (found_turns messages max_turns)) as [|newest older] eqn:Hf.
  { unfold replay_window. rewrite Hf. by exists []. }
  destruct (replay_run thread_id messages budget max_turns now newest older Hf) as (n & k & full & Hr).
  rewrite (rp_messages _ _ _ _ _ _ _ _ Hr). destruct (views_answered (reverse (take n older))) as (g1 & -> & Hg1).
  assert (∃ g2, (if full then view_whole newest else view_text newest) = concat g2 ∧ Forall answered g2) as (g2 & -> & Hg2).
  { destruct full; [|apply view_text_answered]. exists (shown_units newest). apply view_whole_answered.
    destruct (found_turns_spec messages max_turns) as [Hacc _]. apply Forall_reverse in Hacc. rewrite Hf in Hacc.
    by apply Forall_cons in Hacc as [? _]. }
  exists (g1 ++ g2). rewrite concat_app. split; [done|by apply Forall_app].
Qed.

(** C24: The budget is kept unless the newest turn alone is over it: the messages
    shown and the steps lists of the record cost no more than the window says,
    which is within the budget; and a window over it says so and holds nothing
    but the newest turn's question, answer and steps list. *)
Theorem window_within_budget thread_id messages budget max_turns now :
  let w := replay_window thread_id messages budget max_turns now in
  (∃ lists, cw_record w = join [newline; newline] lists ∧
    total shown_cost (cw_messages w) + total estimate_tokens lists ≤ cw_token_estimate w) ∧
  (0 ≤ budget → cw_over_budget w = false → cw_token_estimate w ≤ budget) ∧
  (0 ≤ budget → cw_over_budget w = true → ∃ older newest,
    found_turns messages max_turns = older ++ [newest] ∧ cw_messages w = view_text newest ∧ cw_record w = steps_list newest now).
Proof.
  cbn zeta. destruct (reverse (found_turns messages max_turns)) as [|newest older] eqn:Hf.
  { unfold replay_window. rewrite Hf. simpl. split_and!; [exists []; simpl; split; [done|lia]|lia|done]. }
  destruct (replay_run thread_id messages budget max_turns now newest older Hf) as (n & k & full & Hr).
  set (w := replay_window _ _ _ _ _) in *. split_and!.
  - exists (omap l_steps (reverse (layers_of now <$> newest :: take k older))). split; [apply Hr|].
    pose proof (rp_paid _ _ _ _ _ _ _ _ Hr) as Hp. by rewrite <- fmap_reverse, record_cost, fmap_reverse, total_reverse.
  - intros _ Ho. rewrite (rp_over _ _ _ _ _ _ _ _ Hr) in Ho. by apply Z.ltb_ge in Ho.
  - intros _ Ho. rewrite (rp_over _ _ _ _ _ _ _ _ Hr) in Ho. apply Z.ltb_lt in Ho.
    destruct (rp_kept _ _ _ _ _ _ _ _ Hr) as [H|(-> & -> & ->)]; [pose proof (rp_budget _ _ _ _ _ _ _ _ Hr H); lia|].
    exists (reverse older), newest. split_and!.
    + by rewrite <- reverse_cons, <- Hf, reverse_involutive.
    + rewrite (rp_messages _ _ _ _ _ _ _ _ Hr). by rewrite take_0.
    + rewrite (rp_record _ _ _ _ _ _ _ _ Hr), take_0. csimpl. unfold layers_of. simpl. by destruct (steps_list newest now).
Qed.

(** What is shown is the end of the conversation, without gaps: the text of
    the newest turns back to some turn, the newest one's always, with its calls
    and results when they fit; no more turns than asked for, and every message at
    most as often and in the order the thread has it. *)
Theorem window_is_newest_turns thread_id messages budget max_turns now older newest :
  found_turns messages max_turns = older ++ [newest] →
  let w := replay_window thread_id messages budget max_turns now in
  ∃ n full, (n ≤ length older)%nat ∧
    cw_messages w = concat (view_text <$> lastn n older) ++ (if full : bool then view_whole newest else view_text newest) ∧
    (∀ limit, max_turns = Some limit → (S n ≤ Z.to_nat limit)%nat) ∧
    cw_message_ids w = wm_message_id <$> cw_messages w ∧
    sublist (cw_message_ids w) (message_id <$> messages).
Proof.
  intros Hf w. assert (reverse (found_turns messages max_turns) = newest :: reverse older) as Hrev.
  { rewrite Hf, reverse_app. done. }
  destruct (replay_run thread_id messages budget max_turns now newest (reverse older) Hrev) as (n & k & full & Hr).
  fold w in Hr. pose proof (rp_within _ _ _ _ _ _ _ _ Hr) as Hnk. rewrite length_reverse in Hnk.
  exists n, full. pose proof (rp_messages _ _ _ _ _ _ _ _ Hr) as Hm. rewrite take_reverse_lastn in Hm.
  split_and!; [lia|done| |apply Hr|].
  - intros limit Hl. destruct (found_turns_spec messages max_turns) as (_ & _ & _ & H). specialize (H limit Hl).
    rewrite Hf, length_app in H. simpl in H. lia.
  - rewrite (rp_ids _ _ _ _ _ _ _ _ Hr), Hm. etransitivity; [|apply (found_turns_spec messages max_turns)].
    rewrite Hf, !concat_app, !fmap_app. simpl. rewrite app_nil_r. apply sublist_app.
    + etransitivity; [apply view_texts_ids|apply lastn_ids].
    + destruct full; [|apply view_text_ids]. unfold view_whole. by rewrite <- list_fmap_compose.
Qed.
Lemma count_all {A} (f : A → bool) l : length (filter (λ x, f x = true) l) = length l ↔ ∀ x, x ∈ l → f x = true.
Proof.
  induction l as [|x l IH]; [by split; [set_solver|]|]. rewrite filter_cons. pose proof (length_filter (λ x, f x = true) l).
  case_decide as Hx; simpl; split.
  - intros H' y [->|Hy]%elem_of_cons; [done|]. apply IH; [lia|done].
  - intros H'. f_equal. apply IH. intros y Hy. apply H'. by right.
  - lia.
  - intros H'. destruct Hx. apply H'. by left.
Qed.

Lemma count_none {A} (f : A → bool) l : filter (λ x, f x = true) l = [] ↔ ∀ x, x ∈ l → f x = false.
Proof.
  split.
  - intros H x Hx. destruct (f x) eqn:Hf; [|done]. assert (x ∈ filter (λ x, f x = true) l) as Hin by by apply list_elem_of_filter.
    rewrite H in Hin. by apply not_elem_of_nil in Hin.
  - intros H. destruct (filter _ l) as [|x k] eqn:Hk; [done|]. assert (x ∈ x :: k) as Hin by by left. rewrite <- Hk in Hin.
    apply list_elem_of_filter in Hin as [Hx Hin]. by rewrite H in Hx.
Qed.

Lemma fresh_values steps now : stale_names steps now = [] ↔ ∀ s, s ∈ steps → out_of_date s now = false.
Proof.
  rewrite <- count_none. unfold stale_names. destruct (filter _ steps) as [|s l]; [done|]. split; [|done]. by intros.
Qed.

Lemma exists_fact k steps : existsb (has_fact k) steps = true ↔ ∃ s, s ∈ steps ∧ has_fact k s = true.
Proof. rewrite existsb_exists. by setoid_rewrite list_elem_of_In. Qed.

Lemma grades_differ : SURE_low ≠ SURE_high ∧ SURE_medium ≠ SURE_high ∧ SURE_medium ≠ SURE_low.
Proof. split_and!; intros H%(f_equal length); vm_compute in H; done. Qed.

(** The evidence line's grade is the record's alone: "high" exactly when every
    call is recorded to have succeeded, a call named a source, no value is out of
    date and the run did not fail; "low" exactly when the run failed, or statuses
    are recorded and none is a success. *)
Theorem grade_exact steps run now :
  (sure steps run now = SURE_high ↔
    run_failed run = false ∧ (∀ s, s ∈ steps → call_ok s = true ∧ out_of_date s now = false) ∧
    (∃ s, s ∈ steps ∧ has_fact "sources" s = true)) ∧
  (sure steps run now = SURE_low ↔
    run_failed run = true ∨ ((∃ s, s ∈ steps ∧ has_fact "status" s = true) ∧ ∀ s, s ∈ steps → call_ok s = false)).
Proof.
  rewrite <- !exists_fact, <- count_none.
  assert ((∀ s, s ∈ steps → call_ok s = true ∧ out_of_date s now = false) ↔
    succeeded steps = length steps ∧ stale_names steps now = []) as ->.
  { rewrite fresh_values. unfold succeeded. rewrite count_all. naive_solver. }
  unfold sure, _grade. destruct grades_differ as (Hlh & Hmh & Hml). revert Hlh Hmh Hml.
  generalize SURE_low SURE_high SURE_medium. intros low high medium Hlh Hmh Hml.
  assert (succeeded steps = O ↔ filter (λ s, call_ok s = true) steps = []) as Hzero by apply length_zero_iff_nil.
  rewrite <- Hzero. assert (succeeded steps = O → succeeded steps = length steps → existsb (has_fact "status") steps = true → False) as Hnone.
  { intros H0 H1. rewrite H0 in H1. symmetry in H1. by apply length_zero_iff_nil in H1 as ->. }
  destruct (run_failed run), (existsb (has_fact "status") steps), (existsb (has_fact "sources") steps),
    (Nat.eqb_spec (succeeded steps) 0), (Nat.eqb_spec (succeeded steps) (length steps)), (stale_names steps now);
    cbn [andb orb negb]; intuition congruence.
Qed.
End steps.

(** ** The rendered form (modules/context/builder.py) *)

(** The loop of [render_window] over the messages, newest first: the chosen
    ones, oldest first, and what they cost. *)
Fixpoint render_from (newest_first : list Message) (token_budget used : Z) (chosen : list Message) : list Message * Z :=
  match newest_first with
  | [] => (chosen, used)
  | m :: rest =>
      if negb (bool_decide (kind m = VISIBLE)) then render_from rest token_budget used chosen
      else
        let t := estimate_tokens (chars (content m)) + 4 in
        if (token_budget <? used + t) && match chosen with [] => false | _ => true end then (chosen, used)
        else render_from rest token_budget (used + t) (m :: chosen)
  end.

Definition render_window (thread_id : string) (messages : list Message) (token_budget : Z) : ConversationWindow :=
  let '(chosen, used) := render_from (reverse messages) token_budget 0 [] in
  {| cw_thread_id := Some thread_id; cw_message_ids := message_id <$> chosen;
     cw_messages := (λ m, {| wm_message_id := message_id m; wm_role := role_value (role m); wm_text := chars (content m);
                             wm_tool_calls := []; wm_tool_call_id := None; wm_run_record := None |}) <$> chosen;
     cw_rendered := join [newline] ((λ m, lit (role_value (role m)) ++ lit ": " ++ chars (content m)) <$> chosen);
     cw_token_estimate := used; cw_form := RENDERED; cw_over_budget := false; cw_record := [] |}.

(** What a message costs in the rendered form. *)
Definition rendered_cost (m : Message) : Z := estimate_tokens (chars (content m)) + 4.

Definition visible_of (messages : list Message) : list Message := filter (λ m, kind m = VISIBLE) messages.

Lemma render_from_spec budget ms : ∀ used chosen,
  used = total rendered_cost chosen → (chosen ≠ [] → used ≤ budget ∨ length chosen = 1%nat) →
  ∃ n, let '(out, used') := render_from ms budget used chosen in
    out = reverse (take n (visible_of ms)) ++ chosen ∧ used' = total rendered_cost out ∧
    (n ≤ length (visible_of ms))%nat ∧ (chosen = [] → visible_of ms ≠ [] → (1 ≤ n)%nat) ∧
    (used' ≤ budget ∨ (length out ≤ 1)%nat) ∧
    (∀ m, visible_of ms !! n = Some m → budget < used' + rendered_cost m).
Proof.
  unfold visible_of. induction ms as [|m ms IH]; intros used chosen Hu Hb; simpl.
  - exists O. simpl. split_and!; [done|done|lia|done| |done]. destruct chosen; [simpl; right; lia|destruct (Hb ltac:(done)); [by left|right; lia]].
  - rewrite filter_cons. destruct (decide (kind m = VISIBLE)) as [Hv|Hv].
    2: { rewrite bool_decide_eq_false_2 by done. by apply IH. }
    rewrite bool_decide_eq_true_2 by done. simpl.
    destruct (_ && _) eqn:Hstop.
    + apply andb_true_iff in Hstop as [Hlt%Z.ltb_lt Hne]. exists O. simpl.
      split_and!; [done|done|lia|by intros ->| |intros ? [= <-]; unfold rendered_cost; lia].
      destruct chosen; [done|]. destruct (Hb ltac:(done)); [by left|right; lia].
    + destruct (IH (used + (estimate_tokens (chars (content m)) + 4)) (m :: chosen)) as [n Hn].
      { simpl. unfold rendered_cost at 1. lia. }
      { intros _. apply andb_false_iff in Hstop as [Hle%Z.ltb_ge|Hnil]; [left; lia|]. right. by destruct chosen. }
      exists (S n). destruct (render_from _ _ _ _) as [out used']. destruct Hn as (-> & ? & ? & _ & Hd & ?).
      simpl. rewrite reverse_cons, <- app_assoc. split_and!; [done|done|lia|lia|done|done].
Qed.

(** C40: The rendered window is the most that fits of the end of the visible chat:
    the last messages, in order, at least one when there is any, within the
    budget unless it is one message alone, and one more would be over it. *)
Theorem render_window_exact thread_id messages budget :
  let w := render_window thread_id messages budget in
  let visible := visible_of messages in
  ∃ n, cw_message_ids w = message_id <$> lastn n visible ∧ wm_text <$> cw_messages w = (λ m, chars (content m)) <$> lastn n visible ∧
    cw_token_estimate w = total rendered_cost (lastn n visible) ∧
    (n ≤ length visible)%nat ∧ (visible ≠ [] → (1 ≤ n)%nat) ∧
    (cw_token_estimate w ≤ budget ∨ (n ≤ 1)%nat) ∧
    (∀ m, reverse visible !! n = Some m → budget < cw_token_estimate w + rendered_cost m).
Proof.
  cbn zeta. unfold render_window.
  destruct (render_from_spec budget (reverse messages) 0 [] eq_refl ltac:(done)) as [n Hn].
  destruct (render_from _ _ _ _) as [out used]. destruct Hn as (Hout & -> & Hlen & H1 & Hb & Hmax).
  unfold visible_of in *. rewrite filter_reverse in *. rewrite take_reverse_lastn, app_nil_r in Hout. subst out.
  rewrite length_reverse in Hlen. rewrite lastn_length in Hb.
  exists n. cbn [cw_message_ids cw_messages cw_token_estimate]. rewrite <- list_fmap_compose. split_and!; [done..| | |done].
  - intros Hne. apply H1; [done|]. intros H%reverse_nil_inv. done.
  - destruct Hb as [?|?]; [by left|right; lia].
Qed.

(** ** A thread *)

Definition a_message (n : Z) (r : MessageRole) (t : string) (calls : list MessageToolCall) (call : option string)
    (facts : list (string * json)) : Message :=
  {| message_id := "m" +:+ text_of_Z n; m_thread_id := "th"; m_session_id := "s"; m_turn_id := "t"; m_tenant_id := "acme";
     role := r; kind := if bool_decide (r = RTool) then INTERNAL else VISIBLE; sequence := n; content := t; content_hash := "";
     m_version := 1; author_principal := "user:ann"; m_agent_run_id := None; parent_message_id := None; m_attachments := [];
     m_tool_calls := calls; tool_call_id := call; source_system := None; source_message_id := None; occurred_at := n;
     message_created_at := n; archive_status := STAGED; m_system := ∅;
     m_custom_metadata := match facts with [] => ∅ | _ => {[RUN_RECORD := JObj facts]} end; message_deleted_at := None |}.

Definition a_call : MessageToolCall := {| tc_id := "c1"; tc_name := "stock"; tc_arguments := {["site" := JStr "Elm"]} |}.

(** A question answered at once, one answered with a call, and one more. *)
Definition a_thread : list Message :=
  [a_message 1 RUser "Who are you?" [] None []; a_message 2 RAssistant "An agent." [] None [];
   a_message 3 RUser "How many are left?" [] None []; a_message 4 RAssistant "" [a_call] None [];
   a_message 5 RTool "12 at Elm" [] (Some "c1") [("status", JStr "OK"); ("sources", JStr "ledger"); ("seconds", JNum 2)];
   a_message 6 RAssistant "There are twelve left at the Elm depot, and no delivery is planned this week." [] None [];
   a_message 7 RUser "Thanks" [] None []; a_message 8 RAssistant "Welcome." [] None []].

Abbreviation a_window := (replay_window (λ j, chars (Json.dumps j)) map_to_list (λ _, []) (λ _, None) "th").

Example steps_list_ex :
  encode (cw_record (a_window a_thread 200 None 0)) = encode (
    lit "For " ++ [chr "034"] ++ lit "How many are left?" ++ [chr "034"] ++ lit " (1 call):" ++ [newline] ++
    lit "1. stock(site=" ++ [chr "034"] ++ lit "Elm" ++ [chr "034"] ++ lit "): OK, 2.0 s, source: ledger" ++ [newline] ++
    lit "Evidence: 1 of 1 calls succeeded; 1 source: ledger (named by 1 of 1). How sure, from this record: high.").
Proof. vm_compute. reflexivity. Qed.

(** A budget that holds every core but not the text of the turn with the call:
    the first turn is paid for as a core, is within the budget and is shown in no
    layer, for its text is its only one and comes after the gap. *)
Example quiet_turn_paid_and_lost :
  let w := a_window a_thread 100 None 0 in
  cw_message_ids w = ["m7"; "m8"] ∧ cw_over_budget w = false ∧
  cw_token_estimate w = total (shown_cost (λ j, chars (Json.dumps j)) map_to_list) (cw_messages w) + estimate_tokens (cw_record w) + 13.
Proof. split_and!; vm_compute; reflexivity. Qed.

Abbreviation w_newest := (default [] (last (found_turns a_thread (Some 2)))).
Abbreviation w_older := (take 1 (found_turns a_thread (Some 2))).

Lemma window_is_newest_turns_witness :
  cw_message_ids (a_window a_thread 200 (Some 2) 0) = ["m3"; "m6"; "m7"; "m8"] ∧
  ∃ n, (n ≤ 1)%nat ∧ sublist (cw_message_ids (a_window a_thread 200 (Some 2) 0)) (message_id <$> a_thread).
Proof.
  split; [vm_compute; reflexivity|].
  assert (found_turns a_thread (Some 2) = w_older ++ [w_newest]) as Hf by (vm_compute; reflexivity).
  destruct (window_is_newest_turns (λ j, chars (Json.dumps j)) map_to_list (λ _, []) (λ _, None) "th" a_thread 200 (Some 2) 0
    w_older w_newest Hf) as (n & full & Hn & _ & _ & _ & Hs).
  exists n. split; [exact Hn|exact Hs].
Defined.

Lemma window_within_budget_witness :
  cw_over_budget (a_window a_thread 5 None 0) = true ∧
  ∃ newest, cw_messages (a_window a_thread 5 None 0) = view_text newest.
Proof.
  assert (cw_over_budget (a_window a_thread 5 None 0) = true) as Ho by (vm_compute; reflexivity).
  split; [exact Ho|].
  destruct (window_within_budget (λ j, chars (Json.dumps j)) map_to_list (λ _, []) (λ _, None) "th" a_thread 5 None 0)
    as (_ & _ & H). destruct (H ltac:(lia) Ho) as (older & newest & _ & Hm & _). exists newest. exact Hm.
Defined.
