(* ===== verification/Segments.v ===== *)
(** * Archive segments

    modules/archive/segments.py: the archival record of a message, the grouping
    of a thread's messages into segments, the segment built from a group (its key,
    its text, its manifest) and reading it back. Compression and the digest are
    libraries' ([compress], [decompress], [sha]). *)
From stdpp Require Import base gmap list strings.
From Stdlib Require Import ZArith Lia Ascii String.
From S2P Require Import Prelude Json Errors Messages.
#[local] Open Scope string_scope.
#[local] Open Scope Z_scope.

(** ** Dates

    A time is its seconds since 1970 in UTC; [civil] is the Gregorian year, month
    and day of a day number, as [datetime] counts them. *)

Definition civil (days : Z) : Z * Z * Z :=
  let z := days + 719468 in
  let era := z / 146097 in
  let doe := z - era * 146097 in
  let yoe := (doe - doe / 1460 + doe / 36524 - doe / 146096) / 365 in
  let doy := doe - (365 * yoe + yoe / 4 - yoe / 100) in
  let mp := (5 * doy + 2) / 153 in
  let d := doy - (153 * mp + 2) / 5 + 1 in
  let m := if mp <? 10 then mp + 3 else mp - 9 in
  ((if m <=? 2 then yoe + era * 400 + 1 else yoe + era * 400), m, d).

Fixpoint zeros (n : nat) : string := match n with O => "" | S n => String "0" (zeros n) end.

(** [f"{n:0wd}"] for [n >= 0]. *)
Definition padded (w : nat) (n : Z) : string :=
  let s := text_of_Z n in zeros (w - String.length s) +:+ s.

Definition year_of (at_ : Z) : string := let '(y, _, _) := civil (at_ / 86400) in text_of_Z y.
Definition month_of (at_ : Z) : string := let '(_, m, _) := civil (at_ / 86400) in padded 2 m.

(** [datetime.isoformat()] of a whole second. *)
Definition isoformat (at_ : Z) : string :=
  let '(y, m, d) := civil (at_ / 86400) in
  let s := at_ mod 86400 in
  padded 4 y +:+ "-" +:+ padded 2 m +:+ "-" +:+ padded 2 d +:+ "T" +:+
  padded 2 (s / 3600) +:+ ":" +:+ padded 2 (s / 60 mod 60) +:+ ":" +:+ padded 2 (s mod 60) +:+ "+00:00".

Example civil_ex : civil 0 = (1970, 1, 1) ∧ civil 19782 = (2024, 2, 29) ∧ civil 20088 = (2024, 12, 31).
Proof. done. Qed.
Example isoformat_ex : isoformat 1709210096 = "2024-02-29T12:34:56+00:00".
Proof. done. Qed.

(** ** The record of a message *)

Definition SEGMENT_FORMAT : string := "jsonl+zstd/v1".

(** The archival representation of a message. *)
Definition message_record (m : Message) : json :=
  JObj [("message_id", JStr (message_id m)); ("thread_id", JStr (m_thread_id m));
        ("session_id", JStr (m_session_id m)); ("turn_id", JStr (m_turn_id m)); ("tenant_id", JStr (m_tenant_id m));
        ("sequence", JNum (sequence m)); ("role", JStr (role_value (role m)));
        ("kind", JStr (message_kind_value (kind m))); ("version", JNum (m_version m));
        ("author_principal", JStr (author_principal m)); ("agent_run_id", jopt (m_agent_run_id m));
        ("parent_message_id", jopt (parent_message_id m)); ("occurred_at", JStr (isoformat (occurred_at m)));
        ("created_at", JStr (isoformat (message_created_at m))); ("content", JStr (content m));
        ("content_hash", JStr (content_hash m)); ("attachments", JList (attachment_json <$> m_attachments m));
        ("source_system", jopt (source_system m)); ("source_message_id", jopt (source_message_id m));
        ("custom_metadata", jmap (m_custom_metadata m))].

(** [record[k]], which keeps the last value of a repeated key. *)
Definition jget (k : string) (j : json) : option json :=
  match j with
  | JObj fields => snd <$> last (filter (λ kv, kv.1 = k) fields)
  | _ => None
  end.

(** ** Grouping *)

Definition content_size (m : Message) : Z := Z.of_nat (String.length (content m)).

Record SegmentPlan := { sp_messages : list Message }.

Definition raw_bytes (p : SegmentPlan) : Z := foldr Z.add 0 (content_size <$> sp_messages p).

(** What a message counts for in a plan. *)
Definition plan_size (m : Message) : Z := content_size m + 256.

(** The loop: the plan being filled with its size, and the plans from here on. *)
Fixpoint plan_from (budget : Z) (max_messages : Z) (current : list Message) (current_bytes : Z) (l : list Message) :
    list SegmentPlan :=
  match l with
  | [] => match current with [] => [] | _ => [{| sp_messages := current |}] end
  | m :: l' =>
      let size := plan_size m in
      if bool_decide (current ≠ []) && ((budget <? current_bytes + size) || (max_messages <=? Z.of_nat (length current)))
      then {| sp_messages := current |} :: plan_from budget max_messages [m] size l'
      else plan_from budget max_messages (current ++ [m]) (current_bytes + size) l'
  end.

(** [expected_ratio] is its default, 5.0. *)
Definition plan_segments (messages : list Message) (target_compressed_bytes max_messages : Z) : list SegmentPlan :=
  plan_from (target_compressed_bytes * 5) max_messages [] 0 messages.

(** ** Segments *)

Record BuiltSegment := {
  bs_id : string;
  bs_key : string;
  bs_data : string;
  bs_checksum : string;
  bs_raw_bytes : Z;
  bs_message_ids : list string;
  bs_first_sequence : Z;
  bs_last_sequence : Z;
  bs_first_at : Z;
  bs_last_at : Z;
  bs_manifest : json;
}.

(** [int(s, 16)] of a hexadecimal text. *)
Fixpoint Z_of_hex_from (n : Z) (s : string) : Z :=
  match s with
  | EmptyString => n
  | String c s' => Z_of_hex_from (n * 16 + default 0 (hex_value c)) s'
  end.

Definition newline : string := String (chr 10) "".

(** The least and the greatest of some numbers, the first one given. *)
Definition least (x : Z) (l : list Z) : Z := foldr Z.min x l.
Definition greatest (x : Z) (l : list Z) : Z := foldr Z.max x l.

Section segments.
Variable sha : string → string.
Variable compress : Z → string → string.
Variable decompress : string → option string.

Definition tenant_shard (tenant : string) (shards : Z) : Z :=
  Z_of_hex_from 0 (substring 0 8 (sha tenant)) mod shards.

Definition segment_key (tenant thread segment : string) (shards at_ : Z) : string :=
  "tenant-shard=" +:+ padded 3 (tenant_shard tenant shards) +:+ "/tenant=" +:+ tenant +:+ "/year=" +:+ year_of at_ +:+
  "/month=" +:+ month_of at_ +:+ "/thread=" +:+ thread +:+ "/segment=" +:+ segment +:+ ".jsonl.zst".

(** The text of a segment: a record a line. *)
Definition segment_text (messages : list Message) : string :=
  str_join newline ((λ m, dumps (message_record m)) <$> messages) +:+ newline.

(** [sorted({...})] of texts. *)
Definition sorted_set (l : list string) : json := JList (JStr <$> str_sorted (fromkeys l)).

(** [segment_id] is the fresh id, [now] the time of building. *)
Definition build_segment (segment_id : string) (now : Z) (messages : list Message) (tenant thread : string)
    (shards zstd_level : Z) : res BuiltSegment :=
  match messages with
  | [] => Raise (ValueError "cannot build an empty segment")
  | m0 :: _ =>
      let raw := segment_text messages in
      let data := compress zstd_level raw in
      let first_at := least (occurred_at m0) (occurred_at <$> messages) in
      let last_at := greatest (occurred_at m0) (occurred_at <$> messages) in
      let first_sequence := sequence m0 in
      let last_sequence := default first_sequence (sequence <$> last messages) in
      let ids := message_id <$> messages in
      Ok {| bs_id := segment_id; bs_key := segment_key tenant thread segment_id shards first_at; bs_data := data;
            bs_checksum := sha data; bs_raw_bytes := Z.of_nat (String.length raw); bs_message_ids := ids;
            bs_first_sequence := first_sequence; bs_last_sequence := last_sequence; bs_first_at := first_at;
            bs_last_at := last_at;
            bs_manifest := JObj [
              ("format", JStr SEGMENT_FORMAT); ("segment_id", JStr segment_id); ("tenant_id", JStr tenant);
              ("thread_id", JStr thread); ("message_count", JNum (Z.of_nat (length messages)));
              ("message_ids", JList (JStr <$> ids)); ("sessions", sorted_set (m_session_id <$> messages));
              ("turns", sorted_set (m_turn_id <$> messages));
              ("agent_runs", sorted_set (filter (λ i, truthy i = true) (omap m_agent_run_id messages)));
              ("first_sequence", JNum first_sequence); ("last_sequence", JNum last_sequence);
              ("first_at", JStr (isoformat first_at)); ("last_at", JStr (isoformat last_at));
              ("raw_bytes", JNum (Z.of_nat (String.length raw)));
              ("compressed_bytes", JNum (Z.of_nat (String.length data)));
              ("source_hashes", JObj ((λ m, (message_id m, JStr (content_hash m))) <$> messages));
              ("built_at", JStr (isoformat now))] |}
  end.

(** [read_segment] is a generator: its records in order, a line that is not JSON
    ([None]) ending it with an exception when it is reached. *)
Definition read_segment (data : string) : option (list (option json)) :=
  raw ← decompress data; Some (loads <$> filter (λ l, truthy l = true) (splitlines raw)).

End segments.

(** ** Grouping: what a plan is *)

Definition weight (l : list Message) : Z := foldr Z.add 0 (plan_size <$> l).

(** A segment of the plan: within the byte budget, unless it is one message, and
    within the message limit. *)
Definition fits (budget max_messages : Z) (l : list Message) : Prop :=
  l ≠ [] ∧ (weight l ≤ budget ∨ length l = 1%nat) ∧ Z.of_nat (length l) ≤ max_messages.

(** No segment could have taken the first message of the next one. *)
Definition full (budget max_messages : Z) (l : list Message) (next : list Message) : Prop :=
  match next with
  | m :: _ => budget < weight l + plan_size m ∨ max_messages ≤ Z.of_nat (length l)
  | [] => True
  end.

Inductive greedy (budget max_messages : Z) : list SegmentPlan → Prop :=
| greedy_nil : greedy budget max_messages []
| greedy_cons p l : fits budget max_messages (sp_messages p) →
    full budget max_messages (sp_messages p) (default [] (sp_messages <$> head l)) →
    greedy budget max_messages l → greedy budget max_messages (p :: l).

Lemma weight_snoc l m : weight (l ++ [m])%list = weight l + plan_size m.
Proof. unfold weight. rewrite fmap_app. induction l as [|x l IH]; cbn in *; lia. Qed.

Lemma plan_from_concat budget mx current bytes l :
  concat (sp_messages <$> plan_from budget mx current bytes l) = (current ++ l)%list.
Proof.
  revert current bytes. induction l as [|m l IH]; intros current bytes; cbn [plan_from].
  - destruct current; cbn; [done|by rewrite !app_nil_r].
  - destruct (_ && _); cbn [fmap list_fmap concat sp_messages].
    + by rewrite IH.
    + by rewrite IH, <- app_assoc.
Qed.

(** The first plan starts with the messages already taken. *)
Lemma plan_from_head budget mx c current bytes l :
  ∃ t, default [] (sp_messages <$> head (plan_from budget mx (c :: current) bytes l)) = c :: t.
Proof.
  revert current bytes. induction l as [|m l IH]; intros current bytes; cbn [plan_from]; [by eexists|].
  destruct (_ && _); [by eexists|]. apply IH.
Qed.

Lemma plan_from_greedy budget mx current l : 1 ≤ mx → (current = [] ∨ fits budget mx current) →
  greedy budget mx (plan_from budget mx current (weight current) l).
Proof.
  intros Hmx. revert current. induction l as [|m l IH]; intros current Hcur; cbn [plan_from].
  - destruct current; [constructor|]. constructor; [|done|constructor]. by destruct Hcur.
  - destruct (bool_decide (current ≠ [])) eqn:Hne; cbn [andb].
    + apply bool_decide_eq_true in Hne. destruct Hcur as [|Hfit]; [done|]. destruct (_ || _) eqn:Hstop.
      * constructor; [done| |].
        -- destruct (plan_from_head budget mx m [] (plan_size m) l) as [t ->]. cbn.
           apply orb_true_iff in Hstop as [Hb%Z.ltb_lt|Hn%Z.leb_le]; [by left|by right].
        -- replace (plan_size m) with (weight [m]) by (cbn; lia). apply IH. right. split_and!; [done|by right|cbn; lia].
      * apply orb_false_iff in Hstop as [Hb%Z.ltb_ge Hn%Z.leb_gt]. rewrite <- weight_snoc. apply IH. right. split_and!.
        -- by destruct current.
        -- left. by rewrite weight_snoc.
        -- rewrite length_app. cbn. lia.
    + apply bool_decide_eq_false in Hne. destruct current; [|by destruct Hne].
      change (weight []) with 0. replace (0 + plan_size m) with (weight [m]) by (cbn; lia). cbn [app].
      apply IH. right. split_and!; [done|by right|cbn; lia].
Qed.

(** A thread's messages are cut into segments in order, none lost and none
    twice; a segment holds at least one message and at most [max_messages], and
    stays within the byte budget unless it is a single message; and the cut is
    greedy: the first message of the next segment would have gone over a limit. *)
Theorem plan_segments_greedy messages target mx : 1 ≤ mx →
  let plans := plan_segments messages target mx in
  concat (sp_messages <$> plans) = messages ∧ greedy (target * 5) mx plans.
Proof.
  intros Hmx. split; [apply plan_from_concat|]. apply (plan_from_greedy _ _ []); [done|by left].
Qed.

(** ** Reading a segment back *)

Lemma least_greatest x (l : list Z) t : t ∈ l → least x l ≤ t ≤ greatest x l.
Proof.
  induction l as [|u l IH]; [by intros ?%elem_of_nil|]. unfold least, greatest in *.
  intros [->|Hu]%elem_of_cons; cbn; [lia|]. specialize (IH Hu). lia.
Qed.

Section reading.
#[local] Set Default Proof Using "Type".
Variable sha : string → string.
Variable compress : Z → string → string.
Variable decompress : string → option string.
(** What zstd promises: decompressing gives back what was compressed. *)
Hypothesis zstd : ∀ level raw, decompress (compress level raw) = Some raw.

(** None of the message's texts has a line separator above ASCII. *)
Definition one_line (m : Message) : Prop := json_wide (message_record m) = false.

Lemma dumps_truthy j : truthy (dumps j) = true.
Proof. destruct (dumps_head j) as (c & s & -> & _). done. Qed.

Lemma read_text level messages : messages ≠ [] → Forall one_line messages →
  read_segment decompress (compress level (segment_text messages)) = Some ((λ m, Some (message_record m)) <$> messages).
Proof using zstd.
  intros Hne Hall. unfold read_segment. rewrite zstd. cbn [mbind option_bind]. f_equal. unfold segment_text.
  rewrite (list_fmap_compose message_record dumps) at 1.
  assert (Forall (λ j, json_wide j = false) (message_record <$> messages)) as Hw by by apply Forall_fmap.
  rewrite (splitlines_join (dumps <$> (message_record <$> messages))); [|by destruct messages|].
  - rewrite filter_all_true.
    + rewrite <- !list_fmap_compose. apply list_fmap_ext. intros _ m _. apply loads_dumps.
    + apply Forall_fmap, Forall_true. intros j. apply dumps_truthy.
  - apply Forall_fmap. eapply Forall_impl; [exact Hw|]. intros j Hj. apply (dumps_piece j Hj).
Qed.

(** C34: what is archived is what is read. A segment built from messages without
    line separators above ASCII reads back as the record of each message, in
    order, every field as it was; its sequences are those of its first and last
    message, and it is stored under the checksum of its bytes. *)
Theorem segment_roundtrip i now messages tenant thread shards level b :
  build_segment sha compress i now messages tenant thread shards level = Ok b → Forall one_line messages →
  read_segment decompress (bs_data b) = Some ((λ m, Some (message_record m)) <$> messages) ∧
  bs_message_ids b = message_id <$> messages ∧ head (sequence <$> messages) = Some (bs_first_sequence b) ∧
  last (sequence <$> messages) = Some (bs_last_sequence b) ∧ bs_checksum b = sha (bs_data b) ∧
  Forall (λ m, bs_first_at b ≤ occurred_at m ≤ bs_last_at b) messages.
Proof using zstd.
  intros Hb Hall. destruct messages as [|m0 l]; [done|]. injection Hb as <-. cbn [bs_data bs_message_ids bs_first_sequence
    bs_last_sequence bs_checksum bs_first_at bs_last_at]. split_and!; [by apply read_text|done|done| |done|].
  - rewrite fmap_last. destruct (last (m0 :: l)) eqn:Hl; [done|]. by apply last_None in Hl.
  - apply Forall_forall. intros m Hm. apply (list_elem_of_fmap_2 occurred_at) in Hm.
    exact (least_greatest (occurred_at m0) _ _ Hm).
Qed.
End reading.

(** ** Instances *)

Definition note (i : string) (n : Z) (content_ : string) : Message :=
  {| message_id := i; m_thread_id := "t1"; m_session_id := "s1"; m_turn_id := "u1"; m_tenant_id := "acme"; role := RUser;
     kind := VISIBLE; sequence := n; content := content_; content_hash := content_; m_version := 1;
     author_principal := "user:alice"; m_agent_run_id := None; parent_message_id := None; m_attachments := [];
     m_tool_calls := []; tool_call_id := None; source_system := None; source_message_id := None; occurred_at := 100 + n;
     message_created_at := 100 + n; archive_status := STAGED; m_system := ∅; m_custom_metadata := ∅;
     message_deleted_at := None |}.

Lemma plan_segments_greedy_witness :
  let plans := plan_segments [note "m1" 1 "hello"; note "m2" 2 "again"; note "m3" 3 "bye"] 200 2 in
  length plans = 2%nat ∧ greedy 1000 2 plans.
Proof.
  intros plans. split; [reflexivity|].
  exact (proj2 (plan_segments_greedy [note "m1" 1 "hello"; note "m2" 2 "again"; note "m3" 3 "bye"] 200 2 ltac:(lia))).
Defined.

Lemma segment_roundtrip_witness :
  ∃ b, build_segment id (λ _ raw, raw) "seg0" 500 [note "m1" 1 "hello"; note "m2" 2 "good bye"] "acme" "t1" 64 6 = Ok b ∧
    read_segment Some (bs_data b) = Some [Some (message_record (note "m1" 1 "hello")); Some (message_record (note "m2" 2 "good bye"))].
Proof.
  eexists. split; [reflexivity|].
  apply (segment_roundtrip id (λ _ raw, raw) Some (λ _ _, eq_refl) "seg0" 500 [note "m1" 1 "hello"; note "m2" 2 "good bye"] "acme" "t1" 64 6);
    [reflexivity|]. repeat constructor.
Defined.
