(* ===== verification/Blob.v ===== *)
(** * Blob storage

    ports/blob.py, the port as a class of operations with the laws its documents
    state (writes are immutable, a verified object is there with its generation and
    checksum), and adapters/blob/memory.py, the provider that satisfies them. The
    arguments the providers ignore (content type, user metadata) are left out. *)
From stdpp Require Import base gmap list strings.
From Stdlib Require Import ZArith Lia String.
From S2P Require Import Prelude Errors.
#[local] Open Scope string_scope.
#[local] Open Scope Z_scope.

(** ** The port *)

Record BlobRef := {
  br_bucket : string;
  br_key : string;
  br_generation : option string;
  br_size : Z;
  br_checksum : string;
  br_checksum_store : option string;
  br_storage_class : option string;
}.

Definition BlobNotFound (m : string) : exn := Other "BlobNotFound" m.
Definition BlobAlreadyExists (m : string) : exn := Other "BlobAlreadyExists" m.
Definition BlobChecksumMismatch (m : string) : exn := Other "BlobChecksumMismatch" m.

Class BlobStore (B : Type) := {
  bl_put (bucket key data : string) (checksum_sha256 : option string) (if_generation_match : option Z) : prog B BlobRef;
  bl_get (bucket key : string) (generation : option string) : prog B string;
  bl_head (bucket key : string) : prog B BlobRef;
  bl_verify (ref : BlobRef) : prog B bool;
  bl_delete (bucket key : string) : prog B unit;
}.

(** What is stored: a key of a bucket with its bytes and its reference. *)
Abbreviation objects := (gmap (string * string) (string * BlobRef)).

(** The laws. An upload that creates only ([if_generation_match=0]) either puts the
    bytes under a new reference, or fails; a failed one may still have put them
    (the answer was lost). Nothing else changes what is stored, but [delete]. *)
Class BlobLaws (B : Type) (digest : string → string) `{BlobStore B} := {
  stored_at : B → objects;
  online : B → bool;
  law_put b k d c s : ∃ r s', bl_put b k d (Some c) (Some 0) s = (r, s') ∧
    match r with
    | Ok ref => stored_at s !! (b, k) = None ∧ stored_at s' = <[(b, k) := (d, ref)]> (stored_at s) ∧
                br_bucket ref = b ∧ br_key ref = k ∧ br_checksum ref = c ∧ c = digest d
    | Raise _ => stored_at s' = stored_at s ∨
                 ∃ ref, stored_at s !! (b, k) = None ∧ stored_at s' = <[(b, k) := (d, ref)]> (stored_at s) ∧
                        br_bucket ref = b ∧ br_key ref = k ∧ br_checksum ref = c
    end;
  law_get b k g s : ∃ r s', bl_get b k g s = (r, s') ∧ stored_at s' = stored_at s ∧ online s' = online s ∧
    match r with
    | Ok d => ∃ ref, stored_at s !! (b, k) = Some (d, ref)
    | Raise _ => online s = false ∨ ∀ d ref, stored_at s !! (b, k) = Some (d, ref) → g ≠ None ∧ br_generation ref ≠ g
    end;
  law_head b k s : ∃ r s', bl_head b k s = (r, s') ∧ stored_at s' = stored_at s ∧
    match r with
    | Ok ref => ∃ d, stored_at s !! (b, k) = Some (d, ref)
    | Raise _ => online s = false ∨ stored_at s !! (b, k) = None
    end;
  law_verify ref s : ∃ r s', bl_verify ref s = (r, s') ∧ stored_at s' = stored_at s ∧
    (r = Ok true → ∃ d cur, stored_at s !! (br_bucket ref, br_key ref) = Some (d, cur) ∧
                     br_generation cur = br_generation ref ∧ digest d = br_checksum ref);
}.

(** ** MemoryBlobStore *)

Record MemoryBlobStore := {
  mb_objects : objects;
  mb_available : bool;
  mb_corrupt_next : bool;
}.

Definition new_blobs : MemoryBlobStore := {| mb_objects := ∅; mb_available := true; mb_corrupt_next := false |}.

Definition set_objects (o : objects) (s : MemoryBlobStore) : MemoryBlobStore :=
  {| mb_objects := o; mb_available := mb_available s; mb_corrupt_next := mb_corrupt_next s |}.
Definition set_corrupt_next (b : bool) (s : MemoryBlobStore) : MemoryBlobStore :=
  {| mb_objects := mb_objects s; mb_available := mb_available s; mb_corrupt_next := b |}.

Section memory.
(** [content_hash] of some bytes. *)
Variable content_hash : string → string.

Definition mb_check : prog MemoryBlobStore unit :=
  bind (gets mb_available) (λ up, if up then ret tt else raise (ConnectionError "simulated blob store outage")).

(** [int(existing.generation or 0) + 1]. *)
Definition next_generation (existing : option (string * BlobRef)) : Z :=
  match existing with
  | Some (_, r) => default 0 (br_generation r ≫= Z_of_text) + 1
  | None => 1
  end.

Definition mb_put (bucket key data : string) (checksum : option string) (if_generation_match : option Z) :
    prog MemoryBlobStore BlobRef :=
  bind mb_check (λ _,
  let digest := content_hash data in
  if match checksum with Some c => negb (String.eqb c digest) | None => false end
  then raise (BlobChecksumMismatch "checksum mismatch")
  else
    bind (gets (λ s, mb_objects s !! (bucket, key))) (λ existing,
    if bool_decide (if_generation_match = Some 0) && bool_decide (is_Some existing)
    then raise (BlobAlreadyExists (bucket +:+ "/" +:+ key +:+ " exists"))
    else
      let ref := {| br_bucket := bucket; br_key := key; br_generation := Some (text_of_Z (next_generation existing));
                    br_size := Z.of_nat (String.length data); br_checksum := digest; br_checksum_store := Some digest;
                    br_storage_class := Some "STANDARD" |} in
      bind (modify (λ s, set_objects (<[(bucket, key) := (data, ref)]> (mb_objects s)) s)) (λ _, ret ref))).

Definition mb_get (bucket key : string) (generation : option string) : prog MemoryBlobStore string :=
  bind mb_check (λ _,
  bind (gets (λ s, mb_objects s !! (bucket, key))) (λ item,
  match item with
  | Some (data, ref) =>
      if bool_decide (generation ≠ None) && bool_decide (br_generation ref ≠ generation)
      then raise (BlobNotFound (bucket +:+ "/" +:+ key)) else ret data
  | None => raise (BlobNotFound (bucket +:+ "/" +:+ key))
  end)).

Definition mb_head (bucket key : string) : prog MemoryBlobStore BlobRef :=
  bind mb_check (λ _,
  bind (gets (λ s, mb_objects s !! (bucket, key))) (λ item,
  match item with
  | Some (_, ref) => ret ref
  | None => raise (BlobNotFound (bucket +:+ "/" +:+ key))
  end)).

Definition mb_verify (ref : BlobRef) : prog MemoryBlobStore bool :=
  bind mb_check (λ _,
  bind (gets mb_corrupt_next) (λ corrupt,
  if corrupt then bind (modify (set_corrupt_next false)) (λ _, ret false)
  else gets (λ s, match mb_objects s !! (br_bucket ref, br_key ref) with
                  | Some (d, cur) => bool_decide (br_generation cur = br_generation ref)
                                     && String.eqb (content_hash d) (br_checksum ref)
                  | None => false
                  end))).

Definition mb_delete (bucket key : string) : prog MemoryBlobStore unit :=
  bind mb_check (λ _, modify (λ s, set_objects (delete (bucket, key) (mb_objects s)) s)).

#[export] Instance MemoryBlobStore_store : BlobStore MemoryBlobStore := {
  bl_put := mb_put; bl_get := mb_get; bl_head := mb_head; bl_verify := mb_verify; bl_delete := mb_delete;
}.

Lemma mb_check_run s : mb_check s = (if mb_available s then Ok tt else Raise (ConnectionError "simulated blob store outage"), s).
Proof. unfold mb_check, bind, gets. by destruct (mb_available s). Qed.

#[export] Program Instance MemoryBlobStore_laws : BlobLaws MemoryBlobStore content_hash := {
  stored_at := mb_objects; online := mb_available;
}.
Next Obligation.
  intros b k d c s. cbn [bl_put MemoryBlobStore_store]. unfold mb_put. unfold bind at 1. rewrite mb_check_run.
  destruct (mb_available s); [|eexists _, _; split; [done|by left]].
  destruct (String.eqb_spec c (content_hash d)) as [->|]; cbn [negb]; [|eexists _, _; split; [done|by left]].
  unfold bind, gets. rewrite bool_decide_eq_true_2 by done. destruct (mb_objects s !! (b, k)) eqn:Hk; cbn.
  - eexists _, _. split; [done|by left].
  - eexists _, _. split; [done|]. cbn. done.
Qed.
Next Obligation.
  intros b k g s. cbn [bl_get MemoryBlobStore_store]. unfold mb_get. unfold bind at 1. rewrite mb_check_run.
  destruct (mb_available s) eqn:Hup; [|eexists _, _; split_and!; [done..|by left]].
  unfold bind, gets. destruct (mb_objects s !! (b, k)) as [[d ref]|] eqn:Hk.
  - destruct (_ && _) eqn:Hg; eexists _, _; (split_and!; [done..|]).
    + right. intros ? ? [= <- <-]. apply andb_true_iff in Hg as [H1 H2]. by rewrite !bool_decide_eq_true in H1, H2.
    + by exists ref.
  - eexists _, _. split_and!; [done..|]. right. done.
Qed.
Next Obligation.
  intros b k s. cbn [bl_head MemoryBlobStore_store]. unfold mb_head. unfold bind at 1. rewrite mb_check_run.
  destruct (mb_available s); [|eexists _, _; split_and!; [done..|by left]].
  unfold bind, gets. destruct (mb_objects s !! (b, k)) as [[d ref]|] eqn:Hk; eexists _, _; (split_and!; [done..|]).
  - by exists d.
  - by right.
Qed.
Next Obligation.
  intros ref s. cbn [bl_verify MemoryBlobStore_store]. unfold mb_verify. unfold bind at 1. rewrite mb_check_run.
  destruct (mb_available s); [|eexists _, _; split_and!; done].
  unfold bind, gets, modify, ret. destruct (mb_corrupt_next s); [eexists _, _; split_and!; done|].
  eexists _, _. split_and!; [done..|]. destruct (mb_objects s !! _) as [[d cur]|]; [|done].
  intros [= [Hg Hc]%andb_true_iff]. apply bool_decide_eq_true in Hg. apply String.eqb_eq in Hc. by exists d, cur.
Qed.
End memory.
