(* ===== verification/Tenancy.v ===== *)
(** * Tenancy: tenants' identifiers, principals and API keys (domain/tenancy.py).

    [content_hash] (SHA-256) is a parameter; [hmac.compare_digest] is equality.
    The random parts of a minted token are its arguments. *)
From S2P Require Import Prelude Errors Ids.

(** ** Definitions *)

Definition KEY_PREFIX : string := "mk".
Definition KEY_ID_LENGTH : nat := 16.
Definition PRINCIPAL_KINDS : list string := ["user"; "agent"].
Definition ANY_PRINCIPAL : string := "*".
Definition MAY_ACT_AS_MAX : nat := 100.
Definition PLATFORM_SCOPE : string := "platform".
Definition RESERVED_TENANT_IDS : list string := [PLATFORM_SCOPE].

Inductive TenantStatus : Set := active | suspended.
Inductive KeyRole : Set := PLATFORM | ADMIN | SERVICE.
Inductive MemberRole : Set := admin | member | viewer.

#[export] Instance TenantStatus_eq_dec : EqDecision TenantStatus.
Proof. solve_decision. Defined.
#[export] Instance KeyRole_eq_dec : EqDecision KeyRole.
Proof. solve_decision. Defined.
#[export] Instance MemberRole_eq_dec : EqDecision MemberRole.
Proof. solve_decision. Defined.

Definition is_valid_tenant_id (value : string) : bool :=
  is_valid_id value && negb (str_in ":" value) && negb (bool_decide (value ∈ RESERVED_TENANT_IDS)).

Record Tenant := {
  tn_id : string;
  tn_name : string;
  tn_status : TenantStatus;
  tn_retention_days : option Z;
  tn_rate_limit : option Z;
  tn_admission_gate : bool;
  tn_created_at : Z;
  tn_updated_at : Z;
}.

Record ApiKey := {
  ak_id : string;
  ak_tenant : string;
  ak_role : KeyRole;
  ak_name : string;
  ak_workspace : option string;
  ak_secret_hash : string;
  ak_created_by : string;
  ak_created_at : Z;
  ak_expires_at : option Z;
  ak_revoked_at : option Z;
  ak_last_used_at : option Z;
  ak_may_act_as : list string;
}.

Record Workspace := {
  ws_id : string;
  ws_tenant : string;
  ws_name : string;
  ws_created_at : Z;
  ws_deleted_at : option Z;
}.

Record WorkspaceMember := {
  wm_tenant : string;
  wm_workspace : string;
  wm_principal : string;
  wm_role : MemberRole;
  wm_added_by : string;
  wm_added_at : Z;
}.

Definition principal (k : ApiKey) : string := "key:" +:+ ak_id k.

Definition usable_at (k : ApiKey) (now : Z) : bool :=
  match ak_revoked_at k with
  | Some _ => false
  | None => match ak_expires_at k with
            | None => true
            | Some e => Z.ltb now e
            end
  end.

Definition parse_principal (p : string) : res (string * string) :=
  match str_partition ":" p with
  | (kind, sep, ident) =>
      if negb sep || negb (bool_decide (kind ∈ PRINCIPAL_KINDS)) || negb (is_valid_id ident)
      then Raise (ValueError "invalid principal: expected user:<id> or agent:<id>")
      else Ok (kind, ident)
  end.

Fixpoint check_principals (values : list string) : res unit :=
  match values with
  | [] => Ok tt
  | p :: rest =>
      if String.eqb p ANY_PRINCIPAL then check_principals rest
      else obind (parse_principal p) (λ _, check_principals rest)
  end.

Definition acting_principals (values : list string) : res (list string) :=
  if Nat.ltb MAY_ACT_AS_MAX (length values)
  then Raise (ValueError "a key may act for too many principals")
  else obind (check_principals values) (λ _, Ok (fromkeys values)).

Section secrets.
Variable content_hash : string → string.

Definition hash_secret (secret : string) : string := content_hash secret.

Definition secret_matches (secret secret_hash : string) : bool :=
  String.eqb (hash_secret secret) secret_hash.

(** [mint_token], given the sixteen random characters and the random secret. *)
Definition mint_token (key_id secret : string) : string * string * string :=
  (key_id, KEY_PREFIX +:+ "_" +:+ key_id +:+ "." +:+ secret, hash_secret secret).
End secrets.

(** [_KEY_ID.fullmatch]. *)
Definition is_key_id (s : string) : bool :=
  str_forall (λ c, ascii_lower c || ascii_digit c) s && Nat.eqb (String.length s) KEY_ID_LENGTH.

Definition parse_token (token : string) : option (string * string) :=
  match str_partition "_" token with
  | (prefix, sep, rest) =>
      if negb sep || negb (String.eqb prefix KEY_PREFIX) then None
      else match str_partition "." rest with
           | (key_id, sep', secret) =>
               if negb sep' || negb (is_key_id key_id) || negb (truthy secret) then None
               else Some (key_id, secret)
           end
  end.

(** [str.lower] and [str.strip] on ASCII text, which is what an HTTP header
    carries. *)
Definition lower_char (c : ascii) : ascii :=
  if ascii_upper c then ascii_of_N (N_of_ascii c + 32) else c.

Fixpoint str_lower (s : string) : string :=
  match s with
  | EmptyString => EmptyString
  | String c s' => String (lower_char c) (str_lower s')
  end.

Definition is_space (c : ascii) : bool :=
  Ascii.eqb c " " || between (ascii_of_nat 9) (ascii_of_nat 13) c
  || between (ascii_of_nat 28) (ascii_of_nat 31) c.

Fixpoint str_lstrip (s : string) : string :=
  match s with
  | EmptyString => EmptyString
  | String c s' => if is_space c then str_lstrip s' else s
  end.

Fixpoint str_rstrip (s : string) : string :=
  match s with
  | EmptyString => EmptyString
  | String c s' => match str_rstrip s' with
                   | EmptyString => if is_space c then EmptyString else String c EmptyString
                   | r => String c r
                   end
  end.

Definition str_strip (s : string) : string := str_rstrip (str_lstrip s).

Definition bare_credential (credential : string) : string :=
  match str_partition " " credential with
  | (scheme, _, rest) => if String.eqb (str_lower scheme) "bearer" then str_strip rest else credential
  end.

(** ** Lemmas *)

Lemma valid_tenant_no_colon t : is_valid_tenant_id t = true → str_in ":" t = false.
Proof. unfold is_valid_tenant_id. intros H. by split_bool. Qed.

Lemma key_id_no_char c s :
  is_key_id s = true → ascii_lower c || ascii_digit c = false → str_in c s = false.
Proof. intros [H _]%andb_true_iff Hc. exact (str_forall_not_in _ c s H Hc). Qed.

Lemma parse_principal_ok p k i :
  parse_principal p = Ok (k, i) ↔ p = k +:+ ":" +:+ i ∧ k ∈ PRINCIPAL_KINDS ∧ is_valid_id i = true.
Proof.
  unfold parse_principal. split.
  - destruct (str_partition ":" p) as [[k' s] i'] eqn:E.
    destruct s; simpl; [|done]. destruct (bool_decide_reflect (k' ∈ PRINCIPAL_KINDS)); simpl; [|done].
    destruct (is_valid_id i') eqn:Hi; simpl; [|done]. intros [= <- <-].
    by apply str_partition_inv in E as [-> _].
  - intros (-> & Hk & Hi). change (k +:+ ":" +:+ i) with (k +:+ String ":" i). rewrite str_partition_app.
    + rewrite bool_decide_true by done. by rewrite Hi.
    + unfold PRINCIPAL_KINDS in Hk. repeat (apply elem_of_cons in Hk as [->|Hk]; [done|]). by apply elem_of_nil in Hk.
Qed.

Lemma check_principals_ok l :
  check_principals l = Ok tt ↔
  ∀ p, p ∈ l → p = ANY_PRINCIPAL ∨ ∃ k i, parse_principal p = Ok (k, i).
Proof.
  induction l as [|p l IH]; simpl; [split; [by intros _ p ?%elem_of_nil|done]|].
  destruct (String.eqb_spec p ANY_PRINCIPAL) as [->|Hne].
  - rewrite IH. split; [intros H q [->|]%elem_of_cons; auto|intros H q Hq; apply H; by right].
  - destruct (parse_principal p) as [[k i]|e] eqn:E; simpl.
    + rewrite IH. split; [intros H q [->|]%elem_of_cons; eauto|intros H q Hq; apply H; by right].
    + split; [done|]. intros H. destruct (H p) as [?|(k & i & Hp)]; [by left|done|congruence].
Qed.

Lemma str_forall_app q a b : str_forall q (a +:+ b) = str_forall q a && str_forall q b.
Proof. induction a as [|c a IH]; simpl; [done|]. by rewrite IH, andb_assoc. Qed.

Lemma str_forall_impl (p q : ascii → bool) s :
  (∀ c, p c = true → q c = true) → str_forall p s = true → str_forall q s = true.
Proof. intros Hpq. induction s as [|c s IH]; simpl; [done|]. intros H. split_bool. by rewrite Hpq, IH. Qed.

Definition no_space (s : string) : bool := str_forall (λ c, negb (is_space c)) s.

Lemma no_space_strip s : no_space s = true → str_strip s = s.
Proof.
  intros H. unfold str_strip. assert (str_lstrip s = s) as ->.
  { destruct s as [|c s]; [done|]. unfold no_space in H. simpl in *. split_bool.
    by destruct (is_space c). }
  induction s as [|c s IH]; [done|]. unfold no_space in *. simpl in *. split_bool.
  rewrite IH by done. by destruct s, (is_space c).
Qed.

Lemma no_space_no_blank s : no_space s = true → str_in " " s = false.
Proof. intros H. by eapply str_forall_not_in. Qed.

Lemma lower_digit_not_space c : ascii_lower c || ascii_digit c = true → negb (is_space c) = true.
Proof. destruct c as [[] [] [] [] [] [] [] []]; vm_compute; congruence. Qed.

Lemma key_id_no_space s : is_key_id s = true → no_space s = true.
Proof.
  unfold is_key_id, no_space. intros H. split_bool. eapply str_forall_impl; [|done].
  apply lower_digit_not_space.
Qed.

Definition token_text (key_id secret : string) : string := "mk_" +:+ key_id +:+ "." +:+ secret.

Lemma parse_token_text key_id secret :
  is_key_id key_id = true → secret ≠ "" → parse_token (token_text key_id secret) = Some (key_id, secret).
Proof.
  intros Hk Hs. unfold parse_token, token_text.
  change ("mk_" +:+ ?x) with ("mk" +:+ String "_" x).
  rewrite (str_partition_app "_" "mk" (key_id +:+ "." +:+ secret)) by done. simpl negb. simpl orb.
  change (key_id +:+ "." +:+ secret) with (key_id +:+ String "." secret).
  rewrite str_partition_app by by apply key_id_no_char.
  rewrite Hk. by rewrite (proj2 (truthy_spec _) Hs).
Qed.

Lemma parse_token_inv t key_id secret :
  parse_token t = Some (key_id, secret) → t = token_text key_id secret.
Proof.
  unfold parse_token. destruct (str_partition "_" t) as [[p b] r] eqn:E. destruct b; simpl; [|done].
  destruct (String.eqb_spec p KEY_PREFIX) as [->|]; simpl; [|done].
  destruct (str_partition "." r) as [[k b'] s] eqn:E'. destruct b'; simpl; [|done].
  destruct (is_key_id k); simpl; [|done]. destruct (truthy s); simpl; [|done]. intros [= -> ->].
  apply str_partition_inv in E as [-> _], E' as [-> _]. done.
Qed.

#[export] Hint Resolve valid_tenant_no_colon : svc.

(** ** Properties *)

(** The token a key is issued as is parsed back into its id and secret,
    whichever carrier brings it: bare, or after any spelling of Bearer; and a
    token that parses is exactly the one minted for that id and secret. *)
Theorem token_roundtrip (content_hash : string → string) key_id secret scheme :
  is_key_id key_id = true → secret ≠ "" → str_forall (λ c, negb (is_space c)) secret = true →
  str_in " " scheme = false → str_lower scheme = "bearer" →
  let token := snd (fst (mint_token content_hash key_id secret)) in
  parse_token (bare_credential token) = Some (key_id, secret) ∧
  parse_token (bare_credential (scheme +:+ " " +:+ token)) = Some (key_id, secret) ∧
  (∀ t, parse_token t = Some (key_id, secret) → t = token).
Proof.
  intros Hk Hs Hn Hb Hsch token. change token with (token_text key_id secret).
  assert (no_space (token_text key_id secret) = true) as Ht.
  { unfold no_space, token_text. rewrite !str_forall_app. fold (no_space key_id). simpl.
    rewrite key_id_no_space by done. done. }
  assert (bare_credential (token_text key_id secret) = token_text key_id secret) as Hbare.
  { unfold bare_credential. by rewrite str_partition_none by by apply no_space_no_blank. }
  split; [by rewrite Hbare, parse_token_text|]. split; [|intros t; by apply parse_token_inv].
  unfold bare_credential. change (scheme +:+ " " +:+ ?x) with (scheme +:+ String " " x).
  rewrite str_partition_app by done. rewrite Hsch. simpl. rewrite no_space_strip by done.
  by apply parse_token_text.
Qed.

Lemma token_roundtrip_witness :
  parse_token (bare_credential ("BeArEr" +:+ " " +:+
    snd (fst (mint_token (λ s, s) "abcdefgh01234567" "s3cr_t.x")))) = Some ("abcdefgh01234567", "s3cr_t.x").
Proof. apply (token_roundtrip (λ s, s) "abcdefgh01234567" "s3cr_t.x" "BeArEr"); done. Defined.

(** [acting_principals] accepts a list exactly when it has at most 100
    entries, each [*] or a principal [user:<id>] or [agent:<id>] with a valid
    id, and keeps the entries, each once; otherwise it raises [ValueError]. *)
Theorem acting_principals_spec values :
  match acting_principals values with
  | Ok l => NoDup l ∧ (∀ p, p ∈ l ↔ p ∈ values)
  | Raise e => ∃ m, e = ValueError m
  end ∧
  ((∃ l, acting_principals values = Ok l) ↔
   (length values ≤ MAY_ACT_AS_MAX)%nat ∧
   ∀ p, p ∈ values →
     p = ANY_PRINCIPAL ∨ ∃ k i, p = k +:+ ":" +:+ i ∧ k ∈ PRINCIPAL_KINDS ∧ is_valid_id i = true).
Proof.
  unfold acting_principals. assert (∀ l, match check_principals l with
    | Ok _ => True | Raise e => ∃ m, e = ValueError m end) as Herr.
  { induction l as [|p l IH]; simpl; [done|]. destruct (String.eqb p ANY_PRINCIPAL); [done|].
    unfold parse_principal. destruct (str_partition ":" p) as [[k s] i].
    destruct (_ || _); simpl; eauto. }
  specialize (Herr values). pose proof (check_principals_ok values) as Hok.
  destruct (Nat.ltb_spec MAY_ACT_AS_MAX (length values)).
  { split; [eauto|]. split; [by intros [? ?]|lia]. }
  destruct (check_principals values) as [[]|e] eqn:E; simpl in *.
  - split; [split; [apply NoDup_fromkeys|intros; apply elem_of_fromkeys]|]. split; [|eauto].
    intros _. split; [lia|]. intros p Hp. destruct (proj1 Hok eq_refl p Hp) as [|(k & i & Hk)]; [auto|].
    apply parse_principal_ok in Hk. eauto.
  - split; [done|]. split; [by intros [? ?]|]. intros [_ Hall].
    discriminate (proj2 Hok). intros p Hp. destruct (Hall p Hp) as [|(k & i & Hk)]; [auto|].
    right. exists k, i. by apply parse_principal_ok.
Qed.
