(* ===== verification/TenancyRepo.v ===== *)
(** * TenancyRepo: the rows of tenants, API keys and workspaces
    (adapters/db/tenancy_repository.py).

    Each table is a finite map by primary key; an ORDER BY ... LIMIT query is a
    sort of the matching rows followed by [take]. Text is ordered by code point
    (the C collation). Reading [NOW()] is an argument of the query. *)
From S2P Require Import Prelude Errors Tenancy.

Record tenancy_db := {
  tenants : gmap string Tenant;
  api_keys : gmap string ApiKey;
  workspaces : gmap (string * string) Workspace;
  members_ : gmap (string * string * string) WorkspaceMember;
}.

Definition empty_tenancy : tenancy_db :=
  {| tenants := ∅; api_keys := ∅; workspaces := ∅; members_ := ∅ |}.

Definition set_tenants x d :=
  {| tenants := x; api_keys := api_keys d; workspaces := workspaces d; members_ := members_ d |}.
Definition set_api_keys x d :=
  {| tenants := tenants d; api_keys := x; workspaces := workspaces d; members_ := members_ d |}.
Definition set_workspaces x d :=
  {| tenants := tenants d; api_keys := api_keys d; workspaces := x; members_ := members_ d |}.
Definition set_members x d :=
  {| tenants := tenants d; api_keys := api_keys d; workspaces := workspaces d; members_ := x |}.

Abbreviation tdb A := (prog tenancy_db A).

(** [_insert]: a primary-key collision is a [Conflict]. *)
Definition insert_row {K V} `{Countable K} (get : tenancy_db → gmap K V)
    (put : gmap K V → tenancy_db → tenancy_db) (k : K) (v : V) (what : string) : tdb unit :=
  λ d, match get d !! k with
       | Some _ => (Raise (err Conflict (what +:+ " already exists")), d)
       | None => (Ok tt, put (<[k := v]> (get d)) d)
       end.

(** ** SqlTenantRepository *)

Definition tenants_add (t : Tenant) : tdb unit :=
  insert_row tenants set_tenants (tn_id t) t ("tenant " +:+ tn_id t).

Definition tenants_get (tenant_id : string) : tdb (option Tenant) :=
  gets (λ d, tenants d !! tenant_id).

Definition tenants_list (after : string) (limit : nat) : tdb (list Tenant) :=
  gets (λ d, ordered (by_text tn_id) (Some limit)
               (filter (λ t, str_lt after (tn_id t) = true) (rows (tenants d)))).

Definition tenants_update (tenant_id : string) (changes : Tenant → Tenant) : tdb unit :=
  modify (λ d, set_tenants (alter changes tenant_id (tenants d)) d).

Definition suspended_tenants : tdb (list string) :=
  gets (λ d, tn_id <$> filter (λ t, tn_status t = suspended) (rows (tenants d))).

Definition rate_limits : tdb (gmap string Z) :=
  gets (λ d, omap tn_rate_limit (tenants d)).

Definition retention_policies : tdb (gmap string Z) :=
  gets (λ d, omap (λ t, if decide (tn_status t = active) then tn_retention_days t else None)
               (tenants d)).

(** ** SqlApiKeyRepository *)

Definition keys_add (k : ApiKey) : tdb unit :=
  insert_row api_keys set_api_keys (ak_id k) k ("key " +:+ ak_id k).

Definition keys_get (key_id : string) : tdb (option ApiKey) := gets (λ d, api_keys d !! key_id).

(** ORDER BY created_at, key_id. *)
Definition key_le (a b : ApiKey) : Prop :=
  ak_created_at a < ak_created_at b ∨ ak_created_at a = ak_created_at b ∧ str_le (ak_id a) (ak_id b).
#[export] Instance key_le_dec a b : Decision (key_le a b).
Proof. unfold key_le. apply _. Defined.

Definition key_after (after : option (Z * string)) (k : ApiKey) : bool :=
  match after with
  | None => true
  | Some (at_, id) => Z.ltb at_ (ak_created_at k)
                      || Z.eqb at_ (ak_created_at k) && str_lt id (ak_id k)
  end.

Definition keys_of (tenant_id : string) (after : option (Z * string)) (limit : nat)
    (d : tenancy_db) : list ApiKey :=
  ordered key_le (Some limit)
    (filter (λ k, ak_tenant k = tenant_id ∧ key_after after k = true) (rows (api_keys d))).

(** The default [limit] of [list]. *)
Definition LIST_LIMIT : nat := 100.

Definition keys_list (tenant_id : string) (after : option (Z * string)) (limit : nat) :
    tdb (list ApiKey) := gets (keys_of tenant_id after limit).

Definition revoked_key (at_ : Z) (k : ApiKey) : ApiKey :=
  {| ak_id := ak_id k; ak_tenant := ak_tenant k; ak_role := ak_role k; ak_name := ak_name k;
     ak_workspace := ak_workspace k; ak_secret_hash := ak_secret_hash k;
     ak_created_by := ak_created_by k; ak_created_at := ak_created_at k;
     ak_expires_at := ak_expires_at k; ak_revoked_at := Some at_;
     ak_last_used_at := ak_last_used_at k; ak_may_act_as := ak_may_act_as k |}.

Definition keys_revoke (tenant_id key_id : string) (at_ : Z) : tdb bool :=
  λ d, match api_keys d !! key_id with
       | Some k =>
           if bool_decide (ak_tenant k = tenant_id ∧ ak_revoked_at k = None)
           then (Ok true, set_api_keys (<[key_id := revoked_key at_ k]> (api_keys d)) d)
           else (Ok false, d)
       | None => (Ok false, d)
       end.

Definition acting_key (principals : list string) (k : ApiKey) : ApiKey :=
  {| ak_id := ak_id k; ak_tenant := ak_tenant k; ak_role := ak_role k; ak_name := ak_name k;
     ak_workspace := ak_workspace k; ak_secret_hash := ak_secret_hash k;
     ak_created_by := ak_created_by k; ak_created_at := ak_created_at k;
     ak_expires_at := ak_expires_at k; ak_revoked_at := ak_revoked_at k;
     ak_last_used_at := ak_last_used_at k; ak_may_act_as := principals |}.

Definition keys_set_may_act_as (tenant_id key_id : string) (principals : list string) :
    tdb (option ApiKey) :=
  λ d, match api_keys d !! key_id with
       | Some k =>
           if bool_decide (ak_tenant k = tenant_id)
           then (Ok (Some (acting_key principals k)),
                 set_api_keys (<[key_id := acting_key principals k]> (api_keys d)) d)
           else (Ok None, d)
       | None => (Ok None, d)
       end.

Definition touched_key (at_ : Z) (k : ApiKey) : ApiKey :=
  {| ak_id := ak_id k; ak_tenant := ak_tenant k; ak_role := ak_role k; ak_name := ak_name k;
     ak_workspace := ak_workspace k; ak_secret_hash := ak_secret_hash k;
     ak_created_by := ak_created_by k; ak_created_at := ak_created_at k;
     ak_expires_at := ak_expires_at k; ak_revoked_at := ak_revoked_at k;
     ak_last_used_at := Some at_; ak_may_act_as := ak_may_act_as k |}.

Definition keys_touch (key_id : string) (at_ : Z) : tdb unit :=
  modify (λ d, set_api_keys (alter (touched_key at_) key_id (api_keys d)) d).

(** [_live]: unrevoked and unexpired, by the database's clock. *)
Definition is_live (now : Z) (k : ApiKey) : bool := usable_at k now.

Definition keys_count_live (now : Z) (tenant_id : string) : tdb nat :=
  gets (λ d, length (filter (λ k, ak_tenant k = tenant_id ∧ is_live now k = true)
                       (rows (api_keys d)))).

Definition key_tenants (now : Z) (tenant_ids : list string) : tdb (gmap string string) :=
  gets (λ d, omap (λ k, if bool_decide (ak_tenant k ∈ tenant_ids) && is_live now k
                        then Some (ak_tenant k) else None) (api_keys d)).

(** ** SqlWorkspaceRepository *)

Definition workspaces_add (w : Workspace) : tdb unit :=
  insert_row workspaces set_workspaces (ws_tenant w, ws_id w) w ("workspace " +:+ ws_id w).

Definition live_workspace (d : tenancy_db) (tenant_id workspace_id : string) : option Workspace :=
  w ← workspaces d !! (tenant_id, workspace_id);
  if decide (ws_deleted_at w = None) then Some w else None.

Definition workspaces_get (tenant_id workspace_id : string) : tdb (option Workspace) :=
  gets (λ d, live_workspace d tenant_id workspace_id).

Definition workspaces_list (tenant_id after : string) (limit : nat) : tdb (list Workspace) :=
  gets (λ d, ordered (by_text ws_id) (Some limit)
    (filter (λ w, ws_tenant w = tenant_id ∧ ws_deleted_at w = None ∧ str_lt after (ws_id w) = true)
       (rows (workspaces d)))).

Definition deleted_workspace (at_ : Z) (w : Workspace) : Workspace :=
  {| ws_id := ws_id w; ws_tenant := ws_tenant w; ws_name := ws_name w;
     ws_created_at := ws_created_at w; ws_deleted_at := Some at_ |}.

Definition workspaces_soft_delete (tenant_id workspace_id : string) (at_ : Z) : tdb bool :=
  λ d, match live_workspace d tenant_id workspace_id with
       | Some w => (Ok true, set_workspaces
                               (<[(tenant_id, workspace_id) := deleted_workspace at_ w]> (workspaces d)) d)
       | None => (Ok false, d)
       end.

Definition ever_existed (tenant_id workspace_id : string) : tdb bool :=
  gets (λ d, bool_decide (is_Some (workspaces d !! (tenant_id, workspace_id)))).

Definition member_key (m : WorkspaceMember) : string * string * string :=
  (wm_tenant m, wm_workspace m, wm_principal m).

(** Insert or replace; answers the role the principal had. *)
Definition put_member (m : WorkspaceMember) : tdb (option MemberRole) :=
  λ d, (Ok (wm_role <$> members_ d !! member_key m),
        set_members (<[member_key m := m]> (members_ d)) d).

Definition remove_member_row (tenant_id workspace_id principal : string) : tdb bool :=
  λ d, (Ok (bool_decide (is_Some (members_ d !! (tenant_id, workspace_id, principal)))),
        set_members (delete (tenant_id, workspace_id, principal) (members_ d)) d).

Definition members_of (tenant_id workspace_id after : string) (limit : option nat)
    (d : tenancy_db) : list WorkspaceMember :=
  ordered (by_text wm_principal) limit
    (filter (λ m, wm_tenant m = tenant_id ∧ wm_workspace m = workspace_id ∧
                  str_lt after (wm_principal m) = true) (rows (members_ d))).

Definition members_list (tenant_id workspace_id after : string) (limit : option nat) :
    tdb (list WorkspaceMember) := gets (members_of tenant_id workspace_id after limit).
