(* ===== verification/ApiKeys.v ===== *)
(** * ApiKeys: API keys checked against their stored hashes, with a shared cache
    (modules/auth/keys.py).

    [verify] and what it calls are translated as they run, on a verifier whose
    state is the cache, the database and the process's memos. The two readings
    of the clock a [verify] makes are its arguments. The shared cache is any
    [CacheProvider]. What happens when readers and a revocation interleave is
    the step relation [kstep], whose invariant is that a revoked key's stale
    record never comes back to the cache. *)
From S2P Require Import Prelude Errors Tenancy TenancyRepo Cache.

(** ** Data *)

Definition TOMBSTONE : string := String "000" "tombstone".
Definition MISSING : string := String "000" "missing".
Definition MISSING_TTL_SECONDS : Z := 5.
Definition MAX_TOUCH_MEMO : nat := 10000.
Definition UNKNOWN_IDS_PER_MINUTE : Z := 600.

Record VerifiedKey := {
  vk_id : string;
  vk_tenant : string;
  vk_role : KeyRole;
  vk_workspace : option string;
  vk_may_act_as : list string;
}.

(** [_Cached]: the record and its tenant's status. *)
Abbreviation cached_key := (ApiKey * TenantStatus)%type.

Record verifier {C : Type} := {
  vf_cache : C;
  vf_db : tenancy_db;
  vf_touched : gmap string Z;
  vf_missing : gmap string Z;
  vf_unknown_window : Z * Z;
  vf_known : option (gset string);
}.
Arguments verifier C : clear implicits.

(** [hmac.compare_digest], the record and the tenant: what [verify] decides on
    a loaded record. *)
Definition key_refused (content_hash : string → string) (secret : string) (now : Z)
    (cached : option cached_key) : option exn :=
  match cached with
  | None => Some (err AuthenticationFailed "Missing or invalid API key")
  | Some (k, status) =>
      if negb (usable_at k now) || negb (secret_matches content_hash secret (ak_secret_hash k))
      then Some (err AuthenticationFailed "Missing or invalid API key")
      else if negb (bool_decide (status = active))
      then Some (err AuthorizationFailed "tenant is suspended")
      else None
  end.

Definition verified (k : ApiKey) : VerifiedKey :=
  {| vk_id := ak_id k; vk_tenant := ak_tenant k; vk_role := ak_role k;
     vk_workspace := ak_workspace k; vk_may_act_as := ak_may_act_as k |}.

(** ** Operations *)

Section verifier_ops.
Context {C : Type} `{CacheLaws C} `{Codec cached_key}.
Variable content_hash : string → string.
Variable ttl : Z.
Variable touch_every : Z.

Abbreviation vprog A := (prog (verifier C) A).

Definition set_vf_cache (c : C) (v : verifier C) : verifier C :=
  {| vf_cache := c; vf_db := vf_db v; vf_touched := vf_touched v; vf_missing := vf_missing v;
     vf_unknown_window := vf_unknown_window v; vf_known := vf_known v |}.
Definition set_vf_db (d : tenancy_db) (v : verifier C) : verifier C :=
  {| vf_cache := vf_cache v; vf_db := d; vf_touched := vf_touched v; vf_missing := vf_missing v;
     vf_unknown_window := vf_unknown_window v; vf_known := vf_known v |}.
Definition set_vf_touched (m : gmap string Z) (v : verifier C) : verifier C :=
  {| vf_cache := vf_cache v; vf_db := vf_db v; vf_touched := m; vf_missing := vf_missing v;
     vf_unknown_window := vf_unknown_window v; vf_known := vf_known v |}.
Definition set_vf_unknown (m : gmap string Z) (w : Z * Z) (v : verifier C) : verifier C :=
  {| vf_cache := vf_cache v; vf_db := vf_db v; vf_touched := vf_touched v; vf_missing := m;
     vf_unknown_window := w; vf_known := vf_known v |}.
Definition set_vf_known (k : option (gset string)) (v : verifier C) : verifier C :=
  {| vf_cache := vf_cache v; vf_db := vf_db v; vf_touched := vf_touched v;
     vf_missing := vf_missing v; vf_unknown_window := vf_unknown_window v; vf_known := k |}.

Definition in_cache {A} (m : prog C A) : vprog A := zoom vf_cache set_vf_cache m.
Definition in_db {A} (m : tdb A) : vprog A := zoom vf_db set_vf_db m.

Definition api_cache_key (key_id : string) : string := "apikey:" +:+ key_id.

Definition cached_raw (key_id : string) : prog C (option string) :=
  suppress_cache None (cp_get (api_cache_key key_id)).

(** [_put]; set-if-absent unless [overwrite]. *)
Definition put_entry (key_id value : string) (ttl : Z) (overwrite : bool) : prog C unit :=
  suppress_cache tt (
    if overwrite then cp_set (api_cache_key key_id) value (Some ttl)
    else bind (cp_set_if_absent (api_cache_key key_id) value (Some ttl)) (λ _, ret tt)).

Definition unknown (key_id : string) : vprog bool :=
  gets (λ v, match vf_known v with
             | None => false
             | Some known => if bool_decide (is_Some (vf_touched v !! key_id)) then false
                             else bool_decide (key_id ∉ known)
             end).

Definition unknown_budget_left (now : Z) : vprog bool :=
  gets (λ v, let '(window_minute, count) := vf_unknown_window v in
             negb (Z.eqb window_minute (now / 60)) || Z.ltb count UNKNOWN_IDS_PER_MINUTE).

Definition note_unknown (key_id : string) (now : Z) : vprog unit :=
  modify (λ v,
    let minute := now / 60 in
    let '(window_minute, count) := vf_unknown_window v in
    let window := (minute, if Z.eqb window_minute minute then count + 1 else 1) in
    let missing := if Nat.leb MAX_TOUCH_MEMO (size (vf_missing v)) then ∅ else vf_missing v in
    set_vf_unknown (<[key_id := now + MISSING_TTL_SECONDS]> missing) window v).

(** The store's answer for a key: its record and its tenant's status. *)
Definition store_answer (key_id : string) (d : tenancy_db) : option cached_key :=
  k ← api_keys d !! key_id;
  Some (k, match tenants d !! ak_tenant k with
           | Some t => tn_status t
           | None => suspended
           end).

(** What [_read_store] writes to the cache for an answer, if anything: value,
    time to live, overwrite. *)
Definition planned_put (now : Z) (behind_tombstone : bool) (answer : option cached_key) :
    option (string * Z * bool) :=
  match answer with
  | None => Some (MISSING, MISSING_TTL_SECONDS, behind_tombstone)
  | Some (k, status) =>
      let irreversible := negb (usable_at k now) in
      if negb behind_tombstone || irreversible then Some (dump (k, status), ttl, irreversible)
      else None
  end.

Definition run_put (key_id : string) (p : option (string * Z * bool)) : prog C unit :=
  match p with
  | Some (value, t, overwrite) => put_entry key_id value t overwrite
  | None => ret tt
  end.

Definition read_store (key_id : string) (now : Z) (behind_tombstone : bool) :
    vprog (option cached_key) :=
  bind (in_db (gets (store_answer key_id))) (λ answer,
  bind (match answer with
        | None => note_unknown key_id now
        | Some _ => ret tt
        end) (λ _,
  bind (in_cache (run_put key_id (planned_put now behind_tombstone answer))) (λ _,
  ret answer))).

Definition load (key_id : string) (now : Z) : vprog (option cached_key) :=
  bind (gets (λ v, vf_missing v !! key_id)) (λ missing_until,
  if Z.ltb now (default now missing_until) then ret None else
  bind (in_cache (cached_raw key_id)) (λ raw,
  if bool_decide (raw = Some MISSING) then ret None else
  match raw with
  | Some text =>
      match (if String.eqb text TOMBSTONE then None else parse text) with
      | Some c => ret (Some c)
      | None => read_store key_id now true
      end
  | None =>
      bind (unknown key_id) (λ u,
      bind (unknown_budget_left now) (λ left,
      if u && negb left then ret None else read_store key_id now false))
  end)).

Definition touch (key_id : string) (now : Z) : vprog unit :=
  bind (in_db (keys_touch key_id now)) (λ _,
  modify (λ v,
    let touched := if Nat.leb MAX_TOUCH_MEMO (size (vf_touched v)) then ∅ else vf_touched v in
    set_vf_touched (<[key_id := now]> touched) v)).

Definition remember (key_id : string) : vprog unit :=
  modify (λ v, set_vf_known (union {[ key_id ]} <$> vf_known v) v).

Definition verify (token : string) (now1 now2 : Z) : vprog VerifiedKey :=
  match parse_token token with
  | None => raise (err AuthenticationFailed "Missing or invalid API key")
  | Some (key_id, secret) =>
      bind (load key_id now1) (λ cached,
      match key_refused content_hash secret now2 cached, cached with
      | Some e, _ => raise e
      | None, None => raise (err AuthenticationFailed "Missing or invalid API key")
      | None, Some (k, _) =>
          bind (remember key_id) (λ _,
          bind (gets (λ v, vf_touched v !! key_id)) (λ memo,
          bind (match (match memo with Some t => Some t | None => ak_last_used_at k end) with
                | Some last => if Z.ltb touch_every (now2 - last) then touch key_id now2 else ret tt
                | None => touch key_id now2
                end) (λ _,
          ret (verified k))))
      end)
  end.

(** [strict] lets [CacheUnavailable] out. *)
Definition invalidate_key (key_id : string) (strict : bool) : prog C unit :=
  let set_ := cp_set (api_cache_key key_id) TOMBSTONE (Some (2 * ttl)) in
  if strict then set_ else suppress_cache tt set_.

Definition forget_missing (key_id : string) : vprog unit :=
  bind (modify (λ v, set_vf_unknown (delete key_id (vf_missing v)) (vf_unknown_window v) v)) (λ _,
  in_cache (suppress_cache tt (bind (cp_delete [api_cache_key key_id]) (λ _, ret tt)))).

Definition invalidate_tenant (tenant_id : string) (strict : bool) : vprog unit :=
  bind (in_db (keys_list tenant_id None LIST_LIMIT)) (λ keys,
  mapM_ (λ k, in_cache (invalidate_key (ak_id k) strict)) keys).
End verifier_ops.

(** ** Readers and a revocation, interleaved

    A reader that went to the store holds its answer until it writes it to the
    cache ([k_pending]); [kp_read_at] is when it read. A reader writes within
    [ttl] of its read or not at all. Entries of the cache live until they
    expire. Everything else that happens to the database keeps a revoked key
    revoked. *)
Section interleaving.
Context {C : Type} `{CacheLaws C} `{Codec cached_key}.
Variable ttl : Z.

Record pending := {
  kp_key : string;
  kp_plan : option (string * Z * bool);
  kp_read_at : Z;
}.

Record kstate := {
  k_cache : C;
  k_db : tenancy_db;
  k_pending : list pending;
}.

Definition is_revoked (k : ApiKey) : Prop := is_Some (ak_revoked_at k).

Definition revoked_in (d : tenancy_db) (key_id : string) : Prop :=
  ∃ k, api_keys d !! key_id = Some k ∧ is_revoked k.

Inductive kstep (s : kstate) : kstate → Prop :=
| k_read key n behind :
    kstep s {| k_cache := k_cache s; k_db := k_db s;
               k_pending := k_pending s ++
                 [{| kp_key := key; kp_plan := planned_put ttl n behind (store_answer key (k_db s));
                     kp_read_at := now (k_cache s) |}] |}
| k_put i p :
    k_pending s !! i = Some p → now (k_cache s) ≤ kp_read_at p + ttl →
    kstep s {| k_cache := snd (run_put (kp_key p) (kp_plan p) (k_cache s)); k_db := k_db s;
               k_pending := delete i (k_pending s) |}
| k_crash i :
    kstep s {| k_cache := k_cache s; k_db := k_db s; k_pending := delete i (k_pending s) |}
| k_tombstone key strict :
    kstep s {| k_cache := snd (invalidate_key ttl key strict (k_cache s)); k_db := k_db s;
               k_pending := k_pending s |}
| k_env c' :
    now (k_cache s) ≤ now c' →
    (∀ key, entry c' (api_cache_key key) =
       match entry (k_cache s) (api_cache_key key) with
       | Some (v, e) => if expired e (now c') then None else Some (v, e)
       | None => None
       end) →
    kstep s {| k_cache := c'; k_db := k_db s; k_pending := k_pending s |}
| k_database d' :
    (∀ key, revoked_in (k_db s) key → revoked_in d' key) →
    kstep s {| k_cache := k_cache s; k_db := d'; k_pending := k_pending s |}.

Inductive ksteps (s : kstate) : kstate → Prop :=
| ksteps_refl : ksteps s s
| ksteps_step s1 s2 : ksteps s s1 → kstep s1 s2 → ksteps s s2.

(** The state in which the revocation of [key] commits: its tombstone, written
    at most [ttl] ago, stands; readers may hold what they read before, at
    readings of the clock up to [n]. *)
Record revocation_commits (key : string) (n : Z) (s : kstate) : Prop := {
  rc_revoked : revoked_in (k_db s) key;
  rc_tombstone : ∃ e, entry (k_cache s) (api_cache_key key) = Some (TOMBSTONE, Some e) ∧
                      now (k_cache s) + ttl ≤ e;
  rc_pending p : p ∈ k_pending s → ∃ n' behind answer,
    kp_plan p = planned_put ttl n' behind answer ∧
    (kp_key p = key → kp_read_at p ≤ now (k_cache s) ∧ n' ≤ n ∧ is_Some answer);
}.

(** A cache value on which a [verify] from clock [n] on refuses the key. *)
Definition refusing (n : Z) (v : string) : Prop :=
  v = TOMBSTONE ∨
  ∃ k status, v = dump (k, status) ∧ ∀ n', n ≤ n' → usable_at k n' = false.

Definition plan_ok (key : string) (n : Z) (deadline : Z) (p : pending) : Prop :=
  kp_key p = key →
  match kp_plan p with
  | None => True
  | Some (v, t, true) => refusing n v ∧ t = ttl
  | Some (v, t, false) => kp_read_at p + ttl ≤ deadline
  end.

Definition plan_lives (p : pending) : Prop :=
  match kp_plan p with
  | Some (_, t, _) => 0 < t
  | None => True
  end.

Record kinv (key : string) (n deadline : Z) (s : kstate) : Prop := {
  ki_revoked : revoked_in (k_db s) key;
  ki_now : deadline ≤ now (k_cache s) + ttl;
  ki_pending : Forall (plan_ok key n deadline) (k_pending s);
  ki_lives : Forall plan_lives (k_pending s);
  ki_entry : match entry (k_cache s) (api_cache_key key) with
             | None => deadline < now (k_cache s)
             | Some (v, e) => refusing n v ∧ match e with Some e => deadline ≤ e | None => True end
             end;
}.

(** ** Lemmas *)

Lemma revoked_unusable k n : is_revoked k → usable_at k n = false.
Proof. intros [x Hx]. unfold usable_at. by rewrite Hx. Qed.

Lemma unusable_later k n n' : usable_at k n = false → n ≤ n' → usable_at k n' = false.
Proof.
  unfold usable_at. destruct (ak_revoked_at k); [done|]. destruct (ak_expires_at k); [|done].
  intros. lia.
Qed.

Lemma api_cache_key_eqb a b : String.eqb (api_cache_key a) (api_cache_key b) = String.eqb a b.
Proof. done. Qed.

Lemma plan_ok_mono key n dl p q :
  kp_key q = kp_key p → kp_plan q = kp_plan p → kp_read_at q = kp_read_at p →
  plan_ok key n dl p → plan_ok key n dl q.
Proof. unfold plan_ok. by intros -> -> ->. Qed.

Lemma store_answer_revoked key d :
  revoked_in d key → ∃ k status, store_answer key d = Some (k, status) ∧ is_revoked k.
Proof. intros (k & Hk & Hr). unfold store_answer. rewrite Hk. simpl. eauto. Qed.

(** What a reader of the revoked record plans to write. *)
Lemma planned_revoked n n' behind k status :
  is_revoked k →
  planned_put ttl n' behind (Some (k, status)) = Some (dump (k, status), ttl, true) ∧
  refusing n (dump (k, status)).
Proof.
  intros Hr. unfold planned_put. rewrite revoked_unusable by done. rewrite orb_true_r. split; [done|].
  right. exists k, status. split; [done|]. intros. by apply revoked_unusable.
Qed.

Lemma put_entry_law key v t overwrite c :
  0 < t →
  let c' := snd (put_entry key v t overwrite c) in
  now c' = now c ∧
  ∀ key', entry c' (api_cache_key key') =
    if up c && String.eqb key key' && (overwrite || bool_decide (entry c (api_cache_key key) = None))
    then Some (v, expiry (Some t) (now c)) else entry c (api_cache_key key').
Proof.
  intros Ht. unfold put_entry, suppress_cache, try. destruct overwrite.
  - destruct (law_set (api_cache_key key) v (Some t) c Ht) as (c' & -> & [_ Hn _ _] & He).
    unfold reply. simpl. destruct (up c) eqn:Hup; simpl; (split; [done|]); intros key';
      by rewrite He, ?andb_true_r.
  - unfold bind. destruct (law_set_if_absent (api_cache_key key) v (Some t) c Ht)
      as (c' & -> & [_ Hn _ _] & He).
    unfold reply. simpl. destruct (up c) eqn:Hup; simpl; (split; [done|]); intros key';
      by rewrite He.
Qed.

Lemma invalidate_law key strict c :
  0 < ttl →
  let c' := snd (invalidate_key ttl key strict c) in
  now c' = now c ∧
  ∀ key', entry c' (api_cache_key key') =
    if up c && String.eqb key key' then Some (TOMBSTONE, Some (now c + 2 * ttl))
    else entry c (api_cache_key key').
Proof.
  intros Ht. assert (ttl_ok (Some (2 * ttl))) as Hok by (simpl; lia).
  destruct (law_set (api_cache_key key) TOMBSTONE (Some (2 * ttl)) c Hok)
    as (c' & Hs & [_ Hn _ _] & He).
  assert (snd (invalidate_key ttl key strict c) = c') as ->.
  { unfold invalidate_key, suppress_cache, try. destruct strict; rewrite Hs; unfold reply;
      by destruct (up c). }
  split; [done|]. intros key'. rewrite He. unfold expiry. rewrite (proj2 (Z.eqb_neq _ 0)) by lia. done.
Qed.

Lemma planned_put_lives n' behind answer :
  0 < ttl →
  match planned_put ttl n' behind answer with
  | Some (_, t, _) => 0 < t
  | None => True
  end.
Proof.
  intros Ht. unfold planned_put. destruct answer as [[k st]|]; [|done]. by destruct (_ || _).
Qed.

Lemma kinv_start key n s :
  0 < ttl → revocation_commits key n s → kinv key n (now (k_cache s) + ttl) s.
Proof.
  intros Ht [Hr (e & He & Hle) Hp]. split; [done|lia| | |].
  - apply Forall_forall. intros p Hin Hk.
    destruct (Hp p Hin) as (n' & b & a & -> & Ha). destruct (Ha Hk) as (Hread & Hn & [[k st] ->]).
    unfold planned_put. destruct (usable_at k n') eqn:Hu; simpl.
    + rewrite orb_false_r. destruct b; simpl; [done|lia].
    + rewrite orb_true_r. split; [|done]. right. exists k, st. split; [done|].
      intros n'' Hn''. apply (unusable_later k n'); [done|lia].
  - apply Forall_forall. intros p Hin. destruct (Hp p Hin) as (n' & b & a & Hplan & _).
    unfold plan_lives. rewrite Hplan. by apply planned_put_lives.
  - rewrite He. split; [by left|done].
Qed.

(** A put keeps the entry: it overwrites with a refused record, or finds the
    tombstone still there. *)
Lemma kinv_put key n dl c p :
  0 < ttl → now c ≤ kp_read_at p + ttl → dl ≤ now c + ttl → plan_ok key n dl p → plan_lives p →
  match entry c (api_cache_key key) with
  | None => dl < now c
  | Some (v, e) => refusing n v ∧ match e with Some e => dl ≤ e | None => True end
  end →
  let c' := snd (run_put (kp_key p) (kp_plan p) c) in
  now c' = now c ∧
  match entry c' (api_cache_key key) with
  | None => dl < now c
  | Some (v, e) => refusing n v ∧ match e with Some e => dl ≤ e | None => True end
  end.
Proof.
  intros Ht Hle Hnow Hok Hl He. unfold run_put, plan_ok, plan_lives in *.
  destruct (kp_plan p) as [[[v t] o]|]; [|done].
  destruct (put_entry_law (kp_key p) v t o c Hl) as [Hn Hent]. split; [done|]. rewrite Hent.
  destruct (up c); simpl; [|done]. destruct (String.eqb_spec (kp_key p) key) as [Hk|]; simpl; [|done].
  specialize (Hok Hk). destruct o; simpl.
  - destruct Hok as [Hv ->]. rewrite (proj2 (Z.eqb_neq _ 0)) by lia. done.
  - destruct (entry c (api_cache_key key)) as [[v' e]|] eqn:E;
      rewrite Hk, E; [by rewrite bool_decide_false by done|]. lia.
Qed.

Lemma kinv_step key n dl s s' : 0 < ttl → kinv key n dl s → kstep s s' → kinv key n dl s'.
Proof.
  intros Ht [Hr Hnow Hp Hl He] Hstep.
  destruct Hstep as [key' n' b|i p Hi Hle|i|key' strict|c' Hc Henv|d' Hd].
  - split; simpl; try done; apply Forall_app; (split; [done|]); (constructor; [|done]).
    + unfold plan_ok; simpl. intros ->.
      destruct (store_answer_revoked key (k_db s) Hr) as (k & st & -> & Hk).
      by destruct (planned_revoked n n' b k st Hk) as [-> ?].
    + by apply planned_put_lives.
  - rewrite Forall_lookup in Hp, Hl.
    destruct (kinv_put key n dl (k_cache s) p) as [Hn' He']; eauto.
    split; simpl; [done|by rewrite Hn'| | |by rewrite Hn'];
      apply Forall_delete; by apply Forall_lookup.
  - split; simpl; try done; by apply Forall_delete.
  - destruct (invalidate_law key' strict (k_cache s) Ht) as [Hn Hent].
    split; simpl; try done; rewrite ?Hent, Hn; [done|].
    destruct (up _ && _); [|done]. split; [by left|lia].
  - split; simpl; try done; [lia|]. rewrite Henv.
    destruct (entry (k_cache s) (api_cache_key key)) as [[v e]|]; [|lia].
    destruct He as [Hv Hx]. destruct (expired e (now c')) eqn:Hex; [|done].
    destruct e as [e|]; simpl in *; [lia|done].
  - split; simpl; try done. by apply Hd.
Qed.

Lemma kinv_steps key n dl s s' : 0 < ttl → kinv key n dl s → ksteps s s' → kinv key n dl s'.
Proof. intros Ht Hs. induction 1; [done|]. by eapply kinv_step. Qed.
End interleaving.

(** ** What [verify] answers *)

Section answers.
Context {C : Type} `{CacheLaws C} `{Codec cached_key}.
Variable content_hash : string → string.
Variable ttl : Z.
Variable touch_every : Z.

(** A put never raises: an outage is suppressed. *)
Lemma run_put_ok key p c : 0 < ttl →
  (∀ v t o, p = Some (v, t, o) → 0 < t) → fst (run_put (C := C) key p c) = Ok tt.
Proof.
  intros Ht Hp. unfold run_put. destruct p as [[[v t] o]|]; [|done]. specialize (Hp _ _ _ eq_refl).
  unfold put_entry, suppress_cache, try. destruct o.
  - destruct (law_set (api_cache_key key) v (Some t) c Hp) as (c' & -> & _).
    unfold reply. by destruct (up c).
  - unfold bind. destruct (law_set_if_absent (api_cache_key key) v (Some t) c Hp) as (c' & -> & _).
    unfold reply. by destruct (up c).
Qed.

Lemma read_store_ok key n behind (v : verifier C) : 0 < ttl →
  ∃ v', read_store ttl key n behind v = (Ok (store_answer key (vf_db v)), v').
Proof.
  intros Ht. unfold read_store, in_db, in_cache, zoom, gets. unfold bind at 1. simpl.
  set (v1 := set_vf_db _ _).
  assert (∀ v2 : verifier C, ∃ v', bind (in_cache (run_put key (planned_put ttl n behind
    (store_answer key (vf_db v))))) (λ _, ret (store_answer key (vf_db v))) v2 =
    (Ok (store_answer key (vf_db v)), v')) as Hput.
  { intros v2. unfold bind, in_cache, zoom.
    pose proof (run_put_ok key (planned_put ttl n behind (store_answer key (vf_db v))) (vf_cache v2) Ht)
      as Hok. destruct (run_put _ _ _) as [r c']. simpl in Hok. rewrite Hok; [by eexists|].
    intros x t o Hx. pose proof (planned_put_lives ttl n behind (store_answer key (vf_db v)) Ht) as Hl.
    by rewrite Hx in Hl. }
  unfold bind at 1. destruct (store_answer key (vf_db v)); [apply Hput|].
  unfold note_unknown, modify. destruct (vf_unknown_window v1). apply Hput.
Qed.

(** The raw entry a reader gets: none in an outage. *)
Lemma cached_raw_ok key (v : verifier C) :
  ∃ v' raw, in_cache (cached_raw key) v = (Ok raw, v') ∧ vf_db v' = vf_db v ∧
    vf_missing v' = vf_missing v ∧ vf_unknown_window v' = vf_unknown_window v ∧
    vf_known v' = vf_known v ∧ vf_touched v' = vf_touched v ∧
    (raw = None ∨ raw = fst <$> entry (vf_cache v) (api_cache_key key)).
Proof.
  unfold in_cache, zoom, cached_raw, suppress_cache, try.
  destruct (law_get (api_cache_key key) (vf_cache v)) as (c' & -> & _). unfold reply.
  destruct (up _); simpl; eexists _, _; (split; [reflexivity|]); split_and!; auto.
Qed.

(** What [load] can answer: nothing, the store's answer, or a cached record. *)
Lemma load_cases key n (v : verifier C) : 0 < ttl →
  ∃ v' cached, load ttl key n v = (Ok cached, v') ∧
    (cached = None ∨ cached = store_answer key (vf_db v) ∨
     ∃ text e, entry (vf_cache v) (api_cache_key key) = Some (text, e) ∧ text ≠ TOMBSTONE ∧
               parse text = cached).
Proof.
  intros Ht. unfold load, gets. unfold bind at 1.
  destruct (Z.ltb _ _); [by eexists _, _; eauto|]. unfold bind at 1.
  destruct (cached_raw_ok key v) as (v1 & raw & -> & Hdb & _ & _ & _ & _ & Hraw).
  destruct (bool_decide (raw = Some MISSING)); [by eexists _, _; eauto|].
  destruct raw as [text|].
  - destruct Hraw as [|Hraw]; [done|]. symmetry in Hraw. apply fmap_Some in Hraw as ([t e] & He & ->).
    simpl. destruct (String.eqb_spec t TOMBSTONE).
    + destruct (read_store_ok key n true v1 Ht) as (v2 & ->). rewrite Hdb. eauto 10.
    + destruct (parse t) as [c|] eqn:Hp; [by eexists _, _; split; [done|]; eauto 10|].
      destruct (read_store_ok key n true v1 Ht) as (v2 & ->). rewrite Hdb. eauto 10.
  - unfold bind, unknown, unknown_budget_left, gets. destruct (_ && _); [by eexists _, _; eauto|].
    destruct (read_store_ok key n false v1 Ht) as (v2 & ->). rewrite Hdb. eauto 10.
Qed.

Lemma dump_not_marker (x : cached_key) : dump x ≠ TOMBSTONE ∧ dump x ≠ MISSING.
Proof. destruct (dump_object x) as [s ->]. done. Qed.

(** A record [key_refused] refuses for its credential, from clock [n] on. *)
Lemma refused_unusable secret n k status :
  usable_at k n = false →
  key_refused content_hash secret n (Some (k, status)) =
  Some (err AuthenticationFailed "Missing or invalid API key").
Proof. unfold key_refused. by intros ->. Qed.

(** Whatever the two touch branches do, the answer is the record. *)
Lemma verify_answer token key secret n1 n2 (v v' : verifier C) cached :
  parse_token token = Some (key, secret) → load ttl key n1 v = (Ok cached, v') →
  fst (verify content_hash ttl touch_every token n1 n2 v) =
  match key_refused content_hash secret n2 cached, cached with
  | None, Some (k, _) => Ok (verified k)
  | Some e, _ => Raise e
  | None, None => Raise (err AuthenticationFailed "Missing or invalid API key")
  end.
Proof.
  intros Hp Hl. unfold verify. rewrite Hp. unfold bind at 1. rewrite Hl.
  destruct (key_refused _ _ _ _); [by destruct cached|]. destruct cached as [[k st]|]; [|done].
  unfold bind, remember, modify, gets. repeat (case_match; simplify_eq/=; try done).
Qed.
End answers.

(** ** Properties *)

(** C21: a revoked key is refused from its revocation's commit on, in every
    interleaving. If the tombstone was written at most [ttl] before the commit
    and readers write what they read within [ttl], then whatever readers,
    crashes, cache outages, other invalidations and expiries come in between,
    every [verify] of a token of that key raises [AuthenticationFailed],
    whatever the process's own memos hold. *)
Theorem revoked_key_refused {C} `{CacheLaws C} `{Codec cached_key} content_hash ttl touch_every
    token key secret n s0 s (v : verifier C) n1 n2 :
  0 < ttl → parse_token token = Some (key, secret) →
  revocation_commits ttl key n s0 → ksteps ttl s0 s →
  vf_cache v = k_cache s → vf_db v = k_db s → n ≤ n2 →
  fst (verify content_hash ttl touch_every token n1 n2 v) =
  Raise (err AuthenticationFailed "Missing or invalid API key").
Proof.
  intros Ht Hp Hc Hs Hvc Hvd Hn.
  destruct (kinv_steps ttl key n _ _ _ Ht (kinv_start ttl key n s0 Ht Hc) Hs) as [Hr _ _ _ He].
  destruct (load_cases ttl key n1 v Ht) as (v' & cached & Hl & Hcases).
  rewrite (verify_answer _ _ _ _ _ _ _ _ _ _ _ Hp Hl).
  destruct Hcases as [->|[->|(text & e & Hent & Hne & Hparse)]]; [done| |].
  - rewrite Hvd. destruct (store_answer_revoked key (k_db s) Hr) as (k & st & -> & Hk).
    by rewrite refused_unusable by by apply revoked_unusable.
  - rewrite Hvc in Hent. rewrite Hent in He. destruct He as [[->|(k & st & -> & Hu)] _]; [done|].
    rewrite parse_dump in Hparse. subst cached. by rewrite refused_unusable by by apply Hu.
Qed.

(** A concrete form of the cached record, for evaluation. *)
Definition role_text (r : KeyRole) : string :=
  match r with PLATFORM => "platform" | ADMIN => "admin" | SERVICE => "service" end.

Definition role_of_text (s : string) : KeyRole :=
  if String.eqb s "platform" then PLATFORM else if String.eqb s "admin" then ADMIN else SERVICE.

Definition time_text (o : option Z) : string := text_of_opt (text_of_Z <$> o).
Definition time_of_text (s : string) : option Z := opt_of_text s ≫= Z_of_text.

Definition cached_fields (x : cached_key) : list string :=
  let '(k, status) := x in
  ak_id k :: ak_tenant k :: role_text (ak_role k) :: ak_name k :: text_of_opt (ak_workspace k) ::
  ak_secret_hash k :: ak_created_by k :: text_of_Z (ak_created_at k) :: time_text (ak_expires_at k) ::
  time_text (ak_revoked_at k) :: time_text (ak_last_used_at k) ::
  (match status with active => "active" | suspended => "suspended" end) :: ak_may_act_as k.

Definition cached_of_fields (l : list string) : option cached_key :=
  match l with
  | i :: t :: r :: n :: w :: h :: b :: c :: e :: v :: u :: st :: acts =>
      created ← Z_of_text c;
      Some ({| ak_id := i; ak_tenant := t; ak_role := role_of_text r; ak_name := n;
               ak_workspace := opt_of_text w; ak_secret_hash := h; ak_created_by := b;
               ak_created_at := created; ak_expires_at := time_of_text e;
               ak_revoked_at := time_of_text v; ak_last_used_at := time_of_text u;
               ak_may_act_as := acts |},
            if String.eqb st "active" then active else suspended)
  | _ => None
  end.

Lemma time_of_time_text o : time_of_text (time_text o) = o.
Proof.
  unfold time_of_text, time_text. rewrite opt_of_text_of_opt. destruct o; simpl; [|done].
  apply Z_of_text_of_Z.
Qed.

Lemma cached_of_cached_fields x : cached_of_fields (cached_fields x) = Some x.
Proof.
  destruct x as [[i t r n w h b c e v u acts] st]. simpl. rewrite Z_of_text_of_Z. simpl.
  rewrite opt_of_text_of_opt, !time_of_time_text. by destruct r, st.
Qed.

#[export] Instance cached_key_codec : Codec cached_key := fields_codec cached_of_cached_fields.

(** ** Instances *)

Definition key_named (key_id tenant : string) (workspace : option string) (created : Z) : ApiKey :=
  {| ak_id := key_id; ak_tenant := tenant; ak_role := SERVICE; ak_name := "ci";
     ak_workspace := workspace; ak_secret_hash := "s3cret"; ak_created_by := "key:root";
     ak_created_at := created; ak_expires_at := None; ak_revoked_at := None;
     ak_last_used_at := None; ak_may_act_as := [ANY_PRINCIPAL] |}.

Definition tenant_named (id : string) (status : TenantStatus) : Tenant :=
  {| tn_id := id; tn_name := id; tn_status := status; tn_retention_days := None;
     tn_rate_limit := None; tn_admission_gate := false; tn_created_at := 0; tn_updated_at := 0 |}.

Definition demo_key : ApiKey := key_named "abcdefgh01234567" "acme" None 0.
Definition demo_token : string := "mk_abcdefgh01234567.s3cret".

Definition demo_db (k : ApiKey) : tenancy_db :=
  {| tenants := {["acme" := tenant_named "acme" active]}; api_keys := {[ak_id k := k]};
     workspaces := ∅; members_ := ∅ |}.

(** The revocation commits at 10 while a reader still holds the live record. *)
Definition stale_reader : pending :=
  {| kp_key := ak_id demo_key; kp_plan := planned_put 60 5 false (Some (demo_key, active));
     kp_read_at := 5 |}.
Definition commit_state : kstate (C := MemoryCache) :=
  {| k_cache := snd (invalidate_key 60 (ak_id demo_key) true (tick 8 new_cache));
     k_db := demo_db (revoked_key 8 demo_key); k_pending := [stale_reader] |}.
Definition after_stale_put : kstate (C := MemoryCache) :=
  {| k_cache := snd (run_put (kp_key stale_reader) (kp_plan stale_reader) (k_cache commit_state));
     k_db := k_db commit_state; k_pending := [] |}.
Definition verifier_at (s : kstate (C := MemoryCache)) : verifier MemoryCache :=
  {| vf_cache := k_cache s; vf_db := k_db s; vf_touched := ∅; vf_missing := ∅;
     vf_unknown_window := (0, 0); vf_known := None |}.

Lemma revoked_key_refused_witness :
  fst (verify (λ s, s) 60 60 demo_token 20 20 (verifier_at after_stale_put)) =
  Raise (err AuthenticationFailed "Missing or invalid API key").
Proof.
  apply (revoked_key_refused (λ s, s) 60 60 demo_token (ak_id demo_key) "s3cret" 8
    commit_state after_stale_put); [lia|done| | |done|done|lia].
  - split.
    + exists (revoked_key 8 demo_key). split; [by apply lookup_singleton_eq|by exists 8].
    + exists 128. split; [reflexivity|by vm_compute].
    + intros p Hp%list_elem_of_singleton. subst. exists 5, false, (Some (demo_key, active)).
      split; [done|]. intros _. by split_and!.
  - eapply ksteps_step; [apply ksteps_refl|]. by apply (k_put 60 commit_state 0%nat stale_reader).
Defined.

(** The cache of one key agrees with the store: its entry, if any, is a
    marker the store agrees with or the record the store holds. *)
Definition coherent {C} `{CacheLaws C} `{Codec cached_key} (key : string) (v : verifier C) : Prop :=
  match entry (vf_cache v) (api_cache_key key) with
  | None => True
  | Some (text, _) =>
      text = TOMBSTONE ∨ (text = MISSING ∧ store_answer key (vf_db v) = None) ∨
      ∃ x, store_answer key (vf_db v) = Some x ∧ text = dump x
  end.

(** The cache is transparent. With a coherent cache, no live "missing" memo
    against a stored key, and the unknown-id budget not spent, [verify] answers
    what the store says of the token: it raises [AuthenticationFailed] for a
    token that does not parse, an id the store does not hold, a key that is not
    usable or a wrong secret; [AuthorizationFailed] if the tenant is not
    active; and the record's identity otherwise - in an outage too. *)
Theorem verify_decides {C} `{CacheLaws C} `{Codec cached_key} content_hash ttl touch_every
    token (v : verifier C) n1 n2 :
  0 < ttl →
  (∀ key secret, parse_token token = Some (key, secret) →
     coherent key v ∧ (store_answer key (vf_db v) ≠ None → default n1 (vf_missing v !! key) ≤ n1) ∧
     (fst (unknown key v) = Ok false ∨ fst (unknown_budget_left n1 v) = Ok true)) →
  fst (verify content_hash ttl touch_every token n1 n2 v) =
  match parse_token token with
  | None => Raise (err AuthenticationFailed "Missing or invalid API key")
  | Some (key, secret) =>
      let answer := store_answer key (vf_db v) in
      match key_refused content_hash secret n2 answer, answer with
      | Some e, _ => Raise e
      | None, Some (k, _) => Ok (verified k)
      | None, None => Raise (err AuthenticationFailed "Missing or invalid API key")
      end
  end.
Proof.
  intros Ht Hpre. destruct (parse_token token) as [[key secret]|] eqn:Hp.
  2: { unfold verify. by rewrite Hp. }
  destruct (Hpre key secret eq_refl) as (Hco & Hmiss & Hbud). clear Hpre.
  assert (∃ v', load ttl key n1 v = (Ok (store_answer key (vf_db v)), v')) as [v' Hl].
  { unfold load, gets. unfold bind at 1. destruct (Z.ltb_spec n1 (default n1 (vf_missing v !! key))).
    { destruct (store_answer key (vf_db v)); [|by eexists]. specialize (Hmiss ltac:(done)). lia. }
    unfold bind at 1.
    destruct (cached_raw_ok key v) as (v1 & raw & -> & Hdb & Hm & Hw & Hk & Hto & Hraw).
    destruct (decide (raw = Some MISSING)) as [->|Hne].
    { rewrite bool_decide_true by done. destruct Hraw as [|Hraw]; [done|]. unfold coherent in Hco.
      destruct (entry _ _) as [[text e]|]; [|done]. injection Hraw as <-.
      destruct Hco as [|[[_ ->]|(x & _ & Hx)]]; [done|by eexists|].
      by destruct (dump_not_marker x) as [_ []]. }
    rewrite bool_decide_false by done. destruct raw as [text|].
    - destruct Hraw as [|Hraw]; [done|]. unfold coherent in Hco.
      destruct (entry _ _) as [[t e]|]; [|done]. injection Hraw as ->.
      destruct Hco as [->|[[-> _]|(x & Hs & ->)]]; [|done|].
      + rewrite String.eqb_refl. destruct (read_store_ok ttl key n1 true v1 Ht) as (v2 & ->).
        rewrite Hdb. by eexists.
      + destruct (dump_not_marker x) as [Hd _]. rewrite (proj2 (String.eqb_neq _ _) Hd), parse_dump, Hs.
        by eexists.
    - unfold bind, unknown, unknown_budget_left, gets in *. simpl in *. rewrite Hw, Hk, Hto.
      destruct (read_store_ok ttl key n1 false v1 Ht) as (v2 & Hrs). rewrite Hdb in Hrs.
      destruct Hbud as [[= ->]|[= Hb]]; [simpl; rewrite Hrs; by eexists|].
      rewrite Hb, andb_false_r, Hrs. by eexists. }
  rewrite (verify_answer _ _ _ _ _ _ _ _ _ _ _ Hp Hl). simpl.
  destruct (key_refused _ _ _ _); by destruct (store_answer _ _).
Qed.

Lemma verify_decides_witness :
  fst (verify (λ s, s) 60 60 demo_token 20 20
    (verifier_at {| k_cache := new_cache; k_db := demo_db demo_key; k_pending := [] |})) =
  Ok (verified demo_key).
Proof.
  rewrite (verify_decides (λ s, s) 60 60 demo_token); [by vm_compute|lia|].
  intros key secret Hk. vm_compute in Hk. injection Hk as <- <-.
  split; [done|]. split; [done|by left].
Defined.
