(* ===== verification/Idempotency.v ===== *)
(** * Idempotency: a write runs at most once per key
    (modules/idempotency/service.py, api/idempotent.py, and the repository
    SqlIdempotencyRepository of adapters/db/repositories.py).

    The table is a finite map from (tenant, key) to a record; a Unit of Work is
    a run on a copy of the database that is kept only if it committed. Two
    requests with one key meet at the table's unique index: the second insert
    waits for the first transaction, so transactions are the steps that
    interleave ([ystep]); a request's cache writes are steps of their own. *)
From S2P Require Import Prelude Errors Ids Tenancy Cache.

(** ** The repository *)

Record idem_record := {
  ir_request_hash : string;
  ir_response_status : option Z;
  ir_response_body : option json;
  ir_expires_at : Z;
}.

Abbreviation idem_table := (gmap (string * string) idem_record).

Definition idem_get (tenant_id key : string) : prog idem_table (option idem_record) :=
  gets (λ tb, tb !! (tenant_id, key)).

(** INSERT ... ON CONFLICT DO NOTHING RETURNING. *)
Definition reserve (tenant_id key : string) (record : idem_record) : prog idem_table bool :=
  λ tb, match tb !! (tenant_id, key) with
        | Some _ => (Ok false, tb)
        | None => (Ok true, <[(tenant_id, key) := record]> tb)
        end.

Definition idem_complete (tenant_id key : string) (status : Z) (body : json) :
    prog idem_table unit :=
  modify (alter (λ r, {| ir_request_hash := ir_request_hash r; ir_response_status := Some status;
                         ir_response_body := Some body; ir_expires_at := ir_expires_at r |})
            (tenant_id, key)).

Definition purge_expired (now : Z) (limit : nat) (tb : idem_table) : nat * idem_table :=
  let ids := take limit (filter (λ x, Z.ltb (ir_expires_at (snd x)) now = true) (map_to_list tb)) in
  (length ids, foldr (λ x, delete (fst x)) tb ids).

(** ** The service *)

(** What the cache holds: request hash, status, body. *)
Abbreviation cached_response := (string * Z * json)%type.

Definition idem_cache_key (tenant_id key : string) : string :=
  "idem:" +:+ tenant_id +:+ ":" +:+ key.

Section service.
Context {C : Type} `{CacheLaws C} `{Codec cached_response}.
Variable window_seconds : Z.

Definition lookup_cached (tenant_id key request_hash : string) : prog C (option (Z * json)) :=
  bind (suppress_cache None (cp_get (idem_cache_key tenant_id key))) (λ raw,
  match raw with
  | None => ret None
  | Some raw =>
      match parse raw with
      | None => raise (ValueError "invalid JSON")
      | Some (h, status, body) =>
          if negb (String.eqb h request_hash)
          then raise (err Conflict "Idempotency-Key reused with a different payload")
          else ret (Some (status, body))
      end
  end).

Definition in_flight : exn := Service Conflict "Idempotency-Key is being processed" true.

Definition begin (now : Z) (tenant_id key request_hash : string) :
    prog idem_table (option (Z * json)) :=
  let record := {| ir_request_hash := request_hash; ir_response_status := None;
                   ir_response_body := None; ir_expires_at := now + window_seconds |} in
  bind (reserve tenant_id key record) (λ ok,
  if ok then ret None
  else bind (idem_get tenant_id key) (λ existing,
  match existing with
  | None =>
      bind (reserve tenant_id key record) (λ ok2,
      if ok2 then ret None else raise (err Conflict "Idempotency-Key is being processed"))
  | Some e =>
      if Z.ltb (ir_expires_at e) now then
        bind (idem_complete tenant_id key 0 (JObj [])) (λ _,
        raise (err Conflict "Idempotency-Key expired; retry with a new key"))
      else if negb (String.eqb (ir_request_hash e) request_hash) then
        raise (err Conflict "Idempotency-Key reused with a different payload")
      else match ir_response_status e, ir_response_body e with
           | Some status, Some body => ret (Some (status, body))
           | _, _ => raise in_flight
           end
  end)).

Definition warm_cache (tenant_id key request_hash : string) (status : Z) (body : json) :
    prog C unit :=
  suppress_cache tt (cp_set (idem_cache_key tenant_id key) (dump (request_hash, status, body))
                       (Some window_seconds)).

(** ** The route helper *)

Definition json_get (j : json) (field : string) : option json :=
  match j with
  | JObj fs => snd <$> (list_find (λ x, fst x = field) fs ≫= λ x, Some (snd x))
  | _ => None
  end.

Definition first_job (body : json) : option string :=
  match json_get body "job_ids" with
  | Some (JList (JStr job :: _)) => Some ("/v1/jobs/" +:+ job)
  | _ => None
  end.

Record response := {
  rs_status : Z;
  rs_body : option json;
  rs_replayed : bool;
  rs_location : option string;
}.

Definition NO_CONTENT : Z := 204.

Definition respond (root_path : string) (status : Z) (body : json) (replayed : bool)
    (location : option (json → option string)) : response :=
  {| rs_status := status;
     rs_body := if Z.eqb status NO_CONTENT then None else Some body;
     rs_replayed := replayed;
     rs_location := match location ≫= λ f, f body with
                    | Some where_ => if truthy where_ then Some (root_path +:+ where_) else None
                    | None => None
                    end |}.

(** [async with uow_factory() as uow]: the changes are kept when the block
    ended without an exception after [uow.commit()]. *)
Definition in_uow {D A} (m : prog D (A * bool)) : prog D A :=
  λ d, match m d with
       | (Ok (a, committed), d') => (Ok a, if committed then d' else d)
       | (Raise e, _) => (Raise e, d)
       end.

Context {R : Type}.
Abbreviation handler_result := (Z * json * option (prog C unit))%type.
Abbreviation database := (idem_table * R)%type.

(** The block of lines 141-148: a replay, or the handler's result committed
    with its record. *)
Definition idem_tx (now : Z) (tenant_id key request_hash : string) (handler : prog R handler_result)
    (stored_body : json → json) : prog database (Z * json + handler_result) :=
  in_uow (
    bind (zoom fst (λ tb d, (tb, snd d)) (begin now tenant_id key request_hash)) (λ replay,
    match replay with
    | Some r => ret (inl r, false)
    | None =>
        bind (zoom snd (λ r d, (fst d, r)) handler) (λ '(status, body, after_commit),
        bind (zoom fst (λ tb d, (tb, snd d))
                (idem_complete tenant_id key status (stored_body body))) (λ _,
        ret (inr (status, body, after_commit), true)))
    end)).

Record sys := {
  y_cache : C;
  y_idem : idem_table;
  y_rest : R;
}.

Definition set_y_cache (c : C) (s : sys) : sys :=
  {| y_cache := c; y_idem := y_idem s; y_rest := y_rest s |}.
Definition set_y_db (d : database) (s : sys) : sys :=
  {| y_cache := y_cache s; y_idem := fst d; y_rest := snd d |}.

Definition on_cache {A} (m : prog C A) : prog sys A := zoom y_cache set_y_cache m.
Definition on_db {A} (m : prog database A) : prog sys A :=
  zoom (λ s, (y_idem s, y_rest s)) set_y_db m.

Definition run_after (after_commit : option (prog C unit)) : prog sys unit :=
  match after_commit with
  | Some m => on_cache m
  | None => ret tt
  end.

(** [run_idempotent]; [request_hash] is the hash of the payload. *)
Definition run_idempotent (now : Z) (root_path tenant_id : string) (key : option string)
    (request_hash : string) (handler : prog R handler_result) (stored_body : json → json)
    (location : option (json → option string)) : prog sys response :=
  match key with
  | None =>
      bind (on_db (in_uow (bind (zoom snd (λ r d, (fst d, r)) handler) (λ x, ret (x, true)))))
        (λ '(status, body, after_commit),
      bind (run_after after_commit) (λ _,
      ret (respond root_path status body false location)))
  | Some key =>
      bind (on_cache (lookup_cached tenant_id key request_hash)) (λ cached,
      match cached with
      | Some (status, body) => ret (respond root_path status body true location)
      | None =>
          bind (on_db (idem_tx now tenant_id key request_hash handler stored_body)) (λ out,
          match out with
          | inl (status, body) => ret (respond root_path status body true location)
          | inr (status, body, after_commit) =>
              bind (on_cache (warm_cache tenant_id key request_hash status (stored_body body)))
                (λ _,
              bind (run_after after_commit) (λ _,
              ret (respond root_path status body false location)))
          end)
      end)
  end.
End service.

(** The key a client did not send, and what its replay is compared by. *)
Definition default_idempotency_key (blake2b : string → string) (tenant_id : string)
    (lineage : list (option string)) (parts : list string) : string :=
  "auto-" +:+ stable_key blake2b (tenant_id :: ((λ x, or_str x "") <$> lineage) ++ parts).

Definition derived_or_body (client_key : option string) (body : json) (identity : list string) : json :=
  if otruthy client_key then body else JList (JStr <$> identity).

(** ** Requests interleaved

    Between a request's commit and its cache write other requests run. A write
    waiting for its turn is in [q_warm]; a crash drops it. Everything else that
    happens to the cache - time, evictions, outages, reads, the other
    components' keys - leaves an entry of this service as it is or removes it. *)
Section interleaving.
Context {C R : Type} `{CacheLaws C} `{Codec cached_response}.
Variable window_seconds : Z.

Record warm := { w_tenant : string; w_key : string; w_hash : string; w_status : Z; w_body : json }.

Record qsys := {
  q_sys : sys (C := C) (R := R);
  q_now : Z;
  q_warm : list warm;
}.

Definition run_warm (w : warm) : prog C unit :=
  warm_cache window_seconds (w_tenant w) (w_key w) (w_hash w) (w_status w) (w_body w).

Inductive ystep (s : qsys) : qsys → Prop :=
| y_write t k h handler stored_body out d :
    is_valid_tenant_id t = true →
    idem_tx (C := C) window_seconds (q_now s) t k h handler stored_body
      (y_idem (q_sys s), y_rest (q_sys s)) = (out, d) →
    ystep s {| q_sys := set_y_db d (q_sys s); q_now := q_now s;
               q_warm := match out with
                         | Ok (inr (status, body, _)) =>
                             q_warm s ++ [{| w_tenant := t; w_key := k; w_hash := h;
                                             w_status := status; w_body := stored_body body |}]
                         | _ => q_warm s
                         end |}
| y_warm i w :
    q_warm s !! i = Some w → is_valid_tenant_id (w_tenant w) = true →
    ystep s {| q_sys := set_y_cache (snd (run_warm w (y_cache (q_sys s)))) (q_sys s);
               q_now := q_now s; q_warm := delete i (q_warm s) |}
| y_crash i :
    ystep s {| q_sys := q_sys s; q_now := q_now s; q_warm := delete i (q_warm s) |}
| y_env c' :
    (∀ t k, entry c' (idem_cache_key t k) = entry (y_cache (q_sys s)) (idem_cache_key t k) ∨
            entry c' (idem_cache_key t k) = None) →
    ystep s {| q_sys := set_y_cache c' (q_sys s); q_now := q_now s; q_warm := q_warm s |}
| y_purge limit :
    ystep s {| q_sys := set_y_db (snd (purge_expired (q_now s) limit (y_idem (q_sys s))),
                                  y_rest (q_sys s)) (q_sys s);
               q_now := q_now s; q_warm := q_warm s |}
| y_tick d :
    0 ≤ d → ystep s {| q_sys := q_sys s; q_now := q_now s + d; q_warm := q_warm s |}.

Inductive ysteps (s : qsys) : qsys → Prop :=
| ysteps_refl : ysteps s s
| ysteps_step s1 s2 : ysteps s s1 → ystep s1 s2 → ysteps s s2.

(** ** The record of a finished request, and what keeps it *)

Record settled (t k h : string) (status : Z) (body : json) (e : Z) (s : qsys) : Prop := {
  settled_record : y_idem (q_sys s) !! (t, k) =
    Some {| ir_request_hash := h; ir_response_status := Some status;
            ir_response_body := Some body; ir_expires_at := e |};
  settled_cache v x : entry (y_cache (q_sys s)) (idem_cache_key t k) = Some (v, x) →
    v = dump (h, status, body);
  settled_warm : Forall (λ w, is_valid_tenant_id (w_tenant w) = true ∧
    (w_tenant w = t → w_key w = k →
     w = {| w_tenant := t; w_key := k; w_hash := h; w_status := status; w_body := body |})) (q_warm s);
}.

Lemma idem_cache_key_inj t k t' k' :
  is_valid_tenant_id t = true → is_valid_tenant_id t' = true →
  idem_cache_key t k = idem_cache_key t' k' → t = t' ∧ k = k'.
Proof.
  unfold idem_cache_key. intros Ht Ht' Heq%str_app_cancel_l.
  apply (str_sep_inj ":"); [by apply valid_tenant_no_colon..|exact Heq].
Qed.

(** ** Lemmas: the repository and the service *)

Lemma begin_other (now : Z) (t k h : string) tb t' k' :
  (t', k') ≠ (t, k) →
  snd (begin window_seconds now t k h tb) !! (t', k') = tb !! (t', k').
Proof.
  intros Hne. unfold begin, bind, reserve, idem_get, gets, ret, raise, idem_complete, modify.
  destruct (tb !! (t, k)) as [r|] eqn:E; simpl; [|by rewrite lookup_insert_ne].
  rewrite E. destruct (Z.ltb _ _); simpl; [by rewrite lookup_alter_ne|].
  destruct (negb _); [done|]. by destruct (ir_response_status r), (ir_response_body r).
Qed.

Lemma begin_fresh (now : Z) (t k h : string) tb :
  tb !! (t, k) = None →
  begin window_seconds now t k h tb =
  (Ok None, <[(t, k) := {| ir_request_hash := h; ir_response_status := None;
                           ir_response_body := None;
                           ir_expires_at := now + window_seconds |}]> tb).
Proof. intros E. unfold begin, bind, reserve. by rewrite E. Qed.

(** What a request finds in a record that is not expired. *)
Definition answer (r : idem_record) (h : string) : res (Z * json) :=
  if negb (String.eqb (ir_request_hash r) h)
  then Raise (err Conflict "Idempotency-Key reused with a different payload")
  else match ir_response_status r, ir_response_body r with
       | Some status, Some body => Ok (status, body)
       | _, _ => Raise in_flight
       end.

Lemma begin_present (now : Z) (t k h : string) tb r :
  tb !! (t, k) = Some r → now ≤ ir_expires_at r →
  begin window_seconds now t k h tb = (obind (answer r h) (λ x, Ok (Some x)), tb).
Proof.
  intros Htb Hnow. unfold begin, bind, reserve, idem_get, gets. rewrite Htb. simpl. rewrite Htb.
  rewrite (proj2 (Z.ltb_ge _ _)) by lia. unfold answer. destruct (negb _); [done|].
  by destruct (ir_response_status r), (ir_response_body r).
Qed.

(** A transaction that finds a live record changes nothing and runs nothing. *)
Lemma idem_tx_present (now : Z) (t k h : string) (handler : prog R (Z * json * option (prog C unit)))
    (stored : json → json) (tb : idem_table) (x : R) r :
  tb !! (t, k) = Some r → now ≤ ir_expires_at r →
  idem_tx (C := C) window_seconds now t k h handler stored (tb, x) =
  (obind (answer r h) (λ x, Ok (inl x)), (tb, x)).
Proof.
  intros Hr Hnow. unfold idem_tx, in_uow, bind at 1, zoom at 1. simpl.
  rewrite (begin_present _ _ _ _ _ r) by done. by destruct (answer r h).
Qed.

(** Any transaction leaves the records of other keys alone. *)
Lemma idem_tx_other (now : Z) (t k h : string) (handler : prog R (Z * json * option (prog C unit)))
    (stored : json → json) (d : idem_table * R) (t' k' : string) :
  (t', k') ≠ (t, k) →
  fst (snd (idem_tx (C := C) window_seconds now t k h handler stored d)) !! (t', k') = fst d !! (t', k').
Proof.
  intros Hne. unfold idem_tx, in_uow. unfold bind at 1, zoom at 1.
  pose proof (begin_other now t k h (fst d) t' k' Hne) as Hb.
  destruct (begin window_seconds now t k h (fst d)) as [[[x|]|e] tb]; [done| |done]; simpl in *.
  unfold bind, zoom. simpl. destruct (handler d.2) as [[[[st b] a]|e] r]; simpl; [|done].
  unfold idem_complete, modify. simpl. by rewrite lookup_alter_ne.
Qed.

(** A fresh key's transaction runs the handler; it commits with the record, or
    raises what the handler raised with nothing kept. *)
Lemma idem_tx_fresh (now : Z) (t k h : string) (handler : prog R (Z * json * option (prog C unit)))
    (stored : json → json) (d : idem_table * R) :
  fst d !! (t, k) = None →
  idem_tx (C := C) window_seconds now t k h handler stored d =
  match handler (snd d) with
  | (Ok (status, body, after), r) =>
      (Ok (inr (status, body, after)),
       (<[(t, k) := {| ir_request_hash := h; ir_response_status := Some status;
                       ir_response_body := Some (stored body);
                       ir_expires_at := now + window_seconds |}]> (fst d), r))
  | (Raise e, _) => (Raise e, d)
  end.
Proof.
  intros Hd. unfold idem_tx, in_uow, bind, zoom. rewrite begin_fresh by done. simpl.
  destruct (handler (snd d)) as [[[[st b] a]|e] r]; simpl; [|done].
  unfold idem_complete, modify. simpl. by rewrite alter_insert, decide_True.
Qed.

Lemma purge_keeps now limit tb k r :
  tb !! k = Some r → now ≤ ir_expires_at r → snd (purge_expired now limit tb) !! k = Some r.
Proof.
  intros Hk Hnow. unfold purge_expired. simpl.
  assert (∀ l, Forall (λ x, ir_expires_at (snd x) < now ∧ tb !! fst x = Some (snd x)) l →
    foldr (λ x, delete (fst x)) tb l !! k = Some r) as Hf.
  { induction 1 as [|[k' r'] l [Hlt Hl] _ IH]; simpl in *; [done|].
    rewrite lookup_delete_ne; [done|]. intros ->. simplify_eq. lia. }
  apply Hf. apply Forall_take, Forall_forall. intros [k' r'] [Hx Hin]%list_elem_of_filter.
  apply elem_of_map_to_list in Hin. simpl in *. split; [lia|done].
Qed.

Lemma run_warm_entry w c k :
  0 < window_seconds →
  entry (snd (run_warm w c)) k =
  if up c && String.eqb (idem_cache_key (w_tenant w) (w_key w)) k
  then Some (dump (w_hash w, w_status w, w_body w), expiry (Some window_seconds) (now c))
  else entry c k.
Proof.
  intros Hw. unfold run_warm, warm_cache, suppress_cache, try.
  destruct (law_set (idem_cache_key (w_tenant w) (w_key w)) (dump (w_hash w, w_status w, w_body w))
    (Some window_seconds) c Hw) as (c' & -> & _ & He).
  unfold reply. rewrite <- He. by destruct (up c).
Qed.

Lemma settled_step t k h status body e s s' :
  is_valid_tenant_id t = true → 0 < window_seconds →
  settled t k h status body e s → ystep s s' → q_now s' ≤ e → settled t k h status body e s'.
Proof.
  intros Ht Hw [Hr Hc Hq] Hstep Hnow.
  destruct Hstep as [t' k' h' handler stored out db Ht' Htx|i w Hi Hw'|i|c' Henv|limit|d Hd]; simpl in *.
  - destruct (decide ((t, k) = (t', k'))) as [[= <- <-]|Hne].
    + rewrite (idem_tx_present _ _ _ _ _ _ _ _ _ Hr) in Htx by done.
      unfold answer in Htx. simpl in Htx. by destruct (negb _) in Htx; simplify_eq/=.
    + pose proof (idem_tx_other (q_now s) t' k' h' handler stored (y_idem (q_sys s), y_rest (q_sys s))
        t k Hne) as Ho.
      rewrite Htx in Ho. simpl in Ho.
      split; simpl; [by rewrite Ho|done|].
      destruct out as [[|[[st b] a]]|]; try done. apply Forall_app. split; [done|].
      constructor; [|done]. simpl. split; [done|]. intros -> ->. done.
  - split; simpl; [done| |by apply Forall_delete].
    intros v x. rewrite (run_warm_entry w (y_cache (q_sys s)) _ Hw).
    destruct (up _ && _) eqn:Hk; [|apply Hc].
    apply andb_true_iff in Hk as [_ Hk%String.eqb_eq].
    apply idem_cache_key_inj in Hk as [Htk Hkk]; [|done..].
    intros [= <- _]. rewrite Forall_lookup in Hq. destruct (Hq _ _ Hi) as [_ Hw''].
    by rewrite (Hw'' Htk Hkk).
  - split; simpl; [done|done|by apply Forall_delete].
  - split; simpl; [done| |done]. intros v x Hv. destruct (Henv t k) as [He|He]; rewrite He in Hv; [|done].
    by eapply Hc.
  - split; simpl; [|done|done]. by apply purge_keeps.
  - by split.
Qed.
Lemma ystep_now s s' : ystep s s' → q_now s ≤ q_now s'.
Proof. destruct 1; simpl; lia. Qed.

Lemma settled_steps t k h status body e s s' :
  is_valid_tenant_id t = true → 0 < window_seconds →
  settled t k h status body e s → ysteps s s' → q_now s' ≤ e → settled t k h status body e s'.
Proof.
  intros Ht Hw Hs. induction 1 as [|s1 s2 _ IH Hstep]; [done|]. intros Hnow.
  pose proof (ystep_now _ _ Hstep). eapply settled_step; [done|done|apply IH; lia|done|done].
Qed.

(** The state right after a first request committed. *)
Lemma settled_first s t k h handler stored status body after d :
  is_valid_tenant_id t = true →
  y_idem (q_sys s) !! (t, k) = None →
  entry (y_cache (q_sys s)) (idem_cache_key t k) = None →
  Forall (λ w, is_valid_tenant_id (w_tenant w) = true ∧ (w_tenant w, w_key w) ≠ (t, k)) (q_warm s) →
  idem_tx (C := C) window_seconds (q_now s) t k h handler stored
    (y_idem (q_sys s), y_rest (q_sys s)) = (Ok (inr (status, body, after)), d) →
  settled t k h status (stored body) (q_now s + window_seconds)
    {| q_sys := set_y_db d (q_sys s); q_now := q_now s;
       q_warm := q_warm s ++ [{| w_tenant := t; w_key := k; w_hash := h; w_status := status;
                                 w_body := stored body |}] |}.
Proof.
  intros Ht Hnone Hcache Hwarm. rewrite idem_tx_fresh by done. simpl.
  destruct (handler _) as [[[[st b] a]|e] r]; [|done]. intros [= <- <- <- <-]. split; simpl.
  - by rewrite lookup_insert_eq.
  - by rewrite Hcache.
  - apply Forall_app. split; [|by constructor].
    eapply Forall_impl; [exact Hwarm|]. intros w [? Hne]. split; [done|]. intros. by subst.
Qed.

(** A request under a settled key. *)
Lemma run_settled t k h status body e s root h' handler stored location :
  settled t k h status body e s → q_now s ≤ e →
  ∃ s', run_idempotent (C := C) window_seconds (q_now s) root t (Some k) h' handler stored location (q_sys s) =
    (if String.eqb h h' then Ok (respond root status body true location)
     else Raise (err Conflict "Idempotency-Key reused with a different payload"), s') ∧
    y_idem s' = y_idem (q_sys s) ∧ y_rest s' = y_rest (q_sys s).
Proof.
  intros [Hr Hc _] Hnow. unfold run_idempotent, on_cache at 1, zoom, bind at 1.
  unfold lookup_cached, suppress_cache, try, bind at 1.
  destruct (law_get (idem_cache_key t k) (y_cache (q_sys s))) as (c' & -> & _). unfold reply.
  assert (∃ s', (bind (on_db (idem_tx (C := C) window_seconds (q_now s) t k h' handler stored)) (λ out,
          match out with
          | inl (status, body) => ret (respond root status body true location)
          | inr (status, body, after_commit) =>
              bind (on_cache (warm_cache window_seconds t k h' status (stored body))) (λ _,
              bind (run_after after_commit) (λ _,
              ret (respond root status body false location)))
          end)) (set_y_cache c' (q_sys s)) =
    (if String.eqb h h' then Ok (respond root status body true location)
     else Raise (err Conflict "Idempotency-Key reused with a different payload"), s') ∧
    y_idem s' = y_idem (q_sys s) ∧ y_rest s' = y_rest (q_sys s)) as Hdb.
  { unfold bind at 1, on_db, zoom. simpl. rewrite (idem_tx_present _ _ _ _ _ _ _ _ _ Hr) by done.
    unfold answer. simpl. destruct (String.eqb h h'); simpl; by eexists. }
  destruct (up _); [|exact Hdb].
  destruct (entry _ _) as [[v x]|] eqn:He; simpl; [|exact Hdb].
  rewrite (Hc v x) by done. rewrite parse_dump. destruct (String.eqb h h'); simpl; by eexists.
Qed.
End interleaving.

(** ** Properties *)

(** C22: a write runs exactly once per (tenant, key). Once a request has run its
    handler and committed, and for as long as its record has not expired,
    whatever other requests, cache writes, crashes, purges, outages and
    evictions come in between: a later request under that key gets the first
    response, marked as replayed, if its payload hashes the same, and a
    [Conflict] if not - and it changes nothing in the database, so its own
    handler does not run. *)
Theorem idempotent_exactly_once {C R} `{CacheLaws C} `{Codec cached_response} window t k h
    (s0 s : qsys (C := C) (R := R)) handler stored status body after d
    root h' handler' stored' location :
  0 < window → is_valid_tenant_id t = true →
  y_idem (q_sys s0) !! (t, k) = None →
  entry (y_cache (q_sys s0)) (idem_cache_key t k) = None →
  Forall (λ w, is_valid_tenant_id (w_tenant w) = true ∧ (w_tenant w, w_key w) ≠ (t, k)) (q_warm s0) →
  idem_tx (C := C) window (q_now s0) t k h handler stored
    (y_idem (q_sys s0), y_rest (q_sys s0)) = (Ok (inr (status, body, after)), d) →
  ysteps window
    {| q_sys := set_y_db d (q_sys s0); q_now := q_now s0;
       q_warm := q_warm s0 ++ [{| w_tenant := t; w_key := k; w_hash := h; w_status := status;
                                  w_body := stored body |}] |} s →
  q_now s ≤ q_now s0 + window →
  ∃ s', run_idempotent window (q_now s) root t (Some k) h' handler' stored' location (q_sys s) =
    (if String.eqb h h' then Ok (respond root status (stored body) true location)
     else Raise (err Conflict "Idempotency-Key reused with a different payload"), s') ∧
    y_idem s' = y_idem (q_sys s) ∧ y_rest s' = y_rest (q_sys s).
Proof.
  intros Hw Ht Hn Hc Hq Htx Hsteps Hnow. eapply run_settled; [|exact Hnow].
  eapply settled_steps; [done|done| |exact Hsteps|done]. by eapply settled_first.
Qed.

(** A counter service: each handler run adds one. *)
Definition counter_handler : prog Z (Z * json * option (prog MemoryCache unit)) :=
  λ n, (Ok (201, JObj [("count", JNum (n + 1))], None), n + 1).

Definition counter_start : qsys (C := MemoryCache) (R := Z) :=
  {| q_sys := {| y_cache := new_cache; y_idem := ∅; y_rest := 0 |}; q_now := 0; q_warm := [] |}.

#[export] Instance cached_response_codec : Codec cached_response := countable_codec.

Lemma idempotent_exactly_once_witness :
  ∃ d s', idem_tx (C := MemoryCache) 60 0 "acme" "k1" "h" counter_handler id (∅, 0) =
            (Ok (inr (201, JObj [("count", JNum 1)], None)), d) ∧
    run_idempotent 60 0 "" "acme" (Some "k1") "h" counter_handler id None
      (set_y_db d (q_sys counter_start)) =
    (Ok (respond "" 201 (JObj [("count", JNum 1)]) true None), s') ∧ y_rest s' = 1.
Proof.
  eexists. edestruct (idempotent_exactly_once 60 "acme" "k1" "h" counter_start) with
    (handler := counter_handler) (stored := id (A := json)) (h' := "h") (root := "")
    (handler' := counter_handler) (stored' := id (A := json)) (location := None (A := json → option string))
    as (s' & Hrun & _ & Hrest);
    [lia|done|done|done|by constructor|reflexivity|apply ysteps_refl|by simpl; lia|].
  exists s'. split; [reflexivity|]. split; [exact Hrun|exact Hrest].
Defined.

(** An expired record is not re-processed. Until the purge removes it,
    every request under its key is refused with a [Conflict], and nothing of
    the database changes: the rewriting of the record is rolled back with the
    transaction that raised. *)
Theorem expired_key_stays_refused {C R} `{CacheLaws C} `{Codec cached_response} window now t k h
    (s : sys (C := C) (R := R)) r root handler stored location :
  y_idem s !! (t, k) = Some r → ir_expires_at r < now →
  entry (y_cache s) (idem_cache_key t k) = None →
  ∃ s', run_idempotent window now root t (Some k) h handler stored location s =
    (Raise (err Conflict "Idempotency-Key expired; retry with a new key"), s') ∧
    y_idem s' = y_idem s ∧ y_rest s' = y_rest s.
Proof.
  intros Hr Hexp Hent. unfold run_idempotent, on_cache at 1, zoom, bind at 1.
  unfold lookup_cached, suppress_cache, try, bind at 1.
  destruct (law_get (idem_cache_key t k) (y_cache s)) as (c' & -> & _). unfold reply. rewrite Hent.
  destruct (up _); simpl; unfold bind at 1, on_db, zoom; simpl;
    unfold idem_tx, in_uow, bind, zoom, begin, bind, reserve, idem_get, gets; simpl;
    rewrite Hr; simpl; rewrite Hr, (proj2 (Z.ltb_lt _ _)) by done; simpl; by eexists.
Qed.

Lemma expired_key_stays_refused_witness :
  let r := {| ir_request_hash := "h"; ir_response_status := Some 201;
              ir_response_body := Some JNull; ir_expires_at := 60 |} in
  ∃ s', run_idempotent 60 61 "" "acme" (Some "k1") "h" counter_handler id None
    {| y_cache := new_cache; y_idem := {[("acme", "k1") := r]}; y_rest := 1 |} =
    (Raise (err Conflict "Idempotency-Key expired; retry with a new key"), s') ∧
    y_idem s' = {[("acme", "k1") := r]} ∧ y_rest s' = 1.
Proof.
  intros r. destruct (expired_key_stays_refused 60 61 "acme" "k1" "h"
    {| y_cache := new_cache; y_idem := {[("acme", "k1") := r]}; y_rest := 1 |} r ""
    counter_handler id None) as (s' & Hrun & Hidem & Hrest);
    [by apply lookup_singleton_eq|simpl; lia|done|].
  exists s'. split; [exact Hrun|]. split; [exact Hidem|exact Hrest].
Defined.
