(* ===== verification/AuthzService.v ===== *)
(** * AuthzService: decisions, scopes and grants
    (modules/authz/service.py, modules/authz/scope.py).

    Everything is stated against the [AuthorizationProvider] and
    [CacheProvider] interfaces. The service's state is the provider's store,
    the revision counters and the cache. [asyncio.gather] is the sequence of
    its coroutines, whose answers do not depend on each other. *)
From S2P Require Import Prelude Errors Ids Context Rebac AuthzProvider.
From S2P Require Import Visibility Revisions Tenancy Cache.

(** ** ScopeResolver *)

Definition object_id (tenant_id ident : string) : string := tenant_id +:+ "/" +:+ ident.

(** [o.split(":", 1)[1]]. *)
Definition after_colon (o : string) : res string :=
  match str_partition ":" o with
  | (_, true, r) => Ok r
  | _ => Raise IndexError
  end.

Fixpoint traverse {E A B} (f : A → outcome E B) (l : list A) : outcome E (list B) :=
  match l with
  | [] => Ok []
  | x :: l' => obind (f x) (λ y, obind (traverse f l') (λ ys, Ok (y :: ys)))
  end.

Definition lift {S A} (r : res A) : prog S A := λ s, (r, s).

(** [principal_id], and the user an agent acts for. *)
Definition subjects (ctx : MemoryExecutionContext) : list string :=
  principal_id ctx ::
  (if is_agent ctx && otruthy (user_id ctx)
   then ["user:" +:+ default "" (user_id ctx)] else []).

Definition LISTINGS : list (string * string) :=
  [("can_read", "thread"); ("can_read", "document"); ("viewer", "workspace")].

Definition queries (ctx : MemoryExecutionContext) : list (string * (string * string)) :=
  subjects ctx ≫= λ s, (λ l, (s, l)) <$> LISTINGS.
#[global] Arguments queries : simpl never.

(** [sorted(i[len(prefix):] for i in items if i.startswith(prefix))]. *)
Definition own (tenant_id : string) (items : list string) : list string :=
  str_sorted (omap (strip_prefix (tenant_id +:+ "/")) items).

Section resolver.
Context {P : Type} `{AuthorizationLaws P}.
Variable max_listed : nat.

Definition list_ (user rel_name object_type : string) : prog P (list string * bool) :=
  bind (ap_list_objects user rel_name object_type) (λ objects,
  bind (lift (traverse after_colon (take max_listed objects))) (λ ids,
  ret (ids, Nat.ltb max_listed (length objects)))).

(** One coroutine of the gather: a subject's listing, and the sink it goes to. *)
Definition query (q : string * (string * string)) : prog P (string * (list string * bool)) :=
  let '(subject, (relation, object_type)) := q in
  bind (list_ subject relation object_type) (λ found, ret (object_type, found)).

(** What the listings of one kind found, over the subjects, each once. *)
Definition sink (results : list (string * (list string * bool))) (kind : string) : list string :=
  fromkeys (results ≫= λ x, if String.eqb (fst x) kind then fst (snd x) else []).

Definition resolve (ctx : MemoryExecutionContext) : prog P AuthorizedScope :=
  bind (mapM query (queries ctx)) (λ results,
  ret {| s_tenant_id := tenant_id ctx;
         s_principal := principal_id ctx;
         thread_ids := own (tenant_id ctx) (sink results "thread");
         document_ids := own (tenant_id ctx) (sink results "document");
         agent_ids := if is_agent ctx && otruthy (agent_id ctx) then [default "" (agent_id ctx)] else [];
         run_ids := filter (λ r, truthy r = true)
                      (omap id [agent_run_id ctx; parent_agent_run_id ctx]);
         agent_group_ids := if otruthy (agent_group_id ctx) then [default "" (agent_group_id ctx)] else [];
         workspace_ids := own (tenant_id ctx) (sink results "workspace");
         s_user_id := user_id ctx;
         truncated := existsb (λ x, snd (snd x)) results |}).
End resolver.

(** ** AuthorizationService *)

Record authz_state {P C : Type} := {
  az_provider : P;
  az_revisions : revisions;
  az_cache : C;
}.
Arguments authz_state : clear implicits.

Definition revision_fingerprint (ctx : MemoryExecutionContext) (revs : gmap string Z) : string :=
  let keys := ["membership:"; "membership:" +:+ or_str (user_id ctx) ""]
              ++ (if otruthy (agent_id ctx) then ["membership:" +:+ default "" (agent_id ctx)] else []) in
  str_join "," ((λ k, k +:+ "=" +:+ text_of_Z (default 0 (revs !! k))) <$> str_sorted keys).

(** [",".join(f"{k}={v}" for k, v in sorted(values.items()))]. *)
Definition values_text (values : gmap string Z) : string :=
  str_join "," ((λ k, k +:+ "=" +:+ text_of_Z (default 0 (values !! k)))
                <$> str_sorted (elements (dom values))).

Definition membership_keys (ctx : MemoryExecutionContext) : list revision_key :=
  [(RMembership, ""); (RMembership, or_str (user_id ctx) "")]
  ++ (if otruthy (agent_id ctx) then [(RMembership, default "" (agent_id ctx))] else []).

Section service.
Context {P C : Type} `{AuthorizationLaws P} `{CacheLaws C} `{Codec AuthorizedScope}.
Variable blake2b : string → string.
Variable max_listed : nat.
Variable cache_ttl : Z.
Variable decision_cache : bool.

Abbreviation st := (authz_state P C).
Abbreviation aprog A := (prog st A).

Definition set_az_provider (p : P) (s : st) : st :=
  {| az_provider := p; az_revisions := az_revisions s; az_cache := az_cache s |}.
Definition set_az_revisions (r : revisions) (s : st) : st :=
  {| az_provider := az_provider s; az_revisions := r; az_cache := az_cache s |}.
Definition set_az_cache (c : C) (s : st) : st :=
  {| az_provider := az_provider s; az_revisions := az_revisions s; az_cache := c |}.

Definition on_provider {A} (m : prog P A) : aprog A := zoom az_provider set_az_provider m.
Definition on_revisions {A} (m : prog revisions A) : aprog A := zoom az_revisions set_az_revisions m.
Definition on_az_cache {A} (m : prog C A) : aprog A := zoom az_cache set_az_cache m.

Definition scope_cache_key (ctx : MemoryExecutionContext) (fingerprint : string) : string :=
  "authz:scope:" +:+ tenant_id ctx +:+ ":" +:+ scope_fingerprint blake2b ctx +:+ ":" +:+ fingerprint.

(** [scope]; [with_revisions] says whether a revision repository was given. *)
Definition scope (ctx : MemoryExecutionContext) (with_revisions : bool)
    (given_fingerprint cached_scope : option string) : aprog AuthorizedScope :=
  bind (match given_fingerprint with
        | Some f => ret (f, if decision_cache then cached_scope else None)
        | None =>
            bind (if with_revisions
                  then bind (on_revisions (get_many (tenant_id ctx) (membership_keys ctx)))
                         (λ values, ret (values_text values))
                  else ret "0") (λ f,
            if decision_cache
            then bind (on_az_cache (suppress_cache None (cp_get (scope_cache_key ctx f))))
                   (λ raw, ret (f, raw))
            else ret (f, None))
        end) (λ '(fingerprint, raw),
  match raw with
  | Some text => match parse text with
                 | Some s => ret s
                 | None => raise (ValueError "invalid scope")
                 end
  | None =>
      bind (on_provider (resolve max_listed ctx)) (λ s,
      bind (if decision_cache
            then on_az_cache (suppress_cache tt
                   (cp_set (scope_cache_key ctx fingerprint) (dump s) (Some cache_ttl)))
            else ret tt) (λ _,
      ret s))
  end).

Definition visibility (ctx : MemoryExecutionContext) (with_revisions : bool)
    (given_fingerprint cached_scope : option string) : aprog VisibilitySpecification :=
  bind (scope ctx with_revisions given_fingerprint cached_scope) (λ s,
  ret (from_scope s (thread_id ctx) (agent_run_id ctx) (workspace_id ctx))).

(** *** Decisions *)

Definition allowed (ctx : MemoryExecutionContext) (relation obj_type ident : string) : aprog bool :=
  let obj := obj_type +:+ ":" +:+ object_id (tenant_id ctx) ident in
  bind (on_provider (ap_batch_check ((λ s, (s, relation, obj)) <$> subjects ctx))) (λ results,
  ret (existsb id results)).

Definition is_tenant_admin (ctx : MemoryExecutionContext) : aprog bool :=
  bind (on_provider (ap_batch_check
    ((λ s, (s, "admin", "tenant:" +:+ tenant_id ctx)) <$> subjects ctx))) (λ results,
  ret (existsb id results)).

Definition deny {A} : aprog A := raise (err ScopeDenied "Access denied").

Definition require (ctx : MemoryExecutionContext) (relation obj_type ident : string) : aprog unit :=
  bind (allowed ctx relation obj_type ident) (λ ok, if ok then ret tt else deny).

(** *** Grants *)

Definition bump_membership (tenant_id : string) (with_revisions : bool) (object_ids : list string) :
    aprog unit :=
  if with_revisions
  then on_revisions (mapM_ (λ o, bind (bump tenant_id RMembership o) (λ _, ret tt))
                       (fromkeys ("" :: object_ids)))
  else ret tt.

Definition opt_tuple (o : option string) (f : string → RelationTuple) : list RelationTuple :=
  match o with
  | Some x => if truthy x then [f x] else []
  | None => []
  end.

Definition thread_tuples (ctx : MemoryExecutionContext) (thread_id : string)
    (workspace_id : option string) : list RelationTuple :=
  let obj := "thread:" +:+ object_id (tenant_id ctx) thread_id in
  [mk_tuple ("tenant:" +:+ tenant_id ctx) "tenant" obj]
  ++ opt_tuple workspace_id (λ w, mk_tuple ("workspace:" +:+ object_id (tenant_id ctx) w) "workspace" obj)
  ++ opt_tuple (user_id ctx) (λ u, mk_tuple ("user:" +:+ u) "owner" obj)
  ++ (if is_agent ctx then [mk_tuple (principal_id ctx) "participant" obj] else []).

Definition grant_thread (ctx : MemoryExecutionContext) (thread_id : string)
    (workspace_id : option string) (with_revisions : bool) : aprog unit :=
  bind (on_provider (ap_write (thread_tuples ctx thread_id workspace_id) [])) (λ _,
  bump_membership (tenant_id ctx) with_revisions [or_str (user_id ctx) ""; or_str (agent_id ctx) ""]).

Definition document_tuples (ctx : MemoryExecutionContext) (document_id : string)
    (thread_id workspace_id : option string) : list RelationTuple :=
  let obj := "document:" +:+ object_id (tenant_id ctx) document_id in
  [mk_tuple ("tenant:" +:+ tenant_id ctx) "tenant" obj]
  ++ opt_tuple (user_id ctx) (λ u, mk_tuple ("user:" +:+ u) "owner" obj)
  ++ opt_tuple thread_id (λ t, mk_tuple ("thread:" +:+ object_id (tenant_id ctx) t) "thread" obj)
  ++ opt_tuple workspace_id (λ w, mk_tuple ("workspace:" +:+ object_id (tenant_id ctx) w) "workspace" obj).

Definition grant_document (ctx : MemoryExecutionContext) (document_id : string)
    (thread_id workspace_id : option string) (with_revisions : bool) : aprog unit :=
  bind (on_provider (ap_write (document_tuples ctx document_id thread_id workspace_id) [])) (λ _,
  bump_membership (tenant_id ctx) with_revisions [or_str (user_id ctx) ""; or_str (agent_id ctx) ""]).

Definition memory_tuples (ctx : MemoryExecutionContext) (memory_id : string) (owner : option string) :
    list RelationTuple :=
  let obj := "memory:" +:+ object_id (tenant_id ctx) memory_id in
  [mk_tuple ("tenant:" +:+ tenant_id ctx) "tenant" obj;
   mk_tuple (or_str owner (principal_id ctx)) "owner" obj].

Definition grant_memory (ctx : MemoryExecutionContext) (memory_id : string) (owner : option string)
    (with_revisions : bool) : aprog unit :=
  bind (on_provider (ap_write (memory_tuples ctx memory_id owner) [])) (λ _,
  bump_membership (tenant_id ctx) with_revisions [or_str (user_id ctx) ""; or_str (agent_id ctx) ""]).

Definition grant_membership (tenant_id user_id : string) (admin : bool) (with_revisions : bool) :
    aprog unit :=
  bind (on_provider (ap_write [mk_tuple ("user:" +:+ user_id) (if admin then "admin" else "member")
                                 ("tenant:" +:+ tenant_id)] [])) (λ _,
  bump_membership tenant_id with_revisions [user_id]).

Definition role_name (r : MemberRole) : string :=
  match r with admin => "admin" | member => "member" | viewer => "viewer" end.

Definition WORKSPACE_ROLES : list MemberRole := [admin; member; viewer].

Definition member_subject (principal : string) : res (string * string) :=
  obind (parse_principal principal) (λ '(kind, ident), Ok (kind +:+ ":" +:+ ident, ident)).

Definition workspace_object (tenant_id workspace_id : string) : string :=
  "workspace:" +:+ object_id tenant_id workspace_id.

Definition grant_workspace (tenant_id workspace_id : string) : aprog unit :=
  on_provider (ap_write
    [mk_tuple ("tenant:" +:+ tenant_id) "tenant" (workspace_object tenant_id workspace_id)] []).

Definition set_workspace_member (tenant_id workspace_id principal : string) (role : MemberRole)
    (previous : option MemberRole) (with_revisions : bool) : aprog unit :=
  let obj := workspace_object tenant_id workspace_id in
  bind (lift (member_subject principal)) (λ '(subject, ident),
  let drop := match previous with
              | Some r => if decide (r = role) then [] else [mk_tuple subject (role_name r) obj]
              | None => []
              end in
  bind (on_provider (ap_write [mk_tuple subject (role_name role) obj] drop)) (λ _,
  bump_membership tenant_id with_revisions [ident])).

Definition revoke_workspace_member (tenant_id workspace_id principal : string)
    (with_revisions : bool) : aprog unit :=
  let obj := workspace_object tenant_id workspace_id in
  bind (lift (member_subject principal)) (λ '(subject, ident),
  bind (on_provider (ap_write [] ((λ r, mk_tuple subject (role_name r) obj) <$> WORKSPACE_ROLES)))
    (λ _,
  bump_membership tenant_id with_revisions [ident])).
End service.

(** ** Lemmas: the resolver *)

Lemma after_colon_of ty i : str_in ":" ty = false → after_colon (ty +:+ String ":" i) = Ok i.
Proof. intros H. unfold after_colon. by rewrite str_partition_app. Qed.

Lemma object_split o : str_in ":" o = true → ∃ i, o = obj_type o +:+ ":" +:+ i ∧ str_in ":" (obj_type o) = false.
Proof.
  intros H. unfold obj_type, split_object. destruct (str_partition ":" o) as [[l b] r] eqn:E.
  destruct b.
  - apply str_partition_inv in E as [-> Hl]. exists r. by rewrite ?str_partition_app.
  - exfalso. revert l r E. induction o as [|c o IH]; [done|]. simpl in *.
    destruct (Ascii.eqb c ":"); [done|]. intros l r.
    destruct (str_partition ":" o) as [[l' b'] r'] eqn:E'. intros [= <- -> <-].
    by eapply IH.
Qed.

Lemma obj_type_of ty i : str_in ":" ty = false → obj_type (ty +:+ ":" +:+ i) = ty.
Proof.
  intros H. unfold obj_type, split_object. change (ty +:+ ":" +:+ i) with (ty +:+ String ":" i).
  by rewrite str_partition_app.
Qed.

Section resolver_lemmas.
Context {P : Type} `{AuthorizationLaws P}.
Variable max_listed : nat.

(** What one listing says of a kind of object. *)
Record listing_ok (p : P) (user rel_name ty : string) (found : list string * bool) : Prop := {
  lo_sound i : i ∈ fst found → holds p user rel_name (ty +:+ ":" +:+ i);
  lo_complete i : snd found = false → holds p user rel_name (ty +:+ ":" +:+ i) → i ∈ fst found;
}.

Lemma traverse_after_colon ty l :
  str_in ":" ty = false → (∀ o, o ∈ l → obj_type o = ty ∧ str_in ":" o = true) →
  ∃ ids, traverse after_colon l = Ok ids ∧ l = (λ i, ty +:+ ":" +:+ i) <$> ids.
Proof.
  intros Hty. induction l as [|o l IH]; intros Hl; [by exists []|].
  destruct (Hl o) as [Ho Hc]; [by left|]. destruct (object_split o Hc) as (i & Hi & _). rewrite Ho in Hi.
  destruct IH as (ids & Hids & Heq); [intros o' Ho'; apply Hl; by right|]. subst o. exists (i :: ids).
  simpl. rewrite after_colon_of by done. simpl. rewrite Hids. csimpl. by rewrite Heq.
Qed.

Lemma holds_colon p user rel_name o :
  bounded (ap_tuples p) → holds p user rel_name o → str_in ":" o = true.
Proof.
  intros Hb Hh. destruct (derives_tuple_on _ _ _ _ _ Hh) as [r' Hr].
  apply set_choose_L in Hr as [u Hu]. by destruct (Hb _ _ _ Hu) as (_ & ? & _).
Qed.

Lemma list_spec p user rel_name ty :
  ap_ok p → ap_up p = true → bounded (ap_tuples p) → (max_listed ≤ ap_max p)%nat →
  str_in ":" ty = false →
  ∃ found, list_ max_listed user rel_name ty p = (Ok found, p) ∧ listing_ok p user rel_name ty found.
Proof.
  intros Hok Hup Hb Hmax Hty. unfold list_, bind, lift.
  destruct (law_list_objects p user rel_name ty Hok) as (l & -> & _ & Hs & Hc). rewrite Hup.
  destruct (traverse_after_colon ty (take max_listed l) Hty) as (ids & -> & Hids).
  { intros o Ho. assert (o ∈ l) as Hl by (by eapply subseteq_take). destruct (Hs o Hl) as [? Hh].
    split; [done|by eapply holds_colon]. }
  eexists. split; [done|]. split; simpl.
  - intros i Hi. apply Hs. eapply subseteq_take. rewrite Hids. apply list_elem_of_fmap. by exists i.
  - intros i Hover Hh. apply Nat.ltb_ge in Hover. rewrite take_ge in Hids by done.
    assert (ty +:+ ":" +:+ i ∈ l) as Hin.
    { apply Hc; [lia|by apply obj_type_of|done]. }
    rewrite Hids in Hin. apply list_elem_of_fmap in Hin as (j & Hj & Hin).
    apply str_app_cancel_l, str_app_cancel_l in Hj. by subst.
Qed.

Definition listed (p : P) (x : string * (string * string)) (y : string * (list string * bool)) : Prop :=
  fst y = snd (snd x) ∧ listing_ok p (fst x) (fst (snd x)) (snd (snd x)) (snd y).

Lemma list_all p queries :
  ap_ok p → ap_up p = true → bounded (ap_tuples p) → (max_listed ≤ ap_max p)%nat →
  (∀ s l, (s, l) ∈ queries → l ∈ LISTINGS) →
  ∃ results, mapM (query max_listed) queries p = (Ok results, p) ∧ Forall2 (listed p) queries results.
Proof.
  intros Hok Hup Hb Hmax Hq. induction queries as [|[s [r ty]] queries IH]; [by exists []|].
  assert (str_in ":" ty = false) as Hty.
  { specialize (Hq s (r, ty) ltac:(by left)). unfold LISTINGS in Hq.
    repeat (apply elem_of_cons in Hq as [[= _ ->]|Hq]; [done|]). by apply elem_of_nil in Hq. }
  destruct (list_spec p s r ty Hok Hup Hb Hmax Hty) as (found & Hf & Hlo).
  destruct IH as (results & Hm & HF); [intros s' l' Hin; apply (Hq s'); by right|].
  exists ((ty, found) :: results). split; [|by constructor].
  assert (query max_listed (s, (r, ty)) p = (Ok (ty, found), p)) as Hone
    by (unfold query, bind; by rewrite Hf).
  cbn [mapM]. unfold bind. by rewrite Hone, Hm.
Qed.

Lemma elem_queries ctx s l : (s, l) ∈ queries ctx ↔ s ∈ subjects ctx ∧ l ∈ LISTINGS.
Proof.
  unfold queries. rewrite list_elem_of_bind. split.
  - intros (s' & Hin & Hs). by apply list_elem_of_fmap in Hin as (l' & [= -> ->] & ?).
  - intros [Hs Hl]. exists s. split; [|done]. apply list_elem_of_fmap. by exists l.
Qed.

Lemma elem_sink results kind x :
  x ∈ sink results kind ↔ ∃ ids over, (kind, (ids, over)) ∈ results ∧ x ∈ ids.
Proof.
  unfold sink. rewrite elem_of_fromkeys, list_elem_of_bind. split.
  - intros ([k [ids over]] & Hx & Hin). simpl in Hx.
    destruct (String.eqb_spec k kind) as [->|]; [by exists ids, over|by apply elem_of_nil in Hx].
  - intros (ids & over & Hin & Hx). exists (kind, (ids, over)). simpl. by rewrite String.eqb_refl.
Qed.

Lemma elem_own t items i : i ∈ own t items ↔ object_id t i ∈ items.
Proof.
  unfold own, object_id. rewrite elem_of_str_sorted, list_elem_of_omap. split.
  - intros (x & Hx & Hs). apply strip_prefix_Some in Hs as ->. by rewrite str_app_assoc in Hx.
  - intros Hx. eexists. split; [done|]. rewrite <- str_app_assoc. apply strip_prefix_app.
Qed.

(** The object a scope names under a kind, and who may have it there. *)
Definition subject_holds (p : P) (ctx : MemoryExecutionContext) (rel_name obj : string) : Prop :=
  ∃ s, s ∈ subjects ctx ∧ holds p s rel_name obj.

Lemma resolve_kind p ctx results rel_name kind i :
  Forall2 (listed p) (queries ctx) results →
  (rel_name, kind) ∈ LISTINGS → (∀ r', (r', kind) ∈ LISTINGS → r' = rel_name) →
  (i ∈ own (tenant_id ctx) (sink results kind) →
     subject_holds p ctx rel_name (kind +:+ ":" +:+ object_id (tenant_id ctx) i)) ∧
  (existsb (λ x, snd (snd x)) results = false →
     subject_holds p ctx rel_name (kind +:+ ":" +:+ object_id (tenant_id ctx) i) →
     i ∈ own (tenant_id ctx) (sink results kind)).
Proof.
  intros HF Hl Hu. rewrite elem_own, elem_sink. split.
  - intros (ids & over & Hin & Hi). apply list_elem_of_lookup in Hin as [n Hn].
    destruct (Forall2_lookup_r _ _ _ _ _ HF Hn) as ([s [r ty]] & Hq & Hty & Hlo). simpl in *. subst ty.
    apply list_elem_of_lookup_2, elem_queries in Hq as [Hs Hq]. apply Hu in Hq as ->.
    exists s. split; [done|]. by apply (lo_sound _ _ _ _ _ Hlo).
  - intros Hover (s & Hs & Hh).
    assert ((s, (rel_name, kind)) ∈ queries ctx) as Hq by by apply elem_queries.
    apply list_elem_of_lookup in Hq as [n Hn].
    destruct (Forall2_lookup_l _ _ _ _ _ HF Hn) as ([k [ids over]] & Hr & Hk & Hlo). simpl in *. subst k.
    apply list_elem_of_lookup_2 in Hr. exists ids, over. split; [done|].
    apply (lo_complete _ _ _ _ _ Hlo); [|done]. simpl.
    destruct over; [|done]. exfalso. apply not_true_iff_false in Hover. apply Hover, existsb_exists.
    exists (kind, (ids, true)). split; [by apply list_elem_of_In|done].
Qed.
End resolver_lemmas.

(** ** Properties *)

(** A resolved scope is exact. With the provider up, [resolve] answers a
    scope for the context's tenant and principal, of objects of that tenant
    alone, and changes nothing: every thread and document it lists is one the
    principal, or the user its agent acts for, can read, every workspace one
    they can view; and unless it is marked truncated it lists all of them. *)
Theorem resolve_exact {P} `{AuthorizationLaws P} max_listed (p : P) (ctx : MemoryExecutionContext) :
  ap_ok p → ap_up p = true → bounded (ap_tuples p) → (max_listed ≤ ap_max p)%nat →
  ∃ s, resolve max_listed ctx p = (Ok s, p) ∧
    s_tenant_id s = tenant_id ctx ∧ s_principal s = principal_id ctx ∧ s_user_id s = user_id ctx ∧
    (∀ i, (i ∈ thread_ids s → subject_holds p ctx "can_read" ("thread:" +:+ object_id (tenant_id ctx) i)) ∧
          (i ∈ document_ids s → subject_holds p ctx "can_read" ("document:" +:+ object_id (tenant_id ctx) i)) ∧
          (i ∈ workspace_ids s → subject_holds p ctx "viewer" ("workspace:" +:+ object_id (tenant_id ctx) i))) ∧
    (truncated s = false → ∀ i,
          (subject_holds p ctx "can_read" ("thread:" +:+ object_id (tenant_id ctx) i) → i ∈ thread_ids s) ∧
          (subject_holds p ctx "can_read" ("document:" +:+ object_id (tenant_id ctx) i) → i ∈ document_ids s) ∧
          (subject_holds p ctx "viewer" ("workspace:" +:+ object_id (tenant_id ctx) i) → i ∈ workspace_ids s)).
Proof.
  intros Hok Hup Hb Hmax.
  destruct (list_all max_listed p (queries ctx) Hok Hup Hb Hmax)
    as (results & Hm & HF).
  { by intros s l [_ ?]%elem_queries. }
  unfold resolve, bind at 1. rewrite Hm. eexists. split; [done|].
  split; [done|]. split; [done|]. split; [done|].
  assert (∀ rel_name kind, (rel_name, kind) ∈ LISTINGS →
    ∀ r', (r', kind) ∈ LISTINGS → r' = rel_name) as Hu.
  { intros rn k H1 r' H2. unfold LISTINGS in *. set_solver. }
  assert (("can_read", "thread") ∈ LISTINGS) as L1 by (unfold LISTINGS; set_solver).
  assert (("can_read", "document") ∈ LISTINGS) as L2 by (unfold LISTINGS; set_solver).
  assert (("viewer", "workspace") ∈ LISTINGS) as L3 by (unfold LISTINGS; set_solver).
  assert (∀ i, _ ∧ _ ∧ _) as Hk by exact (λ i, conj
    (resolve_kind p ctx results "can_read" "thread" i HF L1 (Hu _ _ L1)) (conj
    (resolve_kind p ctx results "can_read" "document" i HF L2 (Hu _ _ L2))
    (resolve_kind p ctx results "viewer" "workspace" i HF L3 (Hu _ _ L3)))).
  split; [intros i|intros Ht i]; destruct (Hk i) as ([A1 A2] & [B1 B2] & [C1 C2]); split_and!; auto.
Qed.

(** ** Lemmas: tuples the model takes *)

Definition direct_ok (ty r uref : string) : bool :=
  match MODEL !! ty with
  | Some td => match relations td !! r with
               | Some rl => bool_decide (uref ∈ direct rl)
               | None => false
               end
  | None => false
  end.

Lemma validate_direct u r o ty uref :
  obj_type o = ty → user_ref u = uref → direct_ok ty r uref = true → validate MODEL (mk_tuple u r o) = None.
Proof.
  intros <- <-. unfold direct_ok, validate, mk_tuple. simpl.
  destruct (MODEL !! obj_type o) as [td|]; [|done]. destruct (relations td !! r); [|done].
  intros H%bool_decide_eq_true. by rewrite decide_True.
Qed.

Lemma user_ref_plain k i : str_in ":" k = false → str_in "#" k = false → str_in "#" i = false →
  user_ref (k +:+ String ":" i) = k.
Proof.
  intros H1 H2 H3. unfold user_ref, split_userset. rewrite str_partition_app by done.
  rewrite str_partition_none; [done|]. rewrite str_in_app. simpl. by rewrite H2, H3.
Qed.

Lemma split_userset_plain k i : str_in "#" k = false → str_in "#" i = false →
  split_userset (k +:+ String ":" i) = None.
Proof.
  intros H2 H3. unfold split_userset. rewrite str_partition_none; [done|].
  rewrite str_in_app. simpl. by rewrite H2, H3.
Qed.

Lemma obj_type_str ty i : str_in ":" ty = false → obj_type (ty +:+ String ":" i) = ty.
Proof. apply obj_type_of. Qed.

Lemma tenant_of_object ty t i :
  str_in ":" ty = false → ty ≠ "tenant" → str_in "/" t = false →
  tenant_of (ty +:+ String ":" (object_id t i)) = t.
Proof.
  intros Hty Hne Ht. unfold tenant_of, split_object. rewrite str_partition_app by done.
  rewrite (proj2 (String.eqb_neq _ _) Hne). unfold object_id.
  change (t +:+ "/" +:+ i) with (t +:+ String "/" i). by rewrite str_partition_app.
Qed.

Lemma tenant_of_tenant t : tenant_of ("tenant" +:+ String ":" t) = t.
Proof. unfold tenant_of, split_object. by rewrite str_partition_app. Qed.

Lemma object_id_no_hash t i : str_in "#" t = false → str_in "#" i = false → str_in "#" (object_id t i) = false.
Proof. intros Ht Hi. unfold object_id. rewrite str_in_app, Ht. simpl. exact Hi. Qed.

Lemma valid_id_no_hash v : is_valid_id v = true → str_in "#" v = false.
Proof. intros H. by eapply valid_id_no_char. Qed.

(** A tuple of a tenant: taken by the model, bounded, on one of its objects. *)
Record tenant_tuple (t : string) (x : RelationTuple) : Prop := {
  tt_valid : validate MODEL x = None;
  tt_bounded : bounded_tuple x;
  tt_tenant : tenant_of (t_object x) = t;
}.

(** A tuple that gives a user or an agent a relation on an object. *)
Lemma tenant_tuple_user t k u r ty i :
  k ∈ ["user"; "agent"] → str_in "#" u = false → is_valid_id t = true →
  ty ∈ ["workspace"; "thread"; "document"; "memory"] → direct_ok ty r k = true → r ∉ LINKS →
  tenant_tuple t (mk_tuple (k +:+ String ":" u) r (ty +:+ String ":" (object_id t i))).
Proof.
  intros Hk Hu Ht Hty Hd Hr.
  assert (str_in ":" k = false ∧ str_in "#" k = false) as [Hk1 Hk2].
  { repeat (apply elem_of_cons in Hk as [->|Hk]; [done|]). by apply elem_of_nil in Hk. }
  assert (str_in ":" ty = false ∧ ty ≠ "tenant") as [Hty1 Hty2].
  { repeat (apply elem_of_cons in Hty as [->|Hty]; [done|]). by apply elem_of_nil in Hty. }
  split.
  - eapply validate_direct; [by apply obj_type_str|by apply user_ref_plain|done].
  - split; [by apply split_userset_plain|]. split; [|done]. simpl.
    rewrite str_in_app. simpl. by rewrite orb_true_r.
  - simpl. apply tenant_of_object; auto with svc.
Qed.

(** A tuple that links an object to its tenant, workspace or thread. *)
Lemma tenant_tuple_link t uo r ty i :
  is_valid_id t = true → split_userset uo = None → tenant_of uo = t →
  ty ∈ ["workspace"; "thread"; "document"; "memory"] → direct_ok ty r (user_ref uo) = true →
  tenant_tuple t (mk_tuple uo r (ty +:+ String ":" (object_id t i))).
Proof.
  intros Ht Hs Hto Hty Hd.
  assert (str_in ":" ty = false ∧ ty ≠ "tenant") as [Hty1 Hty2].
  { repeat (apply elem_of_cons in Hty as [->|Hty]; [done|]). by apply elem_of_nil in Hty. }
  split.
  - eapply validate_direct; [by apply obj_type_str|done|done].
  - split; [done|]. simpl. split.
    + rewrite str_in_app. simpl. by rewrite orb_true_r.
    + intros _. rewrite Hto. symmetry. apply tenant_of_object; auto with svc.
  - simpl. apply tenant_of_object; auto with svc.
Qed.

Lemma tenant_tuple_tenant t r ty i :
  is_valid_id t = true → ty ∈ ["workspace"; "thread"; "document"; "memory"] →
  direct_ok ty r "tenant" = true →
  tenant_tuple t (mk_tuple ("tenant:" +:+ t) r (ty +:+ ":" +:+ object_id t i)).
Proof.
  intros Ht Hty Hd. apply (tenant_tuple_link t ("tenant" +:+ String ":" t)); [done| | |done|].
  - apply split_userset_plain; [done|by apply valid_id_no_hash].
  - apply tenant_of_tenant.
  - rewrite user_ref_plain; [done|done|done|by apply valid_id_no_hash].
Qed.

Lemma tenant_tuple_object t uk uid r ty i :
  is_valid_id t = true → str_in "#" uid = false → uk ∈ ["workspace"; "thread"] →
  ty ∈ ["workspace"; "thread"; "document"; "memory"] → direct_ok ty r uk = true →
  tenant_tuple t (mk_tuple (uk +:+ ":" +:+ object_id t uid) r (ty +:+ ":" +:+ object_id t i)).
Proof.
  intros Ht Hu Huk Hty Hd.
  assert (str_in ":" uk = false ∧ str_in "#" uk = false ∧ uk ≠ "tenant") as (Hk1 & Hk2 & Hk3).
  { repeat (apply elem_of_cons in Huk as [->|Huk]; [done|]). by apply elem_of_nil in Huk. }
  assert (str_in "#" (object_id t uid) = false) as Ho
    by (apply object_id_no_hash; [by apply valid_id_no_hash|done]).
  apply (tenant_tuple_link t (uk +:+ String ":" (object_id t uid))); [done| | |done|].
  - by apply split_userset_plain.
  - apply tenant_of_object; auto with svc.
  - by rewrite user_ref_plain.
Qed.

Lemma opt_tuple_all (Q : RelationTuple → Prop) o f :
  (∀ x, o = Some x → x ≠ "" → Q (f x)) → Forall Q (opt_tuple o f).
Proof.
  intros Hf. destruct o as [x|]; simpl; [|constructor]. destruct (truthy x) eqn:E; [|constructor].
  constructor; [|constructor]. apply Hf; [done|]. by apply truthy_spec.
Qed.

(** The principal of an agent, or of a user, as a subject of the model. *)
Lemma principal_subject ctx :
  valid_context ctx → agent_id ctx ≠ None ∨ user_id ctx ≠ None →
  ∃ k i, principal_id ctx = k +:+ String ":" i ∧ str_in "#" i = false ∧
         k = (if is_agent ctx then "agent" else "user").
Proof.
  intros Hv Hsome.
  assert (validate_optional_id (user_id ctx) = true) as Hu by ctx_field.
  assert (validate_optional_id (agent_id ctx) = true) as Ha by ctx_field.
  unfold principal_id, is_agent.
  destruct (agent_id ctx) as [a|], (user_id ctx) as [u|]; cbn [validate_optional_id] in *.
  - exists "agent", (u +:+ String "/" a). split; [done|]. split; [|done].
    rewrite str_in_app. simpl. by rewrite !valid_id_no_hash.
  - exists "agent", a. by rewrite valid_id_no_hash.
  - exists "user", u. by rewrite valid_id_no_hash.
  - naive_solver.
Qed.

Section grant_lemmas.
Context (ctx : MemoryExecutionContext) (Hv : valid_context ctx).
Let t : string := tenant_id ctx.

Lemma ctx_tenant_valid : is_valid_id t = true.
Proof. by apply valid_context_tenant. Qed.

Lemma thread_tuples_ok th w :
  validate_optional_id w = true → Forall (tenant_tuple t) (thread_tuples ctx th w).
Proof.
  intros Hw. pose proof ctx_tenant_valid as Ht.
  assert (validate_optional_id (user_id ctx) = true) as Hu by ctx_field.
  unfold thread_tuples. fold t. apply Forall_app. split; [|apply Forall_app; split; [|apply Forall_app; split]].
  - constructor; [|done]. apply (tenant_tuple_tenant t "tenant" "thread"); [done|set_solver|by vm_compute].
  - apply opt_tuple_all. intros x -> _. apply (tenant_tuple_object t "workspace" x "workspace" "thread");
      [done|by apply valid_id_no_hash|set_solver|set_solver|by vm_compute].
  - apply opt_tuple_all. intros x Hx _. rewrite Hx in Hu.
    apply (tenant_tuple_user t "user" x "owner" "thread");
      [set_solver|by apply valid_id_no_hash|done|set_solver|by vm_compute|unfold LINKS; set_solver].
  - destruct (is_agent ctx) eqn:Ha; [|done]. constructor; [|done].
    destruct (principal_subject ctx Hv) as (k & i & -> & Hi & ->).
    { left. unfold is_agent in Ha. apply bool_decide_eq_true in Ha as [a ->]. done. }
    rewrite Ha. apply (tenant_tuple_user t "agent" i "participant" "thread");
      [set_solver|done|done|set_solver|by vm_compute|unfold LINKS; set_solver].
Qed.

Lemma document_tuples_ok d th w :
  validate_optional_id th = true → validate_optional_id w = true →
  Forall (tenant_tuple t) (document_tuples ctx d th w).
Proof.
  intros Hth Hw. pose proof ctx_tenant_valid as Ht.
  assert (validate_optional_id (user_id ctx) = true) as Hu by ctx_field.
  unfold document_tuples. fold t. apply Forall_app. split; [|apply Forall_app; split; [|apply Forall_app; split]].
  - constructor; [|done]. apply (tenant_tuple_tenant t "tenant" "document"); [done|set_solver|by vm_compute].
  - apply opt_tuple_all. intros x Hx _. rewrite Hx in Hu.
    apply (tenant_tuple_user t "user" x "owner" "document");
      [set_solver|by apply valid_id_no_hash|done|set_solver|by vm_compute|unfold LINKS; set_solver].
  - apply opt_tuple_all. intros x -> _. apply (tenant_tuple_object t "thread" x "thread" "document");
      [done|by apply valid_id_no_hash|set_solver|set_solver|by vm_compute].
  - apply opt_tuple_all. intros x -> _. apply (tenant_tuple_object t "workspace" x "workspace" "document");
      [done|by apply valid_id_no_hash|set_solver|set_solver|by vm_compute].
Qed.

(** The owner a memory is granted to: given, or the context's principal. *)
Definition owner_ok (owner : option string) : Prop :=
  (∃ k i, owner = Some (k +:+ String ":" i) ∧ k ∈ ["user"; "agent"] ∧ str_in "#" i = false) ∨
  (otruthy owner = false ∧ (agent_id ctx ≠ None ∨ user_id ctx ≠ None)).

Lemma memory_tuples_ok m owner : owner_ok owner → Forall (tenant_tuple t) (memory_tuples ctx m owner).
Proof.
  intros Ho. pose proof ctx_tenant_valid as Ht. unfold memory_tuples. fold t. constructor;
    [apply (tenant_tuple_tenant t "tenant" "memory"); [done|set_solver|by vm_compute]|constructor; [|done]].
  assert (∃ k i, or_str owner (principal_id ctx) = k +:+ String ":" i ∧ k ∈ ["user"; "agent"] ∧
    str_in "#" i = false) as (k & i & -> & Hk & Hi).
  { destruct Ho as [(k & i & -> & Hk & Hi)|[Hn Hs]].
    - exists k, i. split; [|done]. simpl. by destruct k.
    - destruct (principal_subject ctx Hv Hs) as (k & i & Hp & Hi & ->).
      exists (if is_agent ctx then "agent" else "user"), i. rewrite <- Hp.
      split; [|split; [destruct (is_agent ctx); set_solver|done]].
      destruct owner as [o|]; [|done]. simpl in *. by rewrite Hn. }
  apply (tenant_tuple_user t k i "owner" "memory"); [done|done|done|set_solver| |unfold LINKS; set_solver].
  repeat (apply elem_of_cons in Hk as [->|Hk]; [by vm_compute|]). by apply elem_of_nil in Hk.
Qed.
End grant_lemmas.

(** ** Every grant, as one operation *)

Inductive grant : Type :=
| GThread (ctx : MemoryExecutionContext) (thread_id : string) (workspace_id : option string)
| GDocument (ctx : MemoryExecutionContext) (document_id : string) (thread_id workspace_id : option string)
| GMemory (ctx : MemoryExecutionContext) (memory_id : string) (owner : option string)
| GMembership (tenant_id user_id : string) (admin : bool)
| GWorkspace (tenant_id workspace_id : string)
| GSetMember (tenant_id workspace_id principal : string) (role : MemberRole) (previous : option MemberRole)
| GRevokeMember (tenant_id workspace_id principal : string).

Definition grant_tenant (g : grant) : string :=
  match g with
  | GThread ctx _ _ | GDocument ctx _ _ _ | GMemory ctx _ _ => tenant_id ctx
  | GMembership t _ _ | GWorkspace t _ | GSetMember t _ _ _ _ | GRevokeMember t _ _ => t
  end.

Definition run_grant {P C} `{AuthorizationLaws P} (g : grant) (with_revisions : bool) :
    prog (authz_state P C) unit :=
  match g with
  | GThread ctx th w => grant_thread ctx th w with_revisions
  | GDocument ctx d th w => grant_document ctx d th w with_revisions
  | GMemory ctx m o => grant_memory ctx m o with_revisions
  | GMembership t u a => grant_membership t u a with_revisions
  | GWorkspace t w => grant_workspace t w
  | GSetMember t w p r prev => set_workspace_member t w p r prev with_revisions
  | GRevokeMember t w p => revoke_workspace_member t w p with_revisions
  end.

(** What the callers check before a grant. *)
Definition grant_ok (g : grant) : Prop :=
  match g with
  | GThread ctx _ w => valid_context ctx ∧ validate_optional_id w = true
  | GDocument ctx _ th w =>
      valid_context ctx ∧ validate_optional_id th = true ∧ validate_optional_id w = true
  | GMemory ctx _ o => valid_context ctx ∧ owner_ok ctx o
  | GMembership t u _ => is_valid_id t = true ∧ is_valid_id u = true
  | GWorkspace t _ => is_valid_id t = true
  | GSetMember t _ p r _ => is_valid_id t = true ∧
      ∃ k i, parse_principal p = Ok (k, i) ∧ (r = admin → k = "user")
  | GRevokeMember t _ p => is_valid_id t = true ∧ ∃ k i, parse_principal p = Ok (k, i)
  end.

(** The tuples a grant adds and deletes. *)
Definition grant_adds (g : grant) : list RelationTuple :=
  match g with
  | GThread ctx th w => thread_tuples ctx th w
  | GDocument ctx d th w => document_tuples ctx d th w
  | GMemory ctx m o => memory_tuples ctx m o
  | GMembership t u a =>
      [mk_tuple ("user:" +:+ u) (if a then "admin" else "member") ("tenant:" +:+ t)]
  | GWorkspace t w => [mk_tuple ("tenant:" +:+ t) "tenant" (workspace_object t w)]
  | GSetMember t w p r _ => [mk_tuple p (role_name r) (workspace_object t w)]
  | GRevokeMember _ _ _ => []
  end.

Definition grant_dels (g : grant) : list RelationTuple :=
  match g with
  | GSetMember t w p r (Some prev) =>
      if decide (prev = r) then [] else [mk_tuple p (role_name prev) (workspace_object t w)]
  | GRevokeMember t w p => (λ r, mk_tuple p (role_name r) (workspace_object t w)) <$> WORKSPACE_ROLES
  | _ => []
  end.

Lemma member_subject_ok p k i : parse_principal p = Ok (k, i) → member_subject p = Ok (p, i).
Proof.
  intros Hp. unfold member_subject. rewrite Hp. simpl. by apply parse_principal_ok in Hp as (-> & _).
Qed.

Lemma grant_adds_ok g : grant_ok g → Forall (tenant_tuple (grant_tenant g)) (grant_adds g).
Proof.
  destruct g as [ctx th w|ctx d th w|ctx m o|t u a|t w|t w p r prev|t w p]; simpl.
  - intros [? ?]. by apply thread_tuples_ok.
  - intros (? & ? & ?). by apply document_tuples_ok.
  - intros [? ?]. by apply memory_tuples_ok.
  - intros [Ht Hu]. constructor; [|done]. split.
    + eapply (validate_direct _ _ _ "tenant" "user"); [by apply (obj_type_str "tenant")| |by destruct a; vm_compute].
      apply (user_ref_plain "user"); [done|done|by apply valid_id_no_hash].
    + split; [apply (split_userset_plain "user"); [done|by apply valid_id_no_hash]|].
      split; [done|]. simpl. destruct a; unfold LINKS; set_solver.
    + apply tenant_of_tenant.
  - intros Ht. constructor; [|done].
    apply (tenant_tuple_tenant t "tenant" "workspace"); [done|set_solver|by vm_compute].
  - intros (Ht & k & i & Hp & Hr). constructor; [|done].
    apply parse_principal_ok in Hp as (-> & Hk & Hi).
    apply (tenant_tuple_user t k i (role_name r) "workspace"); [done|by apply valid_id_no_hash|done|set_solver| |].
    + unfold PRINCIPAL_KINDS in Hk.
      repeat (apply elem_of_cons in Hk as [->|Hk]; [destruct r; try (by vm_compute); by specialize (Hr eq_refl)|]).
      by apply elem_of_nil in Hk.
    + destruct r; unfold LINKS; set_solver.
  - done.
Qed.

Section run_grant_lemmas.
Context {P C : Type} `{AuthorizationLaws P} `{CacheProvider C}.
Implicit Types s : authz_state P C.

Lemma on_provider_write add del s :
  ap_ok (az_provider s) → Forall (λ t, validate MODEL t = None) add →
  ∃ r p', on_provider (ap_write add del) s = (r, set_az_provider p' s) ∧ ap_ok p' ∧
    ap_up p' = ap_up (az_provider s) ∧ wrote r add del (az_provider s) p' ∧
    r = fst (ap_write add del (az_provider s)).
Proof.
  intros Hok Hadd. unfold on_provider, zoom.
  destruct (law_write (az_provider s) add del Hok Hadd) as (r & p' & -> & ? & ? & ? & ?). eauto 10.
Qed.

Lemma bump_membership_provider t wr ids s :
  ∃ r', bump_membership t wr ids s = (Ok tt, set_az_revisions r' s).
Proof.
  unfold bump_membership. destruct wr.
  - unfold on_revisions, zoom.
    pose proof (bump_all_value t ((λ o, (RMembership, o)) <$> fromkeys ("" :: ids)) (az_revisions s)
      (RMembership, "")) as Hb.
    assert (∀ l r, fst (mapM_ (λ o, bind (bump t RMembership o) (λ _, ret tt)) l r) = Ok tt) as Hall.
    { induction l as [|o l IH]; intros r; [done|]. simpl. unfold bind at 1. apply IH. }
    specialize (Hall (fromkeys ("" :: ids)) (az_revisions s)).
    destruct (mapM_ _ _ _) as [o r']. simpl in Hall. subst o. eauto.
  - exists (az_revisions s). by destruct s.
Qed.

(** A grant writes its tuples and touches nothing else of the store; when the write
    raises, so does the grant. *)
Lemma run_grant_spec g wr s :
  ap_ok (az_provider s) → grant_ok g →
  ∃ r s', run_grant g wr s = (r, s') ∧ ap_ok (az_provider s') ∧ ap_up (az_provider s') = ap_up (az_provider s) ∧
    wrote r (grant_adds g) (grant_dels g) (az_provider s) (az_provider s') ∧
    r = fst (ap_write (grant_adds g) (grant_dels g) (az_provider s)).
Proof.
  intros Hok Hg.
  assert (Forall (λ t, validate MODEL t = None) (grant_adds g)) as Hadd.
  { eapply Forall_impl; [by apply grant_adds_ok|]. by intros t []. }
  assert (∀ t ids, ∃ r s', bind (on_provider (ap_write (grant_adds g) (grant_dels g)))
      (λ _, bump_membership t wr ids) s = (r, s') ∧ ap_ok (az_provider s') ∧
    ap_up (az_provider s') = ap_up (az_provider s) ∧
    wrote r (grant_adds g) (grant_dels g) (az_provider s) (az_provider s') ∧
    r = fst (ap_write (grant_adds g) (grant_dels g) (az_provider s))) as Hrun.
  { intros t ids. destruct (on_provider_write (grant_adds g) (grant_dels g) s Hok Hadd)
      as (r & p' & Hw & Hok' & Hup & Hst & Hr).
    destruct (bump_membership_provider t wr ids (set_az_provider p' s)) as (r' & Hb).
    unfold bind. rewrite Hw. destruct r as [[]|e]; [rewrite Hb|]; by eexists _, _. }
  destruct g as [ctx th w|ctx d th w|ctx m o|t u a|t w|t w p r prev|t w p]; try apply Hrun.
  - destruct (on_provider_write _ [] s Hok Hadd) as (r & p' & Hw & Hok' & Hup & Hst & Hr).
    eexists _, _. split; [exact Hw|]. done.
  - destruct Hg as (_ & k & i & Hp & _). cbn [run_grant]. unfold set_workspace_member, lift, bind at 1.
    rewrite (member_subject_ok _ _ _ Hp). specialize (Hrun t [i]). by destruct prev.
  - destruct Hg as (_ & k & i & Hp). cbn [run_grant]. unfold revoke_workspace_member, lift, bind at 1.
    rewrite (member_subject_ok _ _ _ Hp). apply Hrun.
Qed.

(** With a provider whose writes do not fail. *)
Lemma run_grant_reliable `{!AuthorizationReliable P} g wr s :
  ap_ok (az_provider s) → grant_ok g →
  ∃ s', run_grant g wr s = (Ok tt, s') ∧ ap_ok (az_provider s') ∧
    ∀ t, stored (az_provider s') t ↔ t ∈ grant_adds g ∨ (t ∉ grant_dels g ∧ stored (az_provider s) t).
Proof.
  intros Hok Hg. destruct (run_grant_spec g wr s Hok Hg) as (r & s' & Hrun & Hok' & _ & Hw & Hr).
  rewrite reliable_write in Hr by (done || (eapply Forall_impl; [by apply grant_adds_ok|]; by intros t [])).
  subst r. by exists s'.
Qed.
End run_grant_lemmas.

Lemma object_tenant_workspace t w : is_valid_id t = true → tenant_of (workspace_object t w) = t.
Proof.
  intros Ht. apply (tenant_of_object "workspace"); [done|done|by apply valid_id_no_slash].
Qed.

(** What the grants of a history leave in the store. *)
Section history.
Context {P C : Type} `{AuthorizationLaws P} `{CacheProvider C}.

Inductive history (s0 : authz_state P C) : list grant → authz_state P C → Prop :=
| history_start : history s0 [] s0
| history_grant gs s g wr : history s0 gs s → grant_ok g →
    history s0 (gs ++ [g]) (snd (run_grant g wr s)).

Record empty_store (s : authz_state P C) : Prop := {
  es_ok : ap_ok (az_provider s);
  es_up : ap_up (az_provider s) = true;
  es_none t : ¬ stored (az_provider s) t;
}.

Lemma bounded_stored (p : P) : bounded (ap_tuples p) ↔ ∀ t, stored p t → bounded_tuple t.
Proof.
  split; intros Hb.
  - intros [u r o] Ht. by apply (Hb u r o).
  - intros u r o Hu. by apply (Hb (mk_tuple u r o)).
Qed.

Lemma history_spec s0 gs s :
  empty_store s0 → history s0 gs s →
  ap_ok (az_provider s) ∧ ap_up (az_provider s) = true ∧
  ∀ t, stored (az_provider s) t → bounded_tuple t ∧
    ∃ g, g ∈ gs ∧ t ∈ grant_adds g ∧ tenant_of (t_object t) = grant_tenant g.
Proof.
  intros [Hok Hup Hno]. induction 1 as [|gs s g wr _ (Hok' & Hup' & Hst) Hg].
  - split_and!; [done|done|]. intros t Ht. by destruct (Hno t).
  - destruct (run_grant_spec g wr s Hok' Hg) as (r & s' & -> & Hok'' & Hup'' & Hst' & _). simpl.
    split_and!; [done|congruence|]. intros t [Ht|Ht]%(wrote_added _ _ _ _ _ _ Hst').
    + pose proof (grant_adds_ok g Hg) as Hall. rewrite Forall_forall in Hall.
      destruct (Hall t Ht) as [_ Hb Htn]. split; [done|]. exists g. split; [set_solver|done].
    + destruct (Hst t Ht) as (Hb & g' & Hin & Ht' & Htn). split; [done|]. exists g'. set_solver.
Qed.

Lemma allowed_eq (s : authz_state P C) ctx relation ty ident :
  ap_ok (az_provider s) → ap_up (az_provider s) = true →
  ∃ b s', allowed ctx relation ty ident s = (Ok b, s') ∧
    ap_tuples (az_provider s') = ap_tuples (az_provider s) ∧
    (b = true ↔ subject_holds (az_provider s) ctx relation (ty +:+ ":" +:+ object_id (tenant_id ctx) ident)).
Proof.
  intros Hok Hup. unfold allowed, on_provider, zoom, bind.
  destruct (law_batch (az_provider s) ((λ s0, (s0, relation, ty +:+ ":" +:+ object_id (tenant_id ctx) ident))
    <$> subjects ctx) Hok) as (bs & p' & -> & [Htup _ _ _] & HF).
  rewrite Hup. eexists _, _. split; [done|]. split; [done|].
  rewrite existsb_exists. unfold subject_holds. split.
  - intros (b & Hb & Hbt). apply list_elem_of_In, list_elem_of_lookup in Hb as [n Hn].
    destruct (Forall2_lookup_l _ _ _ _ _ HF Hn) as ([[u r] o] & Hx & Hu).
    apply list_elem_of_lookup_2, list_elem_of_fmap in Hx as (s1 & [= -> -> ->] & Hs1).
    exists s1. split; [done|]. apply Hu. by destruct b.
  - intros (s1 & Hs1 & Hh). apply list_elem_of_lookup in Hs1 as [n Hn].
    assert (((λ s0, (s0, relation, ty +:+ ":" +:+ object_id (tenant_id ctx) ident)) <$> subjects ctx) !! n
      = Some (s1, relation, ty +:+ ":" +:+ object_id (tenant_id ctx) ident)) as Hx
      by (rewrite list_lookup_fmap; by rewrite Hn).
    destruct (Forall2_lookup_r _ _ _ _ _ HF Hx) as (b & Hb & Hu).
    exists b. split; [apply list_elem_of_In; by eapply list_elem_of_lookup_2|]. unfold id. by apply Hu.
Qed.
End history.

(** C2: tenants are isolated. After any history of grants from an empty store,
    a decision on an object of the context's tenant is yes only if a grant made
    in that same tenant names the context's principal, or the user its agent
    acts for; whatever was granted to them in other tenants, and whatever the
    same user id means there. *)
Theorem tenant_isolation {P C} `{AuthorizationLaws P} `{CacheProvider C} (s0 s : authz_state P C) gs
    ctx relation ty ident :
  empty_store s0 → history s0 gs s → valid_context ctx →
  ty ∈ ["workspace"; "thread"; "document"; "memory"] →
  ∃ b s', allowed ctx relation ty ident s = (Ok b, s') ∧
    (b = true → ∃ g t, g ∈ gs ∧ grant_tenant g = tenant_id ctx ∧ t ∈ grant_adds g ∧
                       t_user t ∈ subjects ctx).
Proof.
  intros He Hh Hv Hty. destruct (history_spec _ _ _ He Hh) as (Hok & Hup & Hst).
  destruct (allowed_eq s ctx relation ty ident Hok Hup) as (b & s' & Ha & _ & Hb).
  exists b, s'. split; [done|]. intros Htrue. apply Hb in Htrue as (u & Hu & Hhold).
  assert (bounded (ap_tuples (az_provider s))) as Hbd.
  { apply bounded_stored. intros t Ht. by apply Hst. }
  destruct (bounded_derives _ _ _ _ Hbd Hhold) as (r & o & Hto & Hin).
  destruct (Hst (mk_tuple u r o) Hin) as (_ & g & Hg & Hadd & Htn).
  exists g, (mk_tuple u r o). split_and!; [done| |done|done]. rewrite <- Htn. simpl. rewrite Hto.
  apply tenant_of_object.
  - repeat (apply elem_of_cons in Hty as [->|Hty]; [done|]). by apply elem_of_nil in Hty.
  - repeat (apply elem_of_cons in Hty as [->|Hty]; [done|]). by apply elem_of_nil in Hty.
  - by apply valid_id_no_slash, valid_context_tenant.
Qed.

(** A workspace member holds exactly one role. Setting a role with the role
    held before leaves that role alone; removing a member leaves none; and no
    tuple of any other principal, workspace or tenant changes. *)
Theorem member_role_exact {P C} `{AuthorizationLaws P} `{!AuthorizationReliable P} `{CacheProvider C} (s : authz_state P C)
    t w p role previous wr :
  ap_ok (az_provider s) → grant_ok (GSetMember t w p role previous) →
  (∀ r, stored (az_provider s) (mk_tuple p (role_name r) (workspace_object t w)) → Some r = previous) →
  let s1 := snd (set_workspace_member t w p role previous wr s) in
  let s2 := snd (revoke_workspace_member t w p wr s1) in
  fst (set_workspace_member t w p role previous wr s) = Ok tt ∧
  fst (revoke_workspace_member t w p wr s1) = Ok tt ∧
  (∀ r, stored (az_provider s1) (mk_tuple p (role_name r) (workspace_object t w)) ↔ r = role) ∧
  (∀ r, ¬ stored (az_provider s2) (mk_tuple p (role_name r) (workspace_object t w))) ∧
  (∀ u r o, u ≠ p ∨ o ≠ workspace_object t w →
     (stored (az_provider s1) (mk_tuple u r o) ↔ stored (az_provider s) (mk_tuple u r o)) ∧
     (stored (az_provider s2) (mk_tuple u r o) ↔ stored (az_provider s) (mk_tuple u r o))).
Proof.
  intros Hok Hg Hprev s1 s2.
  destruct (run_grant_reliable _ wr s Hok Hg) as (s1' & Hr1 & Hok1 & Hst1). cbn [run_grant] in Hr1.
  assert (grant_ok (GRevokeMember t w p)) as Hg2
    by (destruct Hg as (? & k & i & ? & _); split; eauto).
  destruct (run_grant_reliable _ wr s1' Hok1 Hg2) as (s2' & Hr2 & _ & Hst2). cbn [run_grant] in Hr2.
  unfold s2, s1. rewrite Hr1. simpl. rewrite Hr2. simpl. clear s1 s2.
  assert (∀ r r', role_name r = role_name r' → r = r') as Hinj by by intros [] [].
  assert (∀ u r o, mk_tuple u r o ∈ (grant_dels (GSetMember t w p role previous)) →
    u = p ∧ o = workspace_object t w ∧ ∃ r', previous = Some r' ∧ r' ≠ role ∧ r = role_name r') as Hdel.
  { intros u r o. simpl. destruct previous as [r'|]; [|by intros ?%elem_of_nil].
    destruct (decide (r' = role)); [by intros ?%elem_of_nil|].
    intros [= -> -> ->]%list_elem_of_singleton. naive_solver. }
  assert (∀ u r o, mk_tuple u r o ∈ grant_dels (GRevokeMember t w p) ↔
    u = p ∧ o = workspace_object t w ∧ ∃ r', r = role_name r') as Hdel2.
  { intros u r o. cbn [grant_dels]. rewrite list_elem_of_fmap. split.
    - intros (r' & [= -> -> ->] & _). naive_solver.
    - intros (-> & -> & r' & ->). exists r'. split; [done|]. unfold WORKSPACE_ROLES. destruct r'; set_solver. }
  assert (∀ r, stored (az_provider s1') (mk_tuple p (role_name r) (workspace_object t w)) ↔ r = role) as Hrole.
  { intros r. rewrite Hst1. cbn [grant_adds]. rewrite list_elem_of_singleton. split.
    - intros [[= Hr]|[Hnd Hs]]; [by apply Hinj|].
      pose proof (Hprev r Hs) as <-. destruct (decide (r = role)); [done|]. exfalso. apply Hnd.
      simpl. rewrite decide_False by done. by apply list_elem_of_singleton.
    - intros ->. by left. }
  split; [done|]. split; [done|]. split; [done|]. split.
  - intros r Hs. apply Hst2 in Hs as [Hs|[Hnd _]]; [by apply elem_of_nil in Hs|].
    apply Hnd, Hdel2. eauto.
  - intros u r o Hne. assert (stored (az_provider s1') (mk_tuple u r o) ↔
      stored (az_provider s) (mk_tuple u r o)) as Hs1.
    { rewrite Hst1. cbn [grant_adds]. rewrite list_elem_of_singleton. split.
      - intros [[= -> -> ->]|[_ ?]]; [naive_solver|done].
      - intros Hs. right. split; [|done]. intros Hd%Hdel. naive_solver. }
    split; [done|]. rewrite <- Hs1, Hst2. split; [intros [Hs|[_ ?]]; [by apply elem_of_nil in Hs|done]|].
    intros Hs. right. split; [|done]. rewrite Hdel2. naive_solver.
Qed.

(** ** Instances *)

Definition demo_state (max : nat) : authz_state provider MemoryCache :=
  {| az_provider := new_provider MODEL max; az_revisions := ∅; az_cache := new_cache |}.

Definition alice : MemoryExecutionContext := ctx_of "acme" (Some "alice") (Some "t1") None None.

Lemma demo_empty max : empty_store (demo_state max).
Proof.
  split; [apply indexed_new|done|]. intros [u r o]. unfold stored, users_of. simpl.
  rewrite lookup_empty. set_solver.
Qed.

Lemma tenant_isolation_witness :
  let s := snd (run_grant (GThread alice "t1" None) true (demo_state 10)) in
  ∃ b s', allowed alice "can_write" "thread" "t1" s = (Ok b, s') ∧
    (b = true → ∃ g t, g ∈ [GThread alice "t1" None] ∧ grant_tenant g = tenant_id alice ∧
       t ∈ grant_adds g ∧ t_user t ∈ subjects alice).
Proof.
  intros s. apply (tenant_isolation (demo_state 10) s [GThread alice "t1" None] alice);
    [apply demo_empty| |by vm_compute|set_solver].
  apply (history_grant _ [] (demo_state 10)); [apply history_start|]. split; by vm_compute.
Defined.

(** The decision of the witness is a yes. *)
Example alice_writes :
  fst (allowed alice "can_write" "thread" "t1"
         (snd (run_grant (GThread alice "t1" None) true (demo_state 10)))) = Ok true.
Proof. by vm_compute. Qed.

Lemma member_role_exact_witness :
  let s := snd (set_workspace_member "acme" "w1" "user:bob" member None true (demo_state 10)) in
  let s1 := snd (set_workspace_member "acme" "w1" "user:bob" admin (Some member) true s) in
  stored (az_provider s1) (mk_tuple "user:bob" "admin" (workspace_object "acme" "w1")) ∧
  ¬ stored (az_provider s1) (mk_tuple "user:bob" "member" (workspace_object "acme" "w1")).
Proof.
  intros s s1.
  destruct (member_role_exact s "acme" "w1" "user:bob" admin (Some member) true) as (_ & _ & Hr & _).
  - assert (ap_ok (az_provider (demo_state 10))) as Hok by exact (indexed_new 10).
    destruct (run_grant_reliable (GSetMember "acme" "w1" "user:bob" member None) true (demo_state 10) Hok)
      as (s' & Hs' & Hok' & _); [split; [done|]; by exists "user", "bob"|].
    unfold s. cbn [run_grant] in Hs'. rewrite Hs'. exact Hok'.
  - split; [done|]. by exists "user", "bob".
  - intros r Hs. destruct r; [|done|]; exfalso; revert Hs; unfold stored;
      apply (bool_decide_unpack (¬ _)); vm_compute; exact I.
  - split; [by apply (Hr admin)|]. intros Hs. by apply (Hr member) in Hs.
Defined.

Lemma resolve_exact_witness :
  let p := az_provider (snd (run_grant (GThread alice "t1" None) true (demo_state 10))) in
  ∃ s, resolve 10 alice p = (Ok s, p) ∧ (truncated s = false →
    subject_holds p alice "can_read" ("thread:" +:+ object_id "acme" "t1") → "t1" ∈ thread_ids s).
Proof.
  intros p. assert (grant_ok (GThread alice "t1" None)) as Hg by (split; by vm_compute).
  destruct (run_grant_spec (GThread alice "t1" None) true (demo_state 10) (es_ok _ (demo_empty 10)) Hg)
    as (r & s' & Hs & Hok & Hup & Hst & _).
  assert (az_provider s' = p) as Hp by (unfold p; by rewrite Hs). rewrite Hp in *.
  destruct (resolve_exact 10 p alice) as (s & Hr & _ & _ & _ & _ & Hc);
    [done|by rewrite Hup| |vm_compute; lia|].
  - apply bounded_stored. intros t [Ht|Ht]%(wrote_added _ _ _ _ _ _ Hst).
    + pose proof (grant_adds_ok _ Hg) as Hall. rewrite Forall_forall in Hall. by apply Hall.
    + exfalso. by apply (es_none _ (demo_empty 10) t).
  - exists s. split; [done|]. intros Ht. by apply (Hc Ht "t1").
Defined.

(** A listing is cut across tenants, and nothing makes up for it. User ids
    are not tenant-prefixed, so with the bound at 2 a user with three threads
    in one tenant is listed no thread in another, where the decision says they
    may read it; the scope says [truncated], which no reader of a scope or of a
    [VisibilitySpecification] consults, and the filter refuses the thread. *)
Theorem other_tenant_hides_threads :
  let here := ctx_of "zeta" (Some "alice") (Some "t9") None None in
  let s := foldl (λ s g, snd (run_grant g true s)) (demo_state 2)
    [GThread alice "a1" None; GThread alice "a2" None; GThread alice "a3" None; GThread here "t9" None] in
  fst (allowed here "can_read" "thread" "t9" s) = Ok true ∧
  match fst (resolve 2 here (az_provider s)) with
  | Ok sc => thread_ids sc = [] ∧ truncated sc = true ∧
             allows (from_scope sc (Some "t9") None None) "zeta" [key "thread" "zeta" "t9"] = false
  | Raise _ => False
  end.
Proof. vm_compute. repeat split. Qed.
