(* ===== verification/ScopeCache.v ===== *)
(** * ScopeCache: a cached scope is never older than the last bump
    (modules/authz/service.py [scope], and the bumps of the grants).

    Requests interleave: tuples are written at any moment, by a grant of this tenant whose
    transaction bumps the membership counter when it commits, by one that bumps nothing
    ([grant_workspace]), by one that is rolled back, or by other tenants, whose tuples may
    cut this tenant's listings; a reader reads the committed counters, resolves, and
    writes the cache, each a step of its own. [scope_is_current] says that what [scope]
    answers under the current counters is what [resolve] answers on the tuples of now or
    of some moment since the last bump, whatever readers were doing before. The digest of
    [scope_fingerprint] is assumed free of collisions and of the separator. *)
From S2P Require Import Prelude Errors Ids Context Rebac AuthzProvider.
From S2P Require Import Visibility Revisions Tenancy Cache AuthzService.

(** ** Lemmas: the text of a fingerprint *)

Definition numeral (c : ascii) : bool := ascii_digit c || Ascii.eqb c "-".

Lemma string_of_uint_numeral u : str_forall numeral (DecimalString.NilEmpty.string_of_uint u) = true.
Proof. by induction u. Qed.

Lemma text_of_Z_numeral n : str_forall numeral (text_of_Z n) = true.
Proof.
  unfold text_of_Z. destruct (Z.to_int n) as [u|u]; destruct u; simpl; try done;
    apply string_of_uint_numeral.
Qed.

Lemma text_of_Z_no_char c n : numeral c = false → str_in c (text_of_Z n) = false.
Proof. intros Hc. by apply (str_forall_not_in numeral); [apply text_of_Z_numeral|]. Qed.

(** The names of the membership counters: the tenant-wide one is first. *)
Lemma values_text_eq t r ctx m :
  fst (get_many t (membership_keys ctx) r) = Ok m →
  ∃ rest, values_text m = "membership:=" +:+ text_of_Z (revision_value t r (RMembership, "")) +:+ rest ∧
          (rest = "" ∨ ∃ rest', rest = String "," rest').
Proof.
  intros Hm. destruct (get_many_lookup t (membership_keys ctx) r (RMembership, "")) as (m' & Hm' & Hlk);
    [by left|]. rewrite Hm in Hm'. injection Hm' as <-.
  assert (Forall (λ k, ∃ x, k = "membership:" +:+ x) (elements (dom m))) as Hall.
  { apply Forall_forall. intros k Hk%elem_of_elements%elem_of_dom. destruct Hk as [v Hv].
    destruct (get_many_names _ _ _ _ _ _ Hm Hv) as ([kind i] & Hin & ->). exists i.
    assert (kind = RMembership) as ->; [|done]. unfold membership_keys in Hin.
    destruct (otruthy (agent_id ctx)); set_solver. }
  destruct (str_sorted_head (elements (dom m)) "membership:") as (l' & Hl); [|done|].
  { apply elem_of_elements, elem_of_dom. by eexists. }
  unfold values_text. rewrite Hl. csimpl.
  change "membership:" with (revision_name (RMembership, "")). rewrite Hlk. cbn [default].
  destruct l' as [|k l']; csimpl.
  - exists "". rewrite !str_app_nil_r. auto.
  - eexists. split; [|right; by eexists]. by rewrite !str_app_assoc.
Qed.

(** The tenant-wide counter a fingerprint was made at. *)
Definition fingerprint_revision (f : string) : option Z :=
  rest ← strip_prefix "membership:=" f;
  let '(n, _, _) := str_partition "," rest in Z_of_text n.

Lemma fingerprint_revision_of t r ctx m :
  fst (get_many t (membership_keys ctx) r) = Ok m →
  fingerprint_revision (values_text m) = Some (revision_value t r (RMembership, "")).
Proof.
  intros Hm. destruct (values_text_eq t r ctx m Hm) as (rest & -> & Hrest).
  unfold fingerprint_revision. rewrite strip_prefix_app. simpl.
  destruct Hrest as [->|(rest' & ->)].
  - rewrite str_app_nil_r, str_partition_none by by apply text_of_Z_no_char.
    apply Z_of_text_of_Z.
  - rewrite str_partition_app by by apply text_of_Z_no_char. apply Z_of_text_of_Z.
Qed.

(** ** The interleaving *)

Section interleaving.
Context {P C : Type} `{AuthorizationLaws P} `{CacheLaws C} `{Codec AuthorizedScope}.
Variable blake2b : string → string.
Variable max_listed : nat.
Variable cache_ttl : Z.
Variable T : string.

Definition fingerprint_now (ctx : MemoryExecutionContext) (r : revisions) : string :=
  match fst (get_many T (membership_keys ctx) r) with
  | Ok m => values_text m
  | Raise _ => ""
  end.

Definition resolved (ctx : MemoryExecutionContext) (p : P) (s : AuthorizedScope) : Prop :=
  fst (resolve max_listed ctx p) = Ok s.

Record reader := {
  rd_ctx : MemoryExecutionContext;
  rd_fingerprint : string;
  rd_scope : option AuthorizedScope;
}.

(** [c_since] has the stores there were since the counter was last bumped, the newest
    first. *)
Record csys := {
  c_state : authz_state P C;
  c_since : list P;
  c_readers : list reader;
}.

Abbreviation store s := (az_provider (c_state s)).
Abbreviation counters s := (az_revisions (c_state s)).
Abbreviation cache s := (az_cache (c_state s)).

Definition with_state (a : authz_state P C) (s : csys) : csys :=
  {| c_state := a; c_since := c_since s; c_readers := c_readers s |}.
Definition with_readers (l : list reader) (s : csys) : csys :=
  {| c_state := c_state s; c_since := c_since s; c_readers := l |}.
Definition with_since (l : list P) (s : csys) : csys :=
  {| c_state := c_state s; c_since := l; c_readers := c_readers s |}.

(** [c_write] is anyone's write of tuples, [c_commit] the commit of a transaction that
    bumps the counter. *)
Inductive cstep (s : csys) : csys → Prop :=
| c_write p' : cstep s (with_since (p' :: c_since s) (with_state (set_az_provider p' (c_state s)) s))
| c_commit ids :
    cstep s (with_since [store s] (with_state (snd (bump_membership T true ids (c_state s))) s))
| c_fingerprint ctx :
    valid_context ctx → tenant_id ctx = T →
    cstep s (with_readers (c_readers s ++ [{| rd_ctx := ctx;
      rd_fingerprint := fingerprint_now ctx (counters s); rd_scope := None |}]) s)
| c_resolve i rd sc :
    c_readers s !! i = Some rd → resolved (rd_ctx rd) (store s) sc →
    cstep s (with_readers (<[i := {| rd_ctx := rd_ctx rd; rd_fingerprint := rd_fingerprint rd;
                                     rd_scope := Some sc |}]> (c_readers s)) s)
| c_put i rd sc :
    c_readers s !! i = Some rd → rd_scope rd = Some sc →
    cstep s (with_readers (delete i (c_readers s))
      (with_state (snd (on_az_cache (suppress_cache tt
         (cp_set (scope_cache_key blake2b (rd_ctx rd) (rd_fingerprint rd)) (dump sc)
            (Some cache_ttl))) (c_state s))) s))
| c_gone i : cstep s (with_readers (delete i (c_readers s)) s)
| c_environment c' :
    (∀ ctx f, entry c' (scope_cache_key blake2b ctx f) = entry (cache s) (scope_cache_key blake2b ctx f)
              ∨ entry c' (scope_cache_key blake2b ctx f) = None) →
    cstep s (with_state (set_az_cache c' (c_state s)) s)
| c_revisions r' :
    (∀ i, revision_value T r' (RMembership, i) = revision_value T (counters s) (RMembership, i)) →
    cstep s (with_state (set_az_revisions r' (c_state s)) s).

Inductive csteps (s : csys) : csys → Prop :=
| csteps_refl : csteps s s
| csteps_step s1 s2 : csteps s s1 → cstep s1 s2 → csteps s s2.

Definition generation (s : csys) : Z := revision_value T (counters s) (RMembership, "").

(** A scope held under fingerprint [f] is of this generation or an older one; under the
    current fingerprint it was resolved since the last bump. *)
Definition fresh (s : csys) (ctx : MemoryExecutionContext) (f : string) (sc : AuthorizedScope) : Prop :=
  f = fingerprint_now ctx (counters s) → ∃ p, p ∈ c_since s ∧ resolved ctx p sc.

Definition dated (s : csys) (f : string) : Prop :=
  ∃ n, fingerprint_revision f = Some n ∧ n ≤ generation s.

Record cinv (s : csys) : Prop := {
  ci_readers : Forall (λ rd, valid_context (rd_ctx rd) ∧ tenant_id (rd_ctx rd) = T ∧
    dated s (rd_fingerprint rd) ∧
    ∀ sc, rd_scope rd = Some sc → fresh s (rd_ctx rd) (rd_fingerprint rd) sc) (c_readers s);
  ci_cache ctx f v e : valid_context ctx → tenant_id ctx = T →
    entry (cache s) (scope_cache_key blake2b ctx f) = Some (v, e) →
    dated s f ∧ ∃ sc, v = dump sc ∧ fresh s ctx f sc;
  ci_since : store s ∈ c_since s;
}.

(** ** Lemmas *)

Lemma fingerprint_now_dated ctx r :
  fingerprint_revision (fingerprint_now ctx r) = Some (revision_value T r (RMembership, "")).
Proof.
  unfold fingerprint_now. destruct (fst (get_many T (membership_keys ctx) r)) as [m|e] eqn:Hm; [|done].
  by eapply fingerprint_revision_of.
Qed.

Lemma fingerprint_now_values ctx r r' :
  (∀ i, revision_value T r' (RMembership, i) = revision_value T r (RMembership, i)) → fingerprint_now ctx r' = fingerprint_now ctx r.
Proof.
  intros Hr. unfold fingerprint_now, get_many, gets, fst.
  assert ((λ k, (revision_name k, revision_value T r' k)) <$> membership_keys ctx =
          (λ k, (revision_name k, revision_value T r k)) <$> membership_keys ctx) as ->; [|done].
  apply list_fmap_ext. intros n [kind i] Hk%list_elem_of_lookup_2. assert (kind = RMembership) as ->; [|by rewrite Hr].
  unfold membership_keys in Hk. destruct (otruthy (agent_id ctx)); set_solver.
Qed.

Lemma bump_membership_all ids (a : authz_state P C) :
  snd (bump_membership T true ids a) =
  set_az_revisions (snd (bump_all T ((λ o, (RMembership, o)) <$> fromkeys ("" :: ids)) (az_revisions a))) a.
Proof.
  unfold bump_membership, on_revisions, zoom, bump_all. rewrite mapM__fmap.
  by destruct (mapM_ _ _ _).
Qed.

Lemma commit_generation ids (a : authz_state P C) :
  revision_value T (az_revisions (snd (bump_membership T true ids a))) (RMembership, "") =
  revision_value T (az_revisions a) (RMembership, "") + 1.
Proof.
  rewrite bump_membership_all. cbn [az_revisions set_az_revisions].
  destruct (bump_all_value T ((λ o, (RMembership, o)) <$> fromkeys ("" :: ids)) (az_revisions a)
    (RMembership, "")) as [_ Heq].
  - apply NoDup_fmap_2; [by intros ?? [=]|apply NoDup_fromkeys].
  - destruct (decide _) as [|Hn] in Heq; [exact Heq|]. destruct Hn. apply list_elem_of_fmap.
    exists "". split; [done|]. apply elem_of_fromkeys. by left.
Qed.

Hypothesis blake2b_inj : ∀ x y, blake2b x = blake2b y → x = y.
Hypothesis blake2b_sep : ∀ x, str_in ":" (blake2b x) = false.
Hypothesis ttl_positive : 0 < cache_ttl.

Lemma scope_cache_key_inj ctx f ctx' f' :
  valid_context ctx → valid_context ctx' → tenant_id ctx = T → tenant_id ctx' = T →
  scope_cache_key blake2b ctx f = scope_cache_key blake2b ctx' f' →
  stable_key_input (scope_parts ctx) = stable_key_input (scope_parts ctx') ∧ f = f'.
Proof.
  intros Hv Hv' Ht Ht'. unfold scope_cache_key. rewrite Ht, Ht'.
  intros Heq%str_app_cancel_l%str_app_cancel_l%(str_app_cancel_l ":").
  apply (str_sep_inj ":") in Heq as [Heq ->]; [|apply blake2b_sep..].
  split; [|done]. by apply blake2b_inj.
Qed.

(** Contexts with one scope fingerprint resolve to one scope, under one
    membership fingerprint. *)
Lemma same_parts ctx ctx' :
  valid_context ctx → valid_context ctx' →
  stable_key_input (scope_parts ctx) = stable_key_input (scope_parts ctx') →
  (∀ p : P, resolve max_listed ctx p = resolve max_listed ctx' p) ∧
  (∀ r, fingerprint_now ctx r = fingerprint_now ctx' r).
Proof.
  intros Hv Hv' Heq. apply scope_parts_inj in Heq as (Ht & _ & Hu & Ha & Hg & Hr & Hp); [|done..].
  assert (principal_id ctx = principal_id ctx') as Hpr by (unfold principal_id; by rewrite Ha, Hu).
  split.
  - intros p. unfold resolve, queries, subjects, is_agent. by rewrite Ht, Hu, Ha, Hg, Hr, Hp, Hpr.
  - intros r. unfold fingerprint_now, membership_keys. by rewrite Hu, Ha.
Qed.

Lemma readers_frame s s' (l : list reader) :
  (∀ f, dated s f → dated s' f) →
  (∀ ctx f sc, tenant_id ctx = T → fresh s ctx f sc → fresh s' ctx f sc) →
  Forall (λ rd, valid_context (rd_ctx rd) ∧ tenant_id (rd_ctx rd) = T ∧
    dated s (rd_fingerprint rd) ∧
    ∀ sc, rd_scope rd = Some sc → fresh s (rd_ctx rd) (rd_fingerprint rd) sc) l →
  Forall (λ rd, valid_context (rd_ctx rd) ∧ tenant_id (rd_ctx rd) = T ∧
    dated s' (rd_fingerprint rd) ∧
    ∀ sc, rd_scope rd = Some sc → fresh s' (rd_ctx rd) (rd_fingerprint rd) sc) l.
Proof. intros Hd Hf Hall. eapply Forall_impl; [exact Hall|]. naive_solver. Qed.

(** A step that leaves readers and scope entries alone. *)
Lemma cinv_same s s' :
  cinv s → c_readers s' = c_readers s → store s' ∈ c_since s' →
  (∀ ctx f, entry (cache s') (scope_cache_key blake2b ctx f) = entry (cache s) (scope_cache_key blake2b ctx f) ∨
            entry (cache s') (scope_cache_key blake2b ctx f) = None) →
  (∀ f, dated s f → dated s' f) →
  (∀ ctx f sc, tenant_id ctx = T → dated s f → fresh s ctx f sc → fresh s' ctx f sc) →
  cinv s'.
Proof.
  intros [Hrd Hc _] Hr Hsince He Hd Hf. split; [| |done].
  - rewrite Hr. eapply Forall_impl; [exact Hrd|]. naive_solver.
  - intros ctx f v e Hv Ht Hent. destruct (He ctx f) as [Heq|Heq]; rewrite Heq in Hent; [|done].
    destruct (Hc ctx f v e Hv Ht Hent) as (Hdt & sc & -> & Hfr). split; [by apply Hd|].
    exists sc. split; [done|]. by apply Hf.
Qed.

(** A change of the readers alone. *)
Lemma cinv_readers s l :
  cinv s →
  Forall (λ rd, valid_context (rd_ctx rd) ∧ tenant_id (rd_ctx rd) = T ∧
    dated s (rd_fingerprint rd) ∧
    ∀ sc, rd_scope rd = Some sc → fresh s (rd_ctx rd) (rd_fingerprint rd) sc) l →
  cinv (with_readers l s).
Proof. intros [_ Hc Hsince] Hl. by split. Qed.

Lemma cinv_commit s ids :
  cinv s → cinv (with_since [store s] (with_state (snd (bump_membership T true ids (c_state s))) s)).
Proof.
  intros Hs. set (s' := with_since _ _).
  assert (generation s' = generation s + 1) as Hg by apply commit_generation.
  assert (cache s' = cache s) as Hca by (unfold s'; cbn [c_state with_since with_state]; by rewrite bump_membership_all).
  apply (cinv_same s); [done|done| | | |].
  - unfold s'. cbn [c_state c_since with_since with_state]. rewrite bump_membership_all. by left.
  - intros ctx f. left. by rewrite Hca.
  - intros f (m & Hm & Hle). exists m. split; [done|lia].
  - intros ctx f sc _ (m & Hm & Hle) _ ->. rewrite fingerprint_now_dated in Hm.
    injection Hm as Hm. change (generation s' = m) in Hm. lia.
Qed.

Lemma on_az_cache_set k v (a : authz_state P C) :
  ∃ c', snd (on_az_cache (suppress_cache tt (cp_set k v (Some cache_ttl))) a) = set_az_cache c' a ∧
    ∀ k', entry c' k' = if up (az_cache a) && String.eqb k k'
                        then Some (v, expiry (Some cache_ttl) (now (az_cache a)))
                        else entry (az_cache a) k'.
Proof.
  destruct (law_set k v (Some cache_ttl) (az_cache a) ttl_positive) as (c' & Hset & _ & Hent).
  exists c'. split; [|exact Hent]. unfold on_az_cache, zoom, suppress_cache, try. rewrite Hset.
  unfold reply. by destruct (up (az_cache a)).
Qed.

Lemma cinv_put s i rd sc :
  cinv s → c_readers s !! i = Some rd → rd_scope rd = Some sc →
  cinv (with_readers (delete i (c_readers s))
    (with_state (snd (on_az_cache (suppress_cache tt
       (cp_set (scope_cache_key blake2b (rd_ctx rd) (rd_fingerprint rd)) (dump sc)
          (Some cache_ttl))) (c_state s))) s)).
Proof.
  intros Hs Hi Hsc. destruct Hs as [Hrd Hc Hsince].
  destruct (Forall_lookup_1 _ _ _ _ Hrd Hi) as (Hv & Ht & Hd & Hf). specialize (Hf sc Hsc).
  destruct (on_az_cache_set (scope_cache_key blake2b (rd_ctx rd) (rd_fingerprint rd)) (dump sc)
    (c_state s)) as (c' & -> & Hent).
  split; [by apply Forall_delete| |exact Hsince].
  intros ctx f v e Hv' Ht' He. cbn [c_state with_readers with_state az_cache set_az_cache] in He.
  rewrite Hent in He. destruct (up _ && String.eqb _ _) eqn:Hk; [|by eapply Hc].
  apply andb_true_iff in Hk as [_ Hk%String.eqb_eq].
  apply scope_cache_key_inj in Hk as [Hparts <-]; [|done..].
  destruct (same_parts (rd_ctx rd) ctx Hv Hv' Hparts) as [Hres Hfp].
  split; [exact Hd|]. exists sc. split; [congruence|]. intros Hnow.
  unfold resolved. setoid_rewrite <- Hres. apply Hf. by rewrite Hfp.
Qed.

Lemma cinv_step s s' : cinv s → cstep s s' → cinv s'.
Proof.
  intros Hs Hstep. pose proof (ci_readers s Hs) as Hrd. pose proof (ci_since s Hs) as Hsince.
  destruct Hstep as [p'|ids|ctx Hv Ht|i rd sc Hi Hr|i rd sc Hi Hsc|i|c' Hc|r' Hr].
  - apply (cinv_same s); [done|done|by left|auto|done|]. intros ctx f sc _ _ Hf Hnow.
    destruct (Hf Hnow) as (p & Hp & Hres). exists p. split; [by right|done].
  - by apply cinv_commit.
  - apply cinv_readers; [done|]. apply Forall_app. split; [done|]. apply Forall_singleton.
    split_and!; [done|done| |done]. eexists. split; [apply fingerprint_now_dated|]. done.
  - apply cinv_readers; [done|]. apply Forall_insert; [done|].
    destruct (Forall_lookup_1 _ _ _ _ Hrd Hi) as (? & ? & ? & _). split_and!; [done..|].
    simpl. intros sc' [= <-] _. by exists (store s).
  - by apply cinv_put.
  - apply cinv_readers; [done|]. by apply Forall_delete.
  - by apply (cinv_same s); auto.
  - apply (cinv_same s); [done|done|done|auto| |].
    + intros f (n & Hn & Hle). exists n. unfold generation in *. simpl. by rewrite Hr.
    + intros ctx f sc Ht _ Hf Hnow. apply Hf. rewrite Hnow. by apply fingerprint_now_values.
Qed.

Lemma cinv_steps s s' : cinv s → csteps s s' → cinv s'.
Proof. intros Hs. induction 1; [done|]. by eapply cinv_step. Qed.

(** No reader is under way and no scope is cached: the process starts. *)
Definition cold (s : csys) : Prop :=
  c_readers s = [] ∧ c_since s = [store s] ∧ ∀ ctx f, entry (cache s) (scope_cache_key blake2b ctx f) = None.

Lemma cinv_cold s : cold s → cinv s.
Proof.
  intros (Hr & Hs & Hc). split; [rewrite Hr; constructor| |rewrite Hs; by left]. intros ctx f v e _ _ He. by rewrite Hc in He.
Qed.

Lemma read_fingerprint ctx (a : authz_state P C) :
  tenant_id ctx = T →
  bind (on_revisions (get_many (tenant_id ctx) (membership_keys ctx))) (λ values, ret (values_text values)) a
  = (Ok (fingerprint_now ctx (az_revisions a)), a).
Proof. intros ->. by destruct a. Qed.

Lemma read_cached k (a : authz_state P C) :
  ∃ c', on_az_cache (suppress_cache None (cp_get k)) a =
        (Ok (if up (az_cache a) then fst <$> entry (az_cache a) k else None), set_az_cache c' a).
Proof.
  destruct (law_get k (az_cache a)) as (c' & Hget & _). exists c'.
  unfold on_az_cache, zoom, suppress_cache, try. rewrite Hget. unfold reply. by destruct (up (az_cache a)).
Qed.

Lemma resolve_and_keep ctx k (a : authz_state P C) :
  fst (bind (on_provider (resolve max_listed ctx)) (λ s,
       bind (on_az_cache (suppress_cache tt (cp_set k (dump s) (Some cache_ttl)))) (λ _, ret s)) a)
  = fst (resolve max_listed ctx (az_provider a)).
Proof.
  unfold bind, on_provider, zoom at 1. destruct (resolve max_listed ctx (az_provider a)) as [[s|e] p'] eqn:E; [|done].
  unfold on_az_cache, zoom, suppress_cache, try.
  destruct (law_set k (dump s) (Some cache_ttl) (az_cache (set_az_provider p' a)) ttl_positive)
    as (c' & -> & _). unfold reply. by destruct (up _).
Qed.

Lemma scope_hit_or_miss s ctx :
  cinv s → valid_context ctx → tenant_id ctx = T →
  ∃ p, p ∈ c_since s ∧
    fst (scope blake2b max_listed cache_ttl true ctx true None None (c_state s)) = fst (resolve max_listed ctx p).
Proof.
  intros Hs Hv Ht. unfold scope. set (f := fingerprint_now ctx (counters s)). pose proof (ci_since s Hs) as Hsince.
  destruct (read_cached (scope_cache_key blake2b ctx f) (c_state s)) as (c' & Hraw).
  erewrite bind_ok; [|erewrite bind_ok; [|by apply read_fingerprint]; erewrite bind_ok; [|exact Hraw]; done].
  destruct (up (cache s)); [|exists (store s); by rewrite resolve_and_keep].
  destruct (entry (cache s) (scope_cache_key blake2b ctx f)) as [[v e]|] eqn:He;
    [|exists (store s); simpl; by rewrite resolve_and_keep].
  destruct (ci_cache s Hs ctx _ v e Hv Ht He) as (_ & sc & -> & Hf). simpl.
  rewrite parse_dump. simpl. destruct (Hf eq_refl) as (p & Hp & Hres). by exists p.
Qed.
End interleaving.


(** ** Instances *)

#[export] Instance AuthorizedScope_eq_dec : EqDecision AuthorizedScope.
Proof. solve_decision. Defined.

#[export] Program Instance AuthorizedScope_countable : Countable AuthorizedScope :=
  inj_countable'
    (λ s, (s_tenant_id s, s_principal s, thread_ids s, document_ids s, agent_ids s, run_ids s,
           agent_group_ids s, workspace_ids s, s_user_id s, truncated s))
    (λ '(t, p, th, d, a, r, g, w, u, tr),
       {| s_tenant_id := t; s_principal := p; thread_ids := th; document_ids := d; agent_ids := a;
          run_ids := r; agent_group_ids := g; workspace_ids := w; s_user_id := u; truncated := tr |}) _.
Next Obligation. by intros []. Qed.

#[export] Instance AuthorizedScope_codec : Codec AuthorizedScope := countable_codec.

(** A digest without collisions: the bits of the text. *)
Definition bits (s : string) : string := bits_of (encode s).

Lemma bits_inj x y : bits x = bits y → x = y.
Proof. intros Heq%(f_equal of_bits). unfold bits in Heq. rewrite !of_bits_of in Heq. by apply (inj encode). Qed.

Lemma bits_sep x : str_in ":" (bits x) = false.
Proof. unfold bits. generalize (encode x) as p. by induction p. Qed.

Definition alice_t1 : authz_state provider MemoryCache :=
  snd (run_grant (GThread alice "t1" None) true (demo_state 10)).

(** The race the counters are for: a reader resolves before the grant commits
    and writes the cache after it. *)
Abbreviation sys := (csys (P := provider) (C := MemoryCache)).

Definition nothing_listed : AuthorizedScope :=
  {| s_tenant_id := "acme"; s_principal := "user:alice"; thread_ids := []; document_ids := [];
     agent_ids := []; run_ids := []; agent_group_ids := []; workspace_ids := [];
     s_user_id := Some "alice"; truncated := false |}.

Definition stale_reader (o : option AuthorizedScope) : reader :=
  {| rd_ctx := alice; rd_fingerprint := fingerprint_now "acme" alice ∅; rd_scope := o |}.

Definition race0 : sys := {| c_state := demo_state 10; c_since := [az_provider (demo_state 10)]; c_readers := [] |}.
Definition race1 : sys := with_readers [stale_reader None] race0.
Definition race2 : sys := with_readers [stale_reader (Some nothing_listed)] race1.
Definition race3 : sys :=
  with_since [az_provider alice_t1; az_provider (demo_state 10)] (with_state (set_az_provider (az_provider alice_t1) (c_state race2)) race2).
Definition race4 : sys :=
  with_since [az_provider alice_t1] (with_state (snd (bump_membership "acme" true ["alice"; ""] (c_state race3))) race3).
Definition race5 : sys :=
  with_readers [] (with_state (snd (on_az_cache (suppress_cache tt
    (cp_set (scope_cache_key bits alice (fingerprint_now "acme" alice ∅)) (dump nothing_listed)
       (Some 300))) (c_state race4))) race4).

Lemma race_steps : csteps bits 10 300 "acme" race0 race5.
Proof.
  apply (csteps_step _ _ _ _ _ race4); [apply (csteps_step _ _ _ _ _ race3); [apply (csteps_step _ _ _ _ _ race2);
    [apply (csteps_step _ _ _ _ _ race1); [apply (csteps_step _ _ _ _ _ race0);
    [apply csteps_refl|]|]|]|]|].
  - by apply (c_fingerprint _ _ _ _ race0 alice); vm_compute.
  - apply (c_resolve _ _ _ _ race1 0 (stale_reader None)); [done|]. by vm_compute.
  - apply (c_write _ _ _ _ race2).
  - by apply (c_commit _ _ _ _ race3 ["alice"; ""]).
  - by apply (c_put _ _ _ _ race4 0 (stale_reader (Some nothing_listed)) nothing_listed).
Qed.


(** [grant_workspace] bumps nothing: a tenant's administrator whose scope is cached does
    not see a workspace made since, which they may read. *)
Definition root : MemoryExecutionContext := ctx_of "acme" (Some "root") None None None.
Definition root_is_admin : authz_state provider MemoryCache :=
  snd (run_grant (GMembership "acme" "root" true) true (demo_state 10)).
Definition root_scope (s : authz_state provider MemoryCache) := scope bits 10 300 true root true None None s.

Example new_workspace_unseen :
  let cached := snd (root_scope root_is_admin) in
  let s := snd (run_grant (GWorkspace "acme" "w1") true cached) in
  match fst (root_scope s), fst (resolve 10 root (az_provider s)) with
  | Ok served, Ok now_ => workspace_ids served = [] ∧ workspace_ids now_ = ["w1"]
  | _, _ => False
  end.
Proof. by vm_compute. Qed.
