(* ===== verification/TenancyService.v ===== *)
(** * TenancyService: onboarding and team administration
    (modules/tenancy/service.py, modules/tenancy/gate.py, domain/text.py [sanitise]).

    A request's state is the tenancy tables, the authorization service's state,
    the workspace labels that thread and document rows carry, and the advisory
    locks the transaction holds. The clock is read once per request ([now], in
    seconds); the ids and secrets that the code draws at random are arguments.
    Lengths are those of ASCII text. *)
From S2P Require Import Prelude Errors Ids Context Rebac AuthzProvider.
From S2P Require Import Visibility Revisions Tenancy TenancyRepo Cache AuthzService.

(** ** Definitions *)

Definition MAX_KEYS_PER_TENANT : nat := 1000.
Definition ACTOR_MAX : nat := 512.
Definition DAY : Z := 86400.

Definition control_char (c : ascii) : bool :=
  let n := N_of_ascii c in
  N.leb n 8 || N.eqb n 11 || N.eqb n 12 || (N.leb 14 n && N.leb n 31) || N.eqb n 127.

(** [_CONTROL.sub("", text)], on UTF-8 bytes: U+0080 to U+009F are the byte 194
    and one of 128 to 159. *)
Fixpoint sanitise (s : string) : string :=
  match s with
  | EmptyString => EmptyString
  | String c r =>
      if control_char c then sanitise r
      else if N.eqb (N_of_ascii c) 194 then
        match r with
        | String d r' =>
            if N.leb 128 (N_of_ascii d) && N.leb (N_of_ascii d) 159 then sanitise r' else String c (sanitise r)
        | EmptyString => String c EmptyString
        end
      else String c (sanitise r)
  end.

Definition valid_ (value kind : string) : res string :=
  if is_valid_id value then Ok value
  else Raise (err ValidationFailed ("invalid " +:+ kind +:+ "_id: " +:+ value)).

(** [_require_id]; [fresh] is what [new_id] draws. *)
Definition require_id (value : option string) (kind fresh : string) : res string :=
  match value with
  | None => Ok fresh
  | Some v => valid_ v kind
  end.

Definition clean_name (name : string) : res string :=
  let cleaned := str_strip (sanitise name) in
  if truthy cleaned then Ok cleaned
  else Raise (err ValidationFailed "name is empty once control characters are removed").

Definition actor (service_id : string) : string := substring 0 ACTOR_MAX service_id.

Definition principals_ (principals : list string) : res (list string) :=
  match acting_principals principals with
  | Raise (ValueError m) => Raise (err ValidationFailed m)
  | r => r
  end.

(** The field constraints of the models: what pydantic refuses to build. *)
Definition name_fits (name : string) : bool :=
  Nat.leb 1 (String.length name) && Nat.leb (String.length name) 200.

Definition build_tenant (t : Tenant) : res Tenant :=
  if is_valid_tenant_id (tn_id t) && name_fits (tn_name t)
     && match tn_retention_days t with Some d => Z.leb 1 d | None => true end
     && match tn_rate_limit t with Some r => Z.leb 0 r | None => true end
  then Ok t else Raise (ValueError "Tenant").

Definition build_key (k : ApiKey) : res ApiKey :=
  if name_fits (ak_name k) then Ok k else Raise (ValueError "ApiKey").

Definition build_workspace (w : Workspace) : res Workspace :=
  if name_fits (ws_name w) then Ok w else Raise (ValueError "Workspace").

Record tenancy_sys {P C : Type} := {
  ts_db : tenancy_db;
  ts_authz : authz_state P C;
  ts_thread_labels : gset (string * string);
  ts_document_labels : gset (string * string);
  ts_locks : list string;
}.
Arguments tenancy_sys : clear implicits.

(** What [update_tenant] may change; [None] leaves a field alone. *)
Record tenant_patch := {
  up_name : option string;
  up_status : option TenantStatus;
  up_retention_days : option Z;
  up_rate_limit : option Z;
  up_clear_retention : bool;
  up_clear_rate_limit : bool;
  up_admission_gate : option bool;
}.

Definition patched (now : Z) (name : option string) (p : tenant_patch) (t : Tenant) : Tenant :=
  {| tn_id := tn_id t;
     tn_name := default (tn_name t) name;
     tn_status := default (tn_status t) (up_status p);
     tn_retention_days :=
       match up_retention_days p with
       | Some d => if up_clear_retention p then None else Some d
       | None => if up_clear_retention p then None else tn_retention_days t
       end;
     tn_rate_limit :=
       match up_rate_limit p with
       | Some r => if up_clear_rate_limit p then None else Some r
       | None => if up_clear_rate_limit p then None else tn_rate_limit t
       end;
     tn_admission_gate := default (tn_admission_gate t) (up_admission_gate p);
     tn_created_at := tn_created_at t;
     tn_updated_at := now |}.

Section service.
Context {P C : Type} `{AuthorizationLaws P} `{CacheProvider C}.
Variable content_hash : string → string.

Abbreviation st := (tenancy_sys P C).
Abbreviation sprog A := (prog st A).

Definition set_ts_db (d : tenancy_db) (s : st) : st :=
  {| ts_db := d; ts_authz := ts_authz s; ts_thread_labels := ts_thread_labels s;
     ts_document_labels := ts_document_labels s; ts_locks := ts_locks s |}.
Definition set_ts_authz (a : authz_state P C) (s : st) : st :=
  {| ts_db := ts_db s; ts_authz := a; ts_thread_labels := ts_thread_labels s;
     ts_document_labels := ts_document_labels s; ts_locks := ts_locks s |}.
Definition add_lock (key : string) (s : st) : st :=
  {| ts_db := ts_db s; ts_authz := ts_authz s; ts_thread_labels := ts_thread_labels s;
     ts_document_labels := ts_document_labels s; ts_locks := key :: ts_locks s |}.

Definition in_db {A} (m : tdb A) : sprog A := zoom ts_db set_ts_db m.
Definition in_authz {A} (m : prog (authz_state P C) A) : sprog A := zoom ts_authz set_ts_authz m.
Definition serialize (key : string) : sprog unit := modify (add_lock key).

(** *** Tenants *)

Definition get_tenant (tenant_id : string) : sprog Tenant :=
  bind (lift (valid_ tenant_id "tenant")) (λ t,
  bind (in_db (tenants_get t)) (λ found,
  match found with
  | None => raise (err NotFound "Tenant not found")
  | Some x => ret x
  end)).

Definition get_workspace (tenant_id workspace_id : string) : sprog Workspace :=
  bind (lift (valid_ workspace_id "workspace")) (λ w,
  bind (in_db (workspaces_get tenant_id w)) (λ found,
  match found with
  | None => raise (err NotFound "Workspace not found")
  | Some x => ret x
  end)).

Definition issue_key (now : Z) (key_id secret tenant_id : string) (role : KeyRole)
    (name created_by : string) (workspace_id : option string) (expires_in_days : option Z)
    (may_act_as : list string) : sprog (ApiKey * string) :=
  if decide (role = PLATFORM)
  then raise (err ValidationFailed "the platform role is configured, never issued")
  else if bool_decide (role = ADMIN) && bool_decide (is_Some workspace_id)
  then raise (err ValidationFailed "admin keys are tenant-wide; bind service keys only")
  else
  bind (get_tenant tenant_id) (λ t,
  if negb (bool_decide (tn_status t = active))
  then raise (err Conflict ("tenant " +:+ tenant_id +:+ " is not active"))
  else
  bind (match workspace_id with
        | Some w => bind (get_workspace tenant_id w) (λ _, ret tt)
        | None => ret tt
        end) (λ _,
  bind (serialize ("tenant-keys:" +:+ tenant_id)) (λ _,
  bind (in_db (keys_count_live now tenant_id)) (λ n,
  if Nat.leb MAX_KEYS_PER_TENANT n
  then raise (err Conflict ("tenant " +:+ tenant_id +:+ " holds too many live keys; revoke one first"))
  else
  let '(kid, token, secret_hash) := mint_token content_hash key_id secret in
  bind (lift (clean_name name)) (λ nm,
  bind (lift (principals_ may_act_as)) (λ acting,
  bind (lift (build_key
    {| ak_id := kid; ak_tenant := tenant_id; ak_role := role; ak_name := nm;
       ak_workspace := workspace_id; ak_secret_hash := secret_hash; ak_created_by := actor created_by;
       ak_created_at := now;
       ak_expires_at := match expires_in_days with
                        | Some d => if Z.eqb d 0 then None else Some (now + d * DAY)
                        | None => None
                        end;
       ak_revoked_at := None; ak_last_used_at := None; ak_may_act_as := acting |})) (λ key,
  bind (in_db (keys_add key)) (λ _,
  ret (key, token))))))))).

Definition create_tenant (now : Z) (fresh key_id secret name created_by : string)
    (tenant_id : option string) (retention_days rate_limit_per_minute : option Z)
    (admission_gate : bool) : sprog (Tenant * (ApiKey * string)) :=
  bind (lift (require_id tenant_id "tenant" fresh)) (λ t,
  if negb (is_valid_tenant_id t)
  then raise (err ValidationFailed ("invalid tenant_id: " +:+ t))
  else
  bind (in_db (tenants_get t)) (λ found,
  match found with
  | Some _ => raise (err Conflict ("tenant " +:+ t +:+ " already exists"))
  | None =>
      bind (lift (clean_name name)) (λ nm,
      bind (lift (build_tenant
        {| tn_id := t; tn_name := nm; tn_status := active; tn_retention_days := retention_days;
           tn_rate_limit := rate_limit_per_minute; tn_admission_gate := admission_gate;
           tn_created_at := now; tn_updated_at := now |})) (λ tenant,
      bind (in_db (tenants_add tenant)) (λ _,
      bind (issue_key now key_id secret t ADMIN "initial admin" created_by None None [ANY_PRINCIPAL])
        (λ admin_key,
      ret (tenant, admin_key)))))
  end)).

Definition list_tenants (after : string) (limit : nat) : sprog (list Tenant) :=
  bind (if truthy after then lift (valid_ after "tenant") else ret "") (λ a,
  in_db (tenants_list a limit)).

Definition update_tenant (now : Z) (tenant_id : string) (p : tenant_patch) : sprog (Tenant * bool) :=
  bind (get_tenant tenant_id) (λ current,
  bind (match up_name p with
        | Some n => bind (lift (clean_name n)) (λ c, ret (Some c))
        | None => ret None
        end) (λ name,
  let tenant := patched now name p current in
  bind (in_db (tenants_update tenant_id (patched now name p))) (λ _,
  ret (tenant, negb (bool_decide (tn_status tenant = tn_status current)))))).

(** *** Keys *)

Definition set_may_act_as (tenant_id key_id : string) (principals : list string) : sprog ApiKey :=
  bind (lift (principals_ principals)) (λ ps,
  bind (in_db (keys_set_may_act_as tenant_id key_id ps)) (λ found,
  match found with
  | None => raise (err NotFound ("key " +:+ key_id +:+ " not found"))
  | Some k => ret k
  end)).

Definition list_keys (tenant_id : string) (after : option (Z * string)) (limit : nat) :
    sprog (list ApiKey) := in_db (keys_list tenant_id after limit).

Definition revoke_key (now : Z) (tenant_id key_id : string) : sprog bool :=
  bind (lift (valid_ key_id "key")) (λ k, in_db (keys_revoke tenant_id k now)).

(** *** Workspaces *)

Definition create_workspace (now : Z) (fresh tenant_id name : string) (workspace_id : option string) :
    sprog Workspace :=
  bind (lift (require_id workspace_id "workspace" fresh)) (λ w,
  bind (in_db (ever_existed tenant_id w)) (λ used,
  if (used : bool)
  then raise (err Conflict ("workspace id " +:+ w +:+ " exists or was used before"))
  else
  bind (gets (λ s, bool_decide ((tenant_id, w) ∈ ts_thread_labels s)
                   || bool_decide ((tenant_id, w) ∈ ts_document_labels s))) (λ labelled,
  if (labelled : bool)
  then raise (err Conflict ("workspace id " +:+ w +:+ " is in use as an anchor; choose another"))
  else
  bind (lift (clean_name name)) (λ nm,
  bind (lift (build_workspace {| ws_id := w; ws_tenant := tenant_id; ws_name := nm;
                                 ws_created_at := now; ws_deleted_at := None |})) (λ workspace,
  bind (in_db (workspaces_add workspace)) (λ _,
  bind (in_authz (grant_workspace tenant_id w)) (λ _,
  ret workspace))))))).

Definition list_workspaces (tenant_id after : string) (limit : nat) : sprog (list Workspace) :=
  bind (if truthy after then lift (valid_ after "workspace") else ret "") (λ a,
  in_db (workspaces_list tenant_id a limit)).

Definition members_lock (tenant_id workspace_id : string) : string :=
  "workspace-members:" +:+ tenant_id +:+ "/" +:+ workspace_id.

Definition delete_workspace (now : Z) (tenant_id workspace_id : string) : sprog (list string) :=
  bind (lift (valid_ workspace_id "workspace")) (λ w,
  bind (serialize (members_lock tenant_id w)) (λ _,
  bind (in_db (workspaces_get tenant_id w)) (λ found,
  match found with
  | None =>
      bind (in_db (ever_existed tenant_id w)) (λ used,
      if (used : bool) then ret [] else raise (err NotFound "Workspace not found"))
  | Some _ =>
      bind (in_db (members_list tenant_id w "" None)) (λ ms,
      bind (mapM_ (λ m, in_authz (revoke_workspace_member tenant_id w (wm_principal m) true)) ms) (λ _,
      bind (in_db (keys_list tenant_id None LIST_LIMIT)) (λ keys,
      let revoked := ak_id <$> filter (λ k, ak_workspace k = Some w ∧ usable_at k now = true) keys in
      bind (mapM_ (λ k, bind (in_db (keys_revoke tenant_id k now)) (λ _, ret tt)) revoked) (λ _,
      bind (in_db (workspaces_soft_delete tenant_id w now)) (λ _,
      ret revoked)))))
  end))).

Definition principal_of (principal : string) : res (string * string) :=
  match parse_principal principal with
  | Raise (ValueError m) => Raise (err ValidationFailed m)
  | r => r
  end.

Definition set_member (now : Z) (tenant_id workspace_id principal : string) (role : MemberRole)
    (added_by : string) : sprog WorkspaceMember :=
  bind (lift (principal_of principal)) (λ '(kind, _),
  if bool_decide (role = admin) && negb (String.eqb kind "user")
  then raise (err ValidationFailed "only a user: principal can administer a workspace")
  else
  bind (serialize (members_lock tenant_id workspace_id)) (λ _,
  bind (get_workspace tenant_id workspace_id) (λ _,
  let m := {| wm_tenant := tenant_id; wm_workspace := workspace_id; wm_principal := principal;
              wm_role := role; wm_added_by := actor added_by; wm_added_at := now |} in
  bind (in_db (put_member m)) (λ previous,
  bind (in_authz (set_workspace_member tenant_id workspace_id principal role previous true)) (λ _,
  ret m))))).

Definition remove_member (tenant_id workspace_id principal : string) : sprog unit :=
  bind (lift (principal_of principal)) (λ _,
  bind (serialize (members_lock tenant_id workspace_id)) (λ _,
  bind (get_workspace tenant_id workspace_id) (λ _,
  bind (in_db (remove_member_row tenant_id workspace_id principal)) (λ _,
  in_authz (revoke_workspace_member tenant_id workspace_id principal true))))).

Definition members (tenant_id workspace_id after : string) (limit : option nat) :
    sprog (list WorkspaceMember) :=
  bind (get_workspace tenant_id workspace_id) (λ _,
  in_db (members_list tenant_id workspace_id after limit)).

(** *** The gate of a write into a workspace *)

Definition require_workspace_member (ctx : MemoryExecutionContext) (team_only : bool) :
    sprog (option Workspace) :=
  if negb (otruthy (workspace_id ctx))
  then if team_only then ret None
       else raise (err ValidationFailed "WORKSPACE visibility requires workspace_id")
  else
  let w := default "" (workspace_id ctx) in
  bind (in_db (workspaces_get (tenant_id ctx) w)) (λ found,
  match found with
  | None => if team_only then ret None else raise (err NotFound "Workspace not found")
  | Some x => bind (in_authz (require ctx "member" "workspace" w)) (λ _, ret (Some x))
  end).

Definition guard_workspace_visibility (ctx : MemoryExecutionContext)
    (visibility : option Visibility) : sprog unit :=
  if decide (visibility = Some WORKSPACE)
  then bind (require_workspace_member ctx false) (λ _, ret tt)
  else ret tt.
End service.

(** ** Lemmas *)

Lemma workspace_object_inj t w t' w' :
  is_valid_id t = true → is_valid_id t' = true →
  workspace_object t w = workspace_object t' w' → t = t' ∧ w = w'.
Proof.
  intros Ht Ht' Heq%(str_app_cancel_l "workspace:"). unfold object_id in Heq.
  apply (str_sep_inj "/") in Heq; [done|by apply valid_id_no_slash..].
Qed.

Lemma role_name_inj r r' : role_name r = role_name r' → r = r'.
Proof. by destruct r, r'. Qed.

Section service_lemmas.
Context {P C : Type} `{AuthorizationLaws P} `{CacheProvider C}.
Implicit Types s : tenancy_sys P C.

Abbreviation tuples_of s := (az_provider (ts_authz s)).

Definition role_tuple (t w p : string) (r : MemberRole) : RelationTuple :=
  mk_tuple p (role_name r) (workspace_object t w).

Lemma role_tuple_inj t w p r t' w' p' r' :
  is_valid_id t = true → is_valid_id t' = true →
  role_tuple t w p r = role_tuple t' w' p' r' → t = t' ∧ w = w' ∧ p = p' ∧ r = r'.
Proof.
  intros Ht Ht' Heq. pose proof (f_equal t_object Heq) as Ho. pose proof (f_equal t_user Heq) as Hu.
  pose proof (f_equal t_relation Heq) as Hr. cbn [role_tuple t_object t_user t_relation] in *.
  apply workspace_object_inj in Ho as [-> ->]; [|done..]. by apply role_name_inj in Hr.
Qed.

Lemma set_ts_authz_id s : set_ts_authz (ts_authz s) s = s.
Proof. by destruct s. Qed.
Lemma set_ts_db_id s : set_ts_db (ts_db s) s = s.
Proof. by destruct s. Qed.

(** The tuples of one principal's roles on a workspace, and of every principal's. *)
Definition role_of_member (t w p : string) (x : RelationTuple) : Prop := ∃ r, x = role_tuple t w p r.
Definition role_on (t w : string) (x : RelationTuple) : Prop := ∃ p, role_of_member t w p x.

(** Removing every member of a list leaves none of their role tuples, unless a write
    raises; it touches no other tuple. *)
Lemma revoke_all t w ms s :
  ap_ok (tuples_of s) → is_valid_id t = true →
  Forall (λ m, ∃ k i, parse_principal (wm_principal m) = Ok (k, i)) ms →
  ∃ r a', mapM_ (λ m, in_authz (revoke_workspace_member t w (wm_principal m) true)) ms s
        = (r, set_ts_authz a' s) ∧
    ap_ok (az_provider a') ∧ (AuthorizationReliable P → r = Ok tt) ∧
    (∀ x, ¬ role_on t w x → stored (az_provider a') x ↔ stored (tuples_of s) x) ∧
    (r = Ok tt → ∀ x, stored (az_provider a') x ↔
         stored (tuples_of s) x ∧ ¬ ∃ m r, m ∈ ms ∧ x = role_tuple t w (wm_principal m) r).
Proof.
  intros Hok Ht Hms. revert s Hok. induction Hms as [|m ms (k & i & Hp) _ IH]; intros s Hok.
  - exists (Ok tt), (ts_authz s). rewrite set_ts_authz_id. split_and!; [done..|]. intros _ x. set_solver.
  - assert (grant_ok (GRevokeMember t w (wm_principal m))) as Hg by (split; [done|by exists k, i]).
    destruct (run_grant_spec (GRevokeMember t w (wm_principal m)) true (ts_authz s) Hok Hg)
      as (r & a1 & Hr & Hok1 & _ & Hst & Hrel). cbn [run_grant] in Hr.
    assert (∀ x, ¬ role_on t w x → stored (az_provider a1) x ↔ stored (tuples_of s) x) as Hframe.
    { intros x Hx. apply (wrote_frame _ _ _ _ _ _ Hst); [by apply not_elem_of_nil|]. cbn [grant_dels].
      intros (r' & -> & _)%list_elem_of_fmap. apply Hx. by exists (wm_principal m), r'. }
    destruct r as [[]|e].
    + destruct (IH (set_ts_authz a1 s) Hok1) as (r2 & a2 & Hr2 & Hok2 & Hrel2 & Hframe2 & Hst2).
      exists r2, a2. split_and!; [|done|done| |].
      * cbn [mapM_]. erewrite bind_ok; [exact Hr2|]. unfold in_authz, zoom. by rewrite Hr.
      * intros x Hx. rewrite (Hframe2 x Hx). by apply Hframe.
      * intros Hr2ok x. rewrite (Hst2 Hr2ok). cbn [ts_authz set_ts_authz]. rewrite (Hst x). cbn [grant_adds grant_dels].
        rewrite elem_of_nil, list_elem_of_fmap. split.
        -- intros [[[]|[Hnd Hs]] Hn]. split; [done|]. intros (m' & r & [->|Hm]%elem_of_cons & ->); [|by apply Hn; eauto].
           apply Hnd. exists r. split; [done|]. unfold WORKSPACE_ROLES. destruct r; set_solver.
        -- intros [Hs Hn]. split; [right; split; [|done]|].
           ++ intros (r & -> & _). apply Hn. exists m, r. split; [by left|done].
           ++ intros (m' & r & Hm & ->). apply Hn. exists m', r. split; [by right|done].
    + exists (Raise e), a1. split_and!; [|done| |done|done].
      * cbn [mapM_]. erewrite bind_raise; [done|]. unfold in_authz, zoom. by rewrite Hr.
      * intros Hreliable. rewrite reliable_write in Hrel by done. done.
Qed.

Definition revoked_if (t : string) (ids : list string) (now : Z) (id : string) (k : ApiKey) : ApiKey :=
  if decide (id ∈ ids ∧ ak_tenant k = t ∧ ak_revoked_at k = None) then revoked_key now k else k.

Lemma revoke_keys t now ids s :
  ∃ ks, mapM_ (λ k, bind (in_db (keys_revoke t k now)) (λ _, ret tt)) ids s
        = (Ok tt, set_ts_db (set_api_keys ks (ts_db s)) s) ∧
    ∀ id, ks !! id = revoked_if t ids now id <$> api_keys (ts_db s) !! id.
Proof.
  revert s. induction ids as [|i ids IH]; intros s.
  - exists (api_keys (ts_db s)). split; [by destruct s as [[]]|]. intros id.
    destruct (api_keys (ts_db s) !! id) as [k|]; [|done]. simpl. unfold revoked_if.
    by rewrite decide_False by set_solver.
  - set (ks1 := match api_keys (ts_db s) !! i with
                | Some k => if bool_decide (ak_tenant k = t ∧ ak_revoked_at k = None)
                            then <[i := revoked_key now k]> (api_keys (ts_db s)) else api_keys (ts_db s)
                | None => api_keys (ts_db s)
                end).
    set (s1 := set_ts_db (set_api_keys ks1 (ts_db s)) s).
    destruct (IH s1) as (ks & Hr & Hks). exists ks. split.
    + cbn [mapM_]. erewrite bind_ok; [exact Hr|]. unfold in_db, zoom, keys_revoke, bind.
      unfold s1, ks1. destruct (api_keys (ts_db s) !! i) as [k|]; [|by destruct s as [[]]].
      destruct (bool_decide _); [done|by destruct s as [[]]].
    + intros id. rewrite Hks. cbn [ts_db set_ts_db api_keys set_api_keys s1]. unfold ks1.
      destruct (api_keys (ts_db s) !! i) as [k|] eqn:Ei.
      * destruct (bool_decide _) eqn:Eb.
        -- apply bool_decide_eq_true in Eb as [Hk Hn]. destruct (decide (i = id)) as [<-|Hne].
           ++ rewrite lookup_insert_eq, Ei. simpl. f_equal. unfold revoked_if.
              rewrite decide_False by (intros (_ & _ & [=])). by rewrite decide_True by (split; [by left|done]).
           ++ rewrite lookup_insert_ne by done. destruct (api_keys (ts_db s) !! id); [|done]. simpl. f_equal.
              unfold revoked_if. apply decide_ext. set_solver.
        -- apply bool_decide_eq_false in Eb. destruct (api_keys (ts_db s) !! id) as [k'|] eqn:Eid; [|done].
           simpl. f_equal. unfold revoked_if. apply decide_ext. rewrite elem_of_cons.
           split; [tauto|]. intros ([->|?] & ? & ?); [|done]. naive_solver.
      * destruct (api_keys (ts_db s) !! id) as [k'|] eqn:Eid; [|done].
        simpl. f_equal. unfold revoked_if. apply decide_ext. rewrite elem_of_cons.
        split; [tauto|]. intros ([->|?] & ? & ?); [congruence|done].
Qed.

(** Rows are filed under their own keys. *)
Record filed (d : tenancy_db) : Prop := {
  fl_keys id k : api_keys d !! id = Some k → ak_id k = id;
  fl_members q m : members_ d !! q = Some m →
    member_key m = q ∧ ∃ k i, parse_principal (wm_principal m) = Ok (k, i);
}.

Lemma parsed_nonempty p k i : parse_principal p = Ok (k, i) → str_lt "" p = true.
Proof. intros (-> & _)%parse_principal_ok. by destruct k. Qed.

Lemma elem_members_all t w d m :
  filed d → m ∈ members_of t w "" None d ↔
  members_ d !! (t, w, wm_principal m) = Some m ∧ wm_tenant m = t ∧ wm_workspace m = w.
Proof.
  intros Hf. unfold members_of. rewrite elem_of_ordered by done.
  rewrite list_elem_of_filter, elem_of_rows. split.
  - intros ((Ht & Hw & _) & q & Hq). split; [|done].
    destruct (fl_members d Hf q m Hq) as [<- _]. unfold member_key in Hq. by rewrite <- Ht, <- Hw.
  - intros (Hq & Ht & Hw). split; [|eauto]. split_and!; [done|done|].
    destruct (fl_members d Hf _ m Hq) as (_ & k & i & Hp). by eapply parsed_nonempty.
Qed.

(** Deleting a live workspace. *)
Lemma delete_live now t w x s :
  ap_ok (tuples_of s) → is_valid_id t = true → is_valid_id w = true → filed (ts_db s) →
  live_workspace (ts_db s) t w = Some x →
  let revoked := ak_id <$> filter (λ k, ak_workspace k = Some w ∧ usable_at k now = true)
                             (keys_of t None LIST_LIMIT (ts_db s)) in
  ∃ r s', delete_workspace now t w s = (r, s') ∧ ap_ok (tuples_of s') ∧
    (AuthorizationReliable P → r = Ok revoked) ∧
    (∀ y, ¬ role_on t w y → stored (tuples_of s') y ↔ stored (tuples_of s) y) ∧
    match r with
    | Raise _ => True
    | Ok ids => ids = revoked ∧
        tenants (ts_db s') = tenants (ts_db s) ∧ members_ (ts_db s') = members_ (ts_db s) ∧
        workspaces (ts_db s') = <[(t, w) := deleted_workspace now x]> (workspaces (ts_db s)) ∧
        (∀ id, api_keys (ts_db s') !! id = revoked_if t revoked now id <$> api_keys (ts_db s) !! id) ∧
        (∀ y, stored (tuples_of s') y ↔
           stored (tuples_of s) y ∧ ¬ ∃ p r, is_Some (members_ (ts_db s) !! (t, w, p)) ∧ y = role_tuple t w p r)
    end.
Proof.
  intros Hok Ht Hw Hf Hlive revoked.
  set (s1 := add_lock (members_lock t w) s).
  destruct (revoke_all t w (members_of t w "" None (ts_db s)) s1 Hok Ht) as (r & a & Hra & Hoka & Hrel & Hframe & Hst).
  { apply Forall_forall. intros m Hm. apply elem_members_all in Hm as (Hq & _); [|done].
    by apply (fl_members _ Hf) in Hq as [_ ?]. }
  assert (delete_workspace now t w s = bind (mapM_ (λ m, in_authz (revoke_workspace_member t w (wm_principal m) true))
      (members_of t w "" None (ts_db s))) (λ _,
    bind (in_db (keys_list t None LIST_LIMIT)) (λ ks,
    let revoked := ak_id <$> filter (λ k, ak_workspace k = Some w ∧ usable_at k now = true) ks in
    bind (mapM_ (λ k, bind (in_db (keys_revoke t k now)) (λ _, ret tt)) revoked) (λ _,
    bind (in_db (workspaces_soft_delete t w now)) (λ _, ret revoked)))) s1) as Hdel.
  { unfold delete_workspace, lift. unfold bind at 1. unfold valid_. rewrite Hw.
    erewrite (bind_ok (serialize _)); [|done].
    erewrite (bind_ok (in_db (workspaces_get t w))); [|unfold in_db, zoom, workspaces_get, gets; simpl; by rewrite Hlive].
    cbv beta iota. erewrite (bind_ok (in_db (members_list _ _ _ _))); [|by destruct s]. done. }
  destruct r as [[]|e].
  - destruct (revoke_keys t now revoked (set_ts_authz a s1)) as (ks & Hrk & Hks).
    eexists (Ok revoked), _. split.
    { rewrite Hdel. erewrite (bind_ok (mapM_ _ _)); [|exact Hra].
      erewrite (bind_ok (in_db (keys_list _ _ _))); [|by destruct s].
      erewrite (bind_ok (mapM_ _ _)); [|exact Hrk].
      erewrite (bind_ok (in_db (workspaces_soft_delete _ _ _))); [done|].
      unfold in_db, zoom, workspaces_soft_delete. cbn [ts_db set_ts_db].
      assert (live_workspace (set_api_keys ks (ts_db (set_ts_authz a s1))) t w = Some x) as -> by exact Hlive.
      done. }
    split_and!; [exact Hoka|done| |done|done|done|done| |].
    + exact Hframe.
    + exact Hks.
    + intros y. cbn [ts_authz set_ts_db set_ts_authz]. rewrite (Hst eq_refl). cbn [ts_authz s1 add_lock]. split.
      * intros [Hs Hn]. split; [done|]. intros (p & r & [m Hm] & ->). apply Hn.
        destruct (fl_members _ Hf _ _ Hm) as [[= Htm Hwm Hpm] _]. exists m, r. rewrite Hpm. split; [|done].
        apply elem_members_all; [done|]. by rewrite Hpm.
      * intros [Hs Hn]. split; [done|]. intros (m & r & Hm & ->). apply Hn.
        apply elem_members_all in Hm as (Hq & _); [|done]. eauto.
  - eexists (Raise e), _. split; [rewrite Hdel; by apply bind_raise|]. split_and!; [exact Hoka| |exact Hframe|done].
    intros Hreliable. by specialize (Hrel Hreliable).
Qed.
End service_lemmas.

Lemma elem_keys_of t d id k :
  (length (filter (λ k, ak_tenant k = t) (rows (api_keys d))) ≤ LIST_LIMIT)%nat → filed d →
  k ∈ keys_of t None LIST_LIMIT d ∧ ak_id k = id ↔ api_keys d !! id = Some k ∧ ak_tenant k = t.
Proof.
  intros Hn Hf. unfold keys_of. rewrite elem_of_ordered.
  - rewrite list_elem_of_filter, elem_of_rows. split.
    + intros (((Ht & _) & i & Hi) & <-). by rewrite (fl_keys d Hf i k Hi).
    + intros [Hi Ht]. by split; [eauto|apply (fl_keys d Hf)].
  - intros n [= <-]. etrans; [|exact Hn]. apply Nat.eq_le_incl. f_equal. apply list_filter_iff.
    intros k'. split; [by intros []|done].
Qed.

(** Deleting a workspace ends it, when no write of tuples fails. For a tenant with at most [LIST_LIMIT] key
    rows, the answer lists exactly the tenant's usable keys bound to the
    workspace; afterwards no key bound to it is usable at any later time and no
    other key has changed; no member holds a role tuple on it; it is not found
    any more, and deleting it again is a no-op. *)
Theorem delete_workspace_complete {P C} `{AuthorizationLaws P} `{Hreliable : !AuthorizationReliable P} `{CacheProvider C} now t w x
    (s : tenancy_sys P C) :
  ap_ok (az_provider (ts_authz s)) → is_valid_id t = true → is_valid_id w = true → filed (ts_db s) →
  live_workspace (ts_db s) t w = Some x →
  (length (filter (λ k, ak_tenant k = t) (rows (api_keys (ts_db s)))) ≤ LIST_LIMIT)%nat →
  ∃ revoked s', delete_workspace now t w s = (Ok revoked, s') ∧
    (∀ id, id ∈ revoked ↔ ∃ k, api_keys (ts_db s) !! id = Some k ∧ ak_tenant k = t ∧
                                ak_workspace k = Some w ∧ usable_at k now = true) ∧
    (∀ id k later, api_keys (ts_db s') !! id = Some k → ak_tenant k = t → ak_workspace k = Some w →
                   now ≤ later → usable_at k later = false) ∧
    (∀ id, id ∉ revoked → api_keys (ts_db s') !! id = api_keys (ts_db s) !! id) ∧
    (∀ p r, is_Some (members_ (ts_db s) !! (t, w, p)) →
            ¬ stored (az_provider (ts_authz s')) (role_tuple t w p r)) ∧
    fst (get_workspace t w s') = Raise (err NotFound "Workspace not found") ∧
    fst (delete_workspace now t w s') = Ok [].
Proof.
  intros Hok Ht Hw Hf Hlive Hn.
  destruct (delete_live now t w x s Hok Ht Hw Hf Hlive) as (o & s' & Hdel & _ & Hrel & _ & Hspec).
  rewrite (Hrel Hreliable) in Hdel, Hspec. clear o Hrel. destruct Hspec as (_ & _ & _ & Hws & Hks & Hst).
  set (revoked := ak_id <$> _) in *.
  assert (∀ id, id ∈ revoked ↔ ∃ k, api_keys (ts_db s) !! id = Some k ∧ ak_tenant k = t ∧
    ak_workspace k = Some w ∧ usable_at k now = true) as Hrev.
  { intros id. unfold revoked. rewrite list_elem_of_fmap. split.
    - intros (k & -> & ((Hkw & Hu) & Hin)%list_elem_of_filter). exists k.
      destruct (proj1 (elem_keys_of t _ (ak_id k) k Hn Hf)) as [? ?]; done.
    - intros (k & Hi & Hkt & Hkw & Hu). destruct (proj2 (elem_keys_of t _ id k Hn Hf)) as [Hin <-]; [done|].
      exists k. split; [done|]. by apply list_elem_of_filter. }
  assert (live_workspace (ts_db s') t w = None) as Hgone.
  { unfold live_workspace. rewrite Hws, lookup_insert_eq. done. }
  exists revoked, s'. split_and!; [exact Hdel|exact Hrev| | | | |].
  - intros id k later Hk Hkt Hkw Hle. rewrite Hks in Hk. apply fmap_Some in Hk as (k0 & Hk0 & ->).
    unfold revoked_if in *. destruct (decide _) as [?|Hnot]; [done|].
    destruct (usable_at k0 later) eqn:Hu; [|done]. destruct Hnot. split_and!; [|done|].
    + apply Hrev. exists k0. split_and!; [done..|]. destruct (usable_at k0 now) eqn:Hu'; [done|].
      unfold usable_at in *. destruct (ak_revoked_at k0); [done|]. destruct (ak_expires_at k0); [lia|done].
    + unfold usable_at in Hu. by destruct (ak_revoked_at k0).
  - intros id Hid. rewrite Hks. destruct (api_keys (ts_db s) !! id) as [k|]; [|done]. simpl.
    unfold revoked_if. by rewrite decide_False by tauto.
  - intros p r Hm Hs. apply Hst in Hs as [_ Hno]. apply Hno. eauto.
  - unfold get_workspace, lift. unfold bind at 1, valid_. rewrite Hw.
    erewrite bind_ok; [|unfold in_db, zoom, workspaces_get, gets; simpl; by rewrite Hgone]. done.
  - unfold delete_workspace, lift. unfold bind at 1, valid_. rewrite Hw.
    erewrite (bind_ok (serialize _)); [|done].
    erewrite (bind_ok (in_db (workspaces_get t w)));
      [|unfold in_db, zoom, workspaces_get, gets; simpl; by rewrite Hgone].
    cbv beta iota. erewrite (bind_ok (in_db (ever_existed t w))); [|done].
    cbn [ts_db set_ts_db add_lock]. rewrite bool_decide_true; [done|]. rewrite Hws, lookup_insert_eq. done.
Qed.

(** ** Requests as transactions *)

Inductive request : Type :=
| QCreateTenant (now : Z) (fresh key_id secret name created_by : string) (tenant_id : option string)
    (retention_days rate_limit : option Z) (gate : bool)
| QUpdateTenant (now : Z) (tenant_id : string) (p : tenant_patch)
| QIssueKey (now : Z) (key_id secret tenant_id : string) (role : KeyRole) (name created_by : string)
    (workspace_id : option string) (expires_in_days : option Z) (may_act_as : list string)
| QSetMayActAs (tenant_id key_id : string) (principals : list string)
| QRevokeKey (now : Z) (tenant_id key_id : string)
| QCreateWorkspace (now : Z) (fresh tenant_id name : string) (workspace_id : option string)
| QDeleteWorkspace (now : Z) (tenant_id workspace_id : string)
| QSetMember (now : Z) (tenant_id workspace_id principal : string) (role : MemberRole) (added_by : string)
| QRemoveMember (tenant_id workspace_id principal : string).

Section requests.
Context {P C : Type} `{AuthorizationLaws P} `{CacheProvider C}.
Variable content_hash : string → string.
Implicit Types s : tenancy_sys P C.

Definition run_request (q : request) : prog (tenancy_sys P C) unit :=
  match q with
  | QCreateTenant now f k x n by_ t rd rl g =>
      bind (create_tenant content_hash now f k x n by_ t rd rl g) (λ _, ret tt)
  | QUpdateTenant now t p => bind (update_tenant now t p) (λ _, ret tt)
  | QIssueKey now k x t r n by_ w e a =>
      bind (issue_key content_hash now k x t r n by_ w e a) (λ _, ret tt)
  | QSetMayActAs t k ps => bind (set_may_act_as t k ps) (λ _, ret tt)
  | QRevokeKey now t k => bind (revoke_key now t k) (λ _, ret tt)
  | QCreateWorkspace now f t n w => bind (create_workspace now f t n w) (λ _, ret tt)
  | QDeleteWorkspace now t w => bind (delete_workspace now t w) (λ _, ret tt)
  | QSetMember now t w p r by_ => bind (set_member now t w p r by_) (λ _, ret tt)
  | QRemoveMember t w p => remove_member t w p
  end.

(** The tenant a request acts in was authenticated, so its id is valid. *)
Definition request_ok (q : request) : Prop :=
  match q with
  | QCreateWorkspace _ f t _ _ => is_valid_id f = true ∧ is_valid_id t = true
  | QDeleteWorkspace _ t _ | QSetMember _ t _ _ _ _ | QRemoveMember t _ _ => is_valid_id t = true
  | _ => True
  end.

(** The unit of work. It is committed when the handler returned and the database's commit
    went through; else the tables and the revisions go back, and the tuples, which are
    written outside the transaction, stay as the handler left them. *)
Definition settled (q : request) (commits : bool) s : bool :=
  match fst (run_request q s) with Ok _ => commits | Raise _ => false end.

Definition transact (q : request) (commits : bool) s : tenancy_sys P C :=
  let s' := snd (run_request q s) in
  if settled q commits s then
    {| ts_db := ts_db s'; ts_authz := ts_authz s'; ts_thread_labels := ts_thread_labels s';
       ts_document_labels := ts_document_labels s'; ts_locks := [] |}
  else
    {| ts_db := ts_db s;
       ts_authz := {| az_provider := az_provider (ts_authz s'); az_revisions := az_revisions (ts_authz s);
                      az_cache := az_cache (ts_authz s') |};
       ts_thread_labels := ts_thread_labels s; ts_document_labels := ts_document_labels s;
       ts_locks := [] |}.

(** Whose role a request may change. *)
Definition touches (q : request) (t w p : string) : Prop :=
  match q with
  | QSetMember _ t' w' p' _ _ | QRemoveMember t' w' p' => t' = t ∧ w' = w ∧ p' = p
  | QDeleteWorkspace _ t' w' => t' = t ∧ w' = w
  | _ => False
  end.

Definition object_grant (g : grant) : Prop :=
  match g with
  | GThread _ _ _ | GDocument _ _ _ _ | GMemory _ _ _ | GMembership _ _ _ => True
  | _ => False
  end.

(** A history of requests from [s0], each with its commit going through or failing, and of
    grants on other objects. The list has the requests that were rolled back after they
    had changed tuples. *)
Inductive tsteps (s0 : tenancy_sys P C) : list request → tenancy_sys P C → Prop :=
| t_start : tsteps s0 [] s0
| t_request undone s q commits : tsteps s0 undone s → request_ok q →
    tsteps s0 (if settled q commits s then undone else q :: undone) (transact q commits s)
| t_refused undone s q commits : tsteps s0 undone s → request_ok q → settled q commits s = false →
    (∀ x, stored (az_provider (ts_authz (snd (run_request q s)))) x ↔ stored (az_provider (ts_authz s)) x) →
    tsteps s0 undone (transact q commits s)
| t_grant undone s g wr : tsteps s0 undone s → grant_ok g → object_grant g →
    tsteps s0 undone (set_ts_authz (snd (run_grant g wr (ts_authz s))) s)
| t_labels undone s th d : tsteps s0 undone s →
    tsteps s0 undone {| ts_db := ts_db s; ts_authz := ts_authz s; ts_thread_labels := th;
                        ts_document_labels := d; ts_locks := ts_locks s |}.

(** The tuples of a principal say what the tables say. *)
Definition mirrored_at s (t w p : string) : Prop :=
  ∀ r, stored (az_provider (ts_authz s)) (role_tuple t w p r) ↔
    ∃ m, members_ (ts_db s) !! (t, w, p) = Some m ∧ wm_role m = r ∧ is_Some (live_workspace (ts_db s) t w).

Record tinv (undone : list request) s : Prop := {
  ti_ok : ap_ok (az_provider (ts_authz s));
  ti_filed : filed (ts_db s);
  ti_exist t w p : is_Some (members_ (ts_db s) !! (t, w, p)) → is_Some (workspaces (ts_db s) !! (t, w));
  ti_mirror t w p : is_valid_id t = true → (∀ q, q ∈ undone → ¬ touches q t w p) → mirrored_at s t w p;
}.

(** *** Programs that touch neither members, workspaces nor tuples *)

Definition quiet {A} (m : prog (tenancy_sys P C) A) : Prop :=
  ∀ s, filed (ts_db s) →
    let s' := snd (m s) in
    ts_authz s' = ts_authz s ∧ members_ (ts_db s') = members_ (ts_db s) ∧
    workspaces (ts_db s') = workspaces (ts_db s) ∧ filed (ts_db s').

Lemma quiet_bind {A B} (m : prog (tenancy_sys P C) A) (k : A → prog (tenancy_sys P C) B) :
  quiet m → (∀ x, quiet (k x)) → quiet (bind m k).
Proof.
  intros Hm Hk s Hf. unfold bind. destruct (Hm s Hf) as (Ha & Hme & Hw & Hf').
  destruct (m s) as [[x|e] s1]; [|done]. simpl in *. destruct (Hk x s1 Hf') as (? & ? & ? & ?).
  split_and!; congruence || done.
Qed.

Lemma quiet_pure {A} (m : prog (tenancy_sys P C) A) : (∀ s, snd (m s) = s) → quiet m.
Proof. intros Hm s Hf. simpl. by rewrite Hm. Qed.

Lemma quiet_if {A} (b : bool) (m1 m2 : prog (tenancy_sys P C) A) :
  quiet m1 → quiet m2 → quiet (if b then m1 else m2).
Proof. by destruct b. Qed.

Lemma quiet_lock k : quiet (serialize k).
Proof. by intros s Hf. Qed.

Lemma quiet_db {A} (m : tdb A) :
  (∀ d, filed d → members_ (snd (m d)) = members_ d ∧ workspaces (snd (m d)) = workspaces d ∧
                  filed (snd (m d))) → quiet (in_db m).
Proof.
  intros Hm s Hf. unfold in_db, zoom. destruct (Hm (ts_db s) Hf) as (? & ? & ?).
  by destruct (m (ts_db s)).
Qed.

Lemma quiet_query {A} (m : tdb A) : (∀ d, snd (m d) = d) → quiet (in_db m).
Proof. intros Hm. apply quiet_db. intros d Hf. by rewrite Hm. Qed.

Lemma filed_keys d ks :
  filed d → (∀ id k, ks !! id = Some k → ak_id k = id) → filed (set_api_keys ks d).
Proof. intros [_ Hm] Hk. by split. Qed.

Lemma quiet_keys_add k : quiet (in_db (keys_add k)).
Proof.
  apply quiet_db. intros d Hf. unfold keys_add, insert_row. destruct (api_keys d !! ak_id k); [done|].
  split_and!; [done|done|]. apply filed_keys; [done|]. intros id k'.
  rewrite lookup_insert_Some. intros [[<- <-]|[_ Hk]]; [done|by apply (fl_keys d Hf)].
Qed.

Lemma quiet_keys_revoke t k now : quiet (in_db (keys_revoke t k now)).
Proof.
  apply quiet_db. intros d Hf. unfold keys_revoke. destruct (api_keys d !! k) as [x|] eqn:Hx; [|done].
  destruct (bool_decide _); [|done]. split_and!; [done|done|]. apply filed_keys; [done|]. intros id k'.
  rewrite lookup_insert_Some. intros [[<- <-]|[_ Hk]]; [exact (fl_keys d Hf _ _ Hx)|by apply (fl_keys d Hf)].
Qed.

Lemma quiet_keys_set t k ps : quiet (in_db (keys_set_may_act_as t k ps)).
Proof.
  apply quiet_db. intros d Hf. unfold keys_set_may_act_as. destruct (api_keys d !! k) as [x|] eqn:Hx; [|done].
  destruct (bool_decide _); [|done]. split_and!; [done|done|]. apply filed_keys; [done|]. intros id k'.
  rewrite lookup_insert_Some. intros [[<- <-]|[_ Hk]]; [exact (fl_keys d Hf _ _ Hx)|by apply (fl_keys d Hf)].
Qed.

Lemma quiet_tenants_add t : quiet (in_db (tenants_add t)).
Proof.
  apply quiet_db. intros d [Hk Hm]. unfold tenants_add, insert_row. by destruct (tenants d !! tn_id t).
Qed.

Lemma quiet_tenants_update t f : quiet (in_db (tenants_update t f)).
Proof. apply quiet_db. intros d [Hk Hm]. split; [done|]. split; [done|]. by constructor. Qed.

Ltac quiet_step :=
  first
    [ apply quiet_bind; [|intros ?]
    | apply quiet_if | apply quiet_lock
    | apply quiet_keys_add | apply quiet_keys_revoke | apply quiet_keys_set
    | apply quiet_tenants_add | apply quiet_tenants_update
    | apply quiet_query; done | apply quiet_pure; done
    | match goal with
      | |- quiet (match ?x with _ => _ end) => destruct x
      end ].

Lemma quiet_get_tenant t : quiet (get_tenant t).
Proof. unfold get_tenant. repeat quiet_step. Qed.

Lemma quiet_get_workspace t w : quiet (get_workspace t w).
Proof. unfold get_workspace. repeat quiet_step. Qed.

Lemma quiet_issue_key now k x t r n by_ w e a : quiet (issue_key content_hash now k x t r n by_ w e a).
Proof.
  unfold issue_key. repeat first [apply quiet_get_tenant|apply quiet_get_workspace|quiet_step].
Qed.

Lemma quiet_request q :
  match q with
  | QCreateWorkspace _ _ _ _ _ | QDeleteWorkspace _ _ _ | QSetMember _ _ _ _ _ _
  | QRemoveMember _ _ _ => True
  | _ => quiet (run_request q)
  end.
Proof.
  destruct q; try done; cbn [run_request];
    unfold create_tenant, update_tenant, set_may_act_as, revoke_key;
    repeat first [apply quiet_issue_key|apply quiet_get_tenant|quiet_step].
Qed.

(** *** The programs that change members, workspaces or tuples *)

(** What a run does to the tables, and to the tuples of the roles it touches and of the
    others. *)
Definition keeps (q : request) s : Prop :=
  let '(r, s') := run_request q s in
  ap_ok (az_provider (ts_authz s')) ∧
  (∀ t w p r, is_valid_id t = true → ¬ touches q t w p →
     stored (az_provider (ts_authz s')) (role_tuple t w p r) ↔ stored (az_provider (ts_authz s)) (role_tuple t w p r)) ∧
  match r with
  | Raise _ => True
  | Ok _ => filed (ts_db s') ∧
      (∀ t w p, is_Some (members_ (ts_db s') !! (t, w, p)) → is_Some (workspaces (ts_db s') !! (t, w))) ∧
      (∀ t w p, is_valid_id t = true → mirrored_at s t w p → mirrored_at s' t w p)
  end.

Lemma mirrored_ext s s' t w p :
  (∀ r, stored (az_provider (ts_authz s')) (role_tuple t w p r) ↔ stored (az_provider (ts_authz s)) (role_tuple t w p r)) →
  members_ (ts_db s') = members_ (ts_db s) → workspaces (ts_db s') = workspaces (ts_db s) →
  mirrored_at s t w p → mirrored_at s' t w p.
Proof. intros Hst Hm Hw Hmir r. rewrite Hst, (Hmir r). unfold live_workspace. by rewrite Hm, Hw. Qed.

Lemma transact_keeps q commits undone s : tinv undone s → keeps q s →
  tinv (if settled q commits s then undone else q :: undone) (transact q commits s) ∧
  (settled q commits s = false →
   (∀ x, stored (az_provider (ts_authz (snd (run_request q s)))) x ↔ stored (az_provider (ts_authz s)) x) →
   tinv undone (transact q commits s)).
Proof.
  intros [Hok Hf Hex Hmi]. unfold keeps, transact, settled. destruct (run_request q s) as [r s']. intros (Hok' & Hframe & Hr).
  cbn [fst snd]. destruct r as [a|e]; [destruct commits|].
  - destruct Hr as (Hf' & Hex' & Hmi'). split; [|done]. split; [done..|]. intros t w p Ht Hu.
    by apply (mirrored_ext s'), Hmi', Hmi.
  - split; [|intros _ Hsame]; split; try done; intros t w p Ht Hu.
    + apply (mirrored_ext s); [|done|done|apply Hmi; [done|]; intros q' Hq'; apply Hu; by right].
      intros r. apply Hframe; [done|]. apply Hu. by left.
    + apply (mirrored_ext s); [intros r; apply Hsame|done|done|by apply Hmi].
  - split; [|intros _ Hsame]; split; try done; intros t w p Ht Hu.
    + apply (mirrored_ext s); [|done|done|apply Hmi; [done|]; intros q' Hq'; apply Hu; by right].
      intros r. apply Hframe; [done|]. apply Hu. by left.
    + apply (mirrored_ext s); [intros r; apply Hsame|done|done|by apply Hmi].
Qed.

Lemma quiet_keeps undone q s : tinv undone s → quiet (run_request q) → keeps q s.
Proof.
  intros [Hok Hfl Hex Hmi] Hq. unfold keeps. destruct (Hq s Hfl) as (Ha & Hm & Hw & Hf).
  destruct (run_request q s) as [r s']; simpl in *. rewrite Ha. split_and!; [done|done|].
  destruct r; [|done]. rewrite Hm, Hw. split_and!; [done|done|]. intros t w p Ht. apply mirrored_ext; [by rewrite Ha|done..].
Qed.

(** A run that raises before it writes a tuple, or writes none. *)
Lemma keeps_still q s : ap_ok (az_provider (ts_authz s)) → (∃ e, fst (run_request q s) = Raise e) →
  az_provider (ts_authz (snd (run_request q s))) = az_provider (ts_authz s) → keeps q s.
Proof. intros Hok [e He] Hp. unfold keeps. destruct (run_request q s) as [r s']. simpl in *. subst r. by rewrite Hp. Qed.

Lemma get_workspace_cases t w s :
  (∃ e, get_workspace t w s = (Raise e, s)) ∨
  (∃ x, get_workspace t w s = (Ok x, s) ∧ live_workspace (ts_db s) t w = Some x ∧ is_valid_id w = true).
Proof.
  unfold get_workspace, lift, bind, valid_, in_db, zoom, workspaces_get, gets.
  destruct (is_valid_id w) eqn:Hw; [|by eauto]. rewrite set_ts_db_id.
  destruct (live_workspace (ts_db s) t w) as [x|]; [|by eauto]. right. by eexists.
Qed.

Lemma principal_of_cases p :
  (∃ e, principal_of p = Raise e) ∨ (∃ k i, principal_of p = Ok (k, i) ∧ parse_principal p = Ok (k, i)).
Proof.
  unfold principal_of. destruct (parse_principal p) as [[k i]|[]] eqn:E; eauto.
Qed.

Lemma live_exists d t w x : live_workspace d t w = Some x → is_Some (workspaces d !! (t, w)).
Proof. unfold live_workspace. by destruct (workspaces d !! (t, w)). Qed.

Lemma keeps_create undone now f t n w s : tinv undone s → request_ok (QCreateWorkspace now f t n w) →
  keeps (QCreateWorkspace now f t n w) s.
Proof.
  intros [Hok0 Hf Hex _] [_ Ht]. unfold keeps. cbn [run_request]. unfold create_workspace, lift. unfold bind at 1 2.
  destruct (require_id w "workspace" f) as [w'|e]; [|done].
  unfold in_db, zoom, ever_existed, bind, gets. rewrite set_ts_db_id.
  destruct (bool_decide (is_Some (workspaces (ts_db s) !! (t, w')))) eqn:He; [done|].
  apply bool_decide_eq_false, eq_None_not_Some in He.
  destruct (_ || _); [done|]. destruct (clean_name n) as [nm|e]; [|done].
  unfold build_workspace. destruct (name_fits _); [|done].
  unfold workspaces_add, insert_row. cbn [ws_tenant ws_id]. rewrite He. unfold in_authz, zoom.
  destruct (run_grant_spec (GWorkspace t w') true (ts_authz s) Hok0) as (r & a & Ha & Hok & _ & Hst & _);
    [done|]. cbn [run_grant] in Ha. cbn [ts_authz set_ts_db]. rewrite Ha. cbn [grant_adds grant_dels] in Hst.
  assert (∀ t' w1 p r', stored (az_provider a) (role_tuple t' w1 p r') ↔ stored (az_provider (ts_authz s)) (role_tuple t' w1 p r')) as Hsame.
  { intros t' w1 p r'. apply (wrote_frame _ _ _ _ _ _ Hst); [|by apply not_elem_of_nil].
    intros Heq%list_elem_of_singleton. apply (f_equal t_relation) in Heq. by destruct r'. }
  destruct r as [[]|e]; cbn [ret]; (split; [done|split; [by intros; apply Hsame|]]); [|done].
  split_and!; [by destruct Hf| |].
  - intros t' w1 p Hm. cbn [ts_db ts_authz set_ts_authz set_ts_db members_ workspaces set_workspaces] in *.
    rewrite lookup_insert_is_Some'. right. by apply (Hex _ _ p).
  - intros t' w1 p Ht' Hmi r'. cbn [ts_db ts_authz set_ts_authz set_ts_db members_ set_workspaces].
    rewrite Hsame. etransitivity; [exact (Hmi r')|].
    unfold live_workspace. cbn [workspaces set_workspaces].
    destruct (decide ((t, w') = (t', w1))) as [Heq|Hneq]; [|by rewrite lookup_insert_ne by done].
    injection Heq as <- <-. split; intros (m & Hm & _); exfalso.
    + destruct (Hex t w' p) as [? ?]; [by eexists|congruence].
    + destruct (Hex t w' p) as [? ?]; [by eexists|congruence].
Qed.

Lemma keeps_delete undone now t w s : tinv undone s → request_ok (QDeleteWorkspace now t w) →
  keeps (QDeleteWorkspace now t w) s.
Proof.
  intros Hs Ht. pose proof Hs as [Hok0 Hf Hex _]. unfold keeps. cbn [run_request]. unfold bind at 1.
  destruct (is_valid_id w) eqn:Hw;
    [|by unfold delete_workspace, lift, bind, valid_; rewrite Hw].
  destruct (live_workspace (ts_db s) t w) as [x|] eqn:Hlive.
  - destruct (delete_live now t w x s Hok0 Ht Hw Hf Hlive) as (r & s' & -> & Hok & _ & Hframe & Hspec).
    assert (∀ t' w' p r', is_valid_id t' = true → ¬ (t = t' ∧ w = w') →
      stored (az_provider (ts_authz s')) (role_tuple t' w' p r') ↔ stored (az_provider (ts_authz s)) (role_tuple t' w' p r')) as Hother.
    { intros t' w' p r' Ht' Hne. apply Hframe. intros (p' & r1 & Heq). apply role_tuple_inj in Heq as (-> & -> & _); [|done..]. by apply Hne. }
    destruct r as [ids|e]; cbn [ret]; (split; [done|split; [intros t' w' p r'; apply Hother|]]); [|done].
    destruct Hspec as (-> & _ & Hme & Hws & Hks & Hst). split_and!.
    + split.
      * intros id k Hk. rewrite Hks in Hk. apply fmap_Some in Hk as (k0 & Hk0 & ->).
        unfold revoked_if. destruct (decide _); exact (fl_keys _ Hf _ _ Hk0).
      * rewrite Hme. exact (fl_members _ Hf).
    + intros t' w' p Hm. rewrite Hme in Hm. rewrite Hws. apply lookup_insert_is_Some'. right. by apply (Hex _ _ p).
    + intros t' w' p Ht' Hmi r. unfold live_workspace. rewrite Hme, Hws.
      destruct (decide ((t, w) = (t', w'))) as [Heq|Hne].
      * injection Heq as <- <-. rewrite Hst, (Hmi r), lookup_insert_eq. split.
        -- intros [(m & Hm & <- & _) Hn]. destruct Hn. exists p, (wm_role m). by split; [eexists|].
        -- intros (m & _ & _ & [y [=]]).
      * rewrite Hother by (done || naive_solver). rewrite lookup_insert_ne by done. exact (Hmi r).
  - unfold delete_workspace, lift. unfold bind at 1, valid_. rewrite Hw.
    erewrite (bind_ok (serialize _)); [|done].
    erewrite (bind_ok (in_db (workspaces_get t w)));
      [|unfold in_db, zoom, workspaces_get, gets; simpl; by rewrite Hlive].
    cbv beta iota. erewrite (bind_ok (in_db (ever_existed t w))); [|done].
    cbn [ts_db set_ts_db add_lock]. destruct (bool_decide _); [|done]. cbn [ret].
    split_and!; [done..|]. intros t' w' p _. by apply mirrored_ext.
Qed.

(** The tuples after a change of one member's row. *)
Lemma mirrored_change s s' t w p :
  is_valid_id t = true → is_Some (live_workspace (ts_db s) t w) →
  workspaces (ts_db s') = workspaces (ts_db s) →
  (∀ q, q ≠ (t, w, p) → members_ (ts_db s') !! q = members_ (ts_db s) !! q) →
  (mirrored_at s t w p → ∀ r, stored (az_provider (ts_authz s')) (role_tuple t w p r) ↔
        wm_role <$> members_ (ts_db s') !! (t, w, p) = Some r) →
  (∀ x, ¬ role_of_member t w p x →
        stored (az_provider (ts_authz s')) x ↔ stored (az_provider (ts_authz s)) x) →
  ∀ t' w' p', is_valid_id t' = true → mirrored_at s t' w' p' → mirrored_at s' t' w' p'.
Proof.
  intros Ht Hlive Hw Hother Hrow Hrest t' w' p' Ht' Hmi r. unfold live_workspace in *. rewrite Hw.
  destruct (decide ((t, w, p) = (t', w', p'))) as [Heq|Hne].
  - injection Heq as <- <- <-. rewrite Hrow by done. split.
    + intros (m & Hm & Hr)%fmap_Some. by exists m.
    + intros (m & -> & <- & _). done.
  - rewrite Hrest.
    + rewrite (Hother (t', w', p')) by done. exact (Hmi r).
    + intros (r' & Heq). apply role_tuple_inj in Heq as (-> & -> & -> & _); done.
Qed.

Lemma frame_others s (a : authz_state P C) t w p : is_valid_id t = true →
  (∀ x, ¬ role_of_member t w p x → stored (az_provider a) x ↔ stored (az_provider (ts_authz s)) x) →
  ∀ t' w' p' r, is_valid_id t' = true → ¬ (t = t' ∧ w = w' ∧ p = p') →
    stored (az_provider a) (role_tuple t' w' p' r) ↔ stored (az_provider (ts_authz s)) (role_tuple t' w' p' r).
Proof.
  intros Ht Hframe t' w' p' r Ht' Hne. apply Hframe. intros (r' & Heq). apply role_tuple_inj in Heq as (-> & -> & -> & _); [|done..].
  by apply Hne.
Qed.

Lemma keeps_remove undone t w p s : tinv undone s → request_ok (QRemoveMember t w p) → keeps (QRemoveMember t w p) s.
Proof.
  intros [Hok0 Hf Hex _] Ht. unfold keeps. cbn [run_request]. unfold remove_member, lift. unfold bind at 1.
  destruct (principal_of_cases p) as [[e ->]|(k & i & -> & Hp)]; [done|].
  erewrite (bind_ok (serialize _)); [|done]. set (s1 := add_lock _ s).
  destruct (get_workspace_cases t w s1) as [[e He]|(x & Hx & Hlive & Hw)]; [unfold bind; by rewrite He|].
  erewrite bind_ok; [|exact Hx]. unfold in_db, zoom, remove_member_row. unfold bind at 1.
  destruct (run_grant_spec (GRevokeMember t w p) true (ts_authz s) Hok0) as (r & a & Ha & Hok & _ & Hst & _);
    [split; [done|by exists k, i]|]. cbn [run_grant] in Ha.
  unfold in_authz, zoom. cbn [ts_authz set_ts_db s1 add_lock]. rewrite Ha.
  assert (∀ x, ¬ role_of_member t w p x → stored (az_provider a) x ↔ stored (az_provider (ts_authz s)) x) as Hframe.
  { intros y Hy. apply (wrote_frame _ _ _ _ _ _ Hst); [by apply not_elem_of_nil|]. cbn [grant_dels].
    intros (r' & -> & _)%list_elem_of_fmap. apply Hy. by exists r'. }
  split; [done|]. split; [by apply frame_others|]. destruct r as [[]|e]; [|done]. split_and!.
  - destruct Hf as [Hfk Hfm]. split; [done|]. intros q m Hq. cbn [ts_db set_ts_authz set_ts_db members_ set_members] in Hq.
    apply lookup_delete_Some in Hq as [_ Hq]. by apply Hfm.
  - intros t' w' p' Hm. apply (Hex t' w' p'). destruct Hm as [m Hm].
    cbn [ts_db set_ts_authz set_ts_db members_ set_members] in Hm. apply lookup_delete_Some in Hm as [_ Hm]. by eexists.
  - apply (mirrored_change s _ t w p); [done|by eexists|done| | |exact Hframe];
      cbn [ts_authz ts_db set_ts_authz set_ts_db members_ set_members].
    + intros q Hq. by rewrite lookup_delete_ne.
    + intros _ r. rewrite lookup_delete_eq. split; [|done]. intros [Hin|[Hn _]]%Hst; [by apply elem_of_nil in Hin|].
      destruct Hn. cbn [grant_dels]. apply list_elem_of_fmap. exists r. split; [done|].
      unfold WORKSPACE_ROLES. destruct r; set_solver.
Qed.

Lemma keeps_set undone now t w p r by_ s : tinv undone s → request_ok (QSetMember now t w p r by_) →
  keeps (QSetMember now t w p r by_) s.
Proof.
  intros [Hok0 Hf Hex _] Ht. unfold keeps. cbn [run_request]. unfold set_member, lift. unfold bind at 1 2.
  destruct (principal_of_cases p) as [[e ->]|(k & i & -> & Hp)]; [done|].
  destruct (_ && _) eqn:Hadmin; [done|]. unfold bind at 1.
  cbn [serialize modify]. set (s1 := add_lock _ s).
  destruct (get_workspace_cases t w s1) as [[e He]|(x & Hx & Hlive & Hw)]; [unfold bind; by rewrite He|].
  erewrite bind_ok; [|exact Hx]. unfold in_db, zoom, put_member. unfold bind at 1.
  set (m := {| wm_tenant := t |}). set (prev := wm_role <$> _).
  destruct (run_grant_spec (GSetMember t w p r prev) true (ts_authz s) Hok0)
    as (o & a & Ha & Hok & _ & Hst & _).
  { split; [done|]. exists k, i. split; [done|]. intros ->. destruct (String.eqb_spec k "user"); [done|].
    by rewrite bool_decide_true in Hadmin. }
  cbn [run_grant] in Ha. unfold in_authz, zoom, bind. cbn [ts_authz set_ts_db s1 add_lock]. rewrite Ha.
  assert (∀ x, ¬ role_of_member t w p x → stored (az_provider a) x ↔ stored (az_provider (ts_authz s)) x) as Hframe.
  { intros y Hy. apply (wrote_frame _ _ _ _ _ _ Hst); cbn [grant_adds grant_dels].
    - intros ->%list_elem_of_singleton. apply Hy. by exists r.
    - destruct prev as [r0|]; [|by apply not_elem_of_nil]. destruct (decide _); [by apply not_elem_of_nil|].
      intros ->%list_elem_of_singleton. apply Hy. by exists r0. }
  destruct o as [[]|e]; cbn [ret]; (split; [done|]; split; [by apply frame_others|]); [|done]. split_and!.
  - destruct Hf as [Hfk Hfm]. split; [done|]. intros q m' Hq. cbn [ts_db set_ts_authz set_ts_db members_ set_members] in Hq.
    apply lookup_insert_Some in Hq as [[<- <-]|[_ Hq]]; [|by apply Hfm].
    split; [done|]. by exists k, i.
  - intros t' w' p' Hm. destruct Hm as [m' Hm].
    cbn [ts_db set_ts_authz set_ts_db members_ set_members] in Hm. apply lookup_insert_Some in Hm as [[[= <- <- <-] _]|[_ Hm]].
    + by eapply live_exists.
    + apply (Hex t' w' p'). by eexists.
  - apply (mirrored_change s _ t w p); [done|by eexists|done| | |exact Hframe];
      cbn [ts_authz ts_db set_ts_authz set_ts_db members_ set_members].
    + intros q Hq. by rewrite lookup_insert_ne.
    + intros Hmi r'. change (member_key m) with (t, w, p). rewrite lookup_insert_eq. cbn [fmap option_fmap option_map wm_role m].
      rewrite (Hst (role_tuple t w p r')). cbn [grant_adds]. rewrite list_elem_of_singleton. split.
      * intros [Heq|[Hn Hold]].
        -- apply role_tuple_inj in Heq as (_ & _ & _ & ->); done.
        -- apply (Hmi r') in Hold as (m0 & Hm0 & <- & _).
           assert (prev = Some (wm_role m0)) as Hprev by exact (f_equal (fmap wm_role) Hm0).
           rewrite Hprev in Hn. cbn [grant_dels] in Hn. destruct (decide (wm_role m0 = r)) as [->|]; [done|].
           destruct Hn. by apply list_elem_of_singleton.
      * intros [= ->]. by left.
Qed.

Lemma object_grant_objects g :
  object_grant g → Forall (λ x, obj_type (t_object x) ≠ "workspace") (grant_adds g).
Proof.
  intros Hg. assert (∀ ty i, str_in ":" ty = false → ty ≠ "workspace" →
    obj_type (ty +:+ ":" +:+ i) ≠ "workspace") as Hty by (intros ty i Hc; by rewrite obj_type_of).
  destruct g as [ctx th w|ctx d th w|ctx m o|t u a|t w|t w p r prev|t w p]; try done; cbn [grant_adds].
  - unfold thread_tuples. constructor; [by apply (Hty "thread")|].
    apply Forall_app. split; [apply opt_tuple_all; intros; by apply (Hty "thread")|].
    apply Forall_app. split; [apply opt_tuple_all; intros; by apply (Hty "thread")|].
    destruct (is_agent ctx); [|done]. constructor; [|done]. by apply (Hty "thread").
  - unfold document_tuples. constructor; [by apply (Hty "document")|].
    apply Forall_app. split; [apply opt_tuple_all; intros; by apply (Hty "document")|].
    apply Forall_app. split; apply opt_tuple_all; intros; by apply (Hty "document").
  - repeat constructor; by apply (Hty "memory").
  - repeat constructor; by apply (Hty "tenant").
Qed.

Lemma keeps_request undone q s : tinv undone s → request_ok q → keeps q s.
Proof.
  intros Hs Hq. pose proof (quiet_request q) as Hquiet. destruct q;
    first [by eapply quiet_keeps|by eapply keeps_create|by eapply keeps_delete|by eapply keeps_set|by eapply keeps_remove].
Qed.

Lemma tinv_grant undone g wr s : tinv undone s → grant_ok g → object_grant g →
  tinv undone (set_ts_authz (snd (run_grant g wr (ts_authz s))) s).
Proof.
  intros [Hok0 Hf Hex Hmi] Hg Hobj. destruct (run_grant_spec g wr (ts_authz s) Hok0 Hg) as (r & a & -> & Hok & _ & Hst & _).
  split; [done..|]. intros t w p Ht Hu. apply (mirrored_ext s); [|done|done|by apply Hmi]. intros r'.
  apply (wrote_frame _ _ _ _ _ _ Hst); [|destruct g; first [done|by apply not_elem_of_nil]].
  intros Hin. pose proof (object_grant_objects g Hobj) as Hall. rewrite Forall_forall in Hall.
  destruct (Hall _ Hin). by apply (obj_type_of "workspace").
Qed.

Lemma tinv_steps s0 undone s : tinv [] s0 → tsteps s0 undone s → tinv undone s.
Proof.
  intros Hs. induction 1 as [|undone s q c _ IH Hq|undone s q c _ IH Hq Hset Hsame|undone s g wr _ IH Hg Hobj|undone s th d _ IH].
  - done.
  - apply (transact_keeps q c undone s IH). by eapply keeps_request.
  - apply (transact_keeps q c undone s IH); [by eapply keeps_request|done..].
  - by apply tinv_grant.
  - destruct IH as [? ? ? Hmi]. split; [done..|]. intros t w p Ht Hu. by apply (mirrored_ext s), Hmi.
Qed.

Record no_teams s : Prop := {
  nt_empty : empty_store (ts_authz s);
  nt_workspaces : workspaces (ts_db s) = ∅;
  nt_members : members_ (ts_db s) = ∅;
  nt_keys : api_keys (ts_db s) = ∅;
}.

Lemma tinv_start s : no_teams s → tinv [] s.
Proof.
  intros [[Hok _ Hno] Hw Hm Hk]. split; [done| | |].
  - split; [intros id k; by rewrite Hk|intros q m; by rewrite Hm].
  - intros t w p. rewrite Hm, lookup_empty. by intros [? ?].
  - intros t w p _ _ r. rewrite Hm, lookup_empty. split; [by intros ?%Hno|by intros (m & [=] & _)].
Qed.


(** *** Workspace rows are never removed, and a deleted one never changes *)

Definition grow (d d' : tenancy_db) : Prop :=
  ∀ q x, workspaces d !! q = Some x →
    ∃ x', workspaces d' !! q = Some x' ∧ (ws_deleted_at x ≠ None → x' = x).

Lemma grow_refl d : grow d d.
Proof. intros q x Hx. by exists x. Qed.

Lemma grow_same d d' : workspaces d' = workspaces d → grow d d'.
Proof. intros Hw q x Hx. exists x. by rewrite Hw. Qed.

Lemma grow_trans d1 d2 d3 : grow d1 d2 → grow d2 d3 → grow d1 d3.
Proof.
  intros H12 H23 q x Hx. destruct (H12 q x Hx) as (x' & Hx' & He). destruct (H23 q x' Hx') as (x'' & Hx'' & He').
  exists x''. split; [done|]. intros Hn. rewrite He in He'; [|done]. rewrite He'; done.
Qed.

Definition grows {A} (m : prog (tenancy_sys P C) A) : Prop := ∀ s, grow (ts_db s) (ts_db (snd (m s))).

Lemma grows_bind {A B} (m : prog (tenancy_sys P C) A) (k : A → prog (tenancy_sys P C) B) :
  grows m → (∀ x, grows (k x)) → grows (bind m k).
Proof.
  intros Hm Hk s. unfold bind. specialize (Hm s). destruct (m s) as [[x|e] s1]; [|done].
  eapply grow_trans; [exact Hm|apply Hk].
Qed.

Lemma grows_same {A} (m : prog (tenancy_sys P C) A) :
  (∀ s, workspaces (ts_db (snd (m s))) = workspaces (ts_db s)) → grows m.
Proof. intros Hm s. by apply grow_same. Qed.

Lemma grows_mapM {A} (f : A → prog (tenancy_sys P C) unit) l : (∀ x, grows (f x)) → grows (mapM_ f l).
Proof. intros Hf. induction l as [|x l IH]; [by apply grows_same|]. by apply grows_bind. Qed.

Lemma grows_db {A} (m : tdb A) : (∀ d, grow d (snd (m d))) → grows (in_db m).
Proof. intros Hm s. unfold in_db, zoom. specialize (Hm (ts_db s)). by destruct (m (ts_db s)). Qed.

Lemma grows_db_same {A} (m : tdb A) : (∀ d, workspaces (snd (m d)) = workspaces d) → grows (in_db m).
Proof. intros Hm. apply grows_db. intros d. by apply grow_same. Qed.

Lemma grows_authz {A} (m : prog (authz_state P C) A) : grows (in_authz m).
Proof. apply grows_same. intros s. unfold in_authz, zoom. by destruct (m (ts_authz s)). Qed.

Lemma grows_insert {K V} `{Countable K} (get : tenancy_db → gmap K V) put k v what :
  (∀ m d, workspaces (put m d) = workspaces d) → grows (in_db (insert_row get put k v what)).
Proof. intros Hp. apply grows_db_same. intros d. unfold insert_row. destruct (get d !! k); [done|apply Hp]. Qed.

Lemma grows_workspaces_add x : grows (in_db (workspaces_add x)).
Proof.
  apply grows_db. intros d. unfold workspaces_add, insert_row. destruct (workspaces d !! _) eqn:E; [apply grow_refl|].
  intros q y Hy. exists y. split; [|done]. simpl. rewrite lookup_insert_ne; [done|]. congruence.
Qed.

Lemma grows_soft_delete t w now : grows (in_db (workspaces_soft_delete t w now)).
Proof.
  apply grows_db. intros d. unfold workspaces_soft_delete. destruct (live_workspace d t w) as [x|] eqn:E; [|apply grow_refl].
  unfold live_workspace in E. destruct (workspaces d !! (t, w)) as [x0|] eqn:Ex; [|done]. simpl in E.
  destruct (decide _) as [Hn|]; [|done].
  intros q y Hy. cbn [snd workspaces set_workspaces]. destruct (decide ((t, w) = q)) as [<-|Hne].
  - exists (deleted_workspace now x). split; [by rewrite lookup_insert_eq|]. intros Hd. congruence.
  - exists y. split; [|done]. by rewrite lookup_insert_ne.
Qed.

Lemma grows_keys_revoke t k now : grows (in_db (keys_revoke t k now)).
Proof.
  apply grows_db_same. intros d. unfold keys_revoke. destruct (api_keys d !! k); [|done]. by destruct (bool_decide _).
Qed.

Lemma grows_keys_set t k ps : grows (in_db (keys_set_may_act_as t k ps)).
Proof.
  apply grows_db_same. intros d. unfold keys_set_may_act_as. destruct (api_keys d !! k); [|done]. by destruct (bool_decide _).
Qed.

Ltac grows_step :=
  first
    [ apply grows_bind; [|intros ?] | apply grows_mapM; intros ? | apply grows_authz
    | apply grows_workspaces_add | apply grows_soft_delete | apply grows_keys_revoke | apply grows_keys_set
    | apply grows_insert; done | apply grows_db_same; done | apply grows_same; done
    | match goal with
      | |- grows (match ?x with _ => _ end) => destruct x
      end ].

Lemma grows_request q : grows (run_request q).
Proof.
  destruct q; cbn [run_request];
    unfold create_tenant, update_tenant, set_may_act_as, revoke_key, issue_key, create_workspace,
      delete_workspace, set_member, remove_member, get_workspace, get_tenant;
    repeat grows_step.
Qed.

Lemma grow_transact q c s : grow (ts_db s) (ts_db (transact q c s)).
Proof.
  unfold transact, settled. pose proof (grows_request q s) as Hg.
  destruct (run_request q s) as [[[]|e] s1]; [destruct c|]; [done|apply grow_refl..].
Qed.

Lemma grow_steps s undone s' : tsteps s undone s' → grow (ts_db s) (ts_db s').
Proof. induction 1; [apply grow_refl|..]; (eapply grow_trans; [done|]); first [apply grow_transact|apply grow_refl]. Qed.

Lemma tsteps_app s0 u1 s1 u2 s2 : tsteps s0 u1 s1 → tsteps s1 u2 s2 → tsteps s0 (u2 ++ u1) s2.
Proof.
  intros Hs1. induction 1 as [|u2 s q c _ IH Hq|u2 s q c _ IH Hq Hset Hsame|u2 s g wr _ IH Hg Hobj|u2 s th d _ IH]; cbn [app].
  - done.
  - replace ((if settled q c s then u2 else q :: u2) ++ u1) with (if settled q c s then u2 ++ u1 else q :: (u2 ++ u1)) by by destruct (settled q c s).
    by apply t_request.
  - by apply t_refused.
  - by apply t_grant.
  - by apply t_labels.
Qed.
End requests.

(** ** Issuing a key *)

Section issue.
Context {P C : Type} `{AuthorizationLaws P} `{CacheProvider C}.
Variable content_hash : string → string.
Implicit Types s : tenancy_sys P C.

(** When a key may be issued. *)
Record may_issue (now : Z) (tenant_id : string) (role : KeyRole) (name : string)
    (workspace_id : option string) (may_act_as : list string) s : Prop := {
  mi_role : role ≠ PLATFORM;
  mi_admin : role = ADMIN → workspace_id = None;
  mi_tenant_id : is_valid_id tenant_id = true;
  mi_active : ∃ t, tenants (ts_db s) !! tenant_id = Some t ∧ tn_status t = active;
  mi_workspace w : workspace_id = Some w →
    is_valid_id w = true ∧ is_Some (live_workspace (ts_db s) tenant_id w);
  mi_cap : ∃ n, fst (keys_count_live now tenant_id (ts_db s)) = Ok n ∧ (n < MAX_KEYS_PER_TENANT)%nat;
  mi_name : ∃ nm, clean_name name = Ok nm ∧ name_fits nm = true;
  mi_acting : ∃ ps, acting_principals may_act_as = Ok ps;
}.

Lemma count_live_insert now t k d :
  api_keys d !! ak_id k = None → ak_tenant k = t →
  ∃ n n', fst (keys_count_live now t d) = Ok n ∧
    fst (keys_count_live now t (set_api_keys (<[ak_id k := k]> (api_keys d)) d)) = Ok n' ∧ (n' ≤ S n)%nat.
Proof.
  intros Hk Ht. eexists _, _. split; [done|]. split; [done|]. cbn [api_keys set_api_keys].
  assert (rows (<[ak_id k := k]> (api_keys d)) ≡ₚ k :: rows (api_keys d)) as Hp
    by (unfold rows; by rewrite map_to_list_insert).
  rewrite Hp. rewrite filter_cons. destruct (decide _); simpl; lia.
Qed.

Lemma principals_cases ps :
  (∃ l, acting_principals ps = Ok l ∧ principals_ ps = Ok l) ∨
  (∃ e e', acting_principals ps = Raise e ∧ principals_ ps = Raise e').
Proof. unfold principals_. destruct (acting_principals ps) as [l|[]]; eauto. Qed.

Lemma get_tenant_cases t s :
  (∃ e, get_tenant t s = (Raise e, s) ∧ (is_valid_id t = false ∨ tenants (ts_db s) !! t = None)) ∨
  (∃ x, get_tenant t s = (Ok x, s) ∧ is_valid_id t = true ∧ tenants (ts_db s) !! t = Some x).
Proof.
  unfold get_tenant, lift, bind, valid_, in_db, zoom, tenants_get, gets.
  destruct (is_valid_id t) eqn:Ht; [|by eauto]. rewrite set_ts_db_id.
  destruct (tenants (ts_db s) !! t) as [x|]; [|by eauto 6]. right. by exists x.
Qed.

Lemma check_workspace_cases t w s :
  let m := match w with
           | Some w => bind (get_workspace t w) (λ _, ret tt)
           | None => ret tt
           end : prog (tenancy_sys P C) unit in
  (∃ e, m s = (Raise e, s) ∧ ¬ (∀ w', w = Some w' → is_valid_id w' = true ∧ is_Some (live_workspace (ts_db s) t w'))) ∨
  (m s = (Ok tt, s) ∧ ∀ w', w = Some w' → is_valid_id w' = true ∧ is_Some (live_workspace (ts_db s) t w')).
Proof.
  intros m. unfold m. destruct w as [w|]; [|by right].
  unfold bind, get_workspace, lift, bind, valid_, in_db, zoom, workspaces_get, gets.
  destruct (is_valid_id w) eqn:Hw.
  - rewrite set_ts_db_id. destruct (live_workspace (ts_db s) t w) as [x|] eqn:Hl.
    + right. split; [done|]. intros w' [= <-]. rewrite Hl. eauto.
    + left. eexists. split; [done|]. intros Hall. destruct (Hall w eq_refl) as [_ [? ?]]. congruence.
  - left. eexists. split; [done|]. intros Hall. destruct (Hall w eq_refl). congruence.
Qed.
End issue.

(** C39: the tuples say what the tables say, wherever every change went through. From
    a start without teams, after any sequence of requests, each committed or rolled back
    because its handler raised, a tuple write failed part-way or the database's commit
    failed, and of grants of threads, documents, memories and tenant memberships: a
    principal whose role no rolled-back request had already changed in the tuples holds a
    role tuple on a workspace exactly when its membership row has that role and the
    workspace is live. So it holds no two roles, and none on a deleted workspace. *)
Theorem roles_mirror_members {P C} `{AuthorizationLaws P} `{CacheProvider C} content_hash
    (s0 s : tenancy_sys P C) undone t w p r :
  no_teams s0 → tsteps content_hash s0 undone s → is_valid_id t = true →
  (∀ q, q ∈ undone → ¬ touches q t w p) →
  stored (az_provider (ts_authz s)) (role_tuple t w p r) ↔
  ∃ m, members_ (ts_db s) !! (t, w, p) = Some m ∧ wm_role m = r ∧ is_Some (live_workspace (ts_db s) t w).
Proof.
  intros Hstart Hsteps Ht Hu. apply (ti_mirror undone s); [|done..]. eapply tinv_steps; [|exact Hsteps]. by apply tinv_start.
Qed.

(** A deleted workspace never comes back. Once a workspace id was used and
    its workspace is deleted, then after any further requests its row is the
    same, looking it up or adding a member is refused as not found, creating a
    workspace under the id is a conflict, and no principal holds a role on it whose role
    no rolled-back request had changed. *)
Theorem deleted_workspace_never_returns {P C} `{AuthorizationLaws P} `{CacheProvider C} content_hash
    (s0 s1 s2 : tenancy_sys P C) u1 u2 t w x :
  no_teams s0 → tsteps content_hash s0 u1 s1 → is_valid_id t = true → is_valid_id w = true →
  workspaces (ts_db s1) !! (t, w) = Some x → ws_deleted_at x ≠ None → tsteps content_hash s1 u2 s2 →
  workspaces (ts_db s2) !! (t, w) = Some x ∧
  fst (get_workspace t w s2) = Raise (err NotFound "Workspace not found") ∧
  (∀ now p r by_, is_Some (raised (fst (set_member now t w p r by_ s2)))) ∧
  (∀ now fresh name, fst (create_workspace now fresh t name (Some w) s2) =
     Raise (err Conflict ("workspace id " +:+ w +:+ " exists or was used before"))) ∧
  (∀ p r, (∀ q, q ∈ u2 ++ u1 → ¬ touches q t w p) → ¬ stored (az_provider (ts_authz s2)) (role_tuple t w p r)).
Proof.
  intros Hstart Hs01 Ht Hw Hx Hd Hs12.
  destruct (grow_steps content_hash s1 u2 s2 Hs12 (t, w) x Hx) as (x' & Hx' & He). rewrite He in Hx' by done.
  assert (live_workspace (ts_db s2) t w = None) as Hdead.
  { unfold live_workspace. rewrite Hx'. simpl. by rewrite decide_False. }
  assert (tinv (u2 ++ u1) s2) as Hinv by (eapply tinv_steps; [by apply tinv_start|by eapply tsteps_app]).
  assert (∀ s : tenancy_sys P C, ts_db s = ts_db s2 →
    fst (get_workspace t w s) = Raise (err NotFound "Workspace not found")) as Hget.
  { intros s Hs. unfold get_workspace, lift, bind, valid_, in_db, zoom, workspaces_get, gets.
    by rewrite Hw, Hs, Hdead. }
  split_and!; [done|by apply Hget| | |].
  - intros now p r by_. unfold set_member, lift. unfold bind at 1.
    destruct (principal_of_cases p) as [[e ->]|(k & i & -> & _)]; [by eexists|].
    destruct (_ && _); [by eexists|]. unfold bind at 1. cbn [serialize modify]. unfold bind at 1.
    specialize (Hget (add_lock (members_lock t w) s2) eq_refl).
    destruct (get_workspace t w _) as [o s]. simpl in Hget. subst o. by eexists.
  - intros now fresh name. unfold create_workspace, lift, require_id, valid_. rewrite Hw. unfold bind at 1 2.
    unfold in_db at 1, zoom, ever_existed, gets. by rewrite bool_decide_true by (by rewrite Hx').
  - intros p r Hu Hst. apply (ti_mirror _ s2 Hinv t w p Ht Hu) in Hst as (m & _ & _ & [y Hy]). congruence.
Qed.

(** The row [issue_key] writes. *)
Definition issued_key (content_hash : string → string) (now : Z) (key_id secret tenant_id : string) (role : KeyRole)
    (name by_ : string) (workspace_id : option string) (exp : option Z) (acting : list string) : ApiKey :=
  {| ak_id := key_id; ak_tenant := tenant_id; ak_role := role; ak_name := name; ak_workspace := workspace_id;
     ak_secret_hash := hash_secret content_hash secret; ak_created_by := actor by_; ak_created_at := now;
     ak_expires_at := match exp with
                      | Some d => if Z.eqb d 0 then None else Some (now + d * DAY)
                      | None => None
                      end;
     ak_revoked_at := None; ak_last_used_at := None; ak_may_act_as := acting |}.

Lemma issue_key_cases {P C} `{AuthorizationLaws P} `{CacheProvider C} content_hash now key_id secret t
    role name by_ ws exp acting (s : tenancy_sys P C) :
  api_keys (ts_db s) !! key_id = None →
  match issue_key content_hash now key_id secret t role name by_ ws exp acting s with
  | (Ok (key, token), s') =>
      may_issue now t role name ws acting s ∧
      (∃ nm ps, key = issued_key content_hash now key_id secret t role nm by_ ws exp ps) ∧
      token = snd (fst (mint_token content_hash key_id secret)) ∧
      ts_db s' = set_api_keys (<[key_id := key]> (api_keys (ts_db s))) (ts_db s)
  | (Raise _, s') => ts_db s' = ts_db s ∧ ¬ may_issue now t role name ws acting s
  end.
Proof.
  intros Hfresh. unfold issue_key.
  destruct (decide (role = PLATFORM)) as [Hp|Hp]; [split; [done|by intros []]|].
  destruct (_ && _) eqn:Ha.
  { split; [done|]. intros [_ Hadm].
    apply andb_true_iff in Ha as [Hr%bool_decide_eq_true Hw%bool_decide_eq_true].
    rewrite (Hadm Hr) in Hw. by destruct Hw. }
  destruct (get_tenant_cases t s) as [(e & Hg & Hbad)|(x & Hg & Ht & Hx)].
  { erewrite bind_raise; [|exact Hg]. split; [done|].
    intros [_ _ Ht (x & Hx & _)]. destruct Hbad; congruence. }
  erewrite bind_ok; [|exact Hg].
  destruct (bool_decide (tn_status x = active)) eqn:Hact; cbv [negb];
    [apply bool_decide_eq_true in Hact|apply bool_decide_eq_false in Hact].
  2: { split; [done|]. intros [_ _ _ (y & Hy & ?)]. congruence. }
  destruct (check_workspace_cases t ws s) as [(e & Hw & Hno)|(Hw & Hyes)].
  { erewrite bind_raise; [|exact Hw]. split; [done|by intros []]. }
  erewrite bind_ok; [|exact Hw]. erewrite (bind_ok (serialize _)); [|done].
  set (s1 := add_lock _ s). unfold bind at 1. unfold in_db at 1, zoom.
  change (keys_count_live now t (ts_db s1)) with (keys_count_live now t (ts_db s)).
  destruct (keys_count_live now t (ts_db s)) as [[n|?] d] eqn:Hcount; [|done].
  assert (d = ts_db s) as -> by (unfold keys_count_live, gets in Hcount; congruence).
  assert (fst (keys_count_live now t (ts_db s)) = Ok n) as Hn by by rewrite Hcount.
  destruct (Nat.leb_spec MAX_KEYS_PER_TENANT n) as [Hcap|Hcap].
  { split; [done|]. intros [_ _ _ _ _ (n' & Hn' & ?) _ _].
    rewrite Hn in Hn'. injection Hn' as <-. lia. }
  unfold mint_token, lift, bind at 1.
  destruct (clean_name name) as [nm|e] eqn:Hnm;
    [|split; [done|]; intros [_ _ _ _ _ _ (nm & Hnm' & _) _]; congruence].
  unfold bind at 1. destruct (principals_cases acting) as [(ps & Hps & ->)|(e & e' & Hps & ->)];
    [|split; [done|]; intros [_ _ _ _ _ _ _ (l & Hl)]; congruence].
  unfold bind at 1, build_key. cbn [ak_name].
  destruct (name_fits nm) eqn:Hfit;
    [|split; [done|]; intros [_ _ _ _ _ _ (nm' & Hnm' & Hfit') _]; congruence].
  unfold bind at 1, in_db, zoom, keys_add, insert_row. cbn [ts_db set_ts_db ak_id]. rewrite Hfresh.
  split; [|split; [by exists nm, ps|done]]. split; try done.
  - intros ->. destruct ws; [|done]. by simpl in Ha.
  - by exists x.
  - by exists n.
  - by exists nm.
  - by exists ps.
Qed.

(** A key is issued exactly when it may be, and it works. The role is not
    PLATFORM, an ADMIN key names no workspace, the tenant is active, the
    workspace is live, the tenant is under the cap and the name and principals
    are valid: then exactly the key's row is added, the token names it and its
    secret matches, it is usable until it expires, and the tenant holds at most
    [MAX_KEYS_PER_TENANT] live keys; otherwise the request raises and no table
    changes. *)
Theorem issue_key_spec {P C} `{AuthorizationLaws P} `{CacheProvider C} content_hash now key_id secret t
    role name by_ ws exp acting (s : tenancy_sys P C) :
  is_key_id key_id = true → secret ≠ "" → api_keys (ts_db s) !! key_id = None →
  match issue_key content_hash now key_id secret t role name by_ ws exp acting s with
  | (Ok (key, token), s') =>
      may_issue now t role name ws acting s ∧
      (ak_id key = key_id ∧ ak_tenant key = t ∧ ak_role key = role ∧ ak_workspace key = ws) ∧
      ts_db s' = set_api_keys (<[key_id := key]> (api_keys (ts_db s))) (ts_db s) ∧
      (∃ n, fst (keys_count_live now t (ts_db s')) = Ok n ∧ (n ≤ MAX_KEYS_PER_TENANT)%nat) ∧
      parse_token token = Some (key_id, secret) ∧
      secret_matches content_hash secret (ak_secret_hash key) = true ∧
      (∀ later, usable_at key later = true ↔ ∀ d, exp = Some d → d ≠ 0 → later < now + d * DAY)
  | (Raise _, s') => ts_db s' = ts_db s ∧ ¬ may_issue now t role name ws acting s
  end.
Proof.
  intros Hk Hsec Hfresh.
  pose proof (issue_key_cases content_hash now key_id secret t role name by_ ws exp acting s Hfresh) as Hcases.
  destruct (issue_key _ _ _ _ _ _ _ _ _ _ _ s) as [[[key token]|e] s']; [|exact Hcases].
  destruct Hcases as (Hmay & (nm & ps & ->) & -> & Hdb).
  split_and!; try done.
  - destruct Hmay as [_ _ _ _ _ (n & Hn & Hcap) _ _]. rewrite Hdb.
    destruct (count_live_insert now t (issued_key content_hash now key_id secret t role nm by_ ws exp ps) (ts_db s))
      as (m & m' & Hm & Hm' & Hle); [done..|].
    exists m'. split; [exact Hm'|]. rewrite Hn in Hm. injection Hm as ->. lia.
  - by apply (parse_token_text key_id secret).
  - apply String.eqb_refl.
  - intros later. unfold usable_at. cbn [ak_revoked_at ak_expires_at issued_key]. destruct exp as [d|]; [|by split].
    destruct (Z.eqb_spec d 0) as [->|Hd0].
    + split; [|done]. by intros _ d [= <-].
    + rewrite Z.ltb_lt. split; [by intros Hl d' [= <-]|]. intros Hall. by apply Hall.
Qed.

(** ** Instances *)

Definition demo_workspace : Workspace :=
  {| ws_id := "w1"; ws_tenant := "acme"; ws_name := "Team"; ws_created_at := 0; ws_deleted_at := None |}.

Definition a_key (id : string) (workspace : option string) (created : Z) : ApiKey :=
  {| ak_id := id; ak_tenant := "acme"; ak_role := SERVICE; ak_name := "n"; ak_workspace := workspace;
     ak_secret_hash := "h"; ak_created_by := "key:admin"; ak_created_at := created;
     ak_expires_at := None; ak_revoked_at := None; ak_last_used_at := None;
     ak_may_act_as := [ANY_PRINCIPAL] |}.

Definition bob_in_w1 : WorkspaceMember :=
  {| wm_tenant := "acme"; wm_workspace := "w1"; wm_principal := "user:bob"; wm_role := member;
     wm_added_by := "key:admin"; wm_added_at := 0 |}.

Definition team_with_keys (ks : list ApiKey) : tenancy_sys provider MemoryCache :=
  {| ts_db := {| tenants := ∅; api_keys := list_to_map ((λ k, (ak_id k, k)) <$> ks);
                 workspaces := {[ ("acme", "w1") := demo_workspace ]};
                 members_ := {[ ("acme", "w1", "user:bob") := bob_in_w1 ]} |};
     ts_authz := snd (set_workspace_member "acme" "w1" "user:bob" member None true (demo_state 10));
     ts_thread_labels := ∅; ts_document_labels := ∅; ts_locks := [] |}.

Lemma team_filed ks : NoDup (ak_id <$> ks) → filed (ts_db (team_with_keys ks)).
Proof.
  intros Hnd. split.
  - intros id k Hk. simpl in Hk. apply elem_of_list_to_map_2, list_elem_of_fmap in Hk as (k' & [= -> ->] & _). done.
  - intros q m Hm. simpl in Hm. apply lookup_singleton_Some in Hm as [<- <-]. split; [done|].
    by exists "user", "bob".
Qed.

Lemma team_ok ks : ap_ok (az_provider (ts_authz (team_with_keys ks))).
Proof.
  destruct (run_grant_reliable (GSetMember "acme" "w1" "user:bob" member None) true (demo_state 10)
    (es_ok _ (demo_empty 10))) as (a & Ha & Hok & _); [split; [done|]; by exists "user", "bob"|].
  cbn [run_grant] in Ha. unfold team_with_keys. cbn [ts_authz]. rewrite Ha. exact Hok.
Qed.

Lemma delete_workspace_complete_witness :
  ∃ revoked s', delete_workspace 5 "acme" "w1" (team_with_keys [a_key "k1" (Some "w1") 0; a_key "k2" None 1])
                = (Ok revoked, s') ∧
    ("k1" ∈ revoked) ∧ ¬ stored (az_provider (ts_authz s')) (role_tuple "acme" "w1" "user:bob" member).
Proof.
  destruct (delete_workspace_complete 5 "acme" "w1" demo_workspace
    (team_with_keys [a_key "k1" (Some "w1") 0; a_key "k2" None 1]))
    as (revoked & s' & Hdel & Hrev & _ & _ & Hst & _).
  - apply team_ok.
  - done.
  - done.
  - apply team_filed. apply (bool_decide_unpack _). vm_compute. exact I.
  - by vm_compute.
  - apply Nat.leb_le. by vm_compute.
  - exists revoked, s'. split_and!; [exact Hdel| |].
    + apply Hrev. exists (a_key "k1" (Some "w1") 0). split_and!; by vm_compute.
    + apply Hst. by eexists.
Defined.

(** A hundred unbound keys, then one bound to the workspace. *)
Definition many_keys : list ApiKey :=
  ((λ n, a_key ("k" +:+ text_of_Z (Z.of_nat n)) None (Z.of_nat n)) <$> seq 0 100)
  ++ [a_key "bound" (Some "w1") 100].

(** The hundred-and-first key survives. [delete_workspace] looks for the keys
    to revoke in one default page of the tenant's keys, so with a hundred older
    keys it answers that nothing was revoked, and the key bound to the deleted
    workspace goes on working. *)
Theorem late_key_survives_deletion :
  match delete_workspace 200 "acme" "w1" (team_with_keys many_keys) with
  | (Ok revoked, s') =>
      revoked = [] ∧ live_workspace (ts_db s') "acme" "w1" = None ∧
      (∃ k, api_keys (ts_db s') !! "bound" = Some k ∧ ak_workspace k = Some "w1" ∧
            usable_at k 200 = true)
  | _ => False
  end.
Proof. vm_compute. split; [done|]. split; [done|]. by eexists. Qed.

Definition bare : tenancy_sys provider MemoryCache :=
  {| ts_db := {| tenants := {["acme" := {| tn_id := "acme"; tn_name := "Acme"; tn_status := active;
                    tn_retention_days := None; tn_rate_limit := None; tn_admission_gate := false;
                    tn_created_at := 0; tn_updated_at := 0 |}]};
                 api_keys := ∅; workspaces := ∅; members_ := ∅ |};
     ts_authz := demo_state 10; ts_thread_labels := ∅; ts_document_labels := ∅; ts_locks := [] |}.

Lemma bare_no_teams : no_teams bare.
Proof. split; [apply demo_empty|done|done|done]. Qed.

(** A team is made, bob joins and is promoted; then the team is deleted. *)
Definition id_hash (s : string) : string := s.
Definition run (q : request) (s : tenancy_sys provider MemoryCache) := transact id_hash q true s.
Definition with_team := run (QCreateWorkspace 1 "fresh" "acme" "Team" (Some "w1")) bare.
Definition with_bob := run (QSetMember 2 "acme" "w1" "user:bob" member "key:a") with_team.
Definition with_boss := run (QSetMember 3 "acme" "w1" "user:bob" admin "key:a") with_bob.
Definition without_team := run (QDeleteWorkspace 4 "acme" "w1") with_boss.
Definition team_again := run (QCreateWorkspace 5 "fresh" "acme" "Team" (Some "w1")) without_team.

(** Carol is added, and the commit fails. *)
Definition add_carol : request := QSetMember 4 "acme" "w1" "user:carol" member "key:a".
Definition half_carol := transact id_hash add_carol false with_boss.

Lemma tsteps_run u s q : settled id_hash q true s = true → request_ok q → tsteps id_hash bare u s → tsteps id_hash bare u (run q s).
Proof. intros Hset Hq Hs. pose proof (t_request id_hash bare u s q true Hs Hq) as Hstep. by rewrite Hset in Hstep. Qed.

Lemma tsteps_refused s q : settled id_hash q true s = false → request_ok q →
  az_provider (ts_authz (snd (run_request id_hash q s))) = az_provider (ts_authz s) → tsteps id_hash s [] (run q s).
Proof. intros Hset Hq Hp. apply (t_refused id_hash s [] s q true); [apply t_start|done|done|]. intros x. by rewrite Hp. Qed.

Lemma boss_steps : tsteps id_hash bare [] with_boss.
Proof. do 3 (apply tsteps_run; [by vm_compute|by vm_compute|]). apply t_start. Qed.

Lemma carol_steps : tsteps id_hash bare [add_carol] half_carol.
Proof. by apply (t_request id_hash bare [] with_boss add_carol false boss_steps). Qed.

(** What the repair the service plans is for: Carol's tuple has no row. *)
Example carol_unmirrored :
  stored (az_provider (ts_authz half_carol)) (role_tuple "acme" "w1" "user:carol" member) ∧
  members_ (ts_db half_carol) !! ("acme", "w1", "user:carol") = None.
Proof. split; [|by vm_compute]. unfold stored. apply (bool_decide_unpack _). by vm_compute. Qed.

Lemma roles_mirror_members_witness :
  stored (az_provider (ts_authz half_carol)) (role_tuple "acme" "w1" "user:bob" admin) ∧
  ¬ stored (az_provider (ts_authz half_carol)) (role_tuple "acme" "w1" "user:bob" member).
Proof.
  assert (∀ q, q ∈ [add_carol] → ¬ touches q "acme" "w1" "user:bob") as Hbob
    by (intros q ->%list_elem_of_singleton (_ & _ & [=])).
  split.
  - apply (roles_mirror_members id_hash bare half_carol [add_carol]); [apply bare_no_teams|apply carol_steps|done|exact Hbob|].
    eexists. split; [by vm_compute|]. split; [done|]. eexists. by vm_compute.
  - intros Hs. apply (roles_mirror_members id_hash bare half_carol [add_carol]) in Hs as (m & Hm & Hr & _);
      [|apply bare_no_teams|apply carol_steps|done|exact Hbob].
    revert Hm Hr. vm_compute. intros [= <-]. discriminate.
Defined.

Lemma deleted_workspace_never_returns_witness :
  ∃ x, workspaces (ts_db without_team) !! ("acme", "w1") = Some x ∧ ws_deleted_at x = Some 4 ∧
    workspaces (ts_db team_again) !! ("acme", "w1") = Some x ∧
    ¬ stored (az_provider (ts_authz team_again)) (role_tuple "acme" "w1" "user:bob" admin).
Proof.
  exists {| ws_id := "w1"; ws_tenant := "acme"; ws_name := "Team"; ws_created_at := 1; ws_deleted_at := Some 4 |}.
  split; [by vm_compute|]. split; [done|].
  destruct (deleted_workspace_never_returns id_hash bare without_team team_again [] [] "acme" "w1"
    {| ws_id := "w1"; ws_tenant := "acme"; ws_name := "Team"; ws_created_at := 1; ws_deleted_at := Some 4 |})
    as (Hx & _ & _ & _ & Hno).
  - apply bare_no_teams.
  - apply (tsteps_run [] with_boss); [by vm_compute|done|apply boss_steps].
  - done.
  - done.
  - by vm_compute.
  - done.
  - apply (tsteps_refused without_team); [vm_compute; reflexivity|done|vm_compute; reflexivity].
  - split; [exact Hx|]. apply Hno. intros q Hq. destruct (not_elem_of_nil q Hq).
Defined.

Lemma issue_key_spec_witness :
  match issue_key id_hash 7 "abcdefgh01234567" "s3cret" "acme" SERVICE "ci" "key:a" None (Some 1) ["*"] bare with
  | (Ok (key, token), _) => parse_token token = Some ("abcdefgh01234567", "s3cret") ∧
      usable_at key 100 = true ∧ usable_at key 90000 = false
  | (Raise _, _) => False
  end.
Proof.
  pose proof (issue_key_spec id_hash 7 "abcdefgh01234567" "s3cret" "acme" SERVICE "ci" "key:a" None (Some 1)
    ["*"] bare) as Hspec.
  destruct (issue_key _ _ _ _ _ _ _ _ _ _ _ _) as [[[key token]|e] s'] eqn:E.
  - destruct Hspec as (_ & _ & _ & _ & Htok & _ & Hexp); [done|done|done|].
    split; [exact Htok|]. split.
    + apply Hexp. intros d [= <-] _. by vm_compute.
    + destruct (usable_at key 90000) eqn:Hu; [|done]. pose proof (proj1 (Hexp 90000) Hu 1 eq_refl) as Hlt.
      exfalso. revert Hlt. vm_compute. intros Hlt. by specialize (Hlt ltac:(discriminate)).
  - revert E. vm_compute. discriminate.
Defined.
