(* ===== verification/Tasks.v ===== *)
(** * Tasks: queues, the worker's pools and the task-queue port
    (ports/tasks.py, adapters/tasks/inline_queue.py [RecordingTaskQueue]).

    [TaskQueue] is what the outbox relay needs of a queue: enqueue a job or
    raise. The production queue (Procrastinate) is a third-party package; the
    in-process queue is the instance. *)
From S2P Require Import Prelude Errors.

(** ** Definitions *)

Inductive Queue : Set :=
| CHAT_FAST | MEMORY_EXTRACT | EMBEDDING | DOCUMENT_PARSE | GRAPH | SUMMARY | ARCHIVE | EVALUATION
| IMPORT | RECONCILE.

#[export] Instance Queue_eq_dec : EqDecision Queue.
Proof. solve_decision. Defined.

(** [for q in Queue]. *)
Definition all_queues : list Queue :=
  [CHAT_FAST; MEMORY_EXTRACT; EMBEDDING; DOCUMENT_PARSE; GRAPH; SUMMARY; ARCHIVE; EVALUATION;
   IMPORT; RECONCILE].

Definition INDEXING_QUEUES : list Queue := [EMBEDDING].
Definition GRAPH_QUEUES : list Queue := [GRAPH].
Definition CHAT_QUEUES : list Queue := [CHAT_FAST].
Definition SHORT_WITHOUT_A_MODEL : list Queue := [SUMMARY].
Definition WORKER_POOL_COUNT : nat := 4.

Definition worker_pools (concurrency indexing : Z) (llm : bool) : list (list Queue * Z) :=
  let chat := Z.max 1 (concurrency / 2) in
  let embedding := Z.min indexing (Z.max 1 (concurrency / 4)) in
  let '(graph, graph_computes) := if llm then (Z.max 2 (concurrency / 2), 0) else (1, 1) in
  let shared := Z.max 1 (concurrency - chat - embedding - graph_computes) in
  let fast := CHAT_QUEUES ++ INDEXING_QUEUES in
  let short := if llm then [] else SHORT_WITHOUT_A_MODEL in
  let rest := filter (λ q, q ∉ fast ++ short ++ GRAPH_QUEUES) all_queues in
  [ (if llm then INDEXING_QUEUES else INDEXING_QUEUES ++ CHAT_QUEUES ++ short, embedding);
    (GRAPH_QUEUES, graph);
    (fast ++ short, chat);
    (fast ++ short ++ rest, shared) ].

Definition QUEUE_PRIORITY (q : Queue) : Z :=
  match q with
  | CHAT_FAST => 100 | MEMORY_EXTRACT => 90 | EMBEDDING => 70 | DOCUMENT_PARSE => 60 | GRAPH => 60
  | ARCHIVE => 50 | RECONCILE => 40 | SUMMARY => 30 | EVALUATION => 10 | IMPORT => 5
  end.

Record JobSpec := {
  js_task : string;
  js_queue : Queue;
  js_payload : json;
  js_idempotency_key : option string;
  js_lock : option string;
  js_priority : option Z;
  js_schedule : option Z;
  js_tenant : option string;
}.

Class TaskQueue (Q : Type) := tq_enqueue : JobSpec → prog Q string.

(** *** RecordingTaskQueue *)

Record job := { jb_id : string; jb_spec : JobSpec }.

Record recording := {
  rq_handlers : gset string;
  rq_jobs : list job;
  rq_locks : gset string;
  rq_fail : bool;
}.

(** [enqueue]; the id [new_id] draws is the number of the job. *)
Definition recording_enqueue (spec : JobSpec) : prog recording string :=
  λ q,
  if rq_fail q then (Raise (ConnectionError "simulated queue outage"), q)
  else if negb (bool_decide (js_task spec ∈ rq_handlers q))
  then (Raise (KeyError ("task " +:+ js_task spec +:+ " is not registered")), q)
  else
  let key := default "" (js_idempotency_key spec) in
  if truthy key && bool_decide (key ∈ rq_locks q) then (Ok ("dedup:" +:+ key), q)
  else
  let id := "job_" +:+ text_of_Z (Z.of_nat (length (rq_jobs q))) in
  (Ok id, {| rq_handlers := rq_handlers q;
             rq_jobs := rq_jobs q ++ [{| jb_id := id; jb_spec := spec |}];
             rq_locks := if truthy key then {[key]} ∪ rq_locks q else rq_locks q;
             rq_fail := rq_fail q |}).

#[export] Instance recording_queue : TaskQueue recording := recording_enqueue.

(** ** Properties *)

Definition slots (ps : list (list Queue * Z)) : Z := foldr (λ p n, snd p + n) 0 ps.

(** The worker's pools. For any concurrency and any admitted bound on
    indexing, there are [WORKER_POOL_COUNT] pools, each has a slot, every queue
    is in one of them, the graph pool takes nothing else, and only the shared
    pool takes parsing, archiving, imports and the other slow queues. The slots
    whose jobs compute (all but the graph pool's when a model is configured) are
    at most one more than the CPUs, or four. *)
Theorem worker_pools_bulkheads concurrency indexing llm :
  1 ≤ concurrency → 1 ≤ indexing →
  let ps := worker_pools concurrency indexing llm in
  length ps = WORKER_POOL_COUNT ∧ Forall (λ p, 1 ≤ snd p) ps ∧
  Forall (λ q, ∃ p, p ∈ ps ∧ q ∈ fst p) all_queues ∧
  fst <$> ps !! 1%nat = Some GRAPH_QUEUES ∧
  (∀ i p q, ps !! i = Some p → q ∈ fst p → i ≠ 3%nat → q ∈ [CHAT_FAST; EMBEDDING; GRAPH; SUMMARY]) ∧
  slots ps - (if llm then default 0 (snd <$> ps !! 1%nat) else 0) ≤ Z.max 4 (concurrency + 1).
Proof.
  intros Hc Hi ps.
  assert (0 ≤ concurrency / 2 ≤ concurrency) as Hhalf by (split; [apply Z.div_pos|apply Z.div_le_upper_bound]; lia).
  assert (0 ≤ concurrency / 4) as Hquarter by (apply Z.div_pos; lia).
  pose proof (Z.div_mod concurrency 2) as Hd2. pose proof (Z.mod_pos_bound concurrency 2) as Hm2.
  pose proof (Z.div_mod concurrency 4) as Hd4. pose proof (Z.mod_pos_bound concurrency 4) as Hm4.
  assert (∀ q, q ∈ all_queues → ∃ p, p ∈ ps ∧ q ∈ fst p) as Hall.
  { intros q Hq. destruct (decide (q = GRAPH)) as [->|Hng].
    - exists (GRAPH_QUEUES, if llm then Z.max 2 (concurrency / 2) else 1).
      unfold ps, worker_pools. destruct llm; simpl; set_solver.
    - unfold ps, worker_pools. destruct llm; simpl; eexists (_, _);
        (split; [do 3 (apply elem_of_cons; right); by apply list_elem_of_singleton|]); destruct q; set_solver. }
  split; [by destruct llm|]. split.
  { unfold ps, worker_pools. destruct llm; simpl; repeat constructor; simpl; lia. }
  split; [by apply Forall_forall|]. split; [by destruct llm|]. split.
  { intros i p q Hp Hq Hne. unfold ps, worker_pools in Hp.
    destruct llm; (do 3 (destruct i as [|i]; [injection Hp as <-; simpl in Hq; set_solver|]));
      (destruct i as [|i]; [done|]); by destruct i. }
  unfold ps, slots, worker_pools. destruct llm; simpl; lia.
Qed.

Lemma worker_pools_bulkheads_witness :
  worker_pools 8 2 false = [([EMBEDDING; CHAT_FAST; SUMMARY], 2); ([GRAPH], 1);
    ([CHAT_FAST; EMBEDDING; SUMMARY], 4);
    ([CHAT_FAST; EMBEDDING; SUMMARY; MEMORY_EXTRACT; DOCUMENT_PARSE; ARCHIVE; EVALUATION; IMPORT; RECONCILE], 1)] ∧
  slots (worker_pools 8 2 false) - 0 ≤ Z.max 4 (8 + 1).
Proof. split; [by vm_compute|]. apply (worker_pools_bulkheads 8 2 false); lia. Defined.
