(* ===== verification/Outbox.v ===== *)
(** * Outbox: jobs committed with the data, dispatched after
    (adapters/db/repositories.py [SqlOutboxRepository], adapters/db/uow.py).

    The table is a map by [outbox_id]; [ob_next] is the sequence, which a
    rollback does not put back. Rows another transaction has locked are an
    argument ([locked]) of the queries that skip them. A task queue is any
    instance of [TaskQueue], with a state of its own outside the database. *)
From S2P Require Import Prelude Errors Revisions Tasks.

(** ** Definitions *)

Record outbox_row := {
  ob_id : Z;
  ob_spec : JobSpec;
  ob_created_at : Z;
  ob_attempts : Z;
  ob_dispatched_at : option Z;
  ob_job_id : option string;
  ob_error : option string;
  ob_dead : bool;
}.

Record outbox := {
  ob_rows : gmap Z outbox_row;
  ob_next : Z;
}.

Definition set_rows (m : gmap Z outbox_row) (o : outbox) : outbox :=
  {| ob_rows := m; ob_next := ob_next o |}.

Abbreviation oprog A := (prog outbox A).

(** [dispatcher_of]: whether a job was dispatched from here, and for whom. *)
Definition dispatcher_of (job_id : string) : oprog (bool * option string) :=
  gets (λ o, match filter (λ p, ob_job_id (snd p) = Some job_id) (map_to_list (ob_rows o)) with
             | [] => (false, None)
             | (_, r) :: _ => (true, js_tenant (ob_spec r))
             end).

Definition has_key (key : string) (r : outbox_row) : bool :=
  bool_decide (js_idempotency_key (ob_spec r) = Some key).

(** [add]: ON CONFLICT (idempotency_key) DO NOTHING. *)
Definition add_job (now : Z) (spec : JobSpec) : oprog (option Z) :=
  λ o,
  let o' := {| ob_rows := ob_rows o; ob_next := ob_next o + 1 |} in
  let taken := match js_idempotency_key spec with
               | Some key => existsb (λ p, has_key key (snd p)) (map_to_list (ob_rows o))
               | None => false
               end in
  if taken then (Ok None, o')
  else (Ok (Some (ob_next o)),
        set_rows (<[ob_next o :=
          {| ob_id := ob_next o; ob_spec := spec; ob_created_at := now; ob_attempts := 0;
             ob_dispatched_at := None; ob_job_id := None; ob_error := None; ob_dead := false |}]>
          (ob_rows o)) o').

Definition undispatched (r : outbox_row) : bool :=
  bool_decide (ob_dispatched_at r = None) && negb (ob_dead r).

(** ORDER BY outbox_id, FOR UPDATE SKIP LOCKED. *)
Definition id_le (a b : outbox_row) : Prop := ob_id a ≤ ob_id b.
#[export] Instance id_le_dec a b : Decision (id_le a b).
Proof. unfold id_le. apply _. Defined.

Definition in_order (locked : gset Z) (wanted : outbox_row → bool) (o : outbox) : list outbox_row :=
  merge_sort id_le
    (filter (λ r, undispatched r && negb (bool_decide (ob_id r ∈ locked)) && wanted r = true)
       (snd <$> map_to_list (ob_rows o))).

Definition by_ids (locked : gset Z) (outbox_ids : list Z) : oprog (list outbox_row) :=
  match outbox_ids with
  | [] => ret []
  | _ => gets (in_order locked (λ r, bool_decide (ob_id r ∈ outbox_ids)))
  end.

Definition old_enough (now older_than : Z) (r : outbox_row) : bool :=
  if Z.ltb 0 older_than then Z.leb (ob_created_at r) (now - older_than) else true.

Definition pending (locked : gset Z) (now : Z) (limit : nat) (older_than : Z) : oprog (list outbox_row) :=
  gets (λ o, take limit (in_order locked (old_enough now older_than) o)).

Definition dispatched (now : Z) (job_id : string) (r : outbox_row) : outbox_row :=
  {| ob_id := ob_id r; ob_spec := ob_spec r; ob_created_at := ob_created_at r;
     ob_attempts := ob_attempts r + 1; ob_dispatched_at := Some now; ob_job_id := Some job_id;
     ob_error := ob_error r; ob_dead := ob_dead r |}.

Definition mark_dispatched (now : Z) (outbox_id : Z) (job_id : string) : oprog unit :=
  modify (λ o, set_rows (alter (dispatched now job_id) outbox_id (ob_rows o)) o).

Definition failed (error : string) (dead : bool) (r : outbox_row) : outbox_row :=
  {| ob_id := ob_id r; ob_spec := ob_spec r; ob_created_at := ob_created_at r;
     ob_attempts := ob_attempts r + 1; ob_dispatched_at := ob_dispatched_at r;
     ob_job_id := ob_job_id r; ob_error := Some (substring 0 2000 error); ob_dead := dead |}.

Definition mark_failed (outbox_id : Z) (error : string) (dead : bool) : oprog unit :=
  modify (λ o, set_rows (alter (failed error dead) outbox_id (ob_rows o)) o).

Definition purgeable (now older_than : Z) (r : outbox_row) : bool :=
  match ob_dispatched_at r with
  | Some t => Z.ltb t (now - older_than) && negb (ob_dead r)
  | None => false
  end.

Definition purge_dispatched (now older_than : Z) : oprog Z :=
  λ o, let kept := filter (λ p, purgeable now older_than (snd p) = false) (ob_rows o) in
       (Ok (Z.of_nat (size (ob_rows o) - size kept)), set_rows kept o).

(** *** OutboxRelay *)

Section relay.
Context {Q : Type} `{TaskQueue Q}.

Abbreviation rst := (outbox * Q)%type.

Definition set_outbox (o : outbox) (s : rst) : rst := (o, snd s).
Definition set_queue (q : Q) (s : rst) : rst := (fst s, q).
Definition on_outbox {A} (m : oprog A) : prog rst A := zoom fst set_outbox m.
Definition on_queue {A} (m : prog Q A) : prog rst A := zoom snd set_queue m.

Definition MAX_ATTEMPTS : Z := 20.

(** [_dispatch]; the body of its [except Exception]. *)
Definition dispatch_failed (entry : outbox_row) (e : exn) : prog rst (option string) :=
  bind (on_outbox (mark_failed (ob_id entry) (exn_text e) (Z.leb MAX_ATTEMPTS (ob_attempts entry + 1))))
    (λ _, ret None).

Definition dispatch (now : Z) (entry : outbox_row) : prog rst (option string) :=
  λ s, match on_queue (tq_enqueue (ob_spec entry)) s with
       | (Raise e, s') => dispatch_failed entry e s'
       | (Ok job_id, s') =>
           bind (on_outbox (mark_dispatched now (ob_id entry) job_id)) (λ _, ret (Some job_id)) s'
       end.

Fixpoint dispatch_all (now : Z) (entries : list outbox_row) : prog rst Z :=
  match entries with
  | [] => ret 0
  | e :: rest =>
      bind (dispatch now e) (λ job,
      bind (dispatch_all now rest) (λ n,
      ret (if bool_decide (is_Some job) then n + 1 else n)))
  end.

Definition dispatch_ids (now : Z) (locked : gset Z) (outbox_ids : list Z) : prog rst unit :=
  match outbox_ids with
  | [] => ret tt
  | _ => bind (on_outbox (by_ids locked outbox_ids)) (λ entries,
         bind (dispatch_all now entries) (λ _, ret tt))
  end.

Definition sweep (now : Z) (locked : gset Z) (older_than : Z) (limit : nat) : prog rst Z :=
  bind (on_outbox (pending locked now limit older_than)) (λ entries,
  dispatch_all now entries).

(** The periodic sweeps of a worker, one per clock reading. *)
Fixpoint sweeps (older_than : Z) (limit : nat) (clocks : list Z) : prog rst unit :=
  match clocks with
  | [] => ret tt
  | now :: rest => bind (sweep now ∅ older_than limit) (λ _, sweeps older_than limit rest)
  end.
End relay.

(** A queue that remembers what it accepted, in order. *)
#[export] Instance logged {Q} `{TaskQueue Q} : TaskQueue (Q * list JobSpec) :=
  λ spec s, match tq_enqueue spec (fst s) with
            | (Ok j, q') => (Ok j, (q', snd s ++ [spec]))
            | (Raise e, q') => (Raise e, (q', snd s))
            end.

(** ** Lemmas: the rows a dispatch works on *)

Record outbox_wf (o : outbox) : Prop := {
  ow_id i r : ob_rows o !! i = Some r → ob_id r = i ∧ i < ob_next o ∧ 0 ≤ ob_attempts r;
  ow_dead i r : ob_rows o !! i = Some r → (ob_dead r = true ↔ MAX_ATTEMPTS ≤ ob_attempts r ∧ ob_dispatched_at r = None);
}.

Lemma elem_in_order locked wanted o r :
  outbox_wf o →
  r ∈ in_order locked wanted o ↔
  ob_rows o !! ob_id r = Some r ∧ undispatched r = true ∧ ob_id r ∉ locked ∧ wanted r = true.
Proof.
  intros Hwf. unfold in_order. rewrite merge_sort_Permutation, list_elem_of_filter, !andb_true_iff,
    negb_true_iff, bool_decide_eq_false, list_elem_of_fmap. split.
  - intros (((Hu & Hl) & Hw) & [i r'] & -> & Hin%elem_of_map_to_list). simpl in *.
    split_and!; [by rewrite (proj1 (ow_id o Hwf i r' Hin))|done..].
  - intros (Hr & Hu & Hl & Hw). split; [done|]. exists (ob_id r, r). split; [done|]. by apply elem_of_map_to_list.
Qed.

Lemma in_order_NoDup locked wanted o : outbox_wf o → NoDup (ob_id <$> in_order locked wanted o).
Proof.
  intros Hwf. unfold in_order. rewrite merge_sort_Permutation.
  assert (NoDup (ob_id <$> (snd <$> map_to_list (ob_rows o)))) as Hnd.
  { rewrite <- list_fmap_compose.
    assert ((ob_id ∘ snd) <$> map_to_list (ob_rows o) = fst <$> map_to_list (ob_rows o)) as ->;
      [|apply NoDup_fst_map_to_list].
    apply list_fmap_ext. intros n [i r] Hn%list_elem_of_lookup_2%elem_of_map_to_list. simpl.
    by apply (ow_id o Hwf). }
  revert Hnd. generalize (snd <$> map_to_list (ob_rows o)) as l. induction l as [|r l IH]; [done|].
  rewrite fmap_cons, NoDup_cons. intros [Hn Hnd]. rewrite filter_cons. destruct (decide _); [|by apply IH].
  rewrite fmap_cons. constructor; [|by apply IH]. rewrite list_elem_of_fmap. intros (r' & Heq & Hin).
  apply Hn. rewrite Heq. apply list_elem_of_fmap. exists r'. split; [done|].
  by apply list_elem_of_filter in Hin as [_ ?].
Qed.

Lemma in_order_sorted locked wanted o : Sorted id_le (in_order locked wanted o).
Proof. apply Sorted_merge_sort. intros a b. unfold id_le. lia. Qed.

(** ** Lemmas: dispatching *)

Definition last_attempt (e : outbox_row) : bool := Z.leb MAX_ATTEMPTS (ob_attempts e + 1).

(** What one attempt makes of a row. *)
Definition processed (now : Z) (e r : outbox_row) : Prop :=
  (∃ j, r = dispatched now j e) ∨ (∃ m, r = failed m (last_attempt e) e).

Section dispatch_lemmas.
Context {Q : Type} `{TaskQueue Q}.

Lemma dispatch_cases now e o (q : Q) :
  ∃ job q' f, dispatch now e (o, q) = (Ok job, (set_rows (alter f (ob_id e) (ob_rows o)) o, q')) ∧
    ((∃ j, job = Some j ∧ f = dispatched now j ∧ tq_enqueue (ob_spec e) q = (Ok j, q')) ∨
     (∃ x, job = None ∧ f = failed (exn_text x) (last_attempt e) ∧ tq_enqueue (ob_spec e) q = (Raise x, q'))).
Proof.
  unfold dispatch, on_queue, zoom. cbn [snd].
  destruct (tq_enqueue (ob_spec e) q) as [[j|x] q'] eqn:E.
  - exists (Some j), q', (dispatched now j). split; [done|]. left. by exists j.
  - exists None, q', (failed (exn_text x) (last_attempt e)). split; [done|]. right. by exists x.
Qed.

Lemma dispatch_all_spec now entries o (q : Q) :
  NoDup (ob_id <$> entries) → Forall (λ e, ob_rows o !! ob_id e = Some e) entries →
  ∃ n o' q', dispatch_all now entries (o, q) = (Ok n, (o', q')) ∧ ob_next o' = ob_next o ∧
    (∀ i, i ∉ ob_id <$> entries → ob_rows o' !! i = ob_rows o !! i) ∧
    (∀ e, e ∈ entries → ∃ r, ob_rows o' !! ob_id e = Some r ∧ processed now e r).
Proof.
  revert o q. induction entries as [|e entries IH]; intros o q Hnd Hall.
  { exists 0, o, q. split_and!; [done|done|done|]. by intros e ?%elem_of_nil. }
  rewrite fmap_cons, NoDup_cons in Hnd. destruct Hnd as [Hnin Hnd].
  apply Forall_cons in Hall as [He Hall].
  destruct (dispatch_cases now e o q) as (job & q1 & f & Hd & Hcase).
  set (o1 := set_rows (alter f (ob_id e) (ob_rows o)) o) in *.
  destruct (IH o1 q1 Hnd) as (n & o2 & q2 & Hrest & Hnext & Hframe & Hproc).
  { apply Forall_forall. intros e' He'. rewrite Forall_forall in Hall. simpl. rewrite lookup_alter_ne; [by apply Hall|].
    intros Heq. apply Hnin. rewrite Heq. by apply list_elem_of_fmap_2. }
  eexists _, o2, q2. split_and!.
  - cbn [dispatch_all]. erewrite bind_ok; [|exact Hd]. erewrite bind_ok; [|exact Hrest]. done.
  - by rewrite Hnext.
  - intros i [Hne Hi]%not_elem_of_cons. rewrite Hframe by done. simpl. by rewrite lookup_alter_ne.
  - intros e' [->|He']%elem_of_cons; [|by apply Hproc]. exists (f e). split.
    + rewrite Hframe by done. simpl. by rewrite lookup_alter_eq, He.
    + destruct Hcase as [(j & _ & -> & _)|(x & _ & -> & _)]; [left|right]; eauto.
Qed.
End dispatch_lemmas.

(** What the queue has accepted after a dispatch, in order. *)
Definition accepted (now : Z) (o' : outbox) (e : outbox_row) : bool :=
  match ob_rows o' !! ob_id e with
  | Some r => bool_decide (is_Some (ob_dispatched_at r))
  | None => false
  end.

Lemma dispatch_all_log {Q} `{TaskQueue Q} now entries o (q : Q) log n o' q' log' :
  NoDup (ob_id <$> entries) → Forall (λ e, ob_rows o !! ob_id e = Some e ∧ undispatched e = true) entries →
  dispatch_all now entries (o, (q, log)) = (Ok n, (o', (q', log'))) →
  log' = log ++ (ob_spec <$> filter (λ e, accepted now o' e = true) entries) ∧
  n = Z.of_nat (length (filter (λ e, accepted now o' e = true) entries)).
Proof.
  revert o q log n. induction entries as [|e entries IH]; intros o q log n Hnd Hall Hrun.
  { cbn in Hrun. injection Hrun as <- <- <- <-. by rewrite app_nil_r. }
  rewrite fmap_cons, NoDup_cons in Hnd. destruct Hnd as [Hnin Hnd].
  apply Forall_cons in Hall as [[He Hu] Hall].
  destruct (dispatch_cases now e o (q, log)) as (job & [q1 log1] & f & Hd & Hcase).
  set (o1 := set_rows (alter f (ob_id e) (ob_rows o)) o) in *.
  assert (Forall (λ e, ob_rows o1 !! ob_id e = Some e ∧ undispatched e = true) entries) as Hall1.
  { apply Forall_forall. intros e' He'. rewrite Forall_forall in Hall. simpl. rewrite lookup_alter_ne; [by apply Hall|].
    intros Heq. apply Hnin. rewrite Heq. by apply list_elem_of_fmap_2. }
  cbn [dispatch_all] in Hrun. erewrite bind_ok in Hrun; [|exact Hd].
  destruct (dispatch_all_spec now entries o1 (q1, log1) Hnd) as (n1 & o2 & [q2 log2] & Hrest & _ & Hframe & _).
  { eapply Forall_impl; [exact Hall1|]. by intros ? []. }
  erewrite bind_ok in Hrun; [|exact Hrest]. cbn [ret] in Hrun. injection Hrun as <- <- <- <-.
  destruct (IH o1 q1 log1 n1 Hnd Hall1 Hrest) as [Hlog Hn]. clear IH.
  assert (accepted now o2 e = bool_decide (is_Some job)) as Hacc.
  { unfold accepted. rewrite Hframe by done. simpl. rewrite lookup_alter_eq, He. simpl.
    destruct Hcase as [(j & -> & -> & _)|(x & -> & -> & _)]; [done|]. simpl.
    unfold undispatched in Hu. apply andb_true_iff in Hu as [Hu%bool_decide_eq_true _]. by rewrite Hu. }
  rewrite filter_cons, Hacc.
  destruct Hcase as [(j & -> & _ & Hq)|(x & -> & _ & Hq)];
    unfold tq_enqueue at 1, logged in Hq; cbn [fst snd] in Hq;
    destruct (tq_enqueue (ob_spec e) q) as [[j'|x'] q']; try done.
  - injection Hq as -> <- <-. rewrite decide_True by done. cbn [fmap list_fmap length bool_decide].
    rewrite Hlog, <- app_assoc. split; [done|]. rewrite bool_decide_true by by eexists. lia.
  - injection Hq as -> <- <-. rewrite decide_False by done. rewrite bool_decide_false by by intros []. done.
Qed.

(** ** Lemmas: every attempt uses up a bounded budget *)

(** The attempts a row may still take. *)
Definition budget (r : outbox_row) : nat :=
  if undispatched r then Z.to_nat (MAX_ATTEMPTS - ob_attempts r) else 0.

Definition total_budget (o : outbox) : nat :=
  sum_list (budget <$> (snd <$> map_to_list (ob_rows o))).

Lemma sum_list_perm (l1 l2 : list nat) : l1 ≡ₚ l2 → sum_list l1 = sum_list l2.
Proof. induction 1; simpl; lia. Qed.

Lemma total_delete m i r n :
  m !! i = Some r →
  total_budget {| ob_rows := m; ob_next := n |} =
  (budget r + total_budget {| ob_rows := delete i m; ob_next := n |})%nat.
Proof.
  intros Hi. unfold total_budget. simpl. rewrite <- (insert_delete_id m i r Hi) at 1.
  rewrite (sum_list_perm _ (budget <$> (snd <$> (i, r) :: map_to_list (delete i m)))); [done|].
  by rewrite map_to_list_insert by apply lookup_delete_eq.
Qed.

Lemma total_alter f i r o :
  ob_rows o !! i = Some r → (budget (f r) < budget r)%nat →
  (total_budget (set_rows (alter f i (ob_rows o)) o) < total_budget o)%nat.
Proof.
  intros Hi Hlt. destruct o as [m n]. simpl in *. unfold set_rows. simpl.
  rewrite (total_delete (alter f i m) i (f r) n) by (by rewrite lookup_alter_eq, Hi).
  rewrite (total_delete m i r n Hi).
  assert (delete i (alter f i m) = delete i m) as ->; [|lia].
  apply map_eq. intros j. destruct (decide (i = j)) as [<-|Hne]; [by rewrite !lookup_delete_eq|].
  rewrite !lookup_delete_ne by done. by apply lookup_alter_ne.
Qed.

Lemma undispatched_spec r : undispatched r = true ↔ ob_dispatched_at r = None ∧ ob_dead r = false.
Proof. unfold undispatched. rewrite andb_true_iff, bool_decide_eq_true, negb_true_iff. done. Qed.

Lemma processed_budget now e r f :
  undispatched e = true → ob_attempts e < MAX_ATTEMPTS →
  (f = dispatched now r ∨ f = failed r (last_attempt e)) → (budget (f e) < budget e)%nat.
Proof.
  intros Hu Ha Hf. unfold budget. rewrite Hu. apply undispatched_spec in Hu as [Hd Hk].
  destruct Hf as [->| ->]; unfold undispatched, dispatched, failed; simpl; [lia|].
  rewrite Hd. destruct (last_attempt e); simpl; lia.
Qed.

Lemma wf_undispatched o i r :
  outbox_wf o → ob_rows o !! i = Some r → undispatched r = true → ob_attempts r < MAX_ATTEMPTS.
Proof.
  intros Hwf Hi [Hd Hk]%undispatched_spec. pose proof (ow_dead o Hwf i r Hi) as Hiff. rewrite Hk, Hd in Hiff.
  destruct (Z.lt_ge_cases (ob_attempts r) MAX_ATTEMPTS) as [|Hge]; [done|].
  discriminate (proj2 Hiff (conj Hge eq_refl)).
Qed.

Lemma wf_alter o e now s f :
  outbox_wf o → ob_rows o !! ob_id e = Some e → undispatched e = true →
  (f = dispatched now s ∨ f = failed s (last_attempt e)) →
  outbox_wf (set_rows (alter f (ob_id e) (ob_rows o)) o).
Proof.
  intros Hwf He Hu Hf. pose proof (ow_id o Hwf _ _ He) as (_ & Hlt & Hpos).
  apply undispatched_spec in Hu as [Hd Hk].
  split; intros i r; simpl; rewrite lookup_alter_Some; intros [(<- & r0 & Hr0 & ->)|[_ Hr]];
    [|by eapply (ow_id o Hwf)| |by eapply (ow_dead o Hwf)];
    rewrite He in Hr0; injection Hr0 as <-; destruct Hf as [->| ->]; simpl.
  - split_and!; [done|done|lia].
  - split_and!; [done|done|lia].
  - rewrite Hk. split; [done|by intros []].
  - unfold last_attempt. rewrite Z.leb_le, Hd. tauto.
Qed.

Section settle.
Context {Q : Type} `{TaskQueue Q}.

Lemma dispatch_all_budget now entries o (q : Q) :
  outbox_wf o → NoDup (ob_id <$> entries) →
  Forall (λ e, ob_rows o !! ob_id e = Some e ∧ undispatched e = true) entries →
  ∃ n o' q', dispatch_all now entries (o, q) = (Ok n, (o', q')) ∧ outbox_wf o' ∧
    (total_budget o' + length entries ≤ total_budget o)%nat.
Proof.
  revert o q. induction entries as [|e entries IH]; intros o q Hwf Hnd Hall.
  { exists 0, o, q. split_and!; [done|done|simpl; lia]. }
  rewrite fmap_cons, NoDup_cons in Hnd. destruct Hnd as [Hnin Hnd].
  apply Forall_cons in Hall as [[He Hu] Hall].
  destruct (dispatch_cases now e o q) as (job & q1 & f & Hd & Hcase).
  set (o1 := set_rows (alter f (ob_id e) (ob_rows o)) o) in *.
  assert (∃ s, f = dispatched now s ∨ f = failed s (last_attempt e)) as [m Hf]
    by (destruct Hcase as [(j & _ & -> & _)|(x & _ & -> & _)]; eauto).
  destruct (IH o1 q1) as (n & o2 & q2 & Hrest & Hwf2 & Hlt); [by apply (wf_alter o e now m)|done| |].
  { apply Forall_forall. intros e' He'. rewrite Forall_forall in Hall. simpl. rewrite lookup_alter_ne; [by apply Hall|].
    intros Heq. apply Hnin. rewrite Heq. by apply list_elem_of_fmap_2. }
  eexists _, o2, q2. split_and!; [|done|].
  - cbn [dispatch_all]. erewrite bind_ok; [|exact Hd]. erewrite bind_ok; [|exact Hrest]. done.
  - assert (total_budget o1 < total_budget o)%nat; [|simpl; lia].
    apply (total_alter f (ob_id e) e o He). apply (processed_budget now e m f); [done| |done].
    exact (wf_undispatched o (ob_id e) e Hwf He Hu).
Qed.

Lemma entries_ok locked wanted o limit :
  outbox_wf o →
  let l := take limit (in_order locked wanted o) in
  NoDup (ob_id <$> l) ∧ Forall (λ e, ob_rows o !! ob_id e = Some e ∧ undispatched e = true) l.
Proof.
  intros Hwf l. split.
  - pose proof (in_order_NoDup locked wanted o Hwf) as Hnd.
    rewrite <- (take_drop limit (in_order locked wanted o)), fmap_app in Hnd. by apply NoDup_app in Hnd as [? _].
  - apply Forall_take, Forall_forall. intros e (? & ? & _)%(elem_in_order _ _ _ _ Hwf). by split.
Qed.

Lemma sweep_budget now older limit o (q : Q) :
  outbox_wf o → (0 < limit)%nat →
  (∀ i r, ob_rows o !! i = Some r → undispatched r = true → old_enough now older r = true) →
  ∃ n o' q', sweep now ∅ older limit (o, q) = (Ok n, (o', q')) ∧ outbox_wf o' ∧
    (total_budget o' < total_budget o ∨ (total_budget o' ≤ total_budget o ∧
       ∀ i r, ob_rows o' !! i = Some r → undispatched r = false))%nat.
Proof.
  intros Hwf Hlim Hold. unfold sweep.
  set (l := take limit (in_order ∅ (old_enough now older) o)).
  destruct (entries_ok ∅ (old_enough now older) o limit Hwf) as [Hnd Hall]. fold l in Hnd, Hall.
  destruct (dispatch_all_budget now l o q Hwf Hnd Hall) as (n & o' & q' & Hrun & Hwf' & Hlt).
  exists n, o', q'. split_and!.
  - erewrite bind_ok; [exact Hrun|]. unfold on_outbox, zoom, pending, gets. simpl. by destruct o.
  - done.
  - destruct (in_order ∅ (old_enough now older) o) as [|e l'] eqn:El.
    + right. assert (l = []) as Hnil by (unfold l; by destruct limit). rewrite Hnil in Hlt, Hrun. simpl in Hlt.
      split; [lia|]. cbn in Hrun. injection Hrun as _ <- _. intros i r Hr.
      destruct (undispatched r) eqn:Hu; [|done]. exfalso.
      assert (r ∈ in_order ∅ (old_enough now older) o) as Hin.
      { apply elem_in_order; [done|]. rewrite (proj1 (ow_id o Hwf i r Hr)). split_and!; [done|done|set_solver|].
        by eapply Hold. }
      rewrite El in Hin. by apply elem_of_nil in Hin.
    + left. assert (1 ≤ length l)%nat; [|lia]. unfold l. destruct limit; [lia|]. simpl. lia.
Qed.

(** The budget after a row count: at most [MAX_ATTEMPTS] a row. *)
Lemma total_budget_bound o : outbox_wf o → (total_budget o ≤ 20 * size (ob_rows o))%nat.
Proof.
  intros Hwf. unfold total_budget. rewrite <- length_map_to_list.
  assert (Forall (λ p, budget (snd p) ≤ 20)%nat (map_to_list (ob_rows o))) as Hall.
  { apply Forall_forall. intros [i r] Hin%elem_of_map_to_list. simpl. unfold budget, MAX_ATTEMPTS.
    destruct (undispatched r); [|lia]. apply (ow_id o Hwf) in Hin as (_ & _ & ?). lia. }
  induction Hall as [|p l Hp _ IH]; [simpl; lia|].
  change (sum_list (budget <$> (p :: l).*2)) with (budget (snd p) + sum_list (budget <$> l.*2))%nat.
  cbn [length]. lia.
Qed.
(** Attempts change neither which rows there are nor when they were written. *)
Definition same_rows (o o' : outbox) : Prop :=
  ∀ i, ob_created_at <$> ob_rows o' !! i = ob_created_at <$> ob_rows o !! i.

Lemma same_rows_old now older o o' :
  same_rows o o' → (∀ i r, ob_rows o !! i = Some r → old_enough now older r = true) →
  ∀ i r, ob_rows o' !! i = Some r → old_enough now older r = true.
Proof.
  intros Hs Hold i r Hr. specialize (Hs i). rewrite Hr in Hs. simpl in Hs. symmetry in Hs.
  apply fmap_Some in Hs as (r0 & Hr0 & Heq). specialize (Hold i r0 Hr0). unfold old_enough in *. by rewrite Heq.
Qed.

Lemma dispatch_all_same now entries o (q : Q) :
  let '(_, (o', _)) := dispatch_all now entries (o, q) in same_rows o o'.
Proof.
  revert o q. induction entries as [|e entries IH]; intros o q; [done|].
  destruct (dispatch_cases now e o q) as (job & q1 & f & Hd & Hcase).
  cbn [dispatch_all]. erewrite bind_ok; [|exact Hd]. specialize (IH (set_rows (alter f (ob_id e) (ob_rows o)) o) q1).
  unfold bind. destruct (dispatch_all now entries _) as [[n|x] [o2 q2]]; simpl in *; intros i;
    rewrite (IH i); simpl; rewrite lookup_alter; destruct (decide _) as [<-|]; try done;
    destruct (ob_rows o !! ob_id e); try done; simpl;
    by destruct Hcase as [(j & _ & -> & _)|(x' & _ & -> & _)].
Qed.

Lemma sweeps_settle older limit clocks o (q : Q) :
  outbox_wf o → (0 < limit)%nat → (total_budget o ≤ length clocks)%nat →
  Forall (λ now, ∀ i r, ob_rows o !! i = Some r → old_enough now older r = true) clocks →
  ∃ o' q', sweeps older limit clocks (o, q) = (Ok tt, (o', q')) ∧ outbox_wf o' ∧ same_rows o o' ∧
    total_budget o' = 0%nat.
Proof.
  intros Hwf Hlim. revert o q Hwf. induction clocks as [|now clocks IH]; intros o q Hwf Hlen Hold.
  { exists o, q. split_and!; [done|done|by intros i|simpl in Hlen; lia]. }
  apply Forall_cons in Hold as [Hnow Hold].
  destruct (sweep_budget now older limit o q Hwf Hlim) as (n & o1 & q1 & Hs & Hwf1 & Hb);
    [intros i r Hr _; by eapply Hnow|].
  assert (same_rows o o1) as Hsame.
  { pose proof (dispatch_all_same now (take limit (in_order ∅ (old_enough now older) o)) o q) as Hsame.
    unfold sweep in Hs. erewrite bind_ok in Hs;
      [|unfold on_outbox, zoom, pending, gets; simpl; by destruct o].
    change (set_outbox o (o, q)) with (o, q) in Hs. rewrite Hs in Hsame. done. }
  destruct (IH o1 q1 Hwf1) as (o2 & q2 & Hr & Hwf2 & Hsame2 & Hz).
  - simpl in Hlen. destruct Hb as [Hb|[_ Hb]]; [lia|].
    assert (total_budget o1 = 0%nat) as ->; [|lia]. unfold total_budget.
    assert (Forall (λ p, budget (snd p) = 0%nat) (map_to_list (ob_rows o1))) as Hall.
    { apply Forall_forall. intros [i r] Hin%elem_of_map_to_list. simpl. unfold budget. by rewrite (Hb i r). }
    induction Hall as [|p l Hp _ IHl]; [done|].
    change (sum_list (budget <$> (p :: l).*2)) with (budget (snd p) + sum_list (budget <$> l.*2))%nat. lia.
  - eapply Forall_impl; [exact Hold|]. intros c Hc. by eapply same_rows_old.
  - exists o2, q2. split_and!; [|done| |done].
    + cbn [sweeps]. erewrite bind_ok; [exact Hr|exact Hs].
    + intros i. by rewrite (Hsame2 i), (Hsame i).
Qed.

Lemma total_budget_zero o i r :
  outbox_wf o → total_budget o = 0%nat → ob_rows o !! i = Some r → undispatched r = false.
Proof.
  intros Hwf Hz Hr. destruct o as [m n]. rewrite (total_delete m i r n Hr) in Hz.
  destruct (undispatched r) eqn:Hu; [|done]. pose proof (wf_undispatched _ i r Hwf Hr Hu).
  unfold budget in Hz. rewrite Hu in Hz. lia.
Qed.
End settle.

(** C13: nothing committed to the outbox is lost or stuck. Whatever the queue
    does (accept, refuse, fail for ever), once no other dispatcher holds the
    rows, at most twenty sweeps per row, of any positive size, settle every row
    that is old enough: it was dispatched, or it was given up after
    [MAX_ATTEMPTS] failures. One row that always fails does not block the rest. *)
Theorem outbox_settles {Q} `{TaskQueue Q} older limit clocks o (q : Q) :
  outbox_wf o → (0 < limit)%nat → (20 * size (ob_rows o) ≤ length clocks)%nat →
  Forall (λ now, ∀ i r, ob_rows o !! i = Some r → old_enough now older r = true) clocks →
  ∃ o' q', sweeps older limit clocks (o, q) = (Ok tt, (o', q')) ∧
    (∀ i, is_Some (ob_rows o' !! i) ↔ is_Some (ob_rows o !! i)) ∧
    ∀ i r, ob_rows o' !! i = Some r →
      is_Some (ob_dispatched_at r) ∨ (ob_dead r = true ∧ MAX_ATTEMPTS ≤ ob_attempts r).
Proof.
  intros Hwf Hlim Hlen Hold. pose proof (total_budget_bound o Hwf) as Hbound.
  destruct (sweeps_settle older limit clocks o q Hwf Hlim) as (o' & q' & Hs & Hwf' & Hsame & Hz); [lia|done|].
  exists o', q'. split_and!; [done| |].
  - intros i. specialize (Hsame i). destruct (ob_rows o' !! i), (ob_rows o !! i); naive_solver.
  - intros i r Hr. pose proof (total_budget_zero o' i r Hwf' Hz Hr) as Hu.
    destruct (ob_dispatched_at r) eqn:Hd; [left; by eexists|]. right.
    destruct (ob_dead r) eqn:Hk; [|by rewrite (proj2 (undispatched_spec r)) in Hu].
    split; [done|]. by apply (ow_dead o' Hwf' i r Hr).
Qed.

(** A sweep dispatches in order, each job once. With no lock contention it
    takes the oldest ids up to [limit]; the queue accepts exactly the specs of
    the rows it marks dispatched, in id order, after what it had accepted
    before, and the answer counts them; every other row it took has one more
    failed attempt, and no other row changes. *)
Theorem sweep_in_order {Q} `{TaskQueue Q} now locked older limit o (q : Q) log :
  outbox_wf o →
  let taken := take limit (in_order locked (old_enough now older) o) in
  ∃ n o' q' log', sweep now locked older limit (o, (q, log)) = (Ok n, (o', (q', log'))) ∧
    Sorted id_le taken ∧
    log' = log ++ (ob_spec <$> filter (λ e, accepted now o' e = true) taken) ∧
    n = Z.of_nat (length (filter (λ e, accepted now o' e = true) taken)) ∧
    (∀ e, e ∈ taken → ∃ r, ob_rows o' !! ob_id e = Some r ∧ processed now e r) ∧
    (∀ i, i ∉ ob_id <$> taken → ob_rows o' !! i = ob_rows o !! i).
Proof.
  intros Hwf taken.
  destruct (entries_ok locked (old_enough now older) o limit Hwf) as [Hnd Hall]. fold taken in Hnd, Hall.
  destruct (dispatch_all_spec now taken o (q, log) Hnd) as (n & o' & [q' log'] & Hrun & _ & Hframe & Hproc).
  { eapply Forall_impl; [exact Hall|]. by intros ? []. }
  destruct (dispatch_all_log now taken o q log n o' q' log' Hnd Hall Hrun) as [Hlog Hn].
  exists n, o', q', log'. split_and!; [|  |done..].
  - unfold sweep. erewrite bind_ok; [exact Hrun|]. unfold on_outbox, zoom, pending, gets. simpl. by destruct o.
  - unfold taken. apply Sorted_take. apply in_order_sorted.
Qed.

(** ** Instances *)

Definition demo_job (task : string) (key : option string) : JobSpec :=
  {| js_task := task; js_queue := EMBEDDING; js_payload := JNull; js_idempotency_key := key;
     js_lock := None; js_priority := None; js_schedule := None; js_tenant := Some "acme" |}.

Definition no_rows : outbox := {| ob_rows := ∅; ob_next := 1 |}.

Lemma no_rows_wf : outbox_wf no_rows.
Proof. by split; intros i r; simpl; rewrite lookup_empty. Qed.

Definition queue_of (tasks : list string) (fail : bool) : recording :=
  {| rq_handlers := list_to_set tasks; rq_jobs := []; rq_locks := ∅; rq_fail := fail |}.

(** A job of an unregistered task is written first, a good one after it. *)
Definition poisoned : outbox :=
  snd (add_job 0 (demo_job "memory.index" (Some "k")) (snd (add_job 0 (demo_job "gone" None) no_rows))).

Definition poisoned_row (i : Z) (spec : JobSpec) : outbox_row :=
  {| ob_id := i; ob_spec := spec; ob_created_at := 0; ob_attempts := 0; ob_dispatched_at := None;
     ob_job_id := None; ob_error := None; ob_dead := false |}.

Lemma poisoned_rows i r :
  ob_rows poisoned !! i = Some r →
  (i = 1 ∧ r = poisoned_row 1 (demo_job "gone" None)) ∨
  (i = 2 ∧ r = poisoned_row 2 (demo_job "memory.index" (Some "k"))).
Proof.
  intros Hi. assert (ob_rows poisoned = <[2 := poisoned_row 2 (demo_job "memory.index" (Some "k"))]>
    (<[1 := poisoned_row 1 (demo_job "gone" None)]> ∅)) as Heq by by vm_compute.
  rewrite Heq in Hi. apply lookup_insert_Some in Hi as [[<- <-]|[_ Hi]]; [by right|].
  apply lookup_insert_Some in Hi as [[<- <-]|[_ Hi]]; [by left|]. by rewrite lookup_empty in Hi.
Qed.

Lemma poisoned_wf : outbox_wf poisoned.
Proof.
  split; intros i r [[-> ->]|[-> ->]]%poisoned_rows; simpl.
  - split_and!; [done|vm_compute; done|done].
  - split_and!; [done|vm_compute; done|done].
  - unfold MAX_ATTEMPTS. split; [done|by intros [? _]].
  - unfold MAX_ATTEMPTS. split; [done|by intros [? _]].
Qed.

Lemma outbox_settles_witness :
  ∃ o' q', sweeps 30 1 (replicate 40 100) (poisoned, queue_of ["memory.index"] false) = (Ok tt, (o', q')) ∧
    ∀ i r, ob_rows o' !! i = Some r → is_Some (ob_dispatched_at r) ∨ (ob_dead r = true ∧ MAX_ATTEMPTS ≤ ob_attempts r).
Proof.
  destruct (outbox_settles 30 1 (replicate 40 100) poisoned (queue_of ["memory.index"] false))
    as (o' & q' & Hs & _ & Hrows).
  - apply poisoned_wf.
  - lia.
  - apply Nat.leb_le. by vm_compute.
  - apply Forall_replicate. by intros i r [[-> ->]|[-> ->]]%poisoned_rows.
  - exists o', q'. by split.
Defined.

Lemma sweep_in_order_witness :
  ∃ n o' q' log', sweep 100 ∅ 30 10 (poisoned, (queue_of ["memory.index"] false, [])) = (Ok n, (o', (q', log'))) ∧
    log' = ob_spec <$> filter (λ e, accepted 100 o' e = true) (take 10 (in_order ∅ (old_enough 100 30) poisoned)).
Proof.
  destruct (sweep_in_order 100 ∅ 30 10 poisoned (queue_of ["memory.index"] false) [] poisoned_wf)
    as (n & o' & q' & log' & Hs & _ & Hlog & _).
  exists n, o', q', log'. by split.
Defined.

(** The sweep of the witness dispatches the good job past the bad one. *)
Example good_job_dispatched :
  match sweep 100 ∅ 30 10 (poisoned, (queue_of ["memory.index"] false, [])) with
  | (Ok n, (_, (_, log))) => n = 1 ∧ log = [demo_job "memory.index" (Some "k")]
  | _ => False
  end.
Proof. by vm_compute. Qed.
