(* ===== verification/UnitOfWork.v ===== *)
(** * UnitOfWork: one transaction, its revisions and its jobs
    (adapters/db/uow.py [SqlUnitOfWork], modules/memory/revisions.py
    [touched_revisions]).

    The database is the outbox, the revision counters and everything else
    ([R]). A unit of work reads and writes a working copy; [commit] bumps the
    revisions of the memories its writes invalidated, queues their index jobs,
    publishes the working copy and only then hands the new outbox rows to the
    relay. Leaving without [commit], or by an exception, publishes nothing; the
    outbox sequence is not put back. *)
From S2P Require Import Prelude Errors Revisions Tasks Outbox.

(** ** Definitions *)

(** What a written memory's readers are keyed on: its tenant, the anchors of its
    scope and its stored audience. *)
Record touched_memory := {
  tm_tenant : string;
  tm_user : option string;
  tm_thread : option string;
  tm_agent : option string;
  tm_keys : list string;
}.

Abbreviation touched := (string * revision_key)%type.

(** Tuples of text compare componentwise. *)
Definition touched_le (a b : touched) : Prop :=
  let '(t, (k, i)) := a in
  let '(t', (k', i')) := b in
  if String.eqb t t' then
    if String.eqb (kind_value k) (kind_value k') then str_le i i' else str_le (kind_value k) (kind_value k')
  else str_le t t'.
#[export] Instance touched_le_dec a b : Decision (touched_le a b).
Proof.
  destruct a as [t [k i]], b as [t' [k' i']]. simpl.
  destruct (String.eqb t t'); [destruct (String.eqb (kind_value k) (kind_value k'))|]; apply _.
Defined.

Definition keys_of_memory (m : touched_memory) : list touched :=
  (λ k, (tm_tenant m, k)) <$>
    elements (memory_revision_keys (tm_tenant m) (tm_user m) (tm_thread m) (tm_agent m) (tm_keys m)).

Definition touched_revisions (memories : list touched_memory) : list touched :=
  merge_sort touched_le (elements (list_to_set (memories ≫= keys_of_memory) : gset touched)).

Record database {R : Type} := {
  d_outbox : outbox;
  d_revisions : revisions;
  d_rest : R;
}.
Arguments database : clear implicits.

Section uow.
Context {R Q : Type} `{TaskQueue Q}.

Record uow := {
  u_db : database R;
  u_queue : Q;
  u_work : database R;
  u_invalidated_memories : list touched_memory;
  u_invalidated : list (string * list string);
  u_pending : list Z;
  u_committed : bool;
}.

Abbreviation uprog A := (prog uow A).

Definition set_work (d : database R) (u : uow) : uow :=
  {| u_db := u_db u; u_queue := u_queue u; u_work := d; u_invalidated_memories := u_invalidated_memories u;
     u_invalidated := u_invalidated u; u_pending := u_pending u; u_committed := u_committed u |}.
Definition set_invalidated (ms : list touched_memory) (ids : list (string * list string)) (u : uow) : uow :=
  {| u_db := u_db u; u_queue := u_queue u; u_work := u_work u; u_invalidated_memories := ms;
     u_invalidated := ids; u_pending := u_pending u; u_committed := u_committed u |}.
Definition set_pending (l : list Z) (u : uow) : uow :=
  {| u_db := u_db u; u_queue := u_queue u; u_work := u_work u;
     u_invalidated_memories := u_invalidated_memories u; u_invalidated := u_invalidated u;
     u_pending := l; u_committed := u_committed u |}.

Definition with_outbox (o : outbox) (d : database R) : database R :=
  {| d_outbox := o; d_revisions := d_revisions d; d_rest := d_rest d |}.
Definition with_revisions (r : revisions) (d : database R) : database R :=
  {| d_outbox := d_outbox d; d_revisions := r; d_rest := d_rest d |}.
Definition with_rest (x : R) (d : database R) : database R :=
  {| d_outbox := d_outbox d; d_revisions := d_revisions d; d_rest := x |}.

Definition in_work {A} (m : prog (database R) A) : uprog A := zoom u_work set_work m.
Definition work_outbox {A} (m : oprog A) : uprog A := in_work (zoom d_outbox with_outbox m).
Definition work_revisions {A} (m : prog revisions A) : uprog A := in_work (zoom d_revisions with_revisions m).
Definition work_rest {A} (m : prog R A) : uprog A := in_work (zoom d_rest with_rest m).

Definition enqueue (now : Z) (spec : JobSpec) : uprog (option Z) :=
  bind (work_outbox (add_job now spec)) (λ outbox_id,
  match outbox_id with
  | Some i => bind (modify (λ u, set_pending (u_pending u ++ [i]) u)) (λ _, ret (Some i))
  | None => ret None
  end).

(** The job that removes the index entries of invalidated memories. *)
Definition index_job (tenant_id : string) (ids : list string) : JobSpec :=
  {| js_task := "memory.index"; js_queue := EMBEDDING;
     js_payload := JObj [("tenant_id", JStr tenant_id); ("memory_ids", JList (JStr <$> str_sorted ids))];
     js_idempotency_key := None; js_lock := None; js_priority := None; js_schedule := None;
     js_tenant := Some tenant_id |}.

Definition bump_touched (ts : list touched) : uprog unit :=
  mapM_ (λ x, bind (work_revisions (bump (fst x) (fst (snd x)) (snd (snd x)))) (λ _, ret tt)) ts.

Definition index_invalidated (now : Z) (l : list (string * list string)) : uprog unit :=
  mapM_ (λ x, match snd x with
              | [] => ret tt
              | ids => bind (enqueue now (index_job (fst x) ids)) (λ _, ret tt)
              end) l.

(** The relay after the commit, on the committed rows. *)
Definition publish (now : Z) (locked : gset Z) : uprog unit :=
  λ u,
  let d := u_work u in
  let '(_, (o, q)) := dispatch_ids now locked (u_pending u) (d_outbox d, u_queue u) in
  let d' := with_outbox o d in
  (Ok tt, {| u_db := d'; u_queue := q; u_work := d'; u_invalidated_memories := u_invalidated_memories u;
             u_invalidated := u_invalidated u; u_pending := []; u_committed := true |}).

(** [commit] up to the database's own commit. *)
Definition settle (now : Z) : uprog unit :=
  bind (gets u_invalidated_memories) (λ ms,
  bind (bump_touched (touched_revisions ms)) (λ _,
  bind (gets u_invalidated) (λ ids,
  bind (modify (set_invalidated [] ids)) (λ _,
  bind (index_invalidated now ids) (λ _,
  modify (set_invalidated [] [])))))).

Definition commit (now : Z) (locked : gset Z) : uprog unit :=
  bind (settle now) (λ _, publish now locked).

Definition enter (d : database R) (q : Q) : uow :=
  {| u_db := d; u_queue := q; u_work := d; u_invalidated_memories := []; u_invalidated := [];
     u_pending := []; u_committed := false |}.

(** [__aexit__]: what was not committed is rolled back. *)
Definition leave (u : uow) : database R :=
  with_outbox {| ob_rows := ob_rows (d_outbox (u_db u)); ob_next := ob_next (d_outbox (u_work u)) |} (u_db u).

(** [async with uow: body]. *)
Definition with_uow {A} (body : uprog A) : prog (database R * Q) A :=
  λ s, let '(r, u) := body (enter (fst s) (snd s)) in (r, (leave u, u_queue u)).
End uow.
Arguments uow : clear implicits.

(** ** Lemmas: what a unit of work tracks *)

Section tracking.
Context {R Q : Type} `{TaskQueue Q}.
Implicit Types u : uow R Q.

Abbreviation work_rows u := (ob_rows (d_outbox (u_work u))).
Abbreviation db_rows u := (ob_rows (d_outbox (u_db u))).

(** The pending ids are the rows written since the unit began. *)
Record uinv u : Prop := {
  ui_wf : outbox_wf (d_outbox (u_work u));
  ui_pending i : i ∈ u_pending u ↔ is_Some (work_rows u !! i) ∧ db_rows u !! i = None;
  ui_fresh i r : work_rows u !! i = Some r → db_rows u !! i = None → undispatched r = true;
  ui_kept i r : db_rows u !! i = Some r → work_rows u !! i = Some r;
}.

(** Rows only appear, and what is committed and queued elsewhere stays put. *)
Record onward u u' : Prop := {
  on_inv : uinv u';
  on_db : u_db u' = u_db u;
  on_queue_ : u_queue u' = u_queue u;
  on_rows i r : work_rows u !! i = Some r → work_rows u' !! i = Some r;
}.

Definition tracks {A} (m : prog (uow R Q) A) : Prop := ∀ u, uinv u → onward u (snd (m u)).

Lemma onward_refl u : uinv u → onward u u.
Proof. intros Hu. by split. Qed.

Lemma onward_trans u1 u2 u3 : onward u1 u2 → onward u2 u3 → onward u1 u3.
Proof. intros [] []. split; [done|congruence..|]. auto. Qed.

Lemma tracks_bind {A B} (m : prog (uow R Q) A) (k : A → prog (uow R Q) B) :
  tracks m → (∀ x, tracks (k x)) → tracks (bind m k).
Proof.
  intros Hm Hk u Hu. specialize (Hm u Hu). unfold bind. destruct (m u) as [[x|e] u1]; [|done].
  eapply onward_trans; [exact Hm|]. apply Hk. by apply (on_inv u).
Qed.

Lemma tracks_pure {A} (m : prog (uow R Q) A) : (∀ u, snd (m u) = u) → tracks m.
Proof. intros Hm u Hu. rewrite Hm. by apply onward_refl. Qed.

Lemma tracks_mapM {A} (f : A → prog (uow R Q) unit) l : (∀ x, tracks (f x)) → tracks (mapM_ f l).
Proof. intros Hf. induction l as [|x l IH]; [by apply tracks_pure|]. by apply tracks_bind. Qed.

(** Whatever leaves the outbox and the pending ids alone. *)
Lemma onward_same u u' :
  uinv u → d_outbox (u_work u') = d_outbox (u_work u) → u_pending u' = u_pending u →
  u_db u' = u_db u → u_queue u' = u_queue u → onward u u'.
Proof.
  intros [Hwf Hp Hf Hk] Ho Hpe Hd Hq. split; [|done|done|by rewrite Ho]. split; by rewrite ?Ho, ?Hpe, ?Hd.
Qed.

Lemma tracks_rest {A} (m : prog R A) : tracks (work_rest m).
Proof.
  intros u Hu. unfold work_rest, in_work, zoom. destruct (m (d_rest (u_work u))) as [r x].
  by apply onward_same.
Qed.

Lemma tracks_revisions {A} (m : prog revisions A) : tracks (work_revisions m).
Proof.
  intros u Hu. unfold work_revisions, in_work, zoom. destruct (m (d_revisions (u_work u))) as [r x].
  by apply onward_same.
Qed.

Lemma tracks_invalidated f : tracks (modify (λ u, set_invalidated (fst (f u)) (snd (f u)) u)).
Proof. intros u Hu. by apply onward_same. Qed.

Lemma next_unused o : outbox_wf o → ob_rows o !! ob_next o = None.
Proof.
  intros Hwf. destruct (ob_rows o !! ob_next o) as [r|] eqn:E; [|done].
  destruct (ow_id o Hwf _ _ E) as (_ & Hlt & _). lia.
Qed.

Lemma tracks_enqueue now spec : tracks (enqueue now spec).
Proof.
  intros u Hu. pose proof (next_unused _ (ui_wf u Hu)) as Hnone. unfold enqueue, bind, work_outbox, in_work, zoom, add_job.
  set (o := d_outbox (u_work u)) in *. destruct Hu as [Hwf Hp Hf Hk]. fold o in Hwf.
  destruct (match js_idempotency_key spec with Some key => _ | None => false end); cbn [snd ret modify].
  - split; [|done|done|done]. split; simpl; [|done..]. destruct Hwf as [Hid Hdead]. split; simpl; [|done].
    intros i r Hi. destruct (Hid i r Hi) as (? & ? & ?). split_and!; [done|lia|done].
  - split; [|done|done|]; simpl.
    + split; simpl.
      * destruct Hwf as [Hid Hdead]. split; intros i r; simpl; rewrite lookup_insert_Some;
          intros [[<- <-]|[_ Hr]]; simpl.
        -- split_and!; [done|lia|done].
        -- destruct (Hid i r Hr) as (? & ? & ?). split_and!; [done|lia|done].
        -- unfold MAX_ATTEMPTS. split; [done|]. intros []; lia.
        -- by apply (Hdead i).
      * intros i. rewrite elem_of_app, list_elem_of_singleton, Hp. destruct (decide (ob_next o = i)) as [<-|Hne].
        -- rewrite lookup_insert_eq. split; [|by right]. intros _. split; [by eexists|].
           destruct (db_rows u !! ob_next o) as [r|] eqn:E; [|done]. apply Hk in E. fold o in E. congruence.
        -- rewrite lookup_insert_ne by done. split; [by intros [?| ->]|by left].
      * intros i r. rewrite lookup_insert_Some. intros [[<- <-]|[_ Hr]]; [done|by apply (Hf i)].
      * intros i r Hr. rewrite lookup_insert_ne; [by apply Hk|]. intros <-. apply Hk in Hr. fold o in Hr. congruence.
    + intros i r Hr. rewrite lookup_insert_ne; [done|]. intros <-. fold o in Hr. congruence.
Qed.

Lemma tracks_settle now : tracks (settle now).
Proof.
  unfold settle. apply tracks_bind; [by apply tracks_pure|intros ms].
  apply tracks_bind; [apply tracks_mapM; intros x; apply tracks_bind; [apply tracks_revisions|intros; by apply tracks_pure]|intros _].
  apply tracks_bind; [by apply tracks_pure|intros ids].
  apply tracks_bind; [apply (tracks_invalidated (λ _, ([], ids)))|intros _].
  apply tracks_bind; [|intros _; apply (tracks_invalidated (λ _, ([], [])))].
  apply tracks_mapM. intros [t [|i l]]; [by apply tracks_pure|]. simpl.
  apply tracks_bind; [apply tracks_enqueue|intros; by apply tracks_pure].
Qed.

Lemma uinv_enter d q : outbox_wf (d_outbox d) → uinv (enter d q).
Proof.
  intros Hwf. split; simpl; [done| |congruence|done]. intros i. rewrite elem_of_nil. split; [done|].
  intros [[r Hr] Hn]. congruence.
Qed.

Lemma bump_touched_spec ts u :
  NoDup ts →
  ∃ r, bump_touched ts u = (Ok tt, set_work (with_revisions r (u_work u)) u) ∧
    ∀ t k, revision_value t r k =
      revision_value t (d_revisions (u_work u)) k + (if decide ((t, k) ∈ ts) then 1 else 0).
Proof.
  revert u. induction ts as [|[t0 k0] ts IH]; intros u Hnd.
  { exists (d_revisions (u_work u)). split; [by destruct u as [? ? []]|]. intros t k.
    rewrite decide_False by apply not_elem_of_nil. lia. }
  apply NoDup_cons in Hnd as [Hnin Hnd].
  set (u1 := snd (work_revisions (bump t0 (fst k0) (snd k0)) u)).
  destruct (IH u1 Hnd) as (r & Hr & Hval). exists r. split.
  - cbn [bump_touched mapM_] in *. erewrite bind_ok; [exact Hr|]. done.
  - intros t k. rewrite Hval. unfold u1, work_revisions, in_work, zoom. simpl.
    destruct (decide (t = t0)) as [->|Ht].
    + change (<[(t0, fst k0, snd k0) := ?v]> ?m) with (snd (bump t0 (fst k0) (snd k0) m)).
      pose proof (bump_value t0 (fst k0) (snd k0) (d_revisions (u_work u)) k) as Hb.
      rewrite <- surjective_pairing in Hb. etrans; [apply (f_equal (λ x, x + _)); exact Hb|].
      destruct (decide (k = k0)) as [->|Hk].
      * rewrite (decide_False (P := (t0, k0) ∈ ts)), decide_True by (try done; by left). lia.
      * destruct (decide ((t0, k) ∈ ts)) as [Hin|Hin].
        -- rewrite decide_True by by right. lia.
        -- rewrite decide_False by (rewrite elem_of_cons; naive_solver). lia.
    + unfold revision_value. rewrite lookup_insert_ne by congruence.
      destruct (decide ((t, k) ∈ ts)) as [Hin|Hin].
      * rewrite decide_True by by right. done.
      * rewrite decide_False by (rewrite elem_of_cons; naive_solver). done.
Qed.

Lemma enqueue_keeps now spec u :
  ∃ x o, enqueue now spec u = (Ok x, o) ∧
    d_rest (u_work o) = d_rest (u_work u) ∧ d_revisions (u_work o) = d_revisions (u_work u) ∧
    (js_idempotency_key spec = None →
     ∃ r, work_rows o !! ob_next (d_outbox (u_work u)) = Some r ∧ ob_spec r = spec).
Proof.
  unfold enqueue, bind, work_outbox, in_work, zoom, add_job. destruct (js_idempotency_key spec) as [key|].
  - destruct (existsb _ _); eexists _, _; (split; [reflexivity|]); done.
  - eexists _, _. split; [reflexivity|]. split; [done|]. split; [done|]. intros _.
    eexists. simpl. by rewrite lookup_insert_eq.
Qed.

Lemma index_invalidated_spec now l u :
  uinv u →
  ∃ u', index_invalidated now l u = (Ok tt, u') ∧ onward u u' ∧
    d_rest (u_work u') = d_rest (u_work u) ∧ d_revisions (u_work u') = d_revisions (u_work u) ∧
    ∀ t ids, (t, ids) ∈ l → ids ≠ [] → ∃ i r, work_rows u' !! i = Some r ∧ ob_spec r = index_job t ids.
Proof.
  revert u. induction l as [|[t ids] l IH]; intros u Hu.
  { exists u. split_and!; [done|by apply onward_refl|done|done|]. by intros t ids ?%elem_of_nil. }
  destruct ids as [|x ids].
  - destruct (IH u Hu) as (u' & Hr & Ho & Hre & Hrv & Hin). exists u'. split_and!; [exact Hr|done..|].
    intros t' ids' [[= -> ->]|Hl]%elem_of_cons Hne; [done|by apply Hin].
  - destruct (enqueue_keeps now (index_job t (x :: ids)) u) as (y & u1 & He & Hre1 & Hrv1 & Hrow).
    pose proof (tracks_enqueue now (index_job t (x :: ids)) u Hu) as Hon. rewrite He in Hon.
    destruct (IH u1 (on_inv _ _ Hon)) as (u' & Hr & Ho & Hre & Hrv & Hin). exists u'. split_and!.
    + cbn [index_invalidated mapM_ snd fst] in *. erewrite bind_ok; [exact Hr|].
      erewrite bind_ok; [|exact He]. done.
    + by eapply onward_trans.
    + congruence.
    + congruence.
    + intros t' ids' [[= -> ->]|Hl]%elem_of_cons Hne; [|by apply Hin].
      destruct (Hrow eq_refl) as (r & Hr' & Hs). eexists _, r. split; [by apply (on_rows _ _ Ho)|done].
Qed.

Lemma touched_NoDup ms : NoDup (touched_revisions ms).
Proof. unfold touched_revisions. rewrite merge_sort_Permutation. apply NoDup_elements. Qed.

Lemma settle_spec now u :
  uinv u →
  ∃ u', settle now u = (Ok tt, u') ∧ onward u u' ∧ d_rest (u_work u') = d_rest (u_work u) ∧
    (∀ t k, revision_value t (d_revisions (u_work u')) k =
       revision_value t (d_revisions (u_work u)) k +
       (if decide ((t, k) ∈ touched_revisions (u_invalidated_memories u)) then 1 else 0)) ∧
    ∀ t ids, (t, ids) ∈ u_invalidated u → ids ≠ [] →
      ∃ i r, work_rows u' !! i = Some r ∧ ob_spec r = index_job t ids.
Proof.
  intros Hu. destruct (bump_touched_spec (touched_revisions (u_invalidated_memories u)) u (touched_NoDup _))
    as (r & Hb & Hval).
  set (u1 := set_work (with_revisions r (u_work u)) u) in *.
  set (u2 := set_invalidated [] (u_invalidated u) u1).
  assert (onward u u2) as Hon2 by by apply onward_same.
  destruct (index_invalidated_spec now (u_invalidated u) u2 (on_inv _ _ Hon2)) as (u3 & Hi & Hon3 & Hre & Hrv & Hin).
  exists (set_invalidated [] [] u3). split_and!.
  - unfold settle. erewrite bind_ok; [|done]. erewrite bind_ok; [|exact Hb]. erewrite bind_ok; [|done].
    erewrite bind_ok; [|done]. erewrite bind_ok; [done|exact Hi].
  - eapply onward_trans; [exact Hon2|]. eapply onward_trans; [exact Hon3|]. apply onward_same; try done. apply (on_inv _ _ Hon3).
  - exact Hre.
  - intros t k. rewrite <- Hval. cbn [u_work set_invalidated]. by rewrite Hrv.
  - exact Hin.
Qed.
End tracking.

(** ** Steps beside the other tables *)

Section calm.
Context {R Q : Type} `{TaskQueue Q}.

(** A step that always returns and leaves the other tables alone. *)
Definition calm {A} (m : prog (uow R Q) A) : Prop :=
  ∀ u, ∃ a u', m u = (Ok a, u') ∧ d_rest (u_work u') = d_rest (u_work u).

Lemma calm_ret {A} (a : A) : calm (ret a).
Proof. intros u. by exists a, u. Qed.

Lemma calm_bind {A B} (m : prog (uow R Q) A) (k : A → prog (uow R Q) B) : calm m → (∀ a, calm (k a)) → calm (bind m k).
Proof.
  intros Hm Hk u. destruct (Hm u) as (a & u1 & Hr & H1). destruct (Hk a u1) as (b & u2 & Hr2 & H2).
  exists b, u2. split; [by erewrite bind_ok; [|exact Hr]|congruence].
Qed.

Lemma calm_mapM {A} (f : A → prog (uow R Q) unit) l : (∀ x, calm (f x)) → calm (mapM_ f l).
Proof. intros Hf. induction l as [|x l IH]; [apply calm_ret|]. by apply calm_bind. Qed.

Lemma calm_gets {A} (f : uow R Q → A) : calm (gets f).
Proof. intros u. by eexists _, u. Qed.

Lemma calm_modify (f : uow R Q → uow R Q) : (∀ u, d_rest (u_work (f u)) = d_rest (u_work u)) → calm (modify f).
Proof. intros Hf u. by eexists _, _. Qed.

Lemma calm_bumps ts : calm (bump_touched ts).
Proof.
  apply calm_mapM. intros x. apply calm_bind; [|intros; apply calm_ret].
  intros u. unfold work_revisions, in_work, zoom. destruct (bump _ _ _ _) as [r v] eqn:Hb. unfold bump in Hb.
  injection Hb as <- <-. by eexists _, _.
Qed.

Lemma calm_enqueue i spec : calm (enqueue i spec).
Proof.
  unfold enqueue. apply calm_bind.
  - intros u. unfold work_outbox, in_work, zoom, add_job. destruct (match js_idempotency_key spec with Some _ => _ | None => _ end);
      by eexists _, _.
  - intros [j|]; [|apply calm_ret]. apply calm_bind; [by apply calm_modify|intros; apply calm_ret].
Qed.

Lemma calm_settle i : calm (settle i).
Proof.
  unfold settle. apply calm_bind; [apply calm_gets|intros ms]. apply calm_bind; [apply calm_bumps|intros _].
  apply calm_bind; [apply calm_gets|intros ids]. apply calm_bind; [by apply calm_modify|intros _].
  apply calm_bind; [|intros _; by apply calm_modify].
  apply calm_mapM. intros [t [|x l]]; [apply calm_ret|]. apply calm_bind; [apply calm_enqueue|intros; apply calm_ret].
Qed.

(** A commit publishes the other tables as they are. *)
Lemma commit_rest at_ locked (u : uow R Q) : ∃ u', commit at_ locked u = (Ok tt, u') ∧ d_rest (u_db u') = d_rest (u_work u).
Proof.
  destruct (calm_settle at_ u) as ([] & u1 & Hr & H1). unfold commit. erewrite bind_ok; [|exact Hr].
  unfold publish. destruct (dispatch_ids _ _ _ _) as [r [o q]]. eexists. split; [done|]. simpl. done.
Qed.
End calm.

(** ** The relay after the commit *)

Lemma dispatch_ids_eq {Q} `{TaskQueue Q} now locked ids o (q : Q) :
  outbox_wf o →
  ∃ n o' q', dispatch_ids now locked ids (o, q) = (Ok tt, (o', q')) ∧
    dispatch_all now (in_order locked (λ r, bool_decide (ob_id r ∈ ids)) o) (o, q) = (Ok n, (o', q')).
Proof.
  intros Hwf. set (l := in_order locked (λ r, bool_decide (ob_id r ∈ ids)) o).
  destruct (dispatch_all_spec now l o q) as (n & o' & q' & Hrun & _).
  - by apply in_order_NoDup.
  - apply Forall_forall. intros e (? & _)%(elem_in_order _ _ _ _ Hwf). done.
  - exists n, o', q'. split; [|done]. unfold dispatch_ids. destruct ids as [|i ids].
    + assert (l = []) as Hl.
      { destruct l as [|e l'] eqn:El; [done|]. assert (e ∈ in_order locked (λ r, bool_decide (ob_id r ∈ [])) o) as He
          by (fold l; rewrite El; by left).
        apply (elem_in_order _ _ _ _ Hwf) in He as (_ & _ & _ & Hb%bool_decide_eq_true). by apply elem_of_nil in Hb. }
      rewrite Hl in Hrun. cbn in Hrun. injection Hrun as _ <- <-. done.
    + erewrite bind_ok; [erewrite bind_ok; [done|exact Hrun]|].
      unfold on_outbox, zoom, by_ids, gets. simpl. by destruct o.
Qed.

(** What the relay does with some of the rows: the others are untouched, every row
    keeps its spec, and the queue accepts, in id order, exactly the specs of those
    of them that end up dispatched. *)
Lemma dispatch_ids_spec {Q} `{TaskQueue Q} now locked ids o (q : Q) log :
  outbox_wf o →
  ∃ o2 q2 log2, dispatch_ids now locked ids (o, (q, log)) = (Ok tt, (o2, (q2, log2))) ∧
    (∀ i, i ∉ ids → ob_rows o2 !! i = ob_rows o !! i) ∧
    (∀ i row, ob_rows o !! i = Some row → ∃ row', ob_rows o2 !! i = Some row' ∧ ob_spec row' = ob_spec row) ∧
    ∃ l, log2 = log ++ (ob_spec <$> l) ∧ Sorted id_le l ∧
      ∀ i, i ∈ ob_id <$> l ↔ i ∈ ids ∧ (∃ r, ob_rows o !! i = Some r ∧ undispatched r = true) ∧
        ∃ row, ob_rows o2 !! i = Some row ∧ is_Some (ob_dispatched_at row).
Proof.
  intros Hwf. destruct (dispatch_ids_eq now locked ids o (q, log) Hwf) as (n & o2 & [q2 log2] & Hids & Hall).
  set (l := in_order locked (λ r, bool_decide (ob_id r ∈ ids)) o) in *.
  assert (NoDup (ob_id <$> l)) as Hnd by by apply in_order_NoDup.
  assert (∀ e, e ∈ l ↔ ob_rows o !! ob_id e = Some e ∧ undispatched e = true ∧ ob_id e ∉ locked ∧ ob_id e ∈ ids) as Hel.
  { intros e. unfold l. rewrite (elem_in_order _ _ _ _ Hwf), bool_decide_eq_true. done. }
  assert (Forall (λ e, ob_rows o !! ob_id e = Some e) l) as Hhere.
  { apply Forall_forall. intros e He. by apply Hel in He as (? & _). }
  assert (Forall (λ e, ob_rows o !! ob_id e = Some e ∧ undispatched e = true) l) as Hfresh.
  { apply Forall_forall. intros e He. by apply Hel in He as (? & ? & _). }
  destruct (dispatch_all_spec now l o (q, log) Hnd Hhere) as (n' & o2' & q2' & Hall' & _ & Hframe & Hproc).
  rewrite Hall in Hall'. injection Hall' as <- <- <-.
  destruct (dispatch_all_log now l o q log n o2 q2 log2 Hnd Hfresh Hall) as [Hlog _].
  exists o2, q2, log2. split_and!; [exact Hids| | |].
  - intros i Hni. apply Hframe. by intros (e & -> & (_ & _ & _ & ?)%Hel)%list_elem_of_fmap.
  - intros i row Hi. destruct (decide (i ∈ ob_id <$> l)) as [(e & -> & He)%list_elem_of_fmap|Hni].
    + destruct (Hproc e He) as (r & Hr & Hpr). apply Hel in He as (He & _). rewrite Hi in He. injection He as ->.
      exists r. split; [done|]. by destruct Hpr as [[j ->]|[m ->]].
    + exists row. by rewrite Hframe.
  - exists (filter (λ e, accepted now o2 e = true) l). split_and!; [exact Hlog| |intros i; rewrite list_elem_of_fmap; split].
    + apply StronglySorted_Sorted, StronglySorted_filter, Sorted_StronglySorted; [|apply in_order_sorted].
      intros a b c. unfold id_le. lia.
    + intros (e & -> & [Hacc He]%list_elem_of_filter). apply Hel in He as (Hrow & Hu & _ & Hid).
      split_and!; [done|by eexists|]. unfold accepted in Hacc. destruct (ob_rows o2 !! ob_id e) as [row|]; [|done].
      exists row. split; [done|]. by apply bool_decide_eq_true in Hacc.
    + intros (_ & (r & Hr & Hu) & row & Hrow & Hd).
      destruct (decide (i ∈ ob_id <$> l)) as [(e & -> & He)%list_elem_of_fmap|Hni].
      * exists e. split; [done|]. apply list_elem_of_filter. split; [|done]. unfold accepted. rewrite Hrow.
        by apply bool_decide_eq_true.
      * exfalso. rewrite Hframe, Hr in Hrow by done. injection Hrow as ->.
        apply undispatched_spec in Hu as [Hu _]. rewrite Hu in Hd. by destruct Hd.
Qed.

(** C10: a unit of work is all or nothing, and its jobs follow its commit. If the
    body raises, the committed rows, revisions and data and the queue are what
    they were. If it returns and commits: its data is committed, each revision
    the invalidated memories' readers are keyed on has moved by one more and no
    other has, every outbox row that was there is as it was, every row the body
    wrote and an index job for each tenant's invalidated memories are there,
    and what the queue accepted on the way is exactly, in id order, the specs of
    the new rows marked dispatched. Nothing is dispatched before the commit. *)
Theorem unit_of_work_atomic {R Q A} `{TaskQueue Q} (body : prog (uow R (Q * list JobSpec)) A)
    now locked (d : database R) (q : Q) log :
  tracks body → outbox_wf (d_outbox d) →
  let u := snd (body (enter d (q, log))) in
  let '(r, (d', (q', log'))) :=
    with_uow (bind body (λ x, bind (commit now locked) (λ _, ret x))) (d, (q, log)) in
  r = fst (body (enter d (q, log))) ∧
  match r with
  | Raise _ =>
      ob_rows (d_outbox d') = ob_rows (d_outbox d) ∧ d_revisions d' = d_revisions d ∧ d_rest d' = d_rest d ∧
      q' = q ∧ log' = log
  | Ok _ =>
      d_rest d' = d_rest (u_work u) ∧
      (∀ t k, revision_value t (d_revisions d') k = revision_value t (d_revisions (u_work u)) k +
         (if decide ((t, k) ∈ touched_revisions (u_invalidated_memories u)) then 1 else 0)) ∧
      (∀ i row, ob_rows (d_outbox d) !! i = Some row → ob_rows (d_outbox d') !! i = Some row) ∧
      (∀ i row, ob_rows (d_outbox (u_work u)) !! i = Some row →
         ∃ row', ob_rows (d_outbox d') !! i = Some row' ∧ ob_spec row' = ob_spec row) ∧
      (∀ t ids, (t, ids) ∈ u_invalidated u → ids ≠ [] →
         ∃ i row, ob_rows (d_outbox d') !! i = Some row ∧ ob_spec row = index_job t ids) ∧
      (∃ l, log' = log ++ (ob_spec <$> l) ∧ Sorted id_le l ∧
         ∀ i, i ∈ ob_id <$> l ↔ ob_rows (d_outbox d) !! i = None ∧
           ∃ row, ob_rows (d_outbox d') !! i = Some row ∧ is_Some (ob_dispatched_at row))
  end.
Proof.
  intros Htr Hwf u. pose proof (Htr _ (uinv_enter d (q, log) Hwf)) as Hon. fold u in Hon.
  unfold with_uow. cbn [fst snd]. unfold bind at 1. unfold u in *. clear u.
  destruct (body (enter d (q, log))) as [[x|e] u]; cbn [fst snd] in *.
  2: { destruct Hon as [_ Hdb Hq _]. unfold leave. rewrite Hdb, Hq. done. }
  destruct (settle_spec now u (on_inv _ _ Hon)) as (u1 & Hset & Hon1 & Hrest & Hval & Hjobs).
  assert (u_queue u1 = (q, log) ∧ u_db u1 = d) as [Hq1 Hdb].
  { rewrite (on_queue_ _ _ Hon1), (on_queue_ _ _ Hon), (on_db _ _ Hon1), (on_db _ _ Hon). done. }
  pose proof (on_inv _ _ Hon1) as [Hwf1 Hp1 Hf1 Hk1]. rewrite Hdb in Hp1, Hf1, Hk1.
  destruct (dispatch_ids_spec now locked (u_pending u1) (d_outbox (u_work u1)) q log Hwf1)
    as (o2 & q2 & log2 & Hids & Hframe & Hspec & l & Hlog & Hsorted & Hl).
  unfold commit. erewrite bind_ok; [|erewrite bind_ok; [|exact Hset]; unfold publish; rewrite Hq1, Hids; reflexivity].
  unfold ret, leave. cbn [u_db u_work u_queue d_outbox d_revisions d_rest with_outbox ob_rows].
  split; [done|]. split_and!; [by rewrite Hrest|exact Hval| | | |].
  - intros i row Hi. rewrite Hframe; [by apply Hk1|]. intros [_ Hn]%Hp1. congruence.
  - intros i row Hi. by apply Hspec, (on_rows _ _ Hon1).
  - intros t ids Hin Hne. destruct (Hjobs t ids Hin Hne) as (i & r & Hi & Hs).
    destruct (Hspec i r Hi) as (r' & Hr' & Hs'). exists i, r'. split; [done|congruence].
  - exists l. split_and!; [exact Hlog|exact Hsorted|]. intros i. rewrite Hl, Hp1. split.
    + intros ([_ Hn] & _ & row & ?). split; [done|by exists row].
    + intros (Hn & row & Hrow & Hd). assert (is_Some (ob_rows (d_outbox (u_work u1)) !! i)) as [r Hr].
      { destruct (decide (i ∈ u_pending u1)) as [[? _]%Hp1|Hni]; [done|]. rewrite <- Hframe by done. by eexists. }
      split_and!; [by eexists|done| |by exists row]. exists r. split; [done|]. by apply (Hf1 i).
Qed.

(** ** Instances *)

(** A body that writes a row of its own, a job, and the invalidation of a
    derived memory. *)
Definition demo_body : prog (uow Z (recording * list JobSpec)) unit :=
  bind (work_rest (modify (λ n, n + 1))) (λ _,
  bind (enqueue 5 (demo_job "memory.index" (Some "k"))) (λ _,
  modify (λ u, set_invalidated [{| tm_tenant := "acme"; tm_user := Some "alice"; tm_thread := None;
                                   tm_agent := None; tm_keys := [] |}] [("acme", ["m1"])] u))).

Lemma demo_body_tracks : tracks demo_body.
Proof.
  apply tracks_bind; [apply tracks_rest|intros _]. apply tracks_bind; [apply tracks_enqueue|intros _].
  apply (tracks_invalidated (λ _, (_, _))).
Qed.

Definition demo_database : database Z :=
  {| d_outbox := no_rows; d_revisions := ∅; d_rest := 0 |}.

Lemma unit_of_work_atomic_witness :
  let '(r, (d', (_, log'))) :=
    with_uow (bind demo_body (λ x, bind (commit 5 ∅) (λ _, ret x)))
      (demo_database, (queue_of ["memory.index"] false, [])) in
  r = Ok tt ∧ d_rest d' = 1 ∧ revision_value "acme" (d_revisions d') (RevUser, "alice") = 1 ∧
  js_task <$> log' = ["memory.index"; "memory.index"].
Proof.
  pose proof (unit_of_work_atomic demo_body 5 ∅ demo_database (queue_of ["memory.index"] false) []
    demo_body_tracks no_rows_wf) as Hspec.
  assert (with_uow (bind demo_body (λ x, bind (commit 5 ∅) (λ _, ret x)))
    (demo_database, (queue_of ["memory.index"] false, [])) =
    with_uow (bind demo_body (λ x, bind (commit 5 ∅) (λ _, ret x)))
    (demo_database, (queue_of ["memory.index"] false, []))) as Hrun by done.
  destruct (with_uow _ _) as [r [d' [q' log']]] in Hspec, Hrun at 1 |- *.
  destruct Hspec as [Hr Hspec]. assert (r = Ok tt) as -> by (rewrite Hr; by vm_compute).
  destruct Hspec as (Hrest & Hval & _). split; [done|]. split; [rewrite Hrest; by vm_compute|].
  split.
  - rewrite (Hval "acme" (RevUser, "alice")). by vm_compute.
  - assert (snd (snd (snd (with_uow (bind demo_body (λ x, bind (commit 5 ∅) (λ _, ret x)))
      (demo_database, (queue_of ["memory.index"] false, []))))) = log') as <- by by rewrite <- Hrun.
    by vm_compute.
Defined.
