(* ===== verification/TenantRegistry.v ===== *)
(** * TenantRegistry: what every request knows of tenants without a store read
    (modules/tenancy/registry.py).

    The maps of one process, the changes that update them at once, the messages
    that tell the other processes, and the reload. A message is the parsed JSON
    body ([None]: it does not parse). What a process publishes is appended to
    [rg_sent] when it has a cache; whether a message arrives is the channel's. *)
From S2P Require Import Prelude Errors Ids Tenancy TenancyRepo.

(** ** Definitions *)

Definition CHANNEL : string := "trellis:tenancy".
Definition MAX_KNOWN_KEYS : nat := Z.to_nat 100000.

Record registry := {
  rg_limits : gmap string Z;
  rg_key_tenants : gmap string string;
  rg_suspended : gset string;
  rg_live : list string;
  rg_generation : Z;
  rg_origin : string;
  rg_cache : bool;
  rg_sent : list json;
}.

Definition set_maps (limits : gmap string Z) (key_tenants : gmap string string) (susp : gset string)
    (r : registry) : registry :=
  {| rg_limits := limits; rg_key_tenants := key_tenants; rg_suspended := susp; rg_live := rg_live r;
     rg_generation := rg_generation r; rg_origin := rg_origin r; rg_cache := rg_cache r;
     rg_sent := rg_sent r |}.
Definition set_live (l : list string) (r : registry) : registry :=
  {| rg_limits := rg_limits r; rg_key_tenants := rg_key_tenants r; rg_suspended := rg_suspended r;
     rg_live := l; rg_generation := rg_generation r; rg_origin := rg_origin r;
     rg_cache := rg_cache r; rg_sent := rg_sent r |}.
Definition next_generation (r : registry) : registry :=
  {| rg_limits := rg_limits r; rg_key_tenants := rg_key_tenants r; rg_suspended := rg_suspended r;
     rg_live := rg_live r; rg_generation := rg_generation r + 1; rg_origin := rg_origin r;
     rg_cache := rg_cache r; rg_sent := rg_sent r |}.
Definition send (m : json) (r : registry) : registry :=
  {| rg_limits := rg_limits r; rg_key_tenants := rg_key_tenants r; rg_suspended := rg_suspended r;
     rg_live := rg_live r; rg_generation := rg_generation r; rg_origin := rg_origin r;
     rg_cache := rg_cache r; rg_sent := rg_sent r ++ [m] |}.

Definition announce_ (event : list (string * json)) (r : registry) : registry :=
  if rg_cache r then send (JObj (event ++ [("origin", JStr (rg_origin r))])) r else r.

(** [quota_for]. *)
Definition quota_for (r : registry) (tenant_id credential : option string) : string * option Z :=
  let parsed := match credential with
                | Some c => if truthy c then parse_token (bare_credential c) else None
                | None => None
                end in
  let keyed := match parsed with
               | Some (k, _) => rg_key_tenants r !! k
               | None => None
               end in
  let tenant := or_str keyed (default "" tenant_id) in
  if truthy tenant then (tenant, rg_limits r !! tenant) else ("-", None).

Definition is_suspended (r : registry) (tenant_id : string) : bool :=
  bool_decide (tenant_id ∈ rg_suspended r).

Definition knows_key (r : registry) (key_id : string) : bool :=
  bool_decide (key_id ∈ rg_live r) || bool_decide (is_Some (rg_key_tenants r !! key_id)).

(** An OrderedDict, oldest first: to the end, and the oldest out. *)
Definition remember_key (key_id : string) (r : registry) : registry :=
  set_live (lastn MAX_KNOWN_KEYS (filter (λ k, k ≠ key_id) (rg_live r) ++ [key_id])) r.

Definition tenant_event (tenant_id : string) : list (string * json) :=
  [("type", JStr "tenant"); ("tenant_id", JStr tenant_id)].
Definition issued_event (key_id tenant_id : string) : list (string * json) :=
  [("type", JStr "key_issued"); ("key_id", JStr key_id); ("tenant_id", JStr tenant_id)].
Definition revoked_event (key_id : string) : list (string * json) :=
  [("type", JStr "key_revoked"); ("key_id", JStr key_id)].

(** The keys of some tenants that a read of the store lists. *)
Definition keys_read (now : Z) (d : tenancy_db) (tenant_ids : list string) : gmap string string :=
  match fst (key_tenants now tenant_ids d) with
  | Ok m => m
  | Raise _ => ∅
  end.

(** [observe], the store being [d]. *)
Definition observe (now : Z) (d : tenancy_db) (tenant : Tenant) (announce : bool) (r : registry) : registry :=
  let r := next_generation r in
  let susp := if decide (tn_status tenant = suspended) then {[tn_id tenant]} ∪ rg_suspended r
              else rg_suspended r ∖ {[tn_id tenant]} in
  let r := match tn_rate_limit tenant with
           | None => set_maps (delete (tn_id tenant) (rg_limits r))
                       (filter (λ p, snd p ≠ tn_id tenant) (rg_key_tenants r)) susp r
           | Some n => set_maps (<[tn_id tenant := n]> (rg_limits r))
                         (keys_read now d [tn_id tenant] ∪ rg_key_tenants r) susp r
           end in
  if announce then announce_ (tenant_event (tn_id tenant)) r else r.

Definition observe_key (key_id tenant_id : string) (announce : bool) (r : registry) : registry :=
  let r := remember_key key_id (next_generation r) in
  let r := match rg_limits r !! tenant_id with
           | Some _ => set_maps (rg_limits r) (<[key_id := tenant_id]> (rg_key_tenants r)) (rg_suspended r) r
           | None => r
           end in
  if announce then announce_ (issued_event key_id tenant_id) r else r.

Definition forget_key (key_id : string) (announce : bool) (r : registry) : registry :=
  let r := next_generation r in
  let r := set_maps (rg_limits r) (delete key_id (rg_key_tenants r)) (rg_suspended r)
             (set_live (filter (λ k, k ≠ key_id) (rg_live r)) r) in
  if announce then announce_ (revoked_event key_id) r else r.

(** One reading of the store by [refresh]. *)
Definition store_maps (now : Z) (d : tenancy_db) : gmap string Z * gmap string string * gset string :=
  let limits := match fst (rate_limits d) with Ok m => m | Raise _ => ∅ end in
  let susp := match fst (suspended_tenants d) with Ok l => list_to_set l | Raise _ => ∅ end in
  (limits, if decide (limits = ∅) then ∅ else keys_read now d (elements (dom limits)), susp).

(** [refresh]: each attempt is the reading it makes and what local changes do to
    the registry while it reads. The last reading is applied. *)
Fixpoint refresh (attempts : list (Z * tenancy_db * (registry → registry)))
    (maps : gmap string Z * gmap string string * gset string) (clean : bool) (r : registry) :
    bool * registry :=
  let apply '(limits, keys, susp) c r := (c, set_maps limits keys susp r) in
  match attempts with
  | [] => apply maps clean r
  | (now, d, meanwhile) :: rest =>
      let read := store_maps now d in
      let r' := meanwhile r in
      if Z.eqb (rg_generation r') (rg_generation r) then apply read clean r'
      else refresh rest read false r'
  end.

Fixpoint field (name : string) (fields : list (string * json)) : option json :=
  match fields with
  | [] => None
  | (k, v) :: rest => if String.eqb k name then Some v else field name rest
  end.

Definition field_str (name : string) (fields : list (string * json)) : option string :=
  match field name fields with
  | Some (JStr s) => Some s
  | _ => None
  end.

(** [apply]: one message another process announced. *)
Definition apply_message (now : Z) (d : tenancy_db) (raw : option json) (r : registry) : registry :=
  match raw with
  | Some (JObj event) =>
      if bool_decide (field_str "origin" event = Some (rg_origin r)) then r
      else match field_str "type" event, field_str "tenant_id" event, field_str "key_id" event with
           | Some "tenant", Some t, _ =>
               match tenants d !! t with
               | Some tenant => observe now d tenant false r
               | None => r
               end
           | Some "key_issued", t, Some k => observe_key k (default "" t) false r
           | Some "key_revoked", _, Some k => forget_key k false r
           | _, _, _ => r
           end
  | _ => r
  end.

(** ** Lemmas: a registry in step with the store *)

(** The maps are the store's, at [now]. *)
Record in_step (now : Z) (d : tenancy_db) (r : registry) : Prop := {
  st_limits t : rg_limits r !! t = (tenants d !! t ≫= tn_rate_limit);
  st_suspended t : t ∈ rg_suspended r ↔ ∃ x, tenants d !! t = Some x ∧ tn_status x = suspended;
  st_keys k t : rg_key_tenants r !! k = Some t ↔
    ∃ x, api_keys d !! k = Some x ∧ ak_tenant x = t ∧ is_live now x = true ∧ is_Some (rg_limits r !! t);
}.

Lemma keys_read_spec now d ts k t :
  keys_read now d ts !! k = Some t ↔
  ∃ x, api_keys d !! k = Some x ∧ ak_tenant x = t ∧ is_live now x = true ∧ t ∈ ts.
Proof.
  unfold keys_read, key_tenants, gets. simpl. rewrite lookup_omap. destruct (api_keys d !! k) as [x|] eqn:E; simpl.
  - case_bool_decide as Et; destruct (is_live now x) eqn:El; simpl;
      (split; [by intros [= <-]; exists x|intros (y & [= <-] & <- & Hl & Hin)]); try done; congruence.
  - split; [done|]. by intros (x & [=] & _).
Qed.

Lemma in_step_maps now d r :
  (∀ t x, tenants d !! t = Some x → tn_id x = t) →
  let '(limits, keys, susp) := store_maps now d in in_step now d (set_maps limits keys susp r).
Proof.
  intros Hid. unfold store_maps. cbn [fst rate_limits suspended_tenants gets].
  assert (∀ t, (omap tn_rate_limit (tenants d) : gmap string Z) !! t = (tenants d !! t ≫= tn_rate_limit)) as Hl
    by (intros t; by rewrite lookup_omap).
  split; cbn [rg_limits rg_key_tenants rg_suspended set_maps].
  - exact Hl.
  - intros t. rewrite elem_of_list_to_set, list_elem_of_fmap. split.
    + intros (x & -> & [Hs (t' & Ht')%elem_of_rows]%list_elem_of_filter). exists x.
      by rewrite (Hid t' x Ht').
    + intros (x & Hx & Hs). exists x. split; [by rewrite (Hid t x Hx)|]. apply list_elem_of_filter.
      split; [done|]. apply elem_of_rows. eauto.
  - intros k t. destruct (decide _) as [Hempty|Hne].
    + rewrite lookup_empty. split; [done|]. intros (x & _ & _ & _ & [n Hn]). rewrite Hempty in Hn. done.
    + rewrite keys_read_spec. setoid_rewrite elem_of_elements. by setoid_rewrite elem_of_dom.
Qed.

(** ** Administrative changes *)

Inductive change : Type :=
| ChTenant (x : Tenant)
| ChIssue (k : ApiKey)
| ChRevoke (tenant_id key_id : string) (at_ : Z).

(** What the change commits to the store. *)
Definition commit_change (c : change) (d : tenancy_db) : tenancy_db :=
  match c with
  | ChTenant x => set_tenants (<[tn_id x := x]> (tenants d)) d
  | ChIssue k => snd (keys_add k d)
  | ChRevoke t k at_ => snd (keys_revoke t k at_ d)
  end.

(** What the instance that made the change does to its registry. *)
Definition local_change (now : Z) (d : tenancy_db) (c : change) (r : registry) : registry :=
  match c with
  | ChTenant x => observe now d x true r
  | ChIssue k => observe_key (ak_id k) (ak_tenant k) true r
  | ChRevoke _ k _ => forget_key k true r
  end.

Definition change_ok (now : Z) (d : tenancy_db) (c : change) : Prop :=
  match c with
  | ChTenant _ => True
  | ChIssue k => api_keys d !! ak_id k = None ∧ is_live now k = true
  | ChRevoke t k at_ => fst (keys_revoke t k at_ d) = Ok true
  end.

(** The maps, and nothing else, are what being in step is about. *)
Lemma in_step_ext now d r r' :
  rg_limits r' = rg_limits r → rg_key_tenants r' = rg_key_tenants r → rg_suspended r' = rg_suspended r →
  in_step now d r → in_step now d r'.
Proof. intros Hl Hk Hs [H1 H2 H3]. split; [by rewrite Hl|by rewrite Hs|by rewrite Hk, Hl]. Qed.

Lemma in_step_announce now d e r (b : bool) :
  in_step now d r → in_step now d (if b then announce_ e r else r).
Proof.
  intros Hr. destruct b; [|done]. unfold announce_. destruct (rg_cache r); [|done].
  by eapply in_step_ext; [..|exact Hr].
Qed.

Lemma observe_in_step now d x b r :
  in_step now d r → in_step now (commit_change (ChTenant x) d) (observe now (commit_change (ChTenant x) d) x b r).
Proof.
  intros [Hl Hs Hk]. set (d' := commit_change _ d). unfold observe. apply in_step_announce.
  set (susp := if decide (tn_status x = suspended) then _ else _).
  assert (∀ t, t ∈ susp ↔ ∃ y, tenants d' !! t = Some y ∧ tn_status y = suspended) as Hsusp.
  { intros t. unfold susp, d'. cbn [commit_change tenants set_tenants rg_suspended next_generation].
    destruct (decide (tn_id x = t)) as [<-|Hne].
    - rewrite lookup_insert_eq. destruct (decide _) as [Hx|Hx]; [set_solver|].
      split; [set_solver|]. intros (y & [= <-] & ?). done.
    - rewrite lookup_insert_ne by done. rewrite <- Hs. destruct (decide _); set_solver. }
  assert (∀ t, tenants d' !! t ≫= tn_rate_limit =
    (if decide (tn_id x = t) then tn_rate_limit x else rg_limits r !! t)) as Hlim.
  { intros t. unfold d'. cbn [commit_change tenants set_tenants]. rewrite lookup_insert.
    destruct (decide (tn_id x = t)); [done|]. by rewrite Hl. }
  destruct (tn_rate_limit x) as [n|] eqn:Hrate; split;
    cbn [rg_limits rg_key_tenants rg_suspended set_maps next_generation]; try exact Hsusp.
  - intros t. by rewrite Hlim, lookup_insert.
  - intros k t. rewrite lookup_union_Some_raw, keys_read_spec. rewrite lookup_insert. split.
    + intros [(y & Hy & <- & Hlive & Hin)|[_ Hold]].
      * apply list_elem_of_singleton in Hin. rewrite Hin, decide_True by done. exists y. eauto.
      * apply Hk in Hold as (y & Hy & <- & Hlive & Hsome). exists y. split_and!; [done..|].
        destruct (decide (tn_id x = ak_tenant y)); [by eexists|exact Hsome].
    + intros (y & Hy & <- & Hlive & Hsome). destruct (decide (tn_id x = ak_tenant y)) as [Heq|Hne].
      * left. exists y. rewrite Heq. split_and!; [done..|]. by left.
      * right. split.
        -- destruct (keys_read _ _ _ !! k) as [t'|] eqn:E; [|done].
           apply keys_read_spec in E as (y' & Hy' & <- & _ & Hin%list_elem_of_singleton).
           assert (y' = y) as -> by (change (api_keys d') with (api_keys d) in *; congruence). congruence.
        -- apply Hk. eauto.
  - intros t. by rewrite Hlim, lookup_delete.
  - intros k t. rewrite map_lookup_filter_Some, Hk, lookup_delete. simpl. split.
    + intros ((y & Hy & <- & Hlive & Hsome) & Hne). exists y. by rewrite decide_False by congruence.
    + intros (y & Hy & <- & Hlive & Hsome). destruct (decide (tn_id x = ak_tenant y)) as [|Hne]; [by destruct Hsome|].
      split; [by eauto|congruence].
Qed.

Lemma issue_in_step now d k b r :
  change_ok now d (ChIssue k) → in_step now d r →
  in_step now (commit_change (ChIssue k) d) (observe_key (ak_id k) (ak_tenant k) b r).
Proof.
  intros [Hfresh Hlive] [Hl Hs Hk]. unfold observe_key. apply in_step_announce.
  cbn [commit_change]. unfold keys_add, insert_row. rewrite Hfresh. cbn [snd].
  set (r1 := remember_key (ak_id k) (next_generation r)).
  change (rg_limits r1) with (rg_limits r). change (rg_key_tenants r1) with (rg_key_tenants r).
  change (rg_suspended r1) with (rg_suspended r).
  assert (∀ k' t, (∃ x, (<[ak_id k := k]> (api_keys d)) !! k' = Some x ∧ ak_tenant x = t ∧ is_live now x = true ∧
      is_Some (rg_limits r !! t)) ↔
    (k' = ak_id k ∧ t = ak_tenant k ∧ is_Some (rg_limits r !! t)) ∨ rg_key_tenants r !! k' = Some t) as Hrows.
  { intros k' t. rewrite Hk. destruct (decide (ak_id k = k')) as [<-|Hne].
    - rewrite lookup_insert_eq. split.
      + intros (x & [= <-] & <- & _ & ?). by left.
      + intros [(_ & -> & ?)|(x & Hx & _)]; [by eauto|congruence].
    - rewrite lookup_insert_ne by done. split; [by right|]. intros [(-> & _)|?]; [done|done]. }
  destruct (rg_limits r !! ak_tenant k) as [n|] eqn:Hn;
    split; cbn [rg_limits rg_key_tenants rg_suspended set_maps tenants api_keys set_api_keys]; try done.
  - intros k' t. rewrite Hrows, lookup_insert_Some. split.
    + intros [[<- <-]|[_ ?]]; [left; split_and!; [done..|by eexists]|by right].
    + intros [(-> & -> & _)|Hold]; [by left|]. right. split; [|done]. intros <-.
      apply Hk in Hold as (x & Hx & _). congruence.
  - intros k' t. change (rg_key_tenants r1) with (rg_key_tenants r). change (rg_limits r1) with (rg_limits r).
    rewrite Hrows. split; [by right|]. intros [(_ & -> & [? ?])|?]; [congruence|done].
Qed.

Lemma revoke_in_step now d t k at_ b r :
  change_ok now d (ChRevoke t k at_) → in_step now d r →
  in_step now (commit_change (ChRevoke t k at_) d) (forget_key k b r).
Proof.
  intros Hok [Hl Hs Hk]. unfold forget_key. apply in_step_announce.
  cbn [change_ok commit_change] in *. unfold keys_revoke in *. destruct (api_keys d !! k) as [x|] eqn:Hx; [|done].
  destruct (bool_decide _); [|done]. cbn [snd].
  split; cbn [rg_limits rg_key_tenants rg_suspended set_maps set_live next_generation tenants api_keys set_api_keys]; try done.
  intros k' t'. rewrite lookup_delete_Some, Hk. destruct (decide (k = k')) as [<-|Hne].
  - rewrite lookup_insert_eq. split; [by intros []|]. by intros (y & [= <-] & _ & Hlive & _).
  - rewrite lookup_insert_ne by done. split; [by intros []|by split].
Qed.

Lemma local_in_step now d c r :
  change_ok now d c → in_step now d r → in_step now (commit_change c d) (local_change now (commit_change c d) c r).
Proof.
  intros Hok Hr. destruct c as [x|k|t k at_].
  - by apply observe_in_step.
  - by apply issue_in_step.
  - by apply (revoke_in_step now d t k at_).
Qed.

(** The one message a change announces. *)
Definition message_of (origin : string) (c : change) : json :=
  JObj (match c with
        | ChTenant x => tenant_event (tn_id x)
        | ChIssue k => issued_event (ak_id k) (ak_tenant k)
        | ChRevoke _ k _ => revoked_event k
        end ++ [("origin", JStr origin)]).

Lemma local_sent now d c r :
  rg_cache r = true →
  rg_sent (local_change now d c r) = rg_sent r ++ [message_of (rg_origin r) c] ∧
  rg_origin (local_change now d c r) = rg_origin r.
Proof.
  intros Hc. destruct c as [x|k|t k at_]; cbn [local_change].
  - unfold observe, announce_. destruct (tn_rate_limit x); simpl; rewrite Hc; done.
  - unfold observe_key, announce_. simpl. destruct (rg_limits r !! ak_tenant k); simpl; rewrite Hc; done.
  - unfold forget_key, announce_. simpl. rewrite Hc. done.
Qed.

Lemma apply_remote now d c r origin :
  change_ok now d c → in_step now d r → origin ≠ rg_origin r →
  in_step now (commit_change c d) (apply_message now (commit_change c d) (Some (message_of origin c)) r).
Proof.
  intros Hok Hr Hne. destruct c as [x|k|t k at_]; cbn [apply_message message_of];
    (rewrite bool_decide_false by (intros [= Heq]; congruence)).
  - cbn [field_str field tenant_event app String.eqb]. change (commit_change (ChTenant x) d) with
      (set_tenants (<[tn_id x := x]> (tenants d)) d) at 1. simpl. rewrite lookup_insert_eq.
    apply (observe_in_step now d x false r Hr).
  - by apply (issue_in_step now d k false r).
  - by apply (revoke_in_step now d t k at_ false r).
Qed.

(** An administrative change reaches every process. If the registries of the
    process that makes a change and of another one are in step with the store
    (quotas, the keys metered under a quota, the suspended tenants), then after
    the change is committed and observed the first is in step with the new
    store, it announces one message, applying that message puts the other one in
    step too, and the sender ignores its own message. *)
Theorem change_reaches_every_process now d c a b :
  in_step now d a → in_step now d b → change_ok now d c → rg_cache a = true → rg_origin a ≠ rg_origin b →
  let d' := commit_change c d in
  let a' := local_change now d' c a in
  in_step now d' a' ∧
  ∃ m, rg_sent a' = rg_sent a ++ [m] ∧ in_step now d' (apply_message now d' (Some m) b) ∧
       apply_message now d' (Some m) a' = a'.
Proof.
  intros Ha Hb Hok Hc Hne d' a'. split; [by apply local_in_step|].
  destruct (local_sent now d' c a Hc) as [Hsent Horigin].
  exists (message_of (rg_origin a) c). split_and!; [exact Hsent|by apply apply_remote|].
  assert (field_str "origin" (match c with
        | ChTenant x => tenant_event (tn_id x)
        | ChIssue k => issued_event (ak_id k) (ak_tenant k)
        | ChRevoke _ k _ => revoked_event k
        end ++ [("origin", JStr (rg_origin a))]) = Some (rg_origin a)) as Hfield by by destruct c.
  unfold apply_message, message_of. rewrite Hfield, bool_decide_true; [done|]. unfold a'. by rewrite Horigin.
Qed.

(** A reload leaves the registry in step with one of the readings it made: the
    first one no local change disturbed, else the last. *)
Lemma refresh_in_step attempts maps clean r :
  Forall (λ a, ∀ t x, tenants (snd (fst a)) !! t = Some x → tn_id x = t) attempts → attempts ≠ [] →
  ∃ a, a ∈ attempts ∧ in_step (fst (fst a)) (snd (fst a)) (snd (refresh attempts maps clean r)).
Proof.
  intros Hid. revert maps clean r. induction Hid as [|[[n d] m] attempts Hd Hid IH]; [done|]. intros maps clean r _.
  assert (∀ c r', in_step n d (snd (let '(limits, keys, susp) := store_maps n d in
    (c : bool, set_maps limits keys susp r')))) as Happly.
  { intros c r'. pose proof (in_step_maps n d r' Hd) as Hs. by destruct (store_maps n d) as [[l k] u]. }
  cbn [refresh]. destruct (Z.eqb _ _); [exists (n, d, m); split; [by left|apply Happly]|].
  destruct attempts as [|a' attempts]; [exists (n, d, m); split; [by left|apply Happly]|].
  destruct (IH (store_maps n d) false (m r)) as (a & Ha & Hs); [done|]. exists a. split; [by right|done].
Qed.

(** The quota a request is metered by is its key's tenant's. When the registry
    is in step with the store and the credential is a token of a live key whose
    tenant has a quota, the answer is that tenant and its quota, whatever tenant
    the header names; without such a key it is the header's tenant and that
    tenant's quota, and no tenant at all is answered by "-" and no quota. *)
Theorem quota_follows_the_key now d r header credential k s x n :
  in_step now d r → credential ≠ "" → parse_token (bare_credential credential) = Some (k, s) →
  api_keys d !! k = Some x → is_live now x = true → ak_tenant x ≠ "" →
  (tenants d !! ak_tenant x ≫= tn_rate_limit) = Some n →
  quota_for r header (Some credential) = (ak_tenant x, Some n) ∧
  (∀ t, t ≠ "" → quota_for r (Some t) None = (t, tenants d !! t ≫= tn_rate_limit)) ∧
  quota_for r None None = ("-", None).
Proof.
  intros [Hl Hs Hk] Hc Hp Hx Hlive Hne Hn.
  assert (rg_key_tenants r !! k = Some (ak_tenant x)) as Hkey.
  { apply Hk. exists x. rewrite Hl, Hn. eauto. }
  split_and!.
  - unfold quota_for. rewrite (proj2 (truthy_spec credential) Hc), Hp, Hkey. simpl.
    rewrite (proj2 (truthy_spec (ak_tenant x)) Hne). rewrite (proj2 (truthy_spec (ak_tenant x)) Hne).
    by rewrite Hl, Hn.
  - intros t Ht. unfold quota_for. simpl. rewrite (proj2 (truthy_spec t) Ht). by rewrite Hl.
  - done.
Qed.

(** ** Witnesses *)

Definition demo_tenant (id : string) (quota : option Z) (status : TenantStatus) : Tenant :=
  {| tn_id := id; tn_name := id; tn_status := status; tn_retention_days := None; tn_rate_limit := quota;
     tn_admission_gate := false; tn_created_at := 0; tn_updated_at := 0 |}.

Definition metered_key : ApiKey :=
  {| ak_id := "abcdefgh01234567"; ak_tenant := "acme"; ak_role := SERVICE; ak_name := "k"; ak_workspace := None;
     ak_secret_hash := ""; ak_created_by := ""; ak_created_at := 0; ak_expires_at := None;
     ak_revoked_at := None; ak_last_used_at := None; ak_may_act_as := [] |}.

Definition metered_db : tenancy_db :=
  set_tenants (<["globex" := demo_tenant "globex" None suspended]>
    (<["acme" := demo_tenant "acme" (Some 120) active]> ∅))
  (set_api_keys (<["abcdefgh01234567" := metered_key]> ∅) empty_tenancy).

Definition process (origin : string) : registry :=
  let '(limits, keys, susp) := store_maps 10 metered_db in
  {| rg_limits := limits; rg_key_tenants := keys; rg_suspended := susp; rg_live := [];
     rg_generation := 0; rg_origin := origin; rg_cache := true; rg_sent := [] |}.

Lemma process_in_step origin : in_step 10 metered_db (process origin).
Proof.
  apply (in_step_maps 10 metered_db (process origin)). intros t x. unfold metered_db. simpl.
  rewrite !lookup_insert_Some, lookup_empty. intros [[<- <-]|[_ [[<- <-]|[_ [=]]]]]; done.
Qed.

Lemma change_reaches_every_process_witness :
  let d := commit_change (ChTenant (demo_tenant "acme" (Some 60) suspended)) metered_db in
  let a := local_change 10 d (ChTenant (demo_tenant "acme" (Some 60) suspended)) (process "1-a") in
  in_step 10 d a ∧
  ∃ m, rg_sent a = [] ++ [m] ∧ in_step 10 d (apply_message 10 d (Some m) (process "2-b")) ∧
       apply_message 10 d (Some m) a = a.
Proof.
  apply (change_reaches_every_process 10 metered_db (ChTenant (demo_tenant "acme" (Some 60) suspended))
    (process "1-a") (process "2-b")).
  - apply process_in_step.
  - apply process_in_step.
  - exact I.
  - reflexivity.
  - discriminate.
Defined.

Lemma quota_follows_the_key_witness :
  quota_for (process "1-a") (Some "globex") (Some "Bearer mk_abcdefgh01234567.s3cret") = ("acme", Some 120) ∧
  (∀ t, t ≠ "" → quota_for (process "1-a") (Some t) None = (t, tenants metered_db !! t ≫= tn_rate_limit)) ∧
  quota_for (process "1-a") None None = ("-", None).
Proof.
  apply (quota_follows_the_key 10 metered_db (process "1-a") (Some "globex") "Bearer mk_abcdefgh01234567.s3cret"
    "abcdefgh01234567" "s3cret" metered_key 120).
  - apply process_in_step.
  - discriminate.
  - reflexivity.
  - reflexivity.
  - reflexivity.
  - discriminate.
  - reflexivity.
Defined.
