(* ===== verification/MemoryModel.v ===== *)
(** * MemoryModel: what a memory is (domain/memory.py, domain/evidence.py, the
    enumerations of domain/enums.py, and the pure rules of
    modules/memory/pipeline.py and native.py that build, replace and attribute
    one).

    [system_metadata] is a dict; the keys the modelled code reads and writes are
    fields, whatever else it holds is [sm_other]. A confidence is a rational.
    Language detection, the dates mentioned in a text and [normalized_hash]
    (SHA-256 of the normalised text) are parameters: nothing proved depends on
    what they answer. *)
From Stdlib Require Import QArith.
From S2P Require Import Prelude Errors Ids Context Visibility.
#[local] Open Scope Z_scope.

(** ** Enumerations *)

Inductive MemoryType : Set :=
| MWorking | MConversation | MEpisodic | MSemantic | MProcedural | MUser | MPreference | MAgent
| MShared | MTask | MWork | MTool | MSkill | MDecision | MFailure | MOutcome | MArtifact
| MKnowledgeRag | MSummary | MDerived | MPolicy | MObservation | MBelief | MEntitySummary | MCustom.
#[export] Instance MemoryType_eq_dec : EqDecision MemoryType.
Proof. solve_decision. Defined.

Inductive Lifetime : Set := EPHEMERAL | SHORT_TERM | LONG_TERM | ARCHIVAL.
#[export] Instance Lifetime_eq_dec : EqDecision Lifetime.
Proof. solve_decision. Defined.

Inductive ScopeLevel : Set := LAgent | LAgentGroup | LThread | LUser | LWorkspace | LTenant.
#[export] Instance ScopeLevel_eq_dec : EqDecision ScopeLevel.
Proof. solve_decision. Defined.

Definition level_value (l : ScopeLevel) : string :=
  match l with
  | LAgent => "AGENT" | LAgentGroup => "AGENT_GROUP" | LThread => "THREAD" | LUser => "USER"
  | LWorkspace => "WORKSPACE" | LTenant => "TENANT"
  end.

Inductive TemporalStatus : Set := CURRENT | SUPERSEDED | EXPIRED | CONTRADICTED | RETRACTED | ARCHIVED.
#[export] Instance TemporalStatus_eq_dec : EqDecision TemporalStatus.
Proof. solve_decision. Defined.

Inductive EvidenceSource : Set :=
| EvMessage | EvFile | EvDocumentChunk | EvAgentResult | EvToolResult | EvImport | EvObservation
| EvStatement | EvMemory | EvGraphFact | EvSummary | EvEpisode | EvFeedback.
#[export] Instance EvidenceSource_eq_dec : EqDecision EvidenceSource.
Proof. solve_decision. Defined.

(** ** Data *)

Record EvidenceRef := {
  ev_source_type : EvidenceSource;
  ev_source_id : string;
  ev_message_id : option string;
  ev_document_id : option string;
  ev_document_version_id : option string;
  ev_chunk_id : option string;
  ev_node_id : option string;
  ev_page : option Z;
  ev_span : option Z * option Z;
  ev_agent_id : option string;
  ev_agent_run_id : option string;
  ev_tool_run_id : option string;
  ev_observed_at : Z;
  ev_source_hash : option string;
  ev_confidence : option Q;
}.

Definition opt_key (name : string) (v : option string) : option string :=
  match v with
  | Some s => if truthy s then Some (name +:+ ":" +:+ s) else None
  | None => None
  end.

(** The most specific locator there is. *)
Definition citation_key (e : EvidenceRef) : string :=
  match omap (λ p, opt_key (fst p) (snd p))
    [("chunk_id", ev_chunk_id e); ("node_id", ev_node_id e); ("message_id", ev_message_id e);
     ("document_id", ev_document_id e); ("source_id", Some (ev_source_id e))] with
  | k :: _ => k
  | [] => "source:" +:+ ev_source_id e
  end.

Record Scope := {
  sc_level : ScopeLevel;
  sc_tenant : string;
  sc_workspace : option string;
  sc_user : option string;
  sc_thread : option string;
  sc_agent : option string;
  sc_agent_group : option string;
}.
#[export] Instance Scope_eq_dec : EqDecision Scope.
Proof. solve_decision. Defined.

(** The anchor a level requires. *)
Definition level_anchor (s : Scope) : option (option string) :=
  match sc_level s with
  | LAgent => Some (sc_agent s)
  | LAgentGroup => Some (sc_agent_group s)
  | LThread => Some (sc_thread s)
  | LUser => Some (sc_user s)
  | LWorkspace => Some (sc_workspace s)
  | LTenant => None
  end.

Definition build_scope (s : Scope) : res Scope :=
  match level_anchor s with
  | Some None => Raise (ValueError "scope level requires an anchor")
  | _ => Ok s
  end.

(** [Scope.key]: the anchors that are set, in the order of the class. *)
Definition key_parts (s : Scope) : list string :=
  ("t=" +:+ sc_tenant s) :: ("l=" +:+ level_value (sc_level s)) ::
  omap (λ p, match snd p with
             | Some v => if truthy v then Some (fst p +:+ "=" +:+ v) else None
             | None => None
             end)
    [("workspace", sc_workspace s); ("user", sc_user s); ("thread", sc_thread s);
     ("agent", sc_agent s); ("agent_group", sc_agent_group s)].
Definition scope_key (s : Scope) : string := str_join "/" (key_parts s).

(** The anchors [visibility_keys] falls back on. *)
Definition audience_scope (s : Scope) : Visibility.Scope :=
  {| scope_thread_id := sc_thread s; scope_user_id := sc_user s;
     scope_agent_group_id := sc_agent_group s; scope_workspace_id := sc_workspace s |}.

Record TemporalState := {
  t_status : TemporalStatus;
  t_valid_from : option Z;
  t_valid_to : option Z;
  t_observed_at : Z;
  t_superseded_by : option string;
  t_supersedes : option string;
  t_contradicts : list string;
}.

(** [TemporalState(...)] with its defaults. *)
Definition temporal (valid_from valid_to : option Z) (observed_at : Z) : TemporalState :=
  {| t_status := CURRENT; t_valid_from := valid_from; t_valid_to := valid_to; t_observed_at := observed_at;
     t_superseded_by := None; t_supersedes := None; t_contradicts := [] |}.

Definition since (t : TemporalState) : Z := default (t_observed_at t) (t_valid_from t).

Definition is_current_at (t : TemporalState) (when_ : Z) : bool :=
  bool_decide (t_status t = CURRENT)
  && match t_valid_from t with Some f => Z.leb f when_ | None => true end
  && match t_valid_to t with Some e => Z.ltb when_ e | None => true end.

Inductive Grade : Set := EARLIER | GSuperseded.
#[export] Instance Grade_eq_dec : EqDecision Grade.
Proof. solve_decision. Defined.

(** [system_metadata["replaced_by"]]. *)
Record marker := {
  mk_memory_id : string;
  mk_grade : option Grade;
  mk_score : Q;
  mk_reason : string;
}.

(** [sm_expires_at]: the key is absent, or [None], or an instant. *)
Record metadata := {
  sm_provider : option string;
  sm_category : option string;
  sm_entities : list string;
  sm_expires_at : option (option Z);
  sm_indexed_at : option Z;
  sm_visibility_keys : list string;
  sm_derived_slot : option string;
  sm_source_revisions : gmap string Z;
  sm_replaced_by : option marker;
  sm_supersede_reason : option string;
  sm_other : gmap string json;
}.

Definition no_metadata : metadata :=
  {| sm_provider := None; sm_category := None; sm_entities := []; sm_expires_at := None; sm_indexed_at := None;
     sm_visibility_keys := []; sm_derived_slot := None; sm_source_revisions := ∅; sm_replaced_by := None;
     sm_supersede_reason := None; sm_other := ∅ |}.

Record CanonicalMemory := {
  m_id : string;
  m_tenant : string;
  m_scope : Scope;
  m_visibility : Visibility;
  m_owner : string;
  m_lifetime : Lifetime;
  m_type : MemoryType;
  m_custom_type : option string;
  m_content : string;
  m_hash : string;
  m_subject : option string;
  m_predicate : option string;
  m_object : option string;
  m_temporal : TemporalState;
  m_evidence : list EvidenceRef;
  m_confidence : Q;
  m_importance : Q;
  m_reinforcements : Z;
  m_accesses : Z;
  m_last_accessed : option Z;
  m_meta : metadata;
  m_custom : gmap string json;
  m_created_at : Z;
  m_updated_at : Z;
  m_revision : Z;
  m_deleted_at : option Z;
  m_lang : string;
}.

(** ** Updates of one field of a memory *)

Definition set_temporal (t : TemporalState) (m : CanonicalMemory) : CanonicalMemory :=
  {| m_id := m_id m; m_tenant := m_tenant m; m_scope := m_scope m; m_visibility := m_visibility m;
     m_owner := m_owner m; m_lifetime := m_lifetime m; m_type := m_type m; m_custom_type := m_custom_type m;
     m_content := m_content m; m_hash := m_hash m; m_subject := m_subject m; m_predicate := m_predicate m;
     m_object := m_object m; m_temporal := t; m_evidence := m_evidence m; m_confidence := m_confidence m;
     m_importance := m_importance m; m_reinforcements := m_reinforcements m; m_accesses := m_accesses m;
     m_last_accessed := m_last_accessed m; m_meta := m_meta m; m_custom := m_custom m;
     m_created_at := m_created_at m; m_updated_at := m_updated_at m; m_revision := m_revision m;
     m_deleted_at := m_deleted_at m; m_lang := m_lang m |}.
Definition set_meta (x : metadata) (m : CanonicalMemory) : CanonicalMemory :=
  {| m_id := m_id m; m_tenant := m_tenant m; m_scope := m_scope m; m_visibility := m_visibility m;
     m_owner := m_owner m; m_lifetime := m_lifetime m; m_type := m_type m; m_custom_type := m_custom_type m;
     m_content := m_content m; m_hash := m_hash m; m_subject := m_subject m; m_predicate := m_predicate m;
     m_object := m_object m; m_temporal := m_temporal m; m_evidence := m_evidence m;
     m_confidence := m_confidence m; m_importance := m_importance m;
     m_reinforcements := m_reinforcements m; m_accesses := m_accesses m;
     m_last_accessed := m_last_accessed m; m_meta := x; m_custom := m_custom m;
     m_created_at := m_created_at m; m_updated_at := m_updated_at m; m_revision := m_revision m;
     m_deleted_at := m_deleted_at m; m_lang := m_lang m |}.
(** When it was written, its revision, and whether it is deleted. *)
Definition set_stamp (updated_at revision : Z) (deleted_at : option Z) (m : CanonicalMemory) : CanonicalMemory :=
  {| m_id := m_id m; m_tenant := m_tenant m; m_scope := m_scope m; m_visibility := m_visibility m;
     m_owner := m_owner m; m_lifetime := m_lifetime m; m_type := m_type m; m_custom_type := m_custom_type m;
     m_content := m_content m; m_hash := m_hash m; m_subject := m_subject m; m_predicate := m_predicate m;
     m_object := m_object m; m_temporal := m_temporal m; m_evidence := m_evidence m;
     m_confidence := m_confidence m; m_importance := m_importance m;
     m_reinforcements := m_reinforcements m; m_accesses := m_accesses m;
     m_last_accessed := m_last_accessed m; m_meta := m_meta m; m_custom := m_custom m;
     m_created_at := m_created_at m; m_updated_at := updated_at; m_revision := revision;
     m_deleted_at := deleted_at; m_lang := m_lang m |}.
Definition set_access (accesses : Z) (last : option Z) (m : CanonicalMemory) : CanonicalMemory :=
  {| m_id := m_id m; m_tenant := m_tenant m; m_scope := m_scope m; m_visibility := m_visibility m;
     m_owner := m_owner m; m_lifetime := m_lifetime m; m_type := m_type m; m_custom_type := m_custom_type m;
     m_content := m_content m; m_hash := m_hash m; m_subject := m_subject m; m_predicate := m_predicate m;
     m_object := m_object m; m_temporal := m_temporal m; m_evidence := m_evidence m;
     m_confidence := m_confidence m; m_importance := m_importance m;
     m_reinforcements := m_reinforcements m; m_accesses := accesses;
     m_last_accessed := last; m_meta := m_meta m; m_custom := m_custom m;
     m_created_at := m_created_at m; m_updated_at := m_updated_at m; m_revision := m_revision m;
     m_deleted_at := m_deleted_at m; m_lang := m_lang m |}.
Definition set_lang (lang : string) (m : CanonicalMemory) : CanonicalMemory :=
  {| m_id := m_id m; m_tenant := m_tenant m; m_scope := m_scope m; m_visibility := m_visibility m;
     m_owner := m_owner m; m_lifetime := m_lifetime m; m_type := m_type m; m_custom_type := m_custom_type m;
     m_content := m_content m; m_hash := m_hash m; m_subject := m_subject m; m_predicate := m_predicate m;
     m_object := m_object m; m_temporal := m_temporal m; m_evidence := m_evidence m;
     m_confidence := m_confidence m; m_importance := m_importance m;
     m_reinforcements := m_reinforcements m; m_accesses := m_accesses m;
     m_last_accessed := m_last_accessed m; m_meta := m_meta m; m_custom := m_custom m;
     m_created_at := m_created_at m; m_updated_at := m_updated_at m; m_revision := m_revision m;
     m_deleted_at := m_deleted_at m; m_lang := lang |}.
Definition set_status (st : TemporalStatus) (t : TemporalState) : TemporalState :=
  {| t_status := st; t_valid_from := t_valid_from t; t_valid_to := t_valid_to t;
     t_observed_at := t_observed_at t; t_superseded_by := t_superseded_by t;
     t_supersedes := t_supersedes t; t_contradicts := t_contradicts t |}.
Definition touch (now : Z) (m : CanonicalMemory) : CanonicalMemory :=
  set_stamp now (m_revision m) (m_deleted_at m) m.

(** ** Rules on memories *)

Definition replaced_by (x : metadata) : option string :=
  match sm_replaced_by x with
  | Some k => if truthy (mk_memory_id k) then Some (mk_memory_id k) else None
  | None => None
  end.

Definition earlier_value (x : metadata) : bool :=
  match sm_replaced_by x with
  | Some k => bool_decide (mk_grade k = Some EARLIER)
  | None => false
  end.

Definition UNVERIFIED_MEMORY_CATEGORIES : list string := ["contextual_fact"; "assisted"; "reflection"].

Definition unverified_representation (x : metadata) : bool :=
  match sm_category x with
  | Some c => bool_decide (c ∈ UNVERIFIED_MEMORY_CATEGORIES)
  | None => false
  end || bool_decide (sm_provider x = Some "llm").

Definition LASTING_CATEGORIES : list string := ["verbatim_turn"; "rule"].
Definition LASTING_TYPES : list MemoryType := [MUser; MPreference].

Definition lasting (category : option string) (memory_type : MemoryType) (lifetime : Lifetime) : bool :=
  match category with
  | Some c => bool_decide (c ∈ LASTING_CATEGORIES)
  | None => false
  end || (bool_decide (memory_type ∈ LASTING_TYPES) && bool_decide (lifetime = LONG_TERM)).

Definition authored_type (memory_type : MemoryType) (by_agent : bool) : MemoryType :=
  if by_agent && bool_decide (memory_type ∈ LASTING_TYPES) then MAgent else memory_type.

Definition starts_with (p s : string) : bool := bool_decide (is_Some (strip_prefix p s)).

Definition said_by_a_person (m : CanonicalMemory) : bool :=
  starts_with "user:" (m_owner m)
  || (bool_decide (m_predicate m = Some "said") && starts_with "user:" (default "" (m_subject m))).

(** [pipeline.supersede]: the closed memory and its replacement. *)
Definition supersede (now : Z) (target replacement : CanonicalMemory) : CanonicalMemory * CanonicalMemory :=
  let s := since (m_temporal replacement) in
  let rt := m_temporal replacement in
  let tt_ := m_temporal target in
  (touch now (set_temporal
     {| t_status := SUPERSEDED; t_valid_from := t_valid_from tt_;
        t_valid_to := Some (default s (t_valid_to tt_)); t_observed_at := t_observed_at tt_;
        t_superseded_by := Some (m_id replacement); t_supersedes := t_supersedes tt_;
        t_contradicts := t_contradicts tt_ |} target),
   set_temporal
     {| t_status := t_status rt; t_valid_from := Some s; t_valid_to := t_valid_to rt;
        t_observed_at := t_observed_at rt; t_superseded_by := t_superseded_by rt;
        t_supersedes := Some (or_str (t_supersedes rt) (m_id target));
        t_contradicts := t_contradicts rt |} replacement).

(** [replacement.apply] and the undoing half of [reinstate], on one memory. *)
Definition with_mark (k : option marker) (reason : option string) (x : metadata) : metadata :=
  {| sm_provider := sm_provider x; sm_category := sm_category x; sm_entities := sm_entities x;
     sm_expires_at := sm_expires_at x; sm_indexed_at := sm_indexed_at x;
     sm_visibility_keys := sm_visibility_keys x; sm_derived_slot := sm_derived_slot x;
     sm_source_revisions := sm_source_revisions x; sm_replaced_by := k;
     sm_supersede_reason := reason; sm_other := sm_other x |}.

Record Decision_ := { dc_grade : option Grade; dc_score : Q; dc_reason : string }.

Definition mark_replaced (now : Z) (form unit_ : CanonicalMemory) (d : Decision_) : CanonicalMemory :=
  let k := {| mk_memory_id := m_id unit_; mk_grade := dc_grade d; mk_score := dc_score d;
              mk_reason := dc_reason d |} in
  let x := m_meta form in
  let t := m_temporal form in
  touch now
    (if decide (dc_grade d = Some GSuperseded)
     then set_temporal
            {| t_status := SUPERSEDED; t_valid_from := t_valid_from t;
               t_valid_to := Some (default (since (m_temporal unit_)) (t_valid_to t));
               t_observed_at := t_observed_at t; t_superseded_by := Some (m_id unit_);
               t_supersedes := t_supersedes t; t_contradicts := t_contradicts t |}
            (set_meta (with_mark (Some k) (Some "replaced in a later statement") x) form)
     else set_meta (with_mark (Some k) (sm_supersede_reason x) x) form).

Definition unmark (now : Z) (gone : list string) (m : CanonicalMemory) : CanonicalMemory :=
  let x := m_meta m in
  let t := m_temporal m in
  let reopened :=
    bool_decide (sm_replaced_by x ≫= mk_grade = Some GSuperseded) && bool_decide (t_status t = SUPERSEDED)
    && match t_superseded_by t with
       | Some i => bool_decide (i ∈ gone)
       | None => false
       end in
  touch now
    (if reopened
     then set_meta (with_mark None None x)
            (set_temporal
               {| t_status := CURRENT; t_valid_from := t_valid_from t; t_valid_to := None;
                  t_observed_at := t_observed_at t; t_superseded_by := None;
                  t_supersedes := t_supersedes t; t_contradicts := t_contradicts t |} m)
     else set_meta (with_mark None (sm_supersede_reason x) x) m).

(** ** A memory from a candidate *)

Record MemoryCandidate := {
  cd_content : string;
  cd_type : MemoryType;
  cd_custom_type : option string;
  cd_lifetime : Lifetime;
  cd_visibility : option Visibility;
  cd_subject : option string;
  cd_predicate : option string;
  cd_object : option string;
  cd_valid_from : option Z;
  cd_valid_to : option Z;
  cd_confidence : Q;
  cd_importance : Q;
  cd_evidence : list EvidenceRef;
  cd_entities : list string;
  cd_provider : string;
  cd_category : option string;
  cd_other : gmap string json;
}.

Definition default_visibility (mt : MemoryType) (ctx : MemoryExecutionContext) (user_statement : bool) : Visibility :=
  if decide (mt = MUser ∨ mt = MPreference) then if otruthy (user_id ctx) then USER else PRIVATE
  else if decide (mt = MAgent ∨ mt = MTool ∨ mt = MWorking) then
    if otruthy (agent_run_id ctx) then RUN else PRIVATE
  else if decide (mt = MShared) then
    if otruthy (agent_group_id ctx) then AGENT_GROUP
    else if otruthy (thread_id ctx) then THREAD else TENANT
  else if user_statement && otruthy (user_id ctx) then USER
  else if is_agent ctx && bool_decide (mt = MTask ∨ mt = MEpisodic) then PRIVATE
  else if otruthy (thread_id ctx) then THREAD
  else if otruthy (user_id ctx) then USER else TENANT.

Definition scope_level_for (mt : MemoryType) (vis : Visibility) (ctx : MemoryExecutionContext) : ScopeLevel :=
  if bool_decide (mt = MAgent ∨ mt = MTool ∨ mt = MWorking) && otruthy (agent_id ctx) then LAgent
  else if bool_decide (mt = MUser ∨ mt = MPreference) && otruthy (user_id ctx) then LUser
  else if bool_decide (vis = AGENT_GROUP) && otruthy (agent_group_id ctx) then LAgentGroup
  else if bool_decide (vis = THREAD) && otruthy (thread_id ctx) then LThread
  else if bool_decide (vis = WORKSPACE) && otruthy (workspace_id ctx) then LWorkspace
  else if bool_decide (vis = TENANT) then LTenant
  else if otruthy (agent_id ctx) && bool_decide (vis = PRIVATE) then LAgent
  else if otruthy (thread_id ctx) then LThread
  else if otruthy (user_id ctx) then LUser
  else LTenant.

Definition scope_for (c : MemoryCandidate) (ctx : MemoryExecutionContext) : res Scope :=
  let level := scope_level_for (cd_type c) (default PRIVATE (cd_visibility c)) ctx in
  build_scope
    {| sc_level := level; sc_tenant := tenant_id ctx; sc_workspace := workspace_id ctx;
       sc_user := if decide (level = LUser ∨ level = LAgent) then user_id ctx else None;
       sc_thread := if decide (level = LThread ∨ level = LAgent) then thread_id ctx else None;
       sc_agent := if decide (level = LAgent) then agent_id ctx else None;
       sc_agent_group := if decide (level = LAgentGroup) then agent_group_id ctx else None |}.

(** [keys_for]: the audience a write gives a memory. *)
Definition keys_for (s : Scope) (v : Visibility) (ctx : MemoryExecutionContext) : res (list string) :=
  readable_by (tenant_id ctx) v (principal_id ctx) (Some (audience_scope s))
    {| a_user_id := user_id ctx; a_thread_id := thread_id ctx; a_workspace_id := None;
       a_agent_group_id := agent_group_id ctx; a_agent_run_id := agent_run_id ctx;
       a_parent_agent_run_id := parent_agent_run_id ctx |}.

Definition unit_q (q : Q) : bool := Qle_bool 0 q && Qle_bool q 1.

Section build.
Variable detect_language : string → string.
Variable dated_mentions : string → Z → json.
Variable normalized_hash : string → string.

(** The class's validators. *)
Definition build_canonical (m : CanonicalMemory) : res CanonicalMemory :=
  if truthy (m_content m) && bool_decide (m_evidence m ≠ []) && unit_q (m_confidence m)
     && unit_q (m_importance m) && Z.leb 1 (m_reinforcements m) && Z.leb 0 (m_accesses m)
  then if bool_decide (m_type m = MCustom) && negb (otruthy (m_custom_type m))
       then Raise (ValueError "custom_type is required when memory_type=CUSTOM")
       else if negb (String.eqb (sc_tenant (m_scope m)) (m_tenant m))
       then Raise (ValueError "scope.tenant_id must match tenant_id")
       else Ok (if truthy (m_lang m) then m else set_lang (detect_language (m_content m)) m)
  else Raise (ValueError "CanonicalMemory").

Definition SHORT_TERM_TTL : Z := 7 * 86400.

(** When a memory lapses: a short-term one within a week, any at its [valid_to]. *)
Definition expiry_of (c : MemoryCandidate) (now : Z) : option Z :=
  let expires := if decide (cd_lifetime c = SHORT_TERM) then Some (now + SHORT_TERM_TTL) else None in
  match cd_valid_to c, expires with
  | Some v, None => Some v
  | Some v, Some e => if Z.ltb v e then Some v else Some e
  | None, e => e
  end.

(** [build_memory], the id and the caller's metadata (which the service sets on
    the copy it stores) included. *)
Definition build_memory (c : MemoryCandidate) (ctx : MemoryExecutionContext) (now : Z) (memory_id : string)
    (custom : gmap string json) : res CanonicalMemory :=
  obind (scope_for c ctx) (λ s,
  let observed := match cd_evidence c with
                  | e :: _ => ev_observed_at e
                  | [] => now
                  end in
  build_canonical
    {| m_id := memory_id; m_tenant := tenant_id ctx; m_scope := s;
       m_visibility := default PRIVATE (cd_visibility c); m_owner := principal_id ctx;
       m_lifetime := cd_lifetime c; m_type := cd_type c; m_custom_type := cd_custom_type c;
       m_content := cd_content c; m_hash := normalized_hash (cd_content c); m_subject := cd_subject c;
       m_predicate := cd_predicate c; m_object := cd_object c;
       m_temporal := temporal (cd_valid_from c) (cd_valid_to c) observed;
       m_evidence := cd_evidence c; m_confidence := cd_confidence c; m_importance := cd_importance c;
       m_reinforcements := 1; m_accesses := 0; m_last_accessed := None;
       m_meta := {| sm_provider := Some (cd_provider c); sm_category := cd_category c;
                    sm_entities := cd_entities c; sm_expires_at := Some (expiry_of c now);
                    sm_indexed_at := None; sm_visibility_keys := []; sm_derived_slot := None;
                    sm_source_revisions := ∅; sm_replaced_by := None; sm_supersede_reason := None;
                    sm_other := <["dated_mentions" := dated_mentions (cd_content c) observed]> (cd_other c) |};
       m_custom := custom; m_created_at := now; m_updated_at := now; m_revision := 1;
       m_deleted_at := None; m_lang := "" |}).
End build.

(** ** Lemmas *)

Lemma level_value_no_slash l : str_in "/" (level_value l) = false.
Proof. by destruct l. Qed.

Lemma level_value_inj l l' : level_value l = level_value l' → l = l'.
Proof. by destruct l, l'. Qed.

(** The ids of a scope are valid: of the characters of [domain.ids], never empty. *)
Record valid_scope (s : Scope) : Prop := {
  vs_tenant : is_valid_id (sc_tenant s) = true;
  vs_ids : Forall (λ o, match o with Some v => is_valid_id v = true | None => True end)
    [sc_workspace s; sc_user s; sc_thread s; sc_agent s; sc_agent_group s];
}.

Lemma valid_id_truthy v : is_valid_id v = true → truthy v = true.
Proof. intros Hv. apply truthy_spec. by apply valid_id_nonempty. Qed.

Lemma key_parts_no_slash s : valid_scope s → Forall (λ p, str_in "/" p = false) (key_parts s).
Proof.
  intros [Ht Hids]. unfold key_parts.
  assert (∀ p v, str_in "/" p = false → is_valid_id v = true → str_in "/" (p +:+ v) = false) as Happ.
  { intros p v Hp Hv. by rewrite str_in_app, Hp, (valid_id_no_slash _ Hv). }
  constructor; [by apply (Happ "t=")|]. constructor; [by rewrite str_in_app, level_value_no_slash|].
  destruct s as [l t w u th a g]. simpl in Hids. cbn [sc_workspace sc_user sc_thread sc_agent sc_agent_group].
  apply Forall_cons in Hids as [Hw [Hu [Hth [Ha [Hg _]%Forall_cons]%Forall_cons]%Forall_cons]%Forall_cons].
  apply Forall_forall. intros x Hx. apply list_elem_of_omap in Hx as ([n o] & Hin & Hx). cbn [fst snd] in Hx.
  destruct o as [v|]; [|done]. destruct (truthy v); [|done]. injection Hx as <-.
  repeat (apply elem_of_cons in Hin as [[= -> <-]|Hin]; [by rewrite str_in_app; apply (Happ "=")|]). by apply elem_of_nil in Hin.
Qed.

(** The value a list of parts gives a name. *)
Definition pick (name : string) (parts : list string) : option string :=
  head (omap (strip_prefix (name +:+ "=")) parts).

Lemma pick_key_parts s : valid_scope s →
  pick "t" (key_parts s) = Some (sc_tenant s) ∧ pick "l" (key_parts s) = Some (level_value (sc_level s)) ∧
  pick "workspace" (key_parts s) = sc_workspace s ∧ pick "user" (key_parts s) = sc_user s ∧
  pick "thread" (key_parts s) = sc_thread s ∧ pick "agent" (key_parts s) = sc_agent s ∧
  pick "agent_group" (key_parts s) = sc_agent_group s.
Proof.
  intros [_ Hids]. destruct s as [l t w u th a g]. simpl in Hids.
  apply Forall_cons in Hids as [Hw [Hu [Hth [Ha [Hg _]%Forall_cons]%Forall_cons]%Forall_cons]%Forall_cons].
  unfold key_parts, pick.
  destruct w as [w|], u as [u|], th as [th|], a as [a|], g as [g|];
    cbn [sc_level sc_tenant sc_workspace sc_user sc_thread sc_agent sc_agent_group omap list_omap snd fst];
    repeat match goal with H : is_valid_id ?v = true |- _ => apply valid_id_truthy in H; rewrite H end;
    cbn [omap list_omap]; split_and!; reflexivity.
Qed.

(** A stored scope key names one scope. *)
Lemma scope_key_inj s s' : valid_scope s → valid_scope s' → scope_key s = scope_key s' → s = s'.
Proof.
  intros Hs Hs' Heq. apply str_join_inj_ne in Heq; [|done|done|by apply key_parts_no_slash..].
  destruct (pick_key_parts s Hs) as (Ht & Hl & Hw & Hu & Hth & Ha & Hg).
  destruct (pick_key_parts s' Hs') as (Ht' & Hl' & Hw' & Hu' & Hth' & Ha' & Hg').
  rewrite <- Heq in Ht', Hl', Hw', Hu', Hth', Ha', Hg'.
  assert (sc_level s = sc_level s') as Hlev by (apply level_value_inj; congruence).
  assert (sc_tenant s = sc_tenant s') as Hten by congruence.
  destruct s as [l t w u th a g], s' as [l' t' w' u' th' a' g'].
  cbn [sc_level sc_tenant sc_workspace sc_user sc_thread sc_agent sc_agent_group] in *. congruence.
Qed.

(** An instant the memory was open at, with its end dropped. *)
Definition open_ended (t : TemporalState) : TemporalState :=
  {| t_status := t_status t; t_valid_from := t_valid_from t; t_valid_to := None;
     t_observed_at := t_observed_at t; t_superseded_by := t_superseded_by t;
     t_supersedes := t_supersedes t; t_contradicts := t_contradicts t |}.

(** What a later statement replaced comes back when that statement goes, all
    but one field. If a current memory no statement had replaced is marked as
    replaced by [unit_], as an earlier value or as superseded, and [unit_] is
    among the statements gone, then [reinstate] gives the memory back as it was
    (written at the later instant), except that a superseded one comes back with
    no [valid_to]: the end the statement itself named is lost. *)
Theorem reinstate_undoes_replacement now now' form unit_ d gone :
  sm_replaced_by (m_meta form) = None → sm_supersede_reason (m_meta form) = None →
  t_status (m_temporal form) = CURRENT → t_superseded_by (m_temporal form) = None → m_id unit_ ∈ gone →
  unmark now' gone (mark_replaced now form unit_ d) =
  touch now' (if decide (dc_grade d = Some GSuperseded)
              then set_temporal (open_ended (m_temporal form)) form else form).
Proof.
  intros Hk Hr Hst Hsb Hin. unfold unmark, mark_replaced.
  destruct form as [id te sc vi ow li ty ct co ha su pr ob [st vf vt oa sb sp cn] ev cf im re ac la
    [a1 a2 a3 a4 a5 a6 a7 a8 a9 a10 a11] cu cr up rv de lg]. cbn in Hk, Hr, Hst, Hsb. subst a9 a10 st sb.
  destruct (decide (dc_grade d = Some GSuperseded)) as [Hg|Hg]; cbn.
  - rewrite Hg. rewrite (bool_decide_eq_true_2 (m_id unit_ ∈ gone)) by done. reflexivity.
  - rewrite (bool_decide_eq_false_2 (dc_grade d = Some GSuperseded)) by done. reflexivity.
Qed.

(** ** The anchor of a memory is there *)

Lemma otruthy_some o : otruthy o = true → ∃ v, o = Some v ∧ v ≠ "".
Proof. destruct o as [v|]; [|done]. intros Hv%truthy_spec. by exists v. Qed.

(** Every level [scope_for] picks has its anchor, so the scope is built. *)
Lemma scope_for_ok c ctx : ∃ s, scope_for c ctx = Ok s ∧ sc_tenant s = tenant_id ctx ∧
  sc_workspace s = workspace_id ctx ∧ (∀ v, sc_user s = Some v → user_id ctx = Some v) ∧
  (∀ v, sc_thread s = Some v → thread_id ctx = Some v) ∧ (∀ v, sc_agent s = Some v → agent_id ctx = Some v) ∧
  (∀ v, sc_agent_group s = Some v → agent_group_id ctx = Some v).
Proof.
  unfold scope_for. set (l := scope_level_for _ _ _). set (s := {| sc_level := l |}).
  assert (level_anchor s ≠ Some None) as Hanchor.
  { unfold level_anchor. cbn [sc_level s].
    destruct l eqn:El; cbn [sc_agent sc_agent_group sc_thread sc_user sc_workspace s]; try done;
      rewrite ?decide_True by auto; unfold l, scope_level_for in El;
      repeat (case_match; try done); subst;
      repeat match goal with
      | H : _ && _ = true |- _ => apply andb_true_iff in H as [? ?]
      | H : otruthy _ = true |- _ => apply otruthy_some in H as (? & -> & _)
      end; done. }
  exists s. split.
  - unfold build_scope. destruct (level_anchor s) as [[?|]|]; done.
  - cbn. split_and!; try done; intros v; case_decide; done.
Qed.

Lemma unmark_keeps now gone m :
  m_id (unmark now gone m) = m_id m ∧
  (t_status (m_temporal m) = RETRACTED → t_status (m_temporal (unmark now gone m)) = RETRACTED).
Proof.
  unfold unmark. destruct (_ && _ && _) eqn:E; [|done]. split; [done|]. intros Hst.
  apply andb_true_iff in E as [[_ Hs%bool_decide_eq_true]%andb_true_iff _]. congruence.
Qed.

(** Building a memory changes at most its language. *)
Lemma build_canonical_spec detect_language m m' :
  build_canonical detect_language m = Ok m' → ∃ l, m' = set_lang l m.
Proof.
  unfold build_canonical.
  do 3 (match goal with |- (if ?b then _ else _) = _ → _ => destruct b end; try done).
  destruct (truthy (m_lang m)); intros [= <-]; [exists (m_lang m); by destruct m|by eexists].
Qed.

(** ** Instances *)

(** A supplier named in March until June, replaced in May. *)
Definition a_statement (id content : string) (valid_to : option Z) (at_ : Z) : CanonicalMemory :=
  {| m_id := id; m_tenant := "acme"; m_scope := {| sc_level := LTenant; sc_tenant := "acme"; sc_workspace := None;
       sc_user := None; sc_thread := None; sc_agent := None; sc_agent_group := None |};
     m_visibility := USER; m_owner := "user:alice"; m_lifetime := LONG_TERM; m_type := MSemantic;
     m_custom_type := None; m_content := content; m_hash := content; m_subject := None; m_predicate := None;
     m_object := None; m_temporal := temporal None valid_to at_; m_evidence := []; m_confidence := 1;
     m_importance := 1; m_reinforcements := 1; m_accesses := 0; m_last_accessed := None; m_meta := no_metadata;
     m_custom := ∅; m_created_at := at_; m_updated_at := at_; m_revision := 1; m_deleted_at := None; m_lang := "en" |}.

Lemma reinstate_undoes_replacement_witness :
  let old := a_statement "mem_1" "Brightway supplies us until June" (Some 600) 300 in
  let new := a_statement "mem_2" "Corrimax supplies us" None 500 in
  let back := unmark 900 ["mem_2"] (mark_replaced 500 old new
                {| dc_grade := Some GSuperseded; dc_score := 1; dc_reason := "contradiction" |}) in
  back = touch 900 (set_temporal (open_ended (m_temporal old)) old) ∧
  is_current_at (m_temporal old) 700 = false ∧ is_current_at (m_temporal back) 700 = true.
Proof.
  intros old new back. split; [|split; reflexivity].
  apply (reinstate_undoes_replacement 500 900 old new {| dc_grade := Some GSuperseded; dc_score := 1; dc_reason := "contradiction" |}
    ["mem_2"]); [reflexivity..|]. by left.
Defined.
