(* ===== verification/GraphStore.v ===== *)
(** * GraphStore: entities and bitemporal facts (adapters/graph/memory_store.py)

    The in-memory graph store with the rules both stores share
    (modules/graph/invalidation.py) and the layers of domain/graph.py. Its
    dictionaries keep the order facts came in, which decides ties of confidence.
    A confidence is a rational; BLAKE2 is an argument. *)
From Stdlib Require Import QArith.
From S2P Require Import Prelude Dict Ids MemoryModel Text.
From S2P Require Segments.
#[local] Open Scope Z_scope.

(** ** Data (ports/intelligence.py) *)

Inductive GraphLayer : Set := entity_layer | temporal | causal | structural | procedural.

#[export] Instance GraphLayer_eq_dec : EqDecision GraphLayer.
Proof. solve_decision. Defined.

Record Entity := {
  e_id : string;
  e_tenant : string;
  e_name : string;
  e_canonical_name : string;
  e_type : string;
  e_aliases : list string;
  e_scope_key : string;
  e_visibility_keys : list string;
  e_evidence : list EvidenceRef;
  e_mention_count : Z;
  e_revision : Z;
  e_summary : string;
}.

Record Relation := {
  r_id : string;
  r_tenant : string;
  r_subject : string;
  r_predicate : string;
  r_object : string;
  r_layer : GraphLayer;
  r_scope_key : string;
  r_visibility_keys : list string;
  r_valid_from : option Z;
  r_valid_to : option Z;
  r_observed_at : Z;
  r_invalidated_at : option Z;
  r_status : string;
  r_superseded_by : option string;
  r_confidence : Q;
  r_evidence : list EvidenceRef;
  r_memory_id : option string;
  r_document_id : option string;
  r_fact_text : string;
  r_attributes : list (string * json);
}.

Record EntityFacts := {
  ef_entity : Entity;
  ef_facts : list (string * string);
  ef_summary_source : string;
}.

Record GraphNeighborhood := {
  gn_entities : list Entity;
  gn_relations : list Relation;
  gn_visited : nat;
}.

(** [MemoryGraphStore]. *)
Record graph := {
  g_entities : dict Entity;
  g_relations : dict Relation;
  g_summary_sources : dict string;
}.

Definition set_entities (d : dict Entity) (g : graph) : graph :=
  {| g_entities := d; g_relations := g_relations g; g_summary_sources := g_summary_sources g |}.
Definition set_relations (d : dict Relation) (g : graph) : graph :=
  {| g_entities := g_entities g; g_relations := d; g_summary_sources := g_summary_sources g |}.

(** ** Layers (domain/graph.py) *)

Definition INVALIDATED_BY : string := "invalidated_by".

Definition _CAUSAL : list string :=
  ["driven_by"; "caused_by"; "causes"; "leads_to"; "results_in"; "due_to"; "reflects"; "offset_by"; "impacted_by";
   "attributable_to"; "supported_by"; "helped_by"; "hurt_by"; "enables"; "contributed_to"; "triggered_by"; "depends_on";
   "because_of"].
Definition _TEMPORAL : list string :=
  ["valid_from"; "valid_to"; "as_of"; "supersedes"; "superseded_by"; "invalidated_by"; "closed_on"; "founded_in";
   "adopted_in"; "occurred_on"; "announced_on"; "effective_from"; "started_on"; "ended_on"; "dated"; "scheduled_for";
   "expires_on"; "preceded_by"; "followed_by"].
Definition _STRUCTURAL : list string :=
  ["mentions"; "mentioned_in"; "co_occurs_with"; "discusses"; "defined_in"; "refers_to"; "appears_in"; "cites";
   "contained_in"; "links"].
Definition _PROCEDURAL : list string := ["used_entity"; "identified_by"].

(** ** Time (modules/graph/invalidation.py) *)

Definition closed_status (s : string) : bool := bool_decide (s ∈ ["RETRACTED"; "INVALIDATED"]).

(** True at that instant. *)
Definition holds_at (r : Relation) (t : Z) : bool :=
  negb (closed_status (r_status r)) &&
  negb (match r_valid_from r with Some a => t <? a | None => false end ||
        match r_valid_to r with Some b => b <=? t | None => false end).

(** Asserted by then and not yet invalidated. *)
Definition asserted_at (r : Relation) (t : Z) : bool :=
  negb (t <? r_observed_at r) && negb (match r_invalidated_at r with Some i => i <=? t | None => false end).

Definition passes_time (r : Relation) (as_of valid_at : option Z) : bool :=
  match as_of, valid_at with
  | None, None => bool_decide (r_status r = "CURRENT")
  | _, _ =>
      match as_of with Some t => holds_at r t | None => true end &&
      match valid_at with Some t => asserted_at r t | None => true end
  end.

(** [t[:n]] of a text held as UTF-8. *)
Definition first_chars (n : nat) (s : string) : string := encode (take n (chars s)).

(** [d | extra] as a dictionary. *)
Definition merged (d extra : list (string * json)) : list (string * json) := foldl (λ d kv, dset kv.1 kv.2 d) d extra.

Section edges.
Context (blake2b : string → string).

Definition invalidation_edge (loser winner : Relation) (reason : string) (at_ : Z) (attributes : list (string * json)) : Relation :=
  {| r_id := "inv_" +:+ stable_key blake2b [r_tenant loser; r_id loser; r_id winner]; r_tenant := r_tenant loser;
     r_subject := r_id loser; r_predicate := INVALIDATED_BY; r_object := r_id winner; r_layer := temporal;
     r_scope_key := r_scope_key loser; r_visibility_keys := r_visibility_keys loser; r_valid_from := None; r_valid_to := None;
     r_observed_at := at_; r_invalidated_at := None; r_status := "CURRENT"; r_superseded_by := None; r_confidence := 1;
     r_evidence := match take 3 (r_evidence winner) with [] => take 3 (r_evidence loser) | l => l end;
     r_memory_id := None; r_document_id := None;
     r_fact_text := "'" +:+ first_chars 120 (r_fact_text loser) +:+ "' was invalidated by '" +:+
                    first_chars 120 (r_fact_text winner) +:+ "' (" +:+ reason +:+ ")";
     r_attributes := merged [("reason", JStr reason); ("invalidated_at", JStr (Segments.isoformat at_)); ("winner", JStr (r_id winner));
                             ("loser", JStr (r_id loser)); ("loser_status", JStr (r_status loser))] attributes |}.
End edges.

(** ** Writing *)

(** [sorted(set(a) | set(b))]. *)
Definition union_sorted (a b : list string) : list string := str_sorted (fromkeys (a ++ b)).

Definition mentioned_again (prev e : Entity) : Entity :=
  {| e_id := e_id prev; e_tenant := e_tenant prev; e_name := e_name prev; e_canonical_name := e_canonical_name prev;
     e_type := e_type prev; e_aliases := union_sorted (e_aliases prev) (e_aliases e); e_scope_key := e_scope_key prev;
     e_visibility_keys := union_sorted (e_visibility_keys prev) (e_visibility_keys e); e_evidence := e_evidence prev;
     e_mention_count := e_mention_count prev + 1; e_revision := e_revision prev + 1; e_summary := e_summary prev |}.

Definition upsert_entity (d : dict Entity) (e : Entity) : dict Entity :=
  dset (e_id e) (match dget (e_id e) d with Some prev => mentioned_again prev e | None => e end) d.

Definition upsert_entities (entities : list Entity) (g : graph) : graph :=
  set_entities (foldl upsert_entity (g_entities g) entities) g.

Definition max_confidence (a b : Q) : Q := if Qle_bool b a then a else b.

Definition seen_again (prev r : Relation) : Relation :=
  {| r_id := r_id prev; r_tenant := r_tenant prev; r_subject := r_subject prev; r_predicate := r_predicate prev;
     r_object := r_object prev; r_layer := r_layer r; r_scope_key := r_scope_key prev; r_visibility_keys := r_visibility_keys r;
     r_valid_from := r_valid_from prev; r_valid_to := r_valid_to r; r_observed_at := r_observed_at prev;
     r_invalidated_at := r_invalidated_at r; r_status := r_status r; r_superseded_by := r_superseded_by r;
     r_confidence := max_confidence (r_confidence prev) (r_confidence r); r_evidence := r_evidence prev;
     r_memory_id := r_memory_id prev; r_document_id := r_document_id prev; r_fact_text := r_fact_text r;
     r_attributes := r_attributes prev |}.

Definition upsert_relation (d : dict Relation) (r : Relation) : dict Relation :=
  dset (r_id r) (match dget (r_id r) d with Some prev => seen_again prev r | None => r end) d.

Definition upsert_relations (relations : list Relation) (g : graph) : graph :=
  set_relations (foldl upsert_relation (g_relations g) relations) g.

Definition with_summary (summary : string) (e : Entity) : Entity :=
  {| e_id := e_id e; e_tenant := e_tenant e; e_name := e_name e; e_canonical_name := e_canonical_name e; e_type := e_type e;
     e_aliases := e_aliases e; e_scope_key := e_scope_key e; e_visibility_keys := e_visibility_keys e; e_evidence := e_evidence e;
     e_mention_count := e_mention_count e; e_revision := e_revision e; e_summary := summary |}.

Definition set_summary (tenant_id entity_id summary source : string) (g : graph) : graph :=
  match dget entity_id (g_entities g) with
  | Some e =>
      if bool_decide (e_tenant e = tenant_id) then
        {| g_entities := dset entity_id (with_summary summary e) (g_entities g); g_relations := g_relations g;
           g_summary_sources := dset entity_id source (g_summary_sources g) |}
      else g
  | None => g
  end.

(** [model_copy] with the fields a closing writes. *)
Definition closed (status : string) (valid_to invalidated_at : option Z) (by_ : option string) (attributes : list (string * json))
    (r : Relation) : Relation :=
  {| r_id := r_id r; r_tenant := r_tenant r; r_subject := r_subject r; r_predicate := r_predicate r; r_object := r_object r;
     r_layer := r_layer r; r_scope_key := r_scope_key r; r_visibility_keys := r_visibility_keys r; r_valid_from := r_valid_from r;
     r_valid_to := valid_to; r_observed_at := r_observed_at r; r_invalidated_at := invalidated_at; r_status := status;
     r_superseded_by := by_; r_confidence := r_confidence r; r_evidence := r_evidence r; r_memory_id := r_memory_id r;
     r_document_id := r_document_id r; r_fact_text := r_fact_text r; r_attributes := attributes |}.

Definition supersede (relation_id by_ : string) (at_ : Z) (g : graph) : graph :=
  match dget relation_id (g_relations g) with
  | Some r => set_relations (dset relation_id (closed "SUPERSEDED" (Some at_) (Some at_) (Some by_) (r_attributes r) r) (g_relations g)) g
  | None => g
  end.

Definition of_memory (tenant_id memory_id : string) (r : Relation) : bool :=
  bool_decide (r_tenant r = tenant_id ∧ r_memory_id r = Some memory_id ∧ r_status r = "CURRENT").

Definition supersede_for_memory (tenant_id memory_id : string) (at_ : Z) (g : graph) : graph * nat :=
  (set_relations ((λ kv, (kv.1, if of_memory tenant_id memory_id kv.2
                                then closed "SUPERSEDED" (Some at_) (Some at_) (r_superseded_by kv.2) (r_attributes kv.2) kv.2
                                else kv.2)) <$> g_relations g) g,
   length (filter (λ r, of_memory tenant_id memory_id r = true) (dvalues (g_relations g)))).

Definition or_else {A} (a b : option A) : option A := match a with Some _ => a | None => b end.

Definition invalidated (reason : string) (at_ : Z) (by_ : option string) (status : string) (r : Relation) : Relation :=
  let superseded := bool_decide (status = "SUPERSEDED") in
  closed status (if superseded then or_else (r_valid_to r) (Some at_) else r_valid_to r)
    (or_else (r_invalidated_at r) (Some at_))
    (if superseded then or_opt by_ (r_superseded_by r) else r_superseded_by r)
    (dset "invalidation" (JObj [("reason", JStr reason); ("at", JStr (Segments.isoformat at_));
                                ("by", match by_ with Some b => JStr b | None => JNull end)]) (r_attributes r)) r.

Definition invalidate (blake2b : string → string) (relation_id reason : string) (at_ : Z) (by_ : option string) (status : string)
    (attributes : list (string * json)) (g : graph) : graph * option Relation :=
  match dget relation_id (g_relations g) with
  | None => (g, None)
  | Some r =>
      let loser := invalidated reason at_ by_ status r in
      let d := dset relation_id loser (g_relations g) in
      match (if otruthy by_ then dget (default "" by_) d else None) with
      | None => (set_relations d g, None)
      | Some winner =>
          let edge := invalidation_edge blake2b loser winner reason at_ attributes in
          (set_relations (dset (r_id edge) edge d) g, Some edge)
      end
  end.

Definition of_document (tenant_id document_id : string) (r : Relation) : bool :=
  bool_decide (r_tenant r = tenant_id ∧ r_document_id r = Some document_id).

Definition delete_for_document (tenant_id document_id : string) (g : graph) : graph * nat :=
  (set_relations (filter (λ kv, of_document tenant_id document_id kv.2 = false) (g_relations g)) g,
   length (filter (λ r, of_document tenant_id document_id r = true) (dvalues (g_relations g)))).

Definition layer_for (predicate : string) : GraphLayer :=
  let p := encode (casefold (strip (chars predicate))) in
  if bool_decide (p ∈ _CAUSAL) then causal
  else if bool_decide (p ∈ _TEMPORAL) then temporal
  else if bool_decide (p ∈ _STRUCTURAL) then structural
  else if bool_decide (p ∈ _PROCEDURAL) then procedural
  else entity_layer.

(** ** Reading *)

Definition _visible (keys audience : list string) : bool := existsb (λ k, bool_decide (k ∈ audience)) keys.

Definition entity_seen (tenant_id : string) (scope_keys : list string) (e : Entity) : bool :=
  bool_decide (e_tenant e = tenant_id) && _visible (e_visibility_keys e) scope_keys.

Definition relation_seen (tenant_id : string) (scope_keys : list string) (r : Relation) : bool :=
  bool_decide (r_tenant r = tenant_id) && _visible (r_visibility_keys r) scope_keys.

Definition find_entities (tenant_id : string) (names scope_keys : list string) (g : graph) : list Entity :=
  filter (λ e, entity_seen tenant_id scope_keys e &&
               (bool_decide (e_canonical_name e ∈ names) || existsb (λ a, bool_decide (a ∈ names)) (e_aliases e)) = true)
    (dvalues (g_entities g)).

Definition more_mentioned (x y : Entity) : bool :=
  (e_mention_count y <? e_mention_count x) || (Z.eqb (e_mention_count x) (e_mention_count y) && String.leb (e_id x) (e_id y)).

Definition search_entities (tenant_id : string) (scope_keys : list string) (prefix entity_type : option string) (limit : Z)
    (g : graph) : list Entity :=
  match scope_keys with
  | [] => []
  | _ =>
      if limit <=? 0 then []
      else
        take (Z.to_nat limit) (sorted_by more_mentioned
          (filter (λ e, entity_seen tenant_id scope_keys e &&
                        (negb (otruthy prefix) || bool_decide (is_Some (strip_prefix (default "" prefix) (e_canonical_name e)))) &&
                        (negb (otruthy entity_type) || bool_decide (entity_type = Some (e_type e))) = true)
            (dvalues (g_entities g))))
  end.

Definition newer_relation (x y : Relation) : bool :=
  (r_observed_at y <? r_observed_at x) || (Z.eqb (r_observed_at x) (r_observed_at y) && String.leb (r_id x) (r_id y)).

(** [l[:n]]. *)
Definition py_take {A} (n : Z) (l : list A) : list A :=
  if 0 <=? n then take (Z.to_nat n) l else take (length l - Z.to_nat (- n)) l.

Definition entity_relations (tenant_id entity_id : string) (scope_keys : list string) (current : bool) (limit : Z) (g : graph) :
    list Relation :=
  py_take limit (sorted_by newer_relation
    (filter (λ r, bool_decide (entity_id ∈ [r_subject r; r_object r]) &&
                  Bool.eqb (bool_decide (r_status r = "CURRENT")) current &&
                  negb (bool_decide (r_predicate r = INVALIDATED_BY)) && relation_seen tenant_id scope_keys r = true)
      (dvalues (g_relations g)))).

Definition stronger (x y : Relation) : bool :=
  negb (Qle_bool (r_confidence x) (r_confidence y)) || (Qeq_bool (r_confidence x) (r_confidence y) && newer_relation x y).

Definition entity_facts (tenant_id : string) (limit : Z) (g : graph) (entity : Entity) (entity_id : string) : EntityFacts :=
  let facts := py_take limit (sorted_by stronger
    (filter (λ r, bool_decide (r_tenant r = tenant_id) && bool_decide (r_subject r = entity_id) &&
                  bool_decide (r_status r = "CURRENT") && negb (bool_decide (r_layer r = structural)) &&
                  bool_decide (is_Some (dget (r_object r) (g_entities g))) &&
                  forallb (λ k, bool_decide (k ∈ r_visibility_keys r)) (e_visibility_keys entity) = true)
      (dvalues (g_relations g)))) in
  {| ef_entity := entity;
     ef_facts := (λ r, (r_predicate r, match dget (r_object r) (g_entities g) with Some o => e_name o | None => "" end)) <$> facts;
     ef_summary_source := default "" (dget entity_id (g_summary_sources g)) |}.

Definition summary_sources (tenant_id : string) (entity_ids : list string) (limit : Z) (g : graph) : list EntityFacts :=
  omap (λ i, match dget i (g_entities g) with
             | Some e => if bool_decide (e_tenant e = tenant_id) then Some (entity_facts tenant_id limit g e i) else None
             | None => None
             end) (str_sorted (fromkeys entity_ids)).

Definition get_entities (tenant_id : string) (entity_ids scope_keys : list string) (g : graph) : list Entity :=
  filter (λ e, entity_seen tenant_id scope_keys e = true) (omap (λ i, dget i (g_entities g)) entity_ids).

Definition relations_for_document (tenant_id document_id : string) (scope_keys : list string) (include_invalidated : bool) (g : graph) :
    list Relation :=
  filter (λ r, of_document tenant_id document_id r && (include_invalidated || negb (bool_decide (r_status r = "INVALIDATED"))) &&
               _visible (r_visibility_keys r) scope_keys = true) (dvalues (g_relations g)).

Definition count (tenant_id : string) (g : graph) : nat * nat :=
  (length (filter (λ e, e_tenant e = tenant_id) (dvalues (g_entities g))),
   length (filter (λ r, r_tenant r = tenant_id ∧ r_predicate r ≠ INVALIDATED_BY) (dvalues (g_relations g)))).

(** ** The walk *)

Record walk := {
  w_visited : list string;
  w_found : dict Relation;
  w_frontier : list string;
}.

Section walk.
Context (tenant_id : string) (scope_keys : list string) (max_visited : Z) (as_of valid_at : option Z) (layers : option (list GraphLayer)).

Definition layer_wanted (r : Relation) : bool :=
  match layers with
  | Some ((_ :: _) as l) => bool_decide (r_layer r ∈ l)
  | _ => true
  end.

(** What the walk goes along. *)
Definition walkable (r : Relation) : bool :=
  relation_seen tenant_id scope_keys r && layer_wanted r && passes_time r as_of valid_at.

Definition visit (st : list string * list string) (eid : string) : list string * list string :=
  if negb (bool_decide (eid ∈ st.1)) && (Z.of_nat (length st.1) <? max_visited) then (st.1 ++ [eid], st.2 ++ [eid]) else st.

(** [found.setdefault(...)]. *)
Definition dset_default {A} (k : string) (v : A) (d : dict A) : dict A :=
  match dget k d with Some _ => d | None => dset k v d end.

(** One relation, [fs] being the frontier. *)
Definition along (fs : list string) (st : walk) (r : Relation) : walk :=
  if walkable r && bool_decide (r_subject r ∈ fs ∨ r_object r ∈ fs) then
    let '(visited, next) := visit (visit (w_visited st, w_frontier st) (r_subject r)) (r_object r) in
    {| w_visited := visited; w_found := dset_default (r_id r) r (w_found st); w_frontier := next |}
  else st.

Definition more_confident (x y : Relation) : bool := Qle_bool (r_confidence y) (r_confidence x).

Definition hop (g : graph) (st : walk) : walk :=
  foldl (along (w_frontier st)) {| w_visited := w_visited st; w_found := w_found st; w_frontier := [] |}
    (sorted_by more_confident (dvalues (g_relations g))).

Fixpoint walk_hops (g : graph) (n : nat) (st : walk) : walk :=
  match n with
  | O => st
  | S n' =>
      if bool_decide (w_frontier st = []) || (max_visited <=? Z.of_nat (length (w_visited st))) then st
      else walk_hops g n' (hop g st)
  end.

Definition neighborhood (entity_ids : list string) (hops : Z) (g : graph) : GraphNeighborhood :=
  let st := walk_hops g (Z.to_nat (Z.max 0 hops))
              {| w_visited := fromkeys entity_ids; w_found := []; w_frontier := entity_ids |} in
  let ents := get_entities tenant_id (w_visited st) scope_keys g in
  let allowed := e_id <$> ents in
  {| gn_entities := ents;
     gn_relations := filter (λ r, r_subject r ∈ allowed ∧ r_object r ∈ allowed) (dvalues (w_found st));
     gn_visited := length (w_visited st) |}.
End walk.

(** ** The store keeps its shape *)

(** Every entity and fact under its own id, once. *)
Record graph_ok (g : graph) : Prop := {
  ok_entities : dict_ok (g_entities g);
  ok_relations : dict_ok (g_relations g);
  ok_entity_ids : keyed e_id (g_entities g);
  ok_relation_ids : keyed r_id (g_relations g);
}.

Lemma relation_of_id g r r' : graph_ok g → r ∈ dvalues (g_relations g) → r' ∈ dvalues (g_relations g) → r_id r = r_id r' → r = r'.
Proof.
  intros Hg [k Hk]%elem_dvalues [k' Hk']%elem_dvalues Hid. pose proof (ok_relation_ids _ Hg _ _ Hk) as <-.
  pose proof (ok_relation_ids _ Hg _ _ Hk') as <-. apply (elem_dget _ _ _ (ok_relations _ Hg)) in Hk, Hk'. congruence.
Qed.

(** ** One hop *)

Section walk_theory.
Context (tenant_id : string) (scope_keys : list string) (max_visited : Z) (as_of valid_at : option Z) (layers : option (list GraphLayer)).

Abbreviation adm := (walkable tenant_id scope_keys as_of valid_at layers).
Abbreviation along_ := (along tenant_id scope_keys max_visited as_of valid_at layers).
Abbreviation hop_ := (hop tenant_id scope_keys max_visited as_of valid_at layers).

Definition touches (r : Relation) (fs : list string) : Prop := r_subject r ∈ fs ∨ r_object r ∈ fs.
Definition is_end (r : Relation) (e : string) : Prop := e = r_subject r ∨ e = r_object r.

Lemma visit_spec v n e :
  ∃ new, visit max_visited (v, n) e = (v ++ new, n ++ new) ∧ (NoDup v → NoDup (v ++ new)) ∧
    (∀ x, x ∈ new → x = e) ∧ (Z.of_nat (length v) < max_visited → e ∈ v ++ new) ∧
    Z.of_nat (length (v ++ new)) ≤ Z.max max_visited (Z.of_nat (length v)).
Proof.
  unfold visit. simpl. case_bool_decide as Hin; simpl.
  { exists []. rewrite !app_nil_r. split_and!; [done|done|by intros ? ?%elem_of_nil|done|lia]. }
  destruct (Z.ltb_spec (Z.of_nat (length v)) max_visited).
  - exists [e]. split_and!; [done| |by intros ? ->%list_elem_of_singleton|set_solver|rewrite length_app; simpl; lia].
    intros Hv. apply NoDup_app. split_and!; [done|by intros x Hx ->%list_elem_of_singleton|apply NoDup_singleton].
  - exists []. rewrite !app_nil_r. split_and!; [done|done|by intros ? ?%elem_of_nil|lia|lia].
Qed.

(** What going along some relations adds. *)
Record went (rs : list Relation) (fs : list string) (st st' : walk) (new : list string) : Prop := {
  wt_visited : w_visited st' = w_visited st ++ new;
  wt_frontier : w_frontier st' = w_frontier st ++ new;
  wt_NoDup : NoDup (w_visited st) → NoDup (w_visited st');
  wt_new : ∀ e, e ∈ new → ∃ r, r ∈ rs ∧ adm r = true ∧ touches r fs ∧ is_end r e;
  wt_found : ∀ k r, (k, r) ∈ w_found st' → (k, r) ∈ w_found st ∨ (k = r_id r ∧ r ∈ rs ∧ adm r = true ∧ touches r fs);
  wt_kept : ∀ k r, dget k (w_found st) = Some r → dget k (w_found st') = Some r;
  wt_bound : Z.of_nat (length (w_visited st')) ≤ Z.max max_visited (Z.of_nat (length (w_visited st)));
  wt_all : Z.of_nat (length (w_visited st')) < max_visited → ∀ r, r ∈ rs → adm r = true → touches r fs →
    is_Some (dget (r_id r) (w_found st')) ∧ r_subject r ∈ w_visited st' ∧ r_object r ∈ w_visited st';
}.

Lemma went_refl fs st : went [] fs st st [].
Proof. constructor; rewrite ?app_nil_r; try done; [by intros ? ?%elem_of_nil|eauto|lia|by intros _ ? ?%elem_of_nil]. Qed.

Lemma went_none r rs fs st st' new : ¬ (adm r = true ∧ touches r fs) → went rs fs st st' new → went (r :: rs) fs st st' new.
Proof.
  intros Hr [Hv Hf Hd Hn Hfo Hk Hb Ha]. constructor; try done.
  - intros e He. destruct (Hn e He) as (r' & ? & ?). exists r'. split; [by right|done].
  - intros k r' H. destruct (Hfo k r' H) as [?|(? & ? & ?)]; [by left|right]. split_and!; [done|by right|naive_solver..].
  - intros Hlt r' [->|Hr']%elem_of_cons Hadm Ht; [naive_solver|]. by apply Ha.
Qed.

Lemma dget_default k v d : is_Some (dget k (@dset_default Relation k v d)).
Proof. unfold dset_default. destruct (dget k d) eqn:Hd; [by rewrite Hd|]. by rewrite dget_dset_eq. Qed.

Lemma went_one r rs fs st st' new :
  adm r = true → touches r fs → went rs fs (along_ fs st r) st' new → ∃ new0, went (r :: rs) fs st st' (new0 ++ new).
Proof.
  intros Hadm Ht. unfold along. rewrite Hadm, bool_decide_eq_true_2 by exact Ht. cbn [andb].
  destruct (visit_spec (w_visited st) (w_frontier st) (r_subject r)) as (n1 & -> & Hd1 & He1 & Hi1 & Hb1).
  destruct (visit_spec (w_visited st ++ n1) (w_frontier st ++ n1) (r_object r)) as (n2 & -> & Hd2 & He2 & Hi2 & Hb2).
  intros [Hv Hf Hd Hn Hfo Hk Hb Ha]. cbn [w_visited w_frontier w_found] in *. exists (n1 ++ n2).
  constructor.
  - by rewrite Hv, !app_assoc.
  - by rewrite Hf, !app_assoc.
  - auto.
  - intros e [[H|H]%elem_of_app|H]%elem_of_app.
    + exists r. split_and!; [by left|done|done|left; auto].
    + exists r. split_and!; [by left|done|done|right; auto].
    + destruct (Hn e H) as (r' & ? & ?). exists r'. split; [by right|done].
  - intros k r' H. destruct (Hfo k r' H) as [Hin|(? & ? & ?)]; [|right; split_and!; [done|by right|naive_solver..]].
    unfold dset_default in Hin. destruct (dget _ _); [by left|]. apply elem_dset in Hin as [[= -> ->]|?]; [|by left].
    right. split_and!; [done|by left|done|done].
  - intros k r' H. apply Hk. unfold dset_default. destruct (dget (r_id r) _) eqn:Hr; [done|]. rewrite dget_dset_ne; [done|congruence].
  - lia.
  - intros Hlt r' [->|Hr']%elem_of_cons Hadm' Ht'; [|by apply Ha].
    assert (Z.of_nat (length (w_visited st)) ≤ Z.of_nat (length (w_visited st ++ n1)) ≤ Z.of_nat (length ((w_visited st ++ n1) ++ n2)) ≤ Z.of_nat (length (w_visited st'))) as Hlen.
    { rewrite Hv, !length_app. lia. }
    split_and!.
    + destruct (dget_default (r_id r) r (w_found st)) as [x Hx]. exists x. by apply Hk.
    + rewrite Hv, !elem_of_app. specialize (Hi1 ltac:(lia)). rewrite elem_of_app in Hi1. tauto.
    + rewrite Hv, !elem_of_app. specialize (Hi2 ltac:(lia)). rewrite !elem_of_app in Hi2. tauto.
Qed.

Lemma along_all fs rs : ∀ st, ∃ new, went rs fs st (foldl (along_ fs) st rs) new.
Proof.
  induction rs as [|r rs IH]; intros st; [exists []; apply went_refl|]. cbn [foldl].
  destruct (IH (along_ fs st r)) as [new Hnew].
  destruct (decide (adm r = true ∧ touches r fs)) as [[Ha Ht]|Hn].
  - destruct (went_one _ _ _ _ _ _ Ha Ht Hnew) as [new0 H]. eauto.
  - exists new. apply went_none; [done|].
    assert (along_ fs st r = st) as Hst; [|by rewrite Hst in Hnew |- *].
    unfold along. destruct (adm r); [|done]. rewrite bool_decide_eq_false_2; [done|]. intros ?. by apply Hn.
Qed.

Lemma hop_spec g st :
  ∃ new, went (dvalues (g_relations g)) (w_frontier st) {| w_visited := w_visited st; w_found := w_found st; w_frontier := [] |} (hop_ g st) new.
Proof.
  destruct (along_all (w_frontier st) (sorted_by more_confident (dvalues (g_relations g)))
    {| w_visited := w_visited st; w_found := w_found st; w_frontier := [] |}) as [new [Hv Hf Hd Hn Hfo Hk Hb Ha]].
  exists new. constructor; try done.
  - intros e He. destruct (Hn e He) as (r & Hr%elem_sorted_by & ?). eauto.
  - intros k r H. destruct (Hfo k r H) as [?|(? & Hr%elem_sorted_by & ?)]; [by left|by right].
  - intros Hlt r Hr. apply Ha; [done|]. by apply elem_sorted_by.
Qed.
End walk_theory.

Arguments wt_visited {_ _ _ _ _ _ _ _ _ _ _}.
Arguments wt_frontier {_ _ _ _ _ _ _ _ _ _ _}.
Arguments wt_NoDup {_ _ _ _ _ _ _ _ _ _ _}.
Arguments wt_new {_ _ _ _ _ _ _ _ _ _ _}.
Arguments wt_found {_ _ _ _ _ _ _ _ _ _ _}.
Arguments wt_kept {_ _ _ _ _ _ _ _ _ _ _}.
Arguments wt_bound {_ _ _ _ _ _ _ _ _ _ _}.
Arguments wt_all {_ _ _ _ _ _ _ _ _ _ _}.
(** ** The walk *)

Section walks.
Context (tenant_id : string) (scope_keys : list string) (max_visited : Z) (as_of valid_at : option Z) (layers : option (list GraphLayer)).
Context (g : graph) (seeds : list string).

Abbreviation adm := (walkable tenant_id scope_keys as_of valid_at layers).
Abbreviation walk_hops_ := (walk_hops tenant_id scope_keys max_visited as_of valid_at layers g).
Abbreviation start := {| w_visited := fromkeys seeds; w_found := []; w_frontier := seeds |}.

(** [within n x]: a path of [n] walkable facts leads from a seed to [x]. *)
Inductive within : nat → string → Prop :=
| within_seed x : x ∈ seeds → within 0 x
| within_step n r a b : within n a → r ∈ dvalues (g_relations g) → adm r = true → is_end r a → is_end r b → within (S n) b.

Definition nearer (n : nat) (x : string) : Prop := ∃ m, (m < n)%nat ∧ within m x.

(** *** Soundness, whatever the bound *)

Record sound (n : nat) (st : walk) : Prop := {
  sd_visited : ∀ x, x ∈ w_visited st → nearer (S n) x;
  sd_frontier : ∀ x, x ∈ w_frontier st → x ∈ w_visited st;
  sd_NoDup : NoDup (w_visited st);
  sd_found : ∀ k r, (k, r) ∈ w_found st → k = r_id r ∧ r ∈ dvalues (g_relations g) ∧ adm r = true ∧ ∃ x, is_end r x ∧ nearer n x;
  sd_bound : Z.of_nat (length (w_visited st)) ≤ Z.max max_visited (Z.of_nat (length (fromkeys seeds)));
}.

Lemma nearer_le n m x : nearer n x → (n ≤ m)%nat → nearer m x.
Proof. intros (k & ? & ?) ?. exists k. split; [lia|done]. Qed.

Lemma touches_end r fs : touches r fs ↔ ∃ x, is_end r x ∧ x ∈ fs.
Proof. unfold touches, is_end. naive_solver. Qed.

Lemma start_sound : sound 0 start.
Proof.
  constructor; cbn.
  - intros x Hx. rewrite elem_of_fromkeys in Hx. exists O. split; [lia|by constructor].
  - intros x Hx. by apply elem_of_fromkeys.
  - apply NoDup_fromkeys.
  - by intros ? ? ?%elem_of_nil.
  - lia.
Qed.

Lemma hop_sound n st : sound n st → sound (S n) (hop tenant_id scope_keys max_visited as_of valid_at layers g st).
Proof.
  intros [Hv Hfr Hd Hf Hb]. destruct (hop_spec tenant_id scope_keys max_visited as_of valid_at layers g st) as [new Hw].
  assert (∀ r, touches r (w_frontier st) → ∃ x, is_end r x ∧ nearer (S n) x) as Hnear.
  { intros r (x & Hx & Hin)%touches_end. eauto. }
  constructor.
  - rewrite (wt_visited Hw). intros x [Hx|Hx]%elem_of_app; [eapply nearer_le; [by apply Hv|lia]|].
    destruct (wt_new Hw x Hx) as (r & Hr & Ha & Ht & He).
    destruct (Hnear r Ht) as (y & Hy & m & Hm & Hwm). exists (S m). split; [lia|by eapply within_step].
  - rewrite (wt_visited Hw), (wt_frontier Hw). simpl. intros x Hx. apply elem_of_app. by right.
  - by apply (wt_NoDup Hw).
  - intros k r Hk. destruct (wt_found Hw k r Hk) as [H|(-> & Hr & Ha & Ht)].
    + destruct (Hf k r H) as (? & ? & ? & x & ? & Hx). split_and!; [done..|]. exists x. split; [done|]. eapply nearer_le; [done|lia].
    + split_and!; [done..|]. by apply Hnear.
  - pose proof (wt_bound Hw) as H. simpl in H. lia.
Qed.

Lemma walk_sound n : ∀ i st, sound i st → sound (i + n) (walk_hops_ n st).
Proof.
  induction n as [|n IH]; intros i st Hst; simpl; [by rewrite Nat.add_0_r|]. destruct (_ || _).
  - destruct Hst as [Hv Hfr Hd Hf Hb]. constructor; try done.
    + intros x Hx. eapply nearer_le; [by apply Hv|lia].
    + intros k r Hk. destruct (Hf k r Hk) as (? & ? & ? & x & ? & Hx). split_and!; [done..|]. exists x. split; [done|].
      eapply nearer_le; [done|lia].
  - rewrite <- Nat.add_succ_comm. by apply IH, hop_sound.
Qed.

(** *** Completeness, below the bound *)

(** Every id the walk may come to. *)
Definition universe : list string := fromkeys (seeds ++ (dvalues (g_relations g) ≫= λ r, [r_subject r; r_object r])).

Lemma within_universe n x : within n x → x ∈ universe.
Proof.
  intros H. apply elem_of_fromkeys, elem_of_app. destruct H as [x H|n r a b _ Hr _ _ Hb]; [by left|right].
  apply list_elem_of_bind. exists r. split; [|done]. destruct Hb as [->| ->]; [by left|right; by left].
Qed.

Hypothesis roomy : Z.of_nat (length universe) < max_visited.

Lemma visited_room n st : sound n st → Z.of_nat (length (w_visited st)) < max_visited.
Proof.
  intros Hs. assert (w_visited st ⊆ universe) as Hsub.
  { intros x (m & _ & Hm)%(sd_visited _ _ Hs). by eapply within_universe. }
  pose proof (submseteq_length _ _ (NoDup_submseteq _ _ (sd_NoDup _ _ Hs) Hsub)). lia.
Qed.

Record full (n : nat) (st : walk) : Prop := {
  fl_sound : sound n st;
  fl_visited : ∀ x, nearer (S n) x → x ∈ w_visited st;
  fl_found : ∀ x r, nearer n x → r ∈ dvalues (g_relations g) → adm r = true → is_end r x →
    is_Some (dget (r_id r) (w_found st)) ∧ r_subject r ∈ w_visited st ∧ r_object r ∈ w_visited st;
  fl_frontier : ∀ x, within n x → nearer n x ∨ x ∈ w_frontier st;
}.

Lemma start_full : full 0 start.
Proof.
  constructor; [apply start_sound| | |].
  - intros x (m & Hm & Hw). assert (m = O) as -> by lia. inversion Hw; subst. by apply elem_of_fromkeys.
  - intros x r (m & ? & _). lia.
  - intros x Hx. right. by inversion Hx.
Qed.

Lemma nearer_S n x : nearer (S n) x ↔ nearer n x ∨ within n x.
Proof.
  split; [|intros [H|H]; [eapply nearer_le; [done|lia]|exists n; split; [lia|done]]].
  intros (m & Hm & Hw). destruct (decide (m = n)) as [->|]; [by right|]. left. exists m. split; [lia|done].
Qed.

Lemma hop_full n st : full n st → full (S n) (hop tenant_id scope_keys max_visited as_of valid_at layers g st).
Proof.
  intros [Hs Hv Hf Hfr]. pose proof (hop_sound _ _ Hs) as Hs'. pose proof (visited_room _ _ Hs') as Hroom.
  destruct (hop_spec tenant_id scope_keys max_visited as_of valid_at layers g st) as [new Hw].
  set (st' := hop _ _ _ _ _ _ _ _) in *.
  assert (∀ x, x ∈ w_visited st → x ∈ w_visited st') as Hold.
  { intros x Hx. rewrite (wt_visited Hw). apply elem_of_app. by left. }
  assert (∀ x r, nearer (S n) x → r ∈ dvalues (g_relations g) → adm r = true → is_end r x →
    is_Some (dget (r_id r) (w_found st')) ∧ r_subject r ∈ w_visited st' ∧ r_object r ∈ w_visited st') as Hfound.
  { intros x r Hx Hr Ha He. destruct (decide (r_subject r ∈ w_frontier st ∨ r_object r ∈ w_frontier st)) as [Ht|Ht].
    - by apply (wt_all Hw).
    - assert (nearer n x) as Hn.
      { apply nearer_S in Hx as [?|Hx]; [done|]. destruct (Hfr x Hx) as [?|Hin]; [done|]. destruct Ht.
        destruct He as [->| ->]; [by left|by right]. }
      destruct (Hf x r Hn Hr Ha He) as ([y Hy] & ? & ?). split_and!; [exists y; by apply (wt_kept Hw)|by apply Hold..]. }
  constructor; [done| |exact Hfound|].
  - intros x [Hx|Hx]%nearer_S; [by apply Hold, Hv|]. inversion Hx as [|m r a b Ha Hr Hadm Hea Heb]; subst.
    destruct (Hfound a r) as (_ & ? & ?); [exists n; split; [lia|done]|done..|]. by destruct Heb as [->| ->].
  - intros x Hx. assert (x ∈ w_visited st') as Hin.
    { inversion Hx as [|m r a b Ha Hr Hadm Hea Heb]; subst.
      destruct (Hfound a r) as (_ & ? & ?); [exists n; split; [lia|done]|done..|]. by destruct Heb as [->| ->]. }
    rewrite (wt_visited Hw) in Hin. rewrite (wt_frontier Hw). simpl in *. apply elem_of_app in Hin as [Hin|?]; [left|by right].
    by apply (sd_visited _ _ Hs).
Qed.

(** An empty frontier: nothing is farther than [n - 1] steps. *)
Lemma closed_full n m st : full n st → w_frontier st = [] → full (n + m) st.
Proof.
  intros [Hs Hv Hf Hfrn] Hfr. rewrite Hfr in Hfrn.
  assert (∀ x, nearer (S n) x → nearer n x) as Hclose.
  { intros x [?|Hx]%nearer_S; [done|]. by destruct (Hfrn x Hx) as [?|?%elem_of_nil]. }
  assert (∀ k x, within k x → nearer n x) as Hall.
  { intros k x Hx. apply Hclose, (sd_visited _ _ Hs). induction Hx as [x Hx|k r a b Ha IH Hr Hadm Hea Heb].
    - apply Hv. exists O. split; [lia|by constructor].
    - destruct (Hf a r) as (_ & ? & ?); [by apply Hclose, (sd_visited _ _ Hs)|done..|]. by destruct Heb as [->| ->]. }
  constructor.
  - destruct Hs as [Hsv Hsf Hsd Hsfd Hsb]. constructor; try done.
    + intros x Hx. eapply nearer_le; [by apply Hsv|lia].
    + intros k r Hk. destruct (Hsfd k r Hk) as (? & ? & ? & x & ? & Hx). split_and!; [done..|]. exists x. split; [done|].
      eapply nearer_le; [done|lia].
  - intros x (k & _ & Hk). apply Hv. eapply nearer_le; [by eapply Hall|lia].
  - intros x r (k & _ & Hk). apply Hf. by eapply Hall.
  - intros x Hx. left. eapply nearer_le; [by eapply Hall|lia].
Qed.

Lemma walk_full n : ∀ i st, full i st → full (i + n) (walk_hops_ n st).
Proof.
  induction n as [|n IH]; intros i st Hst; cbn [walk_hops]; [by rewrite Nat.add_0_r|].
  pose proof (visited_room _ _ (fl_sound _ _ Hst)) as Hroom. rewrite (proj2 (Z.leb_gt _ _)), orb_false_r by done.
  case_bool_decide as Hfr; [by apply closed_full|]. rewrite <- Nat.add_succ_comm. by apply IH, hop_full.
Qed.
End walks.

Arguments sd_visited {_ _ _ _ _ _ _ _ _ _}.
Arguments sd_found {_ _ _ _ _ _ _ _ _ _}.
Arguments sd_bound {_ _ _ _ _ _ _ _ _ _}.
Arguments fl_sound {_ _ _ _ _ _ _ _ _ _}.
Arguments fl_visited {_ _ _ _ _ _ _ _ _ _}.
Arguments fl_found {_ _ _ _ _ _ _ _ _ _}.

(** ** The theorems *)

Lemma elem_get_entities t keys ids g e :
  e ∈ get_entities t ids keys g ↔ ∃ i, i ∈ ids ∧ dget i (g_entities g) = Some e ∧ entity_seen t keys e = true.
Proof.
  unfold get_entities. rewrite list_elem_of_filter, list_elem_of_omap. naive_solver.
Qed.

(** C27: The walk discloses nothing and is bounded: every entity it returns and
    every fact along it has the tenant and one of the caller's keys, a fact is in
    the layers asked for, holds at the times asked for and joins two of the
    entities returned, and no more ids are visited than allowed (or were given). *)
Theorem neighborhood_discloses_nothing t keys limit as_of valid_at layers ids hops g :
  graph_ok g →
  let n := neighborhood t keys limit as_of valid_at layers ids hops g in
  (∀ e, e ∈ gn_entities n → e ∈ dvalues (g_entities g) ∧ entity_seen t keys e = true) ∧
  (∀ r, r ∈ gn_relations n →
    r ∈ dvalues (g_relations g) ∧ relation_seen t keys r = true ∧ layer_wanted layers r = true ∧
    passes_time r as_of valid_at = true ∧ r_subject r ∈ e_id <$> gn_entities n ∧ r_object r ∈ e_id <$> gn_entities n) ∧
  Z.of_nat (gn_visited n) ≤ Z.max limit (Z.of_nat (length (fromkeys ids))).
Proof.
  intros Hg. cbn zeta. unfold neighborhood. cbn [gn_entities gn_relations gn_visited].
  pose proof (walk_sound t keys limit as_of valid_at layers g ids (Z.to_nat (Z.max 0 hops)) 0 _ (start_sound t keys limit as_of valid_at layers g ids)) as Hs.
  set (st := walk_hops _ _ _ _ _ _ _ _ _) in *. split_and!.
  - intros e (i & _ & Hi & Hseen)%elem_get_entities. split; [|done]. apply elem_dvalues. exists i. by apply dget_elem.
  - intros r [[Hsub Hobj] [k Hr]%elem_dvalues]%list_elem_of_filter. destruct (sd_found Hs k r Hr) as (_ & Hin & Ha & _).
    unfold walkable in Ha. apply andb_true_iff in Ha as [[Ha1 Ha2]%andb_true_iff Ha3]. by split_and!.
  - apply (sd_bound Hs).
Qed.

(** C12: With room for every id, the in-memory walk is exact: it returns the visible
    entities at most [hops] walkable facts away from the ids given, and, of the facts
    with an end fewer than [hops] away, those between two such entities. A walkable
    fact is one the caller may read; the entities it joins need not be, so the walk
    goes on behind an entity it does not return. (The PostgreSQL store, whose semantics
    this one is documented to have, drops a fact to a neighbour the caller cannot see
    before it walks on, so it returns less there; see walks_behind_the_hidden.) *)
Theorem neighborhood_exact t keys limit as_of valid_at layers ids hops g :
  graph_ok g → Z.of_nat (length (universe g ids)) < limit → 0 ≤ hops →
  let n := neighborhood t keys limit as_of valid_at layers ids hops g in
  let near := nearer t keys as_of valid_at layers g ids in
  (∀ e, e ∈ gn_entities n ↔ dget (e_id e) (g_entities g) = Some e ∧ entity_seen t keys e = true ∧ near (S (Z.to_nat hops)) (e_id e)) ∧
  (∀ r, r ∈ gn_relations n ↔
    r ∈ dvalues (g_relations g) ∧ walkable t keys as_of valid_at layers r = true ∧
    (near (Z.to_nat hops) (r_subject r) ∨ near (Z.to_nat hops) (r_object r)) ∧
    r_subject r ∈ e_id <$> gn_entities n ∧ r_object r ∈ e_id <$> gn_entities n).
Proof.
  intros Hg Hroom Hhops. cbn zeta. unfold neighborhood. rewrite Z.max_r by done. cbn [gn_entities gn_relations].
  pose proof (walk_full t keys limit as_of valid_at layers g ids Hroom (Z.to_nat hops) 0 _ (start_full t keys limit as_of valid_at layers g ids)) as Hf.
  set (st := walk_hops _ _ _ _ _ _ _ _ _) in *. pose proof (fl_sound Hf) as Hs. simpl in Hf, Hs. split.
  - intros e. rewrite elem_get_entities. split.
    + intros (i & Hi & He & Hseen). pose proof (ok_entity_ids _ Hg i e (dget_elem _ _ _ He)) as ->.
      split_and!; [done|done|by apply (sd_visited Hs)].
    + intros (He & Hseen & Hnear). exists (e_id e). split_and!; [by apply (fl_visited Hf)|done|done].
  - intros r. rewrite list_elem_of_filter, elem_dvalues. split.
    + intros [[Hsub Hobj] [k Hr]]. destruct (sd_found Hs k r Hr) as (_ & Hin & Ha & x & Hx & Hnear).
      split_and!; [done|done| |done|done]. destruct Hx as [->| ->]; [by left|by right].
    + intros (Hin & Ha & Hnear & Hsub & Hobj). split; [done|].
      assert (∃ x, nearer t keys as_of valid_at layers g ids (Z.to_nat hops) x ∧ is_end r x) as (x & Hx & He).
      { destruct Hnear as [H|H]; [exists (r_subject r); split; [done|by left]|exists (r_object r); split; [done|by right]]. }
      destruct (fl_found Hf x r Hx Hin Ha He) as ([r' Hr'] & _ & _).
      apply dget_elem in Hr'. destruct (sd_found Hs _ _ Hr') as (Hid & Hin' & _ & _).
      exists (r_id r). by pose proof (relation_of_id g r r' Hg Hin Hin' Hid) as <-.
Qed.

(** A summary discloses nothing: whoever may read an entity may read every
    fact its summary is written from, for each is a current fact of the entity in
    its tenant whose audience covers the entity's, and no more than [limit]. *)
Theorem summary_sources_readable t ids limit g keys s :
  graph_ok g → 0 ≤ limit → s ∈ summary_sources t ids limit g → entity_seen t keys (ef_entity s) = true →
  ∃ facts, ef_facts s = (λ r, (r_predicate r, match dget (r_object r) (g_entities g) with Some o => e_name o | None => "" end)) <$> facts ∧
    Z.of_nat (length facts) ≤ limit ∧
    ∀ r, r ∈ facts → r ∈ dvalues (g_relations g) ∧ r_subject r = e_id (ef_entity s) ∧ r_status r = "CURRENT" ∧
      relation_seen t keys r = true.
Proof.
  intros Hg Hlim Hs Hseen. unfold summary_sources in Hs. apply list_elem_of_omap in Hs as (i & _ & Hs).
  destruct (dget i (g_entities g)) as [e|] eqn:He; [|done]. case_bool_decide as Ht; [|done]. injection Hs as <-.
  pose proof (ok_entity_ids _ Hg i e (dget_elem _ _ _ He)) as <-. unfold entity_facts. cbn [ef_entity ef_facts] in *.
  set (l := sorted_by stronger _). exists (py_take limit l). unfold py_take. rewrite (proj2 (Z.leb_le _ _)) by done.
  split_and!; [done|rewrite length_take; lia|]. intros r (k & Hr%list_elem_of_lookup_2 & _)%elem_of_take.
  apply elem_sorted_by, list_elem_of_filter in Hr as [Hr Hin]. split_bool.
  split_and!; [done..|].
  apply andb_true_iff in Hseen as [_ (k' & Hk' & Hkeys)%existsb_exists]. unfold relation_seen. apply andb_true_iff. split; [by apply bool_decide_eq_true|].
  apply existsb_exists. exists k'. split; [|done].
  match goal with H : forallb _ _ = true |- _ => rewrite forallb_forall in H; apply H, bool_decide_eq_true in Hk' end.
  by apply list_elem_of_In.
Qed.

(** ** Facts are closed, not lost *)

Section history.
Context (blake2b : string → string).

(** One write of the store that is no deletion. *)
Inductive gwrite (g : graph) : graph → Prop :=
| gw_entities l : gwrite g (upsert_entities l g)
| gw_relations l : gwrite g (upsert_relations l g)
| gw_summary t i summary source : gwrite g (set_summary t i summary source g)
| gw_supersede i by_ at_ : gwrite g (supersede i by_ at_ g)
| gw_supersede_for t m at_ : gwrite g (supersede_for_memory t m at_ g).1
| gw_invalidate i reason at_ by_ status attributes : gwrite g (invalidate blake2b i reason at_ by_ status attributes g).1.

(** What closing a fact leaves as it is. *)
Definition same_fact (r r' : Relation) : Prop :=
  r_id r' = r_id r ∧ r_tenant r' = r_tenant r ∧ r_subject r' = r_subject r ∧ r_predicate r' = r_predicate r ∧
  r_object r' = r_object r ∧ r_valid_from r' = r_valid_from r ∧ r_observed_at r' = r_observed_at r ∧ r_evidence r' = r_evidence r.

(** The ids of invalidation edges. *)
Definition edge_id (i : string) : Prop := ∃ s, i = "inv_" +:+ s.

Definition keeps (g g' : graph) : Prop :=
  ∀ i r, dget i (g_relations g) = Some r → ∃ r', dget i (g_relations g') = Some r' ∧ (edge_id i ∨ same_fact r r').

Lemma same_fact_refl r : same_fact r r.
Proof. done. Qed.

Lemma keeps_same g g' : g_relations g' = g_relations g → keeps g g'.
Proof. intros Hg i r Hr. exists r. rewrite Hg. split; [done|right; apply same_fact_refl]. Qed.

Lemma same_fact_closed st vt ia b at_ r : same_fact r (closed st vt ia b at_ r).
Proof. done. Qed.

(** The dictionaries behind [keeps] and [graph_ok]. *)
Definition dkeeps (d d' : dict Relation) : Prop :=
  dict_ok d → keyed r_id d →
  dict_ok d' ∧ keyed r_id d' ∧
  ∀ i r, dget i d = Some r → ∃ r', dget i d' = Some r' ∧ (edge_id i ∨ same_fact r r').

Lemma dkeeps_refl d : dkeeps d d.
Proof. intros ? ?. split_and!; [done..|]. intros i r ?. exists r. split; [done|by right]. Qed.

Lemma dkeeps_trans d1 d2 d3 : dkeeps d1 d2 → dkeeps d2 d3 → dkeeps d1 d3.
Proof.
  intros H12 H23 Hok Hk. destruct (H12 Hok Hk) as (Hok2 & Hk2 & Hg2). destruct (H23 Hok2 Hk2) as (Hok3 & Hk3 & Hg3).
  split_and!; [done..|]. intros i r Hr. destruct (Hg2 i r Hr) as (r2 & Hr2 & Hs2). destruct (Hg3 i r2 Hr2) as (r3 & Hr3 & Hs3).
  exists r3. split; [done|]. destruct Hs2 as [?|Hs2]; [by left|]. destruct Hs3 as [?|Hs3]; [by left|right].
  unfold same_fact in *. naive_solver congruence.
Qed.

Lemma dkeeps_set d i r : r_id r = i → (∀ old, dget i d = Some old → edge_id i ∨ same_fact old r) → dkeeps d (dset i r d).
Proof.
  intros Hi Hold Hok Hk. split_and!; [by apply dict_ok_dset|by apply keyed_dset|]. intros j r' Hr'. rewrite dget_dset.
  case_decide as Hj; [subst j|by exists r'; split; [|right]]. exists r. split; [done|by apply Hold].
Qed.

Lemma dkeeps_upserts l : ∀ d, dkeeps d (foldl upsert_relation d l).
Proof.
  induction l as [|r l IH]; intros d; [apply dkeeps_refl|]. cbn [foldl]. eapply dkeeps_trans; [|apply IH].
  intros Hok Hk. unfold upsert_relation. destruct (dget (r_id r) d) as [prev|] eqn:Hp.
  - apply dkeeps_set; [|rewrite Hp; intros old [= <-]; by right|done..]. apply (Hk (r_id r) prev). by apply dget_elem.
  - by apply dkeeps_set; [|rewrite Hp|..].
Qed.

Lemma dkeeps_map (f : Relation → Relation) d : (∀ r, same_fact r (f r)) → dkeeps d ((λ kv, (kv.1, f kv.2)) <$> d).
Proof.
  intros Hf Hok Hk. assert (((λ kv : string * Relation, (kv.1, f kv.2)) <$> d).*1 = d.*1) as Hkeys.
  { rewrite <- list_fmap_compose. by apply list_fmap_ext. }
  split_and!.
  - unfold dict_ok. by rewrite Hkeys.
  - intros k r ([k' r'] & [= -> ->] & Hin)%list_elem_of_fmap. destruct (Hf r') as [-> _]. by apply Hk.
  - intros i r Hr. exists (f r). split; [|by right]. apply elem_dget; [unfold dict_ok; by rewrite Hkeys|].
    apply list_elem_of_fmap. exists (i, r). split; [done|by apply dget_elem].
Qed.

Lemma dkeeps_close d i r r' : dget i d = Some r → same_fact r r' → dkeeps d (dset i r' d).
Proof.
  intros Hr Hs Hok Hk. apply dkeeps_set; [|rewrite Hr; intros old [= <-]; by right|done..].
  destruct Hs as [-> _]. by apply (Hk i r), dget_elem.
Qed.

Lemma gwrite_relations g g' : gwrite g g' → dkeeps (g_relations g) (g_relations g').
Proof.
  intros [l|l|t i sm so|i b at_|t m at_|i re at_ b st at'].
  - apply dkeeps_refl.
  - apply dkeeps_upserts.
  - unfold set_summary. repeat case_match; apply dkeeps_refl.
  - unfold supersede. destruct (dget _ _) eqn:Hr; [|apply dkeeps_refl]. by eapply dkeeps_close.
  - apply (dkeeps_map (λ r, if of_memory t m r then closed "SUPERSEDED" (Some at_) (Some at_) (r_superseded_by r) (r_attributes r) r else r)).
    intros r. by case_match.
  - unfold invalidate. destruct (dget i _) as [r|] eqn:Hr; [|apply dkeeps_refl].
    assert (dkeeps (g_relations g) (dset i (invalidated re at_ b st r) (g_relations g))) as Hclose by by eapply dkeeps_close.
    destruct (if otruthy b then _ else _) as [w|]; [|exact Hclose]. eapply dkeeps_trans; [exact Hclose|].
    apply dkeeps_set; [done|]. intros old _. left. by eexists.
Qed.

Lemma gwrite_entities g g' : gwrite g g' → dict_ok (g_entities g) → keyed e_id (g_entities g) →
  dict_ok (g_entities g') ∧ keyed e_id (g_entities g').
Proof.
  intros [l|l|t i sm so|i b at_|t m at_|i re at_ b st at'] Hok Hk; try done.
  - simpl. revert Hok Hk. generalize (g_entities g). induction l as [|e l IH]; intros d Hok Hk; [done|]. cbn [foldl].
    apply IH; [by apply dict_ok_dset|]. apply keyed_dset; [done|]. destruct (dget (e_id e) d) as [prev|] eqn:Hp; [|done].
    by apply (Hk (e_id e) prev), dget_elem.
  - unfold set_summary. destruct (dget i _) as [e|] eqn:He; [|done]. case_bool_decide; [|done].
    split; [by apply dict_ok_dset|]. apply keyed_dset; [done|]. by apply (Hk i e), dget_elem.
  - unfold supersede. by case_match.
  - unfold invalidate. by repeat case_match.
Qed.

(** C28: Nothing but the deletion of its document takes a fact away: after any
    writes the store still holds every fact under its id, with the subject,
    predicate, object, start, observation time and evidence it had; and entities
    and facts stay stored once, under their own ids. (The edges that record an
    invalidation, whose ids begin with inv_, are apart: a second invalidation of the
    same fact by the same winner writes its edge again.) *)
Theorem facts_are_kept g g' : rtc gwrite g g' → graph_ok g → graph_ok g' ∧ keeps g g'.
Proof.
  intros Hsteps. induction Hsteps as [g|g g1 g2 Hw _ IH]; intros Hg; [split; [done|by apply keeps_same]|].
  destruct Hg as [He Hr Hke Hkr]. destruct (gwrite_entities _ _ Hw He Hke) as [He1 Hke1].
  destruct (gwrite_relations _ _ Hw Hr Hkr) as (Hr1 & Hkr1 & Hk1).
  destruct (IH ltac:(by constructor)) as [Hg2 Hk2]. split; [done|]. intros i r Hi.
  destruct (Hk1 i r Hi) as (r1 & Hi1 & Hs1). destruct (Hk2 i r1 Hi1) as (r2 & Hi2 & Hs2).
  exists r2. split; [done|]. destruct Hs1 as [?|Hs1]; [by left|]. destruct Hs2 as [?|Hs2]; [by left|right].
  unfold same_fact in *. naive_solver congruence.
Qed.

Lemma holds_superseded reason at_ by_ r t : closed_status (r_status r) = false →
  holds_at (invalidated reason at_ by_ "SUPERSEDED" r) t = holds_at r t && (bool_decide (is_Some (r_valid_to r)) || (t <? at_)).
Proof.
  intros Hr. unfold holds_at, invalidated. cbn [r_status r_valid_from r_valid_to closed]. rewrite Hr. simpl.
  destruct (r_valid_to r) as [b|]; simpl; [by rewrite andb_true_r|]. rewrite orb_false_r, negb_orb, Z.leb_antisym, negb_involutive. done.
Qed.

Lemma asserted_invalidated reason at_ by_ status r t : r_invalidated_at r = None →
  asserted_at (invalidated reason at_ by_ status r) t = asserted_at r t && (t <? at_).
Proof.
  intros Hr. unfold asserted_at, invalidated. cbn [r_observed_at r_invalidated_at closed]. rewrite Hr. simpl.
  by rewrite andb_true_r, Z.leb_antisym, negb_involutive.
Qed.

(** Invalidation keeps history: a current fact that is superseded or found
    wrong is current no more, is still what was known before that instant, and is
    still true in its interval up to then when it was superseded (up to the end it
    had, if it had one), never when it was wrong; and when another stored fact
    replaces it, an edge says so. *)
Theorem invalidate_keeps_history g i r reason at_ by_ status attributes :
  graph_ok g → dget i (g_relations g) = Some r → ¬ edge_id i → r_status r = "CURRENT" → r_invalidated_at r = None →
  status ∈ ["SUPERSEDED"; "INVALIDATED"] →
  let g' := (invalidate blake2b i reason at_ by_ status attributes g).1 in
  let edge := (invalidate blake2b i reason at_ by_ status attributes g).2 in
  (∃ r', dget i (g_relations g') = Some r' ∧ same_fact r r' ∧ passes_time r' None None = false ∧
    (∀ t, passes_time r' None (Some t) = passes_time r None (Some t) && (t <? at_)) ∧
    (∀ t, passes_time r' (Some t) None =
      bool_decide (status = "SUPERSEDED") && passes_time r (Some t) None && (bool_decide (is_Some (r_valid_to r)) || (t <? at_)))) ∧
  (∀ b, by_ = Some b → b ≠ "" → is_Some (dget b (g_relations g)) →
    ∃ e, edge = Some e ∧ dget (r_id e) (g_relations g') = Some e ∧ r_subject e = i ∧ r_predicate e = INVALIDATED_BY ∧
      r_object e = b ∧ r_status e = "CURRENT" ∧ r_observed_at e = at_).
Proof.
  intros Hg Hi Hedge Hcur Hinv Hst. cbn zeta. unfold invalidate. rewrite Hi. set (loser := invalidated _ _ _ _ _).
  assert (same_fact r loser) as Hsame by done.
  pose proof (ok_relation_ids _ Hg i r (dget_elem _ _ _ Hi)) as Hid.
  assert (∀ t, asserted_at loser t = asserted_at r t && (t <? at_)) as Hassert by (intros t; by apply asserted_invalidated).
  assert (closed_status (r_status r) = false) as Hopen by by rewrite Hcur.
  split.
  - exists loser. split_and!.
    + destruct (if otruthy by_ then _ else _) as [w|]; cbn [fst set_relations g_relations]; rewrite ?dget_dset_eq; [|done].
      rewrite dget_dset_ne, dget_dset_eq; [done|]. intros ->. apply Hedge. by eexists.
    + done.
    + unfold passes_time. cbn. apply bool_decide_eq_false. set_solver.
    + intros t. unfold passes_time. cbn [andb]. apply Hassert.
    + intros t. unfold passes_time. rewrite !andb_true_r. case_bool_decide as Hs; simpl.
      * unfold loser. rewrite Hs. by apply holds_superseded.
      * assert (status = "INVALIDATED") as Heq by set_solver. unfold holds_at. cbn [r_status loser invalidated closed].
        by rewrite Heq.
  - intros b -> Hb [w Hw]. unfold otruthy. rewrite (proj2 (truthy_spec b) Hb). change (default "" (Some b)) with b.
    assert (∃ w', dget b (dset i loser (g_relations g)) = Some w' ∧ r_id w' = b) as (w' & Hw' & Hb').
    { rewrite dget_dset. case_decide as Hbi; [exists loser; split; [done|]; by subst b|]. exists w. split; [done|].
      by apply (ok_relation_ids _ Hg b w), dget_elem. }
    rewrite Hw'. eexists. split; [done|]. cbn [fst set_relations g_relations]. by rewrite dget_dset_eq.
Qed.
End history.

(** ** A graph *)

Definition an_entity (i name : string) (keys : list string) : Entity :=
  {| e_id := i; e_tenant := "acme"; e_name := name; e_canonical_name := name; e_type := "ORG"; e_aliases := []; e_scope_key := "";
     e_visibility_keys := keys; e_evidence := []; e_mention_count := 1; e_revision := 1; e_summary := "" |}.

Definition a_fact (i subject predicate object : string) (keys : list string) (valid_to : option Z) : Relation :=
  {| r_id := i; r_tenant := "acme"; r_subject := subject; r_predicate := predicate; r_object := object; r_layer := layer_for predicate;
     r_scope_key := ""; r_visibility_keys := keys; r_valid_from := Some 0; r_valid_to := valid_to; r_observed_at := 1;
     r_invalidated_at := None; r_status := "CURRENT"; r_superseded_by := None; r_confidence := 1 # 2; r_evidence := [];
     r_memory_id := Some "m1"; r_document_id := None; r_fact_text := ""; r_attributes := [] |}.

Definition empty_graph : graph := {| g_entities := []; g_relations := []; g_summary_sources := [] |}.

(** A supplier of the tenant, its owner, and a person only ann may know of. *)
Definition a_graph : graph :=
  upsert_relations [a_fact "r1" "e1" "owned_by" "e2" ["tenant:acme"] None; a_fact "r2" "e2" "led_by" "e3" ["tenant:acme"] (Some 5);
                    a_fact "r3" "e3" "knows" "e1" ["user:ann"] None]
    (upsert_entities [an_entity "e1" "Brightway" ["tenant:acme"]; an_entity "e2" "Halden" ["tenant:acme"];
                      an_entity "e3" "Ida" ["user:ann"]] empty_graph).

Lemma a_graph_ok : graph_ok a_graph.
Proof.
  constructor; unfold dict_ok, keyed; cbn.
  1, 2: by repeat (constructor; [set_solver|]); constructor.
  all: intros k v Hin; repeat (apply elem_of_cons in Hin as [[= -> ->]|Hin]; [done|]); by apply elem_of_nil in Hin.
Qed.

Abbreviation near_e1 keys := (neighborhood "acme" keys 200 None None None ["e1"] 2 a_graph).

(** The one who leads the owner is two facts away, and hidden from who may not
    read it, with the facts that lead there. *)
Example neighborhood_ex :
  (e_id <$> gn_entities (near_e1 ["tenant:acme"]), r_id <$> gn_relations (near_e1 ["tenant:acme"])) = (["e1"; "e2"], ["r1"]) ∧
  (e_id <$> gn_entities (near_e1 ["tenant:acme"; "user:ann"]), r_id <$> gn_relations (near_e1 ["tenant:acme"; "user:ann"])) =
    (["e1"; "e2"; "e3"], ["r1"; "r3"; "r2"]).
Proof. vm_compute. done. Qed.

(** The walk passes through Ida, whom the tenant may not see: Halden is known by her
    only, and is returned. *)
Example walks_behind_the_hidden :
  let g := upsert_relations [a_fact "r1" "e1" "led_by" "e3" ["tenant:acme"] None; a_fact "r2" "e3" "owns" "e2" ["tenant:acme"] None]
    (upsert_entities [an_entity "e1" "Brightway" ["tenant:acme"]; an_entity "e2" "Halden" ["tenant:acme"];
                      an_entity "e3" "Ida" ["user:ann"]] empty_graph) in
  let n := neighborhood "acme" ["tenant:acme"] 200 None None None ["e1"] 2 g in
  (e_id <$> gn_entities n, gn_relations n) = (["e1"; "e2"], []).
Proof. vm_compute. done. Qed.

(** A fact that ended at 5 is true at 7 once its memory is superseded at 9. *)
Example superseding_lengthens :
  let r := a_fact "r2" "e2" "led_by" "e3" ["tenant:acme"] (Some 5) in
  passes_time r (Some 7) None = false ∧
  ∃ r', dget "r2" (g_relations (supersede_for_memory "acme" "m1" 9 a_graph).1) = Some r' ∧ passes_time r' (Some 7) None = true.
Proof. split; [by vm_compute|]. eexists. split; by vm_compute. Qed.

Lemma neighborhood_discloses_nothing_witness :
  gn_visited (near_e1 ["tenant:acme"]) = 3%nat ∧
  ∀ e, e ∈ gn_entities (near_e1 ["tenant:acme"]) → entity_seen "acme" ["tenant:acme"] e = true.
Proof.
  split; [vm_compute; reflexivity|]. intros e He.
  destruct (neighborhood_discloses_nothing "acme" ["tenant:acme"] 200 None None None ["e1"] 2 a_graph a_graph_ok) as (H & _ & _).
  apply (H e He).
Defined.

Lemma neighborhood_exact_witness :
  length (gn_entities (near_e1 ["tenant:acme"; "user:ann"])) = 3%nat ∧
  ∀ e, e ∈ gn_entities (near_e1 ["tenant:acme"; "user:ann"]) →
    nearer "acme" ["tenant:acme"; "user:ann"] None None None a_graph ["e1"] 3 (e_id e).
Proof.
  split; [vm_compute; reflexivity|]. intros e He.
  destruct (neighborhood_exact "acme" ["tenant:acme"; "user:ann"] 200 None None None ["e1"] 2 a_graph a_graph_ok) as [H _].
  - vm_compute. reflexivity.
  - lia.
  - destruct (proj1 (H e) He) as (_ & _ & Hn). exact Hn.
Defined.

Lemma facts_are_kept_witness :
  is_Some (dget "r2" (g_relations a_graph)) ∧ graph_ok (supersede "r1" "r3" 9 (supersede_for_memory "acme" "m1" 7 a_graph).1).
Proof.
  split; [vm_compute; eauto|].
  refine (proj1 (facts_are_kept (λ s, s) a_graph _ _ a_graph_ok)).
  eapply rtc_l; [apply (gw_supersede_for (λ s, s) a_graph "acme" "m1" 7)|].
  eapply rtc_l; [apply (gw_supersede (λ s, s) _ "r1" "r3" 9)|]. apply rtc_refl.
Defined.

Lemma invalidate_keeps_history_witness :
  ∃ r', dget "r1" (g_relations (invalidate (λ s, s) "r1" "corrected" 9 (Some "r3") "INVALIDATED" [] a_graph).1) = Some r' ∧
    passes_time r' None (Some 8) = true ∧ passes_time r' None (Some 9) = false.
Proof.
  destruct (invalidate_keeps_history (λ s, s) a_graph "r1" (a_fact "r1" "e1" "owned_by" "e2" ["tenant:acme"] None) "corrected" 9
    (Some "r3") "INVALIDATED" [] a_graph_ok) as [(r' & Hr & _ & _ & Hv & _) _].
  - vm_compute. reflexivity.
  - intros [s Hs]. discriminate Hs.
  - reflexivity.
  - reflexivity.
  - right. left.
  - exists r'. split; [exact Hr|]. split; [rewrite (Hv 8)|rewrite (Hv 9)]; vm_compute; reflexivity.
Defined.

Lemma summary_sources_readable_ex :
  (λ s, ef_facts s) <$> summary_sources "acme" ["e3"; "e1"] 5 a_graph = [[("owned_by", "Halden")]; [("knows", "Brightway")]].
Proof. vm_compute. reflexivity. Qed.
