(* ===== verification/MemoryRepo.v ===== *)
(** * MemoryRepo: the table of memories (adapters/db/memory_repository.py,
    MemoryRow and MemoryDependencyRow of adapters/db/orm.py).

    A row holds a memory with the columns that [system_metadata] shows but does
    not store. A session also collects what its writes invalidated: a write of a
    memory retracts every memory derived from it, however far. *)
From Stdlib Require Import QArith.
From S2P Require Import Prelude Errors Visibility Revisions UnitOfWork MemoryModel.
#[local] Open Scope Z_scope.

(** ** Definitions *)

(** [memory_dependencies]: [dp_derived] was made from [dp_source]. *)
Record dependency := {
  dp_tenant : string;
  dp_derived : string;
  dp_source : string;
  dp_source_revision : Z;
}.

Record memory_row := {
  r_memory : CanonicalMemory;
  r_provider : string;
  r_visibility_keys : list string;
  r_expires_at : option Z;
  r_indexed_at : option Z;
  r_derived_slot : option string;
}.

Record session := {
  s_rows : gmap string memory_row;
  s_dependencies : list dependency;
  s_invalidated : list (string * list string);
  s_invalidated_memories : list touched_memory;
}.

Abbreviation mprog A := (prog session A).

Definition set_s_rows (x : gmap string memory_row) (s : session) : session :=
  {| s_rows := x; s_dependencies := s_dependencies s; s_invalidated := s_invalidated s;
     s_invalidated_memories := s_invalidated_memories s |}.
Definition set_s_dependencies (x : list dependency) (s : session) : session :=
  {| s_rows := s_rows s; s_dependencies := x; s_invalidated := s_invalidated s;
     s_invalidated_memories := s_invalidated_memories s |}.
Definition set_s_invalidated (x : list (string * list string)) (ms : list touched_memory) (s : session) : session :=
  {| s_rows := s_rows s; s_dependencies := s_dependencies s; s_invalidated := x; s_invalidated_memories := ms |}.

(** The columns as the metadata shows them. *)
Definition shown_metadata (r : memory_row) : metadata :=
  let x := m_meta (r_memory r) in
  {| sm_provider := Some (r_provider r); sm_category := sm_category x; sm_entities := sm_entities x;
     sm_expires_at := Some (r_expires_at r); sm_indexed_at := r_indexed_at r;
     sm_visibility_keys := r_visibility_keys r; sm_derived_slot := r_derived_slot r;
     sm_source_revisions := sm_source_revisions x; sm_replaced_by := sm_replaced_by x;
     sm_supersede_reason := sm_supersede_reason x; sm_other := sm_other x |}.

Definition to_domain (r : memory_row) : CanonicalMemory := set_meta (shown_metadata r) (r_memory r).

Abbreviation status_of r := (t_status (m_temporal (r_memory r))).
Abbreviation deleted r := (m_deleted_at (r_memory r)).

Definition live (r : memory_row) : bool := bool_decide (deleted r = None).
Definition current (r : memory_row) : bool := live r && bool_decide (status_of r = CURRENT).

Definition lapsed (now : Z) (r : memory_row) : bool :=
  match r_expires_at r with
  | Some e => Z.leb e now
  | None => false
  end.

Definition invalid_derived (now : Z) (r : memory_row) : bool :=
  (otruthy (r_derived_slot r) || bool_decide (sm_source_revisions (m_meta (r_memory r)) ≠ ∅))
  && (bool_decide (status_of r = RETRACTED) || lapsed now r).

(** The memories derived from some others. *)
Definition derived_from (deps : list dependency) (tenant_id : string) (ids : gset string) : gset string :=
  list_to_set (dp_derived <$> filter (λ d, dp_tenant d = tenant_id ∧ dp_source d ∈ ids) deps).

(** The recursive query: from the directly derived, adding what is derived from
    what was found until nothing new is. *)
Definition affected (deps : list dependency) (tenant_id : string) (sources : list string) : gset string :=
  Nat.iter (length deps) (λ x, x ∪ derived_from deps tenant_id x)
    (derived_from deps tenant_id (list_to_set sources)).

Definition touched_of (m : CanonicalMemory) : touched_memory :=
  {| tm_tenant := m_tenant m; tm_user := sc_user (m_scope m); tm_thread := sc_thread (m_scope m);
     tm_agent := sc_agent (m_scope m); tm_keys := sm_visibility_keys (m_meta m) |}.

Definition map_row (f : CanonicalMemory → CanonicalMemory) (r : memory_row) : memory_row :=
  {| r_memory := f (r_memory r); r_provider := r_provider r; r_visibility_keys := r_visibility_keys r;
     r_expires_at := r_expires_at r; r_indexed_at := None; r_derived_slot := r_derived_slot r |}.

Definition with_status (st : TemporalStatus) (now : Z) (m : CanonicalMemory) : CanonicalMemory :=
  set_stamp now (m_revision m + 1) (m_deleted_at m) (set_temporal (set_status st (m_temporal m)) m).

(** What is to be retracted of a set of ids. *)
Definition hit (tenant_id : string) (ids : gset string) (r : memory_row) : bool :=
  bool_decide (m_tenant (r_memory r) = tenant_id) && negb (bool_decide (status_of r = RETRACTED))
  && bool_decide (m_id (r_memory r) ∈ ids).

Definition retract_row (now : Z) (tenant_id : string) (ids : gset string) (r : memory_row) : memory_row :=
  if hit tenant_id ids r then map_row (with_status RETRACTED now) r else r.

(** [self.invalidated.setdefault(tenant, set()).update(ids)]. *)
Fixpoint add_invalidated (tenant_id : string) (ids : list string) (l : list (string * list string)) :
    list (string * list string) :=
  match l with
  | [] => [(tenant_id, ids)]
  | (t, old) :: l' =>
      if String.eqb t tenant_id then (t, fromkeys (old ++ ids)) :: l'
      else (t, old) :: add_invalidated tenant_id ids l'
  end.

Definition invalidate_dependents (now : Z) (tenant_id : string) (source_ids : list string) : mprog unit :=
  λ s,
  match source_ids with
  | [] => (Ok tt, s)
  | _ =>
      let ids := affected (s_dependencies s) tenant_id source_ids in
      let gone := filter (λ r, hit tenant_id ids r = true) (rows (s_rows s)) in
      let rows := retract_row now tenant_id ids <$> s_rows s in
      (Ok tt, set_s_invalidated
                (add_invalidated tenant_id ((λ r, m_id (r_memory r)) <$> gone) (s_invalidated s))
                (s_invalidated_memories s ++ ((λ r, touched_of (to_domain (retract_row now tenant_id ids r))) <$> gone))
                (set_s_rows rows s))
  end.

(** ** Writing *)

(** [_source_rows]: the memories a derived one cites must be as the writer read
    them, and readable by at least its audience. *)
Definition source_ids (m : CanonicalMemory) : list string :=
  str_sorted (fromkeys (ev_source_id <$> filter (λ e, ev_source_type e = EvMemory) (m_evidence m))).

Definition stale_source (now : Z) (m : CanonicalMemory) (keys : list string) (r : memory_row) : bool :=
  negb (live r) || negb (bool_decide (status_of r = CURRENT)) || lapsed now r
  || negb (bool_decide (sm_source_revisions (m_meta m) !! m_id (r_memory r) = Some (m_revision (r_memory r))))
  || negb (forallb (λ k, bool_decide (k ∈ r_visibility_keys r)) keys).

Definition source_rows (now : Z) (m : CanonicalMemory) (keys : list string) : mprog (list memory_row) :=
  λ s,
  match source_ids m with
  | [] => (Ok [], s)
  | ids =>
      let found := filter (λ r, m_tenant (r_memory r) = m_tenant m) (omap (λ i, s_rows s !! i) ids) in
      if negb (Nat.eqb (length found) (length ids)) || existsb (stale_source now m keys) found
      then (Raise (err ValidationFailed "Derived sources changed or have incompatible audiences"), s)
      else match keys with
           | [] => (Raise (err ValidationFailed "Derived memory requires a nonempty source audience"), s)
           | _ => (Ok found, s)
           end
  end.

(** [uq_memories_live_derived_slot]: another current row of the tenant has the slot. *)
Definition slot_taken (row : memory_row) (s : session) : bool :=
  match r_derived_slot row with
  | Some slot => current row && existsb (λ r, current r && bool_decide (r_derived_slot r = Some slot)
                   && bool_decide (m_tenant (r_memory r) = m_tenant (r_memory row))
                   && negb (bool_decide (m_id (r_memory r) = m_id (r_memory row)))) (rows (s_rows s))
  | None => false
  end.

Definition row_of (m : CanonicalMemory) (keys : list string) : memory_row :=
  let x := m_meta m in
  {| r_memory := set_stamp (m_updated_at m) (m_revision m) None m;
     r_provider := default "native" (sm_provider x); r_visibility_keys := keys;
     r_expires_at := match sm_expires_at x with Some e => e | None => None end;
     r_indexed_at := None; r_derived_slot := sm_derived_slot x |}.

Definition dependency_of (m : CanonicalMemory) (r : memory_row) : dependency :=
  {| dp_tenant := m_tenant m; dp_derived := m_id m; dp_source := m_id (r_memory r);
     dp_source_revision := m_revision (r_memory r) |}.

Definition add (now : Z) (m : CanonicalMemory) (keys : list string) : mprog unit :=
  bind (source_rows now m keys) (λ sources,
  λ s,
  let row := row_of m keys in
  if bool_decide (is_Some (s_rows s !! m_id m)) || slot_taken row s then (Raise IntegrityError, s)
  else (Ok tt, set_s_dependencies (s_dependencies s ++ (dependency_of m <$> sources))
                 (set_s_rows (<[m_id m := row]> (s_rows s)) s))).

(** The row [update] leaves: the columns it assigns, the others as they were. *)
Definition updated_row (detect_language : string → string) (m : CanonicalMemory) (r : memory_row) : memory_row :=
  let o := r_memory r in
  let t := m_temporal m in
  {| r_memory :=
       {| m_id := m_id o; m_tenant := m_tenant o; m_scope := m_scope o; m_visibility := m_visibility m;
          m_owner := m_owner o; m_lifetime := m_lifetime m; m_type := m_type m; m_custom_type := m_custom_type o;
          m_content := m_content m; m_hash := m_hash m; m_subject := m_subject m; m_predicate := m_predicate m;
          m_object := m_object m;
          m_temporal := {| t_status := t_status t; t_valid_from := t_valid_from t; t_valid_to := t_valid_to t;
                           t_observed_at := t_observed_at (m_temporal o); t_superseded_by := t_superseded_by t;
                           t_supersedes := t_supersedes t; t_contradicts := t_contradicts t |};
          m_evidence := m_evidence m; m_confidence := m_confidence m; m_importance := m_importance m;
          m_reinforcements := m_reinforcements m; m_accesses := Z.max (m_accesses o) (m_accesses m);
          m_last_accessed := match m_last_accessed m with Some t => Some t | None => m_last_accessed o end;
          m_meta := m_meta m; m_custom := m_custom m; m_created_at := m_created_at o;
          m_updated_at := m_updated_at m; m_revision := m_revision o + 1; m_deleted_at := m_deleted_at o;
          m_lang := detect_language (m_content m) |};
     r_provider := r_provider r; r_visibility_keys := r_visibility_keys r;
     r_expires_at := match sm_expires_at (m_meta m) with Some e => e | None => r_expires_at r end;
     r_indexed_at := None; r_derived_slot := r_derived_slot r |}.

Section repository.
Variable detect_language : string → string.

(** The memory passed in learns its new revision. *)
Definition update (now : Z) (m : CanonicalMemory) : mprog CanonicalMemory :=
  λ s,
  match s_rows s !! m_id m with
  | Some r =>
      if negb (String.eqb (m_tenant (r_memory r)) (m_tenant m)) then (Raise (LookupError (m_id m)), s)
      else let r' := updated_row detect_language m r in
           if slot_taken r' s then (Raise IntegrityError, s)
           else
           bind (invalidate_dependents now (m_tenant m) [m_id m])
             (λ _, ret (set_stamp (m_updated_at m) (m_revision (r_memory r')) (m_deleted_at m) m))
             (set_s_rows (<[m_id m := r']> (s_rows s)) s)
  | None => (Raise (LookupError (m_id m)), s)
  end.

(** The one row a write by id is about. *)
Definition own_row (tenant_id memory_id : string) (s : session) : option memory_row :=
  match s_rows s !! memory_id with
  | Some r => if String.eqb (m_tenant (r_memory r)) tenant_id && live r then Some r else None
  | None => None
  end.

Definition forgotten_row (now : Z) (r : memory_row) : memory_row :=
  map_row (λ m, set_stamp (m_updated_at m) (m_revision m + 1) (Some now)
                  (set_temporal (set_status RETRACTED (m_temporal m)) m)) r.

Definition forget (now : Z) (tenant_id memory_id : string) : mprog bool :=
  λ s,
  match own_row tenant_id memory_id s with
  | Some r => bind (invalidate_dependents now tenant_id [memory_id]) (λ _, ret true)
                (set_s_rows (<[memory_id := forgotten_row now r]> (s_rows s)) s)
  | None => (Ok false, s)
  end.

Definition set_status_ (now : Z) (tenant_id memory_id : string) (st : TemporalStatus) : mprog bool :=
  λ s,
  match own_row tenant_id memory_id s with
  | Some r =>
      if decide (status_of r = st) then (Ok true, s)
      else if slot_taken (map_row (with_status st now) r) s then (Raise IntegrityError, s)
      else bind (invalidate_dependents now tenant_id [memory_id]) (λ _, ret true)
             (set_s_rows (<[memory_id := map_row (with_status st now) r]> (s_rows s)) s)
  | None => (Ok false, s)
  end.

(** [expire_due]: at most [limit] current rows past their end, whichever the
    database returns first. *)
Definition due (now : Z) (r : memory_row) : bool := current r && lapsed now r.

Definition expired_row (now : Z) (r : memory_row) : memory_row :=
  map_row (λ m, set_stamp now (m_revision m) (m_deleted_at m)
                  (set_temporal (set_status EXPIRED (m_temporal m)) m)) r.

Definition expire_due (now : Z) (limit : nat) : mprog (list (string * string)) :=
  λ s,
  let l := take limit (filter (λ r, due now r = true) (rows (s_rows s))) in
  let out := (λ r, (m_tenant (r_memory r), m_id (r_memory r))) <$> l in
  let s' := set_s_rows (foldr (λ r acc, <[m_id (r_memory r) := expired_row now r]> acc) (s_rows s) l) s in
  bind (mapM_ (λ t, invalidate_dependents now t (snd <$> filter (λ p, fst p = t) out)) (fromkeys (fst <$> out)))
    (λ _, ret out) s'.

Definition bump_access (now : Z) (tenant_id : string) (memory_ids : list string) : mprog Z :=
  λ s,
  let mine r := bool_decide (m_tenant (r_memory r) = tenant_id)
                && bool_decide (m_id (r_memory r) ∈ memory_ids) && live r in
  let touch_ r := {| r_memory := set_access (m_accesses (r_memory r) + 1) (Some now) (r_memory r);
                     r_provider := r_provider r; r_visibility_keys := r_visibility_keys r;
                     r_expires_at := r_expires_at r; r_indexed_at := r_indexed_at r;
                     r_derived_slot := r_derived_slot r |} in
  match memory_ids with
  | [] => (Ok 0, s)
  | _ => (Ok (Z.of_nat (length (filter (λ r, mine r = true) (rows (s_rows s))))),
          set_s_rows ((λ r, if mine r then touch_ r else r) <$> s_rows s) s)
  end.

Definition mark_indexed (memory_ids : list string) (indexed_at : Z) : mprog unit :=
  modify (λ s, set_s_rows ((λ r, if bool_decide (m_id (r_memory r) ∈ memory_ids)
                                 then {| r_memory := r_memory r; r_provider := r_provider r;
                                         r_visibility_keys := r_visibility_keys r; r_expires_at := r_expires_at r;
                                         r_indexed_at := Some indexed_at; r_derived_slot := r_derived_slot r |}
                                 else r) <$> s_rows s) s).

(** A request writes several memories one after another. *)
Definition update_all (now : Z) (l : list CanonicalMemory) : mprog unit :=
  mapM_ (λ m, bind (update now m) (λ _, ret tt)) l.

Definition forget_all (now : Z) (tenant_id : string) (ids : list string) : mprog unit :=
  mapM_ (λ i, bind (forget now tenant_id i) (λ _, ret tt)) ids.

(** ** Reading *)

(** [get] and [visibility_keys]. *)
Definition get (now : Z) (tenant_id memory_id : string) : mprog (option CanonicalMemory) :=
  gets (λ s, match own_row tenant_id memory_id s with
             | Some r => if invalid_derived now r then None else Some (to_domain r)
             | None => None
             end).

Definition get_many (now : Z) (tenant_id : string) (memory_ids : list string) : mprog (list CanonicalMemory) :=
  gets (λ s, omap (λ i, match own_row tenant_id i s with
                        | Some r => if invalid_derived now r then None else Some (to_domain r)
                        | None => None
                        end) memory_ids).

Definition visibility_keys_of (tenant_id memory_id : string) : mprog (list string) :=
  gets (λ s, match own_row tenant_id memory_id s with
             | Some r => r_visibility_keys r
             | None => []
             end).

Definition is_forgotten (tenant_id memory_id : string) : mprog bool :=
  gets (λ s, match s_rows s !! memory_id with
             | Some r => String.eqb (m_tenant (r_memory r)) tenant_id && negb (live r)
             | None => false
             end).

(** Rows that pass a test, as the domain sees them. *)
Definition select (p : memory_row → bool) (s : session) : list memory_row :=
  filter (λ r, p r = true) (rows (s_rows s)).

(** ORDER BY created_at, memory_id. *)
Definition created_le (a b : memory_row) : Prop :=
  let x := r_memory a in
  let y := r_memory b in
  m_created_at x < m_created_at y ∨ m_created_at x = m_created_at y ∧ str_le (m_id x) (m_id y).
#[export] Instance created_le_dec a b : Decision (created_le a b).
Proof. unfold created_le. apply _. Defined.

Definition same_statement (tenant_id key owner hash : string) (r : memory_row) : bool :=
  let m := r_memory r in
  bool_decide (m_tenant m = tenant_id) && bool_decide (m_hash m = hash)
  && bool_decide (scope_key (m_scope m) = key) && bool_decide (m_owner m = owner) && current r.

Definition current_with_hash (tenant_id key owner hash : string) : mprog (option CanonicalMemory) :=
  gets (λ s, to_domain <$> head (ordered created_le (Some 1%nat)
                                   (select (same_statement tenant_id key owner hash) s))).

Definition evidence_key (e : EvidenceRef) : EvidenceSource * string := (ev_source_type e, ev_source_id e).

Definition shares_evidence (a b : CanonicalMemory) : bool :=
  existsb (λ e, bool_decide (evidence_key e ∈ evidence_key <$> m_evidence b)) (m_evidence a).

Definition twin_of (tenant_id : string) (m : CanonicalMemory) (current_only : bool) (r : memory_row) : bool :=
  let x := r_memory r in
  bool_decide (m_tenant x = tenant_id) && bool_decide (m_hash x = m_hash m) && bool_decide (m_owner x = m_owner m)
  && negb (bool_decide (m_id x = m_id m)) && live r
  && (negb current_only || bool_decide (status_of r = CURRENT)) && shares_evidence m x.

Definition twins (tenant_id : string) (m : CanonicalMemory) (current_only : bool) : mprog (list CanonicalMemory) :=
  gets (λ s, to_domain <$> select (twin_of tenant_id m current_only) s).

Definition marks (tenant_id : string) (memory_ids : list string) (r : memory_row) : bool :=
  bool_decide (m_tenant (r_memory r) = tenant_id)
  && match sm_replaced_by (m_meta (r_memory r)) with
     | Some k => bool_decide (mk_memory_id k ∈ memory_ids)
     | None => false
     end.

Definition replaced_by_any (tenant_id : string) (memory_ids : list string) : mprog (list CanonicalMemory) :=
  gets (λ s, to_domain <$> select (marks tenant_id memory_ids) s).

Definition current_derived (tenant_id slot : string) : mprog (option CanonicalMemory) :=
  gets (λ s, to_domain <$> head (select (λ r,
    bool_decide (m_tenant (r_memory r) = tenant_id) && bool_decide (r_derived_slot r = Some slot) && current r) s)).

(** ORDER BY created_at DESC, memory_id DESC, and the rows strictly before a
    keyset. *)
Definition newest_first (a b : memory_row) : Prop := created_le b a.
#[export] Instance newest_first_dec a b : Decision (newest_first a b).
Proof. unfold newest_first. apply _. Defined.

Definition keyset (r : memory_row) : Z * string := (m_created_at (r_memory r), m_id (r_memory r)).

Definition below (before : option (Z * string)) (r : memory_row) : bool :=
  match before with
  | Some (t, i) => Z.ltb (m_created_at (r_memory r)) t
                   || (Z.eqb (m_created_at (r_memory r)) t && str_lt (m_id (r_memory r)) i)
  | None => true
  end.

(** What [list_scope] selects. *)
Record scope_query := {
  sq_tenant : string;
  sq_scope_keys : list string;
  sq_types : list MemoryType;
  sq_current_only : bool;
}.

Definition in_scope_query (q : scope_query) (r : memory_row) : bool :=
  let m := r_memory r in
  bool_decide (m_tenant m = sq_tenant q) && bool_decide (scope_key (m_scope m) ∈ sq_scope_keys q) && live r
  && (negb (sq_current_only q) || bool_decide (status_of r = CURRENT))
  && (bool_decide (sq_types q = []) || bool_decide (m_type m ∈ sq_types q)).

Definition page (q : scope_query) (before : option (Z * string)) (limit : nat) (s : session) : list memory_row :=
  ordered newest_first (Some limit) (select (λ r, in_scope_query q r && below before r) s).

(** [list_scope]'s loop: a lapsed derived row is skipped and replaced by the
    next one. Each round but the last reads rows the next ones exclude, so the
    rows of the table bound the rounds. *)
Fixpoint list_scope_from (fuel : nat) (now : Z) (q : scope_query) (before : option (Z * string)) (wanted : nat)
    (s : session) : option (list memory_row) :=
  match wanted with
  | O => Some []
  | _ =>
      match fuel with
      | O => None
      | S fuel =>
          let l := page q before wanted s in
          let valid := filter (λ r, invalid_derived now r = false) l in
          if Nat.ltb (length l) wanted then Some valid
          else match last l with
               | Some r => (λ more, valid ++ more) <$>
                             list_scope_from fuel now q (Some (keyset r)) (wanted - length valid) s
               | None => Some valid
               end
      end
  end.

Definition list_scope (now : Z) (q : scope_query) (before : option (Z * string)) (limit : nat)
    (s : session) : option (list memory_row) :=
  match sq_scope_keys q with
  | [] => Some []
  | _ => list_scope_from (S (size (s_rows s))) now q before limit s
  end.
End repository.

(** ** Lemmas: pages of a scope *)

(** Every row is under its own id. *)
Definition rows_wf (s : session) : Prop := ∀ i r, s_rows s !! i = Some r → m_id (r_memory r) = i.

Definition older (r x : memory_row) : bool := below (Some (keyset r)) x.

Lemma older_spec r x :
  older r x = true ↔ newest_first r x ∧ keyset r ≠ keyset x.
Proof.
  unfold older, below, newest_first, created_le, keyset.
  rewrite orb_true_iff, andb_true_iff, Z.ltb_lt, Z.eqb_eq, str_lt_spec. split.
  - intros [Hlt|(Heq & Hle & Hne)]; (split; [auto|]); [intros [= ? ?]; lia|intros [= ? ?]; congruence].
  - intros [[Hlt|[Heq Hle]] Hne]; [by left|]. right. split_and!; [done..|]. intros Hid. apply Hne. congruence.
Qed.

#[export] Instance newest_first_transitive : Transitive newest_first.
Proof.
  intros x y z [Hxy|[Hxy Hi]] [Hyz|[Hyz Hj]]; unfold newest_first, created_le in *; [left; lia..|].
  right. split; [lia|]. by etrans.
Qed.

#[export] Instance newest_first_total : Total newest_first.
Proof.
  intros x y. unfold newest_first, created_le.
  destruct (Z.lt_trichotomy (m_created_at (r_memory x)) (m_created_at (r_memory y))) as [Hlt|[Heq|Hgt]]; [by right; left| |by left; left].
  destruct (total str_le (m_id (r_memory y)) (m_id (r_memory x))); [left; right|right; right]; by split.
Qed.

Lemma newest_first_keyset x y : newest_first x y → newest_first y x → keyset x = keyset y.
Proof.
  intros [Hxy|[Hxy Hi]] [Hyx|[Hyx Hj]]; try lia. unfold keyset. f_equal; [lia|]. by apply (anti_symm str_le).
Qed.

Lemma older_asym r x : older r x = true → older x r = false.
Proof.
  intros [Hrx Hne]%older_spec. apply not_true_iff_false. intros [Hxr _]%older_spec.
  by apply Hne, newest_first_keyset.
Qed.

Lemma older_irrefl r : older r r = false.
Proof. apply not_true_iff_false. by intros [_ ?]%older_spec. Qed.

Lemma older_trans x y z : older x y = true → older y z = true → older x z = true.
Proof.
  intros [Hxy Hne]%older_spec [Hyz Hne']%older_spec. apply older_spec. split; [by etrans|].
  intros Heq. apply Hne', newest_first_keyset; [done|]. unfold newest_first, created_le, keyset in *.
  injection Heq as Hc Hi. rewrite <- Hc, <- Hi. exact Hxy.
Qed.

Section pages.
Context (q : scope_query) (s : session) (Hwf : rows_wf s).

(** All the rows of the query before a keyset, newest first. *)
Definition all_below (before : option (Z * string)) : list memory_row :=
  merge_sort newest_first (select (λ r, in_scope_query q r && below before r) s).

Lemma elem_select p r : r ∈ select p s ↔ p r = true ∧ s_rows s !! m_id (r_memory r) = Some r.
Proof using Hwf.
  unfold select. rewrite list_elem_of_filter, elem_of_rows. split.
  - intros [Hp [i Hi]]. split; [done|]. by rewrite (Hwf i r Hi).
  - intros [Hp Hi]. split; [done|]. by eexists.
Qed.

Lemma keyset_row x y p p' : x ∈ select p s → y ∈ select p' s → keyset x = keyset y → x = y.
Proof using Hwf. intros [_ Hx]%elem_select [_ Hy]%elem_select [= _ Heq]. congruence. Qed.

Lemma select_anti p x y : x ∈ select p s → y ∈ select p s → newest_first x y → newest_first y x → x = y.
Proof using Hwf. intros Hx Hy Hxy Hyx. eapply keyset_row; [done..|]. by apply newest_first_keyset. Qed.

Lemma NoDup_select p : NoDup (select p s).
Proof using Hwf.
  unfold select, rows. apply NoDup_filter, NoDup_fmap_2_strong; [|apply NoDup_map_to_list].
  intros [i x] [j y] Hx%elem_of_map_to_list Hy%elem_of_map_to_list. simpl. intros <-.
  by rewrite <- (Hwf i x Hx), <- (Hwf j x Hy).
Qed.

Lemma all_below_strict before : StronglySorted (λ x y, older x y = true) (all_below before).
Proof using Hwf.
  unfold all_below. apply (strongly_strict newest_first).
  - intros x y Hx Hy Hxy Hne. rewrite merge_sort_Permutation in Hx. rewrite merge_sort_Permutation in Hy.
    apply older_spec. split; [done|]. intros Hk. apply Hne. by eapply keyset_row.
  - apply StronglySorted_merge_sort; apply _.
  - rewrite merge_sort_Permutation. apply NoDup_select.
Qed.

Lemma elem_all_below before r :
  r ∈ all_below before ↔ in_scope_query q r = true ∧ below before r = true ∧ s_rows s !! m_id (r_memory r) = Some r.
Proof using Hwf. unfold all_below. rewrite merge_sort_Permutation, elem_select, andb_true_iff. tauto. Qed.

Lemma below_older before r x : below before r = true → older r x = true → below before x = true.
Proof.
  destruct before as [[t i]|]; [|done]. intros Hr Hx.
  assert (∀ y : memory_row, below (Some (t, i)) y = true ↔
    (m_created_at (r_memory y) < t ∨ m_created_at (r_memory y) = t ∧ str_le (m_id (r_memory y)) i ∧ m_id (r_memory y) ≠ i))
    as Hb.
  { intros y. unfold below. rewrite orb_true_iff, andb_true_iff, Z.ltb_lt, Z.eqb_eq, str_lt_spec. tauto. }
  apply Hb in Hr. apply Hb. apply older_spec in Hx as [Hx Hne]. unfold newest_first, created_le, keyset in *.
  destruct Hr as [Hr|(Hr & Hri & Hrn)], Hx as [Hx|[Hx Hxi]]; try (left; lia).
  right. split_and!; [lia|by etrans|]. intros Heq. rewrite Heq in Hxi. apply Hrn. by apply (anti_symm str_le).
Qed.

(** What is below a row of the listing is the rest of the listing. *)
Lemma all_below_next before r :
  r ∈ all_below before → all_below (Some (keyset r)) = filter (λ x, older r x = true) (all_below before).
Proof using Hwf.
  intros (_ & Hr & _)%elem_all_below. unfold all_below. rewrite <- merge_sort_filter.
  - f_equal. unfold select. rewrite list_filter_filter. apply list_filter_iff. intros x.
    rewrite !andb_true_iff. fold (older r x). split; [|tauto].
    intros [Hq Ho]. split_and!; [done..|]. by eapply below_older.
  - apply _.
  - apply _.
  - intros x y. apply select_anti.
Qed.

Lemma drop_all_below before n r :
  last (take n (all_below before)) = Some r → drop n (all_below before) = all_below (Some (keyset r)).
Proof using Hwf.
  intros Hlast. rewrite (all_below_next before r).
  - apply drop_after; [apply older_asym|apply older_irrefl|apply all_below_strict|done].
  - apply last_Some in Hlast as [l Hl]. rewrite <- (take_drop n (all_below before)), Hl, !elem_of_app. left. right. by left.
Qed.

Variable now : Z.
Abbreviation valid := (λ r, negb (invalid_derived now r)).

Lemma list_scope_from_spec fuel before wanted :
  (length (all_below before) < fuel)%nat →
  list_scope_from fuel now q before wanted s = Some (take wanted (filter (λ r, valid r = true) (all_below before))).
Proof using Hwf.
  revert before wanted. induction fuel as [|fuel IH]; intros before wanted Hfuel; [lia|].
  destruct wanted as [|w]; [done|]. cbn [list_scope_from].
  set (wanted := S w) in *. set (L := all_below before) in *. change (page q before wanted s) with (take wanted L).
  replace (filter (λ r, invalid_derived now r = false) (take wanted L)) with
    (filter (λ r, valid r = true) (take wanted L)) by (apply list_filter_iff; intros x; by rewrite negb_true_iff).
  assert (length (filter (λ r, valid r = true) (take wanted L)) ≤ wanted)%nat as Hv.
  { etrans; [apply length_filter|]. rewrite length_take. lia. }
  destruct (Nat.ltb_spec (length (take wanted L)) wanted) as [Hlt|Hge].
  - rewrite length_take in Hlt. rewrite (take_ge L) in * by lia. by rewrite take_ge.
  - destruct (last (take wanted L)) as [r|] eqn:Hlast.
    2: { apply last_None in Hlast. rewrite Hlast in Hge. simpl in Hge. lia. }
    pose proof (drop_all_below before wanted r Hlast) as Hdrop. fold L in Hdrop.
    rewrite length_take in Hge. rewrite IH.
    + simpl. f_equal. rewrite <- Hdrop. by apply (take_filter_pages valid).
    + rewrite <- Hdrop, length_drop. lia.
Qed.

Lemma length_all_below before : (length (all_below before) ≤ size (s_rows s))%nat.
Proof.
  unfold all_below. rewrite merge_sort_Permutation. unfold select. etrans; [apply length_filter|].
  unfold rows. rewrite length_fmap. by rewrite length_map_to_list.
Qed.

(** [list_scope] returns, and returns the newest valid rows before the keyset. *)
Lemma list_scope_spec before limit :
  sq_scope_keys q ≠ [] →
  list_scope now q before limit s = Some (take limit (filter (λ r, valid r = true) (all_below before))).
Proof using Hwf.
  intros Hkeys. unfold list_scope. destruct (sq_scope_keys q) as [|k ks] eqn:E; [done|].
  apply list_scope_from_spec. pose proof (length_all_below before). lia.
Qed.
End pages.

(** ** Lemmas: what is derived from what *)

(** The relation the recursive query computes. *)
Inductive derives (deps : list dependency) (t : string) (sources : list string) : string → Prop :=
| derives_source d :
    d ∈ deps → dp_tenant d = t → dp_source d ∈ sources → derives deps t sources (dp_derived d)
| derives_derived d :
    d ∈ deps → dp_tenant d = t → derives deps t sources (dp_source d) → derives deps t sources (dp_derived d).

Lemma elem_derived_from deps t ids x :
  x ∈ derived_from deps t ids ↔ ∃ d, d ∈ deps ∧ dp_tenant d = t ∧ dp_source d ∈ ids ∧ x = dp_derived d.
Proof.
  unfold derived_from. rewrite elem_of_list_to_set, list_elem_of_fmap. split.
  - intros (d & -> & [[Ht Hs] Hd]%list_elem_of_filter). by exists d.
  - intros (d & Hd & Ht & Hs & ->). exists d. split; [done|]. by apply list_elem_of_filter.
Qed.

Lemma size_list_to_set_le (l : list string) : (size (list_to_set l : gset string) ≤ length l)%nat.
Proof.
  induction l as [|x l IH]; [done|]. cbn [list_to_set length].
  rewrite size_union_alt, size_singleton.
  assert (size ((list_to_set l : gset string) ∖ {[x]}) ≤ size (list_to_set l : gset string))%nat; [|lia].
  apply subseteq_size. set_solver.
Qed.

(** Adding what a step gives, within a set of at most [n] elements, is done after
    [n] rounds. *)
Lemma iter_fixed (f : gset string → gset string) (U : gset string) n (X : gset string) :
  X ⊆ U → (∀ Y, Y ⊆ U → f Y ⊆ U) → (size U ≤ n)%nat →
  f (Nat.iter n (λ Y, Y ∪ f Y) X) ⊆ Nat.iter n (λ Y, Y ∪ f Y) X.
Proof.
  intros HX Hf Hn. set (it k := Nat.iter k (λ Y, Y ∪ f Y) X).
  assert (∀ k, it k ⊆ U) as Hsub.
  { induction k as [|k IH]; [done|]. change (it k ∪ f (it k) ⊆ U). apply union_least; [done|by apply Hf]. }
  assert (∀ k, f (it k) ⊆ it k ∨ k ≤ size (it k))%nat as Hgrow.
  { induction k as [|k IH]; [right; lia|]. change (it (S k)) with (it k ∪ f (it k)).
    destruct (decide (f (it k) ⊆ it k)) as [Hfix|Hnf].
    - left. replace (it k ∪ f (it k)) with (it k); [done|]. symmetry. apply leibniz_equiv.
      intros x. rewrite elem_of_union. split; [intros [?|?]; [done|by apply Hfix]|by left].
    - right. destruct IH as [|IH]; [done|].
      assert (size (it k) < size (it k ∪ f (it k)))%nat; [|lia]. apply subset_size. split; [by apply union_subseteq_l|].
      intros Hle. apply Hnf. etrans; [|exact Hle]. apply union_subseteq_r. }
  change (f (it n) ⊆ it n). destruct (Hgrow n) as [|Hsize]; [done|].
  assert (it n = U) as HU.
  { apply leibniz_equiv. intros x. split; [apply Hsub|]. intros Hx. apply dec_stable. intros Hni.
    assert (size (it n) < size U)%nat; [|lia]. apply subset_size. split; [apply Hsub|]. intros Hle. by apply Hni, Hle. }
  rewrite HU. by apply Hf.
Qed.

Lemma affected_spec deps t sources x : x ∈ affected deps t sources ↔ derives deps t sources x.
Proof.
  unfold affected. set (f := derived_from deps t). set (X := f (list_to_set sources)). split.
  - intros Hx.
    assert (∀ k y, y ∈ Nat.iter k (λ Y, Y ∪ f Y) X → derives deps t sources y) as Hall; [|by eapply Hall].
    induction k as [|k IH]; intros y Hy.
    + apply elem_derived_from in Hy as (d & Hd & Ht & Hs & ->). rewrite elem_of_list_to_set in Hs.
      by apply derives_source.
    + change (y ∈ Nat.iter k (λ Y, Y ∪ f Y) X ∪ f (Nat.iter k (λ Y, Y ∪ f Y) X)) in Hy.
      apply elem_of_union in Hy as [Hy|(d & Hd & Ht & Hs & ->)%elem_derived_from]; [by apply IH|].
      apply derives_derived; [done..|]. by apply IH.
  - assert (f (Nat.iter (length deps) (λ Y, Y ∪ f Y) X) ⊆ Nat.iter (length deps) (λ Y, Y ∪ f Y) X) as Hfix.
    { apply (iter_fixed f (list_to_set (dp_derived <$> deps))).
      - intros y (d & Hd & _ & _ & ->)%elem_derived_from. rewrite elem_of_list_to_set. by apply list_elem_of_fmap_2.
      - intros Y _ y (d & Hd & _ & _ & ->)%elem_derived_from. rewrite elem_of_list_to_set. by apply list_elem_of_fmap_2.
      - etrans; [apply size_list_to_set_le|]. by rewrite length_fmap. }
    assert (X ⊆ Nat.iter (length deps) (λ Y, Y ∪ f Y) X) as HX.
    { generalize (length deps) as k. induction k as [|k IH]; [done|].
      change (X ⊆ Nat.iter k (λ Y, Y ∪ f Y) X ∪ f (Nat.iter k (λ Y, Y ∪ f Y) X)). etrans; [exact IH|apply union_subseteq_l]. }
    induction 1 as [d Hd Ht Hs|d Hd Ht _ IH].
    + apply HX, elem_derived_from. exists d. rewrite elem_of_list_to_set. done.
    + apply Hfix, elem_derived_from. by exists d.
Qed.

(** ** Lemmas: what a write does to the rows *)

Lemma retract_row_cases now t ids r :
  retract_row now t ids r = r ∨
  hit t ids r = true ∧ retract_row now t ids r = map_row (with_status RETRACTED now) r.
Proof. unfold retract_row. destruct (hit t ids r); auto. Qed.

(** What no retraction changes. *)
Lemma retract_row_keeps now t ids r :
  m_id (r_memory (retract_row now t ids r)) = m_id (r_memory r) ∧
  m_tenant (r_memory (retract_row now t ids r)) = m_tenant (r_memory r) ∧
  deleted (retract_row now t ids r) = deleted r ∧
  r_visibility_keys (retract_row now t ids r) = r_visibility_keys r.
Proof. by destruct (retract_row_cases now t ids r) as [->|[_ ->]]. Qed.

Lemma retract_row_status now t ids r :
  status_of (retract_row now t ids r) =
  if bool_decide (m_tenant (r_memory r) = t) && bool_decide (m_id (r_memory r) ∈ ids) then RETRACTED else status_of r.
Proof.
  unfold retract_row, hit. destruct (bool_decide (m_tenant _ = t)); [|done]. cbn [andb].
  case_bool_decide as Hs; case_bool_decide; done.
Qed.

Lemma invalidate_dependents_spec now t ids s :
  ids ≠ [] → ∃ s', invalidate_dependents now t ids s = (Ok tt, s') ∧ s_dependencies s' = s_dependencies s ∧
    s_rows s' = retract_row now t (affected (s_dependencies s) t ids) <$> s_rows s.
Proof. intros Hids. destruct ids as [|i ids]; [done|]. by eexists. Qed.

(** The rows after the row of [m] is written as [r]. *)
Definition rows_after (now : Z) (t i : string) (r : memory_row) (s : session) : gmap string memory_row :=
  retract_row now t (affected (s_dependencies s) t [i]) <$> <[i := r]> (s_rows s).

Lemma update_spec (detect_language : string → string) now m s :
  match update detect_language now m s with
  | (Ok _, s') =>
      ∃ r, s_rows s !! m_id m = Some r ∧ m_tenant (r_memory r) = m_tenant m ∧
        s_dependencies s' = s_dependencies s ∧
        s_rows s' = rows_after now (m_tenant m) (m_id m) (updated_row detect_language m r) s
  | (Raise _, s') => s' = s
  end.
Proof.
  unfold update. destruct (s_rows s !! m_id m) as [r|] eqn:Hr; [|done].
  destruct (String.eqb_spec (m_tenant (r_memory r)) (m_tenant m)) as [Ht|Ht]; [|done]. cbn [negb].
  destruct (slot_taken _ s); [done|].
  destruct (invalidate_dependents_spec now (m_tenant m) [m_id m] (set_s_rows (<[m_id m := updated_row detect_language m r]> (s_rows s)) s))
    as (s' & Hinv & Hdeps & Hrows); [done|].
  erewrite bind_ok; [|exact Hinv]. by exists r.
Qed.

Lemma own_row_spec t i s r :
  own_row t i s = Some r ↔ s_rows s !! i = Some r ∧ m_tenant (r_memory r) = t ∧ deleted r = None.
Proof.
  unfold own_row, live. destruct (s_rows s !! i) as [r'|]; [|naive_solver].
  destruct (String.eqb_spec (m_tenant (r_memory r')) t); case_bool_decide; naive_solver.
Qed.

Lemma forget_spec now t i s :
  match own_row t i s with
  | Some r => ∃ s', forget now t i s = (Ok true, s') ∧ s_dependencies s' = s_dependencies s ∧
                s_rows s' = rows_after now t i (forgotten_row now r) s
  | None => forget now t i s = (Ok false, s)
  end.
Proof.
  unfold forget. destruct (own_row t i s) as [r|] eqn:Hr; [|done].
  destruct (invalidate_dependents_spec now t [i] (set_s_rows (<[i := forgotten_row now r]> (s_rows s)) s))
    as (s' & Hinv & Hdeps & Hrows); [done|]. exists s'. by erewrite bind_ok; [|exact Hinv].
Qed.

Lemma rows_after_lookup now t i r s j :
  rows_after now t i r s !! j =
  retract_row now t (affected (s_dependencies s) t [i]) <$> (if decide (i = j) then Some r else s_rows s !! j).
Proof. unfold rows_after. by rewrite lookup_fmap, lookup_insert. Qed.

Lemma rows_after_wf now t i r s s' :
  rows_wf s → m_id (r_memory r) = i → s_rows s' = rows_after now t i r s → rows_wf s'.
Proof.
  intros Hwf Hid Hrows j x Hx. rewrite Hrows, rows_after_lookup in Hx. apply fmap_Some in Hx as (y & Hy & ->).
  rewrite (proj1 (retract_row_keeps _ _ _ y)). destruct (decide (i = j)) as [<-|]; [by injection Hy as <-|by apply Hwf].
Qed.

(** ** Lemmas: what stays gone *)

Definition has_row (t i : string) (s : session) : Prop :=
  ∃ r, s_rows s !! i = Some r ∧ m_tenant (r_memory r) = t.
Definition gone (t i : string) (s : session) : Prop :=
  ∃ r, s_rows s !! i = Some r ∧ m_tenant (r_memory r) = t ∧ is_Some (deleted r).
Definition retracted (t i : string) (s : session) : Prop :=
  ∃ r, s_rows s !! i = Some r ∧ m_tenant (r_memory r) = t ∧ status_of r = RETRACTED.

(** A memory nothing was derived into: what its own writes alone decide. *)
Definition underived (i : string) (s : session) : Prop := Forall (λ d, dp_derived d ≠ i) (s_dependencies s).

Lemma derives_underived deps t ids x : Forall (λ d, dp_derived d ≠ x) deps → ¬ derives deps t ids x.
Proof. intros Hall Hd. rewrite Forall_forall in Hall. destruct Hd as [d Hd|d Hd]; by eapply Hall. Qed.

Lemma derives_one deps t ids x : derives deps t ids x → ∃ i, i ∈ ids ∧ derives deps t [i] x.
Proof.
  induction 1 as [d Hd Ht Hs|d Hd Ht _ (i & Hi & IH)].
  - exists (dp_source d). split; [done|]. apply derives_source; [done..|]. by left.
  - exists i. split; [done|]. by apply derives_derived.
Qed.

(** A write of the row [r] under [i], what was there being [o]. *)
Section after.
Context (now : Z) (t i : string) (o r : memory_row) (s s' : session).
Hypothesis (Ho : s_rows s !! i = Some o) (Hten : m_tenant (r_memory r) = m_tenant (r_memory o)).
Hypothesis (Hrows : s_rows s' = rows_after now t i r s).

Lemma after_lookup j x :
  (if decide (i = j) then Some r else s_rows s !! j) = Some x →
  s_rows s' !! j = Some (retract_row now t (affected (s_dependencies s) t [i]) x).
Proof using Hrows. intros Hx. by rewrite Hrows, rows_after_lookup, Hx. Qed.

Lemma after_has_row t' j : has_row t' j s → has_row t' j s'.
Proof using Ho Hten Hrows.
  intros (x & Hx & Ht). destruct (decide (i = j)) as [<-|Hne].
  - eexists. split; [apply after_lookup; by rewrite decide_True|].
    rewrite (proj1 (proj2 (retract_row_keeps _ _ _ r))). congruence.
  - eexists. split; [apply after_lookup; by rewrite decide_False|]. by rewrite (proj1 (proj2 (retract_row_keeps _ _ _ x))).
Qed.

Lemma after_gone t' j : (is_Some (deleted o) → is_Some (deleted r)) → gone t' j s → gone t' j s'.
Proof using Ho Hten Hrows.
  intros Hdel (x & Hx & Ht & Hd). destruct (decide (i = j)) as [<-|Hne].
  - eexists. split; [apply after_lookup; by rewrite decide_True|].
    pose proof (retract_row_keeps now t (affected (s_dependencies s) t [i]) r) as (_ & -> & -> & _).
    rewrite Ho in Hx. injection Hx as <-. split; [congruence|by apply Hdel].
  - eexists. split; [apply after_lookup; by rewrite decide_False|].
    by pose proof (retract_row_keeps now t (affected (s_dependencies s) t [i]) x) as (_ & -> & -> & _).
Qed.

Lemma after_retracted t' j :
  (i = j → status_of o = RETRACTED → status_of r = RETRACTED) → retracted t' j s → retracted t' j s'.
Proof using Ho Hten Hrows.
  intros Hst (x & Hx & Ht & Hd). destruct (decide (i = j)) as [<-|Hne].
  - eexists. split; [apply after_lookup; by rewrite decide_True|].
    rewrite (proj1 (proj2 (retract_row_keeps _ _ _ r))), retract_row_status.
    rewrite Ho in Hx. injection Hx as <-. split; [congruence|]. destruct (_ && _); [done|by apply Hst].
  - eexists. split; [apply after_lookup; by rewrite decide_False|].
    rewrite (proj1 (proj2 (retract_row_keeps _ _ _ x))), retract_row_status. split; [done|]. by destruct (_ && _).
Qed.

(** Everything derived from what was written is retracted. *)
Lemma after_derived x :
  rows_wf s → m_id (r_memory r) = i → derives (s_dependencies s) t [i] x → has_row t x s → retracted t x s'.
Proof using Ho Hten Hrows.
  intros Hwf Hid Hd (y & Hy & Ht). apply affected_spec in Hd.
  assert (∃ z, (if decide (i = x) then Some r else s_rows s !! x) = Some z ∧ m_tenant (r_memory z) = t ∧ m_id (r_memory z) = x)
    as (z & Hz & Hzt & Hzi).
  { destruct (decide (i = x)) as [<-|Hne]; [exists r|exists y]; split_and!; try done; [congruence|by apply Hwf]. }
  eexists. split; [by apply after_lookup|].
  rewrite (proj1 (proj2 (retract_row_keeps _ _ _ z))), retract_row_status. split; [done|].
  by rewrite Hzt, Hzi, !bool_decide_eq_true_2.
Qed.

(** A memory nothing derives is left as it was written. *)
Lemma after_underived j x :
  underived j s → rows_wf s → m_id (r_memory r) = i →
  (if decide (i = j) then Some r else s_rows s !! j) = Some x → s_rows s' !! j = Some x.
Proof using Hrows.
  intros Hund Hwf Hid Hx. rewrite (after_lookup j x Hx). f_equal.
  destruct (retract_row_cases now t (affected (s_dependencies s) t [i]) x) as [->|[Hhit _]]; [done|].
  unfold hit in Hhit. apply andb_true_iff in Hhit as [_ Hin%bool_decide_eq_true%affected_spec].
  exfalso. eapply derives_underived; [|exact Hin].
  assert (m_id (r_memory x) = j) as ->; [|exact Hund].
  destruct (decide (i = j)) as [<-|]; [by injection Hx as <-|by apply Hwf].
Qed.
End after.

(** What a run of writes keeps: the rows and the derivations, and what is gone or
    retracted. *)
Record keeps_gone (s s' : session) : Prop := {
  kg_wf : rows_wf s';
  kg_deps : s_dependencies s' = s_dependencies s;
  kg_has t i : has_row t i s → has_row t i s';
  kg_gone t i : gone t i s → gone t i s';
}.

Lemma keeps_gone_refl s : rows_wf s → keeps_gone s s.
Proof. by split. Qed.

Lemma keeps_gone_trans s1 s2 s3 : keeps_gone s1 s2 → keeps_gone s2 s3 → keeps_gone s1 s3.
Proof. intros [] []. split; [done|congruence|auto..]. Qed.

Lemma forget_keeps now t i s : rows_wf s →
  ∃ b s', forget now t i s = (Ok b, s') ∧ keeps_gone s s' ∧
    (∀ t' j, retracted t' j s → retracted t' j s') ∧
    (∀ j r, j ≠ i → own_row t j s = Some r → ∃ r', own_row t j s' = Some r') ∧
    (∀ r, own_row t i s = Some r → gone t i s' ∧ retracted t i s' ∧
       ∀ x, derives (s_dependencies s) t [i] x → has_row t x s → retracted t x s').
Proof.
  intros Hwf. pose proof (forget_spec now t i s) as Hspec. destruct (own_row t i s) as [r|] eqn:Hown.
  2: { exists false, s. split_and!; [done|by apply keeps_gone_refl|done|eauto|done]. }
  destruct Hspec as (s' & Hrun & Hdeps & Hrows). exists true, s'.
  apply own_row_spec in Hown as (Ho & Ht & Hlive).
  assert (m_id (r_memory (forgotten_row now r)) = i) as Hid by by apply (Hwf i r).
  split_and!; [done| | | |].
  - split; [by eapply rows_after_wf|done|..].
    + apply (after_has_row now t i r (forgotten_row now r) s s' Ho eq_refl Hrows).
    + intros t' j. apply (after_gone now t i r (forgotten_row now r) s s' Ho eq_refl Hrows). by eexists.
  - intros t' j. by apply (after_retracted now t i r (forgotten_row now r) s s' Ho eq_refl Hrows).
  - intros j x Hne (Hx & Htx & Hdx)%own_row_spec. eexists. apply own_row_spec.
    split; [eapply (after_lookup now t i _ s s' Hrows); by rewrite decide_False|].
    by pose proof (retract_row_keeps now t (affected (s_dependencies s) t [i]) x) as (_ & -> & -> & _).
  - intros r' [= <-].
    assert (s_rows s' !! i = Some (retract_row now t (affected (s_dependencies s) t [i]) (forgotten_row now r))) as Hi
      by (eapply after_lookup; [exact Hrows|by rewrite decide_True]).
    pose proof (retract_row_keeps now t (affected (s_dependencies s) t [i]) (forgotten_row now r)) as (_ & Hkt & Hkd & _).
    split_and!.
    + eexists. split; [exact Hi|]. rewrite Hkt, Hkd. split; [done|by eexists].
    + eexists. split; [exact Hi|]. rewrite Hkt, retract_row_status. split; [done|by destruct (_ && _)].
    + intros x Hd Hx. by apply (after_derived now t i r (forgotten_row now r) s s' Ho eq_refl Hrows).
Qed.

(** Forgetting some memories forgets each of them and retracts whatever was
    derived from any. *)
Lemma forget_all_spec now t ids s : rows_wf s →
  ∃ s', forget_all now t ids s = (Ok tt, s') ∧ keeps_gone s s' ∧
    (∀ t' j, retracted t' j s → retracted t' j s') ∧
    (NoDup ids → (∀ i, i ∈ ids → is_Some (own_row t i s)) →
     (∀ i, i ∈ ids → gone t i s' ∧ retracted t i s') ∧
     (∀ x, derives (s_dependencies s) t ids x → has_row t x s → retracted t x s')).
Proof.
  intros Hwf. revert s Hwf. induction ids as [|i ids IH]; intros s Hwf.
  { exists s. split_and!; [done|by apply keeps_gone_refl|done|]. intros _ _. split; [by intros i ?%elem_of_nil|].
    intros x (i & Hi & _)%derives_one. by apply elem_of_nil in Hi. }
  destruct (forget_keeps now t i s Hwf) as (b & s1 & Hrun & Hk & Hret & Hlive & Hdone).
  destruct (IH s1 (kg_wf _ _ Hk)) as (s' & Hrest & Hk' & Hret' & Hall). exists s'. split_and!.
  - unfold forget_all in *. cbn [mapM_]. erewrite bind_ok; [exact Hrest|]. by erewrite bind_ok; [|exact Hrun].
  - by eapply keeps_gone_trans.
  - auto.
  - intros [Hni Hnd]%NoDup_cons Hown. destruct (Hown i) as [r Hr]; [by left|]. destruct (Hdone r Hr) as (Hg & Hr' & Hx).
    destruct Hall as [Hall Hder]; [done| |].
    { intros j Hj. destruct (Hown j) as [y Hy]; [by right|]. destruct (Hlive j y) as [z Hz]; [by intros ->|done|by eexists]. }
    split.
    + intros j [->|Hj]%elem_of_cons; [|by apply Hall]. split; [by apply (kg_gone _ _ Hk')|by apply Hret'].
    + intros x (j & [->|Hj]%elem_of_cons & Hd)%derives_one Hxr; [by apply Hret', Hx|].
      apply Hder; [|by apply (kg_has _ _ Hk)]. rewrite (kg_deps _ _ Hk).
      clear -Hj Hd. induction Hd as [d Hd Ht Hs%list_elem_of_singleton|d Hd Ht _ IHd]; [apply derives_source; by rewrite ?Hs|].
      by apply derives_derived.
Qed.

Lemma NoDup_select_ids s p : rows_wf s → NoDup ((λ r, m_id (r_memory r)) <$> select p s).
Proof.
  intros Hwf. apply NoDup_fmap_2_strong; [|by apply NoDup_select].
  intros x y [_ Hx]%(elem_select s Hwf) [_ Hy]%(elem_select s Hwf) Heq. congruence.
Qed.

Lemma forget_all_frame now t ids s j : rows_wf s → underived j s → j ∉ ids →
  s_rows (snd (forget_all now t ids s)) !! j = s_rows s !! j.
Proof.
  revert s. induction ids as [|i ids IH]; intros s Hwf Hund Hni; [done|]. apply not_elem_of_cons in Hni as [Hne Hni].
  destruct (forget_keeps now t i s Hwf) as (b & s1 & Hrun & Hk & _).
  assert (s_rows s1 !! j = s_rows s !! j) as Hj.
  { pose proof (forget_spec now t i s) as Hspec. destruct (own_row t i s) as [r|] eqn:Hown.
    - destruct Hspec as (s2 & Hrun2 & _ & Hrows). rewrite Hrun in Hrun2. injection Hrun2 as _ <-.
      apply own_row_spec in Hown as (Ho & _ & _). destruct (s_rows s !! j) as [x|] eqn:Hx.
      + apply (after_underived now t i (forgotten_row now r) s s1 Hrows); [done|done| |by rewrite decide_False].
        by apply (Hwf i r).
      + by rewrite Hrows, rows_after_lookup, decide_False, Hx.
    - rewrite Hrun in Hspec. by injection Hspec as _ ->. }
  unfold forget_all in *. cbn [mapM_]. erewrite (bind_ok (bind _ _)); [|by erewrite bind_ok; [|exact Hrun]].
  rewrite IH; [done|by apply (kg_wf _ _ Hk)|unfold underived; by rewrite (kg_deps _ _ Hk)|done].
Qed.

Section update_lemmas.
Variable detect_language : string → string.

Lemma update_keeps now m s : rows_wf s →
  let '(r, s') := update detect_language now m s in
  keeps_gone s s' ∧
  (∀ t' j, (m_id m = j → t_status (m_temporal m) = RETRACTED) → retracted t' j s → retracted t' j s') ∧
  (∀ j, underived j s → match r with
     | Ok _ => s_rows s' !! j =
         if decide (m_id m = j) then updated_row detect_language m <$> (s_rows s !! j) else s_rows s !! j
     | Raise _ => True
     end).
Proof.
  intros Hwf. pose proof (update_spec detect_language now m s) as Hspec.
  destruct (update detect_language now m s) as [[m'|e] s']; [|subst s'; split_and!; [by apply keeps_gone_refl|done|done]].
  destruct Hspec as (o & Ho & Ht & Hdeps & Hrows). set (r := updated_row detect_language m o) in *.
  assert (m_id (r_memory r) = m_id m) as Hid by by apply (Hwf _ o Ho).
  split_and!.
  - split; [by eapply rows_after_wf|done|..].
    + apply (after_has_row now _ _ o r s s' Ho eq_refl Hrows).
    + intros t' j. exact (after_gone now _ _ o r s s' Ho eq_refl Hrows t' j (λ Hd, Hd)).
  - intros t' j Hst. exact (after_retracted now _ _ o r s s' Ho eq_refl Hrows t' j (λ Heq _, Hst Heq)).
  - intros j Hund. destruct (decide (m_id m = j)) as [<-|Hne].
    + rewrite Ho. apply (after_underived now (m_tenant m) (m_id m) r s s' Hrows); try done. by rewrite decide_True.
    + destruct (s_rows s !! j) as [x|] eqn:Hx.
      * apply (after_underived now (m_tenant m) (m_id m) r s s' Hrows); try done. by rewrite decide_False.
      * by rewrite Hrows, rows_after_lookup, decide_False, Hx.
Qed.

(** A run of updates: what is gone stays gone, what is retracted and written as
    retracted stays so, and a memory nothing derives is as the one update of it
    left it. *)
Lemma update_all_spec now l s s' : rows_wf s →
  update_all detect_language now l s = (Ok tt, s') →
  keeps_gone s s' ∧
  (∀ t' j, (∀ m, m ∈ l → m_id m = j → t_status (m_temporal m) = RETRACTED) → retracted t' j s → retracted t' j s') ∧
  (NoDup (m_id <$> l) → ∀ j, underived j s →
     (∀ m, m ∈ l → m_id m = j → s_rows s' !! j = updated_row detect_language m <$> (s_rows s !! j)) ∧
     (j ∉ m_id <$> l → s_rows s' !! j = s_rows s !! j)).
Proof.
  revert s. induction l as [|m l IH]; intros s Hwf Hrun.
  { injection Hrun as <-. split_and!; [by apply keeps_gone_refl|done|]. intros _ j _. split; [by intros m ?%elem_of_nil|done]. }
  unfold update_all in *. cbn [mapM_] in Hrun. unfold bind at 1 2 in Hrun.
  pose proof (update_keeps now m s Hwf) as Hm. destruct (update detect_language now m s) as [[m'|e] s1]; [|done].
  destruct Hm as (Hk & Hret & Hrow). cbn [ret] in Hrun. destruct (IH s1 (kg_wf _ _ Hk) Hrun) as (Hk' & Hret' & Hrow').
  split_and!.
  - by eapply keeps_gone_trans.
  - intros t' j Hst Hj. apply Hret'; [intros x Hx; apply Hst; by right|]. apply Hret; [|done]. apply Hst. by left.
  - intros [Hni Hnd]%NoDup_cons j Hund. specialize (Hrow j Hund).
    destruct (Hrow' Hnd j) as [Hin Hout]; [unfold underived; by rewrite (kg_deps _ _ Hk)|]. split.
    + intros x [->|Hx]%elem_of_cons Hid.
      * rewrite Hout by by subst j. by rewrite Hrow, decide_True.
      * rewrite (Hin x Hx Hid), Hrow, decide_False; [done|]. intros Heq. apply Hni. rewrite Heq, <- Hid.
        by apply list_elem_of_fmap_2.
    + intros [Hne Hnj]%not_elem_of_cons. rewrite Hout, Hrow by done. by rewrite decide_False by congruence.
Qed.

(** What is derived from a memory that is written, and not itself written, is
    retracted. *)
Lemma update_all_derived now l s s' t m x : rows_wf s →
  update_all detect_language now l s = (Ok tt, s') → m ∈ l → m_tenant m = t → (∀ y, y ∈ l → m_id y ≠ x) →
  derives (s_dependencies s) t [m_id m] x → has_row t x s → retracted t x s'.
Proof.
  revert s. induction l as [|y l IH]; intros s Hwf Hrun Hm Ht Hout Hd Hx; [by apply elem_of_nil in Hm|].
  unfold update_all in *. cbn [mapM_] in Hrun. unfold bind at 1 2 in Hrun.
  pose proof (update_keeps now y s Hwf) as Hy. pose proof (update_spec detect_language now y s) as Hspec.
  destruct (update detect_language now y s) as [[y'|e] s1]; [|done]. cbn [ret] in Hrun.
  destruct Hy as (Hk & _ & _). destruct Hspec as (o & Ho & Hten & Hdeps & Hrows).
  apply elem_of_cons in Hm as [<-|Hm].
  - destruct (update_all_spec now l s1 s' (kg_wf _ _ Hk) Hrun) as (_ & Hret & _). apply Hret.
    + intros z Hz Hid. exfalso. by apply (Hout z); [right|].
    + rewrite Ht in *.
      refine (after_derived now t (m_id m) o (updated_row detect_language m o) s s1 Ho eq_refl _ x Hwf _ Hd Hx).
      * rewrite Hrows. done.
      * by apply (Hwf _ o Ho).
  - apply (IH s1 (kg_wf _ _ Hk) Hrun Hm Ht); [intros z Hz; apply Hout; by right|by rewrite (kg_deps _ _ Hk)|
      by apply (kg_has _ _ Hk)].
Qed.
End update_lemmas.

(** A memory that cites no memory is added as it is, under an id not taken. *)
Lemma add_spec now m keys s : source_ids m = [] → sm_derived_slot (m_meta m) = None →
  add now m keys s =
  match s_rows s !! m_id m with
  | Some _ => (Raise IntegrityError, s)
  | None => (Ok tt, set_s_rows (<[m_id m := row_of m keys]> (s_rows s)) s)
  end.
Proof.
  intros Hids Hslot. unfold add. erewrite bind_ok; [|unfold source_rows; rewrite Hids; reflexivity].
  unfold slot_taken. cbn [r_derived_slot row_of]. rewrite Hslot, orb_false_r.
  destruct (s_rows s !! m_id m); [done|]. simpl. by rewrite app_nil_r.
Qed.

Lemma head_ordered {A} (R : A → A → Prop) `{∀ x y, Decision (R x y)} (l : list A) x :
  x ∈ l → (∀ y, y ∈ l → y = x) → head (ordered R (Some 1%nat) l) = Some x.
Proof.
  intros Hx Hall. unfold ordered. destruct (merge_sort R l) as [|y l'] eqn:E.
  - rewrite <- (merge_sort_Permutation R l), E in Hx. by apply elem_of_nil in Hx.
  - simpl. rewrite (Hall y); [done|]. rewrite <- (merge_sort_Permutation R l), E. by left.
Qed.

Lemma head_ordered_none {A} (R : A → A → Prop) `{∀ x y, Decision (R x y)} (l : list A) :
  head (ordered R (Some 1%nat) l) = None → l = [].
Proof.
  unfold ordered. destruct (merge_sort R l) as [|y l'] eqn:E; [|done]. intros _. apply Permutation_nil.
  by rewrite <- E, merge_sort_Permutation.
Qed.

(** The one current statement with its words, once it is there. *)
Lemma current_with_hash_added t key owner hash s row : rows_wf s →
  current_with_hash t key owner hash s = (Ok None, s) → same_statement t key owner hash row = true →
  s_rows s !! m_id (r_memory row) = None →
  let s' := set_s_rows (<[m_id (r_memory row) := row]> (s_rows s)) s in
  current_with_hash t key owner hash s' = (Ok (Some (to_domain row)), s').
Proof.
  intros Hwf Hnone Hrow Hfresh s'. assert (rows_wf s') as Hwf'.
  { intros i r. cbn. rewrite lookup_insert_Some. intros [[<- <-]|[_ Hr]]; [done|by apply Hwf]. }
  unfold current_with_hash, gets in *. injection Hnone as Hnone. apply fmap_None, head_ordered_none in Hnone.
  rewrite (head_ordered _ _ row); [done| |].
  - apply (elem_select _ Hwf'). split; [done|]. cbn. by rewrite lookup_insert_eq.
  - intros y [Hy Hrow']%(elem_select _ Hwf'). cbn in Hrow'. rewrite lookup_insert_Some in Hrow'.
    destruct Hrow' as [[_ Heq]|[_ Hold]]; [done|].
    assert (y ∈ select (same_statement t key owner hash) s) as Hin by by apply (elem_select _ Hwf).
    rewrite Hnone in Hin. by apply elem_of_nil in Hin.
Qed.

(** A memory and the other rows that keep the same statement. *)
Definition with_twins (t : string) (m : CanonicalMemory) (current_only : bool) (s : session) : list CanonicalMemory :=
  m :: (to_domain <$> select (twin_of t m current_only) s).

Lemma with_twins_rows now id t b old ses : rows_wf ses → get now t id ses = (Ok (Some old), ses) →
  NoDup (m_id <$> with_twins t old b ses) ∧ m_id old = id ∧
  ∀ m, m ∈ with_twins t old b ses → ∃ r, m = to_domain r ∧ own_row t (m_id m) ses = Some r.
Proof.
  intros Hwf Hget. unfold get, gets in Hget. injection Hget as Hget.
  destruct (own_row t id ses) as [r0|] eqn:Hown; [|done]. destruct (invalid_derived now r0); [done|]. injection Hget as <-.
  pose proof Hown as Hown0. apply own_row_spec in Hown as (Hr0 & Ht0 & Hd0).
  assert (m_id (to_domain r0) = id) as Hid by by apply (Hwf id r0). split_and!; [|exact Hid|].
  - unfold with_twins. rewrite fmap_cons, <- list_fmap_compose. apply NoDup_cons. split; [|by apply NoDup_select_ids].
    intros (r & Hrid & [Hp _]%(elem_select _ Hwf))%list_elem_of_fmap. unfold twin_of in Hp.
    rewrite !andb_true_iff, !negb_true_iff, !bool_decide_eq_false in Hp. by apply Hp.
  - intros m [->|(r & -> & [Hp Hr]%(elem_select _ Hwf))%list_elem_of_fmap]%elem_of_cons; [exists r0; by rewrite Hid|].
    exists r. split; [done|]. apply own_row_spec. unfold twin_of, live in Hp.
    rewrite !andb_true_iff, !bool_decide_eq_true in Hp. split_and!; [done|tauto|tauto].
Qed.
