(* ===== verification/MemoryUow.v ===== *)
(** * MemoryUow: the table of memories inside a unit of work

    [SqlMemoryRepository] as [SqlUnitOfWork] holds it (adapters/db/uow.py): its
    rows are part of the database, what its writes invalidated is the unit's until
    the commit settles it. What the background sweeps share is here: running a
    repository operation inside a unit, the revisions their memories' readers are
    keyed on, and what a memory's row shows of its age and deletion. *)
From stdpp Require Import sorting.
From S2P Require Import Prelude Errors Visibility Revisions Tenancy TenancyRepo Tasks Outbox UnitOfWork MemoryModel MemoryRepo.
#[local] Open Scope Z_scope.

(** ** Definitions *)

(** The tables a sweep reads and writes. *)
Record tables := {
  tb_rows : gmap string memory_row;
  tb_dependencies : list dependency;
  tb_tenancy : tenancy_db;
}.

Definition set_memory_rows (r : gmap string memory_row) (deps : list dependency) (d : tables) : tables :=
  {| tb_rows := r; tb_dependencies := deps; tb_tenancy := tb_tenancy d |}.

(** The repository of a unit: its rows, and what it has invalidated so far. *)
Definition session_of (d : tables) (ids : list (string * list string)) (ms : list touched_memory) : session :=
  {| s_rows := tb_rows d; s_dependencies := tb_dependencies d; s_invalidated := ids; s_invalidated_memories := ms |}.

Section memory_uow.
Context {Q : Type} `{TaskQueue Q}.

Abbreviation unit_of_work := (uow tables Q).
Abbreviation wprog A := (prog unit_of_work A).

Definition memories_in {A} (m : mprog A) : wprog A := λ u,
  let d := d_rest (u_work u) in
  let '(r, s) := m (session_of d (u_invalidated u) (u_invalidated_memories u)) in
  (r, set_invalidated (s_invalidated_memories s) (s_invalidated s)
        (set_work (with_rest (set_memory_rows (s_rows s) (s_dependencies s) d) (u_work u)) u)).

Definition tenants_in {A} (m : tdb A) : wprog A :=
  work_rest (zoom tb_tenancy (λ x d, {| tb_rows := tb_rows d; tb_dependencies := tb_dependencies d; tb_tenancy := x |}) m).

(** [bump_memory_revisions]. *)
Definition bump_memories (l : list CanonicalMemory) : wprog unit := bump_touched (touched_revisions (touched_of <$> l)).
End memory_uow.

(** ** What a row shows of its age *)

Record age_view := { v_tenant : string; v_created : Z; v_deleted : option Z }.

Definition view_row (r : memory_row) : age_view :=
  {| v_tenant := m_tenant (r_memory r); v_created := m_created_at (r_memory r); v_deleted := deleted r |}.

Definition view (rows : gmap string memory_row) : gmap string age_view := view_row <$> rows.

(** A live memory marked deleted. *)
Definition strike (now : Z) (tenant_id : string) (v : age_view) : age_view :=
  if bool_decide (v_tenant v = tenant_id) && bool_decide (v_deleted v = None)
  then {| v_tenant := v_tenant v; v_created := v_created v; v_deleted := Some now |} else v.

Lemma view_retract now t ids rows : view (retract_row now t ids <$> rows) = view rows.
Proof.
  unfold view. rewrite <- map_fmap_compose. apply map_fmap_ext. intros i r _. simpl.
  unfold view_row. by destruct (retract_row_keeps now t ids r) as (_ & -> & -> & _), (retract_row_cases now t ids r) as [->|[_ ->]].
Qed.

(** Forgetting a memory strikes it and no other. *)
Lemma forget_view now t i s : view (s_rows (snd (forget now t i s))) = alter (strike now t) i (view (s_rows s)).
Proof.
  pose proof (forget_spec now t i s) as Hf. destruct (own_row t i s) as [r|] eqn:Hr.
  - destruct Hf as (s' & Hrun & _ & Hrows). rewrite Hrun. simpl. rewrite Hrows. unfold rows_after. rewrite view_retract.
    apply own_row_spec in Hr as (Hi & Ht & Hd). unfold view. rewrite fmap_insert. apply map_eq. intros j.
    destruct (decide (i = j)) as [<-|Hne].
    + rewrite lookup_insert_eq, lookup_alter_eq, lookup_fmap, Hi. simpl. unfold strike. simpl.
      by rewrite !bool_decide_eq_true_2.
    + by rewrite lookup_insert_ne, lookup_alter_ne.
  - rewrite Hf. simpl. symmetry. apply map_eq. intros j. destruct (decide (i = j)) as [<-|Hne]; [|by rewrite lookup_alter_ne].
    rewrite lookup_alter_eq. unfold view. rewrite lookup_fmap. destruct (s_rows s !! i) as [x|] eqn:Hx; [|done]. simpl. f_equal.
    unfold strike. simpl. destruct (_ && _) eqn:Hc; [|done]. apply andb_true_iff in Hc as [Ht%bool_decide_eq_true Hd%bool_decide_eq_true].
    exfalso. rewrite (proj2 (own_row_spec t i s x)) in Hr by done. done.
Qed.

Lemma strike_twice now t v : strike now t (strike now t v) = strike now t v.
Proof.
  unfold strike. destruct (bool_decide (v_tenant v = t) && bool_decide (v_deleted v = None)) eqn:Hc; [|by rewrite Hc].
  simpl. by rewrite andb_false_r.
Qed.

(** The memories of [ids] struck. *)
Definition strike_all (now : Z) (t : string) (ids : list string) (m : gmap string age_view) : gmap string age_view :=
  map_imap (λ i v, Some (if bool_decide (i ∈ ids) then strike now t v else v)) m.

Lemma strike_all_lookup now t ids m i :
  strike_all now t ids m !! i = (λ v, if bool_decide (i ∈ ids) then strike now t v else v) <$> m !! i.
Proof. unfold strike_all. rewrite map_lookup_imap. by destruct (m !! i). Qed.

Lemma strike_all_cons now t i ids m : strike_all now t ids (alter (strike now t) i m) = strike_all now t (i :: ids) m.
Proof.
  apply map_eq. intros j. rewrite !strike_all_lookup. destruct (decide (i = j)) as [<-|Hne].
  - rewrite lookup_alter_eq. destruct (m !! i) as [v|]; [|done]. simpl. f_equal.
    rewrite (bool_decide_eq_true_2 (i ∈ i :: ids)) by by left. case_bool_decide; [apply strike_twice|done].
  - rewrite lookup_alter_ne by done. destruct (m !! j) as [v|]; [|done]. simpl. f_equal.
    rewrite (bool_decide_ext (j ∈ i :: ids) (j ∈ ids)); [done|]. rewrite elem_of_cons. naive_solver.
Qed.

Lemma forget_all_view now t ids s : rows_wf s →
  ∃ s', forget_all now t ids s = (Ok tt, s') ∧ rows_wf s' ∧ view (s_rows s') = strike_all now t ids (view (s_rows s)).
Proof.
  revert s. induction ids as [|i ids IH]; intros s Hwf.
  - exists s. split_and!; [done|done|]. apply map_eq. intros j. rewrite strike_all_lookup.
    destruct (view (s_rows s) !! j); [|done]. done.
  - destruct (forget_keeps now t i s Hwf) as (b & s1 & Hrun & Hk & _).
    destruct (IH s1 (kg_wf _ _ Hk)) as (s' & Hrest & Hwf' & Hv). exists s'. split_and!; [|done|].
    + unfold forget_all in *. cbn [mapM_]. erewrite bind_ok; [exact Hrest|]. by erewrite bind_ok; [|exact Hrun].
    + rewrite Hv, <- strike_all_cons. f_equal. pose proof (forget_view now t i s) as Hfv. by rewrite Hrun in Hfv.
Qed.
