(* ===== verification/Retention.v ===== *)
(** * Retention (modules/tenancy/retention.py)

    [RetentionService]: the memories of a tenant older than its policy are
    forgotten, in bounded batches each in its own unit of work, tenant by tenant.
    [at_] is the instant the writes record and [locked] the outbox rows another
    relay holds. *)
From stdpp Require Import sorting.
From S2P Require Import Prelude Errors Visibility Revisions Tenancy TenancyRepo Tasks Outbox UnitOfWork MemoryModel MemoryRepo MemoryUow.
#[local] Open Scope Z_scope.

(** ** Definitions *)

(** [list_older_than]: WHERE tenant, created before, not deleted ORDER BY created_at. *)
Definition created_first (a b : memory_row) : Prop := m_created_at (r_memory a) ≤ m_created_at (r_memory b).
#[export] Instance created_first_dec a b : Decision (created_first a b).
Proof. unfold created_first. apply _. Defined.

Definition older_row (tenant_id : string) (before : Z) (r : memory_row) : bool :=
  bool_decide (m_tenant (r_memory r) = tenant_id) && (m_created_at (r_memory r) <? before) && live r.

Definition list_older_than (tenant_id : string) (before : Z) (limit : nat) : mprog (list CanonicalMemory) :=
  gets (λ s, to_domain <$> ordered created_first (Some limit) (select (older_row tenant_id before) s)).

Section retention.
Context {Q : Type} `{TaskQueue Q}.
Context (batch max_batches : nat) (now at_ : Z) (locked : gset Z).

Abbreviation wprog A := (prog (uow tables Q) A).
Abbreviation dprog A := (prog (database tables * Q) A).

Definition retention_job (tenant_id : string) (memory_ids : list string) : JobSpec :=
  {| js_task := "memory.index"; js_queue := EMBEDDING;
     js_payload := JObj [("tenant_id", JStr tenant_id); ("memory_ids", JList (JStr <$> memory_ids))];
     js_idempotency_key := Some ("memidx:retention:" +:+ tenant_id +:+ ":" +:+ default "" (head memory_ids) +:+ ":" +:+
                                 default "" (last memory_ids));
     js_lock := None; js_priority := None; js_schedule := None; js_tenant := Some tenant_id |}.

Definition _sweep_batch (tenant_id : string) (cutoff : Z) : dprog nat :=
  with_uow (
    bind (memories_in (list_older_than tenant_id cutoff batch)) (λ found,
    match found with
    | [] => ret 0%nat
    | _ =>
        bind (memories_in (forget_all at_ tenant_id (m_id <$> found))) (λ _,
        bind (bump_memories found) (λ _,
        bind (enqueue at_ (retention_job tenant_id (m_id <$> found))) (λ _,
        bind (commit at_ locked) (λ _, ret (length found)))))
    end)).

(** [for _ in range(max_batches)]. *)
Fixpoint drain (n : nat) (tenant_id : string) (cutoff : Z) : dprog nat :=
  match n with
  | O => ret 0%nat
  | S n' =>
      bind (_sweep_batch tenant_id cutoff) (λ k,
      if (k <? batch)%nat then ret k else bind (drain n' tenant_id cutoff) (λ rest, ret (k + rest)%nat))
  end.

Definition _sweep_tenant (tenant_id : string) (cutoff : Z) : dprog nat := drain max_batches tenant_id cutoff.

(** One tenant's failure is logged and the next still gets its sweep. *)
Fixpoint sweep_tenants (policies : list (string * Z)) : dprog nat :=
  match policies with
  | [] => ret 0%nat
  | (tenant_id, days) :: rest =>
      bind (try (_sweep_tenant tenant_id (now - days * 86400)) (λ _, Some (ret 0%nat))) (λ k,
      bind (sweep_tenants rest) (λ m, ret (k + m)%nat))
  end.

(** [sorted(policies.items())]. *)
Definition sorted_policies (policies : gmap string Z) : list (string * Z) := merge_sort (by_text fst) (map_to_list policies).

Definition sweep : dprog nat :=
  bind (with_uow (tenants_in retention_policies)) (λ policies, sweep_tenants (sorted_policies policies)).
End retention.

(** ** The memories a policy reaches *)

Definition expired_view (t : string) (cutoff : Z) (v : age_view) : Prop := v_tenant v = t ∧ v_created v < cutoff ∧ v_deleted v = None.
#[export] Instance expired_view_dec t cutoff v : Decision (expired_view t cutoff v).
Proof. unfold expired_view. apply _. Defined.

Definition doomed (t : string) (cutoff : Z) (m : gmap string age_view) : gset string :=
  dom (filter (λ p, expired_view t cutoff p.2) m).

Lemma elem_of_doomed t cutoff m i : i ∈ doomed t cutoff m ↔ ∃ v, m !! i = Some v ∧ expired_view t cutoff v.
Proof.
  unfold doomed. rewrite elem_of_dom. split.
  - intros [v [? ?]%map_lookup_filter_Some]. eauto.
  - intros (v & ? & ?). exists v. by apply map_lookup_filter_Some.
Qed.

Section sweeps.
Context {Q : Type} `{TaskQueue Q}.
Context (batch max_batches : nat) (now at_ : Z) (locked : gset Z).

Abbreviation rest_of := (λ d : database tables, d_rest d).
Abbreviation age d := (view (tb_rows (d_rest d))).
Abbreviation db_wf d := (rows_wf (session_of (d_rest d) [] [])).

(** What a batch, or several, of one tenant's memories does to the database. *)
Record forgot (t : string) (ids : list string) (d d' : database tables) : Prop := {
  forgot_view : age d' = strike_all at_ t ids (age d);
  forgot_wf : db_wf d';
  forgot_tenancy : tb_tenancy (d_rest d') = tb_tenancy (d_rest d);
}.

Lemma length_doomed_rows t cutoff (d : tables) ids ms :
  rows_wf (session_of d ids ms) →
  length (select (older_row t cutoff) (session_of d ids ms)) = size (doomed t cutoff (view (tb_rows d))) ∧
  ∀ r, r ∈ select (older_row t cutoff) (session_of d ids ms) → m_id (r_memory r) ∈ doomed t cutoff (view (tb_rows d)).
Proof.
  intros Hwf. set (l := select _ _).
  assert (∀ i, i ∈ (λ r, m_id (r_memory r)) <$> l ↔ i ∈ doomed t cutoff (view (tb_rows d))) as Hin.
  { intros i. rewrite elem_of_doomed, list_elem_of_fmap. split.
    - intros (r & -> & [Hr Hl]%(elem_select _ Hwf)). exists (view_row r). simpl in Hl. split; [unfold view; by rewrite lookup_fmap, Hl|].
      unfold older_row, live in Hr. apply andb_true_iff in Hr as [Hr Hd%bool_decide_eq_true].
      apply andb_true_iff in Hr as [Ht%bool_decide_eq_true Hc%Z.ltb_lt]. by split_and!.
    - intros (v & Hv & Ht & Hc & Hd). unfold view in Hv. rewrite lookup_fmap in Hv. apply fmap_Some in Hv as (r & Hr & ->).
      exists r. pose proof (Hwf i r Hr) as Hid. split; [done|]. apply (elem_select _ Hwf). rewrite Hid. split; [|done].
      unfold older_row, live. rewrite !bool_decide_eq_true_2 by done. apply Z.ltb_lt in Hc. simpl in Hc. by rewrite Hc. }
  split; [|intros r Hr; apply Hin, list_elem_of_fmap; eauto].
  rewrite <- (length_fmap (λ r, m_id (r_memory r))), <- (size_list_to_set (C := gset string)) by by apply NoDup_select_ids.
  f_equal. apply set_eq. intros i. by rewrite elem_of_list_to_set.
Qed.

Lemma memories_in_run {A} (m : mprog A) (u : uow tables Q) :
  memories_in m u =
    (let s := session_of (d_rest (u_work u)) (u_invalidated u) (u_invalidated_memories u) in
     (fst (m s), set_invalidated (s_invalidated_memories (snd (m s))) (s_invalidated (snd (m s)))
        (set_work (with_rest (set_memory_rows (s_rows (snd (m s))) (s_dependencies (snd (m s))) (d_rest (u_work u))) (u_work u)) u))).
Proof. unfold memories_in. by destruct (m _) as [r s]. Qed.

Lemma strike_none t m : strike_all at_ t [] m = m.
Proof. apply map_eq. intros i. rewrite strike_all_lookup. by destruct (m !! i). Qed.

Lemma batch_run t cutoff d q :
  db_wf d →
  ∃ ids d' q', _sweep_batch batch at_ locked t cutoff (d, q) = (Ok (length ids), (d', q')) ∧ forgot t ids d d' ∧ NoDup ids ∧
    (∀ i, i ∈ ids → i ∈ doomed t cutoff (age d)) ∧ length ids = Nat.min batch (size (doomed t cutoff (age d))).
Proof.
  intros Hwf. set (s0 := session_of (d_rest d) [] []). set (l := ordered created_first (Some batch) (select (older_row t cutoff) s0)).
  destruct (length_doomed_rows t cutoff (d_rest d) [] [] Hwf) as [Hsize Hdoom].
  assert (length l = Nat.min batch (size (doomed t cutoff (age d)))) as Hlen.
  { rewrite <- Hsize. unfold l, ordered. rewrite length_take. f_equal. apply Permutation_length, merge_sort_Permutation. }
  assert (∀ r, r ∈ l → r ∈ select (older_row t cutoff) s0) as Hsub by (intros r Hr; by eapply elem_of_ordered_sub).
  set (ids := (λ r, m_id (r_memory r)) <$> l). exists ids.
  assert (NoDup ids) as Hnd.
  { unfold ids, l, ordered. rewrite fmap_take. eapply sublist_NoDup; [|apply sublist_take].
    rewrite merge_sort_Permutation. by apply NoDup_select_ids. }
  assert (∀ i, i ∈ ids → i ∈ doomed t cutoff (age d)) as Hids by (intros i (r & -> & Hr)%list_elem_of_fmap; by apply Hdoom, Hsub).
  assert (length ids = length l) as Hlids by apply length_fmap.
  assert (m_id <$> (to_domain <$> l) = ids) as Hdom by (rewrite <- list_fmap_compose; done).
  unfold _sweep_batch, with_uow. cbn [fst snd]. set (u0 := enter d q).
  set (u1 := snd (memories_in (list_older_than t cutoff batch) u0)).
  assert (memories_in (list_older_than t cutoff batch) u0 = (Ok (to_domain <$> l), u1)) as Hrun1 by by rewrite memories_in_run.
  assert (d_rest (u_work u1) = d_rest d ∧ u_db u1 = d ∧ session_of (d_rest (u_work u1)) (u_invalidated u1) (u_invalidated_memories u1) = s0)
    as (Hr1 & Hdb1 & Hs1).
  { unfold u1. rewrite memories_in_run. simpl. split_and!; [|done|done]. by destruct (d_rest d). }
  clearbody u1. erewrite bind_ok; [|exact Hrun1].
  destruct (to_domain <$> l) as [|m0 found] eqn:Hf.
  - assert (ids = []) as Hnil by (by rewrite <- Hdom). eexists _, _. split_and!; [by rewrite Hnil| |done|done|by rewrite Hlids].
    rewrite Hnil. unfold leave. rewrite Hdb1. split; cbn [d_rest with_outbox]; [by rewrite strike_none|done|done].
  - destruct (forget_all_view at_ t ids s0 Hwf) as (s2 & Hrun2 & Hwf2 & Hv2).
    set (u2 := snd (memories_in (forget_all at_ t ids) u1)).
    assert (memories_in (forget_all at_ t ids) u1 = (Ok tt, u2)) as Hrun by (unfold u2; rewrite memories_in_run; cbn zeta; by rewrite Hs1, Hrun2).
    assert (d_rest (u_work u2) = set_memory_rows (s_rows s2) (s_dependencies s2) (d_rest d)) as Hr2.
    { unfold u2. rewrite memories_in_run. cbn zeta. rewrite Hs1, Hrun2, Hr1. done. }
    clearbody u2. erewrite bind_ok; [|rewrite Hdom; exact Hrun].
    destruct (calm_bumps (touched_revisions (touched_of <$> m0 :: found)) u2) as ([] & u3 & Hb3 & Hr3).
    unfold bump_memories. erewrite bind_ok; [|exact Hb3].
    destruct (calm_enqueue at_ (retention_job t (m_id <$> m0 :: found)) u3) as (o & u4 & Hb4 & Hr4).
    erewrite bind_ok; [|exact Hb4]. destruct (commit_rest at_ locked u4) as (u5 & Hb5 & Hr5). erewrite bind_ok; [|exact Hb5].
    eexists (leave u5), _. unfold ret at 1. rewrite <- Hf, length_fmap, <- Hlids. split_and!; try done; [|lia].
    assert (d_rest (leave u5) = set_memory_rows (s_rows s2) (s_dependencies s2) (d_rest d)) as Hfin.
    { unfold leave. cbn [d_rest with_outbox]. congruence. }
    split; rewrite Hfin; cbn [tb_rows set_memory_rows tb_tenancy]; done.
Qed.

(** Age and deletion after a memory is struck for good. *)
Definition struck (v : age_view) : age_view := {| v_tenant := v_tenant v; v_created := v_created v; v_deleted := Some at_ |}.

Lemma strike_expired t cutoff v : expired_view t cutoff v → strike at_ t v = struck v.
Proof. intros (Ht & _ & Hd). unfold strike. by rewrite !bool_decide_eq_true_2. Qed.

Lemma doomed_strike t cutoff ids m : doomed t cutoff (strike_all at_ t ids m) = doomed t cutoff m ∖ list_to_set ids.
Proof.
  apply set_eq. intros i. rewrite elem_of_difference, elem_of_list_to_set, !elem_of_doomed. split.
  - intros (v & Hv & Ht & Hc & Hd). rewrite strike_all_lookup in Hv. apply fmap_Some in Hv as (w & Hw & ->). case_bool_decide as Hi.
    + exfalso. unfold strike in Ht, Hd. destruct (_ && _) eqn:Hb; [done|]. by rewrite !bool_decide_eq_true_2 in Hb.
    + split; [|done]. by exists w.
  - intros [(v & Hv & He) Hi]. exists v. rewrite strike_all_lookup, Hv. simpl. by rewrite bool_decide_eq_false_2.
Qed.

Lemma doomed_strike_other t t' cutoff ids m : t ≠ t' → doomed t' cutoff (strike_all at_ t ids m) = doomed t' cutoff m.
Proof.
  intros Hne. apply set_eq. intros i. rewrite !elem_of_doomed, strike_all_lookup.
  assert (∀ v, v_tenant (strike at_ t v) = v_tenant v) as Hten by (intros v; unfold strike; by destruct (_ && _)).
  assert (∀ v, v_tenant v = t' → strike at_ t v = v) as Hsame.
  { intros v Hv. unfold strike. rewrite bool_decide_eq_false_2; [done|congruence]. }
  split.
  - intros (v & Hv & Ht & He). apply fmap_Some in Hv as (w & Hw & ->). exists w. case_bool_decide; [|by split].
    rewrite Hten in Ht. rewrite Hsame in * by done. by split_and!.
  - intros (v & Hv & Ht & He). exists v. rewrite Hv. simpl. case_bool_decide; [|by split_and!]. rewrite Hsame by done. by split_and!.
Qed.

Lemma strike_all_app t ids1 ids2 m : strike_all at_ t ids2 (strike_all at_ t ids1 m) = strike_all at_ t (ids1 ++ ids2) m.
Proof.
  apply map_eq. intros i. rewrite !strike_all_lookup. destruct (m !! i) as [v|]; [|done]. simpl. f_equal.
  rewrite (bool_decide_ext (i ∈ ids1 ++ ids2) (i ∈ ids1 ∨ i ∈ ids2)) by apply elem_of_app.
  repeat case_bool_decide; try tauto; try done. apply strike_twice.
Qed.

Lemma forgot_trans t ids1 ids2 d1 d2 d3 : forgot t ids1 d1 d2 → forgot t ids2 d2 d3 → forgot t (ids1 ++ ids2) d1 d3.
Proof. intros [V1 _ T1] [V2 W2 T2]. split; [|done|congruence]. by rewrite V2, V1, strike_all_app. Qed.

Lemma size_difference_list (X : gset string) ids :
  NoDup ids → (∀ i, i ∈ ids → i ∈ X) → size (X ∖ list_to_set ids) = (size X - length ids)%nat.
Proof.
  intros Hnd Hsub. rewrite size_difference by set_solver. by rewrite size_list_to_set.
Qed.

(** Batches until a short one, or all of them: as many memories as the bound
    allows, and no other. *)
Lemma drain_run n t cutoff d q :
  db_wf d →
  ∃ ids d' q', drain batch at_ locked n t cutoff (d, q) = (Ok (length ids), (d', q')) ∧ forgot t ids d d' ∧ NoDup ids ∧
    (∀ i, i ∈ ids → i ∈ doomed t cutoff (age d)) ∧ length ids = Nat.min (size (doomed t cutoff (age d))) (n * batch).
Proof.
  revert d q. induction n as [|n IH]; intros d q Hwf; cbn [drain].
  - exists [], d, q. split_and!; [done| |constructor|by intros i ?%elem_of_nil|simpl; lia]. split; [by rewrite strike_none|done..].
  - destruct (batch_run t cutoff d q Hwf) as (ids1 & d1 & q1 & Hr1 & Hf1 & Hn1 & Hi1 & Hl1). erewrite bind_ok; [|exact Hr1].
    destruct (length ids1 <? batch)%nat eqn:Hlt; [apply Nat.ltb_lt in Hlt|apply Nat.ltb_ge in Hlt].
    + exists ids1, d1, q1. split_and!; try done. simpl. lia.
    + destruct (IH d1 q1 (forgot_wf _ _ _ _ Hf1)) as (ids2 & d2 & q2 & Hr2 & Hf2 & Hn2 & Hi2 & Hl2). erewrite bind_ok; [|exact Hr2].
      rewrite (forgot_view _ _ _ _ Hf1), doomed_strike in Hi2, Hl2. rewrite size_difference_list in Hl2 by done.
      exists (ids1 ++ ids2), d2, q2. split_and!.
      * by rewrite length_app.
      * by eapply forgot_trans.
      * apply NoDup_app. split_and!; try done. intros i Hi Hi'. specialize (Hi2 i Hi'). set_solver.
      * intros i [Hi|Hi]%elem_of_app; [by apply Hi1|]. specialize (Hi2 i Hi). set_solver.
      * rewrite length_app, Hl2. simpl. lia.
Qed.

(** What the sweeps of some tenants do. *)
Record swept (l : list (string * Z)) (gone : gset string) (d d' : database tables) : Prop := {
  swept_view i : age d' !! i = (λ v, if decide (i ∈ gone) then struck v else v) <$> age d !! i;
  swept_wf : db_wf d';
  swept_tenancy : tb_tenancy (d_rest d') = tb_tenancy (d_rest d);
  swept_only i : i ∈ gone → ∃ v days, age d !! i = Some v ∧ (v_tenant v, days) ∈ l ∧ expired_view (v_tenant v) (now - days * 86400) v;
  swept_all t days : (t, days) ∈ l →
    size (gone ∩ doomed t (now - days * 86400) (age d)) = Nat.min (size (doomed t (now - days * 86400) (age d))) (max_batches * batch);
}.

Lemma sweep_tenants_run l d q :
  db_wf d → NoDup l.*1 →
  ∃ gone d' q', sweep_tenants batch max_batches now at_ locked l (d, q) = (Ok (size gone), (d', q')) ∧ swept l gone d d'.
Proof.
  revert d q. induction l as [|[t days] l IH]; intros d q Hwf Hnd; cbn [sweep_tenants].
  { exists ∅, d, q. split; [done|]. split; [|done|done|set_solver|by intros ? ? ?%elem_of_nil].
    intros i. destruct (age d !! i); [|done]. simpl. by rewrite decide_False by set_solver. }
  apply NoDup_cons in Hnd as [Ht Hnd].
  destruct (drain_run max_batches t (now - days * 86400) d q Hwf) as (ids & d1 & q1 & Hr & Hf & Hni & Hid & Hlen).
  destruct (IH d1 q1 (forgot_wf _ _ _ _ Hf) Hnd) as (gone & d2 & q2 & Hr2 & [Hv2 Hw2 Ht2 Ho2 Ha2]).
  set (cutoff := now - days * 86400) in *. pose proof (forgot_view _ _ _ _ Hf) as Hv1.
  assert (∀ t' c', t' ∈ l.*1 → doomed t' c' (age d1) = doomed t' c' (age d)) as Hother.
  { intros t' c' Hin. rewrite Hv1. apply doomed_strike_other. by intros ->. }
  assert (∀ i, i ∈ gone → ∃ v days', age d !! i = Some v ∧ (v_tenant v, days') ∈ l ∧ expired_view (v_tenant v) (now - days' * 86400) v) as Ho.
  { intros i Hi. destruct (Ho2 i Hi) as (v & days' & Hv & Hl & He).
    assert (i ∈ doomed (v_tenant v) (now - days' * 86400) (age d1)) as Hd by (apply elem_of_doomed; eauto).
    rewrite Hother in Hd by (apply list_elem_of_fmap; by exists (v_tenant v, days')). apply elem_of_doomed in Hd as (w & Hw & He').
    exists w, days'. destruct He' as (Htw & Hcw & Hdw). rewrite Htw. by split_and!. }
  assert (∀ i, i ∈ ids → ∃ v, age d !! i = Some v ∧ expired_view t cutoff v) as Hids by (intros i Hi; by apply elem_of_doomed, Hid).
  assert (∀ i, i ∈ ids → i ∉ gone) as Hdisj.
  { intros i Hi Hg. destruct (Hids i Hi) as (v & Hv & Htv & _). destruct (Ho i Hg) as (w & days' & Hw & Hl & _).
    rewrite Hv in Hw. injection Hw as <-. apply Ht. rewrite <- Htv. apply list_elem_of_fmap. by exists (v_tenant v, days'). }
  exists (list_to_set ids ∪ gone), d2, q2. split; [|split].
  - assert (try (_sweep_tenant batch max_batches at_ locked t cutoff) (λ _, Some (ret 0%nat)) (d, q) = (Ok (length ids), (d1, q1))) as Htry
      by (unfold try, _sweep_tenant; by rewrite Hr).
    erewrite bind_ok; [|exact Htry]. erewrite bind_ok; [|exact Hr2]. unfold ret. rewrite size_union by set_solver.
    by rewrite size_list_to_set.
  - intros i. rewrite Hv2, Hv1, strike_all_lookup. destruct (age d !! i) as [v|] eqn:Hv; [|done]. simpl. f_equal.
    destruct (decide (i ∈ ids)) as [Hi|Hi].
    + rewrite bool_decide_eq_true_2 by done. rewrite (decide_False (P := i ∈ gone)) by by apply Hdisj.
      rewrite decide_True by (apply elem_of_union; left; by apply elem_of_list_to_set).
      destruct (Hids i Hi) as (w & Hw & He). rewrite Hv in Hw. injection Hw as <-. by apply (strike_expired t cutoff).
    + rewrite bool_decide_eq_false_2 by done. destruct (decide (i ∈ gone)) as [Hg|Hg].
      * rewrite decide_True; [done|]. apply elem_of_union. by right.
      * rewrite decide_False; [done|]. intros [Hx%elem_of_list_to_set|Hx]%elem_of_union; done.
  - done.
  - rewrite Ht2. apply (forgot_tenancy _ _ _ _ Hf).
  - intros i [Hi|Hi]%elem_of_union.
    + apply elem_of_list_to_set in Hi. destruct (Hids i Hi) as (v & Hv & He). exists v, days. pose proof (proj1 He) as ->.
      split_and!; [done|by left|done].
    + destruct (Ho i Hi) as (v & days' & ? & ? & ?). exists v, days'. split_and!; try done. by right.
  - intros t' days' [Heq|Hl]%elem_of_cons.
    + injection Heq as -> ->. rewrite Nat.mul_comm in Hlen |- *. rewrite (Nat.mul_comm batch) in *. fold cutoff.
      rewrite <- Hlen, <- (size_list_to_set (C := gset string) ids) by done. f_equal. apply set_eq. intros i.
      rewrite elem_of_intersection, elem_of_union, elem_of_list_to_set. split; [|by intros Hi; split; [left|apply Hid]].
      intros [[Hi|Hg] Hd]; [done|]. exfalso. destruct (Ho i Hg) as (v & days2 & Hv & Hl & _).
      apply elem_of_doomed in Hd as (w & Hw & Htw & _).
      rewrite Hv in Hw. injection Hw as <-. apply Ht. rewrite <- Htw. apply list_elem_of_fmap. by exists (v_tenant v, days2).
    + assert (t' ∈ l.*1) as Hl1 by (apply list_elem_of_fmap; by exists (t', days')).
      rewrite <- (Hother t' _ Hl1), <- (Ha2 t' days' Hl). f_equal. rewrite (Hother t' _ Hl1). apply set_eq. intros i.
      rewrite !elem_of_intersection, elem_of_union, elem_of_list_to_set. split; [|tauto].
      intros [[Hi|Hg] Hd]; [|done]. exfalso. destruct (Hids i Hi) as (v & Hv & Htv & _).
      apply elem_of_doomed in Hd as (w & Hw & Htw & _). simplify_eq. done.
Qed.

(** The policies a sweep reads: those of the active tenants that have one. *)
Definition policies_of (d : tenancy_db) : gmap string Z :=
  omap (λ t, if decide (tn_status t = active) then tn_retention_days t else None) (tenants d).

Abbreviation sweep_ := (sweep batch max_batches now at_ locked).

Lemma sweep_run d q :
  db_wf d →
  ∃ gone d' q', sweep_ (d, q) = (Ok (size gone), (d', q')) ∧ swept (sorted_policies (policies_of (tb_tenancy (d_rest d)))) gone d d'.
Proof.
  intros Hwf. set (l := sorted_policies _).
  assert (NoDup l.*1) as Hnd.
  { unfold l, sorted_policies. rewrite merge_sort_Permutation. apply NoDup_fst_map_to_list. }
  set (d0 := {| d_outbox := {| ob_rows := ob_rows (d_outbox d); ob_next := ob_next (d_outbox d) |};
                d_revisions := d_revisions d; d_rest := d_rest d |}).
  assert (with_uow (tenants_in retention_policies) (d, q) = (Ok (policies_of (tb_tenancy (d_rest d))), (d0, q))) as Hread by done.
  destruct (sweep_tenants_run l d0 q Hwf Hnd) as (gone & d' & q' & Hr & [? ? ? ? ?]). exists gone, d', q'. unfold sweep.
  erewrite bind_ok; [|exact Hread]. split; [exact Hr|]. by split.
Qed.

Lemma elem_of_sorted_policies m t days : (t, days) ∈ sorted_policies m ↔ m !! t = Some days.
Proof. unfold sorted_policies. by rewrite merge_sort_Permutation, elem_of_map_to_list. Qed.

(** C31: A sweep forgets exactly what the policies reach. A memory is marked deleted
    only when it was live, its tenant is active with a retention of some days and
    it was created before that many days ago; every other row keeps its age and
    its deletion. Of each such tenant's overdue memories as many are forgotten as
    [max_batches] batches hold, so all of them when they fit; the sweep returns
    how many it forgot. *)
Theorem retention_sweep_exact d q :
  db_wf d →
  let policies := policies_of (tb_tenancy (d_rest d)) in
  ∃ gone d' q', sweep_ (d, q) = (Ok (size gone), (d', q')) ∧
    (∀ i, age d' !! i = (λ v, if decide (i ∈ gone) then struck v else v) <$> age d !! i) ∧
    (∀ i, i ∈ gone → ∃ v days, age d !! i = Some v ∧ policies !! v_tenant v = Some days ∧ v_deleted v = None ∧
                     v_created v < now - days * 86400) ∧
    (∀ t days, policies !! t = Some days →
       size (gone ∩ doomed t (now - days * 86400) (age d)) =
         Nat.min (size (doomed t (now - days * 86400) (age d))) (max_batches * batch)).
Proof.
  intros Hwf policies. destruct (sweep_run d q Hwf) as (gone & d' & q' & Hr & [Hv _ _ Ho Ha]). exists gone, d', q'.
  split_and!; [done|done| |].
  - intros i Hi. destruct (Ho i Hi) as (v & days & ? & Hl & _ & ? & ?). exists v, days.
    apply elem_of_sorted_policies in Hl. by split_and!.
  - intros t days Ht. apply Ha. by apply elem_of_sorted_policies.
Qed.

(** [n] runs of the job. *)
Fixpoint sweeps (n : nat) : prog (database tables * Q) unit :=
  match n with
  | O => ret tt
  | S n' => bind sweep_ (λ _, sweeps n')
  end.

Lemma doomed_swept l gone d d' t days :
  swept l gone d d' → (t, days) ∈ l →
  size (doomed t (now - days * 86400) (age d')) =
    (size (doomed t (now - days * 86400) (age d)) - max_batches * batch)%nat.
Proof.
  intros [Hv _ _ Ho Ha] Hl. specialize (Ha t days Hl). set (c := now - days * 86400) in *.
  assert (doomed t c (age d') = doomed t c (age d) ∖ gone) as ->.
  { apply set_eq. intros i. rewrite elem_of_difference, !elem_of_doomed, Hv. split.
    - intros (v & Hi & He). apply fmap_Some in Hi as (w & Hw & ->). case_decide; [by destruct He as (_ & _ & ?)|]. eauto.
    - intros [(v & Hi & He) Hg]. exists v. rewrite Hi. simpl. by rewrite decide_False. }
  replace (doomed t c (age d) ∖ gone) with (doomed t c (age d) ∖ (gone ∩ doomed t c (age d))) by set_solver.
  rewrite size_difference by set_solver. lia.
Qed.

(** A backlog converges: whatever a tenant has overdue, once the runs together
    have room for it none of it is left. Here nothing new comes due between the
    runs. *)
Theorem retention_converges n d q t days :
  db_wf d → policies_of (tb_tenancy (d_rest d)) !! t = Some days →
  (size (doomed t (now - days * 86400) (age d)) ≤ n * (max_batches * batch))%nat →
  ∃ d' q', sweeps n (d, q) = (Ok tt, (d', q')) ∧ doomed t (now - days * 86400) (age d') = ∅.
Proof.
  revert d q. induction n as [|n IH]; intros d q Hwf Hp Hn; cbn [sweeps].
  - exists d, q. split; [done|]. apply leibniz_equiv, size_empty_inv. simpl in Hn. lia.
  - destruct (sweep_run d q Hwf) as (gone & d1 & q1 & Hr & Hs). erewrite bind_ok; [|exact Hr].
    apply IH; [apply Hs|by rewrite (swept_tenancy _ _ _ _ Hs)|].
    erewrite doomed_swept; [|exact Hs|by apply elem_of_sorted_policies]. simpl in Hn. lia.
Qed.
End sweeps.

(** ** A tenant with a policy of thirty days *)

Definition w_row (id : string) (created : Z) : memory_row :=
  row_of (a_statement id "Brightway supplies us" None created) ["tenant:acme"].

Definition w_tenancy : tenancy_db :=
  set_tenants {["acme" := {| tn_id := "acme"; tn_name := "Acme"; tn_status := active; tn_retention_days := Some 30;
                            tn_rate_limit := None; tn_admission_gate := false; tn_created_at := 0; tn_updated_at := 0 |}]} empty_tenancy.

(** Three memories of day 1 and one of day 40, on day 45. *)
Definition w_database : database tables :=
  {| d_outbox := no_rows; d_revisions := ∅;
     d_rest := {| tb_rows := list_to_map ((λ i, (i.1, w_row i.1 i.2)) <$>
                    [("mem_1", 86400); ("mem_2", 86400); ("mem_3", 86400); ("mem_4", 40 * 86400)]);
                  tb_dependencies := []; tb_tenancy := w_tenancy |} |}.

Lemma w_database_wf : rows_wf (session_of (d_rest w_database) [] []).
Proof.
  assert (bool_decide (map_Forall (λ i r, m_id (r_memory r) = i) (tb_rows (d_rest w_database))) = true) as Hall%bool_decide_eq_true
    by (vm_compute; reflexivity).
  intros i r Hr. by apply (Hall i r).
Qed.

Definition w_queue : recording * list JobSpec := (queue_of ["memory.index"] false, []).

Lemma retention_sweep_exact_witness :
  ∃ gone d' q', sweep 2 10 (45 * 86400) (45 * 86400) ∅ (w_database, w_queue) = (Ok (size gone), (d', q')) ∧
    size (gone ∩ doomed "acme" (15 * 86400) (view (tb_rows (d_rest w_database)))) = 3%nat.
Proof.
  destruct (retention_sweep_exact 2 10 (45 * 86400) (45 * 86400) ∅ w_database w_queue w_database_wf)
    as (gone & d' & q' & Hr & _ & _ & Hall).
  exists gone, d', q'. split; [exact Hr|].
  assert (policies_of (tb_tenancy (d_rest w_database)) !! "acme" = Some 30) as Hp by (vm_compute; reflexivity).
  assert (size (doomed "acme" (15 * 86400) (view (tb_rows (d_rest w_database)))) = 3%nat) as Hsize by (vm_compute; reflexivity).
  specialize (Hall "acme" 30 Hp). change (45 * 86400 - 30 * 86400) with (15 * 86400) in Hall. rewrite Hsize in Hall. exact Hall.
Defined.

(** One batch of one memory a run: three runs are needed, and enough. *)
Lemma retention_converges_witness :
  size (doomed "acme" (15 * 86400) (view (tb_rows (d_rest w_database)))) = 3%nat ∧
  ∃ d' q', sweeps 1 1 (45 * 86400) (45 * 86400) ∅ 3 (w_database, w_queue) = (Ok tt, (d', q')) ∧
    doomed "acme" (15 * 86400) (view (tb_rows (d_rest d'))) = ∅.
Proof.
  split; [vm_compute; reflexivity|].
  apply (retention_converges 1 1 (45 * 86400) (45 * 86400) ∅ 3 w_database w_queue "acme" 30 w_database_wf); vm_compute; [reflexivity|lia].
Defined.
