(* ===== verification/MemoryService.v ===== *)
(** * MemoryService: stated memories (modules/memory/service.py, with
    [ForgettingService.restore] of modules/memory/forgetting.py and [reinstate]
    of modules/memory/replacement.py).

    One request runs in one unit of work, whose working copy is the state: the
    session on the memory table, the outbox, and what [TenancyService] works on
    (teams, authorization, revision counters, locks). The instant, the fresh id
    and the language functions are arguments. *)
From Stdlib Require Import QArith.
From S2P Require Import Prelude Errors Ids Context Rebac Visibility Revisions AuthzProvider AuthzService.
From S2P Require Import Cache ScopeCache TenancyRepo TenancyService Tasks Outbox UnitOfWork MemoryModel MemoryRepo.
#[local] Open Scope Z_scope.

(** ** Definitions *)

Definition STATED_CONFIDENCE : Q := 9 # 10.
Definition STATED_IMPORTANCE : Q := 7 # 10.
Definition STATED_CATEGORY : string := "stated".

Record memory_sys {P C : Type} := {
  ms_sys : tenancy_sys P C;
  ms_session : session;
  ms_outbox : outbox;
}.
Arguments memory_sys : clear implicits.

Record RememberAck := {
  ack_memory_id : string;
  ack_deduplicated : bool;
  ack_job_ids : list string;
}.

(** What [remember] is asked to store. *)
Record statement := {
  st_content : string;
  st_type : MemoryType;
  st_lifetime : Lifetime;
  st_visibility : option Visibility;
  st_subject : option string;
  st_entities : list string;
  st_valid_from : option Z;
  st_valid_to : option Z;
  st_custom : gmap string json;
}.

Definition stated (content_hash : string → string) (ctx : MemoryExecutionContext) (memory_id content : string)
    (now : Z) : EvidenceRef :=
  {| ev_source_type := EvStatement; ev_source_id := memory_id; ev_message_id := None; ev_document_id := None;
     ev_document_version_id := None; ev_chunk_id := None; ev_node_id := None; ev_page := None;
     ev_span := (None, None); ev_agent_id := agent_id ctx; ev_agent_run_id := agent_run_id ctx;
     ev_tool_run_id := None; ev_observed_at := now; ev_source_hash := Some (content_hash content);
     ev_confidence := None |}.

(** Whose a new version of [old] is, and what it is about: owner, kind, subject,
    predicate. *)
Definition authorship (ctx : MemoryExecutionContext) (old : CanonicalMemory) :
    string * MemoryType * option string * option string :=
  if negb (is_agent ctx) then (m_owner old, m_type old, m_subject old, m_predicate old)
  else let about_a_person := starts_with "user:" (default "" (m_subject old)) in
       (principal_id ctx, authored_type (m_type old) true,
        if about_a_person then None else m_subject old,
        if about_a_person then None else m_predicate old).

Section service.
Context {P C : Type} `{AuthorizationLaws P} `{CacheLaws C} `{Codec AuthorizedScope}.
Variable blake2b : string → string.
Variable max_listed : nat.
Variable cache_ttl : Z.
Variable decision_cache : bool.
Variable content_hash : string → string.
Variable normalized_hash : string → string.
Variable detect_language : string → string.
Variable dated_mentions : string → Z → json.

Abbreviation sys := (memory_sys P C).
Abbreviation vprog A := (prog sys A).

Definition set_ms_sys (x : tenancy_sys P C) (s : sys) : sys :=
  {| ms_sys := x; ms_session := ms_session s; ms_outbox := ms_outbox s |}.
Definition set_ms_session (x : session) (s : sys) : sys :=
  {| ms_sys := ms_sys s; ms_session := x; ms_outbox := ms_outbox s |}.
Definition set_ms_outbox (x : outbox) (s : sys) : sys :=
  {| ms_sys := ms_sys s; ms_session := ms_session s; ms_outbox := x |}.

Definition in_sys {A} (m : prog (tenancy_sys P C) A) : vprog A := zoom ms_sys set_ms_sys m.
Definition memories {A} (m : mprog A) : vprog A := zoom ms_session set_ms_session m.
Definition in_outbox {A} (m : prog outbox A) : vprog A := zoom ms_outbox set_ms_outbox m.
Definition in_revisions {A} (m : prog revisions A) : vprog A := in_sys (in_authz (on_revisions m)).

(** [authz.visibility(ctx, revisions=uow.revisions)]. *)
Definition reader (ctx : MemoryExecutionContext) : vprog VisibilitySpecification :=
  in_sys (in_authz (AuthzService.visibility blake2b max_listed cache_ttl decision_cache ctx true None None)).

Definition bump_memory_revisions (l : list CanonicalMemory) : vprog unit :=
  mapM_ (λ x : touched, bind (in_revisions (bump (fst x) (fst (snd x)) (snd (snd x)))) (λ _, ret tt))
    (touched_revisions (touched_of <$> l)).

Definition memory_index_job (tenant_id : string) (ids : list string) (key : string) : JobSpec :=
  {| js_task := "memory.index"; js_queue := EMBEDDING;
     js_payload := JObj [("tenant_id", JStr tenant_id); ("memory_ids", JList (JStr <$> str_sorted ids))];
     js_idempotency_key := Some key; js_lock := None; js_priority := None; js_schedule := None;
     js_tenant := Some tenant_id |}.

Definition index_ (now : Z) (ctx : MemoryExecutionContext) (l : list CanonicalMemory) (key : string) :
    vprog (list string) :=
  bind (in_outbox (add_job now (memory_index_job (tenant_id ctx) (m_id <$> l) key))) (λ outbox_id,
  bind (bump_memory_revisions l) (λ _,
  ret (match outbox_id with
       | Some i => ["obx_" +:+ text_of_Z i]
       | None => []
       end))).

Definition candidate_of (ctx : MemoryExecutionContext) (memory_id : string) (now : Z) (x : statement) :
    MemoryCandidate :=
  let content := sanitise (st_content x) in
  let mt := authored_type (st_type x) (is_agent ctx) in
  let about_user := bool_decide (mt = MUser ∨ mt = MPreference) && otruthy (user_id ctx) in
  {| cd_content := content; cd_type := mt; cd_custom_type := None; cd_lifetime := st_lifetime x;
     cd_visibility := Some (match st_visibility x with
                            | Some v => v
                            | None => default_visibility mt ctx (negb (is_agent ctx))
                            end);
     cd_subject := if otruthy (st_subject x) then st_subject x
                   else if about_user then Some ("user:" +:+ default "" (user_id ctx)) else None;
     cd_predicate := None; cd_object := None; cd_valid_from := st_valid_from x; cd_valid_to := st_valid_to x;
     cd_confidence := STATED_CONFIDENCE; cd_importance := STATED_IMPORTANCE;
     cd_evidence := [stated content_hash ctx memory_id content now]; cd_entities := fromkeys (st_entities x);
     cd_provider := "statement"; cd_category := Some STATED_CATEGORY;
     cd_other := {["provider_ref" := JNull]} |}.

Definition remember (now : Z) (ctx : MemoryExecutionContext) (memory_id : string) (x : statement) :
    vprog RememberAck :=
  bind (lift (validate_requested_visibility ctx (st_visibility x))) (λ _,
  bind (in_sys (guard_workspace_visibility ctx (st_visibility x))) (λ _,
  bind (lift (build_memory detect_language dated_mentions normalized_hash
                (candidate_of ctx memory_id now x) ctx now memory_id (st_custom x))) (λ m,
  let key := scope_key (m_scope m) in
  bind (in_sys (serialize ("remember:" +:+ tenant_id ctx +:+ ":" +:+ key +:+ ":" +:+ m_hash m))) (λ _,
  bind (memories (current_with_hash (tenant_id ctx) key (m_owner m) (m_hash m))) (λ existing,
  match existing with
  | Some e => ret {| ack_memory_id := m_id e; ack_deduplicated := true; ack_job_ids := [] |}
  | None =>
      bind (lift (keys_for (m_scope m) (m_visibility m) ctx)) (λ keys,
      bind (memories (add now m keys)) (λ _,
      bind (index_ now ctx [m] ("memidx:" +:+ memory_id)) (λ jobs,
      ret {| ack_memory_id := memory_id; ack_deduplicated := false; ack_job_ids := jobs |})))
  end))))).

Definition visible (ctx : MemoryExecutionContext) (m : CanonicalMemory) : vprog bool :=
  bind (memories (visibility_keys_of (tenant_id ctx) (m_id m))) (λ keys,
  bind (reader ctx) (λ spec, ret (allows spec (m_tenant m) keys))).

Definition get_memory (now : Z) (ctx : MemoryExecutionContext) (memory_id : string) : vprog CanonicalMemory :=
  bind (memories (get now (tenant_id ctx) memory_id)) (λ found,
  match found with
  | None => raise (err NotFound ("memory " +:+ memory_id +:+ " not found"))
  | Some m =>
      bind (visible ctx m) (λ ok,
      if ok then ret m
      else raise (err ScopeDenied ("memory " +:+ memory_id +:+ " is not visible in this scope")))
  end).

Definition require_owner (ctx : MemoryExecutionContext) (m : CanonicalMemory) (action : string) : vprog unit :=
  if is_agent ctx && said_by_a_person m
  then raise (err ScopeDenied ("memory " +:+ m_id m +:+ " is the user's own statement: an agent cannot "
                               +:+ action +:+ " it; use memory_remember to add your note"))
  else if bool_decide (m_owner m = principal_id ctx)
          || bool_decide (m_owner m = "user:" +:+ default "None" (user_id ctx))
  then ret tt
  else bind (in_sys (in_authz (is_tenant_admin ctx))) (λ admin,
       if admin then ret tt
       else raise (err ScopeDenied ("only the owner (or a tenant admin) can " +:+ action +:+ " a memory"))).

(** The new version [supersede] builds before it is linked. *)
Definition new_version (now : Z) (ctx : MemoryExecutionContext) (new_id content reason : string)
    (old : CanonicalMemory) : CanonicalMemory :=
  let '(owner, mt, subject, predicate) := authorship ctx old in
  {| m_id := new_id; m_tenant := m_tenant old; m_scope := m_scope old; m_visibility := m_visibility old;
     m_owner := owner; m_lifetime := m_lifetime old; m_type := mt; m_custom_type := m_custom_type old;
     m_content := content; m_hash := normalized_hash content; m_subject := subject; m_predicate := predicate;
     m_object := None; m_temporal := temporal None None now;
     m_evidence := [stated content_hash ctx new_id content now];
     m_confidence := STATED_CONFIDENCE; m_importance := m_importance old; m_reinforcements := 1;
     m_accesses := 0; m_last_accessed := None;
     m_meta := {| sm_provider := Some "statement"; sm_category := Some STATED_CATEGORY;
                  sm_entities := sm_entities (m_meta old);
                  sm_expires_at := Some (match sm_expires_at (m_meta old) with Some e => e | None => None end);
                  sm_indexed_at := None; sm_visibility_keys := []; sm_derived_slot := None;
                  sm_source_revisions := ∅; sm_replaced_by := None; sm_supersede_reason := Some reason;
                  sm_other := ∅ |};
     m_custom := m_custom old; m_created_at := now; m_updated_at := now; m_revision := 1;
     m_deleted_at := None; m_lang := "" |}.

Definition with_reason (reason : string) (m : CanonicalMemory) : CanonicalMemory :=
  set_meta (with_mark (sm_replaced_by (m_meta m)) (Some reason) (m_meta m)) m.

Definition supersede_memory (now : Z) (ctx : MemoryExecutionContext) (memory_id new_id content reason : string) :
    vprog CanonicalMemory :=
  bind (get_memory now ctx memory_id) (λ old,
  bind (require_owner ctx old "supersede") (λ _,
  if negb (bool_decide (t_status (m_temporal old) = CURRENT))
  then raise (err Conflict ("memory " +:+ memory_id +:+ " is not CURRENT"))
  else
  bind (lift (build_canonical detect_language (new_version now ctx new_id (sanitise content) reason old))) (λ draft,
  bind (memories (twins (tenant_id ctx) old true)) (λ others,
  let '(old', new) := supersede now old draft in
  let closed := with_reason reason <$> (old' :: ((λ t, fst (supersede now t new)) <$> others)) in
  bind (memories (visibility_keys_of (tenant_id ctx) memory_id)) (λ audience,
  bind (memories (add now new audience)) (λ _,
  bind (memories (update_all detect_language now closed)) (λ _,
  bind (index_ now ctx (new :: closed) ("memidx:supersede:" +:+ new_id)) (λ _,
  ret new)))))))).

(** The anchors whose memories a caller lists. *)
Definition bare_scope (l : ScopeLevel) (ctx : MemoryExecutionContext) : Scope :=
  {| sc_level := l; sc_tenant := tenant_id ctx; sc_workspace := workspace_id ctx; sc_user := None;
     sc_thread := None; sc_agent := None; sc_agent_group := None |}.

Definition list_anchors (ctx : MemoryExecutionContext) : list Scope :=
  let s l u t a g := {| sc_level := l; sc_tenant := tenant_id ctx; sc_workspace := workspace_id ctx;
                        sc_user := u; sc_thread := t; sc_agent := a; sc_agent_group := g |} in
  (if otruthy (agent_id ctx) then [s LAgent (user_id ctx) (thread_id ctx) (agent_id ctx) None] else [])
  ++ (if otruthy (user_id ctx) then [s LUser (user_id ctx) None None None] else [])
  ++ (if otruthy (thread_id ctx) then [s LThread None (thread_id ctx) None None] else [])
  ++ (if otruthy (agent_group_id ctx) then [s LAgentGroup None None None (agent_group_id ctx)] else [])
  ++ (if otruthy (workspace_id ctx) then [bare_scope LWorkspace ctx] else [])
  ++ [bare_scope LTenant ctx].

Definition list_query (ctx : MemoryExecutionContext) (types : list MemoryType) (include_superseded : bool) :
    scope_query :=
  {| sq_tenant := tenant_id ctx; sq_scope_keys := scope_key <$> list_anchors ctx; sq_types := types;
     sq_current_only := negb include_superseded |}.

Definition readable (spec : VisibilitySpecification) (r : memory_row) : bool :=
  allows spec (m_tenant (r_memory r)) (r_visibility_keys r).

(** The loop of [list_memories]: batches of the scope until [limit] visible rows
    are found or a short batch says the store is exhausted. [None] where the
    loop of [list_scope] does not return. *)
Fixpoint list_from (fuel : nat) (now : Z) (q : scope_query) (spec : VisibilitySpecification) (batch : nat)
    (before : option (Z * string)) (wanted : nat) (s : session) : option (list memory_row) :=
  match wanted with
  | O => Some []
  | _ =>
      match fuel with
      | O => None
      | S fuel =>
          match list_scope now q before batch s with
          | None => None
          | Some l =>
              let out := take wanted (filter (λ r, readable spec r = true) l) in
              if Nat.ltb (length l) batch then Some out
              else match last l with
                   | Some r => (λ more, out ++ more) <$>
                                 list_from fuel now q spec batch (Some (keyset r)) (wanted - length out) s
                   | None => Some out
                   end
          end
      end
  end.

Definition list_memories (now : Z) (ctx : MemoryExecutionContext) (types : list MemoryType)
    (include_superseded : bool) (before : option (Z * string)) (limit : nat) : vprog (option (list CanonicalMemory)) :=
  bind (reader ctx) (λ spec,
  gets (λ s : sys,
    let m := ms_session s in
    match list_from (S (size (s_rows m))) now (list_query ctx types include_superseded) spec
            (Nat.max (limit * 2) 50) before limit m with
    | Some l => Some (to_domain <$> l)
    | None => None
    end)).

(** [reinstate]: the memories written. *)
Definition to_reinstate (ids : list string) (m : CanonicalMemory) : bool :=
  bool_decide (m_deleted_at m = None)
  && match replaced_by (m_meta m) with
     | Some i => bool_decide (i ∈ ids)
     | None => false
     end.

Definition reinstate (now : Z) (tenant_id : string) (gone : list string) : vprog (list CanonicalMemory) :=
  let ids := str_sorted (fromkeys gone) in
  match ids with
  | [] => ret []
  | _ =>
      bind (memories (replaced_by_any tenant_id ids)) (λ found,
      let out := unmark now ids <$> filter (λ m, to_reinstate ids m = true) found in
      bind (memories (update_all detect_language now out)) (λ _, ret out))
  end.

(** [forget]. The rows are locked before anything is decided on them; within one
    unit of work the lock changes nothing. *)
Definition forget_memory (now : Z) (ctx : MemoryExecutionContext) (memory_id : string) :
    vprog (option CanonicalMemory) :=
  bind (memories (is_forgotten (tenant_id ctx) memory_id)) (λ gone,
  if gone then ret None
  else
  bind (get_memory now ctx memory_id) (λ m,
  bind (require_owner ctx m "forget") (λ _,
  bind (memories (twins (tenant_id ctx) m false)) (λ others,
  bind (memories (forget_all now (tenant_id ctx) (m_id <$> m :: others))) (λ _,
  bind (reinstate now (tenant_id ctx) (m_id <$> m :: others)) (λ restored,
  bind (index_ now ctx ((m :: others) ++ restored) ("memidx:forget:" +:+ memory_id)) (λ _,
  ret (Some m)))))))).

(** [ForgettingService.restore] and [MemoryService.restore]. [restored_at] is
    written into the metadata. *)
Definition restored (now : Z) (iso : Z → string) (m : CanonicalMemory) : CanonicalMemory :=
  let x := m_meta m in
  let record := match sm_other x !! "forgetting" with
                | Some (JObj fields) => filter (λ p, fst p ≠ "restored_at") fields
                | _ => []
                end in
  let x' := {| sm_provider := sm_provider x; sm_category := sm_category x; sm_entities := sm_entities x;
               sm_expires_at := sm_expires_at x; sm_indexed_at := sm_indexed_at x;
               sm_visibility_keys := sm_visibility_keys x; sm_derived_slot := sm_derived_slot x;
               sm_source_revisions := sm_source_revisions x; sm_replaced_by := sm_replaced_by x;
               sm_supersede_reason := sm_supersede_reason x;
               sm_other := <["forgetting" := JObj (record ++ [("restored_at", JStr (iso now))])]> (sm_other x) |} in
  touch now (set_access (m_accesses m + 1) (Some now)
    (set_meta x' (set_temporal (set_status CURRENT (m_temporal m)) m))).

Definition restore_archived (now : Z) (iso : Z → string) (ctx : MemoryExecutionContext) (memory_id : string) :
    vprog (option CanonicalMemory) :=
  bind (memories (get now (tenant_id ctx) memory_id)) (λ found,
  match found with
  | Some m =>
      if decide (t_status (m_temporal m) = ARCHIVED) then
        let m' := restored now iso m in
        bind (memories (update detect_language now m')) (λ m'',
        bind (in_outbox (add_job now (memory_index_job (tenant_id ctx) [memory_id]
               ("memidx:restore:" +:+ memory_id +:+ ":" +:+ text_of_Z now)))) (λ _,
        bind (bump_memory_revisions [m'']) (λ _, ret (Some m''))))
      else ret (Some m)
  | None => ret None
  end).

Definition restore (now : Z) (iso : Z → string) (ctx : MemoryExecutionContext) (memory_id : string) :
    vprog CanonicalMemory :=
  bind (get_memory now ctx memory_id) (λ m,
  bind (require_owner ctx m "restore") (λ _,
  bind (restore_archived now iso ctx memory_id) (λ r,
  ret (default m r)))).
End service.

(** ** Lemmas: the listing *)

Section listing.
Context (q : scope_query) (s : session) (Hwf : rows_wf s) (now : Z) (spec : VisibilitySpecification).

Abbreviation readable := (readable spec).

(** Every row of the query before a keyset that is valid and that the caller may
    read, newest first. *)
Definition visible_below (before : option (Z * string)) : list memory_row :=
  filter (λ r, readable r = true) (filter (λ r, negb (invalid_derived now r) = true) (all_below q s before)).

Abbreviation valid_below before := (filter (λ r, negb (invalid_derived now r) = true) (all_below q s before)).

Lemma valid_next before n r :
  last (take n (valid_below before)) = Some r → valid_below (Some (keyset r)) = drop n (valid_below before).
Proof using Hwf.
  intros Hlast. rewrite (all_below_next q s Hwf before r).
  - rewrite (drop_after older n (valid_below before) r).
    + rewrite !list_filter_filter. apply list_filter_iff. tauto.
    + apply older_asym.
    + apply older_irrefl.
    + apply strictly_filter, all_below_strict, Hwf.
    + done.
  - apply last_Some in Hlast as [l Hl].
    assert (r ∈ valid_below before) as [_ Hin]%list_elem_of_filter; [|done].
    rewrite <- (take_drop n (valid_below before)), Hl, !elem_of_app. left. right. by left.
Qed.

Lemma list_from_spec fuel batch before wanted :
  sq_scope_keys q ≠ [] → (0 < batch)%nat → (length (valid_below before) < fuel)%nat →
  list_from fuel now q spec batch before wanted s = Some (take wanted (visible_below before)).
Proof using Hwf.
  intros Hkeys Hbatch. revert before wanted. induction fuel as [|fuel IH]; intros before wanted Hfuel; [lia|].
  destruct wanted as [|w]; [done|]. cbn [list_from]. set (wanted := S w) in *.
  rewrite (list_scope_spec q s Hwf now before batch Hkeys).
  unfold visible_below. set (V := valid_below before) in *.
  destruct (Nat.ltb_spec (length (take batch V)) batch) as [Hlt|Hge].
  - rewrite length_take in Hlt. by rewrite (take_ge V) by lia.
  - destruct (last (take batch V)) as [r|] eqn:Hlast.
    2: { apply last_None in Hlast. rewrite Hlast in Hge. simpl in Hge. lia. }
    pose proof (valid_next before batch r Hlast) as Hnext. fold V in Hnext.
    rewrite length_take in Hge. rewrite IH.
    + simpl. f_equal. unfold visible_below. rewrite Hnext. rewrite <- (take_drop batch V) at 4.
      rewrite filter_app, take_app. f_equal. f_equal. rewrite length_take. lia.
    + rewrite Hnext, length_drop. lia.
Qed.

(** A page that starts below the last row of another continues it. *)
Lemma visible_next before n r :
  last (take n (visible_below before)) = Some r → visible_below (Some (keyset r)) = drop n (visible_below before).
Proof using Hwf.
  intros Hlast.
  rewrite (drop_after older n (visible_below before) r); [|apply older_asym|apply older_irrefl| |done].
  - unfold visible_below. rewrite (all_below_next q s Hwf before r).
    + rewrite !list_filter_filter. apply list_filter_iff. tauto.
    + apply last_Some in Hlast as [l Hl].
      assert (r ∈ visible_below before) as [_ [_ Hin]%list_elem_of_filter]%list_elem_of_filter; [|done].
      rewrite <- (take_drop n (visible_below before)), Hl, !elem_of_app. left. right. by left.
  - apply strictly_filter, strictly_filter, all_below_strict, Hwf.
Qed.

Lemma elem_visible_below before r :
  r ∈ visible_below before ↔ readable r = true ∧ invalid_derived now r = false ∧ in_scope_query q r = true ∧
    below before r = true ∧ s_rows s !! m_id (r_memory r) = Some r.
Proof using Hwf.
  unfold visible_below. rewrite !list_elem_of_filter, negb_true_iff, (elem_all_below q s Hwf). tauto.
Qed.

Lemma visible_below_sorted before : StronglySorted (λ x y, older x y = true) (visible_below before).
Proof using Hwf. apply strictly_filter, strictly_filter, all_below_strict, Hwf. Qed.
End listing.

Lemma list_query_keys ctx types old : sq_scope_keys (list_query ctx types old) ≠ [].
Proof. unfold list_query, list_anchors. simpl. rewrite !fmap_app. intros Heq. by repeat apply app_nil in Heq as [_ Heq]. Qed.

Section theorems.
#[local] Set Default Proof Using "Type".
Context {P C : Type} `{AuthorizationLaws P} `{CacheLaws C} `{Codec AuthorizedScope}.
Variable blake2b : string → string.
Variable max_listed : nat.
Variable cache_ttl : Z.
Variable decision_cache : bool.
Variable content_hash : string → string.
Variable normalized_hash : string → string.
Variable detect_language : string → string.
Variable dated_mentions : string → Z → json.
Implicit Types s : memory_sys P C.

Abbreviation reader_ := (reader blake2b max_listed cache_ttl decision_cache).
Abbreviation list_memories_ := (list_memories blake2b max_listed cache_ttl decision_cache).

Lemma in_sys_frame {A} (m : prog (tenancy_sys P C) A) s :
  ms_session (snd (in_sys m s)) = ms_session s ∧ ms_outbox (snd (in_sys m s)) = ms_outbox s.
Proof. unfold in_sys, zoom. by destruct (m (ms_sys s)). Qed.

(** The listing is exactly the caller's memories. Whatever hidden or lapsed
    rows lie between, [list_memories] returns the first [limit] of the memories
    anchored to the caller that are valid and that the caller may read, strictly
    newest first, and nothing else; the page that starts below its last row is
    what comes next, so a walk of pages meets every such memory once. *)
Theorem list_memories_exact now ctx types old before limit spec s s1 :
  rows_wf (ms_session s) → reader_ ctx s = (Ok spec, s1) →
  let all := visible_below (list_query ctx types old) (ms_session s) now spec before in
  list_memories_ now ctx types old before limit s = (Ok (Some (to_domain <$> take limit all)), s1) ∧
  StronglySorted (λ x y, older x y = true) all ∧
  (∀ r, r ∈ all ↔ readable spec r = true ∧ invalid_derived now r = false ∧
     in_scope_query (list_query ctx types old) r = true ∧ below before r = true ∧
     s_rows (ms_session s) !! m_id (r_memory r) = Some r) ∧
  (∀ n r, last (take limit all) = Some r →
     list_memories_ now ctx types old (Some (keyset r)) n s = (Ok (Some (to_domain <$> take n (drop limit all))), s1)).
Proof.
  intros Hwf Hreader all.
  assert (ms_session s1 = ms_session s) as Hs1.
  { pose proof (proj1 (in_sys_frame (in_authz (AuthzService.visibility blake2b max_listed cache_ttl decision_cache
      ctx true None None)) s)) as Hf. unfold reader in Hreader. by rewrite Hreader in Hf. }
  assert (∀ b n, list_memories_ now ctx types old b n s =
    (Ok (Some (to_domain <$> take n (visible_below (list_query ctx types old) (ms_session s) now spec b))), s1)) as Hlist.
  { intros b n. unfold list_memories. erewrite bind_ok; [|exact Hreader]. unfold gets. rewrite Hs1.
    rewrite list_from_spec; [done|exact Hwf|apply list_query_keys|lia|].
    pose proof (length_all_below (list_query ctx types old) (ms_session s) b).
    pose proof (length_filter (λ r, negb (invalid_derived now r) = true)
      (all_below (list_query ctx types old) (ms_session s) b)). lia. }
  split_and!.
  - apply Hlist.
  - by apply visible_below_sorted.
  - intros r. by apply elem_visible_below.
  - intros n r Hlast. rewrite Hlist. unfold all. do 4 f_equal. f_equal. by apply visible_next.
Qed.

(** *** Who may change a memory *)

Abbreviation get_memory_ := (get_memory blake2b max_listed cache_ttl decision_cache).
Abbreviation supersede_ := (supersede_memory blake2b max_listed cache_ttl decision_cache content_hash normalized_hash
  detect_language).
Abbreviation forget_ := (forget_memory blake2b max_listed cache_ttl decision_cache detect_language).
Abbreviation restore_ := (restore blake2b max_listed cache_ttl decision_cache detect_language).

Lemma reader_frame ctx s spec s1 :
  reader_ ctx s = (Ok spec, s1) → ms_session s1 = ms_session s ∧ ms_outbox s1 = ms_outbox s.
Proof.
  intros Hr. pose proof (in_sys_frame (in_authz (AuthzService.visibility blake2b max_listed cache_ttl decision_cache
    ctx true None None)) s) as Hf. unfold reader in Hr. by rewrite Hr in Hf.
Qed.

Lemma memories_gets {A} (f : session → A) s : memories (gets f) s = (Ok (f (ms_session s)), s).
Proof. unfold memories, zoom, gets. by destruct s. Qed.

(** [get_memory], once the caller's audience is known. *)
Lemma get_memory_spec now ctx id m s spec s1 :
  get now (tenant_id ctx) id (ms_session s) = (Ok (Some m), ms_session s) → reader_ ctx s = (Ok spec, s1) →
  get_memory_ now ctx id s =
  ((if allows spec (m_tenant m) (match own_row (tenant_id ctx) (m_id m) (ms_session s) with
                                 | Some r => r_visibility_keys r
                                 | None => []
                                 end)
    then Ok m else Raise (err ScopeDenied ("memory " +:+ id +:+ " is not visible in this scope"))), s1).
Proof.
  intros Hget Hreader. unfold get_memory, visible.
  unfold get in Hget |- *. erewrite bind_ok; [|apply memories_gets]. unfold gets in Hget. injection Hget as ->.
  unfold visibility_keys_of.
  erewrite bind_ok; [|erewrite bind_ok; [|apply memories_gets]; erewrite bind_ok; [|exact Hreader]; reflexivity].
  by destruct (allows _ _ _).
Qed.

Definition refused {A} (r : res A * memory_sys P C) (s : memory_sys P C) : Prop :=
  (∃ msg, fst r = Raise (err ScopeDenied msg)) ∧ ms_session (snd r) = ms_session s ∧ ms_outbox (snd r) = ms_outbox s.

Lemma refused_owner {A} now ctx id m s spec s1 action (k : CanonicalMemory → prog (memory_sys P C) A) :
  get now (tenant_id ctx) id (ms_session s) = (Ok (Some m), ms_session s) → reader_ ctx s = (Ok spec, s1) →
  is_agent ctx = true → said_by_a_person m = true →
  refused (bind (get_memory_ now ctx id) (λ m, bind (require_owner ctx m action) (λ _, k m)) s) s.
Proof.
  intros Hget Hreader Hagent Hsaid. pose proof (get_memory_spec now ctx id m s spec s1 Hget Hreader) as Hg.
  destruct (reader_frame ctx s spec s1 Hreader) as [Hs Ho]. destruct (allows _ _ _).
  - erewrite bind_ok; [|exact Hg].
    erewrite bind_raise; [|unfold require_owner; rewrite Hagent, Hsaid; reflexivity].
    split_and!; [by eexists|exact Hs|exact Ho].
  - erewrite bind_raise; [|exact Hg]. split_and!; [by eexists|exact Hs|exact Ho].
Qed.

(** What a person said is theirs. A caller who is an agent, a tenant admin's
    agent included, can neither supersede, forget nor restore a memory a person
    said (a [user:] owner, or a [said] turn about a [user:] subject): the request
    is refused and neither a row nor a job is written. *)
Theorem agents_keep_users_words now iso ctx id new_id content reason m s spec s1 :
  get now (tenant_id ctx) id (ms_session s) = (Ok (Some m), ms_session s) → reader_ ctx s = (Ok spec, s1) →
  is_agent ctx = true → said_by_a_person m = true →
  refused (supersede_ now ctx id new_id content reason s) s ∧
  refused (forget_ now ctx id s) s ∧
  refused (restore_ now iso ctx id s) s.
Proof.
  intros Hget Hreader Hagent Hsaid.
  assert (is_forgotten (tenant_id ctx) id (ms_session s) = (Ok false, ms_session s)) as Hlive.
  { unfold get, gets in Hget. injection Hget as Hfound. revert Hfound.
    destruct (own_row (tenant_id ctx) id (ms_session s)) as [r|] eqn:Hr; [|done]. intros _.
    apply own_row_spec in Hr as (Hr & _ & Hd). unfold is_forgotten, gets, live.
    by rewrite Hr, Hd, andb_false_r. }
  split_and!.
  - by eapply refused_owner.
  - unfold forget_memory, is_forgotten in *. erewrite bind_ok; [|apply memories_gets].
    unfold gets in Hlive. injection Hlive as ->. by eapply refused_owner.
  - by eapply refused_owner.
Qed.

(** *** Steps that leave the memories alone *)

Abbreviation unwritten := (leaves (E := exn) (ms_session (P := P) (C := C))).

Lemma unwritten_sys {A} (m : prog (tenancy_sys P C) A) : unwritten (in_sys m).
Proof. by apply leaves_away. Qed.
Lemma unwritten_outbox {A} (m : prog outbox A) : unwritten (in_outbox m).
Proof. by apply leaves_away. Qed.
Lemma unwritten_gets {A} (f : session → A) : unwritten (memories (gets f)).
Proof. intros s. by rewrite memories_gets. Qed.
#[local] Hint Resolve unwritten_sys unwritten_outbox unwritten_gets : frame.

Lemma unwritten_index now ctx l key : unwritten (index_ now ctx l key).
Proof.
  apply leaves_bind; [auto with frame|intros o]. apply leaves_bind; [|auto with frame].
  apply leaves_mapM. intros x. unfold in_revisions. auto with frame.
Qed.

Lemma unwritten_get_memory now ctx id : unwritten (get_memory_ now ctx id).
Proof. unfold get_memory, get, visible, visibility_keys_of, reader. auto 10 with frame. Qed.

Lemma unwritten_require ctx m action : unwritten (require_owner ctx m action).
Proof. unfold require_owner. auto 10 with frame. Qed.

Lemma get_memory_inv now ctx id m s s1 :
  get_memory_ now ctx id s = (Ok m, s1) →
  ms_session s1 = ms_session s ∧ get now (tenant_id ctx) id (ms_session s) = (Ok (Some m), ms_session s).
Proof.
  intros Hrun. split; [by pose proof (unwritten_get_memory now ctx id s) as Hq; rewrite Hrun in Hq|].
  unfold get_memory in Hrun. apply bind_Ok_inv in Hrun as (found & s2 & Hget & Hrest).
  unfold get in *. rewrite memories_gets in Hget. injection Hget as <- <-.
  destruct (match own_row (tenant_id ctx) id (ms_session s) with Some r => _ | None => _ end) as [m'|] eqn:Hf; [|done].
  apply bind_Ok_inv in Hrest as (ok & s3 & _ & Hok). destruct ok; [|done]. injection Hok as <- _.
  unfold gets. by rewrite Hf.
Qed.

(** *** Forgetting *)

Abbreviation reinstate_ := (reinstate (P := P) (C := C) detect_language).

Lemma memories_run {A} (m : mprog A) s :
  memories m s = (fst (m (ms_session s)), set_ms_session (snd (m (ms_session s))) s).
Proof. unfold memories, zoom. by destruct (m (ms_session s)). Qed.

(** The marked memories [reinstate] finds: the live rows of the tenant that one
    of the gone ones replaced. *)
Definition marked_by (t : string) (ids : list string) (r : memory_row) : Prop :=
  m_tenant (r_memory r) = t ∧ deleted r = None ∧ ∃ i, replaced_by (m_meta (r_memory r)) = Some i ∧ i ∈ ids.

(** What it writes. *)
Definition reinstating (now : Z) (t : string) (ids : list string) (ses : session) : list CanonicalMemory :=
  unmark now ids <$> filter (λ m, to_reinstate ids m = true) (to_domain <$> select (marks t ids) ses).

Lemma reinstating_inv now t ids ses m : rows_wf ses → m ∈ reinstating now t ids ses →
  ∃ r, m = unmark now ids (to_domain r) ∧ s_rows ses !! m_id m = Some r ∧ marked_by t ids r.
Proof.
  intros Hwf (m0 & -> & [Hre (r & -> & [Hp Hr]%(elem_select _ Hwf))%list_elem_of_fmap]%list_elem_of_filter)%list_elem_of_fmap.
  exists r. split_and!; [done|by rewrite (proj1 (unmark_keeps _ _ _))|].
  apply andb_true_iff in Hp as [Ht%bool_decide_eq_true _], Hre as [Hd%bool_decide_eq_true Hi]. split_and!; [done..|].
  change (replaced_by (m_meta (to_domain r))) with (replaced_by (m_meta (r_memory r))) in Hi.
  destruct (replaced_by _) as [i|]; [|done]. apply bool_decide_eq_true in Hi. by exists i.
Qed.

Lemma elem_reinstating now t ids ses j r : rows_wf ses → s_rows ses !! j = Some r → marked_by t ids r →
  unmark now ids (to_domain r) ∈ reinstating now t ids ses.
Proof.
  intros Hwf Hr (Ht & Hd & i & Hi & Hin). apply list_elem_of_fmap_2, list_elem_of_filter. split.
  - unfold to_reinstate. rewrite bool_decide_eq_true_2 by done. cbn [andb].
    change (replaced_by (m_meta (to_domain r))) with (replaced_by (m_meta (r_memory r))). rewrite Hi.
    by apply bool_decide_eq_true_2.
  - apply list_elem_of_fmap_2, (elem_select _ Hwf). split; [|by rewrite (Hwf j r Hr)]. unfold marks.
    rewrite bool_decide_eq_true_2 by done. cbn [andb]. unfold replaced_by in Hi.
    destruct (sm_replaced_by (m_meta (r_memory r))) as [k|]; [|done]. destruct (truthy _); [|done].
    injection Hi as <-. by apply bool_decide_eq_true_2.
Qed.

Lemma NoDup_reinstating now t ids ses : rows_wf ses → NoDup (m_id <$> reinstating now t ids ses).
Proof.
  intros Hwf. unfold reinstating. rewrite <- list_fmap_compose.
  rewrite (list_fmap_ext _ m_id) by (intros i m _; apply unmark_keeps).
  eapply sublist_NoDup; [apply (NoDup_select_ids ses (marks t ids) Hwf)|].
  change (λ r0, m_id (r_memory r0)) with (m_id ∘ to_domain). rewrite list_fmap_compose.
  apply fmap_sublist, sublist_filter.
Qed.

Lemma reinstate_run now t ids0 s out s' :
  rows_wf (ms_session s) → reinstate_ now t ids0 s = (Ok out, s') →
  let ids := str_sorted (fromkeys ids0) in
  ms_session s' = ms_session s ∧ ids = [] ∨
  update_all detect_language now (reinstating now t ids (ms_session s)) (ms_session s) = (Ok tt, ms_session s').
Proof.
  intros Hwf Hrun ids. unfold reinstate in Hrun. fold ids in Hrun. destruct ids as [|i0 ids'] eqn:Eids.
  { injection Hrun as _ <-. by left. }
  right. rewrite <- Eids in *. unfold replaced_by_any in Hrun.
  erewrite bind_ok in Hrun; [|apply memories_gets]. cbv beta in Hrun. fold (reinstating now t ids (ms_session s)) in Hrun.
  apply bind_Ok_inv in Hrun as ([] & s2 & Hupd & Hret). injection Hret as _ <-.
  rewrite memories_run in Hupd. injection Hupd as Hok <-. cbn [ms_session set_ms_session].
  destruct (update_all _ _ _ _) as [o ses]. simpl in *. by subst o.
Qed.

Lemma reinstate_spec now t ids0 s out s' :
  rows_wf (ms_session s) → reinstate_ now t ids0 s = (Ok out, s') →
  let ids := str_sorted (fromkeys ids0) in
  keeps_gone (ms_session s) (ms_session s') ∧
  (∀ j, retracted t j (ms_session s) → retracted t j (ms_session s')) ∧
  (∀ j r, s_rows (ms_session s) !! j = Some r → underived j (ms_session s) →
     (marked_by t ids r →
        s_rows (ms_session s') !! j = Some (updated_row detect_language (unmark now ids (to_domain r)) r)) ∧
     (¬ marked_by t ids r → s_rows (ms_session s') !! j = Some r)).
Proof.
  intros Hwf Hrun ids. destruct (reinstate_run now t ids0 s out s' Hwf Hrun) as [[-> Hids]|Hupd].
  { fold ids in Hids. split_and!; [by apply keeps_gone_refl|done|]. intros j r Hr _. split; [|done].
    intros (_ & _ & i & _ & Hi). rewrite Hids in Hi. by apply elem_of_nil in Hi. }
  fold ids in Hupd. destruct (update_all_spec detect_language now _ _ _ Hwf Hupd) as (Hk & Hkept & Hrows).
  split_and!; [exact Hk| |].
  - intros j Hj. apply Hkept; [|done]. intros m Hm Hid.
    destruct (reinstating_inv now t ids _ m Hwf Hm) as (r & -> & Hr & _).
    destruct Hj as (r' & Hr' & _ & Hst). apply unmark_keeps. cbn. assert (r = r') as -> by congruence. exact Hst.
  - intros j r Hr Hund. destruct (Hrows (NoDup_reinstating now t ids _ Hwf) j Hund) as [Hin Hout]. split.
    + intros Hm. rewrite (Hin (unmark now ids (to_domain r))), Hr; [done|by eapply elem_reinstating|].
      rewrite (proj1 (unmark_keeps _ _ _)). by apply Hwf.
    + intros Hm. rewrite Hout; [done|]. intros (m & Hid & Hml)%list_elem_of_fmap.
      destruct (reinstating_inv now t ids _ m Hwf Hml) as (r' & _ & Hr' & Hmark).
      assert (r = r') as -> by congruence. done.
Qed.

(** The steps of a [forget] that returns the memory. *)
Lemma forget_run now ctx id m s s' :
  rows_wf (ms_session s) → forget_ now ctx id s = (Ok (Some m), s') →
  let t := tenant_id ctx in
  let others := to_domain <$> select (twin_of t m false) (ms_session s) in
  get now t id (ms_session s) = (Ok (Some m), ms_session s) ∧
  ∃ ses out s1 s2, forget_all now t (m_id <$> m :: others) (ms_session s) = (Ok tt, ses) ∧
    ms_session s1 = ses ∧ reinstate_ now t (m_id <$> m :: others) s1 = (Ok out, s2) ∧ ms_session s' = ms_session s2.
Proof.
  intros Hwf Hrun t others. unfold forget_memory in Hrun. fold t in Hrun.
  apply bind_Ok_inv in Hrun as (gone & sa & Hgone & Hrun). unfold is_forgotten in Hgone.
  rewrite memories_gets in Hgone. injection Hgone as _ <-. destruct gone; [done|].
  apply bind_Ok_inv in Hrun as (m' & sb & Hget & Hrun). apply get_memory_inv in Hget as [Hsb Hget].
  apply bind_Ok_inv in Hrun as ([] & sc & Hreq & Hrun).
  pose proof (unwritten_require ctx m' "forget" sb) as Hsc.
  rewrite Hreq in Hsc. cbn [snd] in Hsc. unfold twins in Hrun. erewrite bind_ok in Hrun; [|apply memories_gets].
  cbv beta in Hrun. apply bind_Ok_inv in Hrun as ([] & sd & Hall & Hrun).
  apply bind_Ok_inv in Hrun as (out & se & Hre & Hrun). apply bind_Ok_inv in Hrun as (jobs & sf & Hidx & Hret).
  injection Hret as -> <-. rewrite Hsc, Hsb in Hall, Hre, Hidx. fold t others in Hall, Hre, Hidx.
  split; [exact Hget|]. rewrite memories_run, Hsc, Hsb in Hall. injection Hall as Hok Hsd.
  exists (ms_session sd), out, sd, se. split_and!; [|done|exact Hre|].
  - subst sd. cbn [ms_session set_ms_session]. destruct (forget_all _ _ _ _) as [o ses]. simpl in *. by subst o.
  - pose proof (unwritten_index now ctx ((m :: others) ++ out) ("memidx:forget:" +:+ id) se) as Hq. by rewrite Hidx in Hq.
Qed.

(** C37: forgetting is complete and final. When [forget] returns the memory, in
    the state it leaves: the memory and every twin of it (the same statement
    kept twice) are deleted and retracted; every memory derived from any of
    them, however far, is retracted; forgetting it again returns [None] to
    anyone of the tenant and changes nothing; and a live memory, derived from
    nothing, that one of them had replaced is reinstated, while every other
    memory derived from nothing is as it was. *)
Theorem forget_memory_complete now ctx id m s s' :
  rows_wf (ms_session s) → forget_ now ctx id s = (Ok (Some m), s') →
  let t := tenant_id ctx in
  let all := id :: ((λ r, m_id (r_memory r)) <$> select (twin_of t m false) (ms_session s)) in
  let ids := str_sorted (fromkeys all) in
  (∀ i, i ∈ all → gone t i (ms_session s') ∧ retracted t i (ms_session s')) ∧
  (∀ x, derives (s_dependencies (ms_session s)) t all x → has_row t x (ms_session s) → retracted t x (ms_session s')) ∧
  (∀ now' ctx', tenant_id ctx' = t → forget_ now' ctx' id s' = (Ok None, s')) ∧
  (∀ j r, s_rows (ms_session s) !! j = Some r → underived j (ms_session s) → j ∉ all →
     (marked_by t ids r →
        s_rows (ms_session s') !! j = Some (updated_row detect_language (unmark now ids (to_domain r)) r)) ∧
     (¬ marked_by t ids r → s_rows (ms_session s') !! j = Some r)).
Proof.
  intros Hwf Hrun t all ids. destruct (forget_run now ctx id m s s' Hwf Hrun) as (Hget & ses & out & s1 & s2 & Hall & Hs1 & Hre & Hs').
  fold t in Hget, Hall, Hre. change (m :: _) with (with_twins t m false (ms_session s)) in Hall, Hre.
  destruct (with_twins_rows now id t false m _ Hwf Hget) as (Hnd & Hid & Hlive).
  assert (m_id <$> with_twins t m false (ms_session s) = all) as Hids.
  { unfold all, with_twins. rewrite fmap_cons, Hid. f_equal. by rewrite <- list_fmap_compose. }
  rewrite Hids in Hall, Hre, Hnd.
  assert (∀ i, i ∈ all → is_Some (own_row t i (ms_session s))) as Hown.
  { rewrite <- Hids. intros i (x & -> & Hx)%list_elem_of_fmap. destruct (Hlive x Hx) as (r & _ & Hr). by exists r. }
  destruct (forget_all_spec now t all (ms_session s) Hwf) as (ses' & Hall' & Hk & _ & Hdone).
  rewrite Hall in Hall'. injection Hall' as <-. destruct (Hdone Hnd Hown) as [Hgone Hder].
  rewrite <- Hs1 in Hk. destruct (reinstate_spec now t all s1 out s2 (kg_wf _ _ Hk) Hre) as (Hk2 & Hret2 & Hrows).
  fold ids in Hrows. rewrite <- Hs1 in Hgone, Hder. rewrite Hs'. split_and!.
  - intros i Hi. destruct (Hgone i Hi) as [Hg Hr]. split; [by apply (kg_gone _ _ Hk2)|by apply Hret2].
  - intros x Hx Hxr. by apply Hret2, Hder.
  - intros now' ctx' Ht'. destruct (kg_gone _ _ Hk2 t id (proj1 (Hgone id ltac:(by left)))) as (r & Hr & Hrt & Hrd).
    rewrite <- Hs' in Hr. unfold forget_memory, is_forgotten. erewrite bind_ok; [|apply memories_gets]. cbv beta.
    rewrite Ht', Hr, Hrt, String.eqb_refl. unfold live. rewrite bool_decide_eq_false_2; [done|].
    destruct Hrd as [d Hd]. by rewrite Hd.
  - intros j r Hr Hund Hni. apply Hrows; [|unfold underived; by rewrite (kg_deps _ _ Hk)].
    rewrite Hs1. pose proof (forget_all_frame now t all (ms_session s) j Hwf Hund Hni) as Hf. rewrite Hall in Hf.
    cbn [snd] in Hf. by rewrite Hf.
Qed.

(** *** Stating a memory *)

Abbreviation remember_ := (remember (P := P) (C := C) content_hash normalized_hash detect_language dated_mentions).
Abbreviation built ctx id now x :=
  (build_memory detect_language dated_mentions normalized_hash (candidate_of content_hash ctx id now x) ctx now id
     (st_custom x)).

(** What [remember] stores of a statement does not depend on when it is said or
    on the id drawn, but for the evidence and the dates. *)
Record stored_as (ctx : MemoryExecutionContext) (id : string) (x : statement) (m : CanonicalMemory) : Prop := {
  sa_id : m_id m = id;
  sa_tenant : m_tenant m = tenant_id ctx;
  sa_owner : m_owner m = principal_id ctx;
  sa_content : m_content m = sanitise (st_content x);
  sa_hash : m_hash m = normalized_hash (sanitise (st_content x));
  sa_scope : ∃ c, scope_for c ctx = Ok (m_scope m) ∧ cd_type c = authored_type (st_type x) (is_agent ctx) ∧
    cd_visibility c = Some (m_visibility m);
  sa_visibility : m_visibility m = match st_visibility x with
                                   | Some v => v
                                   | None => default_visibility (authored_type (st_type x) (is_agent ctx)) ctx
                                               (negb (is_agent ctx))
                                   end;
  sa_status : t_status (m_temporal m) = CURRENT;
  sa_sources : source_ids m = [];
  sa_slot : sm_derived_slot (m_meta m) = None;
}.

Lemma built_spec ctx id now x m : built ctx id now x = Ok m →
  stored_as ctx id x m ∧
  ∀ id' now', ∃ m', built ctx id' now' x = Ok m' ∧ m_scope m' = m_scope m.
Proof.
  unfold build_memory. destruct (scope_for_ok (candidate_of content_hash ctx id now x) ctx) as (sc & Hsc & Hten & _).
  rewrite Hsc. cbn [obind]. unfold build_canonical at 1.
  cbn [m_content m_evidence m_confidence m_importance m_reinforcements m_accesses m_type m_custom_type m_scope m_tenant
       candidate_of cd_content cd_evidence cd_confidence cd_importance cd_type cd_custom_type cd_visibility].
  match goal with |- (if ?b then _ else _) = _ → _ => destruct b eqn:Hfields end; [|done].
  match goal with |- (if ?b then _ else _) = _ → _ => destruct b eqn:Hcustom end; [done|].
  match goal with |- (if ?b then _ else _) = _ → _ => destruct b eqn:Hscope end; [done|].
  cbn [truthy String.eqb negb m_lang]. intros [= <-]. split.
  - split; cbn; try done. exists (candidate_of content_hash ctx id now x). by split_and!.
  - intros id' now'. change (scope_for (candidate_of content_hash ctx id' now' x) ctx)
      with (scope_for (candidate_of content_hash ctx id now x) ctx). rewrite Hsc. cbn [obind]. unfold build_canonical at 1.
    cbn [m_content m_evidence m_confidence m_importance m_reinforcements m_accesses m_type m_custom_type m_scope m_tenant
       candidate_of cd_content cd_evidence cd_confidence cd_importance cd_type cd_custom_type cd_visibility].
    rewrite bool_decide_eq_true_2 in Hfields |- * by done. rewrite Hfields, Hcustom, Hscope.
    cbn [truthy String.eqb negb m_lang]. by eexists.
Qed.

(** What a [remember] that returns did. *)
Lemma remember_run now ctx id x s ack s1 : remember_ now ctx id x s = (Ok ack, s1) →
  ∃ m, built ctx id now x = Ok m ∧ validate_requested_visibility ctx (st_visibility x) = Ok tt ∧
  match current_with_hash (tenant_id ctx) (scope_key (m_scope m)) (m_owner m) (m_hash m) (ms_session s) with
  | (Ok (Some e), _) => ack = {| ack_memory_id := m_id e; ack_deduplicated := true; ack_job_ids := [] |} ∧
                        ms_session s1 = ms_session s ∧ ms_outbox s1 = ms_outbox s
  | (Ok None, _) => ∃ keys, keys_for (m_scope m) (m_visibility m) ctx = Ok keys ∧
      s_rows (ms_session s) !! id = None ∧ ack_memory_id ack = id ∧ ack_deduplicated ack = false ∧
      ms_session s1 = set_s_rows (<[id := row_of m keys]> (s_rows (ms_session s))) (ms_session s)
  | (Raise _, _) => False
  end.
Proof.
  intros Hrun. unfold remember in Hrun.
  apply bind_Ok_inv in Hrun as ([] & sa & Hval & Hrun). injection Hval as Hval <-.
  apply bind_Ok_inv in Hrun as ([] & sb & Hguard & Hrun).
  pose proof (in_sys_frame (guard_workspace_visibility ctx (st_visibility x)) s) as [Hsb Hob].
  rewrite Hguard in Hsb, Hob. cbn [snd] in Hsb, Hob.
  apply bind_Ok_inv in Hrun as (m & sc & Hm & Hrun). injection Hm as Hm <-.
  exists m. split_and!; [exact Hm|exact Hval|]. destruct (built_spec ctx id now x m Hm) as [Hstored _].
  apply bind_Ok_inv in Hrun as ([] & sd & Hlock & Hrun).
  match type of Hlock with in_sys ?l sb = _ => pose proof (in_sys_frame l sb) as [Hsd Hod] end.
  rewrite Hlock in Hsd, Hod. cbn [snd] in Hsd, Hod. rewrite Hsb in Hsd. rewrite Hob in Hod.
  unfold current_with_hash in Hrun |- *. erewrite bind_ok in Hrun; [|apply memories_gets]. cbv beta in Hrun.
  rewrite Hsd in Hrun. unfold gets.
  destruct (to_domain <$> head _) as [e|]; [by injection Hrun as <- <-|].
  apply bind_Ok_inv in Hrun as (keys & se & Hkeys & Hrun). injection Hkeys as Hkeys <-.
  exists keys. split; [exact Hkeys|]. apply bind_Ok_inv in Hrun as ([] & sf & Hadd & Hrun).
  rewrite memories_run, (add_spec now m keys _ (sa_sources _ _ _ _ Hstored) (sa_slot _ _ _ _ Hstored)), Hsd in Hadd.
  rewrite (sa_id _ _ _ _ Hstored) in Hadd. destruct (s_rows (ms_session s) !! id) eqn:Hfresh; [done|].
  injection Hadd as <-. apply bind_Ok_inv in Hrun as (jobs & sg & Hidx & Hret). injection Hret as <- <-.
  split_and!; try done. match type of Hidx with index_ _ _ _ _ ?q = _ =>
    pose proof (unwritten_index now ctx [m] ("memidx:" +:+ id) q) as Hq end. by rewrite Hidx in Hq.
Qed.

(** Stating what is there already. *)
Lemma remember_existing now ctx id x s sg m e :
  built ctx id now x = Ok m → validate_requested_visibility ctx (st_visibility x) = Ok tt →
  in_sys (guard_workspace_visibility ctx (st_visibility x)) s = (Ok tt, sg) →
  current_with_hash (tenant_id ctx) (scope_key (m_scope m)) (m_owner m) (m_hash m) (ms_session s) =
    (Ok (Some e), ms_session s) →
  ∃ s', remember_ now ctx id x s =
          (Ok {| ack_memory_id := m_id e; ack_deduplicated := true; ack_job_ids := [] |}, s') ∧
        ms_session s' = ms_session s ∧ ms_outbox s' = ms_outbox s.
Proof.
  intros Hm Hval Hguard Hfound.
  pose proof (in_sys_frame (guard_workspace_visibility ctx (st_visibility x)) s) as [Hs Ho].
  rewrite Hguard in Hs, Ho. cbn [snd] in Hs, Ho.
  set (lock := serialize (P := P) (C := C) ("remember:" +:+ tenant_id ctx +:+ ":" +:+ scope_key (m_scope m) +:+ ":" +:+ m_hash m)).
  pose proof (in_sys_frame lock sg) as [Hsl Hol]. exists (snd (in_sys lock sg)). split_and!; [|congruence..].
  unfold remember. erewrite bind_ok; [|unfold lift; by rewrite Hval]. erewrite bind_ok; [|exact Hguard].
  erewrite bind_ok; [|unfold lift; by rewrite Hm]. erewrite bind_ok; [|done]. fold lock.
  unfold current_with_hash in *. erewrite bind_ok; [|apply memories_gets]. cbv beta.
  apply (f_equal fst) in Hfound. unfold gets in Hfound. cbn [fst] in Hfound. revert Hfound.
  cbn [ms_session set_ms_sys]. rewrite Hs. destruct (to_domain <$> head _) as [e'|]; [|done]. by intros [= ->].
Qed.

(** A statement is stored once. When [remember] returns, either the memory it
    names was there already, or exactly one row was added: the caller's own
    words under the new id, current, owned by the caller, with the audience its
    visibility calls for. Either way, stating the same again in a store with
    the same memories (in the same scope, at any later time, with any fresh id)
    returns the same memory as a duplicate and writes neither a row nor a job. *)
Theorem remember_once now ctx id x s ack s1 now' id' s2 s3 :
  rows_wf (ms_session s) → remember_ now ctx id x s = (Ok ack, s1) → ms_session s2 = ms_session s1 →
  in_sys (guard_workspace_visibility ctx (st_visibility x)) s2 = (Ok tt, s3) →
  (if ack_deduplicated ack then ms_session s1 = ms_session s
   else ack_memory_id ack = id ∧ s_rows (ms_session s) !! id = None ∧ ∃ row,
     s_rows (ms_session s1) = <[id := row]> (s_rows (ms_session s)) ∧ stored_as ctx id x (r_memory row) ∧
     keys_for (m_scope (r_memory row)) (m_visibility (r_memory row)) ctx = Ok (r_visibility_keys row)) ∧
  ∃ s4, remember_ now' ctx id' x s2 =
          (Ok {| ack_memory_id := ack_memory_id ack; ack_deduplicated := true; ack_job_ids := [] |}, s4) ∧
        ms_session s4 = ms_session s2 ∧ ms_outbox s4 = ms_outbox s2.
Proof.
  intros Hwf Hrun Hs2 Hguard. destruct (remember_run now ctx id x s ack s1 Hrun) as (m & Hm & Hval & Hcases).
  destruct (built_spec ctx id now x m Hm) as [Hst Hagain]. destruct (Hagain id' now') as (m' & Hm' & Hscope').
  destruct (built_spec ctx id' now' x m' Hm') as [Hst' _].
  destruct (current_with_hash (tenant_id ctx) (scope_key (m_scope m)) (m_owner m) (m_hash m) (ms_session s))
    as [[e|] ses] eqn:Hfound; [|done].
  assert (∃ e', current_with_hash (tenant_id ctx) (scope_key (m_scope m)) (m_owner m) (m_hash m) (ms_session s1) =
    (Ok (Some e'), ms_session s1) ∧ m_id e' = ack_memory_id ack) as (e' & Hfound' & He').
  { destruct e as [e|].
    - destruct Hcases as (-> & -> & _). exists e. split; [|done]. unfold current_with_hash, gets in *. congruence.
    - destruct Hcases as (keys & _ & Hfresh & Hid & _ & ->). exists (to_domain (row_of m keys)).
      pose proof (current_with_hash_added (tenant_id ctx) (scope_key (m_scope m)) (m_owner m) (m_hash m) (ms_session s)
        (row_of m keys) Hwf) as Hadded. cbn [row_of r_memory set_stamp m_id] in Hadded. rewrite (sa_id _ _ _ _ Hst) in Hadded.
      split; [|by rewrite Hid, <- (sa_id _ _ _ _ Hst)]. apply Hadded; [|unfold same_statement|done].
      + unfold current_with_hash, gets in *. congruence.
      + cbn. rewrite (sa_tenant _ _ _ _ Hst), !bool_decide_eq_true_2 by done. unfold current, live. cbn.
        by rewrite (sa_status _ _ _ _ Hst). }
  split.
  - destruct e as [e|]; [by destruct Hcases as (-> & -> & _)|].
    destruct Hcases as (keys & Hkeys & Hfresh & Hid & -> & ->). split_and!; [done|done|]. exists (row_of m keys).
    split_and!; [done|by destruct Hst|done].
  - rewrite <- He'. apply (remember_existing now' ctx id' x s2 s3 m' e' Hm' Hval Hguard).
    rewrite Hscope', (sa_owner _ _ _ _ Hst'), (sa_hash _ _ _ _ Hst'), <- (sa_owner _ _ _ _ Hst), <- (sa_hash _ _ _ _ Hst).
    by rewrite Hs2.
Qed.

(** *** Superseding *)

Definition closed_by (now : Z) (reason : string) (new m : CanonicalMemory) : CanonicalMemory :=
  with_reason reason (fst (supersede now m new)).

(** The new version, linked to the old. *)
Record linked (now : Z) (ctx : MemoryExecutionContext) (new_id content : string) (old draft new : CanonicalMemory) :
    Prop := {
  lk_id : m_id new = new_id;
  lk_since : since (m_temporal new) = now;
  lk_content : m_content new = content;
  lk_status : t_status (m_temporal new) = CURRENT;
  lk_from : t_valid_from (m_temporal new) = Some now;
  lk_supersedes : t_supersedes (m_temporal new) = Some (m_id old);
  lk_owner : m_owner new = if is_agent ctx then principal_id ctx else m_owner old;
  lk_sources : source_ids new = [];
  lk_slot : sm_derived_slot (m_meta new) = None;
  lk_old : fst (supersede now old draft) = fst (supersede now old new);
}.

Lemma new_version_linked now ctx new_id content reason old draft :
  build_canonical detect_language (new_version content_hash normalized_hash now ctx new_id content reason old) =
    Ok draft →
  linked now ctx new_id content old draft (snd (supersede now old draft)).
Proof.
  intros [lang ->]%build_canonical_spec. unfold new_version, authorship. destruct (is_agent ctx) eqn:Ha; split; rewrite ?Ha; done.
Qed.

Lemma supersede_run now ctx id new_id content reason new s s' :
  supersede_ now ctx id new_id content reason s = (Ok new, s') →
  ∃ old draft ses, get now (tenant_id ctx) id (ms_session s) = (Ok (Some old), ms_session s) ∧
    t_status (m_temporal old) = CURRENT ∧
    build_canonical detect_language
      (new_version content_hash normalized_hash now ctx new_id (sanitise content) reason old) = Ok draft ∧
    new = snd (supersede now old draft) ∧ s_rows (ms_session s) !! new_id = None ∧
    ses = set_s_rows (<[new_id := row_of new (match own_row (tenant_id ctx) id (ms_session s) with
                                              | Some r => r_visibility_keys r | None => [] end)]>
            (s_rows (ms_session s))) (ms_session s) ∧
    update_all detect_language now
      (closed_by now reason new <$> with_twins (tenant_id ctx) old true (ms_session s)) ses = (Ok tt, ms_session s').
Proof.
  intros Hrun. unfold supersede_memory in Hrun.
  apply bind_Ok_inv in Hrun as (old & sa & Hget & Hrun). apply get_memory_inv in Hget as [Hsa Hget].
  apply bind_Ok_inv in Hrun as ([] & sb & Hreq & Hrun).
  pose proof (unwritten_require ctx old "supersede" sa) as Hsb. rewrite Hreq in Hsb. cbn [snd] in Hsb. rewrite Hsa in Hsb.
  destruct (bool_decide (t_status (m_temporal old) = CURRENT)) eqn:Hcur; [|done]. apply bool_decide_eq_true in Hcur.
  cbn [negb] in Hrun. apply bind_Ok_inv in Hrun as (draft & sc & Hdraft & Hrun). injection Hdraft as Hdraft <-.
  unfold twins in Hrun. erewrite bind_ok in Hrun; [|apply memories_gets]. cbv beta in Hrun. rewrite Hsb in Hrun.
  destruct (supersede now old draft) as [old' new'] eqn:Hsup.
  unfold visibility_keys_of in Hrun. erewrite bind_ok in Hrun; [|apply memories_gets]. cbv beta in Hrun. rewrite Hsb in Hrun.
  apply bind_Ok_inv in Hrun as ([] & sd & Hadd & Hrun). apply bind_Ok_inv in Hrun as ([] & se & Hupd & Hrun).
  apply bind_Ok_inv in Hrun as (jobs & sf & Hidx & Hret). injection Hret as -> <-.
  assert (new = snd (supersede now old draft)) as Hnew by by rewrite Hsup.
  pose proof (new_version_linked _ _ _ _ _ _ _ Hdraft) as Hlink. rewrite <- Hnew in Hlink.
  destruct Hlink as [Hid _ _ _ _ _ _ Hsrc Hslot Hlk].
  rewrite memories_run, (add_spec now new _ _ Hsrc Hslot), Hsb, Hid in Hadd.
  destruct (s_rows (ms_session s) !! new_id) eqn:Hfresh; [done|]. injection Hadd as <-.
  assert (with_reason reason <$> old' :: ((λ t, fst (supersede now t new)) <$>
      (to_domain <$> select (twin_of (tenant_id ctx) old true) (ms_session s))) =
    closed_by now reason new <$> with_twins (tenant_id ctx) old true (ms_session s)) as Hlist.
  { unfold with_twins. rewrite !fmap_cons, <- list_fmap_compose. f_equal. unfold closed_by. f_equal.
    by rewrite <- Hlk, Hsup. }
  rewrite Hlist in Hupd, Hidx. clear Hlist. rewrite memories_run in Hupd.
  pose proof (f_equal fst Hupd) as Hok. pose proof (f_equal snd Hupd) as Hse. cbn [fst snd] in Hok, Hse. clear Hupd.
  exists old, draft. eexists. split_and!; [done..|].
  match type of Hidx with index_ _ _ ?l ?k ?q = _ => pose proof (unwritten_index now ctx l k q) as Hq end.
  rewrite Hidx in Hq. cbn [snd] in Hq. rewrite Hq, <- Hse. cbn [ms_session set_ms_session] in Hok |- *.
  destruct (update_all _ _ _ _) as [o ses]. cbn [fst snd] in *. by subst o.
Qed.

(** The row a superseded memory leaves. *)
Record closed_row (now : Z) (new_id : string) (old row : memory_row) : Prop := {
  cr_status : status_of row = SUPERSEDED;
  cr_by : t_superseded_by (m_temporal (r_memory row)) = Some new_id;
  cr_valid_to : t_valid_to (m_temporal (r_memory row)) = Some (default now (t_valid_to (m_temporal (r_memory old))));
  cr_content : m_content (r_memory row) = m_content (r_memory old);
  cr_owner : m_owner (r_memory row) = m_owner (r_memory old);
  cr_keys : r_visibility_keys row = r_visibility_keys old;
  cr_live : deleted row = deleted old;
}.

(** Superseding keeps one current version and the whole history. When it
    returns, one row was added under a fresh id: the new text, current from now,
    pointing back at the old memory, with exactly the old memory's audience, and
    owned by the old owner unless an agent wrote it. The old memory and every
    current twin of it are closed: superseded by the new id, valid until now (or
    the end they had), their words, owner and audience untouched. Every memory
    derived from one of them is retracted; every other memory derived from
    nothing is as it was. (The memories closed are taken to be derived from
    nothing, and derivations to be of stored memories.) *)
Theorem supersede_links now ctx id new_id content reason new s s' :
  rows_wf (ms_session s) → Forall (λ d, is_Some (s_rows (ms_session s) !! dp_derived d)) (s_dependencies (ms_session s)) →
  supersede_ now ctx id new_id content reason s = (Ok new, s') →
  let t := tenant_id ctx in
  ∃ old closed, s_rows (ms_session s) !! id = Some old ∧
    closed = id :: ((λ r, m_id (r_memory r)) <$> select (twin_of t (to_domain old) true) (ms_session s)) ∧
  (Forall (λ i, underived i (ms_session s)) closed →
   (∃ row, s_rows (ms_session s) !! new_id = None ∧ s_rows (ms_session s') !! new_id = Some row ∧ current row = true ∧
      m_content (r_memory row) = sanitise content ∧ t_valid_from (m_temporal (r_memory row)) = Some now ∧
      t_supersedes (m_temporal (r_memory row)) = Some id ∧ r_visibility_keys row = r_visibility_keys old ∧
      m_owner (r_memory row) = (if is_agent ctx then principal_id ctx else m_owner (r_memory old))) ∧
   (∀ i, i ∈ closed → ∃ before row, s_rows (ms_session s) !! i = Some before ∧
      s_rows (ms_session s') !! i = Some row ∧ closed_row now new_id before row) ∧
   (∀ x, derives (s_dependencies (ms_session s)) t closed x → has_row t x (ms_session s) →
      retracted t x (ms_session s')) ∧
   (∀ j, underived j (ms_session s) → j ≠ new_id → j ∉ closed →
      s_rows (ms_session s') !! j = s_rows (ms_session s) !! j)).
Proof.
  intros Hwf Hfk Hrun t.
  destruct (supersede_run now ctx id new_id content reason new s s' Hrun)
    as (old & draft & ses & Hget & Hcur & Hdraft & Hnew & Hfresh & Hses & Hupd). fold t in Hget, Hses, Hupd.
  destruct (with_twins_rows now id t true old _ Hwf Hget) as (Hnd & Hid & Hclose).
  destruct (Hclose old ltac:(by left)) as (r0 & -> & Hown). rewrite Hid in Hown. rewrite Hown in Hses.
  apply own_row_spec in Hown as (Hr0 & Ht0 & Hd0).
  exists r0, (m_id <$> with_twins t (to_domain r0) true (ms_session s)). split_and!; [exact Hr0| |].
  { unfold with_twins. rewrite fmap_cons, <- list_fmap_compose. by f_equal. }
  set (closed := m_id <$> with_twins _ _ _ _) in *. intros Hund.
  pose proof (new_version_linked _ _ _ _ _ _ _ Hdraft) as Hlink. rewrite <- Hnew in Hlink.
  destruct Hlink as [Hnid Hsince Hcontent Hstatus Hfrom Hsup Howner _ _ _].
  set (row := row_of new (r_visibility_keys r0)) in *.
  assert (s_dependencies ses = s_dependencies (ms_session s)) as Hdeps by by rewrite Hses.
  assert (rows_wf ses) as Hwf'.
  { rewrite Hses. intros i r. cbn. rewrite lookup_insert_Some. intros [[<- <-]|[_ Hr]]; [exact Hnid|by apply Hwf]. }
  set (l := closed_by now reason new <$> with_twins t (to_domain r0) true (ms_session s)) in *.
  assert (m_id <$> l = closed) as Hlid by (unfold l, closed; by rewrite <- list_fmap_compose).
  destruct (update_all_spec detect_language now l ses _ Hwf' Hupd) as (Hk & _ & Hrows). rewrite Hlid in Hrows.
  assert (∀ i, i ∈ closed → i ≠ new_id) as Hne.
  { intros i (m & -> & Hm)%list_elem_of_fmap Heq. destruct (Hclose m Hm) as (r & _ & Hr).
    apply own_row_spec in Hr as [Hr _]. congruence. }
  assert (underived new_id ses) as Hundnew.
  { unfold underived. rewrite Hdeps. eapply Forall_impl; [exact Hfk|]. intros d [y Hy] Heq. simpl in Hy. congruence. }
  assert (∀ j, underived j (ms_session s) → underived j ses) as Hund' by (intros j Hj; unfold underived; by rewrite Hdeps).
  split_and!.
  - exists row. split_and!; [exact Hfresh| | | | | |done|].
    + rewrite (proj2 (Hrows Hnd new_id Hundnew)); [|by intros Hin%Hne]. rewrite Hses. cbn. by rewrite lookup_insert_eq.
    + unfold row, current, live. cbn. by rewrite Hstatus.
    + exact Hcontent.
    + exact Hfrom.
    + by rewrite <- Hid.
    + exact Howner.
  - intros i Hi. pose proof Hi as (m & -> & Hm)%list_elem_of_fmap. destruct (Hclose m Hm) as (r & Hmr & Hr).
    apply own_row_spec in Hr as (Hr & _ & _). exists r, (updated_row detect_language (closed_by now reason new m) r).
    split_and!; [exact Hr| |].
    + rewrite (proj1 (Hrows Hnd (m_id m) (Hund' _ (proj1 (Forall_forall _ _) Hund _ Hi))) (closed_by now reason new m));
        [|by apply list_elem_of_fmap_2|done].
      rewrite Hses. cbn. rewrite lookup_insert_ne by (by intros Heq; apply (Hne _ Hi)). by rewrite Hr.
    + subst m. split; cbn; try done; [by rewrite Hnid|by rewrite Hsince].
  - intros x (i & Hi & Hd)%derives_one (y0 & Hy0 & Hyt). pose proof Hi as (m & -> & Hm)%list_elem_of_fmap.
    destruct (Hclose m Hm) as (r & Hmr & Hr). apply own_row_spec in Hr as (Hr & Hrt & _).
    apply (update_all_derived detect_language now l ses _ t (closed_by now reason new m) x Hwf' Hupd).
    + by apply list_elem_of_fmap_2.
    + by subst m.
    + intros y Hy Hyx. assert (x ∈ closed) as Hx by (rewrite <- Hlid, <- Hyx; by apply list_elem_of_fmap_2).
      eapply derives_underived; [|exact Hd]. by apply (proj1 (Forall_forall _ _) Hund x Hx).
    + by rewrite Hdeps.
    + exists y0. split; [|done]. rewrite Hses. cbn. rewrite lookup_insert_ne; [done|]. intros Heq. congruence.
  - intros j Hj Hjn Hjc. rewrite (proj2 (Hrows Hnd j (Hund' j Hj)) Hjc), Hses. cbn. by rewrite lookup_insert_ne.
Qed.
End theorems.

(** ** Instances *)

Definition no_memories : session :=
  {| s_rows := ∅; s_dependencies := []; s_invalidated := []; s_invalidated_memories := [] |}.
Definition memory_start : memory_sys provider MemoryCache :=
  {| ms_sys := bare; ms_session := no_memories; ms_outbox := {| ob_rows := ∅; ob_next := 1 |} |}.

Definition says (content : string) (mt : MemoryType) (v : option Visibility) : statement :=
  {| st_content := content; st_type := mt; st_lifetime := LONG_TERM; st_visibility := v; st_subject := None;
     st_entities := []; st_valid_from := None; st_valid_to := None; st_custom := ∅ |}.

Definition bob : MemoryExecutionContext := ctx_of "acme" (Some "bob") None None None.
Definition english (_ : string) : string := "en".
Definition undated (_ : string) (_ : Z) : json := JList [].

#[local] Notation demo_remember := (remember (P := provider) (C := MemoryCache) id_hash id_hash english undated).
Definition demo_reader := reader (P := provider) (C := MemoryCache) id_hash 10 60 true.

(** What everyone may read moves one person's cache only. Alice states a
    preference for her whole tenant: Bob's filter accepts the new memory, yet
    none of the counters Bob's cached answers are keyed on has moved (only
    Alice's has), until the index job runs. The memory [remember] bumps by is
    the one it built, whose metadata holds no audience; the stored row's does. *)
Theorem remember_moves_owner_only :
  let s := snd (demo_remember 100 alice "mem_1" (says "Dark mode for all" MPreference (Some TENANT)) memory_start) in
  let revisions s := az_revisions (ts_authz (ms_sys s)) in
  match s_rows (ms_session s) !! "mem_1", fst (demo_reader bob s) with
  | Some row, Ok spec =>
      allows spec "acme" (r_visibility_keys row) = true ∧
      (revision_value "acme" (revisions s) <$> reader_revision_keys bob) =
        (revision_value "acme" (revisions memory_start) <$> reader_revision_keys bob) ∧
      revision_value "acme" (revisions s) (RevUser, "alice") = 1
  | _, _ => False
  end.
Proof. vm_compute. split; [reflexivity|]. split; reflexivity. Qed.

(** Alice says where she lives, and then changes it or takes it back. *)
Definition said : memory_sys provider MemoryCache :=
  snd (demo_remember 100 alice "mem_1" (says "I live in Leeds" MSemantic None) memory_start).

Definition demo_list := list_memories (P := provider) (C := MemoryCache) id_hash 10 60 true.
Definition demo_supersede := supersede_memory (P := provider) (C := MemoryCache) id_hash 10 60 true id_hash id_hash english.
Definition demo_forget := forget_memory (P := provider) (C := MemoryCache) id_hash 10 60 true english.
Definition demo_restore := restore (P := provider) (C := MemoryCache) id_hash 10 60 true english.

Definition acknowledges (id : string) (a : RememberAck) : bool := String.eqb (ack_memory_id a) id.

Lemma rows_wf_check (s : session) : bool_decide (map_Forall (λ i r, m_id (r_memory r) = i) (s_rows s)) = true → rows_wf s.
Proof. intros Hall%bool_decide_eq_true i r Hr. by apply (Hall i r). Qed.

Lemma said_wf : rows_wf (ms_session said).
Proof. apply rows_wf_check. vm_compute. reflexivity. Qed.

Lemma list_memories_exact_witness :
  ∃ spec, fst (demo_list 200 alice [] false None 10 said) =
    Ok (Some (to_domain <$> take 10 (visible_below (list_query alice [] false) (ms_session said) 200 spec None))).
Proof.
  destruct (ran (λ _, true) (demo_reader alice said)) as (spec & Hr & _); [vm_compute; reflexivity|]. exists spec.
  generalize said said_wf Hr. intros s Hwf Hrun.
  destruct (list_memories_exact id_hash 10 60 true 200 alice [] false None 10 spec s (snd (demo_reader alice s)) Hwf Hrun)
    as (Hl & _).
  exact (f_equal fst Hl).
Defined.

(** An agent acting for Alice. *)
Definition alices_agent : MemoryExecutionContext := ctx_of "acme" (Some "alice") (Some "t1") (Some "helper") None.

Lemma agents_keep_users_words_witness :
  refused (demo_supersede 200 alices_agent "mem_1" "mem_2" "12 times 7 = 84" "answer" said) said ∧
  refused (demo_forget 200 alices_agent "mem_1" said) said ∧
  refused (demo_restore 200 text_of_Z alices_agent "mem_1" said) said.
Proof.
  destruct (ran (λ _, true) (demo_reader alices_agent said)) as (spec & Hr & _); [vm_compute; reflexivity|].
  destruct (ran (λ o, match o with Some m => said_by_a_person m | None => false end)
    (get 200 "acme" "mem_1" (ms_session said))) as ([m|] & Hg & Hsaid); [vm_compute; reflexivity| |discriminate].
  assert (snd (get 200 "acme" "mem_1" (ms_session said)) = ms_session said) as Hsame by reflexivity.
  rewrite Hsame in Hg. clear Hsame. revert Hg Hr. generalize said. intros s Hg Hr.
  exact (agents_keep_users_words id_hash 10 60 true id_hash id_hash english 200 text_of_Z alices_agent "mem_1" "mem_2"
    "12 times 7 = 84" "answer" m s spec (snd (demo_reader alices_agent s)) Hg Hr eq_refl Hsaid).
Defined.

Lemma forget_memory_complete_witness :
  let s' := snd (demo_forget 300 alice "mem_1" said) in
  gone "acme" "mem_1" (ms_session s') ∧ demo_forget 400 bob "mem_1" s' = (Ok None, s').
Proof.
  destruct (ran (λ o, bool_decide (is_Some o)) (demo_forget 300 alice "mem_1" said)) as ([m|] & Hf & Hs);
    [vm_compute; reflexivity| |discriminate].
  revert Hf. generalize said said_wf. intros s Hwf Hf.
  destruct (forget_memory_complete id_hash 10 60 true english 300 alice "mem_1" m s (snd (demo_forget 300 alice "mem_1" s))
    Hwf Hf) as (Hgone & _ & Hagain & _).
  split; [apply Hgone; by left|]. exact (Hagain 400 bob eq_refl).
Defined.

Lemma remember_once_witness :
  let home := says "I live in Leeds" MSemantic None in
  let s := snd (demo_remember 100 alice "mem_1" home memory_start) in
  ∃ s4, demo_remember 500 alice "mem_9" home s =
    (Ok {| ack_memory_id := "mem_1"; ack_deduplicated := true; ack_job_ids := [] |}, s4).
Proof.
  intros home s.
  destruct (ran (acknowledges "mem_1") (demo_remember 100 alice "mem_1" home memory_start)) as (ack & Hr & Hid);
    [vm_compute; reflexivity|].
  apply String.eqb_eq in Hid. unfold s. clear s. revert Hr.
  generalize (snd (demo_remember 100 alice "mem_1" home memory_start)). intros s Hr.
  assert (rows_wf (ms_session memory_start)) as Hwf by by intros i r Hi.
  destruct (remember_once id_hash id_hash english undated 100 alice "mem_1" home
    memory_start ack s 500 "mem_9" s (set_ms_sys (ms_sys s) s) Hwf Hr eq_refl) as (_ & s4 & Hagain & _).
  - by destruct s.
  - exists s4. rewrite Hid in Hagain. exact Hagain.
Defined.

Lemma supersede_links_witness :
  let s' := snd (demo_supersede 300 alice "mem_1" "mem_2" "I live in Bristol" "moved" said) in
  ∃ row old, s_rows (ms_session s') !! "mem_2" = Some row ∧ current row = true ∧
    s_rows (ms_session s') !! "mem_1" = Some old ∧ status_of old = SUPERSEDED.
Proof.
  destruct (ran (λ _, true) (demo_supersede 300 alice "mem_1" "mem_2" "I live in Bristol" "moved" said))
    as (new & Hs & _); [vm_compute; reflexivity|].
  assert (s_dependencies (ms_session said) = []) as Hdeps by (vm_compute; reflexivity).
  revert Hs Hdeps. generalize said said_wf. intros s Hwf Hs Hdeps.
  destruct (supersede_links id_hash 10 60 true id_hash id_hash english 300 alice "mem_1" "mem_2" "I live in Bristol" "moved"
    new s (snd (demo_supersede 300 alice "mem_1" "mem_2" "I live in Bristol" "moved" s)) Hwf) as (old & closed & _ & Hcl & Hall).
  { rewrite Hdeps. constructor. }
  { exact Hs. }
  destruct Hall as ((row & _ & Hrow & Hcur & _) & Hclosed & _).
  - apply Forall_forall. intros i _. unfold underived. rewrite Hdeps. constructor.
  - destruct (Hclosed "mem_1") as (b & r & _ & Hr & Hst); [rewrite Hcl; by left|].
    exists row, r. split_and!; [exact Hrow|exact Hcur|exact Hr|apply (cr_status _ _ _ _ Hst)].
Defined.
