(* ===== verification/Feedback.v ===== *)
(** * Feedback: judgements on what the platform did
    (domain/feedback.py, modules/feedback/votes.py,
    adapters/db/feedback_repository.py)

    The records, what makes one a person's vote and who cast it, and the
    repository's queries over a map from tenant and feedback id. *)
From Stdlib Require Import QArith.
From stdpp Require Import sorting.
From S2P Require Import Prelude Errors Ids Text MemoryModel.
#[local] Open Scope Z_scope.

(** ** Data *)

Inductive FeedbackTargetKind : Set := KRun | KMemory | KToolCall | KProcedure.
Inductive FeedbackVerdict : Set := CONFIRM | REJECT | CORRECT | APPROVE | EDIT.
Inductive FeedbackSource : Set := HUMAN | INTERRUPT | JUDGE | SYSTEM.
Inductive ReviewState : Set := PENDING | APPROVED | DISMISSED.
Inductive ProjectionAction : Set :=
| NO_ACTION | MEMORY_REINFORCED | MEMORY_RETRACTED | MEMORY_SUPERSEDED | RUN_LABELLED | TOOL_CALL_COUNTED
| PROCEDURE_REJECTED.

#[export] Instance FeedbackTargetKind_eq_dec : EqDecision FeedbackTargetKind.
Proof. solve_decision. Defined.
#[export] Instance FeedbackVerdict_eq_dec : EqDecision FeedbackVerdict.
Proof. solve_decision. Defined.
#[export] Instance FeedbackSource_eq_dec : EqDecision FeedbackSource.
Proof. solve_decision. Defined.
#[export] Instance ReviewState_eq_dec : EqDecision ReviewState.
Proof. solve_decision. Defined.
#[export] Instance ProjectionAction_eq_dec : EqDecision ProjectionAction.
Proof. solve_decision. Defined.

Definition kind_value (k : FeedbackTargetKind) : string :=
  match k with KRun => "run" | KMemory => "memory" | KToolCall => "tool_call" | KProcedure => "procedure" end.
Definition verdict_value (v : FeedbackVerdict) : string :=
  match v with CONFIRM => "confirm" | REJECT => "reject" | CORRECT => "correct" | APPROVE => "approve" | EDIT => "edit" end.

(** Who decides a run's outcome. *)
Definition OUTCOME_PRECEDENCE (s : FeedbackSource) : Z :=
  match s with SYSTEM => 1 | JUDGE => 2 | INTERRUPT | HUMAN => 3 end.

Definition outcome_teaches (source : FeedbackSource) (success : bool) : bool :=
  negb success || negb (bool_decide (source = SYSTEM)).

Definition REPLACED_REASON : string := "replaced by a newer vote from the same user".
Definition ALREADY_COUNTED_REASON : string := "the same vote from the same user already counts".

Record FeedbackReview := {
  rv_state : ReviewState;
  rv_by : option string;
  rv_at : option Z;
  rv_note : option string;
  rv_replaced_by : option string;
}.

Record FeedbackProjection := {
  pj_action : ProjectionAction;
  pj_memory : option string;
  pj_memories : list string;
  pj_run : option string;
  pj_superseded_by : option string;
  pj_reversed : option string;
  pj_reason : option string;
  pj_at : Z;
}.

(** What a reviewer points at: the fields the service reads. *)
Record FeedbackEvidenceRef := {
  fe_source_type : EvidenceSource;
  fe_source_id : string;
}.

(** [metadata] and a correction that is an object are the JSON objects sent. *)
Record Feedback := {
  fb_id : string;
  fb_tenant : string;
  fb_workspace : option string;
  fb_user : option string;
  fb_agent : option string;
  fb_run : option string;
  fb_trace : option string;
  fb_kind : FeedbackTargetKind;
  fb_target : string;
  fb_verdict : FeedbackVerdict;
  fb_correction : json;
  fb_score : option Q;
  fb_comment : option string;
  fb_reviewer : option string;
  fb_source : FeedbackSource;
  fb_evidence : list FeedbackEvidenceRef;
  fb_metadata : list (string * json);
  fb_created_at : Z;
  fb_projection : option FeedbackProjection;
  fb_review : option FeedbackReview;
  fb_vote : option bool;
}.

Definition affirming (v : FeedbackVerdict) : bool := bool_decide (v = CONFIRM ∨ v = APPROVE).
Definition correcting (v : FeedbackVerdict) : bool := bool_decide (v = CORRECT ∨ v = EDIT).

Definition APPROVAL_COUNTER (v : FeedbackVerdict) : string :=
  match v with APPROVE | CONFIRM => "approvals" | REJECT => "rejections" | EDIT | CORRECT => "edits" end.

Definition pending (f : Feedback) : bool :=
  match fb_review f with Some r => bool_decide (rv_state r = PENDING) | None => false end.

Definition REVIEWER_MAX_CHARS : nat := 200.
Definition COMMENT_MAX_CHARS : nat := 4000.
Definition EVIDENCE_REFS_MAX : nat := 50.

Definition at_most (limit : nat) (s : option string) : bool :=
  match s with Some s => (length (chars s) <=? limit)%nat | None => true end.

(** The validators and bounds of [Feedback]. *)
Definition build_feedback (f : Feedback) : res Feedback :=
  if negb (is_valid_id (fb_id f) && is_valid_id (fb_target f)) then Raise (ValueError "invalid identifier")
  else if negb (match fb_score f with Some q => Qle_bool 0 q && Qle_bool q 1 | None => true end)
  then Raise (ValueError "score must be a number between 0 and 1")
  else if negb (at_most 64 (fb_trace f) && at_most 200 (Some (fb_target f)) && at_most COMMENT_MAX_CHARS (fb_comment f)
                && at_most REVIEWER_MAX_CHARS (fb_reviewer f) && (length (fb_evidence f) <=? EVIDENCE_REFS_MAX)%nat)
  then Raise (ValueError "too long")
  else if correcting (fb_verdict f) && bool_decide (fb_correction f = JNull ∨ fb_correction f = JStr "")
  then Raise (ValueError "needs a correction")
  else Ok f.

Definition cites_memory (r : FeedbackEvidenceRef) : bool :=
  bool_decide (fe_source_type r = EvMemory) || MemoryModel.starts_with "mem_" (fe_source_id r).

Definition cited_memory_ids (limit : nat) (f : Feedback) : list string :=
  take limit (fromkeys (fe_source_id <$> filter (λ r, cites_memory r = true) (fb_evidence f))).

Definition set_review (r : option FeedbackReview) (f : Feedback) : Feedback :=
  {| fb_id := fb_id f; fb_tenant := fb_tenant f; fb_workspace := fb_workspace f; fb_user := fb_user f; fb_agent := fb_agent f;
     fb_run := fb_run f; fb_trace := fb_trace f; fb_kind := fb_kind f; fb_target := fb_target f; fb_verdict := fb_verdict f;
     fb_correction := fb_correction f; fb_score := fb_score f; fb_comment := fb_comment f; fb_reviewer := fb_reviewer f;
     fb_source := fb_source f; fb_evidence := fb_evidence f; fb_metadata := fb_metadata f; fb_created_at := fb_created_at f;
     fb_projection := fb_projection f; fb_review := r; fb_vote := fb_vote f |}.

Definition set_projection (p : option FeedbackProjection) (f : Feedback) : Feedback :=
  {| fb_id := fb_id f; fb_tenant := fb_tenant f; fb_workspace := fb_workspace f; fb_user := fb_user f; fb_agent := fb_agent f;
     fb_run := fb_run f; fb_trace := fb_trace f; fb_kind := fb_kind f; fb_target := fb_target f; fb_verdict := fb_verdict f;
     fb_correction := fb_correction f; fb_score := fb_score f; fb_comment := fb_comment f; fb_reviewer := fb_reviewer f;
     fb_source := fb_source f; fb_evidence := fb_evidence f; fb_metadata := fb_metadata f; fb_created_at := fb_created_at f;
     fb_projection := p; fb_review := fb_review f; fb_vote := fb_vote f |}.

(** ** Votes *)

(** The value of a key of a JSON object, the last one when it is repeated. *)
Definition jget (k : string) (fields : list (string * json)) : option json :=
  snd <$> last (filter (λ p, p.1 = k) fields).

Definition correction_text (correction : json) : string :=
  match correction with
  | JStr s => encode (strip (chars s))
  | JObj fields => match jget "content" fields with Some (JStr s) => encode (strip (chars s)) | _ => "" end
  | _ => ""
  end.

Definition rewrites (f : Feedback) : bool :=
  correcting (fb_verdict f) && negb (bool_decide (correction_text (fb_correction f) = "")).

Definition vote_target (k : FeedbackTargetKind) : bool := bool_decide (k ≠ KToolCall).
Definition automated (s : FeedbackSource) : bool := bool_decide (s = SYSTEM ∨ s = JUDGE).

Definition classify (f : Feedback) (trusted run_vouched : bool) : bool :=
  if trusted || negb (vote_target (fb_kind f)) then false
  else if run_vouched && automated (fb_source f) then false
  else negb (bool_decide (fb_kind f = KMemory) && rewrites f).

Definition human (s : FeedbackSource) : bool := bool_decide (s = HUMAN ∨ s = INTERRUPT).

Definition is_vote (f : Feedback) : bool :=
  match fb_vote f with
  | Some v => v
  | None => if negb (human (fb_source f)) || negb (vote_target (fb_kind f)) then false
            else negb (bool_decide (fb_kind f = KMemory) && rewrites f)
  end.

Definition thumbs_up (f : Feedback) : bool := affirming (fb_verdict f).
Definition same_thumb (a b : Feedback) : bool := Bool.eqb (thumbs_up a) (thumbs_up b).

Definition voter_key (user_id agent_id : option string) : option string :=
  match user_id, agent_id with
  | Some u, _ => Some ("user:" +:+ u)
  | None, Some a => Some ("agent:" +:+ a)
  | None, None => None
  end.

(** ** The repository *)

Abbreviation feedbacks := (gmap (string * string) Feedback).
Abbreviation fbprog A := (prog feedbacks A).

Definition feedback_key (f : Feedback) : string * string := (fb_tenant f, fb_id f).

Definition add_feedback (f : Feedback) : fbprog bool := λ d,
  match d !! feedback_key f with
  | Some _ => (Ok false, d)
  | None => (Ok true, <[feedback_key f := f]> d)
  end.

Definition get_feedback (t i : string) : fbprog (option Feedback) := gets (λ d, d !! (t, i)).

Definition update_projection (t i : string) (p : FeedbackProjection) : fbprog unit :=
  modify (alter (set_projection (Some p)) (t, i)).

Definition update_review (t i : string) (r : FeedbackReview) : fbprog unit := modify (alter (set_review (Some r)) (t, i)).

(** The order of the listings, oldest first. *)
Definition earlier (a b : Z * string) : bool := (a.1 <? b.1) || ((a.1 =? b.1) && str_lt a.2 b.2).
Definition stamp (f : Feedback) : Z * string := (fb_created_at f, fb_id f).
Definition oldest (a b : Feedback) : Prop := earlier (stamp b) (stamp a) = false.
Definition newest (a b : Feedback) : Prop := earlier (stamp a) (stamp b) = false.

#[export] Instance oldest_dec a b : Decision (oldest a b).
Proof. unfold oldest. apply _. Defined.
#[export] Instance newest_dec a b : Decision (newest a b).
Proof. unfold newest. apply _. Defined.

Definition on_target (t : string) (k : FeedbackTargetKind) (i : string) (f : Feedback) : bool :=
  bool_decide (fb_tenant f = t ∧ fb_kind f = k ∧ fb_target f = i).

Definition in_state (s : ReviewState) (f : Feedback) : bool :=
  match fb_review f with Some r => bool_decide (rv_state r = s) | None => false end.

(** [_voter]. *)
Definition by_voter (user_id agent_id : option string) (f : Feedback) : bool :=
  match user_id with
  | Some u => bool_decide (fb_user f = Some u)
  | None => bool_decide (fb_user f = None ∧ fb_agent f = agent_id)
  end.

(** [_is_vote]. *)
Definition stored_vote (f : Feedback) : bool := default (human (fb_source f)) (fb_vote f).

Definition chosen (p : Feedback → bool) (d : feedbacks) : list Feedback := filter (λ f, p f = true) (rows d).

Definition page (p : Feedback → bool) (before : option (Z * string)) (limit : nat) : fbprog (list Feedback) :=
  gets (λ d, ordered newest (Some limit)
    (chosen (λ f, p f && match before with Some b => earlier (stamp f) b | None => true end) d)).

Definition list_for (t : string) (k : FeedbackTargetKind) (i : string) (before : option (Z * string)) (limit : nat) :
    fbprog (list Feedback) := page (on_target t k i) before limit.

Definition list_pending (t : string) (s : ReviewState) (before : option (Z * string)) (limit : nat) : fbprog (list Feedback) :=
  page (λ f, bool_decide (fb_tenant f = t) && in_state s f) before limit.

Definition pending_on (t : string) (k : FeedbackTargetKind) (i : string) (voter : option (option string * option string))
    (votes_only : bool) (limit : nat) : fbprog (list Feedback) :=
  gets (λ d, ordered oldest (Some limit)
    (chosen (λ f, on_target t k i f && in_state PENDING f
                  && match voter with Some (u, a) => by_voter u a f | None => true end
                  && (negb votes_only || stored_vote f)) d)).

Definition applied_votes (t : string) (k : FeedbackTargetKind) (i : string) (user_id agent_id : option string) (limit : nat) :
    fbprog (list Feedback) :=
  gets (λ d, ordered newest (Some limit)
    (chosen (λ f, on_target t k i f && in_state APPROVED f && stored_vote f && by_voter user_id agent_id f) d)).

(** [->>], where the value is a string; other values have no text that equals a tool's name. *)
Definition astext (j : option json) : option string := match j with Some (JStr s) => Some s | _ => None end.

Definition counted (f : Feedback) : bool :=
  match fb_projection f with Some p => bool_decide (pj_action p = TOOL_CALL_COUNTED) | None => false end.

Definition counted_decisions (t agent_id tool : string) (limit : nat) : fbprog (list Feedback) :=
  gets (λ d, ordered newest (Some limit)
    (chosen (λ f, bool_decide (fb_tenant f = t ∧ fb_kind f = KToolCall ∧ default "" (fb_agent f) = agent_id
                               ∧ astext (jget "tool" (fb_metadata f)) = Some tool) && counted f) d)).

(** [review_counts], of one review state. *)
Definition review_counts (t : string) (user_id agent_id : option string) : fbprog (ReviewState → nat) :=
  gets (λ d s, length (chosen (λ f,
    bool_decide (fb_tenant f = t ∧ fb_user f = user_id ∧ fb_agent f = agent_id) && in_state s f
    && bool_decide ((fb_review f ≫= rv_replaced_by) = None)) d)).

(** *** The queue by target *)

Record FeedbackTargetGroup := {
  gr_kind : FeedbackTargetKind;
  gr_target : string;
  gr_votes : nat;
  gr_up : nat;
  gr_down : nat;
  gr_voters : nat;
  gr_latest : Z;
}.

(** The label a voter is counted by. *)
Definition voter_label (f : Feedback) : string :=
  match fb_user f with Some u => "user:" +:+ u | None => "agent:" +:+ default "" (fb_agent f) end.

Definition group_of (votes : list Feedback) (k : FeedbackTargetKind * string) : FeedbackTargetGroup :=
  let g := filter (λ f, (fb_kind f, fb_target f) = k) votes in
  let up := length (filter (λ f, thumbs_up f = true) g) in
  {| gr_kind := k.1; gr_target := k.2; gr_votes := length g; gr_up := up; gr_down := length g - up;
     gr_voters := length (fromkeys (voter_label <$> g));
     gr_latest := match fb_created_at <$> g with x :: l => foldr Z.max x l | [] => 0 end |}.

Definition group_stamp (g : FeedbackTargetGroup) : Z * (string * string) := (gr_latest g, (kind_value (gr_kind g), gr_target g)).

Definition group_earlier (a b : Z * (string * string)) : bool :=
  (a.1 <? b.1) || ((a.1 =? b.1) && (str_lt a.2.1 b.2.1 || (bool_decide (a.2.1 = b.2.1) && str_lt a.2.2 b.2.2))).

Definition latest_first (a b : FeedbackTargetGroup) : Prop := group_earlier (group_stamp a) (group_stamp b) = false.

#[export] Instance latest_first_dec a b : Decision (latest_first a b).
Proof. unfold latest_first. apply _. Defined.

Definition group_by_target (t : string) (s : ReviewState) (before : option (Z * (string * string))) (limit : nat) :
    fbprog (list FeedbackTargetGroup) :=
  gets (λ d,
    let votes := chosen (λ f, bool_decide (fb_tenant f = t) && in_state s f
                              && bool_decide ((fb_review f ≫= rv_replaced_by) = None)) d in
    ordered latest_first (Some limit)
      (filter (λ g, match before with Some b => group_earlier (group_stamp g) b | None => true end = true)
         (group_of votes <$> fromkeys ((λ f, (fb_kind f, fb_target f)) <$> votes)))).

(** ** What the queries choose from *)

Definition keyed (d : feedbacks) : Prop := ∀ k f, d !! k = Some f → feedback_key f = k.

Lemma keyed_rows d : keyed d → NoDup (feedback_key <$> rows d).
Proof.
  intros Hd. unfold rows. rewrite <- list_fmap_compose. assert ((feedback_key ∘ snd) <$> map_to_list d = fst <$> map_to_list d) as ->.
  { apply list_fmap_ext. intros i [k f] Hi%list_elem_of_lookup_2. apply elem_of_map_to_list in Hi. by apply Hd. }
  apply NoDup_fst_map_to_list.
Qed.

Lemma keyed_chosen d p : keyed d → NoDup (feedback_key <$> chosen p d).
Proof.
  intros Hd. pose proof (keyed_rows d Hd) as Hn. unfold chosen. induction (rows d) as [|f l IH]; [constructor|].
  apply NoDup_cons in Hn as [Hni Hn]. rewrite filter_cons. case_decide; [|by apply IH]. cbn. constructor; [|by apply IH].
  intros (g & Hk & [_ Hg]%list_elem_of_filter)%list_elem_of_fmap. apply Hni, list_elem_of_fmap. by exists g.
Qed.

Lemma elem_chosen d p f : keyed d → f ∈ chosen p d ↔ p f = true ∧ d !! feedback_key f = Some f.
Proof.
  intros Hd. unfold chosen. rewrite list_elem_of_filter, elem_of_rows. split.
  - intros [Hp [k Hk]]. by rewrite (Hd _ _ Hk).
  - intros [Hp Hf]. by eauto.
Qed.
