(* ===== verification/Tools.v ===== *)
(** * Tools: what is recorded of the tools agents call
    (domain/tools.py, domain/learning.py, adapters/db/tool_repository.py)

    The catalog, call records, run outcomes, running counts and stored procedures,
    and the repositories' operations over the six tables. *)
From Stdlib Require Import QArith.
From stdpp Require Import sorting.
From S2P Require Import Prelude Errors Text JsonText Feedback.
#[local] Open Scope Z_scope.

(** ** JSON up to the order of keys *)

Definition by_key (a b : string * json) : Prop := str_le a.1 b.1.
#[export] Instance by_key_dec a b : Decision (by_key a b).
Proof. unfold by_key. apply _. Defined.

Fixpoint sort_keys (j : json) : json :=
  match j with
  | JList l => JList (map sort_keys l)
  | JObj fields => JObj (merge_sort by_key (map (λ '(k, v), (k, sort_keys v)) fields))
  | _ => j
  end.

(** ** Data *)

Inductive ToolStatus : Set := TOk | TError | TTimeout | TRejected | TCancelled.
Inductive SideEffects : Set := Read | Write | Irreversible.
Inductive ProcedureStatus : Set := Candidate | Active | Retired | Rejected_.

#[export] Instance ToolStatus_eq_dec : EqDecision ToolStatus.
Proof. solve_decision. Defined.
#[export] Instance SideEffects_eq_dec : EqDecision SideEffects.
Proof. solve_decision. Defined.
#[export] Instance ProcedureStatus_eq_dec : EqDecision ProcedureStatus.
Proof. solve_decision. Defined.

Record ToolAnnotations := {
  an_read_only : option bool;
  an_destructive : option bool;
  an_idempotent : option bool;
  an_open_world : option bool;
}.
#[export] Instance ToolAnnotations_eq_dec : EqDecision ToolAnnotations.
Proof. solve_decision. Defined.

Definition risk_tier (side_effects : option SideEffects) (a : ToolAnnotations) : SideEffects :=
  match side_effects with
  | Some s => s
  | None => if default false (an_read_only a) then Read
            else if default false (an_destructive a) then Irreversible else Write
  end.

(** [catalog_fields]. *)
Record catalog_fields := {
  cf_description : string;
  cf_input_schema : option json;
  cf_required : list string;
  cf_argument_entity_types : gmap string string;
  cf_side_effects : option SideEffects;
  cf_source : string;
  cf_server : option string;
  cf_examples : list json;
  cf_redact : list string;
  cf_annotations : ToolAnnotations;
  cf_approve_when : option string;
}.

Record ToolDescriptor := {
  td_id : string;
  td_tenant : string;
  td_workspace : option string;
  td_name : string;
  td_version : Z;
  td_fields : catalog_fields;
  td_schema_hash : string;
  td_created_at : Z;
  td_updated_at : Z;
}.

Definition risk (d : ToolDescriptor) : SideEffects :=
  risk_tier (cf_side_effects (td_fields d)) (cf_annotations (td_fields d)).

(** Equality of [catalog_fields()]: a [dict] has no order. *)
Definition canonical_fields (f : catalog_fields) : catalog_fields :=
  {| cf_description := cf_description f; cf_input_schema := sort_keys <$> cf_input_schema f; cf_required := cf_required f;
     cf_argument_entity_types := cf_argument_entity_types f; cf_side_effects := cf_side_effects f; cf_source := cf_source f;
     cf_server := cf_server f; cf_examples := sort_keys <$> cf_examples f; cf_redact := cf_redact f;
     cf_annotations := cf_annotations f; cf_approve_when := cf_approve_when f |}.

#[export] Instance catalog_fields_eq_dec : EqDecision catalog_fields.
Proof. solve_decision. Defined.

Definition same_fields (a b : catalog_fields) : bool := bool_decide (canonical_fields a = canonical_fields b).

Record SubCall := {
  sc_ordinal : Z;
  sc_tool : string;
  sc_args : list (string * json);
  sc_bindings : gmap string string;
}.

Record ToolInvocation := {
  iv_id : string;
  iv_tenant : string;
  iv_tool_id : string;
  iv_tool_name : string;
  iv_tool_version : Z;
  iv_run : option string;
  iv_thread : option string;
  iv_turn : option string;
  iv_workspace : option string;
  iv_user : option string;
  iv_agent : option string;
  iv_principal : option string;
  iv_step : Z;
  iv_args_redacted : list (string * json);
  iv_args_hash : string;
  iv_output_summary : string;
  iv_output_digest : option string;
  iv_output_blob_ref : option string;
  iv_output_fields : list (string * json);
  iv_status : ToolStatus;
  iv_error_class : option string;
  iv_latency : option Q;
  iv_cost : option Q;
  iv_task : string;
  iv_task_pattern : option string;
  iv_sub_calls : list SubCall;
  iv_visibility_keys : list string;
  iv_occurred_at : Z;
}.

Definition succeeded (i : ToolInvocation) : bool := bool_decide (iv_status i = TOk).

Record RunOutcome := {
  ro_tenant : string;
  ro_run : string;
  ro_success : bool;
  ro_note : option string;
  ro_source : FeedbackSource;
  ro_recorded_at : Z;
}.

Definition teaches (o : RunOutcome) : bool := outcome_teaches (ro_source o) (ro_success o).

Record ToolStats := {
  ts_calls : Z;
  ts_successes : Z;
  ts_latency_total : Q;
  ts_latency_calls : Z;
  ts_approvals : Z;
  ts_rejections : Z;
  ts_edits : Z;
  ts_last_used : option Z;
}.

Definition no_stats : ToolStats :=
  {| ts_calls := 0; ts_successes := 0; ts_latency_total := 0; ts_latency_calls := 0; ts_approvals := 0; ts_rejections := 0;
     ts_edits := 0; ts_last_used := None |}.

(** Decisions on one (agent, tool, argument shape), the key of its row. *)
Record ApprovalCounts := {
  ac_approvals : Z;
  ac_rejections : Z;
  ac_edits : Z;
}.

Definition no_counts : ApprovalCounts := {| ac_approvals := 0; ac_rejections := 0; ac_edits := 0 |}.

Record StoredProcedure := {
  sp_id : string;
  sp_tenant : string;
  sp_scope_key : string;
  sp_pattern : string;
  sp_steps : list json;
  sp_bindings : list json;
  sp_success_rate : Q;
  sp_support : Z;
  sp_status : ProcedureStatus;
  sp_steps_hash : string;
  sp_workspace : option string;
  sp_updated_at : Z;
  sp_agent : option string;
  sp_users : Z;
  sp_sole_user : option string;
}.

Definition agent_audience (t agent_id : string) : string := "agent:" +:+ t +:+ "/" +:+ agent_id.

(** ** Tables

    A call's row has its idempotency key and when it was last learned from. *)

Record call_row := {
  cr_call : ToolInvocation;
  cr_key : string;
  cr_learned_at : option Z;
}.

Record tool_tables := {
  tt_catalog : gmap string ToolDescriptor;
  tt_calls : gmap string call_row;
  tt_outcomes : gmap (string * string) RunOutcome;
  tt_stats : gmap (string * string) ToolStats;
  tt_approvals : gmap (string * string * string * string) ApprovalCounts;
  tt_procedures : gmap (string * string) StoredProcedure;
}.

Abbreviation tprog A := (prog tool_tables A).

Definition set_catalog (x : gmap string ToolDescriptor) (d : tool_tables) : tool_tables :=
  {| tt_catalog := x; tt_calls := tt_calls d; tt_outcomes := tt_outcomes d; tt_stats := tt_stats d;
     tt_approvals := tt_approvals d; tt_procedures := tt_procedures d |}.
Definition set_calls (x : gmap string call_row) (d : tool_tables) : tool_tables :=
  {| tt_catalog := tt_catalog d; tt_calls := x; tt_outcomes := tt_outcomes d; tt_stats := tt_stats d;
     tt_approvals := tt_approvals d; tt_procedures := tt_procedures d |}.
Definition set_outcomes (x : gmap (string * string) RunOutcome) (d : tool_tables) : tool_tables :=
  {| tt_catalog := tt_catalog d; tt_calls := tt_calls d; tt_outcomes := x; tt_stats := tt_stats d;
     tt_approvals := tt_approvals d; tt_procedures := tt_procedures d |}.
Definition set_stats (x : gmap (string * string) ToolStats) (d : tool_tables) : tool_tables :=
  {| tt_catalog := tt_catalog d; tt_calls := tt_calls d; tt_outcomes := tt_outcomes d; tt_stats := x;
     tt_approvals := tt_approvals d; tt_procedures := tt_procedures d |}.
Definition set_approvals (x : gmap (string * string * string * string) ApprovalCounts) (d : tool_tables) : tool_tables :=
  {| tt_catalog := tt_catalog d; tt_calls := tt_calls d; tt_outcomes := tt_outcomes d; tt_stats := tt_stats d;
     tt_approvals := x; tt_procedures := tt_procedures d |}.
Definition set_procedures (x : gmap (string * string) StoredProcedure) (d : tool_tables) : tool_tables :=
  {| tt_catalog := tt_catalog d; tt_calls := tt_calls d; tt_outcomes := tt_outcomes d; tt_stats := tt_stats d;
     tt_approvals := tt_approvals d; tt_procedures := x |}.

Section repository.
Variable sha : string → string.

Definition stable_hash (v : json) : string := sha (encode (dumps_ascii (sort_keys v))).

Definition idempotency_key (i : ToolInvocation) : string :=
  stable_hash (JObj [("run", JStr (default "" (iv_run i))); ("step", JNum (iv_step i)); ("tool", JStr (iv_tool_id i));
                     ("args", JStr (iv_args_hash i))]).

Definition with_schema_hash (d : ToolDescriptor) : ToolDescriptor :=
  {| td_id := td_id d; td_tenant := td_tenant d; td_workspace := td_workspace d; td_name := td_name d;
     td_version := td_version d; td_fields := td_fields d;
     td_schema_hash := stable_hash (JObj [("input", default JNull (cf_input_schema (td_fields d))); ("name", JStr (td_name d))]);
     td_created_at := td_created_at d; td_updated_at := td_updated_at d |}.

(** *** Catalog: a row's workspace is "" for the tenant *)

Definition row_workspace (d : ToolDescriptor) : string := default "" (td_workspace d).
Definition stored_workspace (w : option string) : option string := match w with Some "" => None | _ => w end.

Definition entry_of (t w name : string) (d : tool_tables) : option ToolDescriptor :=
  head (filter (λ x, td_tenant x = t ∧ row_workspace x = w ∧ td_name x = name) (rows (tt_catalog d))).

(** The fields an upsert changes: those the caller sent, all of them when it does not say. *)
Definition kept_fields (sent : option (list string)) (stored new : catalog_fields) : catalog_fields :=
  match sent with
  | None => new
  | Some fields =>
      let pick {A} (name : string) (f : catalog_fields → A) : A := if bool_decide (name ∈ fields) then f new else f stored in
      {| cf_description := pick "description" cf_description; cf_input_schema := pick "input_schema" cf_input_schema;
         cf_required := pick "required" cf_required;
         cf_argument_entity_types := pick "argument_entity_types" cf_argument_entity_types;
         cf_side_effects := pick "side_effects" cf_side_effects; cf_source := pick "source" cf_source;
         cf_server := pick "server" cf_server; cf_examples := pick "examples" cf_examples; cf_redact := pick "redact" cf_redact;
         cf_annotations := pick "annotations" cf_annotations; cf_approve_when := pick "approve_when" cf_approve_when |}
  end.

Definition with_fields (f : catalog_fields) (d : ToolDescriptor) : ToolDescriptor :=
  {| td_id := td_id d; td_tenant := td_tenant d; td_workspace := td_workspace d; td_name := td_name d;
     td_version := td_version d; td_fields := f; td_schema_hash := td_schema_hash d;
     td_created_at := td_created_at d; td_updated_at := td_updated_at d |}.

(** [new_id] is the id a new entry gets, [now] the instant an update is stamped with. *)
Definition upsert (now : Z) (new_id : string) (descriptor : ToolDescriptor)
    (sent : option (list string)) : tprog (ToolDescriptor * bool) := λ d,
  let desc := with_schema_hash descriptor in
  match entry_of (td_tenant desc) (row_workspace desc) (td_name desc) d with
  | None =>
      let stored := {| td_id := new_id; td_tenant := td_tenant desc; td_workspace := stored_workspace (td_workspace desc); td_name := td_name desc;
                       td_version := td_version desc; td_fields := td_fields desc; td_schema_hash := td_schema_hash desc;
                       td_created_at := now; td_updated_at := now |} in
      (Ok (stored, true), set_catalog (<[new_id := stored]> (tt_catalog d)) d)
  | Some row =>
      let desc := with_schema_hash (with_fields (kept_fields sent (td_fields row) (td_fields desc)) desc) in
      if same_fields (td_fields row) (td_fields desc) then (Ok (row, false), d)
      else
        let version := td_version row + (if bool_decide (td_schema_hash row = td_schema_hash desc) then 0 else 1) in
        let stored := {| td_id := td_id row; td_tenant := td_tenant row; td_workspace := td_workspace row; td_name := td_name row;
                         td_version := version; td_fields := td_fields desc; td_schema_hash := td_schema_hash desc;
                         td_created_at := td_created_at row; td_updated_at := now |} in
        (Ok (stored, true), set_catalog (<[td_id row := stored]> (tt_catalog d)) d)
  end.

(** The rows a workspace reads: its own and the tenant's; its own hides the tenant's. *)
Definition by_name (t name : string) (workspace : option string) : tprog (option ToolDescriptor) :=
  gets (λ d,
    let w := default "" workspace in
    match (if bool_decide (w = "") then None else entry_of t w name d) with
    | Some x => Some x
    | None => entry_of t "" name d
    end).

Definition no_annotations : ToolAnnotations :=
  {| an_read_only := None; an_destructive := None; an_idempotent := None; an_open_world := None |}.

Definition blank_fields : catalog_fields :=
  {| cf_description := ""; cf_input_schema := None; cf_required := []; cf_argument_entity_types := ∅; cf_side_effects := None;
     cf_source := "manual"; cf_server := None; cf_examples := []; cf_redact := []; cf_annotations := no_annotations;
     cf_approve_when := None |}.

Definition ensure (now : Z) (new_id t name : string) : tprog ToolDescriptor :=
  bind (by_name t name None) (λ found,
  match found with
  | Some x => ret x
  | None =>
      let stored := with_schema_hash {| td_id := new_id; td_tenant := t; td_workspace := None; td_name := name; td_version := 1;
        td_fields := blank_fields; td_schema_hash := ""; td_created_at := now; td_updated_at := now |} in
      bind (modify (λ d, set_catalog (<[new_id := stored]> (tt_catalog d)) d)) (λ _, ret stored)
  end).

Definition catalog_order (a b : ToolDescriptor) : Prop :=
  td_name a ≠ td_name b ∧ str_le (td_name a) (td_name b) ∨ td_name a = td_name b ∧ str_le (row_workspace b) (row_workspace a).
#[export] Instance catalog_order_dec a b : Decision (catalog_order a b).
Proof. unfold catalog_order. apply _. Defined.

(** [out.setdefault(row.name, …)]: the first row of each name. *)
Fixpoint first_of_each (seen : list string) (l : list ToolDescriptor) : list ToolDescriptor :=
  match l with
  | [] => []
  | x :: l' => if bool_decide (td_name x ∈ seen) then first_of_each seen l'
               else x :: first_of_each (td_name x :: seen) l'
  end.

Definition in_catalog (t : string) (workspace : option string) (names : option (list string)) (after : string)
    (x : ToolDescriptor) : bool :=
  bool_decide (td_tenant x = t ∧ row_workspace x ∈ ["" ; default "" workspace]) && str_lt after (td_name x)
  && match names with Some l => bool_decide (td_name x ∈ l) | None => true end.

Definition catalog (t : string) (workspace : option string) (names : option (list string)) (limit : nat) (after : string) :
    tprog (list ToolDescriptor) :=
  gets (λ d, take limit (first_of_each []
    (ordered catalog_order (Some (limit * 2)%nat) (filter (λ x, in_catalog t workspace names after x = true) (rows (tt_catalog d)))))).

(** *** Calls *)

Definition call_with_key (t key : string) (d : tool_tables) : option call_row :=
  head (filter (λ r, iv_tenant (cr_call r) = t ∧ cr_key r = key) (rows (tt_calls d))).

Definition record (i : ToolInvocation) : tprog (ToolInvocation * bool) := λ d,
  let key := idempotency_key i in
  match call_with_key (iv_tenant i) key d with
  | Some r => (Ok (cr_call r, false), d)
  | None => (Ok (i, true), set_calls (<[iv_id i := {| cr_call := i; cr_key := key; cr_learned_at := None |}]> (tt_calls d)) d)
  end.

Definition by_step (a b : ToolInvocation) : Prop :=
  iv_step a < iv_step b ∨ iv_step a = iv_step b ∧ iv_occurred_at a ≤ iv_occurred_at b.
#[export] Instance by_step_dec a b : Decision (by_step a b).
Proof. unfold by_step. apply _. Defined.

Definition calls_of (p : ToolInvocation → bool) (d : tool_tables) : list ToolInvocation :=
  filter (λ i, p i = true) (cr_call <$> rows (tt_calls d)).

(** [_visible]: any of the keys. *)
Definition seen_by (scope_keys : option (list string)) (i : ToolInvocation) : bool :=
  match scope_keys with
  | None => true
  | Some keys => existsb (λ k, bool_decide (k ∈ keys)) (iv_visibility_keys i)
  end.

Definition invocations_for_run (t run_id : string) (scope_keys : option (list string)) : tprog (list ToolInvocation) :=
  gets (λ d, ordered by_step None
    (calls_of (λ i, bool_decide (iv_tenant i = t ∧ iv_run i = Some run_id) && seen_by scope_keys i) d)).

Definition last_call_first (a b : ToolInvocation) : Prop := iv_occurred_at b ≤ iv_occurred_at a.
#[export] Instance last_call_first_dec a b : Decision (last_call_first a b).
Proof. unfold last_call_first. apply _. Defined.

Definition for_pattern (t audience pattern : string) (limit : nat) : tprog (list ToolInvocation) :=
  gets (λ d, ordered last_call_first (Some limit)
    (calls_of (λ i, bool_decide (iv_tenant i = t ∧ iv_task_pattern i = Some pattern ∧ head (iv_visibility_keys i) = Some audience)) d)).

Definition for_agent_pattern (t agent pattern : string) (limit : nat) : tprog (list ToolInvocation) :=
  gets (λ d, ordered last_call_first (Some limit)
    (calls_of (λ i, bool_decide (iv_tenant i = t ∧ iv_task_pattern i = Some pattern ∧ iv_agent i = Some agent)) d)).

Definition oldest_call_first (a b : ToolInvocation) : Prop := last_call_first b a.
#[export] Instance oldest_call_first_dec a b : Decision (oldest_call_first a b).
Proof. unfold oldest_call_first. apply _. Defined.

Definition unlearned (t : option string) (limit : nat) : tprog (list ToolInvocation) :=
  gets (λ d, ordered oldest_call_first (Some limit)
    (cr_call <$> filter (λ r, (bool_decide (cr_learned_at r = None)
                                && match t with Some x => bool_decide (iv_tenant (cr_call r) = x) | None => true end) = true)
                   (rows (tt_calls d)))).

Definition learned_row (at_ : option Z) (p : ToolInvocation → bool) (r : call_row) : call_row :=
  if p (cr_call r) then {| cr_call := cr_call r; cr_key := cr_key r; cr_learned_at := at_ |} else r.

Definition mark_learned (now : Z) (t : string) (ids : list string) : tprog unit :=
  modify (λ d, set_calls (learned_row (Some now) (λ i, bool_decide (iv_tenant i = t ∧ iv_id i ∈ ids)) <$> tt_calls d) d).

(** *** Outcomes: a new one makes its run's calls unlearned again *)

Definition set_outcome (o : RunOutcome) : tprog unit :=
  modify (λ d, set_calls (learned_row None (λ i, bool_decide (iv_tenant i = ro_tenant o ∧ iv_run i = Some (ro_run o))) <$> tt_calls d)
    (set_outcomes (<[(ro_tenant o, ro_run o) := o]> (tt_outcomes d)) d)).

Definition outcome (t run_id : string) : tprog (option RunOutcome) := gets (λ d, tt_outcomes d !! (t, run_id)).

(** *** Statistics *)

Definition stat_call (ok : bool) (latency : option Q) (at_ : Z) (s : ToolStats) : ToolStats :=
  {| ts_calls := ts_calls s + 1; ts_successes := ts_successes s + (if ok then 1 else 0);
     ts_latency_total := ts_latency_total s + default 0%Q latency;
     ts_latency_calls := ts_latency_calls s + (match latency with Some _ => 1 | None => 0 end);
     ts_approvals := ts_approvals s; ts_rejections := ts_rejections s; ts_edits := ts_edits s;
     ts_last_used := Some (match ts_last_used s with Some x => Z.max x at_ | None => at_ end) |}.

Definition stat_verdict (counter : string) (s : ToolStats) : ToolStats :=
  let n c := if bool_decide (counter = c) then 1 else 0 in
  {| ts_calls := ts_calls s; ts_successes := ts_successes s; ts_latency_total := ts_latency_total s;
     ts_latency_calls := ts_latency_calls s; ts_approvals := ts_approvals s + n "approvals";
     ts_rejections := ts_rejections s + n "rejections"; ts_edits := ts_edits s + n "edits"; ts_last_used := ts_last_used s |}.

Definition count_call (t name : string) (ok : bool) (latency : option Q) (at_ : Z) : tprog unit :=
  modify (λ d, set_stats (<[(t, name) := stat_call ok latency at_ (default no_stats (tt_stats d !! (t, name)))]> (tt_stats d)) d).

(** [_verdict_column] raises on any other counter. *)
Definition is_counter (counter : string) : bool := bool_decide (counter ∈ ["approvals"; "rejections"; "edits"]).

Definition count_verdict (t name counter : string) : tprog unit :=
  if is_counter counter then
    modify (λ d, set_stats (<[(t, name) := stat_verdict counter (default no_stats (tt_stats d !! (t, name)))]> (tt_stats d)) d)
  else raise (ValueError "not a verdict count").

(** *** Approvals *)

Definition add_count (counter : string) (c : ApprovalCounts) : ApprovalCounts :=
  let n x := if bool_decide (counter = x) then 1 else 0 in
  {| ac_approvals := ac_approvals c + n "approvals"; ac_rejections := ac_rejections c + n "rejections";
     ac_edits := ac_edits c + n "edits" |}.

Definition count_approval (t agent name shape counter : string) : tprog unit :=
  if is_counter counter then
    modify (λ d, set_approvals (<[(t, agent, name, shape) := add_count counter (default no_counts (tt_approvals d !! (t, agent, name, shape)))]>
                                  (tt_approvals d)) d)
  else raise (ValueError "not a verdict count").

Definition approval_pattern (t agent name shape : string) : tprog (option ApprovalCounts) :=
  gets (λ d, tt_approvals d !! (t, agent, name, shape)).

(** *** Procedures *)

Definition with_procedure_status (st : ProcedureStatus) (now : Z) (p : StoredProcedure) : StoredProcedure :=
  {| sp_id := sp_id p; sp_tenant := sp_tenant p; sp_scope_key := sp_scope_key p; sp_pattern := sp_pattern p;
     sp_steps := sp_steps p; sp_bindings := sp_bindings p; sp_success_rate := sp_success_rate p; sp_support := sp_support p;
     sp_status := st; sp_steps_hash := sp_steps_hash p; sp_workspace := sp_workspace p; sp_updated_at := now;
     sp_agent := sp_agent p; sp_users := sp_users p; sp_sole_user := sp_sole_user p |}.

Definition reject_procedure (now : Z) (t i : string) : tprog bool := λ d,
  match tt_procedures d !! (t, i) with
  | Some p => (Ok true, set_procedures (<[(t, i) := with_procedure_status Rejected_ now p]> (tt_procedures d)) d)
  | None => (Ok false, d)
  end.

Definition restore_procedure (now : Z) (t i : string) : tprog bool := λ d,
  match tt_procedures d !! (t, i) with
  | Some p => if bool_decide (sp_status p = Rejected_)
              then (Ok true, set_procedures (<[(t, i) := with_procedure_status Active now p]> (tt_procedures d)) d)
              else (Ok false, d)
  | None => (Ok false, d)
  end.

(** Who may be offered a procedure. *)
Definition may_read_procedure (t : string) (scope_keys : list string) (agent user : option string) (p : StoredProcedure) : bool :=
  bool_decide (sp_scope_key p ∈ scope_keys) ||
  match agent with
  | Some a => bool_decide (sp_scope_key p = agent_audience t a)
              && ((2 <=? sp_users p) || bool_decide (sp_sole_user p = None) || bool_decide (user ≠ None ∧ sp_sole_user p = user))
  | None => false
  end.

Definition last_updated_first (a b : StoredProcedure) : Prop :=
  sp_updated_at b < sp_updated_at a ∨ sp_updated_at a = sp_updated_at b ∧ str_le (sp_id a) (sp_id b).
#[export] Instance last_updated_first_dec a b : Decision (last_updated_first a b).
Proof. unfold last_updated_first. apply _. Defined.

Definition visible_procedures (t : string) (scope_keys : list string) (agent user : option string) (limit : nat) :
    tprog (list StoredProcedure) :=
  gets (λ d, ordered last_updated_first (Some limit)
    (filter (λ p, (bool_decide (sp_tenant p = t ∧ sp_status p = Active) && may_read_procedure t scope_keys agent user p) = true)
       (rows (tt_procedures d)))).
End repository.
