(* ===== verification/ApproveWhen.v ===== *)
(** * ApproveWhen: when a person is asked before a tool is called
    (sdk/python/src/trellis/memory/approval.py, [compose] of
    modules/tools/approvals.py)

    The boolean expressions over a call's arguments: their tokens, their grammar,
    what they are worth on a call, and how a learned rule is added to one. The
    arguments are JSON whose numbers are integers; a number literal with a point
    or an exponent is read by [round], the nearest double. *)
From Stdlib Require Import QArith.
From stdpp Require Import sorting.
From S2P Require Import Prelude Text JsonText Feedback Tools.
#[local] Open Scope Z_scope.

(** ** Values *)

Inductive value : Type :=
| VNull
| VBool (b : bool)
| VNum (q : Q)
| VStr (t : text)
| VList (l : list value)
| VObj (fields : list (string * value))
| VMissing.

Fixpoint of_json (j : json) : value :=
  match j with
  | JNull => VNull
  | JBool b => VBool b
  | JNum n => VNum (inject_Z n)
  | JStr s => VStr (chars s)
  | JList l => VList (map of_json l)
  | JObj fields => VObj (map (λ '(k, v), (k, of_json v)) fields)
  end.

(** A boolean is a number. *)
Definition numeric (v : value) : option Q :=
  match v with VNum q => Some q | VBool b => Some (if b then 1%Q else 0%Q) | _ => None end.

(** [==]. *)
Fixpoint py_eq (a b : value) : bool :=
  match numeric a, numeric b with
  | Some x, Some y => Qeq_bool x y
  | _, _ =>
      match a, b with
      | VNull, VNull | VMissing, VMissing => true
      | VStr s, VStr t => bool_decide (s = t)
      | VList l, VList m =>
          (fix all (l m : list value) : bool :=
             match l, m with [], [] => true | x :: l', y :: m' => py_eq x y && all l' m' | _, _ => false end) l m
      | VObj f, VObj g =>
          Nat.eqb (length f) (length g) &&
          (fix all (f : list (string * value)) : bool :=
             match f with
             | [] => true
             | (k, x) :: f' => match snd <$> head (filter (λ p, p.1 = k) g) with Some y => py_eq x y | None => false end && all f'
             end) f
      | _, _ => false
      end
  end.

Fixpoint text_compare (a b : text) : comparison :=
  match a, b with
  | [], [] => Eq
  | [], _ => Lt
  | _, [] => Gt
  | x :: a', y :: b' => match (ord x ?= ord y)%N with Eq => text_compare a' b' | c => c end
  end.

(** The order of two values; [None] where Python raises [TypeError]. *)
Fixpoint py_compare (a b : value) : option comparison :=
  match numeric a, numeric b with
  | Some x, Some y => Some (x ?= y)%Q
  | _, _ =>
      match a, b with
      | VStr s, VStr t => Some (text_compare s t)
      | VList l, VList m =>
          (fix walk (l m : list value) : option comparison :=
             match l, m with
             | [], [] => Some Eq
             | [], _ => Some Lt
             | _, [] => Some Gt
             | x :: l', y :: m' => if py_eq x y then walk l' m' else py_compare x y
             end) l m
      | _, _ => None
      end
  end.

(** [in]: an element, a part of a string, a key. *)
Definition py_in (a b : value) : bool :=
  match b with
  | VList l => existsb (py_eq a) l
  | VStr t => match a with VStr s => Text.contains s t | _ => false end
  | VObj fields => match a with VStr s => existsb (λ p, bool_decide (chars p.1 = s)) fields | _ => false end
  | _ => false
  end.

(** ** Tokens *)

Inductive op : Set := OEq | ONe | OLt | OLe | OGt | OGe | OIn.
Inductive keyword : Set := KAnd | KOr | KNot | KIn.
Inductive token : Type :=
| TLit (v : value)
| TKw (k : keyword)
| TOp (o : op)
| TPunct (c : ascii)
| TName (path : list text).

Definition MAX_EXPRESSION_CHARS : nat := 2000.

Section expressions.
Variable round : Q → Q.
(** [math.floor(math.log10(abs(n)))] of an integer that is not 0. *)
Variable magnitude : Z → Z.

Fixpoint span (p : char → bool) (t : text) : text * text :=
  match t with
  | [] => ([], [])
  | c :: t' => if p c then let '(a, r) := span p t' in (c :: a, r) else ([], t)
  end.

Definition is_char (a : ascii) (c : char) : bool := bool_decide (c = chr a).

Definition digits_value (t : text) : Z := foldl (λ n c, 10 * n + digit_value c) 0 t.

(** [int(raw)], or [float(raw)] where there is a fraction or an exponent. *)
Definition number_value (minus : bool) (whole : text) (fraction : option text) (exponent : option (bool * text)) : Q :=
  let sign := if minus then -1 else 1 in
  match fraction, exponent with
  | None, None => inject_Z (sign * digits_value whole)
  | _, _ =>
      let f := default [] fraction in
      let e := match exponent with
               | Some (down, digits) => (if down then -1 else 1) * digits_value digits
               | None => 0
               end - Z.of_nat (length f) in
      let m := inject_Z (sign * digits_value (whole ++ f)) in
      round (if e <? 0 then m / inject_Z (10 ^ (- e)) else m * inject_Z (10 ^ e))%Q
  end.

(** [(?:\.\d+)?] and [(?:[eE][-+]?\d+)?]. *)
Definition scan_fraction (t : text) : option text * text :=
  match t with
  | c :: r => if is_char "." c then match span isdecimal r with ([], _) => (None, t) | (ds, r') => (Some ds, r') end else (None, t)
  | [] => (None, t)
  end.

Definition scan_exponent (t : text) : option (bool * text) * text :=
  match t with
  | c :: r =>
      if is_char "e" c || is_char "E" c then
        let '(down, r1) := match r with
                           | d :: r' => if is_char "-" d then (true, r') else if is_char "+" d then (false, r') else (false, r)
                           | [] => (false, r)
                           end in
        match span isdecimal r1 with ([], _) => (None, t) | (ds, r2) => (Some (down, ds), r2) end
      else (None, t)
  | [] => (None, t)
  end.

(** After the sign. *)
Definition scan_number (minus : bool) (t : text) : option (token * text) :=
  match span isdecimal t with
  | ([], _) => None
  | (ds, r) =>
      let '(fraction, r1) := scan_fraction r in
      let '(exponent, r2) := scan_exponent r1 in
      Some (TLit (VNum (number_value minus ds fraction exponent)), r2)
  end.

Definition letter (c : char) : bool :=
  let n := ord c in ((65 <=? n) && (n <=? 90) || (97 <=? n) && (n <=? 122) || (n =? 95))%N.
Definition word_char (c : char) : bool := letter c || ((48 <=? ord c) && (ord c <=? 57))%N.

(** The parts of a dotted name after its first. *)
Fixpoint scan_parts (fuel : nat) (t : text) : list text * text :=
  match fuel with
  | O => ([], t)
  | S fuel =>
      match t with
      | d :: ((c :: _) as r) =>
          if is_char "." d && letter c then
            let '(w, r1) := span word_char r in
            let '(parts, r2) := scan_parts fuel r1 in (w :: parts, r2)
          else ([], t)
      | _ => ([], t)
      end
  end.

Definition keyword_of (path : list text) : option token :=
  match path with
  | [w] => if bool_decide (w = lit "and") then Some (TKw KAnd) else if bool_decide (w = lit "or") then Some (TKw KOr)
           else if bool_decide (w = lit "not") then Some (TKw KNot) else if bool_decide (w = lit "in") then Some (TKw KIn)
           else if bool_decide (w = lit "true") then Some (TLit (VBool true))
           else if bool_decide (w = lit "false") then Some (TLit (VBool false)) else None
  | _ => None
  end.

Definition scan_name (t : text) : option (token * text) :=
  let '(w, r) := span word_char t in
  let '(parts, r') := scan_parts (length r) r in
  Some (default (TName (w :: parts)) (keyword_of (w :: parts)), r').

Definition scan_op (t : text) : option (token * text) :=
  match t with
  | c :: r =>
      let next := match r with d :: r' => if is_char "=" d then Some r' else None | [] => None end in
      if is_char "=" c then r' ← next; Some (TOp OEq, r')
      else if is_char "!" c then r' ← next; Some (TOp ONe, r')
      else if is_char "<" c then match next with Some r' => Some (TOp OLe, r') | None => Some (TOp OLt, r) end
      else if is_char ">" c then match next with Some r' => Some (TOp OGe, r') | None => Some (TOp OGt, r) end
      else None
  | [] => None
  end.

Definition punctuation : list ascii := ["("; ")"; "["; "]"; ","]%char.

(** One token, where no white space stands before it. *)
Definition scan (t : text) : option (token * text) :=
  match t with
  | [] => None
  | c :: r =>
      if bool_decide (c = quote) then
        '(inner, rest) ← string_end r; s ← read_string inner; Some (TLit (VStr s), rest)
      else if is_char "-" c then scan_number true r
      else if isdecimal c then scan_number false t
      else match find (λ a, is_char a c) punctuation with
           | Some a => Some (TPunct a, r)
           | None => if letter c then scan_name t else scan_op t
           end
  end.

Fixpoint lex (fuel : nat) (t : text) : option (list token) :=
  match lstrip t with
  | [] => Some []
  | t' => match fuel with
          | O => None
          | S fuel => '(tok, rest) ← scan t'; l ← lex fuel rest; Some (tok :: l)
          end
  end.

(** [None] is [ValueError]. *)
Definition _tokens (t : text) : option (list token) :=
  if (MAX_EXPRESSION_CHARS <? length t)%nat then None else lex (length t) t.

(** ** Grammar *)

Inductive operand : Type := OLit (v : value) | OPath (path : list text) | OList (l : list operand).
Inductive expr : Type :=
| EOr (a b : expr)
| EAnd (a b : expr)
| ENot (a : expr)
| ECmp (o : op) (l r : operand)
| EConst (b : bool).

(** What a parser finds: a tree and the tokens left, or that there is none. *)
Inductive found {A : Type} : Type := Found (a : A) (rest : list token) | Invalid | NoFuel.
Arguments found : clear implicits.

Definition then_ {A B} (x : found A) (k : A → list token → found B) : found B :=
  match x with Found a rest => k a rest | Invalid => Invalid | NoFuel => NoFuel end.

Definition is_punct (a : ascii) (t : token) : bool := match t with TPunct b => bool_decide (b = a) | _ => false end.
Definition is_kw (k : keyword) (t : token) : bool :=
  match k, t with KAnd, TKw KAnd | KOr, TKw KOr | KNot, TKw KNot | KIn, TKw KIn => true | _, _ => false end.

Fixpoint _operand (fuel : nat) (ts : list token) : found operand :=
  match fuel with
  | O => NoFuel
  | S fuel =>
      match ts with
      | TLit v :: rest => Found (OLit v) rest
      | TName p :: rest => Found (OPath p) rest
      | t :: rest => if is_punct "[" t then then_ (items fuel rest) (λ l rest', Found (OList l) rest') else Invalid
      | [] => Invalid
      end
  end
(** [while not self._take("punct", "]")]. *)
with items (fuel : nat) (ts : list token) : found (list operand) :=
  match fuel with
  | O => NoFuel
  | S fuel =>
      match ts with
      | t :: rest =>
          if is_punct "]" t then Found [] rest
          else then_ (_operand fuel ts) (λ x ts1,
                 match ts1 with
                 | u :: rest1 => if is_punct "," u then then_ (items fuel rest1) (λ l ts2, Found (x :: l) ts2)
                                 else if is_punct "]" u then Found [x] rest1 else Invalid
                 | [] => Invalid
                 end)
      | [] => Invalid
      end
  end.

Definition op_of (t : token) : option op := match t with TOp o => Some o | TKw KIn => Some OIn | _ => None end.

(** What may follow a [true] or [false] that is a whole conjunct. *)
Definition ends_conjunct (next : option token) : bool :=
  match next with
  | None => true
  | Some t => is_kw KAnd t || is_kw KOr t || is_punct ")" t
  end.

Definition comparison_ (fuel : nat) (ts : list token) : found expr :=
  then_ (_operand fuel ts) (λ l ts1,
    match ts1 with
    | t :: rest => match op_of t with
                   | Some o => then_ (_operand fuel rest) (λ r ts2, Found (ECmp o l r) ts2)
                   | None => Invalid
                   end
    | [] => Invalid
    end).

Fixpoint _or (fuel : nat) (ts : list token) : found expr :=
  match fuel with
  | O => NoFuel
  | S fuel => then_ (_and fuel ts) (or_rest fuel)
  end
with or_rest (fuel : nat) (left : expr) (ts : list token) : found expr :=
  match fuel with
  | O => NoFuel
  | S fuel =>
      match ts with
      | t :: rest => if is_kw KOr t then then_ (_and fuel rest) (λ b ts', or_rest fuel (EOr left b) ts') else Found left ts
      | [] => Found left ts
      end
  end
with _and (fuel : nat) (ts : list token) : found expr :=
  match fuel with
  | O => NoFuel
  | S fuel => then_ (_not fuel ts) (and_rest fuel)
  end
with and_rest (fuel : nat) (left : expr) (ts : list token) : found expr :=
  match fuel with
  | O => NoFuel
  | S fuel =>
      match ts with
      | t :: rest => if is_kw KAnd t then then_ (_not fuel rest) (λ b ts', and_rest fuel (EAnd left b) ts') else Found left ts
      | [] => Found left ts
      end
  end
with _not (fuel : nat) (ts : list token) : found expr :=
  match fuel with
  | O => NoFuel
  | S fuel =>
      match ts with
      | [] => comparison_ fuel ts
      | t :: rest =>
          if is_kw KNot t then then_ (_not fuel rest) (λ a ts', Found (ENot a) ts')
          else if is_punct "(" t then
            then_ (_or fuel rest) (λ a ts',
              match ts' with
              | u :: rest' => if is_punct ")" u then Found a rest' else Invalid
              | [] => Invalid
              end)
          else match t with
               | TLit (VBool b) => if ends_conjunct (head rest) then Found (EConst b) rest else comparison_ fuel ts
               | _ => comparison_ fuel ts
               end
      end
  end.

(** Fuel that is enough for every list of tokens. *)
Definition parse_fuel (ts : list token) : nat := 6 * length ts + 6.

Definition parse (t : text) : option expr :=
  ts ← _tokens t;
  match _or (parse_fuel ts) ts with Found e [] => Some e | _ => None end.

(** ** What a call is worth *)

Definition _value_kind (j : json) : text :=
  match j with
  | JNull => lit "null"
  | JBool b => lit "bool:" ++ lit (if b then "true" else "false")
  | JNum n => lit "num:1e" ++ lit (text_of_Z (if n =? 0 then 0 else magnitude n))
  | JStr _ => lit "str"
  | JList _ => lit "list"
  | JObj _ => lit "obj"
  end.

Definition arg_shape (args : list (string * json)) : text :=
  join (lit ",") ((λ name, chars name ++ lit ":" ++ _value_kind (default JNull (jget name args))) <$> str_sorted (fst <$> args)).

Definition when_shape (shape : text) : text := lit "shape == " ++ quoted shape.

Definition SHAPE : list text := [lit "shape"].

Fixpoint walk_path (v : value) (path : list text) : value :=
  match path with
  | [] => v
  | p :: path' => match v with
                  | VObj fields => match last (filter (λ f, chars f.1 = p) fields) with
                                   | Some f => walk_path f.2 path'
                                   | None => VMissing
                                   end
                  | _ => VMissing
                  end
  end.

Fixpoint _value (args : list (string * json)) (o : operand) : value :=
  match o with
  | OLit v => v
  | OList l => VList (map (_value args) l)
  | OPath path => if bool_decide (path = SHAPE) then VStr (arg_shape args) else walk_path (of_json (JObj args)) path
  end.

Definition _compare (o : op) (l r : value) : bool :=
  match l, r with
  | VMissing, _ | _, VMissing => false
  | _, _ =>
      match o with
      | OEq => py_eq l r
      | ONe => negb (py_eq l r)
      | OIn => py_in l r
      | OLt => match py_compare l r with Some Lt => true | _ => false end
      | OLe => match py_compare l r with Some Lt | Some Eq => true | _ => false end
      | OGt => match py_compare l r with Some Gt => true | _ => false end
      | OGe => match py_compare l r with Some Gt | Some Eq => true | _ => false end
      end
  end.

Fixpoint _eval (e : expr) (args : list (string * json)) : bool :=
  match e with
  | EOr a b => _eval a args || _eval b args
  | EAnd a b => _eval a args && _eval b args
  | ENot a => negb (_eval a args)
  | ECmp o l r => _compare o (_value args l) (_value args r)
  | EConst b => b
  end.

Definition evaluate (expression : text) (args : list (string * json)) : option bool :=
  e ← parse expression; Some (_eval e args).

(** ** Adding a learned rule *)

Inductive Suggestion : Set := AutoApprove | AlwaysAsk.

Definition base_of (existing : option text) (r : SideEffects) : text :=
  match existing with
  | Some ((_ :: _) as e) => e
  | _ => if bool_decide (r = Irreversible) then lit "true" else lit "false"
  end.

Definition compose (existing : option text) (r : SideEffects) (s : Suggestion) (shape : text) : text :=
  let base := base_of existing r in
  let clause := when_shape shape in
  match s with
  | AlwaysAsk => if bool_decide (base = lit "false") then clause else lit "(" ++ base ++ lit ") or (" ++ clause ++ lit ")"
  | AutoApprove => if bool_decide (base = lit "true") then lit "not (" ++ clause ++ lit ")"
                   else lit "(" ++ base ++ lit ") and not (" ++ clause ++ lit ")"
  end.

(** ** Enough fuel, and what may follow *)

(** What the parsers leave alone: the end, or a closing parenthesis. *)
Definition closes (s : list token) : Prop := s = [] ∨ ∃ s', s = TPunct ")" :: s'.

(** A parser that finds [a] finds it with more fuel and before a closing
    parenthesis. *)
Definition extends {A} (p : nat → list token → found A) (n : nat) : Prop :=
  ∀ m ts a r s, (n ≤ m)%nat → closes s → p n ts = Found a r → p m (ts ++ s) = Found a (r ++ s).

Lemma then_inv {A B} (x : found A) (k : A → list token → found B) b r :
  then_ x k = Found b r → ∃ a ts, x = Found a ts ∧ k a ts = Found b r.
Proof. destruct x; simpl; [eauto|done..]. Qed.

Lemma operand_extends n : extends _operand n ∧ extends items n.
Proof.
  induction n as [|n [IHo IHi]]; split; intros [|m] ts a r s Hm Hs H; (try done; try lia); cbn [_operand items] in H |- *.
  - destruct ts as [|[v| | |c|p] ts]; try done; simplify_eq/=; try done. destruct (bool_decide (c = "["%char)); [|done].
    apply then_inv in H as (l & ts1 & H & [= <- <-]). by rewrite (IHi m ts l ts1 s) by (done || lia).
  - destruct ts as [|t ts]; [done|]. cbn [app]. destruct (is_punct "]" t); [by simplify_eq|].
    apply then_inv in H as (x & ts1 & Ho & H). change (t :: ts ++ s) with ((t :: ts) ++ s).
    rewrite (IHo m _ x ts1 s) by (done || lia). cbn [then_]. destruct ts1 as [|u ts1]; [done|]. cbn [app].
    destruct (is_punct "," u).
    + apply then_inv in H as (l & ts2 & H & [= <- <-]). by rewrite (IHi m _ l ts2 s) by (done || lia).
    + destruct (is_punct "]" u); [by simplify_eq|done].
Qed.

Lemma comparison_extends n : extends comparison_ n.
Proof.
  intros m ts a r s Hm Hs H. unfold comparison_ in *. apply then_inv in H as (l & ts1 & Ho & H).
  rewrite (proj1 (operand_extends n) m ts l ts1 s Hm Hs Ho). cbn [then_]. destruct ts1 as [|t ts1]; [done|]. cbn [app].
  destruct (op_of t) as [o|]; [|done]. apply then_inv in H as (x & ts2 & Hx & [= <- <-]).
  by rewrite (proj1 (operand_extends n) m ts1 x ts2 s Hm Hs Hx).
Qed.

(** A loop that stopped at the end stops before a closing parenthesis. *)
Lemma loop_stops (k : keyword) (s : list token) {A} (f : list token → A) (a : A) : closes s → k = KOr ∨ k = KAnd →
  match s with t :: rest => if is_kw k t then f rest else a | [] => a end = a.
Proof. by intros [->|[s' ->]] [-> | ->]. Qed.

Lemma ends_conjunct_app ts s : closes s → ends_conjunct (head ts) = true → ends_conjunct (head (ts ++ s)) = true.
Proof. destruct ts as [|t ts]; [|done]. by intros [->|[s' ->]] _. Qed.

Lemma ends_conjunct_app_false ts s : ends_conjunct (head ts) = false → ends_conjunct (head (ts ++ s)) = false.
Proof. by destruct ts as [|t ts]. Qed.

Lemma not_extends n : extends _or n → extends _not n → extends _not (S n).
Proof.
  intros IHo IHn [|m] ts a r s Hm Hs H; [lia|]. cbn [_not] in H |- *. destruct ts as [|t ts].
  { by destruct n. }
  cbn [app]. destruct (is_kw KNot t).
  { apply then_inv in H as (x & ts1 & H & [= <- <-]). by rewrite (IHn m ts x ts1 s) by (done || lia). }
  destruct (is_punct "(" t).
  { apply then_inv in H as (x & ts1 & Ho & H). rewrite (IHo m ts x ts1 s) by (done || lia). cbn [then_].
    destruct ts1 as [|u ts1]; [done|]. cbn [app]. destruct (is_punct ")" u); [by simplify_eq|done]. }
  assert (comparison_ n (t :: ts) = Found a r → comparison_ m (t :: ts ++ s) = Found a (r ++ s)) as Hcmp.
  { intros Hc. by apply (comparison_extends n m (t :: ts)); [lia|..]. }
  destruct t as [[]| | | |]; auto. destruct (ends_conjunct (head ts)) eqn:He.
  - rewrite ends_conjunct_app by done. by simplify_eq.
  - rewrite ends_conjunct_app_false by done. auto.
Qed.

Definition rest_extends (p : nat → expr → list token → found expr) (n : nat) : Prop := ∀ a, extends (λ k, p k a) n.

Lemma and_extends n : extends _not n → rest_extends and_rest n → extends _and (S n) ∧ rest_extends and_rest (S n).
Proof.
  intros IHn IHr. split; [|intros left]; intros [|m] ts a r s Hm Hs H; (try lia); cbn [_and and_rest] in H |- *.
  - apply then_inv in H as (x & ts1 & H1 & H). rewrite (IHn m ts x ts1 s) by (done || lia). cbn [then_].
    by apply (IHr x m ts1); [lia|..].
  - destruct ts as [|t ts]; [simplify_eq; by apply loop_stops; [|right]|]. cbn [app]. destruct (is_kw KAnd t); [|by simplify_eq].
    apply then_inv in H as (b & ts1 & H1 & H). rewrite (IHn m ts b ts1 s) by (done || lia). cbn [then_].
    by apply (IHr (EAnd left b) m ts1); [lia|..].
Qed.

Lemma or_extends n : extends _and n → rest_extends or_rest n → extends _or (S n) ∧ rest_extends or_rest (S n).
Proof.
  intros IHn IHr. split; [|intros left]; intros [|m] ts a r s Hm Hs H; (try lia); cbn [_or or_rest] in H |- *.
  - apply then_inv in H as (x & ts1 & H1 & H). rewrite (IHn m ts x ts1 s) by (done || lia). cbn [then_].
    by apply (IHr x m ts1); [lia|..].
  - destruct ts as [|t ts]; [simplify_eq; by apply loop_stops; [|left]|]. cbn [app]. destruct (is_kw KOr t); [|by simplify_eq].
    apply then_inv in H as (b & ts1 & H1 & H). rewrite (IHn m ts b ts1 s) by (done || lia). cbn [then_].
    by apply (IHr (EOr left b) m ts1); [lia|..].
Qed.

Lemma parsers_extend n : extends _or n ∧ rest_extends or_rest n ∧ extends _and n ∧ rest_extends and_rest n ∧ extends _not n.
Proof.
  induction n as [|n (Ho & Hor & Ha & Har & Hn)]; [split_and!; repeat intro; done|].
  destruct (or_extends n Ha Hor), (and_extends n Hn Har). split_and!; [done..|]. by apply not_extends.
Qed.

(** *** Fuel *)

(** [p] comes to a result on [ts], and what it leaves is [strict]ly shorter. *)
Definition settled {A} (strict : nat) (ts : list token) (x : found A) : Prop :=
  match x with Found _ r => (strict + length r ≤ length ts)%nat | Invalid => True | NoFuel => False end.

Lemma settled_then {A B} n m ts (x : found A) (k : A → list token → found B) :
  settled m ts x → (∀ a r, (m + length r ≤ length ts)%nat → settled n ts (k a r)) → settled n ts (then_ x k).
Proof. destruct x; simpl; auto. Qed.

Lemma settled_shorter {A} n m ts ts' (x : found A) : settled m ts' x → (n + length ts' ≤ m + length ts)%nat → settled n ts x.
Proof. destruct x; simpl; auto. lia. Qed.

Lemma operand_settles n :
  (∀ ts, (2 * length ts + 1 ≤ n)%nat → settled 1 ts (_operand n ts)) ∧ (∀ ts, (2 * length ts + 2 ≤ n)%nat → settled 1 ts (items n ts)).
Proof.
  induction n as [|n [IHo IHi]]; split; intros ts Hn; (try lia); cbn [_operand items].
  - destruct ts as [|t ts]; [done|]. cbn [length] in Hn. destruct t as [v| | |c|p]; try (simpl; lia); simpl is_punct; cbn [settled]; try done.
    case_match; [|done]. eapply settled_then; [eapply (settled_shorter 2 1); [apply IHi; lia|simpl; lia]|]. intros l r Hr. simpl in *. lia.
  - destruct ts as [|t ts]; [done|]. cbn [length] in Hn. destruct (is_punct "]" t); [simpl; lia|].
    eapply settled_then; [apply IHo; simpl; lia|]. intros x [|u r] Hr; [done|]. simpl in Hr. destruct (is_punct "," u).
    + eapply settled_then; [eapply (settled_shorter 2 1); [apply IHi; lia|simpl; lia]|]. intros l r' Hr'. simpl in *. lia.
    + destruct (is_punct "]" u); simpl; [lia|done].
Qed.

Lemma comparison_settles n ts : (2 * length ts + 1 ≤ n)%nat → settled 1 ts (comparison_ n ts).
Proof.
  intros Hn. eapply settled_then; [by apply operand_settles|]. intros l [|t r] Hr; [done|]. simpl in Hr.
  destruct (op_of t); [|done]. eapply settled_then; [eapply (settled_shorter 2 1); [apply operand_settles; lia|simpl; lia]|]. intros x r' Hr'. simpl in *. lia.
Qed.

Lemma parsers_settle n :
  (∀ ts, (6 * length ts + 4 ≤ n)%nat → settled 1 ts (_or n ts)) ∧
  (∀ e ts, (6 * length ts + 1 ≤ n)%nat → settled 0 ts (or_rest n e ts)) ∧
  (∀ ts, (6 * length ts + 3 ≤ n)%nat → settled 1 ts (_and n ts)) ∧
  (∀ e ts, (6 * length ts + 1 ≤ n)%nat → settled 0 ts (and_rest n e ts)) ∧
  (∀ ts, (6 * length ts + 2 ≤ n)%nat → settled 1 ts (_not n ts)).
Proof.
  induction n as [|n (Ho & Hor & Ha & Har & Hn)]; [split_and!; lia|]. split_and!.
  - intros ts Hl. eapply settled_then; [apply Ha; lia|]. intros a r Hr. eapply settled_shorter; [apply Hor; lia|lia].
  - intros e [|t ts] Hl; cbn [or_rest]; [simpl; lia|]. cbn [length] in Hl. destruct (is_kw KOr t); [|simpl; lia].
    eapply settled_then; [eapply (settled_shorter 2 1); [apply Ha; lia|simpl; lia]|]. intros b r Hr. simpl in Hr.
    eapply settled_shorter; [apply Hor; lia|simpl; lia].
  - intros ts Hl. eapply settled_then; [apply Hn; lia|]. intros a r Hr. eapply settled_shorter; [apply Har; lia|lia].
  - intros e [|t ts] Hl; cbn [and_rest]; [simpl; lia|]. cbn [length] in Hl. destruct (is_kw KAnd t); [|simpl; lia].
    eapply settled_then; [eapply (settled_shorter 2 1); [apply Hn; lia|simpl; lia]|]. intros b r Hr. simpl in Hr.
    eapply settled_shorter; [apply Har; lia|simpl; lia].
  - intros [|t ts] Hl; cbn [_not]; [apply comparison_settles; simpl in *; lia|]. cbn [length] in Hl.
    assert (settled 1 (t :: ts) (comparison_ n (t :: ts))) as Hc by (apply comparison_settles; simpl; lia).
    destruct (is_kw KNot t).
    { eapply settled_then; [eapply (settled_shorter 2 1); [apply Hn; lia|simpl; lia]|]. intros a r Hr. simpl in *. lia. }
    destruct (is_punct "(" t).
    { eapply settled_then; [eapply (settled_shorter 2 1); [apply Ho; lia|simpl; lia]|]. intros a [|u r] Hr; [done|].
      simpl in Hr. destruct (is_punct ")" u); [|done]. simpl. lia. }
    destruct t as [[]| | | |]; try exact Hc. case_match; [|exact Hc]. simpl. lia.
Qed.

(** *** Text: what is scanned before a closing parenthesis *)

(** A character no token goes on with. *)
Definition stop : char := chr ")".

Lemma span_stop p t r : p stop = false → span p (t ++ stop :: r) = ((span p t).1, (span p t).2 ++ stop :: r).
Proof.
  intros Hp. induction t as [|c t IH]; simpl; [by rewrite Hp|]. destruct (p c); [|done]. rewrite IH. by destruct (span p t).
Qed.

Lemma span_length p t : (length (span p t).1 + length (span p t).2 = length t)%nat.
Proof. induction t as [|c t IH]; simpl; [done|]. destruct (p c); [|done]. destruct (span p t). simpl in *. lia. Qed.

Ltac span_at t r :=
  let Hs := fresh "Hs" in let a := fresh "a" in let b := fresh "b" in
  pose proof (span_stop isdecimal t r eq_refl) as Hs; destruct (span isdecimal t) as [a b]; cbn [fst snd] in Hs; rewrite Hs.

Lemma scan_fraction_stop t r : scan_fraction (t ++ stop :: r) = ((scan_fraction t).1, (scan_fraction t).2 ++ stop :: r).
Proof.
  destruct t as [|c t]; [done|]. unfold scan_fraction. cbn [app]. destruct (is_char "." c); [|done].
  span_at t r. by destruct a.
Qed.

Lemma scan_exponent_stop t r : scan_exponent (t ++ stop :: r) = ((scan_exponent t).1, (scan_exponent t).2 ++ stop :: r).
Proof.
  destruct t as [|c t]; [done|]. unfold scan_exponent. cbn [app]. destruct (is_char "e" c || is_char "E" c); [|done].
  destruct t as [|d t]; [done|]. cbn [app].
  destruct (is_char "-" d); [span_at t r; by destruct a|]. destruct (is_char "+" d); [span_at t r; by destruct a|].
  change (d :: t ++ stop :: r) with ((d :: t) ++ stop :: r). span_at (d :: t) r. by destruct a.
Qed.

Lemma scan_number_stop minus t r tok rest :
  scan_number minus t = Some (tok, rest) → scan_number minus (t ++ stop :: r) = Some (tok, rest ++ stop :: r).
Proof.
  unfold scan_number. span_at t r. destruct a as [|c a]; [done|].
  rewrite scan_fraction_stop. destruct (scan_fraction b) as [f r1]. cbn [fst snd].
  rewrite scan_exponent_stop. destruct (scan_exponent r1) as [e r2]. cbn [fst snd]. by intros [= <- <-].
Qed.

Lemma scan_parts_stop n m t r : (length t ≤ n)%nat → (length t ≤ m)%nat →
  scan_parts m (t ++ stop :: r) = ((scan_parts n t).1, (scan_parts n t).2 ++ stop :: r).
Proof.
  revert m t. induction n as [|n IH]; intros m t Hn Hm.
  { destruct t; [|simpl in Hn; lia]. by destruct m, r. }
  destruct t as [|d [|c t]]; [by destruct m, r| |]; (destruct m as [|m]; [simpl in Hm; lia|]); cbn [scan_parts app].
  { by rewrite andb_false_r. }
  destruct (is_char "." d && letter c); [|done].
  change (c :: t ++ stop :: r) with ((c :: t) ++ stop :: r). rewrite (span_stop word_char (c :: t) r eq_refl).
  pose proof (span_length word_char (c :: t)) as Hl. destruct (span word_char (c :: t)) as [w r1]. cbn [fst snd] in *.
  simpl in Hl, Hn, Hm. rewrite (IH m r1) by lia. by destruct (scan_parts n r1).
Qed.

Lemma scan_parts_length n t : (length (scan_parts n t).2 ≤ length t)%nat.
Proof.
  revert t. induction n as [|n IH]; intros t; [done|]. destruct t as [|d [|c t]]; [done..|]. cbn [scan_parts].
  destruct (is_char "." d && letter c); [|done]. pose proof (span_length word_char (c :: t)) as Hl.
  destruct (span word_char (c :: t)) as [w r1]. specialize (IH r1). destruct (scan_parts n r1). simpl in *. lia.
Qed.

Lemma scan_name_stop t r tok rest : scan_name t = Some (tok, rest) → scan_name (t ++ stop :: r) = Some (tok, rest ++ stop :: r).
Proof.
  unfold scan_name. rewrite (span_stop word_char t r eq_refl). destruct (span word_char t) as [w r1]. cbn [fst snd].
  rewrite (scan_parts_stop (length r1) (length (r1 ++ stop :: r)) r1 r) by (rewrite ?length_app; lia).
  destruct (scan_parts (length r1) r1) as [ps r2]. cbn [fst snd]. by intros [= <- <-].
Qed.

Lemma scan_op_stop t r tok rest : scan_op t = Some (tok, rest) → scan_op (t ++ stop :: r) = Some (tok, rest ++ stop :: r).
Proof.
  destruct t as [|c t]; [done|]. unfold scan_op. cbn [app]. destruct t as [|d t]; cbn [app].
  - replace (is_char "=" stop) with false by done. repeat (case_match; simpl; try done); by intros [= <- <-].
  - destruct (is_char "=" d); repeat (case_match; simpl; try done); by intros [= <- <-].
Qed.

Lemma scan_stop t r tok rest : scan t = Some (tok, rest) → scan (t ++ stop :: r) = Some (tok, rest ++ stop :: r).
Proof.
  destruct t as [|c t]; [done|]. unfold scan. cbn [app]. destruct (bool_decide (c = quote)).
  { destruct (string_end t) as [[inner r1]|] eqn:E; [|done]. rewrite (proj2 (string_end_spec _ _ _ E)). simpl.
    destruct (read_string inner); [|done]. by intros [= <- <-]. }
  destruct (is_char "-" c); [apply scan_number_stop|].
  destruct (isdecimal c); [apply (scan_number_stop false (c :: t))|].
  destruct (find (λ a, is_char a c) punctuation); [by intros [= <- <-]|].
  destruct (letter c); [apply (scan_name_stop (c :: t))|apply (scan_op_stop (c :: t))].
Qed.

Lemma span_first p c t : p c = true → (length (span p (c :: t)).2 ≤ length t)%nat.
Proof. intros Hp. simpl. rewrite Hp. pose proof (span_length p t). destruct (span p t). simpl in *. lia. Qed.

Lemma scan_number_length minus t tok rest : scan_number minus t = Some (tok, rest) → (length rest < length t)%nat.
Proof.
  unfold scan_number. pose proof (span_length isdecimal t) as H1. destruct (span isdecimal t) as [[|c a] b]; [done|].
  assert (length (scan_fraction b).2 ≤ length b)%nat as H2.
  { destruct b as [|c' b]; [done|]. unfold scan_fraction. destruct (is_char "." c'); [|done].
    pose proof (span_length isdecimal b). destruct (span isdecimal b) as [[|? ?] ?]; simpl in *; lia. }
  destruct (scan_fraction b) as [f r1]. cbn [fst snd] in *.
  assert (length (scan_exponent r1).2 ≤ length r1)%nat as H3.
  { destruct r1 as [|c' r1]; [done|]. unfold scan_exponent. destruct (is_char "e" c' || is_char "E" c'); [|done].
    destruct r1 as [|d r1]; [done|]. pose proof (span_length isdecimal r1). pose proof (span_length isdecimal (d :: r1)).
    destruct (is_char "-" d); [destruct (span isdecimal r1) as [[|? ?] ?]; simpl in *; lia|].
    destruct (is_char "+" d); [destruct (span isdecimal r1) as [[|? ?] ?]; simpl in *; lia|].
    destruct (span isdecimal (d :: r1)) as [[|? ?] ?]; simpl in *; lia. }
  destruct (scan_exponent r1) as [e r2]. cbn [fst snd] in *. intros [= <- <-]. simpl in *. lia.
Qed.

Lemma scan_length t tok rest : scan t = Some (tok, rest) → (length rest < length t)%nat.
Proof.
  destruct t as [|c t]; [done|]. unfold scan. destruct (bool_decide (c = quote)).
  { destruct (string_end t) as [[inner r1]|] eqn:E; [|done]. simpl. destruct (read_string inner); [|done].
    intros [= <- <-]. apply string_end_spec in E as [E _]. simpl. lia. }
  destruct (is_char "-" c); [intros H%scan_number_length; simpl; lia|].
  destruct (isdecimal c); [apply scan_number_length|].
  destruct (find (λ a, is_char a c) punctuation); [intros [= <- <-]; simpl; lia|].
  destruct (letter c) eqn:Hl.
  - unfold scan_name. pose proof (span_first word_char c t) as Hw. unfold word_char at 1 in Hw. rewrite Hl in Hw. specialize (Hw eq_refl).
    destruct (span word_char (c :: t)) as [w r1]. pose proof (scan_parts_length (length r1) r1) as Hp.
    destruct (scan_parts (length r1) r1). cbn [fst snd] in *. intros [= <- <-]. simpl. lia.
  - unfold scan_op. destruct t as [|d t]; [|destruct (is_char "=" d)]; repeat (case_match; simpl; try done); intros [= <- <-]; simpl; lia.
Qed.

Lemma lstrip_length t : (length (lstrip t) ≤ length t)%nat.
Proof. induction t as [|c t IH]; [done|]. simpl. destruct (isspace c); simpl; lia. Qed.

Lemma lstrip_stop t r : lstrip (t ++ stop :: r) = lstrip t ++ stop :: r.
Proof. induction t as [|c t IH]; [done|]. simpl. by destruct (isspace c). Qed.

(** Every token takes a character: more fuel changes nothing. *)
Lemma lex_fuel n m t : (length t ≤ n)%nat → (length t ≤ m)%nat → lex n t = lex m t.
Proof.
  revert m t. induction n as [|n IH]; intros m t Hn Hm.
  { destruct t; [|simpl in Hn; lia]. by destruct m. }
  destruct m as [|m]; [destruct t; [done|simpl in Hm; lia]|]. cbn [lex]. pose proof (lstrip_length t) as Hl.
  destruct (lstrip t) as [|c t'] eqn:E; [done|]. destruct (scan (c :: t')) as [[tok rest]|] eqn:Hs; [|done].
  apply scan_length in Hs. simpl. rewrite (IH m rest); [done|simpl in *; lia..].
Qed.

Lemma lex_stop n m t r ts : (length (t ++ stop :: r) ≤ m)%nat → lex n t = Some ts →
  lex m (t ++ stop :: r) = (λ l, ts ++ l) <$> lex (S (length r)) (stop :: r).
Proof.
  revert n t ts. induction m as [|m IH]; intros n t ts Hm Hl; [rewrite length_app in Hm; simpl in Hm; lia|].
  pose proof (lstrip_length t) as Hlen. pose proof (lstrip_stop t r) as Hst.
  destruct (lstrip t) as [|c t'] eqn:E.
  - assert (ts = []) as -> by (destruct n; cbn [lex] in Hl; rewrite E in Hl; by simplify_eq).
    rewrite option_fmap_id. rewrite length_app in Hm. simpl in Hm.
    rewrite (lex_fuel (S (length r)) (S m) (stop :: r)) by (simpl; lia). cbn [lex]. by rewrite Hst.
  - set (tail := lex (S (length r)) (stop :: r)) in *.
    destruct n as [|n]; cbn [lex] in Hl; rewrite E in Hl; [done|]. cbn [lex]. rewrite Hst. cbn [app].
    destruct (scan (c :: t')) as [[tok rest]|] eqn:Hs; [|done]. simpl in Hl.
    destruct (lex n rest) as [l|] eqn:Hr; [|done]. injection Hl as <-.
    change (c :: t' ++ stop :: r) with ((c :: t') ++ stop :: r). rewrite (scan_stop _ _ _ _ Hs). cbn [mbind option_bind].
    apply scan_length in Hs. rewrite (IH n rest l); [|rewrite length_app in *; simpl in *; lia|done].
    fold tail. by destruct tail.
Qed.

(** ** The rule that is added *)

Lemma lex_step n t t' tok rest l :
  lstrip t = t' → t' ≠ [] → scan t' = Some (tok, rest) → lex (length rest) rest = Some l → (length t ≤ n)%nat →
  lex n t = Some (tok :: l).
Proof.
  intros Ht Hne Hs Hl Hn. pose proof (lstrip_length t) as Hlen. pose proof (scan_length _ _ _ Hs) as Hr. rewrite Ht in Hlen.
  destruct n as [|n]; [lia|]. cbn [lex]. rewrite Ht. destruct t' as [|c t']; [done|]. rewrite Hs. cbn [mbind option_bind].
  by rewrite (lex_fuel n (length rest) rest), Hl by lia.
Qed.

Definition clause_tokens (shape : text) : list token := [TName SHAPE; TOp OEq; TLit (VStr shape)].

Lemma lex_clause_then shape r l : lex (length r) r = Some l →
  lex (length (when_shape shape ++ r)) (when_shape shape ++ r) = Some (clause_tokens shape ++ l).
Proof.
  intros Hr. unfold when_shape, quoted, clause_tokens. rewrite <- app_assoc. cbn [app].
  eapply (lex_step _ _ _ _ (lit " == " ++ (quote :: (shape ≫= escape_ascii) ++ [quote]) ++ r)); [reflexivity|done|reflexivity| |done].
  eapply (lex_step _ _ _ _ (lit " " ++ (quote :: (shape ≫= escape_ascii) ++ [quote]) ++ r)); [reflexivity|done|reflexivity| |done].
  eapply (lex_step _ _ (quote :: (shape ≫= escape_ascii) ++ quote :: r)); [|done| |exact Hr|done].
  - cbn [lit list_ascii_of_string fmap list_fmap app lstrip]. by rewrite <- app_assoc.
  - unfold scan. rewrite bool_decide_eq_true_2 by done. rewrite string_end_quoted. cbn [mbind option_bind].
    by rewrite read_string_escaped.
Qed.

Lemma lex_paren base tb r l n : lex n base = Some tb → lex (length r) r = Some l →
  lex (length (lit "(" ++ base ++ stop :: r)) (lit "(" ++ base ++ stop :: r) = Some (TPunct "(" :: tb ++ TPunct ")" :: l).
Proof.
  intros Hb Hr. eapply (lex_step _ _ _ _ (base ++ stop :: r)); [reflexivity|done|reflexivity| |done].
  rewrite (lex_stop n _ base r tb) by done.
  by rewrite (lex_step (S (length r)) (stop :: r) (stop :: r) (TPunct ")") r l).
Qed.

(** Where every piece is parsed with the fuel of a whole one. *)
Lemma or_parsed tb n e shape : _or n tb = Found e [] →
  _or (10 + n) (TPunct "(" :: tb ++ TPunct ")" :: TKw KOr :: TPunct "(" :: clause_tokens shape ++ [TPunct ")"]) =
  Found (EOr e (ECmp OEq (OPath SHAPE) (OLit (VStr shape)))) [].
Proof.
  intros He. assert (∀ s, _or (7 + n) (tb ++ TPunct ")" :: s) = Found e (TPunct ")" :: s)) as Hin.
  { intros s. apply (proj1 (parsers_extend n) (7 + n)%nat tb e [] (TPunct ")" :: s)); [lia|right; by eexists|done]. }
  cbn [Nat.add]. cbn [_or]. cbn [_and]. cbn [_not is_kw is_punct]. rewrite bool_decide_eq_true_2 by done.
  cbn [Nat.add] in Hin. rewrite Hin. cbn [then_ is_punct]. rewrite bool_decide_eq_true_2 by done.
  destruct n as [|n]; [done|]. reflexivity.
Qed.

Lemma and_parsed tb n e shape : _or n tb = Found e [] →
  _or (10 + n) (TPunct "(" :: tb ++ TPunct ")" :: TKw KAnd :: TKw KNot :: TPunct "(" :: clause_tokens shape ++ [TPunct ")"]) =
  Found (EAnd e (ENot (ECmp OEq (OPath SHAPE) (OLit (VStr shape))))) [].
Proof.
  intros He. assert (∀ s, _or (7 + n) (tb ++ TPunct ")" :: s) = Found e (TPunct ")" :: s)) as Hin.
  { intros s. apply (proj1 (parsers_extend n) (7 + n)%nat tb e [] (TPunct ")" :: s)); [lia|right; by eexists|done]. }
  cbn [Nat.add]. cbn [_or]. cbn [_and]. cbn [_not is_kw is_punct]. rewrite bool_decide_eq_true_2 by done.
  cbn [Nat.add] in Hin. rewrite Hin. cbn [then_ is_punct]. rewrite bool_decide_eq_true_2 by done.
  destruct n as [|n]; [done|]. reflexivity.
Qed.

Lemma parse_inv t e : parse t = Some e →
  (length t ≤ MAX_EXPRESSION_CHARS)%nat ∧ ∃ ts, lex (length t) t = Some ts ∧ _or (parse_fuel ts) ts = Found e [].
Proof.
  unfold parse, _tokens. destruct (Nat.ltb_spec MAX_EXPRESSION_CHARS (length t)); [done|].
  destruct (lex (length t) t) as [ts|]; [|done]. simpl. intros Hp. split; [done|]. exists ts. split; [done|].
  destruct (_or (parse_fuel ts) ts) as [x [|? ?]| |]; by simplify_eq.
Qed.

Lemma parse_of t ts n e : (length t ≤ MAX_EXPRESSION_CHARS)%nat → lex (length t) t = Some ts →
  _or n ts = Found e [] → (n ≤ parse_fuel ts)%nat → parse t = Some e.
Proof.
  intros Hlen Hl Ho Hn. unfold parse, _tokens. rewrite (proj2 (Nat.ltb_ge _ _)) by done. rewrite Hl. cbn [mbind option_bind].
  pose proof (proj1 (parsers_extend n) (parse_fuel ts) ts e [] [] Hn (or_introl eq_refl) Ho) as H.
  rewrite app_nil_r in H. by rewrite H.
Qed.

Lemma eval_clause shape args :
  _eval (ECmp OEq (OPath SHAPE) (OLit (VStr shape))) args = bool_decide (arg_shape args = shape).
Proof. done. Qed.

Lemma lex_clause shape : lex (length (when_shape shape)) (when_shape shape) = Some (clause_tokens shape).
Proof.
  pose proof (lex_clause_then shape [] [] eq_refl) as H. by rewrite !app_nil_r in H.
Qed.

Lemma parse_clause shape : (length (when_shape shape) ≤ MAX_EXPRESSION_CHARS)%nat →
  parse (when_shape shape) = Some (ECmp OEq (OPath SHAPE) (OLit (VStr shape))).
Proof. intros Hl. apply (parse_of _ (clause_tokens shape) 6); [done|apply lex_clause|done|unfold parse_fuel; simpl; lia]. Qed.

Lemma parse_not_clause shape : (length (lit "not (" ++ when_shape shape ++ lit ")") ≤ MAX_EXPRESSION_CHARS)%nat →
  parse (lit "not (" ++ when_shape shape ++ lit ")") = Some (ENot (ECmp OEq (OPath SHAPE) (OLit (VStr shape)))).
Proof.
  intros Hl. apply (parse_of _ (TKw KNot :: TPunct "(" :: clause_tokens shape ++ [TPunct ")"]) 10); [done| |done|unfold parse_fuel; simpl; lia].
  eapply (lex_step _ _ _ _ (lit " (" ++ when_shape shape ++ lit ")")); [reflexivity|done|reflexivity| |done].
  eapply (lex_step _ _ (lit "(" ++ when_shape shape ++ lit ")") _ (when_shape shape ++ lit ")")); [reflexivity|done|reflexivity| |done].
  by apply lex_clause_then.
Qed.

(** After a base in parentheses: [ or (] and [ and not (]. *)
Lemma lex_or_clause shape :
  lex (length (lit " or (" ++ when_shape shape ++ lit ")")) (lit " or (" ++ when_shape shape ++ lit ")") =
  Some (TKw KOr :: TPunct "(" :: clause_tokens shape ++ [TPunct ")"]).
Proof.
  eapply (lex_step _ _ (lit "or (" ++ when_shape shape ++ lit ")") _ (lit " (" ++ when_shape shape ++ lit ")"));
    [reflexivity|done|reflexivity| |done].
  eapply (lex_step _ _ (lit "(" ++ when_shape shape ++ lit ")") _ (when_shape shape ++ lit ")")); [reflexivity|done|reflexivity| |done].
  by apply lex_clause_then.
Qed.

Lemma lex_and_not_clause shape :
  lex (length (lit " and not (" ++ when_shape shape ++ lit ")")) (lit " and not (" ++ when_shape shape ++ lit ")") =
  Some (TKw KAnd :: TKw KNot :: TPunct "(" :: clause_tokens shape ++ [TPunct ")"]).
Proof.
  eapply (lex_step _ _ (lit "and not (" ++ when_shape shape ++ lit ")") _ (lit " not (" ++ when_shape shape ++ lit ")"));
    [reflexivity|done|reflexivity| |done].
  eapply (lex_step _ _ (lit "not (" ++ when_shape shape ++ lit ")") _ (lit " (" ++ when_shape shape ++ lit ")"));
    [reflexivity|done|reflexivity| |done].
  eapply (lex_step _ _ (lit "(" ++ when_shape shape ++ lit ")") _ (when_shape shape ++ lit ")")); [reflexivity|done|reflexivity| |done].
  by apply lex_clause_then.
Qed.

Lemma parse_or_clause base e shape : parse base = Some e →
  (length (lit "(" ++ base ++ lit ") or (" ++ when_shape shape ++ lit ")") ≤ MAX_EXPRESSION_CHARS)%nat →
  parse (lit "(" ++ base ++ lit ") or (" ++ when_shape shape ++ lit ")") =
  Some (EOr e (ECmp OEq (OPath SHAPE) (OLit (VStr shape)))).
Proof.
  intros (_ & tb & Hb & He)%parse_inv Hl. eapply parse_of; [done| |by apply or_parsed|].
  - by apply (lex_paren base tb (lit " or (" ++ when_shape shape ++ lit ")") _ (length base)), lex_or_clause.
  - unfold parse_fuel. cbn [length]. rewrite length_app. simpl. lia.
Qed.

Lemma parse_and_not_clause base e shape : parse base = Some e →
  (length (lit "(" ++ base ++ lit ") and not (" ++ when_shape shape ++ lit ")") ≤ MAX_EXPRESSION_CHARS)%nat →
  parse (lit "(" ++ base ++ lit ") and not (" ++ when_shape shape ++ lit ")") =
  Some (EAnd e (ENot (ECmp OEq (OPath SHAPE) (OLit (VStr shape))))).
Proof.
  intros (_ & tb & Hb & He)%parse_inv Hl. eapply parse_of; [done| |by apply and_parsed|].
  - by apply (lex_paren base tb (lit " and not (" ++ when_shape shape ++ lit ")") _ (length base)), lex_and_not_clause.
  - unfold parse_fuel. cbn [length]. rewrite length_app. simpl. lia.
Qed.

Lemma compose_evaluates existing r s shape args b :
  evaluate (base_of existing r) args = Some b →
  (length (compose existing r s shape) ≤ MAX_EXPRESSION_CHARS)%nat →
  evaluate (compose existing r s shape) args =
    Some (match s with
          | AlwaysAsk => b || bool_decide (arg_shape args = shape)
          | AutoApprove => b && negb (bool_decide (arg_shape args = shape))
          end).
Proof.
  unfold compose. set (base := base_of existing r). intros Hb Hl. unfold evaluate in *.
  destruct (parse base) as [e|] eqn:He; [|done]. injection Hb as Hb. destruct s.
  - case_bool_decide as Ht.
    + rewrite parse_not_clause by done. rewrite Ht in He. vm_compute in He. injection He as <-. cbn in Hb. by rewrite <- Hb.
    + rewrite (parse_and_not_clause base e) by done. cbn [mbind option_bind _eval]. by rewrite Hb.
  - case_bool_decide as Hf.
    + rewrite parse_clause by done. rewrite Hf in He. vm_compute in He. injection He as <-. cbn in Hb. by rewrite <- Hb.
    + rewrite (parse_or_clause base e) by done. cbn [mbind option_bind _eval]. by rewrite Hb.
Qed.

(** C25: A learned rule changes exactly the calls of its argument shape: whatever
    expression a tool has (its risk tier when it has none), the expression with
    the rule parses, asks for or stops asking for the calls of that shape, and
    decides every other call as before - if it is within the length limit. *)
Theorem compose_exact existing r s shape args b :
  evaluate (base_of existing r) args = Some b →
  (length (compose existing r s shape) ≤ MAX_EXPRESSION_CHARS)%nat →
  evaluate (compose existing r s shape) args =
    Some (match s with
          | AlwaysAsk => b || bool_decide (arg_shape args = shape)
          | AutoApprove => b && negb (bool_decide (arg_shape args = shape))
          end).
Proof. apply compose_evaluates. Qed.

(** The parser comes to a result on every text: its fuel never runs out, so
    [None] is always the [ValueError] of the code. *)
Theorem parse_total ts : _or (parse_fuel ts) ts ≠ NoFuel ∧ ∀ k t, lex (length t + k) t = lex (length t) t.
Proof.
  split; [|intros k t; apply lex_fuel; lia].
  pose proof (proj1 (parsers_settle (parse_fuel ts)) ts ltac:(unfold parse_fuel; lia)) as H. intros Hf. by rewrite Hf in H.
Qed.
End expressions.

(** ** Examples *)

Definition whole_log (n : Z) : Z := Z.of_nat (String.length (text_of_Z (Z.abs n))) - 1.

(** A literal with ['] for the double quote. *)
Definition quoting (s : string) : text := (λ c, if bool_decide (c = chr "'") then quote else c) <$> lit s.

Abbreviation eval_ e args := (evaluate id whole_log (quoting e) args).

Example documented_examples :
  eval_ "amount >= 1000 and currency == 'EUR'" [("amount", JNum 1200); ("currency", JStr "EUR")] = Some true ∧
  eval_ "shape == 'amount:num:1e3'" [("amount", JNum 1200)] = Some true ∧
  eval_ "not (supplier.country in ['DE', 'FR']) or total > 1.5e2" [("supplier", JObj [("country", JStr "IT")])] = Some true ∧
  eval_ "amount > limit" [("amount", JNum 3)] = Some false ∧ eval_ "amount >" [] = None ∧ eval_ "true" [] = Some true.
Proof. vm_compute. repeat split. Qed.

Definition w_shape : text := lit "amount:num:1e3".

Lemma compose_exact_witness :
  evaluate id whole_log (compose (Some (lit "amount > 500")) Write AutoApprove w_shape) [("amount", JNum 1200)] = Some false ∧
  evaluate id whole_log (compose (Some (lit "amount > 500")) Write AutoApprove w_shape) [("amount", JNum 700)] = Some true.
Proof.
  split.
  - pose proof (compose_exact id whole_log (Some (lit "amount > 500")) Write AutoApprove w_shape [("amount", JNum 1200)] true
      ltac:(vm_compute; reflexivity) ltac:(apply Nat.leb_le; vm_compute; reflexivity)) as H.
    rewrite H. vm_compute. reflexivity.
  - pose proof (compose_exact id whole_log (Some (lit "amount > 500")) Write AutoApprove w_shape [("amount", JNum 700)] true
      ltac:(vm_compute; reflexivity) ltac:(apply Nat.leb_le; vm_compute; reflexivity)) as H.
    rewrite H. vm_compute. reflexivity.
Defined.
