(* ===== verification/FeedbackService.v ===== *)
(** * FeedbackService: storing judgements, deciding them, learning from them
    (modules/feedback/service.py, with [supersede] and [retract] of
    modules/memory/revisions.py)

    A request or a job runs in one unit of work, whose working copy is the state:
    what [MemoryService] works on, the feedback records and the tool tables. A
    confidence is a rational; the tool calls' digest, the text of a JSON value that
    is no string and the fresh ids are arguments. *)
From Stdlib Require Import QArith Qminmax.
From stdpp Require Import sorting.
From S2P Require Import Prelude Errors Ids Text Context Rebac Visibility Revisions AuthzProvider AuthzService.
From S2P Require Import Cache ScopeCache TenancyRepo TenancyService Tasks Outbox UnitOfWork MemoryModel MemoryRepo MemoryService.
From S2P Require Import Feedback Tools ApproveWhen.
#[local] Open Scope Z_scope.

(** ** State *)

Record feedback_sys {P C : Type} := {
  fs_memory : memory_sys P C;
  fs_feedback : feedbacks;
  fs_tools : tool_tables;
}.
Arguments feedback_sys : clear implicits.

Definition TASK_FEEDBACK_PROJECT : string := "feedback.project".
Definition TASK_TOOLS_LEARN : string := "tools.learn".
Definition REINFORCEMENT_STEP : Q := 1 # 10.
Definition BULK_REVIEW_MAX : nat := 500.
Definition CALL_RECORD_CHECKS : Z := 10.
Definition CALL_RECORD_WAIT_SECONDS : Z := 30.
Definition CITED_CONFIDENCE_STEP : Q := 1 # 20.
Definition CONFIDENCE_FLOOR : Q := 1 # 20.
Definition CITED_MEMORIES_MAX : nat := 20.
Definition APPROVAL_DECISIONS_READ : nat := 500.

(** Default limits of the repository's queries. *)
Definition PENDING_LIMIT : nat := 1000.
Definition APPLIED_LIMIT : nat := 20.
Definition LIST_LIMIT : nat := 100.

(** A vote's projection did nothing because another vote of its voter counts. *)
Definition stood_down (p : FeedbackProjection) : bool :=
  bool_decide (pj_reason p = Some REPLACED_REASON ∨ pj_reason p = Some ALREADY_COUNTED_REASON).

Definition outcome_of (action : ProjectionAction) (now : Z) : FeedbackProjection :=
  {| pj_action := action; pj_memory := None; pj_memories := []; pj_run := None; pj_superseded_by := None; pj_reversed := None;
     pj_reason := None; pj_at := now |}.

Definition nothing_done (reason : string) (memory run : option string) (now : Z) : FeedbackProjection :=
  {| pj_action := NO_ACTION; pj_memory := memory; pj_memories := []; pj_run := run; pj_superseded_by := None; pj_reversed := None;
     pj_reason := Some reason; pj_at := now |}.

Definition on_memory (action : ProjectionAction) (memory : string) (superseded_by : option string) (now : Z) : FeedbackProjection :=
  {| pj_action := action; pj_memory := Some memory; pj_memories := []; pj_run := None; pj_superseded_by := superseded_by;
     pj_reversed := None; pj_reason := None; pj_at := now |}.

Definition with_reversed (i : option string) (p : FeedbackProjection) : FeedbackProjection :=
  {| pj_action := pj_action p; pj_memory := pj_memory p; pj_memories := pj_memories p; pj_run := pj_run p;
     pj_superseded_by := pj_superseded_by p; pj_reversed := i; pj_reason := pj_reason p; pj_at := pj_at p |}.

Definition set_standing (confidence : Q) (reinforcements now : Z) (m : CanonicalMemory) : CanonicalMemory :=
  {| m_id := m_id m; m_tenant := m_tenant m; m_scope := m_scope m; m_visibility := m_visibility m;
     m_owner := m_owner m; m_lifetime := m_lifetime m; m_type := m_type m; m_custom_type := m_custom_type m;
     m_content := m_content m; m_hash := m_hash m; m_subject := m_subject m; m_predicate := m_predicate m;
     m_object := m_object m; m_temporal := m_temporal m; m_evidence := m_evidence m; m_confidence := confidence;
     m_importance := m_importance m; m_reinforcements := reinforcements; m_accesses := m_accesses m;
     m_last_accessed := m_last_accessed m; m_meta := m_meta m; m_custom := m_custom m;
     m_created_at := m_created_at m; m_updated_at := now; m_revision := m_revision m;
     m_deleted_at := m_deleted_at m; m_lang := m_lang m |}.

(** [retract]. *)
Definition retracted_memory (now : Z) (m : CanonicalMemory) : CanonicalMemory :=
  let t := m_temporal m in
  touch now (set_temporal
    {| t_status := RETRACTED; t_valid_from := t_valid_from t; t_valid_to := Some (default now (t_valid_to t));
       t_observed_at := t_observed_at t; t_superseded_by := t_superseded_by t; t_supersedes := t_supersedes t;
       t_contradicts := t_contradicts t |} m).

Definition lifted (now : Z) (m : CanonicalMemory) : CanonicalMemory :=
  let t := m_temporal m in
  touch now (set_temporal
    {| t_status := CURRENT; t_valid_from := t_valid_from t; t_valid_to := None; t_observed_at := t_observed_at t;
       t_superseded_by := t_superseded_by t; t_supersedes := t_supersedes t; t_contradicts := t_contradicts t |} m).

(** [supersede] of modules/memory/revisions.py: the closed memory, and the new one linked back. *)
Definition superseded_by (now : Z) (new_id : string) (old : CanonicalMemory) : CanonicalMemory :=
  let t := m_temporal old in
  touch now (set_temporal
    {| t_status := SUPERSEDED; t_valid_from := t_valid_from t; t_valid_to := Some (default now (t_valid_to t));
       t_observed_at := t_observed_at t; t_superseded_by := Some new_id; t_supersedes := t_supersedes t;
       t_contradicts := t_contradicts t |} old).

Definition linked_back (old_id : string) (m : CanonicalMemory) : CanonicalMemory :=
  let t := m_temporal m in
  set_temporal
    {| t_status := t_status t; t_valid_from := t_valid_from t; t_valid_to := t_valid_to t; t_observed_at := t_observed_at t;
       t_superseded_by := t_superseded_by t; t_supersedes := Some old_id; t_contradicts := t_contradicts t |} m.

Definition feedback_evidence (r : Feedback) (now : Z) : EvidenceRef :=
  {| ev_source_type := EvFeedback; ev_source_id := fb_id r; ev_message_id := None; ev_document_id := None;
     ev_document_version_id := None; ev_chunk_id := None; ev_node_id := None; ev_page := None;
     ev_span := (None, None); ev_agent_id := fb_agent r; ev_agent_run_id := fb_run r; ev_tool_run_id := None;
     ev_observed_at := now; ev_source_hash := None; ev_confidence := None |}.

Definition status_text (s : TemporalStatus) : string :=
  match s with
  | CURRENT => "current" | SUPERSEDED => "superseded" | EXPIRED => "expired" | CONTRADICTED => "contradicted"
  | RETRACTED => "retracted" | ARCHIVED => "archived"
  end.

Section service.
Context {P C : Type} `{AuthorizationLaws P} `{CacheLaws C} `{Codec AuthorizedScope}.
Variable blake2b : string → string.
Variable max_listed : nat.
Variable cache_ttl : Z.
Variable decision_cache : bool.
Variable content_hash : string → string.
Variable normalized_hash : string → string.
Variable detect_language : string → string.
Variable sha : string → string.
(** [str] of a JSON value that is a list or an object. *)
Variable py_repr : json → string.
Variable magnitude : Z → Z.

Abbreviation sys := (feedback_sys P C).
Abbreviation fprog A := (prog sys A).

Definition in_memory {A} (m : prog (memory_sys P C) A) : fprog A :=
  zoom fs_memory (λ x s, {| fs_memory := x; fs_feedback := fs_feedback s; fs_tools := fs_tools s |}) m.
Definition in_feedback {A} (m : fbprog A) : fprog A :=
  zoom fs_feedback (λ x s, {| fs_memory := fs_memory s; fs_feedback := x; fs_tools := fs_tools s |}) m.
Definition in_tools {A} (m : tprog A) : fprog A :=
  zoom fs_tools (λ x s, {| fs_memory := fs_memory s; fs_feedback := fs_feedback s; fs_tools := x |}) m.

Definition in_repo {A} (m : mprog A) : fprog A := in_memory (memories m).
Definition locks (keys : list string) : fprog unit := mapM_ (λ k, in_memory (in_sys (serialize k))) keys.
Definition admin (ctx : MemoryExecutionContext) : fprog bool := in_memory (in_sys (in_authz (is_tenant_admin ctx))).
Definition read_memory (now : Z) (ctx : MemoryExecutionContext) (i : string) : fprog CanonicalMemory :=
  in_memory (get_memory blake2b max_listed cache_ttl decision_cache now ctx i).
Definition enqueue_job (now : Z) (job : JobSpec) : fprog unit := bind (in_memory (in_outbox (add_job now job))) (λ _, ret tt).

Definition _schedule (now : Z) (r : Feedback) (attempt : Z) : fprog unit :=
  let key := "feedback:" +:+ fb_tenant r +:+ ":" +:+ fb_id r in
  let again := negb (attempt =? 0) in
  enqueue_job now
    {| js_task := TASK_FEEDBACK_PROJECT; js_queue := RECONCILE;
       js_payload := JObj ([("tenant_id", JStr (fb_tenant r)); ("feedback_id", JStr (fb_id r))]
                           ++ (if again then [("attempt", JNum attempt)] else []));
       js_idempotency_key := Some (if again then key +:+ ":" +:+ text_of_Z attempt else key); js_lock := None; js_priority := None;
       js_schedule := if again then Some CALL_RECORD_WAIT_SECONDS else None; js_tenant := Some (fb_tenant r) |}.

Definition _reindex (now : Z) (l : list CanonicalMemory) : fprog unit :=
  match l with
  | [] => raise IndexError
  | m :: _ =>
      let ids := str_sorted (m_id <$> l) in
      bind (enqueue_job now (memory_index_job (m_tenant m) ids ("memidx:feedback:" +:+ content_hash (str_join "|" ids)))) (λ _,
      in_memory (bump_memory_revisions l))
  end.

(** ** Submitting *)

Definition _authorize_memory_verdict (now : Z) (ctx : MemoryExecutionContext) (f : Feedback) : fprog unit :=
  bind (read_memory now ctx (fb_target f)) (λ m,
  if negb (rewrites f) then ret tt
  else
    let owner_ok := bool_decide (m_owner m = principal_id ctx ∨ m_owner m = "user:" +:+ default "None" (user_id ctx)) in
    bind (if is_agent ctx then ret false else admin ctx) (λ is_admin,
    if owner_ok || is_admin then ret tt
    else raise (err ScopeDenied ("only the owner (or a tenant admin) can " +:+ verdict_value (fb_verdict f) +:+ " a memory")))).

(** A claimed identity that is not the trusted header's. *)
Definition disagrees (claimed header : option string) : bool :=
  match claimed, header with Some c, Some h => negb (bool_decide (c = h)) | _, _ => false end.

Definition _admit (now : Z) (ctx : MemoryExecutionContext) (f : Feedback) : fprog unit :=
  let refuse name := raise (err ValidationFailed ("feedback " +:+ name +:+ " does not match the trusted header")) in
  if disagrees (Some (fb_tenant f)) (Some (tenant_id ctx)) then refuse "tenant_id"
  else if disagrees (fb_workspace f) (workspace_id ctx) then refuse "workspace_id"
  else if disagrees (fb_user f) (user_id ctx) then refuse "user_id"
  else
  bind (if bool_decide (fb_kind f = KMemory) then _authorize_memory_verdict now ctx f else ret tt) (λ _,
  mapM_ (λ i, bind (read_memory now ctx i) (λ _, ret tt)) (cited_memory_ids CITED_MEMORIES_MAX f)).

Definition _needs_review (ctx : MemoryExecutionContext) (r : Feedback) (trusted run_vouched : bool) : fprog bool :=
  if trusted then ret false
  else if bool_decide (fb_source r = JUDGE) then ret true
  else if run_vouched && bool_decide (fb_source r = SYSTEM) && bool_decide (fb_kind r = KRun)
          && bool_decide (Some (fb_target r) = agent_run_id ctx) && bool_decide (cited_memory_ids 1 r = []) then ret false
  else if bool_decide (fb_kind r = KToolCall) then ret false
  else if bool_decide (fb_kind r = KMemory) && rewrites r then ret false
  else if is_agent ctx then ret true
  else bind (admin ctx) (λ a, ret (negb a)).

Definition repeats (f : Feedback) : bool :=
  match fb_projection f with Some p => bool_decide (pj_reason p = Some ALREADY_COUNTED_REASON) | None => false end.

Definition counts_before (vote found : Feedback) : bool :=
  negb (bool_decide (fb_id found = fb_id vote)) && is_vote found && earlier (stamp found) (stamp vote) && negb (repeats found).

Definition _applied_vote (vote : Feedback) : fprog (option Feedback) :=
  bind (in_feedback (applied_votes (fb_tenant vote) (fb_kind vote) (fb_target vote) (fb_user vote) (fb_agent vote) APPLIED_LIMIT)) (λ l,
  ret (head (filter (λ f, counts_before vote f = true) l))).

Definition dismissed (reason : string) (replaced_by : string) (now : Z) : FeedbackReview :=
  {| rv_state := DISMISSED; rv_by := None; rv_at := Some now; rv_note := Some reason; rv_replaced_by := Some replaced_by |}.

Definition replace_one (vote : Feedback) (replaced_by : string) (found : Feedback) : fprog unit :=
  bind (in_feedback (get_feedback (fb_tenant vote) (fb_id found))) (λ old,
  match old with
  | Some o =>
      if pending o then
        bind (in_feedback (update_review (fb_tenant vote) (fb_id o) (dismissed REPLACED_REASON replaced_by (fb_created_at vote)))) (λ _,
        in_feedback (update_projection (fb_tenant vote) (fb_id o) (nothing_done REPLACED_REASON None None (fb_created_at vote))))
      else ret tt
  | None => ret tt
  end).

Definition _replace_earlier_votes (vote : Feedback) (replaced_by : string) : fprog unit :=
  bind (in_feedback (pending_on (fb_tenant vote) (fb_kind vote) (fb_target vote) (Some (fb_user vote, fb_agent vote)) true PENDING_LIMIT))
    (λ earlier_,
  bind (locks ((λ i, "feedback:" +:+ fb_tenant vote +:+ ":" +:+ i) <$> str_sorted (fb_id <$> earlier_))) (λ _,
  mapM_ (replace_one vote replaced_by) earlier_)).

Definition _count_once (vote : Feedback) : fprog Feedback :=
  bind (_applied_vote vote) (λ counted,
  match counted with
  | Some c =>
      if same_thumb c vote then
        bind (_replace_earlier_votes vote (fb_id c)) (λ _,
        ret (set_projection (Some (nothing_done ALREADY_COUNTED_REASON None None (fb_created_at vote)))
               (set_review (Some (dismissed ALREADY_COUNTED_REASON (fb_id c) (fb_created_at vote))) vote)))
      else bind (_replace_earlier_votes vote (fb_id vote)) (λ _, ret vote)
  | None => bind (_replace_earlier_votes vote (fb_id vote)) (λ _, ret vote)
  end).

(** The record as it is stored: what the request says wins over the body. *)
Definition stamped (now : Z) (ctx : MemoryExecutionContext) (trusted run_vouched : bool) (f : Feedback) : Feedback :=
  let s := {| fb_id := fb_id f; fb_tenant := fb_tenant f; fb_workspace := or_opt (fb_workspace f) (workspace_id ctx);
     fb_user := or_opt (fb_user f) (user_id ctx); fb_agent := or_opt (fb_agent f) (agent_id ctx);
     fb_run := or_opt (fb_run f) (agent_run_id ctx); fb_trace := Some (trace_id ctx); fb_kind := fb_kind f;
     fb_target := fb_target f; fb_verdict := fb_verdict f; fb_correction := fb_correction f; fb_score := fb_score f;
     fb_comment := fb_comment f; fb_reviewer := fb_reviewer f; fb_source := fb_source f; fb_evidence := fb_evidence f;
     fb_metadata := fb_metadata f; fb_created_at := now; fb_projection := None; fb_review := None; fb_vote := fb_vote f |} in
  let v := classify s trusted run_vouched in
  {| fb_id := fb_id s; fb_tenant := fb_tenant s; fb_workspace := fb_workspace s; fb_user := fb_user s; fb_agent := fb_agent s;
     fb_run := fb_run s; fb_trace := fb_trace s; fb_kind := fb_kind s; fb_target := fb_target s; fb_verdict := fb_verdict s;
     fb_correction := fb_correction s; fb_score := fb_score s; fb_comment := fb_comment s; fb_reviewer := fb_reviewer s;
     fb_source := fb_source s; fb_evidence := fb_evidence s; fb_metadata := fb_metadata s; fb_created_at := fb_created_at s;
     fb_projection := None; fb_review := None; fb_vote := Some v |}.

Definition waiting (f : Feedback) : Feedback :=
  set_review (Some {| rv_state := PENDING; rv_by := None; rv_at := None; rv_note := None; rv_replaced_by := None |}) f.

Definition submit (now : Z) (ctx : MemoryExecutionContext) (f : Feedback) (trusted run_vouched : bool) : fprog (Feedback * bool) :=
  bind (_admit now ctx f) (λ _,
  let voter := voter_key (or_opt (fb_user f) (user_id ctx)) (or_opt (fb_agent f) (agent_id ctx)) in
  bind (match voter with
        | Some v => locks ["feedback-vote:" +:+ tenant_id ctx +:+ ":" +:+ kind_value (fb_kind f) +:+ ":" +:+ fb_target f +:+ ":" +:+ v]
        | None => ret tt
        end) (λ _,
  bind (in_feedback (get_feedback (tenant_id ctx) (fb_id f))) (λ existing,
  match existing with
  | Some e => ret (e, false)
  | None =>
      let s := stamped now ctx trusted run_vouched f in
      bind (_needs_review ctx s trusted run_vouched) (λ review,
      let s1 := if review then waiting s else s in
      bind (if pending s1 && bool_decide (is_Some voter) && is_vote s1 then _count_once s1 else ret s1) (λ stored,
      bind (in_feedback (add_feedback stored)) (λ _,
      bind (match fb_review stored with None => _schedule now stored 0 | Some _ => ret tt end) (λ _,
      ret (stored, true)))))
  end))).

(** ** Reviewing *)

Definition _decide (now : Z) (r : Feedback) (approve : bool) (reviewed_by : string) (note : option string) : fprog Feedback :=
  let review := {| rv_state := if approve then APPROVED else DISMISSED; rv_by := Some reviewed_by; rv_at := Some now;
                   rv_note := note; rv_replaced_by := None |} in
  bind (in_feedback (update_review (fb_tenant r) (fb_id r) review)) (λ _,
  if approve then
    bind (_schedule now r 0) (λ _, ret (set_projection None (set_review (Some review) r)))
  else
    let p := nothing_done "dismissed in review" None None now in
    bind (in_feedback (update_projection (fb_tenant r) (fb_id r) p)) (λ _,
    ret (set_projection (Some p) (set_review (Some review) r)))).

Definition review_ (now : Z) (t i : string) (approve : bool) (reviewed_by : string) (note : option string) : fprog Feedback :=
  bind (locks ["feedback:" +:+ t +:+ ":" +:+ i]) (λ _,
  bind (in_feedback (get_feedback t i)) (λ found,
  match found with
  | None => raise (err NotFound ("feedback " +:+ i +:+ " not found"))
  | Some r => if pending r then _decide now r approve reviewed_by note
              else raise (err Conflict ("feedback " +:+ i +:+ " is not waiting for review"))
  end)).

(** What [review_many] is asked to decide. *)
Inductive review_target : Type :=
| ByIds (ids : list string)
| ByTarget (k : FeedbackTargetKind) (i : string)
| Neither.

Definition ids_to_review (t : string) (w : review_target) : fprog (list string * bool) :=
  match w with
  | Neither => raise (err ValidationFailed "send feedback_ids or a target, not both")
  | ByIds l =>
      let ids := fromkeys l in
      if Nat.eqb (length ids) 0 || Nat.ltb BULK_REVIEW_MAX (length ids)
      then raise (err ValidationFailed "send between 1 and 500 feedback ids")
      else ret (ids, false)
  | ByTarget k i =>
      bind (in_feedback (pending_on t k i None false (S BULK_REVIEW_MAX))) (λ found,
      ret (fb_id <$> take BULK_REVIEW_MAX found, Nat.ltb BULK_REVIEW_MAX (length found)))
  end.

(** The records of the ids; every one of them is read before any is decided. *)
Fixpoint read_all (t : string) (ids : list string) : fprog (list (string * option Feedback)) :=
  match ids with
  | [] => ret []
  | i :: ids' => bind (in_feedback (get_feedback t i)) (λ r, bind (read_all t ids') (λ l, ret ((i, r) :: l)))
  end.

Fixpoint decide_all (now : Z) (l : list Feedback) (approve : bool) (reviewed_by : string) (note : option string) :
    fprog (list Feedback * list Feedback) :=
  match l with
  | [] => ret ([], [])
  | r :: l' =>
      if pending r then
        bind (_decide now r approve reviewed_by note) (λ d,
        bind (decide_all now l' approve reviewed_by note) (λ x, ret (d :: fst x, snd x)))
      else bind (decide_all now l' approve reviewed_by note) (λ x, ret (fst x, r :: snd x))
  end.

Definition review_many (now : Z) (t : string) (w : review_target) (approve : bool) (reviewed_by : string) (note : option string) :
    fprog (list Feedback * list Feedback * bool) :=
  bind (ids_to_review t w) (λ '(ids, more),
  bind (locks ((λ i, "feedback:" +:+ t +:+ ":" +:+ i) <$> str_sorted ids)) (λ _,
  bind (read_all t ids) (λ found,
  let missing := filter (λ x, snd x = None) found in
  if negb (bool_decide (missing = []))
  then raise (err NotFound (text_of_Z (Z.of_nat (length missing)) +:+ " feedback id(s) not found"))
  else bind (decide_all now (omap snd found) approve reviewed_by note) (λ x, ret (x, more))))).

Definition pending_queue (t : string) (s : ReviewState) (before : option (Z * string)) (limit : nat) :
    fprog (list (Feedback * (ReviewState → nat))) :=
  in_feedback (λ d, let '(r, d') := list_pending t s before limit d in
    (match r with
     | Ok l => Ok ((λ f, (f, match fst (review_counts t (fb_user f) (fb_agent f) d) with Ok c => c | Raise _ => λ _, O end)) <$> l)
     | Raise e => Raise e
     end, d')).

Definition pending_by_target (t : string) (s : ReviewState) (before : option (Z * (string * string))) (limit : nat) :
    fprog (list FeedbackTargetGroup) := in_feedback (group_by_target t s before limit).

(** ** Reading *)

Definition _own (ctx : MemoryExecutionContext) (r : Feedback) : bool :=
  bool_decide (user_id ctx ≠ None ∧ fb_user r = user_id ctx) || bool_decide (workspace_id ctx ≠ None ∧ fb_workspace r = workspace_id ctx).

Definition unreadable (e : exn) : bool :=
  match e with Service c _ _ => bool_decide (c = NotFound ∨ c = ScopeDenied) | _ => false end.

Definition _visible (now : Z) (ctx : MemoryExecutionContext) (r : Feedback) : fprog bool :=
  if bool_decide (fb_kind r = KMemory) then
    try (bind (read_memory now ctx (fb_target r)) (λ _, ret true)) (λ e, if unreadable e then Some (ret false) else None)
  else if _own ctx r then ret true else admin ctx.

Definition get_record (now : Z) (ctx : MemoryExecutionContext) (i : string) : fprog Feedback :=
  bind (in_feedback (get_feedback (tenant_id ctx) i)) (λ found,
  let gone := raise (err NotFound ("feedback " +:+ i +:+ " not found")) in
  match found with
  | None => gone
  | Some r => bind (_visible now ctx r) (λ ok, if ok then ret r else gone)
  end).

(** The loop of [list_for]: pages of the target's records until [limit] visible
    ones are found or a page is short. *)
Fixpoint visible_from (fuel : nat) (p seen : Feedback → bool) (before : option (Z * string)) (limit : nat) (got : list Feedback)
    (d : feedbacks) : option (list Feedback) :=
  if (limit <=? length got)%nat then Some (take limit got)
  else
    match fuel with
    | O => None
    | S fuel =>
        let rows_ := ordered newest (Some limit) (chosen (λ f, p f && match before with Some b => earlier (stamp f) b | None => true end) d) in
        let got' := got ++ filter (λ r, seen r = true) rows_ in
        if (length rows_ <? limit)%nat then Some (take limit got')
        else match last rows_ with
             | Some r => visible_from fuel p seen (Some (stamp r)) limit got' d
             | None => Some (take limit got')
             end
    end.

Definition list_records (now : Z) (ctx : MemoryExecutionContext) (k : FeedbackTargetKind) (i : string) (before : option (Z * string))
    (limit : nat) : fprog (option (list Feedback)) :=
  if bool_decide (k = KMemory) then
    bind (read_memory now ctx i) (λ _, bind (in_feedback (list_for (tenant_id ctx) k i before limit)) (λ l, ret (Some l)))
  else
    bind (admin ctx) (λ is_admin,
    gets (λ s, visible_from (S (size (fs_feedback s))) (on_target (tenant_id ctx) k i) (λ r, is_admin || _own ctx r) before limit []
                 (fs_feedback s))).

(** ** The projector *)

Definition _approves (r : Feedback) : bool := bool_decide (fb_kind r = KToolCall) && bool_decide (APPROVAL_COUNTER (fb_verdict r) = "approvals").

Definition meta (k : string) (r : Feedback) : json := default JNull (jget k (fb_metadata r)).

(** [str(value or "")] and [str(value)]. *)
Definition falsy (j : json) : bool :=
  match j with JNull | JBool false | JNum 0 | JStr "" | JList [] | JObj [] => true | _ => false end.

Definition py_text (j : json) : string :=
  match j with
  | JNull => "None" | JBool true => "True" | JBool false => "False" | JNum n => text_of_Z n | JStr s => s
  | JList _ | JObj _ => py_repr j
  end.

Definition _recorded (r : Feedback) : fprog nat :=
  bind (in_tools (invocations_for_run (fb_tenant r) (default "" (fb_run r)) None)) (λ calls,
  ret (length (filter (λ c, iv_agent c = fb_agent r ∧ JStr (iv_tool_name c) = meta "tool" r
                            ∧ iv_args_hash c = stable_hash sha (meta "args" r)) calls))).

Definition is_dict (j : json) : bool := match j with JObj _ => true | _ => false end.

Definition _backed (r : Feedback) : fprog bool :=
  if negb (otruthy (fb_run r)) || negb (is_dict (meta "args" r)) then ret false
  else bind (_recorded r) (λ n, ret (Nat.ltb 0 n)).

Definition same_call (r d : Feedback) : bool :=
  bool_decide (fb_run d = Some (default "" (fb_run r))) && _approves d
  && bool_decide (stable_hash sha (meta "args" d) = stable_hash sha (meta "args" r)).

Definition _spent (r : Feedback) : fprog bool :=
  bind (locks ["tool-approvals:" +:+ fb_tenant r +:+ ":" +:+ default "" (fb_run r)]) (λ _,
  bind (_recorded r) (λ recorded,
  bind (in_feedback (counted_decisions (fb_tenant r) (default "" (fb_agent r)) (py_text (meta "tool" r)) APPROVAL_DECISIONS_READ)) (λ decisions,
  ret (Nat.leb recorded (length (filter (λ d, same_call r d = true) decisions)))))).

(** Another counted decision on the same interrupt of the same run. *)
Definition same_interrupt (r d : Feedback) : bool :=
  negb (bool_decide (fb_id d = fb_id r)) && bool_decide (fb_agent d = fb_agent r) && bool_decide (fb_run d = fb_run r)
  && py_eq (of_json (meta "interrupt_id" d)) (of_json (meta "interrupt_id" r)) && counted d.

Definition _counted_before (r : Feedback) : fprog bool :=
  bind (in_feedback (list_for (fb_tenant r) (fb_kind r) (fb_target r) None LIST_LIMIT)) (λ l, ret (existsb (same_interrupt r) l)).

Definition decided_args (r : Feedback) : list (string * json) :=
  match meta "args" r, fb_correction r with JObj a, _ => a | _, JObj c => c | _, _ => [] end.

Definition _project_tool_call (now : Z) (r : Feedback) : fprog FeedbackProjection :=
  let none reason := ret (nothing_done reason None None now) in
  let raw := meta "tool" r in
  let tool := encode (strip (chars (if falsy raw then "" else py_text raw))) in
  if bool_decide (tool = "") then none "the verdict names no tool (metadata.tool)"
  else if negb (otruthy (fb_run r) && negb (falsy (meta "interrupt_id" r)) && otruthy (fb_reviewer r))
  then none "a decision counts only on an interrupt of a run, with its reviewer"
  else
  bind (_counted_before r) (λ before,
  if before then none "a decision on this interrupt was counted already"
  else
  bind (if _approves r then _backed r else ret true) (λ backed,
  if negb backed then none "the run recorded no call of that tool with those arguments"
  else
  bind (if _approves r then _spent r else ret false) (λ spent,
  if spent then none "each call of that tool with those arguments the run recorded backs a counted approval already"
  else
  let counter := APPROVAL_COUNTER (fb_verdict r) in
  bind (in_tools (count_verdict (fb_tenant r) tool counter)) (λ _,
  bind (in_tools (count_approval (fb_tenant r) (default "" (fb_agent r)) tool (encode (arg_shape magnitude (decided_args r))) counter)) (λ _,
  ret (outcome_of TOOL_CALL_COUNTED now)))))).

Definition bump_tenant (t : string) : fprog unit := bind (in_memory (in_revisions (bump t RTenant ""))) (λ _, ret tt).

Definition _project_procedure (now : Z) (r : Feedback) : fprog FeedbackProjection :=
  if negb (bool_decide (fb_verdict r = REJECT))
  then ret (nothing_done ("a " +:+ verdict_value (fb_verdict r) +:+ " of a procedure is recorded") None None now)
  else
  bind (in_tools (reject_procedure now (fb_tenant r) (fb_target r))) (λ found,
  if found then bind (bump_tenant (fb_tenant r)) (λ _, ret (outcome_of PROCEDURE_REJECTED now))
  else ret (nothing_done "no such procedure" None None now)).

(** *** Memories *)

Definition is_current (m : CanonicalMemory) : bool := bool_decide (m_deleted_at m = None ∧ t_status (m_temporal m) = CURRENT).

Definition adjusted (step : Q) (reinforce now : Z) (m : CanonicalMemory) : CanonicalMemory :=
  set_standing (Qmin 1 (Qmax CONFIDENCE_FLOOR (m_confidence m + step))) (Z.max 0 (m_reinforcements m + reinforce)) now m.

Definition _adjust (now : Z) (t : string) (ids : list string) (step : Q) (reinforce : Z) : fprog (list string) :=
  match ids with
  | [] => ret []
  | _ =>
      bind (locks ((λ i, "memory:" +:+ t +:+ ":" +:+ i) <$> str_sorted ids)) (λ _,
      bind (in_repo (get_many now t ids)) (λ found,
      let out := adjusted step reinforce now <$> filter (λ m, is_current m = true) found in
      bind (in_repo (update_all detect_language now out)) (λ _,
      bind (match out with [] => ret tt | _ => _reindex now out end) (λ _,
      ret (str_sorted (m_id <$> out))))))
  end.

Definition _adjust_cited (now : Z) (r : Feedback) (affirmed : bool) : fprog (list string) :=
  _adjust now (fb_tenant r) (cited_memory_ids CITED_MEMORIES_MAX r)
    (if affirmed then CITED_CONFIDENCE_STEP else - CITED_CONFIDENCE_STEP) (if affirmed then 1 else 0).

Definition _reinforce (now : Z) (m : CanonicalMemory) : fprog FeedbackProjection :=
  let m' := set_standing (Qmin 1 (m_confidence m + REINFORCEMENT_STEP)) (m_reinforcements m + 1) now m in
  bind (in_repo (update detect_language now m')) (λ _,
  bind (_reindex now [m']) (λ _, ret (on_memory MEMORY_REINFORCED (m_id m) None now))).

Definition _retract (now : Z) (m : CanonicalMemory) : fprog FeedbackProjection :=
  bind (in_repo (twins (m_tenant m) m true)) (λ others,
  let out := retracted_memory now <$> m :: others in
  bind (in_repo (update_all detect_language now out)) (λ _,
  bind (in_memory (reinstate detect_language now (m_tenant m) (m_id <$> m :: others))) (λ restored,
  bind (_reindex now (out ++ restored)) (λ _, ret (on_memory MEMORY_RETRACTED (m_id m) None now))))).

Definition corrected (now : Z) (new_id content : string) (r : Feedback) (m : CanonicalMemory) : CanonicalMemory :=
  let t := m_temporal m in
  {| m_id := new_id; m_tenant := m_tenant m; m_scope := m_scope m; m_visibility := m_visibility m;
     m_owner := m_owner m; m_lifetime := m_lifetime m; m_type := m_type m; m_custom_type := m_custom_type m;
     m_content := content; m_hash := normalized_hash content; m_subject := m_subject m; m_predicate := m_predicate m;
     m_object := m_object m;
     m_temporal := {| t_status := t_status t; t_valid_from := Some now; t_valid_to := None; t_observed_at := now;
                      t_superseded_by := t_superseded_by t; t_supersedes := t_supersedes t; t_contradicts := t_contradicts t |};
     m_evidence := m_evidence m ++ [feedback_evidence r now]; m_confidence := Qmax (m_confidence m) (9 # 10);
     m_importance := m_importance m; m_reinforcements := 1; m_accesses := 0; m_last_accessed := None;
     m_meta := {| sm_provider := Some (default "native" (sm_provider (m_meta m))); sm_category := None; sm_entities := [];
                  sm_expires_at := None; sm_indexed_at := None; sm_visibility_keys := []; sm_derived_slot := None;
                  sm_source_revisions := ∅; sm_replaced_by := None; sm_supersede_reason := None;
                  sm_other := {["corrected_by" := JStr (fb_id r);
                               "reviewer" := match fb_reviewer r with Some x => JStr x | None => JNull end]} |};
     m_custom := m_custom m; m_created_at := now; m_updated_at := now; m_revision := 1;
     m_deleted_at := m_deleted_at m; m_lang := m_lang m |}.

Definition _correct (now : Z) (new_id : string) (m : CanonicalMemory) (r : Feedback) : fprog FeedbackProjection :=
  let content := correction_text (fb_correction r) in
  if bool_decide (content = "")
  then ret (nothing_done "the correction carries no text (a string or {content: ...})" (Some (m_id m)) None now)
  else
  let new := linked_back (m_id m) (corrected now new_id content r m) in
  bind (in_repo (twins (m_tenant m) m true)) (λ others,
  let closed := superseded_by now new_id <$> m :: others in
  bind (in_repo (update_all detect_language now closed)) (λ _,
  bind (in_repo (MemoryRepo.add now new (sm_visibility_keys (m_meta m)))) (λ _,
  bind (_reindex now (match closed with c :: cs => c :: new :: cs | [] => [new] end)) (λ _,
  ret (on_memory MEMORY_SUPERSEDED (m_id m) (Some new_id) now))))).

Definition _project_memory (now : Z) (new_id : string) (r : Feedback) : fprog FeedbackProjection :=
  bind (in_repo (get now (fb_tenant r) (fb_target r))) (λ found,
  match found with
  | None => ret (nothing_done "the memory is gone" (Some (fb_target r)) None now)
  | Some m =>
      if negb (bool_decide (m_deleted_at m = None)) then ret (nothing_done "the memory is gone" (Some (fb_target r)) None now)
      else if negb (bool_decide (t_status (m_temporal m) = CURRENT))
      then ret (nothing_done ("the memory is " +:+ status_text (t_status (m_temporal m))) (Some (m_id m)) None now)
      else if affirming (fb_verdict r) then _reinforce now m
      else if bool_decide (fb_verdict r = REJECT) then _retract now m
      else _correct now new_id m r
  end).

(** *** Runs *)

Definition _label_run (now : Z) (r : Feedback) (success learn : bool) : fprog bool :=
  bind (locks ["run-outcome:" +:+ fb_tenant r +:+ ":" +:+ fb_target r]) (λ _,
  bind (in_tools (outcome (fb_tenant r) (fb_target r))) (λ existing,
  if match existing with Some o => OUTCOME_PRECEDENCE (fb_source r) <? OUTCOME_PRECEDENCE (ro_source o) | None => false end
  then ret false
  else
  bind (in_tools (set_outcome
    {| ro_tenant := fb_tenant r; ro_run := fb_target r; ro_success := success;
       ro_note := Some ("feedback " +:+ fb_id r +:+ ": " +:+ verdict_value (fb_verdict r)); ro_source := fb_source r;
       ro_recorded_at := now |})) (λ _,
  bind (if learn then enqueue_job now
          {| js_task := TASK_TOOLS_LEARN; js_queue := RECONCILE; js_payload := JObj [("tenant_id", JStr (fb_tenant r))];
             js_idempotency_key := None; js_lock := None; js_priority := None; js_schedule := None; js_tenant := Some (fb_tenant r) |}
        else ret tt) (λ _,
  ret true)))).

Definition _project_run (now : Z) (r : Feedback) : fprog FeedbackProjection :=
  let affirmed := affirming (fb_verdict r) in
  let teaches_ := outcome_teaches (fb_source r) affirmed in
  bind (_label_run now r affirmed teaches_) (λ labelled,
  if negb labelled
  then ret (nothing_done "a higher-ranked source already decided the run's outcome" None (Some (fb_target r)) now)
  else
  bind (if teaches_ then _adjust_cited now r affirmed else ret []) (λ ids,
  ret {| pj_action := RUN_LABELLED; pj_memory := None; pj_memories := ids; pj_run := Some (fb_target r); pj_superseded_by := None;
         pj_reversed := None; pj_reason := None; pj_at := now |})).

Definition _project (now : Z) (new_id : string) (r : Feedback) : fprog FeedbackProjection :=
  match fb_kind r with
  | KMemory => _project_memory now new_id r
  | KRun => _project_run now r
  | KToolCall => _project_tool_call now r
  | KProcedure => _project_procedure now r
  end.

(** *** Votes *)

(** An approved vote of the voter that is not after [r]. *)
Definition not_after (r found : Feedback) : bool :=
  negb (bool_decide (fb_id found = fb_id r)) && is_vote found && negb (earlier (stamp r) (stamp found)).

Definition stands (found : Feedback) : bool :=
  match fb_projection found with Some p => negb (stood_down p) | None => false end.

Fixpoint settle_votes (now : Z) (t : string) (l : list Feedback) (applied : option Feedback) : fprog (option Feedback) :=
  match l with
  | [] => ret applied
  | found :: l' =>
      match fb_projection found with
      | None => bind (in_feedback (update_projection t (fb_id found) (nothing_done REPLACED_REASON None None now))) (λ _,
                settle_votes now t l' applied)
      | Some p => settle_votes now t l' (match applied with Some a => Some a | None => if stood_down p then None else Some found end)
      end
  end.

Definition _settle_earlier (now : Z) (r : Feedback) : fprog (option Feedback) :=
  bind (in_feedback (applied_votes (fb_tenant r) (fb_kind r) (fb_target r) (fb_user r) (fb_agent r) APPLIED_LIMIT)) (λ l,
  settle_votes now (fb_tenant r) (filter (λ f, not_after r f = true) l) None).

Definition _lift_retraction (now : Z) (m : CanonicalMemory) (retracted_at : Z) : fprog unit :=
  bind (in_repo (twins (m_tenant m) m false)) (λ others,
  let out := lifted now <$> filter (λ x, t_status (m_temporal x) = RETRACTED ∧ t_valid_to (m_temporal x) = Some retracted_at) (m :: others) in
  bind (in_repo (update_all detect_language now out)) (λ _,
  match out with [] => ret tt | _ => _reindex now out end)).

Definition _reverse (now : Z) (prior : Feedback) (p : FeedbackProjection) : fprog unit :=
  if bool_decide (fb_kind prior = KRun) && negb (bool_decide (pj_memories p = [])) then
    let affirmed := thumbs_up prior in
    bind (_adjust now (fb_tenant prior) (pj_memories p) (if affirmed then - CITED_CONFIDENCE_STEP else CITED_CONFIDENCE_STEP)
            (if affirmed then -1 else 0)) (λ _, ret tt)
  else match fb_kind prior with
  | KProcedure =>
      if bool_decide (pj_action p = PROCEDURE_REJECTED) then
        bind (in_tools (restore_procedure now (fb_tenant prior) (fb_target prior))) (λ ok,
        if ok then bump_tenant (fb_tenant prior) else ret tt)
      else ret tt
  | KMemory =>
      bind (in_repo (get now (fb_tenant prior) (fb_target prior))) (λ found,
      match found with
      | None => ret tt
      | Some m =>
          if negb (bool_decide (m_deleted_at m = None)) then ret tt
          else if bool_decide (pj_action p = MEMORY_REINFORCED) then
            if bool_decide (t_status (m_temporal m) = CURRENT) then
              let m' := set_standing (Qmax CONFIDENCE_FLOOR (m_confidence m - REINFORCEMENT_STEP)) (Z.max 0 (m_reinforcements m - 1)) now m in
              bind (in_repo (update detect_language now m')) (λ _, _reindex now [m'])
            else ret tt
          else if bool_decide (pj_action p = MEMORY_RETRACTED) then _lift_retraction now m (pj_at p)
          else ret tt
      end)
  | _ => ret tt
  end.

Definition _project_vote (now : Z) (new_id : string) (r : Feedback) : fprog FeedbackProjection :=
  match voter_key (fb_user r) (fb_agent r) with
  | None => _project now new_id r
  | Some voter =>
      bind (locks ["feedback-effect:" +:+ fb_tenant r +:+ ":" +:+ kind_value (fb_kind r) +:+ ":" +:+ fb_target r +:+ ":" +:+ voter]) (λ _,
      bind (_settle_earlier now r) (λ prior,
      match prior with
      | Some f =>
          if same_thumb f r then
            ret (nothing_done ALREADY_COUNTED_REASON (if bool_decide (fb_kind r = KMemory) then Some (fb_target r) else None)
                   (if bool_decide (fb_kind r = KRun) then Some (fb_target r) else None) now)
          else
            bind (match fb_projection f with Some p => _reverse now f p | None => raise AssertionError end) (λ _,
            bind (_project now new_id r) (λ p, ret (with_reversed (Some (fb_id f)) p)))
      | None => bind (_project now new_id r) (λ p, ret (with_reversed None p))
      end))
  end.

Definition apply_record (now : Z) (new_id : string) (r : Feedback) : fprog FeedbackProjection :=
  if bool_decide (is_Some (fb_review r)) && is_vote r then _project_vote now new_id r else _project now new_id r.

Definition project (now : Z) (new_id : string) (t i : string) (attempt : Z) : fprog (option FeedbackProjection) :=
  bind (locks ["feedback:" +:+ t +:+ ":" +:+ i]) (λ _,
  bind (in_feedback (get_feedback t i)) (λ found,
  match found with
  | None => ret None
  | Some r =>
      match fb_projection r with
      | Some p => ret (Some p)
      | None =>
          if pending r then ret None
          else
          bind (if (attempt <? CALL_RECORD_CHECKS) && _approves r then bind (_backed r) (λ b, ret (negb b)) else ret false) (λ wait,
          if wait then bind (_schedule now r (attempt + 1)) (λ _, ret None)
          else
          bind (if bool_decide (fb_kind r = KMemory) then locks ["memory:" +:+ t +:+ ":" +:+ fb_target r] else ret tt) (λ _,
          bind (apply_record now new_id r) (λ p,
          bind (in_feedback (update_projection t i p)) (λ _, ret (Some p)))))
      end
  end)).
End service.
