(* ===== verification/FeedbackVotes.v ===== *)
(** * FeedbackVotes: a person counts once for each target

    The reviewed votes of one voter on one target, their ballot, as an invariant of
    the feedback table: one vote waits at most and it is the newest, an approved vote
    that was not applied yet is newer than those that were, and every applied vote
    names the one it reversed. So one vote stands. [FeedbackSafety] shows that the
    operations of [FeedbackService] keep the invariant. *)
From stdpp Require Import sorting.
From S2P Require Import Prelude Feedback FeedbackService.
#[local] Open Scope Z_scope.

(** ** The order of the records *)

Lemma str_lt_irrefl a : str_lt a a = false.
Proof. apply not_true_iff_false. by intros [_ ?]%str_lt_spec. Qed.

Lemma str_lt_trans a b c : str_lt a b = true → str_lt b c = true → str_lt a c = true.
Proof.
  intros [Hab Hne]%str_lt_spec [Hbc _]%str_lt_spec. apply str_lt_spec. split; [by etrans|].
  intros <-. apply Hne. by apply (anti_symm str_le).
Qed.

Lemma str_lt_total a b : a ≠ b → str_lt a b = true ∨ str_lt b a = true.
Proof. intros Hne. rewrite !str_lt_spec. destruct (total str_le a b); naive_solver. Qed.

Lemma earlier_spec x y : earlier x y = true ↔ x.1 < y.1 ∨ x.1 = y.1 ∧ str_lt x.2 y.2 = true.
Proof. unfold earlier. rewrite orb_true_iff, andb_true_iff, Z.ltb_lt, Z.eqb_eq. done. Qed.

Lemma earlier_irrefl x : earlier x x = false.
Proof. apply not_true_iff_false. intros [?|[_ H]]%earlier_spec; [lia|]. by rewrite str_lt_irrefl in H. Qed.

Lemma earlier_trans x y z : earlier x y = true → earlier y z = true → earlier x z = true.
Proof.
  rewrite !earlier_spec. intros [H|[H Hs]] [H'|[H' Hs']]; [left; lia..|]. right. split; [lia|]. by eapply str_lt_trans.
Qed.

Lemma earlier_asym x y : earlier x y = true → earlier y x = false.
Proof.
  intros Hxy. apply not_true_iff_false. intros Hyx. pose proof (earlier_trans _ _ _ Hxy Hyx) as H. by rewrite earlier_irrefl in H.
Qed.

Lemma earlier_total x y : x.2 ≠ y.2 → earlier x y = true ∨ earlier y x = true.
Proof. intros Hne. rewrite !earlier_spec. destruct (str_lt_total _ _ Hne), (Z.lt_total x.1 y.1); naive_solver lia. Qed.

(** ** Ballots *)

(** Whose vote on what: a person whichever agent carried it, else an agent. *)
Definition ballot (f : Feedback) : string * FeedbackTargetKind * string * (string + option string) :=
  (fb_tenant f, fb_kind f, fb_target f, match fb_user f with Some u => inl u | None => inr (fb_agent f) end).

(** A vote that goes through review, of someone. *)
Definition casts (f : Feedback) : bool :=
  is_vote f && bool_decide (is_Some (fb_review f)) && bool_decide (is_Some (voter_key (fb_user f) (fb_agent f))).

(** Approved and applied; approved and to be applied. *)
Definition applied (f : Feedback) : bool := in_state APPROVED f && stands f.
Definition due (f : Feedback) : bool := in_state APPROVED f && bool_decide (fb_projection f = None).

Definition before (g f : Feedback) : bool := earlier (stamp g) (stamp f).

Definition cast_in (d : feedbacks) (f : Feedback) : Prop := d !! feedback_key f = Some f ∧ casts f = true.

(** The other votes of [f]'s ballot. *)
Definition others (d : feedbacks) (f g : Feedback) : Prop := cast_in d g ∧ ballot g = ballot f ∧ fb_id g ≠ fb_id f.

(** [r] is the id of the newest applied vote before [f]. *)
Definition reverses (d : feedbacks) (f : Feedback) (r : option string) : Prop :=
  match r with
  | None => ∀ g, others d f g → applied g = true → before f g = true
  | Some i => ∃ g, others d f g ∧ applied g = true ∧ fb_id g = i ∧ before g f = true ∧
                ∀ h, others d f h → applied h = true → before h f = true → h = g ∨ before h g = true
  end.

Definition settled_review (f : Feedback) : Prop :=
  (pending f = true → fb_projection f = None) ∧
  (in_state DISMISSED f = true → ∃ p, fb_projection f = Some p ∧ pj_action p = NO_ACTION).

Record one_voice (d : feedbacks) : Prop := {
  ov_keyed : ∀ k f, d !! k = Some f → feedback_key f = k ∧ is_Some (fb_vote f);
  ov_review : ∀ k f, d !! k = Some f → settled_review f;
  ov_waits : ∀ f g, cast_in d f → others d f g → pending f = true → before g f = true;
  ov_due : ∀ f g, cast_in d f → others d f g → due f = true → applied g = true → before g f = true;
  ov_chain : ∀ f p, cast_in d f → applied f = true → fb_projection f = Some p → reverses d f (pj_reversed p);
}.

(** The vote that counts: applied, and reversed by no applied vote of its ballot. *)
Definition counts (d : feedbacks) (f : Feedback) : Prop :=
  cast_in d f ∧ applied f = true ∧
  ∀ g p, others d f g → applied g = true → fb_projection g = Some p → pj_reversed p ≠ Some (fb_id f).

Lemma before_total f g : fb_id g ≠ fb_id f → before f g = true ∨ before g f = true.
Proof. intros Hne. apply earlier_total. cbn. congruence. Qed.

Lemma others_sym d f g : cast_in d f → others d f g → others d g f.
Proof. unfold others. intros Hf (Hg & Hb & Hi). split_and!; [done..|congruence]. Qed.

Lemma others_trans d f g h : others d f g → others d f h → fb_id g ≠ fb_id h → others d g h.
Proof. unfold others. intros (_ & Hb & _) (Hh & Hb' & _) Hne. split_and!; [done|congruence|congruence]. Qed.

Lemma cast_in_inj d f g : cast_in d f → cast_in d g → ballot f = ballot g → fb_id f = fb_id g → f = g.
Proof.
  intros [Hf _] [Hg _] Hb Hi. assert (feedback_key f = feedback_key g) as Hk by (unfold feedback_key; unfold ballot in Hb; congruence).
  rewrite Hk in Hf. congruence.
Qed.

(** ** One vote stands *)

Lemma filter_length_lt {A} (p q : A → bool) l x :
  (∀ y, p y = true → q y = true) → x ∈ l → q x = true → p x = false →
  (length (filter (λ y, p y = true) l) < length (filter (λ y, q y = true) l))%nat.
Proof.
  intros Hpq Hx Hq Hp. induction l as [|y l IH]; [by apply not_elem_of_nil in Hx|].
  assert (length (filter (λ y, p y = true) l) ≤ length (filter (λ y, q y = true) l))%nat as Hle.
  { clear -Hpq. induction l as [|z l IHl]; [done|]. rewrite !filter_cons. repeat case_decide; cbn; naive_solver lia. }
  rewrite !filter_cons. apply elem_of_cons in Hx as [->|Hx]; [rewrite decide_False, decide_True by congruence; cbn; lia|].
  specialize (IH Hx). repeat case_decide; cbn; naive_solver lia.
Qed.

Section voice.
Context (d : feedbacks) (Hd : one_voice d).

(** An applied vote that is not the newest of its ballot was reversed by the next one. *)
Lemma older_reversed n f g : (length (filter (λ h, before h g = true) (rows d)) ≤ n)%nat →
  cast_in d f → applied f = true → others d f g → applied g = true → before f g = true →
  ∃ h p, others d f h ∧ applied h = true ∧ fb_projection h = Some p ∧ pj_reversed p = Some (fb_id f).
Proof.
  revert g. induction n as [|n IH]; intros g Hn Hf Haf Hg Hag Hfg.
  - destruct Hf as [Hf _]. assert (f ∈ filter (λ h, before h g = true) (rows d)) as Hin.
    { apply list_elem_of_filter. split; [done|]. apply elem_of_rows. by eexists. }
    destruct (filter _ _); [by apply not_elem_of_nil in Hin|cbn in Hn; lia].
  - assert (∃ p, fb_projection g = Some p) as [p Hp].
    { unfold applied, stands in Hag. destruct (fb_projection g); [by eexists|by rewrite andb_false_r in Hag]. }
    pose proof (ov_chain _ Hd g p (proj1 Hg) Hag Hp) as Hr. pose proof (others_sym _ _ _ Hf Hg) as Hgf.
    destruct (pj_reversed p) as [i|] eqn:Hi; cbn in Hr.
    + destruct Hr as (h & Hh & Hah & Hid & Hhg & Hmax). destruct (Hmax f Hgf Haf Hfg) as [<-|Hfh].
      { exists g, p. by rewrite Hi, Hid. }
      assert (fb_id f ≠ fb_id h) as Hne.
      { intros Heq. unfold before in Hfh. destruct (cast_in_inj d f h) as []; [done|by destruct Hh|..].
        - destruct Hh as (_ & -> & _), Hg as (_ & -> & _). done.
        - done.
        - by rewrite earlier_irrefl in Hfh. }
      apply (IH h); [|done|done|by eapply others_trans|done|done].
      enough (length (filter (λ x, before x h = true) (rows d)) < length (filter (λ x, before x g = true) (rows d)))%nat by lia.
      apply (filter_length_lt (λ x, before x h) (λ x, before x g) _ h).
      * intros x Hx. by eapply earlier_trans.
      * apply elem_of_rows. destruct Hh as [[Hh _] _]. by eexists.
      * done.
      * apply earlier_irrefl.
    + pose proof (Hr f Hgf Haf) as H. unfold before in *. by rewrite (earlier_asym _ _ Hfg) in H.
Qed.

(** The newest applied vote is the one that counts. *)
Lemma counts_newest f g : counts d f → others d f g → applied g = true → before g f = true.
Proof.
  intros (Hf & Haf & Hno) Hg Hag. destruct (before_total f g) as [Hfg|?]; [by destruct Hg as (_ & _ & ?)| |done].
  destruct (older_reversed _ f g (le_n _) Hf Haf Hg Hag Hfg) as (h & p & Hh & Hah & Hp & Hr).
  by destruct (Hno h p Hh Hah Hp).
Qed.

Lemma counts_unique f g : counts d f → counts d g → ballot f = ballot g → f = g.
Proof.
  intros Hf Hg Hb. destruct (decide (fb_id f = fb_id g)) as [Hi|Hi].
  - destruct Hf as [Hf _], Hg as [Hg _]. by eapply cast_in_inj.
  - assert (others d f g) as Hfg by (split; [apply Hg|split; congruence]).
    assert (others d g f) as Hgf by (split; [apply Hf|split; [done|congruence]]).
    pose proof (counts_newest f g Hf Hfg (proj1 (proj2 Hg))) as H1.
    pose proof (counts_newest g f Hg Hgf (proj1 (proj2 Hf))) as H2.
    unfold before in *. by rewrite (earlier_asym _ _ H1) in H2.
Qed.

(** The applied votes of [f]'s ballot after it. *)
Definition later_applied (f : Feedback) : list Feedback :=
  filter (λ g, casts g && bool_decide (ballot g = ballot f) && applied g && before f g = true) (rows d).

Lemma elem_of_later_applied f g : g ∈ later_applied f ↔ cast_in d g ∧ ballot g = ballot f ∧ applied g = true ∧ before f g = true.
Proof.
  unfold later_applied. rewrite list_elem_of_filter, !andb_true_iff, bool_decide_eq_true. unfold cast_in.
  assert (g ∈ rows d ↔ d !! feedback_key g = Some g) as ->; [|tauto].
  rewrite elem_of_rows. split; [|by eauto]. intros [k Hk]. by destruct (ov_keyed _ Hd _ _ Hk) as [-> _].
Qed.

Lemma newest_counts f : cast_in d f → applied f = true → later_applied f = [] → counts d f.
Proof.
  intros Hf Ha Hl. split_and!; [done..|]. intros g p Hg Hag Hp Hr. apply (not_elem_of_nil g). rewrite <- Hl.
  apply elem_of_later_applied. pose proof (ov_chain _ Hd g p (proj1 Hg) Hag Hp) as Hc. rewrite Hr in Hc.
  destruct Hc as (h & Hh & Hah & Hi & Hlt & _). assert (h = f) as ->; [|by destruct Hg as (? & ? & _)].
  eapply cast_in_inj; [by destruct Hh|done| |done]. destruct Hh as (_ & -> & _), Hg as (_ & -> & _). done.
Qed.

(** A ballot with an applied vote has one that counts. *)
Lemma some_counts n f : (length (filter (λ h, before f h = true) (rows d)) ≤ n)%nat → cast_in d f → applied f = true →
  ∃ g, counts d g ∧ ballot g = ballot f.
Proof.
  revert f. induction n as [|n IH]; intros f Hn Hf Ha; destruct (later_applied f) as [|g l] eqn:Hl;
    try (exists f; by split; [apply newest_counts|]);
    assert (g ∈ later_applied f) as Hin by (rewrite Hl; by left);
    apply elem_of_later_applied in Hin as (Hg & Hb & Hag & Hlt);
    assert (g ∈ rows d) as Hin by (destruct Hg; apply elem_of_rows; by eexists);
    pose proof (filter_length_lt (before g) (before f) (rows d) g (λ x, earlier_trans _ _ _ Hlt) Hin Hlt (earlier_irrefl _)); [lia|].
  destruct (IH g) as (c & Hcc & Hcb); [lia|done|done|]. exists c. split; [done|congruence].
Qed.

(** An applied vote is reversed at most once. *)
Lemma reversed_once f g h p q :
  cast_in d f → others d f g → others d f h → applied g = true → applied h = true →
  fb_projection g = Some p → fb_projection h = Some q →
  pj_reversed p = Some (fb_id f) → pj_reversed q = Some (fb_id f) → g = h.
Proof.
  intros Hf Hg Hh Hag Hah Hp Hq Hrp Hrq.
  pose proof (ov_chain _ Hd g p (proj1 Hg) Hag Hp) as H1. rewrite Hrp in H1. destruct H1 as (f1 & Hf1 & _ & Hi1 & Hb1 & Hm1).
  pose proof (ov_chain _ Hd h q (proj1 Hh) Hah Hq) as H2. rewrite Hrq in H2. destruct H2 as (f2 & Hf2 & _ & Hi2 & Hb2 & Hm2).
  assert (f1 = f) as ->. { eapply cast_in_inj; [by destruct Hf1|done| |done]. destruct Hf1 as (_ & -> & _), Hg as (_ & -> & _). done. }
  assert (f2 = f) as ->. { eapply cast_in_inj; [by destruct Hf2|done| |done]. destruct Hf2 as (_ & -> & _), Hh as (_ & -> & _). done. }
  destruct (decide (fb_id g = fb_id h)) as [Hi|Hi].
  { eapply cast_in_inj; [by destruct Hg|by destruct Hh| |done]. destruct Hg as (_ & -> & _), Hh as (_ & -> & _). done. }
  assert (others d g h) as Hgh by (by eapply others_trans). assert (others d h g) as Hhg by (by eapply (others_trans d f)).
  unfold before in *. destruct (before_total h g) as [Hlt|Hlt]; [done| |]; unfold before in Hlt.
  - destruct (Hm1 h Hgh Hah Hlt) as [->|Hlt']; [by destruct Hh as (_ & _ & ?)|]. by rewrite (earlier_asym _ _ Hlt') in Hb2.
  - destruct (Hm2 g Hhg Hag Hlt) as [->|Hlt']; [by destruct Hg as (_ & _ & ?)|]. by rewrite (earlier_asym _ _ Hlt') in Hb1.
Qed.
End voice.

(** ** Storing a record keeps the invariant *)

(** A record that may be stored under its key: where the votes of its ballot
    allow it its state. *)
Record fits (d : feedbacks) (f : Feedback) : Prop := {
  fit_vote : is_Some (fb_vote f);
  fit_review : settled_review f;
  fit_old : ∀ f0, d !! feedback_key f = Some f0 →
    ballot f0 = ballot f ∧ stamp f0 = stamp f ∧ casts f0 = casts f ∧ (casts f = true → applied f0 = false);
  fit_waits : casts f = true → pending f = true → ∀ g, others d f g → before g f = true;
  fit_waited : casts f = true → ∀ g, others d f g → pending g = true → before f g = true;
  fit_due : casts f = true → due f = true → ∀ g, others d f g → applied g = true → before g f = true;
  fit_applied : casts f = true → applied f = true → ∀ g, others d f g → applied g = true ∨ due g = true → 
    if applied g then before g f = true else before f g = true;
  fit_chain : casts f = true → applied f = true → ∀ p, fb_projection f = Some p → reverses d f (pj_reversed p);
}.

Section store.
Context (d : feedbacks) (f : Feedback) (Hd : one_voice d) (Hf : fits d f).
Let d' := <[feedback_key f := f]> d.

Lemma key_ballot g h : ballot g = ballot h → fb_id g = fb_id h → feedback_key g = feedback_key h.
Proof. unfold ballot, feedback_key. congruence. Qed.

Lemma stored_cast g : cast_in d' g → g = f ∨ cast_in d g ∧ feedback_key g ≠ feedback_key f.
Proof.
  intros [Hg Hc]. destruct (decide (feedback_key g = feedback_key f)) as [Hk|Hk].
  - left. unfold d' in Hg. rewrite Hk, lookup_insert_eq in Hg. congruence.
  - right. unfold d' in Hg. rewrite lookup_insert_ne in Hg by done. done.
Qed.

Lemma stored_others g h : others d' g h → h = f ∨ others d g h ∧ feedback_key h ≠ feedback_key f.
Proof. intros (Hh & Hb & Hi). destruct (stored_cast h Hh) as [->|[Hh' Hk]]; [by left|right]. done. Qed.

Lemma others_f g : cast_in d' g → g ≠ f → others d' f g ∨ ballot g ≠ ballot f.
Proof.
  intros Hg Hne. destruct (decide (ballot g = ballot f)) as [Hb|]; [left|by right]. split_and!; [apply Hg..|done|].
  intros Hi. destruct (stored_cast g Hg) as [->|[_ Hk]]; [done|]. by apply Hk, key_ballot.
Qed.

(** What the others of an old vote see of the stored one they saw of the record before it. *)
Lemma sees_f g : cast_in d g → feedback_key g ≠ feedback_key f → others d' g f → casts f = true ∧ others d f g.
Proof.
  intros Hg Hk ([_ Hc] & Hb & Hi). split; [done|]. split_and!; [apply Hg..|done|congruence].
Qed.

Lemma stays_others g h : others d g h → feedback_key h ≠ feedback_key f → others d' g h.
Proof.
  intros ([Hh Hc] & Hb & Hi) Hk. split_and!; [|done..]. split; [unfold d'; by rewrite lookup_insert_ne|done].
Qed.

Lemma f_others g : others d' f g → g ≠ f ∧ others d f g.
Proof.
  intros Hg. destruct (stored_others _ _ Hg) as [->|[Hg' _]]; [by destruct Hg as (_ & _ & ?)|]. split; [|done].
  intros ->. by destruct Hg as (_ & _ & ?).
Qed.

Lemma others_key g : others d f g → feedback_key g ≠ feedback_key f.
Proof. intros (_ & _ & Hi) Hk. apply Hi. unfold feedback_key in Hk. congruence. Qed.

Lemma reverses_f r : reverses d f r → reverses d' f r.
Proof.
  destruct r as [i|]; cbn.
  - intros (g & Hg & Hag & Hid & Hgf & Hmax). exists g. split_and!; [|done..|].
    + apply stays_others; [done|by apply others_key].
    + intros h [_ Hh]%f_others. by apply Hmax.
  - intros Hr g [_ Hg]%f_others. by apply Hr.
Qed.

(** The record there was before is no applied vote. *)
Lemma old_not_applied g h : others d g h → feedback_key h = feedback_key f → applied h = false.
Proof.
  intros ([Hh Hc] & _) Hk. rewrite Hk in Hh. destruct (fit_old d f Hf h Hh) as (_ & _ & Hcf & Ha).
  apply Ha. congruence.
Qed.

Lemma reverses_stays g r : cast_in d g → feedback_key g ≠ feedback_key f → applied g = true → reverses d g r → reverses d' g r.
Proof.
  intros Hg Hk Hag Hr.
  assert (∀ h, others d' g h → applied h = true → before g h = true ∨ others d g h) as Hother.
  { intros h Hh Hah. destruct (stored_others _ _ Hh) as [->|[Hh' _]]; [left|by right].
    destruct (sees_f g Hg Hk Hh) as [Hc Hfg]. pose proof (fit_applied d f Hf Hc Hah g Hfg (or_introl Hag)) as H.
    by rewrite Hag in H. }
  destruct r as [i|]; cbn in *.
  - destruct Hr as (h & Hh & Hah & Hid & Hhg & Hmax). exists h. split_and!; [|done..|].
    + apply stays_others; [done|]. intros Hkh. by rewrite (old_not_applied g h) in Hah.
    + intros x Hx Hax Hxg. destruct (Hother x Hx Hax) as [Hgx|Hx']; [|by apply Hmax].
      unfold before in *. by rewrite (earlier_asym _ _ Hgx) in Hxg.
  - intros h Hh Hah. destruct (Hother h Hh Hah) as [|Hh']; [done|by apply Hr].
Qed.

Lemma store_waits g h : cast_in d' g → others d' g h → pending g = true → before h g = true.
Proof.
  intros Hg Hh Hp. destruct (stored_cast g Hg) as [->|[Hg' Hk]].
  - destruct (f_others h Hh) as [_ Hh']. apply (fit_waits d f Hf (proj2 Hg) Hp h Hh').
  - destruct (stored_others _ _ Hh) as [->|[Hh' _]]; [|by eapply ov_waits].
    destruct (sees_f g Hg' Hk Hh) as [Hc Hfg]. by apply (fit_waited d f Hf Hc g).
Qed.

Lemma store_due g h : cast_in d' g → others d' g h → due g = true → applied h = true → before h g = true.
Proof.
  intros Hg Hh Hp Ha. destruct (stored_cast g Hg) as [->|[Hg' Hk]].
  - destruct (f_others h Hh) as [_ Hh']. by apply (fit_due d f Hf (proj2 Hg) Hp h Hh').
  - destruct (stored_others _ _ Hh) as [->|[Hh' _]]; [|by eapply ov_due].
    destruct (sees_f g Hg' Hk Hh) as [Hc Hfg]. pose proof (fit_applied d f Hf Hc Ha g Hfg (or_intror Hp)) as H.
    destruct (applied g) eqn:Hag; [|done]. unfold due, applied, stands in *. apply andb_true_iff in Hp as [_ Hp%bool_decide_eq_true].
    by rewrite Hp, andb_false_r in Hag.
Qed.

Lemma store_voice : one_voice d'.
Proof.
  split.
  - intros k g. unfold d'. rewrite lookup_insert_Some. intros [[<- <-]|[_ Hg]]; [|by eapply ov_keyed].
    split; [done|]. by apply (fit_vote d).
  - intros k g. unfold d'. rewrite lookup_insert_Some. intros [[<- <-]|[_ Hg]]; [by apply (fit_review d)|by eapply ov_review].
  - apply store_waits.
  - apply store_due.
  - intros g p Hg Hag Hp. destruct (stored_cast g Hg) as [->|[Hg' Hk]].
    + apply reverses_f. by apply (fit_chain d f Hf (proj2 Hg)).
    + apply reverses_stays; [done..|]. by eapply ov_chain.
Qed.
End store.

(** ** The changes the service makes *)

(** The same vote in another state. *)
Definition same_vote (f g : Feedback) : Prop :=
  ballot g = ballot f ∧ stamp g = stamp f ∧ fb_vote g = fb_vote f ∧ casts g = casts f.

Lemma same_vote_projection f p : same_vote f (set_projection p f).
Proof. done. Qed.

Lemma same_vote_review f r : is_Some (fb_review f) → same_vote f (set_review (Some r) f).
Proof. intros Hr. split_and!; [done..|]. unfold casts. cbn. by rewrite (bool_decide_eq_true_2 _ Hr). Qed.

Lemma same_vote_trans f g h : same_vote f g → same_vote g h → same_vote f h.
Proof. unfold same_vote. intros (? & ? & ? & ?) (? & ? & ? & ?). split_and!; congruence. Qed.

Lemma same_vote_key f g : same_vote f g → feedback_key g = feedback_key f.
Proof. intros (Hb & Hs & _). apply key_ballot; [done|]. unfold stamp in Hs. congruence. Qed.

Lemma same_vote_others d f g h : same_vote f g → others d g h ↔ others d f h.
Proof. intros (Hb & Hs & _). unfold others, stamp in *. split; intros (? & ? & ?); (split_and!; [done|congruence|congruence]). Qed.

Lemma pending_state f : pending f = in_state PENDING f.
Proof. done. Qed.

Lemma in_state_inj s s' f : in_state s f = true → in_state s' f = true → s = s'.
Proof. unfold in_state. destruct (fb_review f); [|done]. rewrite !bool_decide_eq_true. congruence. Qed.

Lemma state_review s f : in_state s f = true → is_Some (fb_review f).
Proof. unfold in_state. by destruct (fb_review f). Qed.

Section changes.
Context (d : feedbacks) (f g : Feedback) (Hd : one_voice d) (Hf : d !! feedback_key f = Some f) (Hs : same_vote f g).

Lemma same_cast : casts g = true → cast_in d f.
Proof. destruct Hs as (_ & _ & _ & Hc). intros Hg. split; [done|congruence]. Qed.

Lemma same_before h : before h g = before h f ∧ before g h = before f h.
Proof. destruct Hs as (_ & Hst & _). unfold before. by rewrite Hst. Qed.

Lemma same_old : (casts g = true → applied f = false) → ∀ f0, d !! feedback_key g = Some f0 →
  ballot f0 = ballot g ∧ stamp f0 = stamp g ∧ casts f0 = casts g ∧ (casts g = true → applied f0 = false).
Proof.
  intros Ha f0 H0. rewrite (same_vote_key _ _ Hs), Hf in H0. injection H0 as <-.
  destruct Hs as (Hb & Hst & _ & Hc). by split_and!.
Qed.

Lemma same_voted : is_Some (fb_vote g).
Proof. destruct Hs as (_ & _ & -> & _). by apply (ov_keyed d Hd _ _ Hf). Qed.

Lemma same_waited : casts g = true → ∀ h, others d g h → pending h = true → before g h = true.
Proof.
  intros Hc h Hh Hp. rewrite (proj2 (same_before h)). rewrite (same_vote_others d f g h Hs) in Hh.
  apply (ov_waits d Hd h f); [apply Hh| |done]. apply others_sym; [by apply same_cast|done].
Qed.

(** A record closed without effect: dismissed, replaced or stood down. *)
Lemma closed_fits : (casts g = true → applied f = false) → settled_review g →
  (casts g = true → pending g = false ∧ due g = false ∧ applied g = false) → fits d g.
Proof.
  intros Ha Hr Hno. split; [apply same_voted|done|by apply same_old|..]; [|apply same_waited|..];
    intros Hc; destruct (Hno Hc) as (? & ? & ?); intros ?; congruence.
Qed.

(** A waiting vote approved. *)
Lemma approved_fits : pending f = true → in_state APPROVED g = true → fb_projection g = fb_projection f → fits d g.
Proof.
  intros Hp Ha Hpj. rewrite (proj1 (ov_review d Hd _ _ Hf) Hp) in Hpj.
  assert (pending g = false) as Hg by (apply not_true_iff_false; intros H; by pose proof (in_state_inj _ _ _ H Ha)).
  assert (applied g = false) as Hna by (unfold applied, stands; by rewrite Hpj, andb_false_r).
  split; [apply same_voted| | |rewrite Hg; done|apply same_waited| |rewrite Hna; done..].
  - split; [by rewrite Hg|]. intros H. by pose proof (in_state_inj _ _ _ H Ha).
  - apply same_old. intros _. apply not_true_iff_false. intros H. apply andb_true_iff in H as [H _].
    by pose proof (in_state_inj _ _ _ H Hp).
  - intros Hc _ h Hh _. rewrite (same_vote_others d f g h Hs) in Hh. rewrite (proj1 (same_before h)).
    by apply (ov_waits d Hd f h); [apply same_cast| |].
Qed.

(** An approved vote applied, when no older one of its ballot is still due. *)
Lemma applied_fits p : due f = true → g = set_projection (Some p) f → stood_down p = false →
  (casts f = true → reverses d f (pj_reversed p)) →
  (∀ h, others d f h → due h = true → before f h = true) → fits d g.
Proof.
  intros Hdue Heq Hsd Hrev Hlast. pose proof Hdue as [Hap Hnone%bool_decide_eq_true]%andb_true_iff.
  assert (∀ s, in_state s g = true → s = APPROVED) as Hst.
  { intros s H. rewrite Heq in H. by apply (in_state_inj _ _ f). }
  assert (pending g = false) as Hg by (apply not_true_iff_false; intros H; by pose proof (Hst PENDING H)).
  split; [apply same_voted| | |by rewrite Hg|apply same_waited| | |].
  - split; [by rewrite Hg|]. intros H. by pose proof (Hst DISMISSED H).
  - apply same_old. intros _. unfold applied, stands. by rewrite Hnone, andb_false_r.
  - intros _ H. rewrite Heq in H. apply andb_true_iff in H as [_ H]. by apply bool_decide_eq_true in H.
  - intros Hc _ h Hh Ha. rewrite (same_vote_others d f g h Hs) in Hh. destruct (same_before h) as [-> ->].
    destruct (applied h) eqn:Hah.
    + by apply (ov_due d Hd f h); [apply same_cast| | |].
    + destruct Ha as [|Ha]; [done|]. by apply Hlast.
  - rewrite Heq. intros Hc _ q [= <-]. by apply Hrev.
Qed.
End changes.

(** A new record: it waits as its ballot's newest, or it takes no part. *)
Lemma added_fits d f : one_voice d → d !! feedback_key f = None → is_Some (fb_vote f) → settled_review f →
  (casts f = true → due f = false ∧ applied f = false ∧ (∀ g, others d f g → pending g = false ∧ before g f = true)) →
  fits d f.
Proof.
  intros Hd Hnone Hv Hr Hnew. split; [done|done|by rewrite Hnone|..]; intros Hc; destruct (Hnew Hc) as (? & ? & Hg); try (intros ?; congruence).
  - intros _ g Hin. by apply Hg.
  - intros g Hin Hp. destruct (Hg g Hin) as [Hp' _]. by rewrite Hp in Hp'.
Qed.

Lemma one_voice_empty : one_voice ∅.
Proof. split; [done..| | |]; intros f ? [Hf _]; by rewrite lookup_empty in Hf. Qed.

(** ** What the queries of the repository find *)

Section queries.
Context (d : feedbacks) (Hd : one_voice d).

Lemma voice_keyed : keyed d.
Proof. intros k f Hf. by apply (ov_keyed d Hd). Qed.

Lemma elem_of_chosen p f : f ∈ chosen p d ↔ p f = true ∧ d !! feedback_key f = Some f.
Proof. apply elem_chosen, voice_keyed. Qed.

Lemma chosen_keys p : NoDup (feedback_key <$> chosen p d).
Proof. apply keyed_chosen, voice_keyed. Qed.

Lemma ordered_keys (R : Feedback → Feedback → Prop) `{∀ x y, Decision (R x y)} n p :
  NoDup (feedback_key <$> ordered R (Some n) (chosen p d)).
Proof.
  cbn. eapply sublist_NoDup; [|apply fmap_sublist, sublist_take]. rewrite merge_sort_Permutation. apply chosen_keys.
Qed.

(** The reviewed votes of a voter on a target are those of the ballot. *)
Lemma on_ballot r st f : is_Some (voter_key (fb_user r) (fb_agent r)) → d !! feedback_key f = Some f →
  on_target (fb_tenant r) (fb_kind r) (fb_target r) f && in_state st f && by_voter (fb_user r) (fb_agent r) f && stored_vote f = true
  ↔ ballot f = ballot r ∧ casts f = true ∧ in_state st f = true.
Proof.
  intros Hr Hf. destruct (ov_keyed d Hd _ _ Hf) as [_ [v Hv]].
  assert (stored_vote f = is_vote f) as Hsv by (unfold stored_vote, is_vote; by rewrite Hv). rewrite Hsv.
  unfold on_target, by_voter, ballot, casts. rewrite !andb_true_iff, bool_decide_eq_true.
  assert (in_state st f = true → is_Some (fb_review f)) as Hrev by apply state_review. rewrite !bool_decide_eq_true.
  destruct (fb_user r) as [u|] eqn:Hu; rewrite bool_decide_eq_true; cbn in *.
  - split; [intros ((((?&?&?)&?)&Hfu)&?); rewrite Hfu; cbn; split_and!; try congruence; try done; by auto|].
    intros (Hb & ((?&?)&?) & ?). destruct (fb_user f); naive_solver congruence.
  - split.
    + intros ((((?&?&?)&?)&[Hfu Hfa])&?). rewrite Hfu, Hfa. split_and!; try congruence; by auto.
    + intros (Hb & ((?&?)&?) & ?). destruct (fb_user f); naive_solver congruence.
Qed.
End queries.

(** At most one vote of a ballot waits. *)
Lemma one_pending d r p : one_voice d → is_Some (voter_key (fb_user r) (fb_agent r)) →
  (∀ f, d !! feedback_key f = Some f → p f = true ↔ ballot f = ballot r ∧ casts f = true ∧ pending f = true) →
  (length (chosen p d) ≤ 1)%nat.
Proof.
  intros Hd Hr Hp. pose proof (chosen_keys d Hd p) as Hn.
  assert (∀ f, f ∈ chosen p d → cast_in d f ∧ ballot f = ballot r ∧ pending f = true) as Hin.
  { intros f [Hf Hl]%elem_of_chosen; [|done]. apply (Hp f Hl) in Hf as (? & ? & ?). done. }
  destruct (chosen p d) as [|f [|g l]]; [cbn; lia..|]. exfalso.
  destruct (Hin f) as (Hf & Hbf & Hpf); [by left|]. destruct (Hin g) as (Hg & Hbg & Hpg); [by right; left|].
  assert (fb_id g ≠ fb_id f) as Hne.
  { intros Hi. cbn in Hn. apply NoDup_cons in Hn as [Hn _]. apply Hn. rewrite (key_ballot f g) by congruence. by left. }
  assert (before g f = true) as H1 by (apply (ov_waits d Hd f g); [done| |done]; split; [done|split; [congruence|done]]).
  assert (before f g = true) as H2 by (apply (ov_waits d Hd g f); [done| |done]; split; [done|split; congruence]).
  unfold before in *. by rewrite (earlier_asym _ _ H1) in H2.
Qed.

Lemma alter_stored (d : feedbacks) (h : Feedback → Feedback) k f : d !! k = Some f → alter h k d = <[k := h f]> d.
Proof.
  intros Hf. apply map_eq. intros j. destruct (decide (k = j)) as [<-|Hne].
  - by rewrite lookup_alter_eq, lookup_insert_eq, Hf.
  - by rewrite lookup_alter_ne, lookup_insert_ne.
Qed.

(** Every record of [d'] is one of [d], perhaps in another state. *)
Definition same_records (d d' : feedbacks) : Prop := ∀ k g, d' !! k = Some g → ∃ g0, d !! k = Some g0 ∧ same_vote g0 g.

Lemma same_records_refl d : same_records d d.
Proof. intros k g Hg. by exists g. Qed.

Lemma same_records_trans d1 d2 d3 : same_records d1 d2 → same_records d2 d3 → same_records d1 d3.
Proof. intros H1 H2 k g Hg. destruct (H2 k g Hg) as (g1 & Hg1 & Hs). destruct (H1 k g1 Hg1) as (g0 & Hg0 & Hs').
  exists g0. split; [done|]. by eapply same_vote_trans.
Qed.

Lemma same_records_insert d k f g : d !! k = Some f → same_vote f g → same_records d (<[k := g]> d).
Proof. intros Hf Hs j h. rewrite lookup_insert_Some. intros [[<- <-]|[_ Hh]]; [by exists f|by exists h]. Qed.

(** *** What becomes of a record *)

(** The record without what its life changes. *)
Definition core (f : Feedback) : Feedback := set_review None (set_projection None f).

(** [g] is [f] later: a record that is waiting is decided once, for good, one that
    does not go through review never will, and what the projector wrote stays. *)
Record lifecycle (f g : Feedback) : Prop := {
  lc_core : core g = core f;
  lc_review : fb_review g = fb_review f ∨ pending f = true ∧ pending g = false ∧ is_Some (fb_review g);
  lc_projection : fb_projection g = fb_projection f ∨ fb_projection f = None;
}.

Lemma lifecycle_refl f : lifecycle f f.
Proof. split; [done|by left|by left]. Qed.

Lemma lifecycle_trans f g h : lifecycle f g → lifecycle g h → lifecycle f h.
Proof.
  intros [Hc1 Hr1 Hp1] [Hc2 Hr2 Hp2]. split; [congruence| |].
  - destruct Hr2 as [Hr2|(Hp & Hn & Hs)].
    + destruct Hr1 as [Hr1|(Hp & Hn & Hs)]; [left; congruence|right]. split_and!; [done| |by rewrite Hr2].
      unfold pending in *. by rewrite Hr2.
    + right. destruct Hr1 as [Hr1|(_ & Hn' & _)]; [|congruence]. split_and!; [|done..]. unfold pending in *. by rewrite <- Hr1.
  - destruct Hp1 as [Hp1|Hp1]; [|by right]. destruct Hp2 as [Hp2|Hp2]; [left|right]; congruence.
Qed.

Definition evolves (d d' : feedbacks) : Prop := ∀ k f, d !! k = Some f → ∃ g, d' !! k = Some g ∧ lifecycle f g.

Lemma evolves_refl d : evolves d d.
Proof. intros k f Hf. exists f. split; [done|apply lifecycle_refl]. Qed.

Lemma evolves_trans d1 d2 d3 : evolves d1 d2 → evolves d2 d3 → evolves d1 d3.
Proof.
  intros H1 H2 k f Hf. destruct (H1 k f Hf) as (g & Hg & Hfg). destruct (H2 k g Hg) as (h & Hh & Hgh).
  exists h. split; [done|]. by eapply lifecycle_trans.
Qed.

Lemma evolves_insert d k f g : d !! k = Some f → lifecycle f g → evolves d (<[k := g]> d).
Proof.
  intros Hf Hfg j h Hh. destruct (decide (k = j)) as [<-|Hne].
  - rewrite lookup_insert_eq. exists g. split; [done|]. congruence.
  - rewrite lookup_insert_ne by done. exists h. split; [done|apply lifecycle_refl].
Qed.

Lemma evolves_new d k g : d !! k = None → evolves d (<[k := g]> d).
Proof. intros Hn j h Hh. rewrite lookup_insert_ne by congruence. exists h. split; [done|apply lifecycle_refl]. Qed.

Lemma lifecycle_projection f p : fb_projection f = None → lifecycle f (set_projection (Some p) f).
Proof. intros Hn. split; [done|by left|by right]. Qed.

Lemma lifecycle_review f v : pending f = true → rv_state v ≠ PENDING → lifecycle f (set_review (Some v) f).
Proof.
  intros Hp Hv. split; [done| |by left]. right. split_and!; [done| |done]. unfold pending. cbn. by rewrite bool_decide_eq_false_2.
Qed.
