(* ===== verification/FeedbackSafety.v ===== *)
(** * FeedbackSafety: what the operations on feedback keep

    The operations of [FeedbackService] as the steps of a transition system; a run
    that raises is rolled back by its unit of work and is no step. *)
From Stdlib Require Import QArith Qminmax.
From stdpp Require Import sorting.
From S2P Require Import Prelude Errors Ids Text Context Rebac Visibility Revisions AuthzProvider AuthzService.
From S2P Require Import Cache ScopeCache TenancyRepo TenancyService Tasks Outbox UnitOfWork MemoryModel MemoryRepo MemoryService.
From S2P Require Import Feedback Tools ApproveWhen FeedbackService FeedbackVotes.
#[local] Open Scope Z_scope.

(** Steps through a program that leaves a component alone. *)
Ltac quietly :=
  repeat first
    [ progress cbv zeta
    | solve [auto 1 with frame]
    | apply leaves_mapM; intros ?
    | apply leaves_bind; [|intros ?]
    | match goal with |- leaves _ (match ?x with _ => _ end) => destruct x end ].

Section safety.
Context {P C : Type} `{AuthorizationLaws P} `{CacheLaws C} `{Codec AuthorizedScope}.
Variable blake2b : string → string.
Variable max_listed : nat.
Variable cache_ttl : Z.
Variable decision_cache : bool.
Variable content_hash : string → string.
Variable normalized_hash : string → string.
Variable detect_language : string → string.
Variable sha : string → string.
Variable py_repr : json → string.
Variable magnitude : Z → Z.

Abbreviation sys := (feedback_sys P C).
Abbreviation fprog A := (prog sys A).
Abbreviation quiet := (leaves (E := exn) (S := sys) fs_feedback).

(** ** What leaves the feedback table alone *)

Lemma quiet_memory {A} (m : prog (memory_sys P C) A) : quiet (in_memory m).
Proof. by apply leaves_away. Qed.

Lemma quiet_tools {A} (m : tprog A) : quiet (in_tools m).
Proof. by apply leaves_away. Qed.

Lemma quiet_read {A} (g : feedbacks → A) : quiet (in_feedback (gets g)).
Proof. by intros []. Qed.

Lemma quiet_repo {A} (m : mprog A) : quiet (in_repo m).
Proof. apply quiet_memory. Qed.
Hint Resolve quiet_memory quiet_tools quiet_read quiet_repo : frame.

Lemma quiet_locks keys : quiet (locks keys).
Proof. unfold locks. quietly. Qed.
Hint Resolve quiet_locks : frame.

Lemma quiet_enqueue now job : quiet (enqueue_job now job).
Proof. unfold enqueue_job. quietly. Qed.
Hint Resolve quiet_enqueue : frame.

Lemma quiet_schedule now r attempt : quiet (_schedule now r attempt).
Proof. unfold _schedule. quietly. Qed.

Lemma quiet_reindex now l : quiet (_reindex content_hash now l).
Proof. unfold _reindex. quietly. Qed.
Hint Resolve quiet_schedule quiet_reindex : frame.

Lemma quiet_admin ctx : quiet (admin ctx).
Proof. unfold admin. quietly. Qed.

Lemma quiet_read_memory now ctx i : quiet (read_memory blake2b max_listed cache_ttl decision_cache now ctx i).
Proof. unfold read_memory. quietly. Qed.
Hint Resolve quiet_admin quiet_read_memory : frame.

Lemma quiet_admit now ctx f : quiet (_admit blake2b max_listed cache_ttl decision_cache now ctx f).
Proof. unfold _admit, _authorize_memory_verdict. quietly. Qed.

Lemma quiet_needs_review ctx r trusted run_vouched : quiet (_needs_review ctx r trusted run_vouched).
Proof. unfold _needs_review. quietly. Qed.

Lemma quiet_recorded r : quiet (_recorded sha r).
Proof. unfold _recorded. quietly. Qed.
Hint Resolve quiet_admit quiet_needs_review quiet_recorded : frame.

Lemma quiet_backed r : quiet (_backed sha r).
Proof. unfold _backed. quietly. Qed.

Lemma quiet_spent r : quiet (_spent sha py_repr r).
Proof. unfold _spent, counted_decisions. quietly. Qed.

Lemma quiet_counted_before r : quiet (_counted_before r).
Proof. unfold _counted_before, list_for, page. quietly. Qed.
Hint Resolve quiet_backed quiet_spent quiet_counted_before : frame.

Lemma quiet_adjust now t ids step n : quiet (_adjust content_hash detect_language now t ids step n).
Proof. unfold _adjust. quietly. Qed.
Hint Resolve quiet_adjust : frame.

Lemma quiet_reverse now f p : quiet (_reverse content_hash detect_language now f p).
Proof. unfold _reverse, _lift_retraction, bump_tenant. quietly. Qed.

Lemma quiet_project_one now new_id r : quiet (_project content_hash normalized_hash detect_language sha py_repr magnitude now new_id r).
Proof.
  unfold _project, _project_memory, _reinforce, _retract, _correct, _project_run, _label_run, _adjust_cited, _project_tool_call,
    _project_procedure, bump_tenant.
  quietly.
Qed.
Hint Resolve quiet_reverse quiet_project_one : frame.

(** ** Reviewing *)

Lemma projection_run t i p (s : sys) r s' : in_feedback (update_projection t i p) s = (r, s') →
  r = Ok tt ∧ s' = {| fs_memory := fs_memory s; fs_feedback := alter (set_projection (Some p)) (t, i) (fs_feedback s); fs_tools := fs_tools s |}.
Proof. intros Hrun. injection Hrun as <- <-. done. Qed.

Lemma review_run t i v (s : sys) r s' : in_feedback (update_review t i v) s = (r, s') →
  r = Ok tt ∧ s' = {| fs_memory := fs_memory s; fs_feedback := alter (set_review (Some v)) (t, i) (fs_feedback s); fs_tools := fs_tools s |}.
Proof. intros Hrun. injection Hrun as <- <-. done. Qed.

Lemma get_run t i (s : sys) r s' : in_feedback (get_feedback t i) s = (Ok r, s') → r = fs_feedback s !! (t, i) ∧ s' = s.
Proof. intros Hrun. injection Hrun as <- <-. by destruct s. Qed.

Lemma get_eq t i (s : sys) : in_feedback (get_feedback t i) s = (Ok (fs_feedback s !! (t, i)), s).
Proof. by destruct s. Qed.

Lemma gets_run {A} (g : feedbacks → A) (s : sys) r s' : in_feedback (gets g) s = (Ok r, s') → r = g (fs_feedback s) ∧ s' = s.
Proof. intros Hrun. injection Hrun as <- <-. by destruct s. Qed.

Lemma set_projection_none f : fb_projection f = None → set_projection None f = f.
Proof. destruct f. cbn. by intros ->. Qed.

(** A pending record that a review or a newer vote dismisses. *)
Lemma dismiss_voice d f v p : one_voice d → d !! feedback_key f = Some f → pending f = true →
  rv_state v = DISMISSED → pj_action p = NO_ACTION →
  one_voice (<[feedback_key f := set_projection (Some p) (set_review (Some v) f)]> d).
Proof.
  intros Hd Hf Hp Hv Ha. set (g := set_projection _ _).
  assert (same_vote f g) as Hs. { eapply same_vote_trans; [apply same_vote_review, (state_review PENDING f Hp)|apply same_vote_projection]. }
  assert (∀ st, in_state st g = true → st = DISMISSED) as Hst.
  { intros st. unfold in_state. cbn. rewrite bool_decide_eq_true. congruence. }
  apply (store_voice d g Hd), (closed_fits d f g Hd Hf Hs).
  - intros _. apply not_true_iff_false. intros [Hx _]%andb_true_iff. by pose proof (in_state_inj _ _ f Hx Hp).
  - split; [intros Hx; by pose proof (Hst PENDING Hx)|]. intros _. by exists p.
  - intros _. split_and!; apply not_true_iff_false; [intros Hx; by pose proof (Hst PENDING Hx)|..];
      intros [Hx _]%andb_true_iff; by pose proof (Hst APPROVED Hx).
Qed.

Lemma dismissed_lifecycle f v p : pending f = true → fb_projection f = None → rv_state v = DISMISSED →
  lifecycle f (set_projection (Some p) (set_review (Some v) f)).
Proof.
  intros Hp Hn Hv. eapply lifecycle_trans; [apply lifecycle_review; [done|by rewrite Hv]|by apply lifecycle_projection].
Qed.

Lemma alter_review_projection (d : feedbacks) f v p : d !! feedback_key f = Some f →
  alter (set_projection (Some p)) (fb_tenant f, fb_id f) (alter (set_review (Some v)) (fb_tenant f, fb_id f) d)
  = <[feedback_key f := set_projection (Some p) (set_review (Some v) f)]> d.
Proof.
  intros Hf. rewrite (alter_stored d _ _ f) by done. erewrite alter_stored by apply lookup_insert_eq.
  by rewrite insert_insert_eq.
Qed.

Lemma decide_run now r approve by_ note (s : sys) x s' : one_voice (fs_feedback s) → fs_feedback s !! feedback_key r = Some r → pending r = true →
  _decide now r approve by_ note s = (Ok x, s') →
  fs_feedback s' = <[feedback_key r := x]> (fs_feedback s) ∧ same_vote r x ∧ pending x = false ∧ one_voice (fs_feedback s') ∧ lifecycle r x.
Proof.
  intros Hd Hr Hp Hrun. unfold _decide in Hrun. cbv zeta in Hrun. set (v := {| rv_state := _ |}) in Hrun.
  apply bind_Ok_inv in Hrun as ([] & s1 & [_ Hs1]%review_run & Hrun).
  assert (same_vote r (set_review (Some v) r)) as Hs by apply same_vote_review, (state_review PENDING r Hp).
  pose proof (proj1 (ov_review _ Hd _ _ Hr) Hp) as Hpj. destruct approve.
  - apply bind_Ok_inv in Hrun as ([] & s2 & Hq & [= <- <-]). apply (leaves_run fs_feedback) in Hq; [|auto with frame].
    rewrite Hq, Hs1. cbn [fs_feedback]. rewrite (alter_stored _ _ _ r) by done. change (fb_tenant r, fb_id r) with (feedback_key r).
    rewrite set_projection_none by done. split_and!; [done..| |by apply lifecycle_review].
    apply (store_voice _ (set_review (Some v) r) Hd). by apply (approved_fits _ r).
  - apply bind_Ok_inv in Hrun as ([] & s2 & [_ Hs2]%projection_run & [= <- <-]). rewrite Hs2, Hs1. cbn [fs_feedback].
    rewrite alter_review_projection by done. split_and!; [done|by eapply same_vote_trans|done|by apply dismiss_voice|by apply dismissed_lifecycle].
Qed.

Lemma decide_all_run now l approve by_ note (s : sys) x s' : one_voice (fs_feedback s) →
  NoDup (feedback_key <$> l) → Forall (λ f, fs_feedback s !! feedback_key f = Some f) l →
  decide_all now l approve by_ note s = (Ok x, s') →
  one_voice (fs_feedback s') ∧ snd x = filter (λ f, pending f = false) l ∧
  feedback_key <$> fst x = feedback_key <$> filter (λ f, pending f = true) l ∧
  (∀ k, k ∉ feedback_key <$> filter (λ f, pending f = true) l → fs_feedback s' !! k = fs_feedback s !! k) ∧
  (∀ f, f ∈ l → ∃ g, fs_feedback s' !! feedback_key f = Some g ∧ pending g = false) ∧
  evolves (fs_feedback s) (fs_feedback s').
Proof.
  revert s x s'. induction l as [|r l IH]; intros s x s' Hd Hn Hl Hrun.
  { injection Hrun as <- <-. split_and!; [done..| |apply evolves_refl]. intros f Hf. by apply not_elem_of_nil in Hf. }
  apply NoDup_cons in Hn as [Hni Hn]. apply Forall_cons in Hl as [Hr Hl]. cbn in Hrun. rewrite !filter_cons.
  destruct (pending r) eqn:Hp; cbn [fmap list_fmap].
  - apply bind_Ok_inv in Hrun as (y & s1 & (Hs1 & Hsame & Hpy & Hv & Hlc)%decide_run & Hrun); [|done..].
    apply bind_Ok_inv in Hrun as ([a b] & s2 & Hrun & [= <- <-]).
    assert (Forall (λ f, fs_feedback s1 !! feedback_key f = Some f) l) as Hl1.
    { rewrite Forall_forall in *. intros f Hf. rewrite Hs1, lookup_insert_ne; [by apply Hl|].
      intros Hk. apply Hni. rewrite Hk. by apply list_elem_of_fmap_2. }
    pose proof (IH _ _ _ Hv Hn Hl1 Hrun) as (Hv2 & Hsnd & Hfst & Hfr & Hin & Hev). cbn in *.
    split_and!; [done|done|by rewrite Hfst, (same_vote_key _ _ Hsame)| | |].
    + intros k [Hk1 Hk2]%not_elem_of_cons. rewrite Hfr, Hs1 by done. by apply lookup_insert_ne.
    + intros f [->|Hf]%elem_of_cons; [|by apply Hin]. exists y. rewrite Hfr, Hs1, lookup_insert_eq; [done|].
      intros (g & Hk & [_ Hg]%list_elem_of_filter)%list_elem_of_fmap. apply Hni. rewrite Hk. by apply list_elem_of_fmap_2.
    + eapply evolves_trans; [|done]. rewrite Hs1. by eapply evolves_insert.
  - apply bind_Ok_inv in Hrun as ([a b] & s2 & Hrun & [= <- <-]).
    pose proof (IH _ _ _ Hd Hn Hl Hrun) as (Hv2 & Hsnd & Hfst & Hfr & Hin & Hev). cbn in *.
    split_and!; [done|by rewrite Hsnd|done|done| |done].
    + intros f [->|Hf]%elem_of_cons; [|by apply Hin]. exists r. rewrite Hfr; [done|].
      intros (g & Hk & [_ Hg]%list_elem_of_filter)%list_elem_of_fmap. apply Hni. rewrite Hk. by apply list_elem_of_fmap_2.
Qed.

Lemma review_result now t i approve by_ note (s : sys) x s' : one_voice (fs_feedback s) →
  review_ now t i approve by_ note s = (Ok x, s') →
  ∃ r, fs_feedback s !! (t, i) = Some r ∧ pending r = true ∧ pending x = false ∧
       fs_feedback s' = <[(t, i) := x]> (fs_feedback s) ∧ one_voice (fs_feedback s') ∧ lifecycle r x.
Proof.
  intros Hd Hrun. unfold review_ in Hrun. apply bind_Ok_inv in Hrun as (u & s1 & Hlock & Hrun).
  apply (leaves_run fs_feedback) in Hlock; [|auto with frame]. apply bind_Ok_inv in Hrun as (found & s2 & [-> ->]%get_run & Hrun).
  rewrite Hlock in Hrun. destruct (fs_feedback s !! (t, i)) as [r|] eqn:Hr; [|done].
  destruct (pending r) eqn:Hp; [|done]. destruct (ov_keyed _ Hd _ _ Hr) as [Hk _].
  apply decide_run in Hrun as (Hs' & _ & Hpx & Hd' & Hlc); [|rewrite Hlock; first [done|by rewrite Hk]..|done].
  exists r. by rewrite Hs', Hlock, Hk in *.
Qed.

Lemma read_all_run t ids (s : sys) : read_all t ids s = (Ok ((λ i, (i, fs_feedback s !! (t, i))) <$> ids), s).
Proof.
  induction ids as [|i ids IH]; [done|]. cbn [read_all fmap list_fmap].
  erewrite bind_ok; [|destruct s; reflexivity]. by erewrite bind_ok.
Qed.

Lemma ids_to_review_run t w (s : sys) ids more s' : one_voice (fs_feedback s) → ids_to_review t w s = (Ok (ids, more), s') →
  s' = s ∧ NoDup ids.
Proof.
  intros Hd Hrun. destruct w as [l|k i|]; cbn [ids_to_review] in Hrun; [| |done].
 
  - cbv zeta in Hrun. case_match; [done|]. injection Hrun as <- <- <-. split; [done|]. apply NoDup_fromkeys.
  - apply bind_Ok_inv in Hrun as (l & s1 & [-> ->]%gets_run & Hrun). injection Hrun as <- <- <-. split; [done|].
    match goal with |- context [chosen ?p _] => set (q := p) end.
    pose proof (ordered_keys (fs_feedback s) Hd oldest (S BULK_REVIEW_MAX) q) as Hn. set (l := ordered _ _ _) in *.
    assert (feedback_key <$> l = (λ i, (t, i)) <$> (fb_id <$> l)) as Hk.
    { rewrite <- list_fmap_compose. apply list_fmap_ext. intros j f Hf%list_elem_of_lookup_2. unfold l in Hf.
      apply elem_of_ordered_sub in Hf. unfold chosen in Hf. apply list_elem_of_filter in Hf as [Hf _]. unfold q in Hf.
      rewrite !andb_true_iff in Hf. destruct Hf as [[[Hf _] _] _]. unfold on_target in Hf. apply bool_decide_eq_true in Hf.
      unfold feedback_key. cbn. destruct Hf as (-> & _). done. }
    rewrite Hk in Hn. apply NoDup_fmap_1 in Hn. rewrite fmap_take. by apply (sublist_NoDup _ (fb_id <$> l)), sublist_take.
Qed.

Lemma review_many_result now t w approve by_ note (s : sys) decided unchanged more s' : one_voice (fs_feedback s) →
  review_many now t w approve by_ note s = (Ok (decided, unchanged, more), s') →
  ∃ ids l, NoDup ids ∧ ids_to_review t w s = (Ok (ids, more), s) ∧
    Forall2 (λ i f, fs_feedback s !! (t, i) = Some f ∧ feedback_key f = (t, i)) ids l ∧
    unchanged = filter (λ f, pending f = false) l ∧
    feedback_key <$> decided = feedback_key <$> filter (λ f, pending f = true) l ∧
    one_voice (fs_feedback s') ∧
    (∀ k, k ∉ feedback_key <$> filter (λ f, pending f = true) l → fs_feedback s' !! k = fs_feedback s !! k) ∧
    (∀ f, f ∈ l → ∃ g, fs_feedback s' !! feedback_key f = Some g ∧ pending g = false) ∧
    evolves (fs_feedback s) (fs_feedback s').
Proof.
  intros Hd Hrun. unfold review_many in Hrun. apply bind_Ok_inv in Hrun as ([ids m] & s1 & Hids & Hrun).
  pose proof (ids_to_review_run _ _ _ _ _ _ Hd Hids) as [-> Hn].
  apply bind_Ok_inv in Hrun as (u & s2 & Hlock & Hrun). apply (leaves_run fs_feedback) in Hlock; [|auto with frame].
  apply bind_Ok_inv in Hrun as (found & s3 & Hread & Hrun). rewrite read_all_run in Hread. injection Hread as <- <-.
  cbv zeta in Hrun. case_bool_decide as Hmissing; [|done]. cbn [negb] in Hrun.
  apply bind_Ok_inv in Hrun as ([a b] & s4 & Hrun & [= <- <- <- <-]). rewrite Hlock in *.
  assert (∃ l, omap snd ((λ i, (i, fs_feedback s !! (t, i))) <$> ids) = l ∧
               Forall2 (λ i f, fs_feedback s !! (t, i) = Some f ∧ feedback_key f = (t, i)) ids l) as (l & Hl & HF).
  { clear Hids Hn Hrun. induction ids as [|i ids IH]; [by exists []|]. rewrite fmap_cons, filter_cons in Hmissing. rewrite fmap_cons.
    cbn [omap list_omap snd] in *. destruct (fs_feedback s !! (t, i)) as [f|] eqn:Hf; [|by rewrite decide_True in Hmissing].
    rewrite decide_False in Hmissing by done.
    destruct IH as (l & -> & HF); [done|]. exists (f :: l). split; [done|]. constructor; [|done]. split; [done|].
    by apply (ov_keyed _ Hd). }
  rewrite Hl in Hrun. assert (feedback_key <$> l = (λ i, (t, i)) <$> ids) as Hk.
  { clear -HF. induction HF as [|i f ids l [_ Hk] _ IH]; [done|]. cbn. by rewrite Hk, IH. }
  apply decide_all_run in Hrun as (Hd' & Hb & Ha & Hfr & Hin & Hev); [| |rewrite Hk; by apply NoDup_fmap_2; [congruence|]|].
  - exists ids, l. rewrite Hlock in Hfr, Hev. by split_and!.
  - by rewrite Hlock.
  - rewrite Hlock. apply Forall_forall. intros f Hf. apply list_elem_of_lookup in Hf as [j Hf].
    destruct (Forall2_lookup_r _ _ _ _ _ HF Hf) as (i & _ & Hi & Hki). by rewrite Hki.
Qed.

(** ** Submitting *)

Lemma replace_one_run vote by_ f (s : sys) x s' : one_voice (fs_feedback s) → replace_one vote by_ f s = (Ok x, s') →
  one_voice (fs_feedback s') ∧ same_records (fs_feedback s) (fs_feedback s') ∧
  (∀ k g, fs_feedback s' !! k = Some g → pending g = true → fs_feedback s !! k = Some g ∧ k ≠ (fb_tenant vote, fb_id f)) ∧
  evolves (fs_feedback s) (fs_feedback s').
Proof.
  intros Hd Hrun. unfold replace_one in Hrun. apply bind_Ok_inv in Hrun as (old & s1 & [-> ->]%get_run & Hrun).
  set (k0 := (fb_tenant vote, fb_id f)) in *. destruct (fs_feedback s !! k0) as [o|] eqn:Ho.
  - destruct (ov_keyed _ Hd _ _ Ho) as [Hk _]. destruct (pending o) eqn:Hp.
    + apply bind_Ok_inv in Hrun as ([] & s1 & [_ Hs1]%review_run & [_ Hs']%projection_run).
      assert (fb_tenant vote = fb_tenant o) as Ht by (unfold k0, feedback_key in Hk; congruence).
      rewrite Hs1, Ht in Hs'. rewrite <- Hk in Ho. rewrite Hs'. cbn [fs_feedback]. rewrite alter_review_projection by done.
      split_and!; [by apply dismiss_voice| | |].
      * eapply same_records_insert; [done|]. eapply same_vote_trans; [|apply same_vote_projection].
        apply same_vote_review, (state_review PENDING o Hp).
      * intros k g. rewrite lookup_insert_Some. intros [[<- <-]|[Hne Hg]] Hpg; [done|]. split; [done|]. by rewrite <- Hk.
      * eapply evolves_insert; [done|]. apply dismissed_lifecycle; [done| |done]. by apply (proj1 (ov_review _ Hd _ _ Ho)).
    + injection Hrun as <- <-. split_and!; [done|apply same_records_refl| |apply evolves_refl]. intros k g Hg Hpg. split; [done|]. intros ->. congruence.
  - injection Hrun as <- <-. split_and!; [done|apply same_records_refl| |apply evolves_refl]. intros k g Hg Hpg. split; [done|]. intros ->. congruence.
Qed.

Lemma replace_all_run vote by_ l (s : sys) x s' : one_voice (fs_feedback s) → mapM_ (replace_one vote by_) l s = (Ok x, s') →
  one_voice (fs_feedback s') ∧ same_records (fs_feedback s) (fs_feedback s') ∧
  (∀ k g, fs_feedback s' !! k = Some g → pending g = true → fs_feedback s !! k = Some g ∧ ∀ f, f ∈ l → k ≠ (fb_tenant vote, fb_id f)) ∧
  evolves (fs_feedback s) (fs_feedback s').
Proof.
  revert s x. induction l as [|f l IH]; intros s x Hd Hrun.
  { injection Hrun as <- <-. split_and!; [done|apply same_records_refl| |apply evolves_refl]. intros k g Hg Hp. split; [done|].
    intros f Hf. by apply not_elem_of_nil in Hf. }
  cbn [mapM_] in Hrun. apply bind_Ok_inv in Hrun as (y & s1 & (Hd1 & Hs1 & Hp1 & He1)%replace_one_run & Hrun); [|done].
  apply IH in Hrun as (Hd' & Hs' & Hp' & He'); [|done]. split_and!; [done|by eapply same_records_trans| |by eapply evolves_trans].
  intros k g Hg Hp. destruct (Hp' k g Hg Hp) as [Hg1 Hne]. destruct (Hp1 k g Hg1 Hp) as [Hg0 Hne0]. split; [done|].
  intros h [->|Hh]%elem_of_cons; [done|by apply Hne].
Qed.

Lemma replace_earlier_run vote by_ (s : sys) x s' : one_voice (fs_feedback s) →
  is_Some (voter_key (fb_user vote) (fb_agent vote)) → _replace_earlier_votes vote by_ s = (Ok x, s') →
  one_voice (fs_feedback s') ∧ same_records (fs_feedback s) (fs_feedback s') ∧
  (∀ g, cast_in (fs_feedback s') g → ballot g = ballot vote → pending g = false) ∧
  evolves (fs_feedback s) (fs_feedback s').
Proof.
  intros Hd Hv Hrun. unfold _replace_earlier_votes in Hrun. apply bind_Ok_inv in Hrun as (l & s1 & Hl & Hrun).
  apply gets_run in Hl as [-> ->]. match type of Hrun with context [chosen ?p _] => set (q := p) in * end.
  apply bind_Ok_inv in Hrun as (u & s1 & Hlock & Hrun). apply (leaves_run fs_feedback) in Hlock; [|auto with frame].
  assert (∀ f, fs_feedback s !! feedback_key f = Some f → q f = true ↔ ballot f = ballot vote ∧ casts f = true ∧ pending f = true) as Hq.
  { intros f Hf. by apply (on_ballot _ Hd vote PENDING). }
  pose proof (one_pending _ vote q Hd Hv Hq) as Hone.
  apply replace_all_run in Hrun as (Hd' & Hs' & Hp' & He'); [|by rewrite Hlock]. rewrite Hlock in *. split_and!; [done..| |done].
  intros g [Hg Hc] Hb. apply not_true_iff_false. intros Hp. destruct (Hp' _ _ Hg Hp) as [Hg0 Hne]. apply (Hne g).
  - apply elem_of_ordered; [|by apply elem_of_chosen; [|split; [apply Hq|]]]. intros n [= <-]. unfold PENDING_LIMIT. lia.
  - unfold feedback_key. unfold ballot in Hb. congruence.
Qed.

Lemma count_once_run vote (s : sys) x s' : one_voice (fs_feedback s) → is_Some (voter_key (fb_user vote) (fb_agent vote)) →
  pending vote = true → _count_once vote s = (Ok x, s') →
  one_voice (fs_feedback s') ∧ same_records (fs_feedback s) (fs_feedback s') ∧ same_vote vote x ∧
  (∀ g, cast_in (fs_feedback s') g → ballot g = ballot vote → pending g = false) ∧ evolves (fs_feedback s) (fs_feedback s') ∧
  (x = vote ∨ in_state DISMISSED x = true ∧ ∃ p, fb_projection x = Some p ∧ pj_action p = NO_ACTION).
Proof.
  intros Hd Hv Hp Hrun. unfold _count_once in Hrun. apply bind_Ok_inv in Hrun as (counted_ & s1 & Hcount & Hrun).
  apply (leaves_run fs_feedback) in Hcount; [|unfold _applied_vote, applied_votes; quietly]. rewrite <- Hcount in *.
  assert (∀ by_ y, bind (_replace_earlier_votes vote by_) (λ _, (ret y : fprog Feedback)) s1 = (Ok x, s') → x = y ∧
    one_voice (fs_feedback s') ∧ same_records (fs_feedback s1) (fs_feedback s') ∧
    (∀ g, cast_in (fs_feedback s') g → ballot g = ballot vote → pending g = false) ∧ evolves (fs_feedback s1) (fs_feedback s')) as Hall.
  { intros by_ y Hy. apply bind_Ok_inv in Hy as (u & s2 & Hy & [= <- <-]). apply replace_earlier_run in Hy as (? & ? & ? & ?); done. }
  destruct counted_ as [c|]; [destruct (same_thumb c vote)|]; apply Hall in Hrun as (-> & ? & ? & ? & ?).
  - split_and!; [done|done| |done|done|right; split; [done|by eexists]].
    eapply same_vote_trans; [apply same_vote_review, (state_review PENDING vote Hp)|apply same_vote_projection].
  - split_and!; [done..|by left].
  - split_and!; [done..|by left].
Qed.

(** The record [submit] builds before it looks at the voter's other votes. *)
Definition arriving (now : Z) (ctx : MemoryExecutionContext) (f : Feedback) (trusted run_vouched review : bool) : Feedback :=
  let s := stamped now ctx trusted run_vouched f in if review then waiting s else s.

Lemma arriving_state now ctx f trusted run_vouched review : let r := arriving now ctx f trusted run_vouched review in
  is_Some (fb_vote r) ∧ fb_projection r = None ∧ in_state DISMISSED r = false ∧ in_state APPROVED r = false ∧
  (pending r = false → fb_review r = None) ∧
  stamp r = (now, fb_id f) ∧ fb_target r = fb_target f ∧ fb_tenant r = fb_tenant f.
Proof. by destruct review. Qed.

(** Storing a record nothing was stored under before. *)
Lemma add_voice d vote stored now : one_voice d → d !! feedback_key stored = None → same_vote vote stored → is_Some (fb_vote vote) →
  fb_created_at vote = now → (∀ k g, d !! k = Some g → fb_target g = fb_target vote → fb_created_at g < now) →
  settled_review stored → in_state APPROVED stored = false →
  (casts stored = true → ∀ g, cast_in d g → ballot g = ballot stored → pending g = false) →
  one_voice (<[feedback_key stored := stored]> d).
Proof.
  intros Hd Hnone Hs Hv Hnow Hclock Hr Ha Hp. pose proof Hs as (Hb & Hst & Hvote & _).
  apply store_voice; [done|]. apply added_fits; [done..|congruence|done|]. intros Hc.
  split_and!; [unfold due; by rewrite Ha|unfold applied; by rewrite Ha|]. intros g Hg. pose proof Hg as (Hg1 & Hg2 & Hg3).
  split; [by apply Hp|]. unfold before. apply earlier_spec. left. unfold stamp in *. cbn.
  assert (fb_created_at stored = now) as -> by congruence. apply (Hclock _ _ (proj1 Hg1)). unfold ballot in *. congruence.
Qed.

(** What [submit] stores: the record, or the record dismissed as a repeat. *)
Lemma arriving_counted vote now id (s : sys) stored s' : one_voice (fs_feedback s) →
  fb_projection vote = None → in_state DISMISSED vote = false → in_state APPROVED vote = false →
  (pending vote = false → fb_review vote = None) → stamp vote = (now, id) →
  (if pending vote && bool_decide (is_Some (voter_key (fb_user vote) (fb_agent vote))) && is_vote vote
   then _count_once vote else ret vote) s = (Ok stored, s') →
  one_voice (fs_feedback s') ∧ same_records (fs_feedback s) (fs_feedback s') ∧ same_vote vote stored ∧ settled_review stored ∧
  in_state APPROVED stored = false ∧
  (casts stored = true → ∀ g, cast_in (fs_feedback s') g → ballot g = ballot stored → pending g = false) ∧
  evolves (fs_feedback s) (fs_feedback s').
Proof.
  intros Hd Hpj Hdis Happ Hnr Hst Hrun.
  assert (settled_review vote) as Hset by (by split; [|rewrite Hdis]).
  assert (casts vote = false → (ret vote : fprog Feedback) s = (Ok stored, s') →
    one_voice (fs_feedback s') ∧ same_records (fs_feedback s) (fs_feedback s') ∧ same_vote vote stored ∧ settled_review stored ∧
    in_state APPROVED stored = false ∧
    (casts stored = true → ∀ g, cast_in (fs_feedback s') g → ballot g = ballot stored → pending g = false) ∧
    evolves (fs_feedback s) (fs_feedback s')) as Hplain.
  { intros Hc [= <- <-]. split_and!; try done; [apply same_records_refl|by rewrite Hc|apply evolves_refl]. }
  destruct (pending vote) eqn:Hpend; cbn [andb] in Hrun.
  2: { apply Hplain; [|done]. unfold casts. by rewrite (Hnr eq_refl), andb_false_r. }
  case_bool_decide as Hvoter; cbn [andb] in Hrun.
  2: { apply Hplain; [|done]. unfold casts. by rewrite (bool_decide_eq_false_2 _ Hvoter), andb_false_r. }
  destruct (is_vote vote) eqn:Hiv.
  2: { apply Hplain; [|done]. unfold casts. by rewrite Hiv. }
  apply count_once_run in Hrun as (? & ? & Hs & Hno & ? & [->|[Hdd Hna]]); [by split_and!|..|done|done|done].
  split_and!; try done.
  - split; [|done]. intros Hx. by pose proof (in_state_inj _ _ _ Hx Hdd).
  - apply not_true_iff_false. intros Hx. by pose proof (in_state_inj _ _ _ Hx Hdd).
  - intros _ g Hg Hb. apply Hno; [done|]. destruct Hs as (Hb' & _). congruence.
Qed.

Lemma submit_store vote now id (s : sys) x s' :
  one_voice (fs_feedback s) → is_Some (fb_vote vote) → stamp vote = (now, id) →
  fb_projection vote = None → in_state DISMISSED vote = false → in_state APPROVED vote = false →
  (pending vote = false → fb_review vote = None) →
  (∀ k g, fs_feedback s !! k = Some g → fb_target g = fb_target vote → fb_created_at g < now) →
  fs_feedback s !! feedback_key vote = None →
  bind (if pending vote && bool_decide (is_Some (voter_key (fb_user vote) (fb_agent vote))) && is_vote vote
        then _count_once vote else ret vote) (λ stored,
    bind (in_feedback (add_feedback stored)) (λ _,
    bind (match fb_review stored with None => _schedule now stored 0 | Some _ => ret tt end) (λ _, ret (stored, true)))) s = (Ok x, s') →
  one_voice (fs_feedback s') ∧ fs_feedback s' !! feedback_key vote = Some (fst x) ∧
  snd x = true ∧ same_records (fs_feedback s) (delete (feedback_key vote) (fs_feedback s')) ∧
  evolves (fs_feedback s) (fs_feedback s').
Proof.
  intros Hd Hv Hst Hpj Hdis Happ Hnr Hclock Hnone Hrun. apply bind_Ok_inv in Hrun as (stored & s1 & Hstored & Hrun).
  destruct (arriving_counted vote now id s stored s1) as (Hd1 & Hs1 & Hsame & Hset & Ha & Hp & He1); try done.
  assert (feedback_key stored = feedback_key vote) as Hk by by apply same_vote_key.
  assert (fs_feedback s1 !! feedback_key vote = None) as Hnone1.
  { destruct (fs_feedback s1 !! feedback_key vote) as [g|] eqn:Hg; [|done]. destruct (Hs1 _ _ Hg) as (g0 & Hg0 & _). congruence. }
  apply bind_Ok_inv in Hrun as (b & s2 & Hadd & Hrun). unfold in_feedback, zoom, add_feedback in Hadd.
  rewrite Hk, Hnone1 in Hadd. injection Hadd as <- <-.
  apply bind_Ok_inv in Hrun as (u & s3 & Hsch & [= <- <-]). apply (leaves_run fs_feedback) in Hsch; [|destruct (fb_review stored); auto with frame].
  rewrite Hsch. cbn [fs_feedback fst snd]. split_and!; [|apply lookup_insert_eq|done| |].
  - rewrite <- Hk. apply (add_voice _ vote stored now); try done; [by rewrite Hk| |].
    + unfold stamp in Hst. congruence.
    + intros k g Hg Ht. destruct (Hs1 _ _ Hg) as (g0 & Hg0 & (Hb & Hstg & _)). unfold ballot, stamp in *.
      assert (fb_created_at g = fb_created_at g0) as -> by congruence. apply (Hclock k g0 Hg0). congruence.
  - intros k g. rewrite lookup_delete_Some. intros [Hne Hg]. rewrite lookup_insert_ne in Hg by done. by apply Hs1.
  - eapply evolves_trans; [done|]. by apply evolves_new.
Qed.

(** The vote as it comes from the request. *)
Lemma submit_run now ctx f trusted run_vouched (s : sys) x s' : one_voice (fs_feedback s) →
  (∀ k g, fs_feedback s !! k = Some g → fb_target g = fb_target f → fb_created_at g < now) →
  submit blake2b max_listed cache_ttl decision_cache now ctx f trusted run_vouched s = (Ok x, s') →
  one_voice (fs_feedback s') ∧ fs_feedback s' !! (tenant_id ctx, fb_id f) = Some (fst x) ∧
  evolves (fs_feedback s) (fs_feedback s') ∧
  match fs_feedback s !! (tenant_id ctx, fb_id f) with
  | Some e => x = (e, false) ∧ fs_feedback s' = fs_feedback s
  | None => snd x = true ∧ same_records (fs_feedback s) (delete (tenant_id ctx, fb_id f) (fs_feedback s'))
  end.
Proof.
  intros Hd Hnow Hrun. unfold submit in Hrun. cbv zeta in Hrun. apply bind_Ok_inv in Hrun as (u & s1 & Hadmit & Hrun).
  assert (fb_tenant f = tenant_id ctx) as Ht.
  { unfold _admit in Hadmit. cbv zeta in Hadmit. destruct (disagrees (Some (fb_tenant f)) _) eqn:Hdis; [done|].
    cbn in Hdis. by apply negb_false_iff, bool_decide_eq_true in Hdis. }
  apply (leaves_run fs_feedback) in Hadmit; [|auto with frame].
  apply bind_Ok_inv in Hrun as (u2 & s2 & Hlock & Hrun). apply (leaves_run fs_feedback) in Hlock; [|quietly].
  apply bind_Ok_inv in Hrun as (e & s3 & [-> ->]%get_run & Hrun). rewrite Hlock, Hadmit in Hrun.
  assert (fs_feedback s2 = fs_feedback s) as Hs2 by congruence. clear Hadmit Hlock u u2 s1.
  destruct (fs_feedback s !! (tenant_id ctx, fb_id f)) as [e|] eqn:He.
  { injection Hrun as <- <-. rewrite Hs2. split_and!; try done. apply evolves_refl. }
  apply bind_Ok_inv in Hrun as (review & s3 & Hreview & Hrun). apply (leaves_run fs_feedback) in Hreview; [|auto with frame].
  rewrite Hs2 in Hreview.
  destruct (arriving_state now ctx f trusted run_vouched review) as (Hv & Hpj & Hdis & Happ & Hnr & Hst & Htg & Hten).
  assert (fb_user (arriving now ctx f trusted run_vouched review) = or_opt (fb_user f) (user_id ctx) ∧
          fb_agent (arriving now ctx f trusted run_vouched review) = or_opt (fb_agent f) (agent_id ctx)) as [Hu Hag] by by destruct review.
  fold (arriving now ctx f trusted run_vouched review) in Hrun. set (vote := arriving _ _ _ _ _ _) in *.
  rewrite <- Hu, <- Hag in Hrun. assert (feedback_key vote = (tenant_id ctx, fb_id f)) as Hk by (unfold feedback_key, stamp in *; congruence).
  rewrite <- Hk in *. rewrite <- Hreview in *. destruct (submit_store vote now (fb_id f) s3 x s') as (? & ? & ? & ? & ?); try done. by rewrite Htg.
Qed.

(** ** Projecting *)

Lemma replaced_voice d f p : one_voice d → d !! feedback_key f = Some f → in_state APPROVED f = true → fb_projection f = None →
  stood_down p = true → one_voice (<[feedback_key f := set_projection (Some p) f]> d).
Proof.
  intros Hd Hf Ha Hnone Hp. apply (store_voice d (set_projection (Some p) f) Hd).
  assert (∀ st, in_state st (set_projection (Some p) f) = true → st = APPROVED) as Hst.
  { intros st Hx. by apply (in_state_inj _ _ f). }
  apply (closed_fits d f _ Hd Hf (same_vote_projection f (Some p))).
  - intros _. unfold applied, stands. by rewrite Hnone, andb_false_r.
  - split; intros Hx; [by pose proof (Hst PENDING Hx)|by pose proof (Hst DISMISSED Hx)].
  - intros _. split_and!; apply not_true_iff_false.
    + intros Hx. by pose proof (Hst PENDING Hx).
    + intros [_ Hx]%andb_true_iff. by apply bool_decide_eq_true in Hx.
    + unfold applied, stands. cbn. rewrite Hp. cbn. by rewrite andb_false_r.
Qed.

(** What settling older votes does: those that were due are closed, and no other record changes. *)
Record settled_votes (d d' : feedbacks) (l : list Feedback) : Prop := {
  sv_voice : one_voice d';
  sv_stays : ∀ k, (∀ f, f ∈ l → due f = true → feedback_key f ≠ k) → d' !! k = d !! k;
  sv_closed : ∀ f, f ∈ l → due f = true → ∃ p, stood_down p = true ∧ d' !! feedback_key f = Some (set_projection (Some p) f);
}.

Lemma settle_votes_run now t l a (s : sys) x s' : one_voice (fs_feedback s) → NoDup (feedback_key <$> l) →
  Forall (λ f, fs_feedback s !! feedback_key f = Some f ∧ in_state APPROVED f = true ∧ fb_tenant f = t) l →
  settle_votes now t l a s = (Ok x, s') →
  settled_votes (fs_feedback s) (fs_feedback s') l ∧
  x = match a with Some _ => a | None => head (filter (λ f, stands f = true) l) end.
Proof.
  revert s a. induction l as [|f l IH]; intros s a Hd Hn Hl Hrun.
  { injection Hrun as <- <-. split; [|by destruct a]. split; [done|done|]. intros g Hg. by apply not_elem_of_nil in Hg. }
  apply NoDup_cons in Hn as [Hni Hn]. apply Forall_cons in Hl as [(Hf & Ha & Ht) Hl]. cbn [settle_votes] in Hrun.
  rewrite filter_cons. destruct (fb_projection f) as [p|] eqn:Hp.
  - assert (due f = false) as Hdue by (unfold due; by rewrite Hp, andb_false_r).
    assert (stands f = negb (stood_down p)) as Hst by (unfold stands; by rewrite Hp).
    apply IH in Hrun as [[Hv Hs Hc] ->]; [|done..]. split.
    + split; [done| |].
      * intros k Hk. apply Hs. intros g Hg. apply Hk. by right.
      * intros g [->|Hg]%elem_of_cons; [congruence|by apply Hc].
    + rewrite Hst. destruct a; [done|]. by destruct (stood_down p).
  - assert (due f = true) as Hdue by (unfold due; by rewrite Ha, Hp).
    assert (stands f = false) as Hst by (unfold stands; by rewrite Hp).
    apply bind_Ok_inv in Hrun as ([] & s1 & [_ Hs1]%projection_run & Hrun).
    assert (fs_feedback s1 = <[feedback_key f := set_projection (Some (nothing_done REPLACED_REASON None None now)) f]> (fs_feedback s)) as Hf1.
    { rewrite Hs1. cbn [fs_feedback]. rewrite <- Ht. by apply alter_stored. }
    assert (Forall (λ g, feedback_key g ≠ feedback_key f) l) as Hne.
    { apply Forall_forall. intros g Hg Hk. apply Hni. rewrite <- Hk. by apply list_elem_of_fmap_2. }
    apply IH in Hrun as [[Hv Hs Hc] ->]; [|by rewrite Hf1; apply replaced_voice|done|].
    2: { rewrite Forall_forall in *. intros g Hg. destruct (Hl g Hg) as (? & ? & ?). rewrite Hf1, lookup_insert_ne; [done|].
         intros Hk. by apply (Hne g Hg). }
    rewrite Forall_forall in Hne. split; [|by rewrite Hst; destruct a]. split; [done| |].
    + intros k Hk. rewrite Hs, Hf1 by (intros g Hg; apply Hk; by right). apply lookup_insert_ne. apply Hk; [by left|done].
    + intros g [->|Hg]%elem_of_cons Hdg; [|by apply Hc]. exists (nothing_done REPLACED_REASON None None now). split; [done|].
      rewrite Hs, Hf1 by (intros h Hh _; by apply Hne). apply lookup_insert_eq.
Qed.

(** The approved votes of [r]'s ballot. *)
Definition approvals (r : Feedback) (d : feedbacks) : list Feedback :=
  chosen (λ f, on_target (fb_tenant r) (fb_kind r) (fb_target r) f && in_state APPROVED f && stored_vote f
               && by_voter (fb_user r) (fb_agent r) f) d.

Lemma length_approvals r d : (length (approvals r d) ≤ size d)%nat.
Proof.
  unfold approvals, chosen. etrans; [apply length_filter|]. unfold rows. by rewrite length_fmap, length_map_to_list.
Qed.

Lemma elem_of_approvals r d f : one_voice d → is_Some (voter_key (fb_user r) (fb_agent r)) →
  f ∈ approvals r d ↔ cast_in d f ∧ ballot f = ballot r ∧ in_state APPROVED f = true.
Proof.
  intros Hd Hv. unfold approvals. rewrite elem_of_chosen by done. unfold cast_in. split.
  - intros [Hp Hf]. destruct (proj1 (on_ballot d Hd r APPROVED f Hv Hf)) as (? & ? & ?); [|done].
    rewrite !andb_true_iff in *. tauto.
  - intros ([Hf Hc] & Hb & Ha). split; [|done]. pose proof (proj2 (on_ballot d Hd r APPROVED f Hv Hf) (conj Hb (conj Hc Ha))) as Hp.
    rewrite !andb_true_iff in *. tauto.
Qed.

(** The votes [_settle_earlier] goes through: the approved ones before [r], newest first. *)
Definition earlier_votes (r : Feedback) (d : feedbacks) : list Feedback :=
  filter (λ f, not_after r f = true) (ordered newest (Some APPLIED_LIMIT) (approvals r d)).

Lemma elem_of_earlier_votes r d f : one_voice d → cast_in d r → (length (approvals r d) ≤ APPLIED_LIMIT)%nat →
  f ∈ earlier_votes r d ↔ others d r f ∧ in_state APPROVED f = true ∧ before f r = true.
Proof.
  intros Hd Hr Hfew. assert (is_Some (voter_key (fb_user r) (fb_agent r))) as Hv.
  { destruct Hr as [_ Hr]. unfold casts in Hr. rewrite !andb_true_iff in Hr. by destruct Hr as [_ Hr%bool_decide_eq_true]. }
  unfold earlier_votes. rewrite list_elem_of_filter, elem_of_ordered by (intros n [= <-]; done). rewrite elem_of_approvals by done.
  unfold not_after, others. split.
  - intros [Hna (Hf & Hb & Ha)]. rewrite !andb_true_iff in Hna. destruct Hna as [[Hi%negb_true_iff%bool_decide_eq_false _] Ho%negb_true_iff].
    split_and!; [done..|]. destruct (before_total f r) as [Hx|Hx]; [congruence|done|]. unfold before in Hx. congruence.
  - intros ((Hf & Hb & Hi) & Ha & Hlt). split; [|done]. rewrite !andb_true_iff, !negb_true_iff, bool_decide_eq_false.
    split_and!; [done| |by apply earlier_asym]. destruct Hf as [_ Hf]. unfold casts in Hf. rewrite !andb_true_iff in Hf. tauto.
Qed.

#[local] Instance newest_total : Total newest.
Proof.
  intros f g. unfold newest. destruct (earlier (stamp f) (stamp g)) eqn:E; [right; by apply earlier_asym|by left].
Qed.

#[local] Instance newest_trans : Transitive newest.
Proof.
  intros f g h. unfold newest. rewrite <- !not_true_iff_false. intros Hfg Hgh Hfh.
  destruct (decide (fb_id f = fb_id g)) as [Hi|Hi].
  - assert (fb_created_at g ≤ fb_created_at f) as Hle.
    { destruct (Z.le_gt_cases (fb_created_at g) (fb_created_at f)) as [|Hlt]; [done|]. destruct Hfg. apply earlier_spec. by left. }
    apply Hgh, earlier_spec. apply earlier_spec in Hfh. unfold stamp in *. cbn in *. rewrite <- Hi.
    destruct Hfh as [Hlt|[Heq Hs]]; [left; lia|]. destruct (Z.eq_dec (fb_created_at g) (fb_created_at h)); [by right|left; lia].
  - destruct (before_total f g) as [Hx|Hx]; [congruence|by apply Hfg|]. by apply Hgh, (earlier_trans _ _ _ Hx).
Qed.

Lemma earlier_votes_sorted r d : StronglySorted newest (earlier_votes r d).
Proof.
  unfold earlier_votes, ordered. apply StronglySorted_filter. rewrite <- (app_nil_r (take _ _)).
  pose proof (StronglySorted_merge_sort newest (approvals r d)) as Hx. rewrite <- (take_drop APPLIED_LIMIT (merge_sort newest _)) in Hx.
  rewrite app_nil_r. by apply StronglySorted_app in Hx as (_ & ? & _).
Qed.

Section settled.
Context (d d' : feedbacks) (r : Feedback).
Context (Hd : one_voice d) (Hr : cast_in d r) (Hfew : (length (approvals r d) ≤ APPLIED_LIMIT)%nat).
Context (Hs : settled_votes d d' (earlier_votes r d)).

Lemma settled_other g : others d' r g →
  others d r g ∨ ∃ f p, others d r f ∧ due f = true ∧ stood_down p = true ∧ g = set_projection (Some p) f.
Proof.
  intros ([Hg Hc] & Hb & Hi). destruct (d !! feedback_key g) as [f|] eqn:Hf.
  - destruct (decide (feedback_key g ∈ feedback_key <$> filter (λ f, due f = true) (earlier_votes r d))) as [Hin|Hno].
    + apply list_elem_of_fmap in Hin as (h & Hk & [Hdue Hin]%list_elem_of_filter).
      destruct (sv_closed _ _ _ Hs h Hin Hdue) as (p & Hp & Hh). rewrite <- Hk, Hg in Hh. injection Hh as ->. right. exists h, p.
      split_and!; try done. by apply (elem_of_earlier_votes r d h Hd Hr Hfew) in Hin as [? _].
    + left. rewrite (sv_stays _ _ _ Hs) in Hg; [done|]. intros h Hh Hdh Hkh. apply Hno. rewrite <- Hkh.
      apply list_elem_of_fmap_2, list_elem_of_filter. done.
  - rewrite (sv_stays _ _ _ Hs) in Hg; [congruence|]. intros h Hh _ Hkh.
    apply (elem_of_earlier_votes r d h Hd Hr Hfew) in Hh as (([Hh _] & _) & _). congruence.
Qed.

Lemma settled_applied g : others d' r g → applied g = true → others d r g.
Proof.
  intros Hg Ha. destruct (settled_other g Hg) as [|(f & p & _ & _ & Hp & ->)]; [done|].
  apply andb_true_iff in Ha as [_ Ha]. unfold stands in Ha. cbn in Ha. by rewrite Hp in Ha.
Qed.

Lemma applied_settled g : others d r g → due g = false → others d' r g.
Proof.
  intros ([Hg Hc] & Hb & Hi) Ha. split_and!; [|done..]. split; [|done]. rewrite (sv_stays _ _ _ Hs); [done|].
  intros h Hh Hdh Hk. apply (elem_of_earlier_votes r d h Hd Hr Hfew) in Hh as (([Hh _] & _) & _). rewrite Hk in Hh. congruence.
Qed.

Lemma applied_not_due g : applied g = true → due g = false.
Proof.
  intros [_ Ha]%andb_true_iff. unfold due, stands in *. destruct (fb_projection g); [by rewrite andb_false_r|done].
Qed.

Lemma settled_due h : others d' r h → due h = true → before r h = true.
Proof.
  intros Hh Hdue. destruct (settled_other h Hh) as [Hh'|(f & p & _ & _ & _ & ->)].
  2: { apply andb_true_iff in Hdue as [_ Hx]. by apply bool_decide_eq_true in Hx. }
  destruct (before_total r h) as [|Hlt]; [by destruct Hh as (_ & _ & ?)|done|]. exfalso.
  pose proof Hdue as [Ha Hnone]%andb_true_iff.
  assert (h ∈ earlier_votes r d) as Hin by by apply elem_of_earlier_votes.
  destruct (sv_closed _ _ _ Hs h Hin Hdue) as (p & _ & Hx). destruct Hh as ([Hh _] & _). rewrite Hh in Hx. injection Hx as Hx.
  rewrite Hx in Hnone. by apply bool_decide_eq_true in Hnone.
Qed.

Lemma settled_evolves : evolves d d'.
Proof.
  intros k f Hf. destruct (ov_keyed d Hd _ _ Hf) as [Hk _].
  destruct (decide (k ∈ feedback_key <$> filter (λ f, due f = true) (earlier_votes r d))) as [Hin|Hno].
  - apply list_elem_of_fmap in Hin as (h & Hkh & [Hdue Hin]%list_elem_of_filter).
    destruct (sv_closed _ _ _ Hs h Hin Hdue) as (p & Hp & Hh). rewrite <- Hkh in Hh. exists (set_projection (Some p) h). split; [done|].
    assert (f = h) as ->.
    { apply (elem_of_earlier_votes r d h Hd Hr Hfew) in Hin as (([Hx _] & _) & _). congruence. }
    apply lifecycle_projection. by apply andb_true_iff in Hdue as [_ Hn%bool_decide_eq_true].
  - exists f. split; [|apply lifecycle_refl]. rewrite (sv_stays _ _ _ Hs); [done|]. intros h Hh Hdh Hkh. apply Hno.
    rewrite <- Hkh. apply list_elem_of_fmap_2, list_elem_of_filter. done.
Qed.

(** What stood among the older votes is what the new one reverses. *)
Lemma settled_reverses : due r = true →
  let prior := head (filter (λ f, stands f = true) (earlier_votes r d)) in
  reverses d' r (fb_id <$> prior) ∧ (∀ f, prior = Some f → others d' r f ∧ applied f = true).
Proof.
  intros Hdue prior.
  assert (∀ g, others d' r g → applied g = true → g ∈ filter (λ f, stands f = true) (earlier_votes r d)) as Hall.
  { intros g Hg Ha. pose proof (settled_applied g Hg Ha) as Hg'. pose proof Ha as [Happ Hst]%andb_true_iff.
    apply list_elem_of_filter. split; [done|]. apply elem_of_earlier_votes; [done..|]. split_and!; [done..|].
    by apply (ov_due d Hd r g). }
  pose proof (StronglySorted_filter (λ f, stands f = true) _ _ (earlier_votes_sorted r d)) as Hsort. unfold prior.
  destruct (filter _ _) as [|f l] eqn:Hl; cbn.
  - split; [|done]. intros g Hg Ha. by pose proof (Hall g Hg Ha) as Hx%not_elem_of_nil.
  - assert (f ∈ filter (λ f, stands f = true) (earlier_votes r d)) as Hf by (rewrite Hl; by left).
    apply list_elem_of_filter in Hf as [Hst Hf]. apply (elem_of_earlier_votes r d f Hd Hr Hfew) in Hf as (Hf & Ha & Hlt).
    assert (applied f = true) as Hap by (unfold applied; by rewrite Ha, Hst).
    assert (others d' r f) as Hf' by (by apply applied_settled, applied_not_due). split; [|by intros ? [= <-]].
    exists f. split_and!; try done. intros g Hg Hag _. pose proof (Hall g Hg Hag) as [->|Hin]%elem_of_cons; [by left|].
    destruct (decide (fb_id g = fb_id f)) as [Hi|Hi].
    { left. eapply cast_in_inj; [by destruct Hg|by destruct Hf'| |done]. destruct Hg as (_ & -> & _), Hf' as (_ & -> & _). done. }
    right.
    apply StronglySorted_inv in Hsort as [_ Hsort]. rewrite Forall_forall in Hsort. pose proof (Hsort g Hin) as Hnew. unfold newest in Hnew.
    destruct (before_total g f) as [|Hx]; [congruence|done|unfold before in Hx; congruence].
Qed.
End settled.

Abbreviation projecting := (_project content_hash normalized_hash detect_language sha py_repr magnitude).
Abbreviation projecting_vote := (_project_vote content_hash normalized_hash detect_language sha py_repr magnitude).

Lemma casts_voter r : casts r = true → is_Some (voter_key (fb_user r) (fb_agent r)).
Proof. unfold casts. rewrite !andb_true_iff. by intros [_ Hv%bool_decide_eq_true]. Qed.

Lemma settle_earlier_run now r (s : sys) prior s' : one_voice (fs_feedback s) → cast_in (fs_feedback s) r →
  (length (approvals r (fs_feedback s)) ≤ APPLIED_LIMIT)%nat → _settle_earlier now r s = (Ok prior, s') →
  settled_votes (fs_feedback s) (fs_feedback s') (earlier_votes r (fs_feedback s)) ∧
  prior = head (filter (λ f, stands f = true) (earlier_votes r (fs_feedback s))).
Proof.
  intros Hd Hr Hfew Hrun. unfold _settle_earlier in Hrun. apply bind_Ok_inv in Hrun as (l & s1 & Hl & Hrun).
  apply gets_run in Hl as [-> ->]. apply settle_votes_run in Hrun as [? ->]; [done|done| |].
  - apply (sublist_NoDup _ (feedback_key <$> ordered newest (Some APPLIED_LIMIT) (approvals r (fs_feedback s)))).
    + by apply ordered_keys.
    + apply fmap_sublist, sublist_filter.
  - apply Forall_forall. intros f Hf. change (f ∈ earlier_votes r (fs_feedback s)) in Hf.
    apply elem_of_earlier_votes in Hf as (([Hf _] & Hb & _) & Ha & _); [|done..]. split_and!; [done..|]. unfold ballot in Hb. congruence.
Qed.

Lemma stood_down_voice d r p : one_voice d → d !! feedback_key r = Some r → due r = true → stood_down p = true →
  one_voice (<[feedback_key r := set_projection (Some p) r]> d).
Proof. intros Hd Hr [Ha Hn%bool_decide_eq_true]%andb_true_iff Hp. by apply replaced_voice. Qed.

Lemma project_vote_run now new_id r (s : sys) p s' : one_voice (fs_feedback s) → cast_in (fs_feedback s) r → due r = true →
  (length (approvals r (fs_feedback s)) ≤ APPLIED_LIMIT)%nat → projecting_vote now new_id r s = (Ok p, s') →
  fs_feedback s' !! feedback_key r = Some r ∧ one_voice (<[feedback_key r := set_projection (Some p) r]> (fs_feedback s')) ∧
  evolves (fs_feedback s) (fs_feedback s').
Proof.
  intros Hd Hr Hdue Hfew Hrun. unfold _project_vote in Hrun. destruct (casts_voter r (proj2 Hr)) as [v Hv]. rewrite Hv in Hrun.
  apply bind_Ok_inv in Hrun as (u & s1 & Hlock & Hrun). apply (leaves_run fs_feedback) in Hlock; [|auto with frame].
  rewrite <- Hlock in *. apply bind_Ok_inv in Hrun as (prior & s2 & [Hs Hprior]%settle_earlier_run & Hrun); [|done..].
  pose proof (sv_voice _ _ _ Hs) as Hd2.
  assert (fs_feedback s2 !! feedback_key r = Some r) as Hr2.
  { rewrite (sv_stays _ _ _ Hs); [by destruct Hr|]. intros f Hf _ Hk. apply elem_of_earlier_votes in Hf as ((_ & _ & Hi) & _); [|done..].
    apply Hi. unfold feedback_key in Hk. congruence. }
  destruct (settled_reverses _ _ r Hd Hr Hfew Hs Hdue) as [Hrev Hpr]. rewrite <- Hprior in Hrev, Hpr.
  pose proof (settled_evolves _ _ r Hd Hr Hfew Hs) as Hev.
  assert (∀ q, fs_feedback s' = fs_feedback s2 → p = with_reversed (fb_id <$> prior) q →
    fs_feedback s' !! feedback_key r = Some r ∧ one_voice (<[feedback_key r := set_projection (Some p) r]> (fs_feedback s')) ∧
    evolves (fs_feedback s1) (fs_feedback s')) as Hdone.
  { intros q -> ->. split_and!; [done| |done]. destruct (stood_down (with_reversed (fb_id <$> prior) q)) eqn:Hsd; [by apply stood_down_voice|].
    set (p' := with_reversed (fb_id <$> prior) q) in *.
    apply (store_voice _ (set_projection (Some p') r) Hd2), (applied_fits _ r _ Hd2 Hr2 (same_vote_projection r _) p'); try done.
    intros h Hh Hdh. by apply (settled_due (fs_feedback s1) (fs_feedback s2)). }
  destruct prior as [f|].
  - destruct (same_thumb f r).
    + injection Hrun as <- <-. split_and!; [done|by apply stood_down_voice|done].
    + apply bind_Ok_inv in Hrun as (u2 & s3 & Hrv & Hrun). apply (leaves_run fs_feedback) in Hrv; [|destruct (fb_projection f); auto with frame].
      apply bind_Ok_inv in Hrun as (q & s4 & Hq & [= <- <-]). apply (leaves_run fs_feedback) in Hq; [|auto with frame].
      apply (Hdone q); [congruence|done].
  - apply bind_Ok_inv in Hrun as (q & s4 & Hq & [= <- <-]). apply (leaves_run fs_feedback) in Hq; [|auto with frame]. by apply (Hdone q).
Qed.

(** A record that takes no part in a ballot, projected. *)
Lemma plain_voice d r p : one_voice d → d !! feedback_key r = Some r → casts r = false → pending r = false → fb_projection r = None →
  one_voice (<[feedback_key r := set_projection (Some p) r]> d).
Proof.
  intros Hd Hr Hc Hp Hn. apply (store_voice d (set_projection (Some p) r) Hd), (closed_fits d r _ Hd Hr (same_vote_projection r _)).
  - intros Hx. change (casts r = true) in Hx. congruence.
  - split; [intros Hx; change (pending r = true) in Hx; congruence|]. intros Hx.
    destruct (proj2 (ov_review d Hd _ _ Hr) Hx) as (q & Hq & _). congruence.
  - intros Hx. change (casts r = true) in Hx. congruence.
Qed.

Lemma cast_due d r : one_voice d → cast_in d r → pending r = false → fb_projection r = None → due r = true.
Proof.
  intros Hd [Hr Hc] Hp Hn. unfold due. rewrite Hn, andb_true_r. destruct (in_state DISMISSED r) eqn:Hdis.
  { destruct (proj2 (ov_review d Hd _ _ Hr) Hdis) as (q & Hq & _). congruence. }
  unfold casts in Hc. rewrite !andb_true_iff in Hc. destruct Hc as [[_ Hrev%bool_decide_eq_true] _].
  unfold pending, in_state in *. destruct (fb_review r) as [v|]; [|by destruct Hrev]. by destruct (rv_state v).
Qed.

Abbreviation applying := (apply_record content_hash normalized_hash detect_language sha py_repr magnitude).

Lemma apply_record_run now new_id r (s : sys) p s' : one_voice (fs_feedback s) → fs_feedback s !! feedback_key r = Some r →
  pending r = false → fb_projection r = None → (length (approvals r (fs_feedback s)) ≤ APPLIED_LIMIT)%nat →
  applying now new_id r s = (Ok p, s') →
  fs_feedback s' !! feedback_key r = Some r ∧ one_voice (<[feedback_key r := set_projection (Some p) r]> (fs_feedback s')) ∧
  evolves (fs_feedback s) (fs_feedback s').
Proof.
  intros Hd Hr Hp Hn Hfew Hrun. unfold apply_record in Hrun. destruct (casts r) eqn:Hc.
  - pose proof Hc as Hx. unfold casts in Hx. rewrite !andb_true_iff in Hx. destruct Hx as [[Hv Hrev] _].
    rewrite Hrev, Hv in Hrun. apply (project_vote_run now new_id r s); try done; split || apply (cast_due (fs_feedback s)); done.
  - assert (quiet (applying now new_id r)) as Hq.
    { unfold apply_record. destruct (bool_decide _ && is_vote r) eqn:Hb; [|auto with frame]. unfold _project_vote.
      destruct (voter_key (fb_user r) (fb_agent r)) eqn:Hv; [|auto with frame]. unfold casts in Hc.
      rewrite andb_true_iff in Hb. destruct Hb as [Hb1 Hb2]. rewrite Hb1, Hb2, Hv in Hc. done. }
    assert (fs_feedback s' = fs_feedback s) as -> by (by apply (leaves_run fs_feedback _ _ _ _ Hq Hrun)).
    split_and!; [done|by apply plain_voice|apply evolves_refl].
Qed.

Abbreviation projecting_job := (project content_hash normalized_hash detect_language sha py_repr magnitude).

Lemma project_run now new_id t i attempt (s : sys) x s' : one_voice (fs_feedback s) →
  (∀ r, fs_feedback s !! (t, i) = Some r → (length (approvals r (fs_feedback s)) ≤ APPLIED_LIMIT)%nat) →
  projecting_job now new_id t i attempt s = (Ok x, s') → one_voice (fs_feedback s') ∧ evolves (fs_feedback s) (fs_feedback s').
Proof.
  intros Hd Hfew Hrun. unfold project in Hrun. apply bind_Ok_inv in Hrun as (u & s1 & Hlock & Hrun).
  apply (leaves_run fs_feedback) in Hlock; [|auto with frame]. rewrite <- Hlock in *. clear Hlock.
  apply bind_Ok_inv in Hrun as (found & s2 & [-> ->]%get_run & Hrun).
  assert (∀ y, (ret y : fprog (option FeedbackProjection)) s1 = (Ok x, s') →
    one_voice (fs_feedback s') ∧ evolves (fs_feedback s1) (fs_feedback s')) as Hsame.
  { intros y [= _ <-]. split; [done|apply evolves_refl]. }
  destruct (fs_feedback s1 !! (t, i)) as [r|] eqn:Hr; [|by apply Hsame in Hrun].
  destruct (ov_keyed _ Hd _ _ Hr) as [Hk _]. destruct (fb_projection r) as [p|] eqn:Hn; [by apply Hsame in Hrun|].
  destruct (pending r) eqn:Hp; [by apply Hsame in Hrun|]. clear Hsame.
  apply bind_Ok_inv in Hrun as (wait & s2 & Hwait & Hrun). apply (leaves_run fs_feedback) in Hwait; [|destruct (_ && _); quietly].
  destruct wait.
  { apply bind_Ok_inv in Hrun as (? & s3 & Hq & [= <- <-]). apply (leaves_run fs_feedback) in Hq; [|auto with frame].
    rewrite Hq, Hwait. split; [done|apply evolves_refl]. }
  apply bind_Ok_inv in Hrun as (? & s3 & Hlock & Hrun). apply (leaves_run fs_feedback) in Hlock; [|destruct (bool_decide _); auto with frame].
  apply bind_Ok_inv in Hrun as (p & s4 & Happly & Hrun). apply bind_Ok_inv in Hrun as ([] & s5 & [_ Hs5]%projection_run & [= <- <-]).
  rewrite Hs5. cbn [fs_feedback]. rewrite <- Hk. assert (fs_feedback s3 = fs_feedback s1) as Hs3 by congruence.
  rewrite <- Hs3, <- Hk in Hr. apply apply_record_run in Happly as (Hr4 & Hv & Hev); [|by rewrite Hs3|done..|rewrite Hs3; apply Hfew; congruence].
  rewrite (alter_stored _ _ _ r) by done. rewrite <- Hs3. split; [done|]. eapply evolves_trans; [done|].
  eapply evolves_insert; [done|]. by apply lifecycle_projection.
Qed.

(** ** The transition system *)

(** What a unit of work was about. *)
Inductive feedback_event :=
| Submits (now : Z) (target : string)
| Reviews
| Projects (t i : string)
| Elsewhere.

(** A unit of work that commits: submitting, reviewing, projecting, or anything else
    the program does, which leaves the feedback table alone. *)
Inductive feedback_step : feedback_event → sys → sys → Prop :=
| step_submit now ctx f trusted run_vouched x s s' :
    submit blake2b max_listed cache_ttl decision_cache now ctx f trusted run_vouched s = (Ok x, s') →
    feedback_step (Submits now (fb_target f)) s s'
| step_review now t i approve by_ note x s s' : review_ now t i approve by_ note s = (Ok x, s') → feedback_step Reviews s s'
| step_review_many now t w approve by_ note x s s' : review_many now t w approve by_ note s = (Ok x, s') → feedback_step Reviews s s'
| step_project now new_id t i attempt x s s' : projecting_job now new_id t i attempt s = (Ok x, s') → feedback_step (Projects t i) s s'
| step_elsewhere s s' : fs_feedback s' = fs_feedback s → feedback_step Elsewhere s s'.

(** What the code relies on and does not enforce. A judgement arrives later than the
    ones its target already has (the service's clock goes on between two of them), and
    a judgement is applied while its voter has at most [APPLIED_LIMIT] approved votes
    on its target, the most [_settle_earlier] reads. *)
Definition in_order (e : feedback_event) (d : feedbacks) : Prop :=
  match e with
  | Submits now target => ∀ k g, d !! k = Some g → fb_target g = target → fb_created_at g < now
  | Projects t i => ∀ r, d !! (t, i) = Some r → (length (approvals r d) ≤ APPLIED_LIMIT)%nat
  | Reviews | Elsewhere => True
  end.

(** The steps taken while it holds. *)
Definition orderly (s s' : sys) : Prop := ∃ e, feedback_step e s s' ∧ in_order e (fs_feedback s).

Lemma step_voice s s' : orderly s s' → one_voice (fs_feedback s) →
  one_voice (fs_feedback s') ∧ evolves (fs_feedback s) (fs_feedback s').
Proof.
  intros (e & Hstep & Hin) Hd. destruct Hstep as [now ctx f trusted run_vouched x s s' Hrun|now t i approve by_ note x s s' Hrun
    |now t w approve by_ note [[a b] more] s s' Hrun|now new_id t i attempt x s s' Hrun|s s' Heq]; cbn [in_order] in Hin.
  - by apply submit_run in Hrun as (? & ? & ? & ?).
  - apply review_result in Hrun as (r & ? & ? & ? & -> & ? & ?); [|done]. split; [done|]. by eapply evolves_insert.
  - by apply review_many_result in Hrun as (? & ? & ? & ? & ? & ? & ? & ? & ? & ? & ?).
  - by apply project_run in Hrun.
  - rewrite Heq. split; [done|apply evolves_refl].
Qed.

Lemma steps_voice s s' : rtc orderly s s' → one_voice (fs_feedback s) →
  one_voice (fs_feedback s') ∧ evolves (fs_feedback s) (fs_feedback s').
Proof.
  induction 1 as [s|s1 s2 s3 Hstep _ IH]; intros Hd; [split; [done|apply evolves_refl]|].
  destruct (step_voice _ _ Hstep Hd) as [Hd2 He]. destruct (IH Hd2) as [Hd3 He3]. split; [done|]. by eapply evolves_trans.
Qed.

Lemma reachable_voice s s' : rtc orderly s s' → fs_feedback s = ∅ → one_voice (fs_feedback s').
Proof. intros Hsteps Hempty. apply (steps_voice s s' Hsteps). rewrite Hempty. apply one_voice_empty. Qed.

(** C6: A person counts once for each target, as long as the operations come in order:
    no judgement arrives with a clock at or before that of one its target already has,
    and none is applied while its voter has more than [APPLIED_LIMIT] (20) approved
    votes on the target, which is all [_settle_earlier] reads. In every table
    submissions, reviews, projections and the rest of the program reach in that way
    from an empty one, exactly one of a voter's applied votes on a target counts (it
    was not reversed); it is the newest applied one, and every older applied vote was
    reversed, by one vote only. *)
Theorem one_vote_counts s s' : rtc orderly s s' → fs_feedback s = ∅ → let d := fs_feedback s' in
  (∀ f, cast_in d f → applied f = true → ∃ g, counts d g ∧ ballot g = ballot f) ∧
  (∀ f g, counts d f → counts d g → ballot f = ballot g → f = g) ∧
  (∀ f g, counts d f → others d f g → applied g = true → before g f = true) ∧
  (∀ f g, cast_in d f → applied f = true → others d f g → applied g = true → before f g = true →
     ∃ h p, (others d f h ∧ applied h = true ∧ fb_projection h = Some p ∧ pj_reversed p = Some (fb_id f)) ∧
       ∀ h' p', others d f h' → applied h' = true → fb_projection h' = Some p' → pj_reversed p' = Some (fb_id f) → h' = h).
Proof.
  intros Hsteps Hempty d. pose proof (reachable_voice s s' Hsteps Hempty) as Hd. split_and!.
  - intros f Hf Ha. by eapply some_counts.
  - intros f g Hf Hg Hb. by eapply counts_unique.
  - intros f g Hf Hg Ha. by eapply counts_newest.
  - intros f g Hf Ha Hg Hag Hlt. destruct (older_reversed d Hd _ f g (le_n _) Hf Ha Hg Hag Hlt) as (h & p & Hh & Hah & Hp & Hr).
    exists h, p. split; [done|]. intros h' p' Hh' Hah' Hp' Hr'. eapply (reversed_once d Hd f h' h); try done.
Qed.

(** C14: A judgement is never lost, is decided once and is applied once. As long
    as the operations come in order (as in one_vote_counts), a record keeps what was sent; one that is waiting was not
    applied; once decided, or applied, it stays as it is; and a dismissed record
    was not applied and never is. *)
Theorem judgements_are_final s0 s s' : fs_feedback s0 = ∅ → rtc orderly s0 s → rtc orderly s s' →
  ∀ k f, fs_feedback s !! k = Some f → ∃ g, fs_feedback s' !! k = Some g ∧ lifecycle f g ∧
    (pending g = true → fb_projection g = None) ∧
    (in_state DISMISSED f = true → fb_projection g = fb_projection f ∧ ∃ p, fb_projection f = Some p ∧ pj_action p = NO_ACTION).
Proof.
  intros Hempty Hto Hthen k f Hf. pose proof (reachable_voice s0 s Hto Hempty) as Hd.
  destruct (steps_voice s s' Hthen Hd) as [Hd' He]. destruct (He k f Hf) as (g & Hg & Hlc). exists g. split_and!; [done|done| |].
  - apply (proj1 (ov_review _ Hd' _ _ Hg)).
  - intros Hdis. destruct (proj2 (ov_review _ Hd _ _ Hf) Hdis) as (p & Hp & Ha). split; [|by exists p].
    destruct (lc_projection _ _ Hlc) as [|Hn]; [done|congruence].
Qed.

(** Sending a judgement again stores nothing. A submission with an id the
    tenant has used returns the record of that id as it is by then - decided or
    applied in between - and says that it is not new. *)
Theorem submit_once s0 s1 s2 s3 s4 now ctx f trusted run_vouched x now' ctx' f' trusted' run_vouched' x' :
  fs_feedback s0 = ∅ → rtc orderly s0 s1 →
  (∀ k g, fs_feedback s1 !! k = Some g → fb_target g = fb_target f → fb_created_at g < now) →
  submit blake2b max_listed cache_ttl decision_cache now ctx f trusted run_vouched s1 = (Ok x, s2) →
  rtc orderly s2 s3 → tenant_id ctx' = tenant_id ctx → fb_id f' = fb_id f →
  submit blake2b max_listed cache_ttl decision_cache now' ctx' f' trusted' run_vouched' s3 = (Ok x', s4) →
  lifecycle (fst x) (fst x') ∧ snd x' = false ∧ fs_feedback s4 = fs_feedback s3.
Proof.
  intros Hempty Hto Hclock Hsub Hthen Ht Hi Hsub'. pose proof (reachable_voice s0 s1 Hto Hempty) as Hd1.
  destruct (submit_run _ _ _ _ _ _ _ _ Hd1 Hclock Hsub) as (Hd2 & Hx & _). destruct (steps_voice s2 s3 Hthen Hd2) as [Hd3 He].
  destruct (He _ _ Hx) as (g & Hg & Hlc). rewrite <- Ht, <- Hi in Hg. unfold submit in Hsub'. cbv zeta in Hsub'.
  apply bind_Ok_inv in Hsub' as (u & s & Ha & Hsub'). apply (leaves_run fs_feedback) in Ha; [|auto with frame].
  apply bind_Ok_inv in Hsub' as (u2 & s' & Hl & Hsub'). apply (leaves_run fs_feedback) in Hl; [|quietly].
  apply bind_Ok_inv in Hsub' as (e & s5 & [-> ->]%get_run & Hsub'). rewrite Hl, Ha, Hg in Hsub'. injection Hsub' as <- <-.
  split_and!; [done..|congruence].
Qed.

(** C32: A review decides once. In the tables reached while the operations come in
    order (as in one_vote_counts), reviewing a decided record again is refused as a
    conflict and changes nothing in the table, and deciding the same ids at once
    again decides none of them and returns them all as they are. *)
Theorem review_once s0 s : fs_feedback s0 = ∅ → rtc orderly s0 s →
  (∀ now t i approve by_ note x s1 s2 now' approve' by' note', review_ now t i approve by_ note s = (Ok x, s1) → rtc orderly s1 s2 →
     ∃ s3, review_ now' t i approve' by' note' s2 = (Raise (err Conflict ("feedback " +:+ i +:+ " is not waiting for review")), s3) ∧
           fs_feedback s3 = fs_feedback s2) ∧
  (∀ now t l approve by_ note x s1 s2 now' approve' by' note' x' s3,
     review_many now t (ByIds l) approve by_ note s = (Ok x, s1) → rtc orderly s1 s2 →
     review_many now' t (ByIds l) approve' by' note' s2 = (Ok x', s3) →
     fst (fst x') = [] ∧ Forall2 (λ i f, fs_feedback s2 !! (t, i) = Some f) (fromkeys l) (snd (fst x')) ∧ fs_feedback s3 = fs_feedback s2).
Proof.
  intros Hempty Hto. pose proof (reachable_voice s0 s Hto Hempty) as Hd. split.
  - intros now t i approve by_ note x s1 s2 now' approve' by' note' Hrun Hthen.
    apply review_result in Hrun as (r & Hr & Hp & Hpx & Hs1 & Hd1 & _); [|done]. destruct (steps_voice s1 s2 Hthen Hd1) as [Hd2 He].
    destruct (He (t, i) x) as (g & Hg & Hlc); [by rewrite Hs1, lookup_insert_eq|].
    assert (pending g = false) as Hpg.
    { destruct (lc_review _ _ Hlc) as [Hrv|(Hp' & _)]; [|congruence]. unfold pending in *. by rewrite Hrv. }
    unfold review_. destruct (locks ["feedback:" +:+ t +:+ ":" +:+ i] s2) as [[u|e] s3] eqn:Hl; [|by destruct s2].
    apply (leaves_run fs_feedback) in Hl as Hfs; [|auto with frame]. exists s3. split; [|done].
    rewrite (bind_ok _ _ _ _ _ Hl). assert (in_feedback (get_feedback t i) s3 = (Ok (Some g), s3)) as Hget.
    { rewrite get_eq. by rewrite Hfs, Hg. }
    rewrite (bind_ok _ _ _ _ _ Hget), Hpg. done.
  - intros now t l approve by_ note [[dec un] more] s1 s2 now' approve' by' note' [[dec' un'] more'] s3 Hrun Hthen Hrun'.
    apply review_many_result in Hrun as (ids & fs & _ & Hids & HF & _ & _ & Hd1 & _ & Hall & _); [|done].
    destruct (steps_voice s1 s2 Hthen Hd1) as [Hd2 He].
    assert (ids = fromkeys l) as -> by (cbn [ids_to_review] in Hids; cbv zeta in Hids; case_match; [done|by injection Hids]).
    pose proof Hrun' as (ids' & fs' & _ & Hids' & HF' & -> & Hdec & _ & Hfr & _)%review_many_result; [|done].
    assert (ids' = fromkeys l) as -> by (cbn [ids_to_review] in Hids'; cbv zeta in Hids'; case_match; [done|by injection Hids']).
    assert (∀ f, f ∈ fs' → pending f = false) as Hnone.
    { intros f Hf. apply list_elem_of_lookup in Hf as [j Hf]. destruct (Forall2_lookup_r _ _ _ _ _ HF' Hf) as (i & Hj & Hi & Hk).
      destruct (Forall2_lookup_l _ _ _ _ _ HF Hj) as (f0 & Hf0 & Hi0 & Hk0). destruct (Hall f0) as (g & Hg & Hpg); [by eapply list_elem_of_lookup_2|].
      destruct (He _ _ Hg) as (g' & Hg' & Hlc). rewrite Hk0 in Hg'. assert (g' = f) as -> by congruence.
      destruct (lc_review _ _ Hlc) as [Hrv|(Hp' & _)]; [|congruence]. unfold pending in *. by rewrite Hrv. }
    assert (filter (λ f, pending f = true) fs' = []) as Hempty'.
    { apply filter_all_false, Forall_forall. done. }
    assert (filter (λ f, pending f = false) fs' = fs') as Hfull.
    { clear -Hnone. induction fs' as [|f fs' IH]; [done|]. rewrite filter_cons_True by (apply Hnone; by left).
      rewrite IH; [done|]. intros g Hg. apply Hnone. by right. }
    rewrite Hempty' in Hdec. rewrite Hfull. cbn. split_and!.
    + by apply fmap_nil_inv in Hdec.
    + eapply Forall2_impl; [exact HF'|]. by intros ? ? [? _].
    + apply map_eq. intros k. apply Hfr. rewrite Hempty'. apply not_elem_of_nil.
Qed.
End safety.

(** ** Instances

    Alice thumbs up what is remembered of her, it is approved and applied; then she
    changes her mind. *)

Definition no_tools : tool_tables :=
  {| tt_catalog := ∅; tt_calls := ∅; tt_outcomes := ∅; tt_stats := ∅; tt_approvals := ∅; tt_procedures := ∅ |}.
Definition feedback_start : feedback_sys provider MemoryCache :=
  {| fs_memory := said; fs_feedback := ∅; fs_tools := no_tools |}.

Definition judges (id target : string) (k : FeedbackTargetKind) (v : FeedbackVerdict) : Feedback :=
  {| fb_id := id; fb_tenant := "acme"; fb_workspace := None; fb_user := None; fb_agent := None; fb_run := None; fb_trace := None;
     fb_kind := k; fb_target := target; fb_verdict := v; fb_correction := JNull; fb_score := None; fb_comment := None;
     fb_reviewer := None; fb_source := HUMAN; fb_evidence := []; fb_metadata := []; fb_created_at := 0; fb_projection := None;
     fb_review := None; fb_vote := None |}.

#[local] Notation demo_step := (orderly (P := provider) (C := MemoryCache) id_hash 10 60 true id_hash id_hash english id_hash (λ _, "") (λ n, n)).
Definition demo_submit (now : Z) (f : Feedback) := submit (P := provider) (C := MemoryCache) id_hash 10 60 true now alice f false false.
Definition demo_review (now : Z) (i : string) := review_ (P := provider) (C := MemoryCache) now "acme" i true "root" None.
Definition demo_project (now : Z) (i : string) :=
  project (P := provider) (C := MemoryCache) id_hash id_hash english id_hash (λ _, "") (λ n, n) now "mem_new" "acme" i 0.

Definition up : Feedback := judges "fb_up" "mem_1" KMemory CONFIRM.
Definition down : Feedback := judges "fb_down" "mem_1" KMemory REJECT.

Definition sent := snd (demo_submit 1000 up feedback_start).
Definition decided := snd (demo_review 1100 "fb_up" sent).
Definition applied_up := snd (demo_project 1200 "fb_up" decided).
Definition flipped := snd (demo_submit 1300 down applied_up).
Definition redecided := snd (demo_review 1400 "fb_down" flipped).
Definition applied_down := snd (demo_project 1500 "fb_down" redecided).

Lemma clock_check d now : bool_decide (map_Forall (λ _ g, fb_created_at g < now) d) = true →
  ∀ target k (g : Feedback), (d : feedbacks) !! k = Some g → fb_target g = target → fb_created_at g < now.
Proof. intros Hall%bool_decide_eq_true target k g Hg _. by apply (Hall k g). Qed.

Definition goes_through {A} (r : res A * feedback_sys provider MemoryCache) : bool :=
  match fst r with Ok _ => true | Raise _ => false end.

Lemma demo_sends now f s : goes_through (demo_submit now f s) = true →
  bool_decide (map_Forall (λ _ g, fb_created_at g < now) (fs_feedback s)) = true → demo_step s (snd (demo_submit now f s)).
Proof.
  intros Hrun Hclock. destruct (ran (λ _, true) (demo_submit now f s) Hrun) as (x & Hx & _).
  exists (Submits now (fb_target f)). split; [eapply step_submit; exact Hx|]. intros k g. by apply clock_check.
Qed.

Lemma demo_reviews now i s : goes_through (demo_review now i s) = true → demo_step s (snd (demo_review now i s)).
Proof. intros Hrun. destruct (ran (λ _, true) (demo_review now i s) Hrun) as (x & Hx & _). exists Reviews. split; [eapply step_review; exact Hx|done]. Qed.

Lemma demo_projects now i s : goes_through (demo_project now i s) = true → (size (fs_feedback s) ≤ APPLIED_LIMIT)%nat →
  demo_step s (snd (demo_project now i s)).
Proof.
  intros Hrun Hsize. destruct (ran (λ _, true) (demo_project now i s) Hrun) as (x & Hx & _).
  exists (Projects "acme" i). split; [eapply step_project; exact Hx|]. intros r _. etrans; [apply length_approvals|done].
Qed.

Lemma applied_up_reached : rtc demo_step feedback_start applied_up.
Proof.
  apply (rtc_l _ _ sent); [apply demo_sends; vm_compute; reflexivity|].
  apply (rtc_l _ _ decided); [apply demo_reviews; vm_compute; reflexivity|].
  apply rtc_once, demo_projects; [vm_compute; reflexivity|]. apply Nat.leb_le. vm_compute. reflexivity.
Qed.

Lemma flip_follows : rtc demo_step applied_up applied_down.
Proof.
  apply (rtc_l _ _ flipped); [apply demo_sends; vm_compute; reflexivity|].
  apply (rtc_l _ _ redecided); [apply demo_reviews; vm_compute; reflexivity|].
  apply rtc_once, demo_projects; [vm_compute; reflexivity|]. apply Nat.leb_le. vm_compute. reflexivity.
Qed.

Lemma both_votes : rtc demo_step feedback_start applied_down.
Proof. etrans; [exact applied_up_reached|exact flip_follows]. Qed.

Definition stored (i : string) (s : feedback_sys provider MemoryCache) : option Feedback := fs_feedback s !! ("acme", i).
(** A record that is found and passes a test. *)
Lemma found_record i s (p : Feedback → bool) : match stored i s with Some f => p f | None => false end = true →
  ∃ f, stored i s = Some f ∧ p f = true.
Proof. destruct (stored i s) as [f|]; [|done]. intros Hp. by exists f. Qed.

(** After the change of mind one vote of Alice's counts, and only one. *)
Lemma one_vote_counts_witness :
  ∃ f g, stored "fb_up" applied_down = Some f ∧ counts (fs_feedback applied_down) g ∧ ballot g = ballot f ∧
    ∀ h, counts (fs_feedback applied_down) h → ballot h = ballot f → h = g.
Proof.
  destruct (found_record "fb_up" applied_down (λ f, casts f && applied f && bool_decide (feedback_key f = ("acme", "fb_up"))))
    as (f & Hf & Hp); [vm_compute; reflexivity|].
  apply andb_true_iff in Hp as [Hp Hk%bool_decide_eq_true]. apply andb_true_iff in Hp as [Hc Ha].
  pose proof both_votes as Hreach. revert Hreach Hf. generalize applied_down. intros s Hreach Hf.
  destruct (one_vote_counts id_hash 10 60 true id_hash id_hash english id_hash (λ _, "") (λ n, n) feedback_start s
    Hreach eq_refl) as (Hsome & Hone & _).
  destruct (Hsome f) as (g & Hg & Hb); [split; [rewrite Hk; exact Hf|exact Hc]|exact Ha|].
  exists f, g. split_and!; [exact Hf|exact Hg|exact Hb|]. intros h Hh Hbh. apply Hone; [exact Hh|exact Hg|by rewrite Hbh, Hb].
Defined.

Lemma judgements_are_final_witness :
  ∃ f g, stored "fb_up" applied_up = Some f ∧ stored "fb_up" applied_down = Some g ∧ lifecycle f g.
Proof.
  destruct (found_record "fb_up" applied_up (λ _, true)) as (f & Hf & _); [vm_compute; reflexivity|].
  pose proof applied_up_reached as Hto. pose proof flip_follows as Hthen. revert Hf Hto Hthen.
  generalize applied_up applied_down. intros s s' Hf Hto Hthen.
  destruct (judgements_are_final id_hash 10 60 true id_hash id_hash english id_hash (λ _, "") (λ n, n) feedback_start s s'
    eq_refl Hto Hthen ("acme", "fb_up") f Hf) as (g & Hg & Hlc & _).
  exists f, g. split_and!; [exact Hf|exact Hg|exact Hlc].
Defined.

(** The thumbs-up sent again once it was reversed. *)
Definition resent := demo_submit 2000 up applied_down.

Lemma sent_to_flipped : rtc demo_step sent applied_down.
Proof.
  etrans; [|exact flip_follows]. apply (rtc_l _ _ decided); [apply demo_reviews; vm_compute; reflexivity|].
  apply rtc_once, demo_projects; [vm_compute; reflexivity|]. apply Nat.leb_le. vm_compute. reflexivity.
Qed.

Lemma decided_to_flipped : rtc demo_step decided applied_down.
Proof.
  etrans; [|exact flip_follows]. apply rtc_once, demo_projects; [vm_compute; reflexivity|]. apply Nat.leb_le. vm_compute. reflexivity.
Qed.

Lemma first_sent : ∃ x, demo_submit 1000 up feedback_start = (Ok x, sent).
Proof. destruct (ran (λ _, true) (demo_submit 1000 up feedback_start)) as (x & Hx & _); [vm_compute; reflexivity|]. unfold sent. by exists x. Qed.

Lemma first_decided : ∃ x, demo_review 1100 "fb_up" sent = (Ok x, decided).
Proof. destruct (ran (λ _, true) (demo_review 1100 "fb_up" sent)) as (x & Hx & _); [vm_compute; reflexivity|]. unfold decided. by exists x. Qed.

Lemma submit_once_witness :
  ∃ x s, demo_submit 2000 up applied_down = (Ok x, s) ∧ snd x = false ∧ fs_feedback s = fs_feedback applied_down.
Proof.
  destruct first_sent as [x1 Hfirst].
  destruct (ran (λ _, true) (demo_submit 2000 up applied_down)) as (x & Hx & _); [vm_compute; reflexivity|].
  exists x, (snd (demo_submit 2000 up applied_down)).
  pose proof sent_to_flipped as Hsteps. assert (fs_feedback feedback_start = ∅) as Hempty by reflexivity.
  revert Hempty Hfirst Hx Hsteps. generalize feedback_start sent applied_down. intros s1 s2 s3 Hempty Hfirst Hx Hsteps.
  destruct (submit_once id_hash 10 60 true id_hash id_hash english id_hash (λ _, "") (λ n, n) s1 s1 s2 s3
    (snd (demo_submit 2000 up s3)) 1000 alice up false false x1 2000 alice up false false x Hempty (rtc_refl _ _)) as (_ & Hnew & Hsame).
  - intros k g Hg. by rewrite Hempty, lookup_empty in Hg.
  - exact Hfirst.
  - exact Hsteps.
  - reflexivity.
  - reflexivity.
  - exact Hx.
  - split_and!; [exact Hx|exact Hnew|exact Hsame].
Defined.

Lemma review_once_witness :
  ∃ s, review_ (P := provider) (C := MemoryCache) 3000 "acme" "fb_up" false "root" None applied_down =
    (Raise (err Conflict "feedback fb_up is not waiting for review"), s).
Proof.
  destruct first_decided as [x Hx].
  assert (rtc demo_step feedback_start sent) as Hto by (apply rtc_once, demo_sends; vm_compute; reflexivity).
  pose proof decided_to_flipped as Hsteps. revert Hx Hto Hsteps. generalize sent decided applied_down.
  intros s1 s2 s3 Hx Hto Hsteps.
  destruct (review_once id_hash 10 60 true id_hash id_hash english id_hash (λ _, "") (λ n, n) feedback_start s1 eq_refl Hto) as [Hagain _].
  destruct (Hagain 1100 "acme" "fb_up" true "root" None x s2 s3 3000 false "root" None Hx Hsteps) as (s & Hs & _).
  exists s. exact Hs.
Defined.
