(* ===== verification/FeedbackLearning.v ===== *)
(** * FeedbackLearning: what decisions and verdicts teach

    An approval of a tool call counts toward a learned rule only while the run has a
    recorded call no counted approval stands on, and a run's outcome passes only to a
    source that ranks at least as high. Both for every interleaving of the operations
    on feedback with the rest of the program. *)
From Stdlib Require Import QArith Qminmax.
From stdpp Require Import sorting.
From S2P Require Import Prelude Errors Ids Text Context Rebac Visibility Revisions AuthzProvider AuthzService.
From S2P Require Import Cache ScopeCache TenancyRepo TenancyService Tasks Outbox UnitOfWork MemoryModel MemoryRepo MemoryService.
From S2P Require Import Feedback Tools ApproveWhen FeedbackService FeedbackVotes FeedbackSafety.
#[local] Open Scope Z_scope.

(** ** Counted decisions *)

(** Every counted decision of [d'] was one of [d], perhaps in another review state. *)
Definition counted_from (d d' : feedbacks) : Prop :=
  ∀ k f', d' !! k = Some f' → counted f' = true → ∃ f, d !! k = Some f ∧ set_review None f' = set_review None f.

(** Every record of [d] stays in [d'], perhaps in another state. *)
Definition cores_stay (d d' : feedbacks) : Prop := ∀ k f, d !! k = Some f → ∃ f', d' !! k = Some f' ∧ core f' = core f.

(** A change of the table that counts nothing. *)
Definition counts_nothing (d d' : feedbacks) : Prop := counted_from d d' ∧ cores_stay d d' ∧ (keyed d → keyed d').

#[export] Instance counts_nothing_preorder : PreOrder counts_nothing.
Proof.
  split.
  - intros d. split_and!; [intros k f Hf _; by exists f|intros k f Hf; by exists f|done].
  - intros d1 d2 d3 (H12 & S12 & K12) (H23 & S23 & K23). split_and!; [| |by auto].
    + intros k f3 Hf3 Hc. destruct (H23 k f3 Hf3 Hc) as (f2 & Hf2 & Heq). destruct (H12 k f2 Hf2) as (f1 & Hf1 & Heq').
      { change (counted (set_review None f2) = true). by rewrite <- Heq. }
      exists f1. split; [done|congruence].
    + intros k f1 Hf1. destruct (S12 k f1 Hf1) as (f2 & Hf2 & Heq). destruct (S23 k f2 Hf2) as (f3 & Hf3 & Heq').
      exists f3. split; [done|congruence].
Qed.

(** A test of counted decisions that their review does not enter. *)
Definition of_counted (p : Feedback → bool) : Prop := ∀ f, p (set_review None f) = p f ∧ (p f = true → counted f = true).

Lemma chosen_le p d d' : of_counted p → keyed d → keyed d' →
  (∀ k f', d' !! k = Some f' → p f' = true → ∃ f, d !! k = Some f ∧ p f = true) →
  (length (chosen p d') ≤ length (chosen p d))%nat.
Proof.
  intros Hp Hd Hd' Hsub. rewrite <- !(length_fmap feedback_key). apply submseteq_length, NoDup_submseteq; [by apply keyed_chosen|].
  intros k (f' & -> & Hf')%list_elem_of_fmap. apply elem_chosen in Hf' as [Hpf Hf']; [|done].
  destruct (Hsub _ _ Hf' Hpf) as (f & Hf & Hpf'). rewrite <- (Hd _ _ Hf). apply list_elem_of_fmap_2, elem_chosen; [done|].
  by rewrite (Hd _ _ Hf).
Qed.

Lemma counts_nothing_le p d d' : of_counted p → keyed d → counts_nothing d d' → (length (chosen p d') ≤ length (chosen p d))%nat.
Proof.
  intros Hp Hd (Hc & _ & Hk). apply chosen_le; [done|done|by apply Hk|]. intros k f' Hf' Hpf. destruct (Hc k f' Hf') as (f & Hf & Heq); [by apply Hp|].
  exists f. split; [done|]. rewrite <- (proj1 (Hp f)), <- Heq, (proj1 (Hp f')). done.
Qed.

Lemma nothing_added d f : d !! feedback_key f = None → counted f = false → counts_nothing d (<[feedback_key f := f]> d).
Proof.
  intros Hn Hf. split_and!.
  - intros k g. rewrite lookup_insert_Some. intros [[<- <-]|[_ Hg]] Hc; [congruence|by exists g].
  - intros k g Hg. rewrite lookup_insert_ne by congruence. by exists g.
  - intros Hd k g. rewrite lookup_insert_Some. intros [[<- <-]|[_ Hg]]; [done|by apply Hd].
Qed.

(** Changing the review or the projection of one record. *)
Lemma alter_keyed (d : feedbacks) h k : (∀ f, feedback_key (h f) = feedback_key f) → keyed d → keyed (alter h k d).
Proof.
  intros Hh Hd j g. rewrite lookup_alter_Some. intros [(<- & f & Hf & ->)|[_ Hg]]; [|by apply Hd]. rewrite Hh. by apply Hd.
Qed.

Lemma alter_cores (d : feedbacks) h k : (∀ f, core (h f) = core f) → cores_stay d (alter h k d).
Proof.
  intros Hh j f Hf. destruct (decide (k = j)) as [<-|Hne].
  - exists (h f). by rewrite lookup_alter_eq, Hf.
  - exists f. by rewrite lookup_alter_ne.
Qed.

Lemma nothing_reviewed d k v : counts_nothing d (alter (set_review v) k d).
Proof.
  split_and!; [|by apply alter_cores|by apply alter_keyed]. intros j g. rewrite lookup_alter_Some.
  intros [(<- & f & Hf & ->)|[_ Hg]]; [by exists f|by eauto].
Qed.

Lemma nothing_closed d k p : pj_action p ≠ TOOL_CALL_COUNTED → counts_nothing d (alter (set_projection (Some p)) k d).
Proof.
  intros Hp. split_and!; [|by apply alter_cores|by apply alter_keyed]. intros j g. rewrite lookup_alter_Some.
  intros [(<- & f & Hf & ->)|[_ Hg]]; [|by eauto]. unfold counted. cbn. by rewrite bool_decide_eq_true.
Qed.

(** One record more at most. *)
Lemma chosen_alter (q : Feedback → bool) (d : feedbacks) h k : keyed d → (∀ f, feedback_key (h f) = feedback_key f) →
  (length (chosen q (alter h k d)) ≤ S (length (chosen q d)))%nat.
Proof.
  intros Hd Hh. pose proof (alter_keyed d h k Hh Hd) as Hd'. rewrite <- !(length_fmap feedback_key).
  change (S (length (feedback_key <$> chosen q d))) with (length (k :: (feedback_key <$> chosen q d))).
  apply submseteq_length, NoDup_submseteq; [by apply keyed_chosen|]. intros j (f & -> & Hf)%list_elem_of_fmap.
  apply elem_chosen in Hf as [Hq Hf]; [|done]. apply elem_of_cons. destruct (decide (feedback_key f = k)) as [|Hne]; [by left|right].
  rewrite lookup_alter_ne in Hf by done. apply list_elem_of_fmap_2, elem_chosen; done.
Qed.

Lemma chosen_alter_not (q : Feedback → bool) (d : feedbacks) h k : keyed d → (∀ f, feedback_key (h f) = feedback_key f) →
  (∀ f, d !! k = Some f → q (h f) = false) → (length (chosen q (alter h k d)) ≤ length (chosen q d))%nat.
Proof.
  intros Hd Hh Hq. pose proof (alter_keyed d h k Hh Hd) as Hd'. rewrite <- !(length_fmap feedback_key).
  apply submseteq_length, NoDup_submseteq; [by apply keyed_chosen|]. intros j (f & -> & Hf)%list_elem_of_fmap.
  apply elem_chosen in Hf as [Hqf Hf]; [|done]. apply list_elem_of_fmap_2, elem_chosen; [done|]. split; [done|].
  apply lookup_alter_Some in Hf as [(Hk & g & Hg & ->)|[_ Hf]]; [|done]. rewrite (Hq g) in Hqf; [done|by rewrite Hk].
Qed.

(** ** Recorded calls *)

(** A call of a tool with its arguments, by an agent in a run. *)
Record tool_call := {
  tc_tenant : string;
  tc_run : string;
  tc_agent : option string;
  tc_tool : string;
  tc_args : string;
}.

Definition calls_made (c : tool_call) (d : tool_tables) : nat :=
  length (filter (λ i, iv_tenant i = tc_tenant c ∧ iv_run i = Some (tc_run c) ∧ iv_agent i = tc_agent c
                       ∧ iv_tool_name i = tc_tool c ∧ iv_args_hash i = tc_args c) (cr_call <$> rows (tt_calls d))).

(** The same calls, whatever was learned from them. *)
Definition same_calls (d d' : tool_tables) : Prop := ∀ c, calls_made c d' = calls_made c d.

#[export] Instance same_calls_preorder : PreOrder same_calls.
Proof. split; [done|]. intros d1 d2 d3 H12 H23 c. by rewrite H23, H12. Qed.

Lemma learned_calls at_ p (m : gmap string call_row) : cr_call <$> rows (learned_row at_ p <$> m) ≡ₚ cr_call <$> rows m.
Proof.
  unfold rows. rewrite map_to_list_fmap, <- !list_fmap_compose.
  match goal with |- ?x <$> _ ≡ₚ ?y <$> _ => assert (x <$> map_to_list m = y <$> map_to_list m) as ->; [|done] end.
  apply list_fmap_ext. intros i [k r] _. unfold learned_row. cbn. by destruct (p (cr_call r)).
Qed.

Lemma outcome_calls o d : same_calls d (snd (set_outcome o d)).
Proof. intros c. unfold calls_made. cbn [set_outcome modify snd tt_calls set_calls]. by rewrite learned_calls. Qed.

(** Steps through a program that keeps a relation. *)
Ltac keeping :=
  repeat first
    [ progress cbv zeta
    | solve [auto 1 with keeps]
    | apply within_mapM; [apply _|intros ?]
    | apply within_bind; [apply _| |intros ?]
    | match goal with |- within _ (match ?x with _ => _ end) => destruct x end ].

Section learning.
Context {P C : Type} `{AuthorizationLaws P} `{CacheLaws C} `{Codec AuthorizedScope}.
Variable blake2b : string → string.
Variable max_listed : nat.
Variable cache_ttl : Z.
Variable decision_cache : bool.
Variable content_hash : string → string.
Variable normalized_hash : string → string.
Variable detect_language : string → string.
Variable sha : string → string.
Variable py_repr : json → string.
Variable magnitude : Z → Z.

Abbreviation sys := (feedback_sys P C).
Abbreviation fprog A := (prog sys A).

(** ** What counts no decision *)

Definition teaches_nothing (s s' : sys) : Prop :=
  counts_nothing (fs_feedback s) (fs_feedback s') ∧ same_calls (fs_tools s) (fs_tools s').

#[local] Instance teaches_nothing_preorder : PreOrder teaches_nothing.
Proof.
  split; [intros s; split; reflexivity|]. intros s1 s2 s3 [F12 T12] [F23 T23]. split; [by etrans|by etrans].
Qed.

Abbreviation inert := (within (E := exn) (S := sys) teaches_nothing).

Lemma inert_memory {A} (m : prog (memory_sys P C) A) : inert (in_memory m).
Proof. intros s. unfold in_memory, zoom. destruct (m (fs_memory s)). split; reflexivity. Qed.

Lemma inert_repo {A} (m : mprog A) : inert (in_repo m).
Proof. apply inert_memory. Qed.

Lemma inert_feedback {A} (m : fbprog A) : within counts_nothing m → inert (in_feedback m).
Proof.
  intros Hm s. pose proof (Hm (fs_feedback s)) as Hs. unfold in_feedback, zoom. destruct (m (fs_feedback s)). by split.
Qed.

Lemma inert_tools {A} (m : tprog A) : within same_calls m → inert (in_tools m).
Proof.
  intros Hm s. pose proof (Hm (fs_tools s)) as Hs. unfold in_tools, zoom. destruct (m (fs_tools s)). by split.
Qed.
Hint Resolve inert_memory inert_repo : keeps.

Lemma inert_read {A} (g : feedbacks → A) : inert (in_feedback (gets g)).
Proof. apply inert_feedback. intros d. reflexivity. Qed.

Lemma inert_read_tools {A} (g : tool_tables → A) : inert (in_tools (gets g)).
Proof. apply inert_tools. intros d. reflexivity. Qed.

Lemma inert_review t i v : inert (in_feedback (update_review t i v)).
Proof. apply inert_feedback. intros d. apply nothing_reviewed. Qed.

Lemma inert_nothing t i reason m r now : inert (in_feedback (update_projection t i (nothing_done reason m r now))).
Proof. apply inert_feedback. intros d. by apply nothing_closed. Qed.
Hint Resolve inert_read inert_read_tools inert_review inert_nothing : keeps.

Lemma inert_outcome o : inert (in_tools (set_outcome o)).
Proof. apply inert_tools. intros d. apply outcome_calls. Qed.

Lemma inert_verdict t tool counter : inert (in_tools (count_verdict t tool counter)).
Proof. apply inert_tools. intros d. unfold count_verdict. by destruct (is_counter counter). Qed.

Lemma inert_approval t agent tool shape counter : inert (in_tools (count_approval t agent tool shape counter)).
Proof. apply inert_tools. intros d. unfold count_approval. by destruct (is_counter counter). Qed.

Lemma inert_reject now t i : inert (in_tools (reject_procedure now t i)).
Proof. apply inert_tools. intros d. unfold reject_procedure. by case_match. Qed.

Lemma inert_restore now t i : inert (in_tools (restore_procedure now t i)).
Proof. apply inert_tools. intros d. unfold restore_procedure. by repeat case_match. Qed.
Hint Resolve inert_outcome inert_verdict inert_approval inert_reject inert_restore : keeps.

Lemma inert_locks keys : inert (locks keys).
Proof. unfold locks. keeping. Qed.
Hint Resolve inert_locks : keeps.

Lemma inert_enqueue now job : inert (enqueue_job now job).
Proof. unfold enqueue_job. keeping. Qed.
Hint Resolve inert_enqueue : keeps.

Lemma inert_schedule now r attempt : inert (_schedule now r attempt).
Proof. unfold _schedule. keeping. Qed.

Lemma inert_reindex now l : inert (_reindex content_hash now l).
Proof. unfold _reindex. keeping. Qed.
Hint Resolve inert_schedule inert_reindex : keeps.

Lemma inert_admit now ctx f : inert (_admit blake2b max_listed cache_ttl decision_cache now ctx f).
Proof. unfold _admit, _authorize_memory_verdict, read_memory, admin. keeping. Qed.

Lemma inert_needs_review ctx r trusted run_vouched : inert (_needs_review ctx r trusted run_vouched).
Proof. unfold _needs_review, admin. keeping. Qed.

Lemma inert_backed r : inert (_backed sha r).
Proof. unfold _backed, _recorded, invocations_for_run. keeping. Qed.

Lemma inert_replace vote by_ : inert (_replace_earlier_votes vote by_).
Proof. unfold _replace_earlier_votes, pending_on, replace_one, get_feedback. keeping. Qed.
Hint Resolve inert_admit inert_needs_review inert_backed inert_replace : keeps.

Lemma inert_count_once vote : inert (_count_once vote).
Proof. unfold _count_once, _applied_vote, applied_votes. keeping. Qed.

Lemma inert_decide now r approve by_ note : inert (_decide now r approve by_ note).
Proof. unfold _decide. keeping. Qed.
Hint Resolve inert_count_once inert_decide : keeps.

Lemma inert_adjust now t ids step n : inert (_adjust content_hash detect_language now t ids step n).
Proof. unfold _adjust. keeping. Qed.
Hint Resolve inert_adjust : keeps.

Lemma inert_reverse now f p : inert (_reverse content_hash detect_language now f p).
Proof. unfold _reverse, _lift_retraction, bump_tenant. keeping. Qed.

Lemma inert_project_one now new_id r : inert (_project content_hash normalized_hash detect_language sha py_repr magnitude now new_id r).
Proof.
  unfold _project, _project_memory, _reinforce, _retract, _correct, _project_run, _label_run, _adjust_cited, _project_tool_call,
    _project_procedure, bump_tenant, _counted_before, list_for, page, _spent, counted_decisions, _recorded, invocations_for_run, outcome.
  keeping.
Qed.
Hint Resolve inert_reverse inert_project_one : keeps.

Lemma inert_settle now r : inert (_settle_earlier now r).
Proof.
  unfold _settle_earlier, applied_votes. apply within_bind; [apply _|auto with keeps|intros l]. generalize (@None Feedback).
  induction (filter _ l) as [|f k IH]; intros a; cbn [settle_votes]; [auto with keeps|]. destruct (fb_projection f); [apply IH|].
  apply within_bind; [apply _|auto with keeps|intros _; apply IH].
Qed.
Hint Resolve inert_settle : keeps.

(** ** An approval and the calls it stands on *)

(** The counted approvals of a call. *)
Definition approves_call (c : tool_call) (f : Feedback) : bool :=
  counted f && _approves f
  && bool_decide (fb_tenant f = tc_tenant c ∧ fb_run f = Some (tc_run c) ∧ fb_agent f = tc_agent c
                  ∧ meta "tool" f = JStr (tc_tool c) ∧ stable_hash sha (meta "args" f) = tc_args c).

Definition approvals_of (c : tool_call) (d : feedbacks) : list Feedback := chosen (approves_call c) d.

(** The decisions [_spent] reads, all of them. *)
Definition decisions_like (r : Feedback) (d : feedbacks) : list Feedback :=
  chosen (λ f, bool_decide (fb_tenant f = fb_tenant r ∧ fb_kind f = KToolCall ∧ default "" (fb_agent f) = default "" (fb_agent r)
                            ∧ astext (jget "tool" (fb_metadata f)) = Some (py_text py_repr (meta "tool" r))) && counted f) d.

Definition call_decided (r : Feedback) (run tool : string) : tool_call :=
  {| tc_tenant := fb_tenant r; tc_run := run; tc_agent := fb_agent r; tc_tool := tool; tc_args := stable_hash sha (meta "args" r) |}.

Lemma approves_call_counted c : of_counted (approves_call c).
Proof. intros f. split; [done|]. unfold approves_call. rewrite !andb_true_iff. by intros [[? _] _]. Qed.

Lemma calls_perm {A} (p : A → Prop) `{∀ x, Decision (p x)} (q : A → bool) (R : A → A → Prop) `{∀ x y, Decision (R x y)} l :
  length (filter p (merge_sort R (filter (λ x, q x = true) l))) = length (filter (λ x, p x ∧ q x = true) l).
Proof. rewrite merge_sort_Permutation. by rewrite list_filter_filter. Qed.

Lemma recorded_calls r run tool (s : sys) n s' : fb_run r = Some run → meta "tool" r = JStr tool → _recorded sha r s = (Ok n, s') →
  n = calls_made (call_decided r run tool) (fs_tools s) ∧ s' = s.
Proof.
  intros Hrun Htool Hr. unfold _recorded in Hr. rewrite Hrun in Hr. apply bind_Ok_inv in Hr as (calls & s1 & Hc & Hr).
  assert (s1 = s) as -> by (unfold in_tools, zoom, invocations_for_run, gets in Hc; injection Hc as _ <-; by destruct s).
  injection Hc as <-. injection Hr as <- <-. split; [|done]. unfold calls_of, ordered. rewrite calls_perm. unfold calls_made.
  f_equal. apply list_filter_iff. intros i. rewrite Htool. cbn. rewrite andb_true_r, bool_decide_eq_true. split; [|naive_solver].
  intros ((? & ? & ?) & ? & ?). split_and!; try done. congruence.
Qed.

Lemma recorded_some r (s : sys) n s' : _recorded sha r s = (Ok n, s') → (0 < n)%nat → ∃ tool, meta "tool" r = JStr tool.
Proof.
  intros Hr Hn. unfold _recorded in Hr. apply bind_Ok_inv in Hr as (calls & s1 & _ & Hr). injection Hr as <- _.
  destruct (filter _ calls) as [|i l] eqn:Hl; [cbn in Hn; lia|]. assert (i ∈ i :: l) as Hi by by left. rewrite <- Hl in Hi.
  apply list_elem_of_filter in Hi as [(_ & Hi & _) _]. by exists (iv_tool_name i).
Qed.

(** The counted approvals of the decided call are among the decisions [_spent] finds. *)
Lemma approvals_found r run tool d : keyed d → fb_run r = Some run → meta "tool" r = JStr tool →
  (length (decisions_like r d) ≤ APPROVAL_DECISIONS_READ)%nat →
  (length (approvals_of (call_decided r run tool) d) ≤
   length (filter (λ f, same_call sha r f = true) (ordered newest (Some APPROVAL_DECISIONS_READ) (decisions_like r d))))%nat.
Proof.
  intros Hd Hrun Htool Hfew. rewrite <- !(length_fmap feedback_key). apply submseteq_length, NoDup_submseteq; [by apply keyed_chosen|].
  intros k (f & -> & Hf)%list_elem_of_fmap. apply list_elem_of_fmap_2, list_elem_of_filter.
  apply elem_chosen in Hf as [Hf Hfd]; [|done]. unfold approves_call, call_decided in Hf. cbn in Hf. rewrite !andb_true_iff in Hf.
  destruct Hf as [[Hc Ha] (Ht & Hfr & Hag & Hmt & Hh)%bool_decide_eq_true]. split.
  - unfold same_call. rewrite Ha, Hrun, Hfr, Hh. by rewrite !bool_decide_eq_true_2.
  - apply elem_of_ordered; [by intros n [= <-]|]. apply elem_chosen; [done|]. split; [|done]. rewrite Hc, andb_true_r, bool_decide_eq_true.
    unfold _approves in Ha. apply andb_true_iff in Ha as [Hk%bool_decide_eq_true _]. split_and!; [done|done|by rewrite Hag|].
    rewrite Htool. cbn. unfold meta in Hmt. destruct (jget "tool" (fb_metadata f)) as [j|]; cbn in *; [by rewrite Hmt|done].
Qed.

(** A counted approval finds a recorded call to stand on. *)
Lemma counted_is_backed now r (s : sys) p s' : keyed (fs_feedback s) →
  (length (decisions_like r (fs_feedback s)) ≤ APPROVAL_DECISIONS_READ)%nat →
  _project_tool_call sha py_repr magnitude now r s = (Ok p, s') → pj_action p = TOOL_CALL_COUNTED → _approves r = true →
  ∃ run tool, fb_run r = Some run ∧ meta "tool" r = JStr tool ∧
    (length (approvals_of (call_decided r run tool) (fs_feedback s)) < calls_made (call_decided r run tool) (fs_tools s))%nat.
Proof.
  intros Hd Hfew Hrun Hp Ha. unfold _project_tool_call in Hrun. cbv zeta in Hrun. rewrite Ha in Hrun.
  destruct (bool_decide _); [by injection Hrun as <- _|]. destruct (negb _) eqn:Hwho; [by injection Hrun as <- _|].
  apply negb_false_iff in Hwho. rewrite !andb_true_iff in Hwho. destruct Hwho as [[Hr _] _].
  destruct (fb_run r) as [run|] eqn:Hrr; [|done].
  apply bind_Ok_inv in Hrun as (before_ & s1 & Hb & Hrun).
  assert (s1 = s) as ->. { unfold _counted_before in Hb. apply bind_Ok_inv in Hb as (l & s2 & [-> ->]%gets_run & Hb). by injection Hb. }
  destruct before_; [by injection Hrun as <- _|]. apply bind_Ok_inv in Hrun as (backed & s1 & Hbk & Hrun).
  destruct backed; [|by injection Hrun as <- _]. cbn [negb] in Hrun.
  unfold _backed in Hbk. destruct (negb _ || negb _); [done|]. apply bind_Ok_inv in Hbk as (n & s2 & Hn & Hbk).
  injection Hbk as Hn0 ->. apply Nat.ltb_lt in Hn0. destruct (recorded_some _ _ _ _ Hn Hn0) as [tool Htool].
  destruct (recorded_calls r run tool s n s1 Hrr Htool Hn) as [_ ->]. exists run, tool. split_and!; [done..|].
  apply bind_Ok_inv in Hrun as (spent & s1 & Hsp & Hrun). destruct spent; [by injection Hrun as <- _|].
  unfold _spent in Hsp. apply bind_Ok_inv in Hsp as (u & s2 & Hl & Hsp).
  pose proof (within_run teaches_nothing _ _ _ _ (inert_locks _) Hl) as [_ Hcalls].
  apply (leaves_run fs_feedback) in Hl; [|apply quiet_locks]. apply bind_Ok_inv in Hsp as (m & s3 & Hm & Hsp).
  destruct (recorded_calls r run tool s2 m s3 Hrr Htool Hm) as [-> ->].
  apply bind_Ok_inv in Hsp as (l & s3 & [-> ->]%gets_run & Hsp). injection Hsp as Hle _. apply Nat.leb_gt in Hle.
  rewrite Hl, Hcalls in Hle. eapply Nat.le_lt_trans; [|exact Hle]. by apply approvals_found.
Qed.

Lemma decisions_like_counted r : of_counted (λ f, bool_decide (fb_tenant f = fb_tenant r ∧ fb_kind f = KToolCall
  ∧ default "" (fb_agent f) = default "" (fb_agent r)
  ∧ astext (jget "tool" (fb_metadata f)) = Some (py_text py_repr (meta "tool" r))) && counted f).
Proof. intros f. split; [done|]. by intros [_ ?]%andb_true_iff. Qed.

Abbreviation applying := (apply_record content_hash normalized_hash detect_language sha py_repr magnitude).

(** What applying a record teaches. *)
Definition backed_by (r : Feedback) (s : sys) : Prop :=
  ∃ run tool, fb_run r = Some run ∧ meta "tool" r = JStr tool ∧
    (length (approvals_of (call_decided r run tool) (fs_feedback s)) < calls_made (call_decided r run tool) (fs_tools s))%nat.

Lemma project_one_backed now new_id r (s s1 : sys) p s' : teaches_nothing s s1 → keyed (fs_feedback s) →
  (length (decisions_like r (fs_feedback s)) ≤ APPROVAL_DECISIONS_READ)%nat →
  _project content_hash normalized_hash detect_language sha py_repr magnitude now new_id r s1 = (Ok p, s') →
  teaches_nothing s s' ∧ (pj_action p = TOOL_CALL_COUNTED → _approves r = true → backed_by r s').
Proof.
  intros Hs Hd Hfew Hrun. pose proof (within_run teaches_nothing _ _ _ _ (inert_project_one now new_id r) Hrun) as Hs'.
  split; [by etrans|]. intros Hp Ha. pose proof Ha as [Hk%bool_decide_eq_true _]%andb_true_iff. unfold _project in Hrun. rewrite Hk in Hrun.
  assert (keyed (fs_feedback s1)) as Hd1 by by apply Hs.
  apply counted_is_backed in Hrun as (run & tool & Hr & Ht & Hlt); [|done| |done|done].
  - exists run, tool. split_and!; [done..|]. rewrite (proj2 Hs'). eapply Nat.le_lt_trans; [|exact Hlt].
    apply counts_nothing_le; [apply approves_call_counted|done|apply Hs'].
  - etrans; [|exact Hfew]. apply counts_nothing_le; [apply decisions_like_counted|done|apply Hs].
Qed.

Lemma apply_record_backed now new_id r (s : sys) p s' : keyed (fs_feedback s) →
  (length (decisions_like r (fs_feedback s)) ≤ APPROVAL_DECISIONS_READ)%nat → applying now new_id r s = (Ok p, s') →
  teaches_nothing s s' ∧ (pj_action p = TOOL_CALL_COUNTED → _approves r = true → backed_by r s').
Proof.
  intros Hd Hfew Hrun. unfold apply_record in Hrun. destruct (_ && _); [|by eapply (project_one_backed now new_id r s s)].
  unfold _project_vote in Hrun. destruct (voter_key _ _); [|by eapply (project_one_backed now new_id r s s)].
  apply bind_Ok_inv in Hrun as (u & s1 & Hl & Hrun). pose proof (within_run teaches_nothing _ _ _ _ (inert_locks _) Hl) as Hs1.
  apply bind_Ok_inv in Hrun as (prior & s2 & Hse & Hrun). pose proof (within_run teaches_nothing _ _ _ _ (inert_settle _ _) Hse) as Hs2.
  assert (teaches_nothing s s2) as Hs by (by etrans).
  assert (∀ i s3, teaches_nothing s s3 → bind (_project content_hash normalized_hash detect_language sha py_repr magnitude now new_id r)
            (λ q, ret (with_reversed i q)) s3 = (Ok p, s') →
          teaches_nothing s s' ∧ (pj_action p = TOOL_CALL_COUNTED → _approves r = true → backed_by r s')) as Hdone.
  { intros i s3 Hs3 Hq. apply bind_Ok_inv in Hq as (q & s4 & Hq & [= <- <-]). by apply (project_one_backed now new_id r s s3 q). }
  destruct prior as [f|]; [|by apply Hdone in Hrun]. destruct (same_thumb f r); [by injection Hrun as <- <-|].
  apply bind_Ok_inv in Hrun as (u2 & s3 & Hrv & Hrun). apply Hdone in Hrun; [done|]. etrans; [exact Hs|].
  destruct (fb_projection f); [|done]. apply (within_run teaches_nothing _ _ _ _ (inert_reverse _ _ _) Hrv).
Qed.

(** Every counted approval stands on a recorded call of its own. *)
Definition approvals_backed (s : sys) : Prop :=
  keyed (fs_feedback s) ∧ ∀ c, (length (approvals_of c (fs_feedback s)) ≤ calls_made c (fs_tools s))%nat.

Lemma inert_backs s s' : teaches_nothing s s' → approvals_backed s → approvals_backed s'.
Proof.
  intros [Hf Hc] [Hd Hb]. split; [by apply Hf|]. intros c. rewrite Hc. etrans; [|apply Hb].
  by apply counts_nothing_le; [apply approves_call_counted| |].
Qed.

Lemma core_facts (f r : Feedback) p : core f = core r → let g := set_projection (Some p) f in
  _approves g = _approves r ∧ fb_tenant g = fb_tenant r ∧ fb_run g = fb_run r ∧ fb_agent g = fb_agent r ∧
  meta "tool" g = meta "tool" r ∧ meta "args" g = meta "args" r.
Proof.
  intros Hc g. assert (set_review None (set_projection None g) = core r) as Hg by (by rewrite <- Hc).
  pose proof (f_equal fb_kind Hg) as H1'. pose proof (f_equal fb_verdict Hg) as H2'. pose proof (f_equal fb_metadata Hg) as H3'.
  pose proof (f_equal fb_tenant Hg). pose proof (f_equal fb_run Hg). pose proof (f_equal fb_agent Hg). cbn in *.
  subst g. unfold _approves, meta. cbn. rewrite H1', H2', H3'. done.
Qed.

(** The last write of a projection. *)
Lemma written_backs r p t i (s s' : sys) : approvals_backed s → in_feedback (update_projection t i p) s = (Ok tt, s') →
  (∀ f, fs_feedback s !! (t, i) = Some f → core f = core r) →
  (pj_action p = TOOL_CALL_COUNTED → _approves r = true → backed_by r s) → approvals_backed s'.
Proof.
  intros [Hd Hb] [_ ->]%projection_run Hcore Hback. split; [by apply alter_keyed|]. intros c. cbn [fs_feedback fs_tools].
  destruct (fs_feedback s !! (t, i)) as [f|] eqn:Hf.
  2: { etrans; [|apply Hb]. apply chosen_alter_not; [done|done|]. intros f. by rewrite Hf. }
  destruct (approves_call c (set_projection (Some p) f)) eqn:Hq.
  2: { etrans; [|apply Hb]. apply chosen_alter_not; [done|done|]. intros g. rewrite Hf. by intros [= <-]. }
  unfold approves_call in Hq. destruct (core_facts f r p (Hcore f eq_refl)) as (Ha & Ht & Hr & Hg & Htool & Hargs). cbv zeta in *.
  rewrite Ha, Ht, Hr, Hg, Htool, Hargs, !andb_true_iff in Hq. destruct Hq as [[Hc Hap] Hq%bool_decide_eq_true].
  destruct Hback as (run & tool & Hrun & Htl & Hlt); [by apply bool_decide_eq_true in Hc|done|].
  assert (c = call_decided r run tool) as ->. { destruct c. unfold call_decided. cbn in *. destruct Hq as (? & ? & ? & ? & ?). f_equal; congruence. }
  etrans; [by apply chosen_alter|]. exact Hlt.
Qed.

Abbreviation projecting_job := (project content_hash normalized_hash detect_language sha py_repr magnitude).

Lemma project_backs now new_id t i attempt (s : sys) x s' : approvals_backed s →
  (∀ r, fs_feedback s !! (t, i) = Some r → (length (decisions_like r (fs_feedback s)) ≤ APPROVAL_DECISIONS_READ)%nat) →
  projecting_job now new_id t i attempt s = (Ok x, s') → approvals_backed s'.
Proof.
  intros Hb Hfew Hrun. unfold project in Hrun. apply bind_Ok_inv in Hrun as (u & s1 & Hl & Hrun).
  pose proof (within_run teaches_nothing _ _ _ _ (inert_locks _) Hl) as Hs1. apply (leaves_run fs_feedback) in Hl; [|apply quiet_locks].
  apply (inert_backs _ _ Hs1) in Hb. clear Hs1. rewrite <- Hl in Hfew. clear Hl s.
  apply bind_Ok_inv in Hrun as (found & s & [-> ->]%get_run & Hrun).
  destruct (fs_feedback s1 !! (t, i)) as [r|] eqn:Hr; [|by injection Hrun as _ <-].
  destruct (fb_projection r); [by injection Hrun as _ <-|]. destruct (pending r); [by injection Hrun as _ <-|].
  apply bind_Ok_inv in Hrun as (wait & s2 & Hw & Hrun).
  assert (teaches_nothing s1 s2) as Hs2. { eapply (within_run teaches_nothing); [|exact Hw]. destruct (_ && _); keeping. }
  destruct wait.
  { apply bind_Ok_inv in Hrun as (v & s3 & Hsc & [= _ <-]). apply (inert_backs s1); [|done]. etrans; [exact Hs2|].
    apply (within_run teaches_nothing _ _ _ _ (inert_schedule _ _ _) Hsc). }
  apply bind_Ok_inv in Hrun as (v & s3 & Hlk & Hrun).
  assert (teaches_nothing s1 s3) as Hs3. { etrans; [exact Hs2|]. eapply (within_run teaches_nothing); [|exact Hlk]. destruct (bool_decide _); keeping. }
  apply bind_Ok_inv in Hrun as (p & s4 & Happ & Hrun). apply bind_Ok_inv in Hrun as ([] & s5 & Hup & [= _ <-]).
  apply (inert_backs _ _ Hs3) in Hb as Hb3. apply apply_record_backed in Happ as [Hs4 Hback]; [|apply Hb3|].
  - eapply (written_backs r p t i s4); [by apply (inert_backs _ _ Hs4)|exact Hup| |exact Hback].
    intros f Hf. destruct Hs3 as [(_ & Hst3 & _) _], Hs4 as [(_ & Hst4 & _) _]. destruct (Hst3 _ _ Hr) as (r3 & Hr3 & Hc3).
    destruct (Hst4 _ _ Hr3) as (r4 & Hr4 & Hc4). congruence.
  - etrans; [|by apply Hfew]. apply counts_nothing_le; [apply decisions_like_counted|apply Hb|apply Hs3].
Qed.

Lemma inert_add f : counted f = false → inert (in_feedback (add_feedback f)).
Proof.
  intros Hf. apply inert_feedback. intros d. unfold add_feedback. destruct (d !! feedback_key f) eqn:Hd; [reflexivity|].
  by apply nothing_added.
Qed.

Lemma count_once_uncounted vote (s : sys) x s' : counted vote = false → _count_once vote s = (Ok x, s') → counted x = false.
Proof.
  intros Hv Hrun. unfold _count_once in Hrun. apply bind_Ok_inv in Hrun as (c & s1 & _ & Hrun).
  destruct c as [c|]; [destruct (same_thumb c vote)|]; apply bind_Ok_inv in Hrun as (u & s2 & _ & Hrun); by injection Hrun as <- <-.
Qed.

Lemma inert_submit now ctx f trusted run_vouched :
  inert (submit blake2b max_listed cache_ttl decision_cache now ctx f trusted run_vouched).
Proof.
  unfold submit, get_feedback. apply within_bind; [apply _|auto with keeps|intros _]. cbv zeta.
  apply within_bind; [apply _|keeping|intros _]. apply within_bind; [apply _|auto with keeps|intros [e|]]; [auto with keeps|].
  apply within_bind; [apply _|auto with keeps|intros review].
  apply (within_bind_when _ (λ stored, counted stored = false)).
  - destruct (_ && _); auto with keeps.
  - intros s a s'. destruct (_ && _); [apply count_once_uncounted; by destruct review|]. intros [= <- _]. by destruct review.
  - intros stored Hs. apply within_bind; [apply _|by apply inert_add|intros _]. keeping.
Qed.

Lemma inert_review_one now t i approve by_ note : inert (review_ now t i approve by_ note).
Proof. unfold review_, get_feedback. keeping. Qed.

Lemma inert_read_all t ids : inert (read_all t ids).
Proof.
  induction ids as [|i ids IH]; cbn [read_all]; [auto with keeps|]. unfold get_feedback.
  apply within_bind; [apply _|auto with keeps|intros r]. apply within_bind; [apply _|done|intros l]. auto with keeps.
Qed.

Lemma inert_decide_all now l approve by_ note : inert (decide_all now l approve by_ note).
Proof.
  induction l as [|f l IH]; cbn [decide_all]; [auto with keeps|]. destruct (pending f).
  - apply within_bind; [apply _|auto with keeps|intros d]. apply within_bind; [apply _|done|intros x]. auto with keeps.
  - apply within_bind; [apply _|done|intros x]. auto with keeps.
Qed.
Hint Resolve inert_read_all inert_decide_all : keeps.

Lemma inert_review_many now t w approve by_ note : inert (review_many now t w approve by_ note).
Proof. unfold review_many, ids_to_review, pending_on. keeping. Qed.

(** ** The transition system

    The operations on feedback, and everything else: recording calls, which are
    never unrecorded. *)
Inductive learning_step : feedback_event → sys → sys → Prop :=
| learn_submit now ctx f trusted run_vouched x s s' :
    submit blake2b max_listed cache_ttl decision_cache now ctx f trusted run_vouched s = (Ok x, s') →
    learning_step (Submits now (fb_target f)) s s'
| learn_review now t i approve by_ note x s s' : review_ now t i approve by_ note s = (Ok x, s') → learning_step Reviews s s'
| learn_review_many now t w approve by_ note x s s' : review_many now t w approve by_ note s = (Ok x, s') → learning_step Reviews s s'
| learn_project now new_id t i attempt x s s' : projecting_job now new_id t i attempt s = (Ok x, s') → learning_step (Projects t i) s s'
| learn_elsewhere s s' : fs_feedback s' = fs_feedback s → (∀ c, (calls_made c (fs_tools s) ≤ calls_made c (fs_tools s'))%nat) →
    learning_step Elsewhere s s'.

(** What the code relies on and does not enforce: a projection reads every counted
    decision of its agent on its tool, of which there are at most
    [APPROVAL_DECISIONS_READ]. *)
Definition reads_all (e : feedback_event) (d : feedbacks) : Prop :=
  match e with
  | Projects t i => ∀ r, d !! (t, i) = Some r → (length (decisions_like r d) ≤ APPROVAL_DECISIONS_READ)%nat
  | Submits _ _ | Reviews | Elsewhere => True
  end.

(** The steps taken while it holds. *)
Definition learns (s s' : sys) : Prop := ∃ e, learning_step e s s' ∧ reads_all e (fs_feedback s).

Lemma learning_backed s s' : learns s s' → approvals_backed s → approvals_backed s'.
Proof.
  intros (e & Hstep & Hin). destruct Hstep as [now ctx f trusted run_vouched x s s' Hrun|now t i approve by_ note x s s' Hrun
    |now t w approve by_ note x s s' Hrun|now new_id t i attempt x s s' Hrun|s s' Heq Hcalls]; cbn [reads_all] in Hin.
  - apply inert_backs. by apply (within_run _ _ _ _ _ (inert_submit _ _ _ _ _) Hrun).
  - apply inert_backs. by apply (within_run _ _ _ _ _ (inert_review_one _ _ _ _ _ _) Hrun).
  - apply inert_backs. by apply (within_run _ _ _ _ _ (inert_review_many _ _ _ _ _ _) Hrun).
  - intros Hb. by eapply project_backs.
  - intros [Hd Hb]. split; [by rewrite Heq|]. intros c. rewrite Heq. etrans; [apply Hb|apply Hcalls].
Qed.

(** C7: A recorded call backs one counted approval, as long as every projection finds
    at most [APPROVAL_DECISIONS_READ] (500) counted decisions of its agent on its tool,
    which is all [_spent] reads. Whatever is submitted, reviewed and projected in that
    way while calls are being recorded, the approvals counted for a tool with some
    arguments, by an agent in a run, are never more than the calls of it that the agent
    recorded in that run: an approval rule is not learned from approvals of calls that
    were not made. *)
Theorem each_call_backs_one_approval s s' : rtc learns s s' → fs_feedback s = ∅ →
  ∀ c, (length (approvals_of c (fs_feedback s')) ≤ calls_made c (fs_tools s'))%nat.
Proof.
  intros Hsteps Hempty c. assert (approvals_backed s) as Hb.
  { split; [by intros k f; rewrite Hempty, lookup_empty|]. intros c'. rewrite Hempty. unfold approvals_of, chosen, rows. rewrite map_to_list_empty. cbn. lia. }
  enough (approvals_backed s') as [_ Hle] by apply Hle. clear Hempty. induction Hsteps as [|x y z Hxy _ IH]; [done|].
  by apply IH, (learning_backed x).
Qed.

(** ** A run's outcome *)

Abbreviation same_outcomes := (leaves (E := exn) (S := sys) (λ s, tt_outcomes (fs_tools s))).

Lemma outcomes_memory {A} (m : prog (memory_sys P C) A) : same_outcomes (in_memory m).
Proof. by apply leaves_away. Qed.

Lemma outcomes_repo {A} (m : mprog A) : same_outcomes (in_repo m).
Proof. by apply leaves_away. Qed.

Lemma outcomes_feedback {A} (m : fbprog A) : same_outcomes (in_feedback m).
Proof. by apply leaves_away. Qed.

Lemma outcomes_tools {A} (m : tprog A) : leaves tt_outcomes m → same_outcomes (in_tools m).
Proof. by apply leaves_zoom. Qed.
Hint Resolve outcomes_memory outcomes_repo outcomes_feedback : frame.

Lemma outcomes_read {A} (g : tool_tables → A) : same_outcomes (in_tools (gets g)).
Proof. by apply outcomes_tools. Qed.

Lemma outcomes_verdict t tool counter : same_outcomes (in_tools (count_verdict t tool counter)).
Proof. apply outcomes_tools. intros d. unfold count_verdict. by destruct (is_counter counter). Qed.

Lemma outcomes_approval t agent tool shape counter : same_outcomes (in_tools (count_approval t agent tool shape counter)).
Proof. apply outcomes_tools. intros d. unfold count_approval. by destruct (is_counter counter). Qed.

Lemma outcomes_reject now t i : same_outcomes (in_tools (reject_procedure now t i)).
Proof. apply outcomes_tools. intros d. unfold reject_procedure. by case_match. Qed.

Lemma outcomes_restore now t i : same_outcomes (in_tools (restore_procedure now t i)).
Proof. apply outcomes_tools. intros d. unfold restore_procedure. by repeat case_match. Qed.
Hint Resolve outcomes_read outcomes_verdict outcomes_approval outcomes_reject outcomes_restore : frame.

Lemma outcomes_locks keys : same_outcomes (locks keys).
Proof. unfold locks. quietly. Qed.

Lemma outcomes_enqueue now job : same_outcomes (enqueue_job now job).
Proof. unfold enqueue_job. quietly. Qed.

Lemma outcomes_reindex now l : same_outcomes (_reindex content_hash now l).
Proof. unfold _reindex, enqueue_job. quietly. Qed.
Hint Resolve outcomes_locks outcomes_enqueue outcomes_reindex : frame.

Lemma outcomes_adjust now t ids step n : same_outcomes (_adjust content_hash detect_language now t ids step n).
Proof. unfold _adjust. quietly. Qed.
Hint Resolve outcomes_adjust : frame.

Lemma outcomes_settle now r : same_outcomes (_settle_earlier now r).
Proof.
  unfold _settle_earlier, applied_votes. apply leaves_bind; [auto with frame|intros l]. generalize (@None Feedback).
  induction (filter _ l) as [|f k IH]; intros a; cbn [settle_votes]; [auto with frame|]. destruct (fb_projection f); [apply IH|].
  apply leaves_bind; [auto with frame|intros _; apply IH].
Qed.

Lemma outcomes_reverse now f p : same_outcomes (_reverse content_hash detect_language now f p).
Proof. unfold _reverse, _lift_retraction, bump_tenant. quietly. Qed.
Hint Resolve outcomes_settle outcomes_reverse : frame.

Lemma outcomes_other now new_id r : fb_kind r ≠ KRun →
  same_outcomes (_project content_hash normalized_hash detect_language sha py_repr magnitude now new_id r).
Proof.
  intros Hk. unfold _project. destruct (fb_kind r); [done|..];
    unfold _project_memory, _reinforce, _retract, _correct, _project_tool_call, _project_procedure, bump_tenant, _counted_before, list_for, page,
      _backed, _spent, counted_decisions, _recorded, invocations_for_run; quietly.
Qed.

(** What a verdict on a run does to the outcomes. *)
Definition labelled_by (r : Feedback) (before_ after_ : gmap (string * string) RunOutcome) : Prop :=
  after_ = before_ ∨
  fb_kind r = KRun ∧
  (∀ o, before_ !! (fb_tenant r, fb_target r) = Some o → OUTCOME_PRECEDENCE (ro_source o) ≤ OUTCOME_PRECEDENCE (fb_source r)) ∧
  ∃ o, after_ = <[(fb_tenant r, fb_target r) := o]> before_ ∧ ro_source o = fb_source r ∧ ro_success o = affirming (fb_verdict r).

Lemma label_run_outcome now r success learn (s : sys) x s' : fb_kind r = KRun → success = affirming (fb_verdict r) →
  _label_run now r success learn s = (Ok x, s') → labelled_by r (tt_outcomes (fs_tools s)) (tt_outcomes (fs_tools s')).
Proof.
  intros Hk Hsucc Hrun. unfold _label_run in Hrun. apply bind_Ok_inv in Hrun as (u & s1 & Hl & Hrun).
  apply (leaves_run (λ s, tt_outcomes (fs_tools s))) in Hl; [|auto with frame]. rewrite <- Hl.
  apply bind_Ok_inv in Hrun as (o & s2 & Ho & Hrun).
  assert (o = tt_outcomes (fs_tools s1) !! (fb_tenant r, fb_target r) ∧ s2 = s1) as [-> ->] by (injection Ho as <- <-; by destruct s1).
  destruct (match _ with Some o => _ | None => false end) eqn:Hrank; [injection Hrun as _ <-; by left|].
  apply bind_Ok_inv in Hrun as (u2 & s2 & Hset & Hrun). apply bind_Ok_inv in Hrun as (u3 & s3 & Hj & [= _ <-]).
  apply (leaves_run (λ s, tt_outcomes (fs_tools s))) in Hj; [|destruct learn; auto with frame]. rewrite Hj. right. split_and!; [done| |].
  - intros o Ho'. rewrite Ho' in Hrank. lia.
  - injection Hset as _ <-. cbn. eexists. by split_and!.
Qed.

Lemma project_one_outcome now new_id r (s : sys) x s' :
  _project content_hash normalized_hash detect_language sha py_repr magnitude now new_id r s = (Ok x, s') →
  labelled_by r (tt_outcomes (fs_tools s)) (tt_outcomes (fs_tools s')).
Proof.
  intros Hrun. destruct (decide (fb_kind r = KRun)) as [Hk|Hk].
  2: { left. by apply (leaves_run (λ s, tt_outcomes (fs_tools s)) _ _ _ _ (outcomes_other now new_id r Hk) Hrun). }
  unfold _project in Hrun. rewrite Hk in Hrun. unfold _project_run in Hrun. cbv zeta in Hrun.
  apply bind_Ok_inv in Hrun as (lab & s1 & Hl & Hrun). apply label_run_outcome in Hl; [|done|done].
  destruct lab; cbn [negb] in Hrun; [|by injection Hrun as _ <-].
  apply bind_Ok_inv in Hrun as (ids & s2 & Hids & [= _ <-]).
  apply (leaves_run (λ s, tt_outcomes (fs_tools s))) in Hids; [|unfold _adjust_cited; destruct (outcome_teaches _ _); auto with frame].
  by rewrite Hids.
Qed.

Lemma apply_record_outcome now new_id r (s : sys) p s' : applying now new_id r s = (Ok p, s') →
  labelled_by r (tt_outcomes (fs_tools s)) (tt_outcomes (fs_tools s')).
Proof.
  intros Hrun. unfold apply_record in Hrun. destruct (_ && _); [|by eapply project_one_outcome].
  unfold _project_vote in Hrun. destruct (voter_key _ _); [|by eapply project_one_outcome].
  apply bind_Ok_inv in Hrun as (u & s1 & Hl & Hrun). apply (leaves_run (λ s, tt_outcomes (fs_tools s))) in Hl; [|auto with frame].
  apply bind_Ok_inv in Hrun as (prior & s2 & Hse & Hrun). apply (leaves_run (λ s, tt_outcomes (fs_tools s))) in Hse; [|auto with frame].
  rewrite <- Hl, <- Hse.
  destruct prior as [f|]; [destruct (same_thumb f r); [injection Hrun as _ <-; by left|]|].
  - apply bind_Ok_inv in Hrun as (u2 & s3 & Hrv & Hrun).
    apply (leaves_run (λ s, tt_outcomes (fs_tools s))) in Hrv; [|destruct (fb_projection f); auto with frame]. rewrite <- Hrv.
    apply bind_Ok_inv in Hrun as (q & s4 & Hq & [= _ <-]). by eapply project_one_outcome.
  - apply bind_Ok_inv in Hrun as (q & s4 & Hq & [= _ <-]). by eapply project_one_outcome.
Qed.

(** C26: A run's outcome is the word of the highest rank. The projector changes the
    outcome of one run at most, the one the judgement is about; it becomes what the
    judgement says, with the judgement's source, and never when a source that ranks
    higher decided it: a person's verdict is not overridden by the judge's, nor
    either by the run's own report. *)
Theorem outcome_by_rank now new_id t i attempt (s : sys) x s' : projecting_job now new_id t i attempt s = (Ok x, s') →
  tt_outcomes (fs_tools s') = tt_outcomes (fs_tools s) ∨
  ∃ r o, fs_feedback s !! (t, i) = Some r ∧ fb_kind r = KRun ∧
    tt_outcomes (fs_tools s') = <[(fb_tenant r, fb_target r) := o]> (tt_outcomes (fs_tools s)) ∧
    ro_source o = fb_source r ∧ ro_success o = affirming (fb_verdict r) ∧
    ∀ o', tt_outcomes (fs_tools s) !! (fb_tenant r, fb_target r) = Some o' → OUTCOME_PRECEDENCE (ro_source o') ≤ OUTCOME_PRECEDENCE (ro_source o).
Proof.
  intros Hrun. unfold project in Hrun. apply bind_Ok_inv in Hrun as (u & s1 & Hl & Hrun).
  pose proof (leaves_run fs_feedback _ _ _ _ (quiet_locks _) Hl) as Hfb. apply (leaves_run (λ s, tt_outcomes (fs_tools s))) in Hl; [|auto with frame].
  rewrite <- Hl, <- Hfb. apply bind_Ok_inv in Hrun as (found & s2 & [-> ->]%get_run & Hrun).
  destruct (fs_feedback s1 !! (t, i)) as [r|] eqn:Hr; [|injection Hrun as _ <-; by left].
  destruct (fb_projection r); [injection Hrun as _ <-; by left|]. destruct (pending r); [injection Hrun as _ <-; by left|].
  apply bind_Ok_inv in Hrun as (wait & s2 & Hw & Hrun).
  apply (leaves_run (λ s, tt_outcomes (fs_tools s))) in Hw; [|unfold _backed, _recorded, invocations_for_run; destruct (_ && _); quietly].
  rewrite <- Hw. destruct wait.
  { apply bind_Ok_inv in Hrun as (v & s3 & Hsc & [= _ <-]). left.
    by apply (leaves_run (λ s, tt_outcomes (fs_tools s))) in Hsc; [|unfold _schedule; quietly]. }
  apply bind_Ok_inv in Hrun as (v & s3 & Hlk & Hrun). apply (leaves_run (λ s, tt_outcomes (fs_tools s))) in Hlk; [|destruct (bool_decide _); auto with frame].
  rewrite <- Hlk. apply bind_Ok_inv in Hrun as (p & s4 & Happ & Hrun). apply bind_Ok_inv in Hrun as ([] & s5 & [_ ->]%projection_run & [= _ <-]).
  cbn [fs_tools]. apply apply_record_outcome in Happ as [->|(Hk & Hrank & o & -> & Hsrc & Hsucc)]; [by left|right].
  exists r, o. rewrite Hsrc. by split_and!.
Qed.
End learning.

(** ** Instances

    An agent paid once; Alice approves the payment, and then approves it again under
    another interrupt. *)

Definition payment : list (string * json) := [("amount", JNum 120)].

Definition call_of_payment : ToolInvocation :=
  {| iv_id := "inv_1"; iv_tenant := "acme"; iv_tool_id := "tool_1"; iv_tool_name := "pay"; iv_tool_version := 1; iv_run := Some "run_1";
     iv_thread := None; iv_turn := None; iv_workspace := None; iv_user := Some "alice"; iv_agent := Some "helper";
     iv_principal := None; iv_step := 1; iv_args_redacted := payment; iv_args_hash := stable_hash id_hash (JObj payment);
     iv_output_summary := ""; iv_output_digest := None; iv_output_blob_ref := None; iv_output_fields := []; iv_status := TOk;
     iv_error_class := None; iv_latency := None; iv_cost := None; iv_task := "pay the invoice"; iv_task_pattern := None;
     iv_sub_calls := []; iv_visibility_keys := []; iv_occurred_at := 10 |}.

Definition paid : feedback_sys provider MemoryCache :=
  {| fs_memory := said; fs_feedback := ∅; fs_tools := snd (record id_hash call_of_payment no_tools) |}.

Definition allows_payment (id interrupt : string) : Feedback :=
  {| fb_id := id; fb_tenant := "acme"; fb_workspace := None; fb_user := None; fb_agent := None; fb_run := Some "run_1"; fb_trace := None;
     fb_kind := KToolCall; fb_target := "call_1"; fb_verdict := APPROVE; fb_correction := JNull; fb_score := None; fb_comment := None;
     fb_reviewer := Some "alice"; fb_source := INTERRUPT; fb_evidence := [];
     fb_metadata := [("tool", JStr "pay"); ("args", JObj payment); ("interrupt_id", JStr interrupt)]; fb_created_at := 0;
     fb_projection := None; fb_review := None; fb_vote := None |}.

#[local] Notation demo_learns := (learns (P := provider) (C := MemoryCache) id_hash 10 60 true id_hash id_hash english id_hash (λ _, "") (λ n, n)).
Definition agent_submit (now : Z) (f : Feedback) :=
  submit (P := provider) (C := MemoryCache) id_hash 10 60 true now alices_agent f false false.

Definition allowed_once := snd (demo_project 200 "fb_a" (snd (agent_submit 100 (allows_payment "fb_a" "int_1") paid))).
Definition allowed_twice := snd (demo_project 400 "fb_b" (snd (agent_submit 300 (allows_payment "fb_b" "int_2") allowed_once))).

Definition the_payment : tool_call :=
  {| tc_tenant := "acme"; tc_run := "run_1"; tc_agent := Some "helper"; tc_tool := "pay"; tc_args := stable_hash id_hash (JObj payment) |}.

Lemma length_chosen (p : Feedback → bool) d : (length (chosen p d) ≤ size d)%nat.
Proof. unfold chosen. etrans; [apply length_filter|]. unfold rows. by rewrite length_fmap, length_map_to_list. Qed.

Lemma demo_learns_submit now f s : goes_through (agent_submit now f s) = true → demo_learns s (snd (agent_submit now f s)).
Proof. intros Hrun. destruct (ran (λ _, true) (agent_submit now f s) Hrun) as (x & Hx & _).
  exists (Submits now (fb_target f)). split; [eapply learn_submit; exact Hx|done]. Qed.

Lemma demo_learns_project now i s : goes_through (demo_project now i s) = true → (size (fs_feedback s) ≤ APPROVAL_DECISIONS_READ)%nat →
  demo_learns s (snd (demo_project now i s)).
Proof.
  intros Hrun Hsize. destruct (ran (λ _, true) (demo_project now i s) Hrun) as (x & Hx & _).
  exists (Projects "acme" i). split; [eapply learn_project; exact Hx|]. intros r _. etrans; [apply length_chosen|done].
Qed.

Lemma allowed_twice_reached : rtc demo_learns paid allowed_twice.
Proof.
  apply (rtc_l _ _ (snd (agent_submit 100 (allows_payment "fb_a" "int_1") paid))); [apply demo_learns_submit; vm_compute; reflexivity|].
  apply (rtc_l _ _ allowed_once); [apply demo_learns_project; [|apply Nat.leb_le]; vm_compute; reflexivity|].
  apply (rtc_l _ _ (snd (agent_submit 300 (allows_payment "fb_b" "int_2") allowed_once))); [apply demo_learns_submit; vm_compute; reflexivity|].
  apply rtc_once, demo_learns_project; [|apply Nat.leb_le]; vm_compute; reflexivity.
Qed.

(** Two approvals of the one payment count as one. *)
Lemma each_call_backs_one_approval_witness :
  stored "fb_b" allowed_twice ≠ None ∧ (length (approvals_of id_hash the_payment (fs_feedback allowed_twice)) ≤ 1)%nat.
Proof.
  destruct (found_record "fb_b" allowed_twice (λ _, true)) as (f & Hf & _); [vm_compute; reflexivity|].
  assert (calls_made the_payment (fs_tools allowed_twice) = 1%nat) as Hcalls by (vm_compute; reflexivity).
  pose proof allowed_twice_reached as Hsteps. revert Hf Hcalls Hsteps. generalize allowed_twice. intros s Hf Hcalls Hsteps.
  split; [by rewrite Hf|]. rewrite <- Hcalls.
  exact (each_call_backs_one_approval id_hash 10 60 true id_hash id_hash english id_hash (λ _, "") (λ n, n) paid s Hsteps eq_refl the_payment).
Defined.

(** Alice says the run succeeded. *)
Definition run_judged := snd (demo_review 600 "fb_r" (snd (demo_submit 500 (judges "fb_r" "run_1" KRun CONFIRM) paid))).

Definition outcome_source (s : feedback_sys provider MemoryCache) : option FeedbackSource :=
  ro_source <$> tt_outcomes (fs_tools s) !! ("acme", "run_1").

Lemma outcome_by_rank_witness :
  outcome_source (snd (demo_project 700 "fb_r" run_judged)) = Some HUMAN ∧
  ∃ r o, stored "fb_r" run_judged = Some r ∧
    tt_outcomes (fs_tools (snd (demo_project 700 "fb_r" run_judged))) = <[(fb_tenant r, fb_target r) := o]> (tt_outcomes (fs_tools run_judged)).
Proof.
  destruct (ran (λ _, true) (demo_project 700 "fb_r" run_judged)) as (x & Hx & _); [vm_compute; reflexivity|].
  assert (outcome_source (snd (demo_project 700 "fb_r" run_judged)) = Some HUMAN) as Hafter by (vm_compute; reflexivity).
  assert (outcome_source run_judged = None) as Hbefore by (vm_compute; reflexivity).
  split; [exact Hafter|]. revert Hx Hafter Hbefore. generalize run_judged. intros s Hx Hafter Hbefore.
  destruct (outcome_by_rank id_hash id_hash english id_hash (λ _, "") (λ n, n) 700 "mem_new" "acme" "fb_r" 0 s x _ Hx)
    as [Hsame|(r & o & Hr & _ & Ho & _)].
  - exfalso. unfold outcome_source in Hafter, Hbefore. rewrite Hsame, Hbefore in Hafter. discriminate.
  - exists r, o. split; [exact Hr|exact Ho].
Defined.
