(* ===== verification/Approvals.v ===== *)
(** * Approvals: the rules an agent's decisions support
    (modules/tools/approvals.py, domain/learning.py)

    A suggestion is offered from the counts of one agent's decisions on one tool and
    argument shape, and accepting it writes the tool's [approve_when]. The identifier
    of a suggestion is the (agent, tool, shape) it encodes. *)
From Stdlib Require Import QArith.
From S2P Require Import Prelude Errors Text JsonText Context Rebac Visibility Revisions AuthzProvider AuthzService.
From S2P Require Import Cache ScopeCache TenancyRepo TenancyService UnitOfWork MemoryModel MemoryRepo MemoryService.
From S2P Require Import Feedback Tools ApproveWhen FeedbackService.
#[local] Open Scope Z_scope.

#[export] Instance Suggestion_eq_dec : EqDecision Suggestion.
Proof. solve_decision. Defined.

(** ** What the counts support *)

Definition APPROVAL_MIN_SUPPORT : Z := 5.
Definition AUTO_APPROVE_RATE : Q := 19 # 20.
Definition ALWAYS_ASK_RATE : Q := 1 # 2.
Definition APPROVAL_MIN_REVIEWERS : nat := 2.

Definition support (c : ApprovalCounts) : Z := ac_approvals c + ac_rejections c + ac_edits c.

Definition approve_rate (c : ApprovalCounts) : Q :=
  if support c =? 0 then 0 else inject_Z (ac_approvals c) / inject_Z (support c).

Definition suggestion (c : ApprovalCounts) : option Suggestion :=
  if support c <? APPROVAL_MIN_SUPPORT then None
  else if Qle_bool AUTO_APPROVE_RATE (approve_rate c) then Some AutoApprove
  else if Qle_bool (approve_rate c) ALWAYS_ASK_RATE then Some AlwaysAsk
  else None.

Definition rule_of (e : ToolDescriptor) : option text := chars <$> cf_approve_when (td_fields e).

(** The expression that decides for a tool: its own, or its tier's. *)
Definition asks_when (e : ToolDescriptor) : text := base_of (rule_of e) (risk e).

Definition accepted (e : ToolDescriptor) (shape : string) : bool :=
  match rule_of e with
  | Some ((_ :: _) as rule) => contains (when_shape (chars shape)) rule
  | _ => false
  end.

Definition offered (c : ApprovalCounts) (shape : string) (entry : option ToolDescriptor) : option Suggestion :=
  match suggestion c, entry with
  | Some AutoApprove, Some e =>
      if bool_decide (risk e = Irreversible) then None
      else if otruthy (cf_approve_when (td_fields e)) && negb (accepted e shape) then None
      else Some AutoApprove
  | s, _ => s
  end.

Section approvals.
Context {P C : Type} `{AuthorizationLaws P} `{CacheLaws C} `{Codec AuthorizedScope}.
Variable sha : string → string.
Variable magnitude : Z → Z.
Variable round : Q → Q.

Abbreviation fprog A := (prog (feedback_sys P C) A).

Definition approving_reviewer (shape : string) (d : Feedback) : option string :=
  match fb_reviewer d with
  | Some r =>
      if truthy r && bool_decide (APPROVAL_COUNTER (fb_verdict d) = "approvals")
         && bool_decide (encode (arg_shape magnitude (match meta "args" d with JObj a => a | _ => [] end)) = shape)
      then Some r else None
  | None => None
  end.

Definition reviewers (t agent_id tool shape : string) : fprog (list string) :=
  bind (in_feedback (counted_decisions t agent_id tool APPROVAL_DECISIONS_READ)) (λ decisions,
  ret (fromkeys (omap (approving_reviewer shape) decisions))).

Definition offer (t agent_id tool shape : string) (c : ApprovalCounts) (entry : option ToolDescriptor) : fprog (option Suggestion) :=
  match offered c shape entry with
  | Some AutoApprove =>
      bind (reviewers t agent_id tool shape) (λ l, ret (if (APPROVAL_MIN_REVIEWERS <=? length l)%nat then Some AutoApprove else None))
  | s => ret s
  end.

Definition APPROVE_WHEN : list string := ["approve_when"].

Definition with_rule (expression : text) (e : ToolDescriptor) : ToolDescriptor :=
  let f := td_fields e in
  with_fields {| cf_description := cf_description f; cf_input_schema := cf_input_schema f; cf_required := cf_required f;
                 cf_argument_entity_types := cf_argument_entity_types f; cf_side_effects := cf_side_effects f;
                 cf_source := cf_source f; cf_server := cf_server f; cf_examples := cf_examples f; cf_redact := cf_redact f;
                 cf_annotations := cf_annotations f; cf_approve_when := Some (encode expression) |} e.

(** [new_id] is the id of a tool's entry when it has none, [new_row] that of a new row. *)
Definition accept (now : Z) (new_id new_row : string) (ctx : MemoryExecutionContext) (agent tool shape : string) : fprog ToolDescriptor :=
  if negb (bool_decide (agent = default "" (agent_id ctx))) then raise (err NotFound "no such approval suggestion")
  else
  bind (in_tools (approval_pattern (tenant_id ctx) agent tool shape)) (λ counts,
  match counts with
  | None => raise (err Conflict "the decisions no longer support this suggestion")
  | Some c =>
      if bool_decide (suggestion c = None) then raise (err Conflict "the decisions no longer support this suggestion")
      else
      bind (in_tools (by_name (tenant_id ctx) tool (workspace_id ctx))) (λ found,
      bind (match found with Some e => ret e | None => in_tools (ensure sha now new_id (tenant_id ctx) tool) end) (λ entry,
      bind (offer (tenant_id ctx) agent tool shape c (Some entry)) (λ s,
      match s with
      | None => raise (err Conflict (tool +:+ " is irreversible or has an approve_when already, or fewer than 2 reviewers approved it: a learned rule never makes it ask less"))
      | Some s =>
          if accepted entry shape then ret entry
          else
            let expression := compose (rule_of entry) (risk entry) s (chars shape) in
            match ApproveWhen.parse round expression with
            | None => raise (ValueError "approve_when does not parse")
            | Some _ =>
                bind (in_tools (upsert sha now new_row (with_rule expression entry) (Some APPROVE_WHEN))) (λ '(stored, _),
                bind (bump_tenant (tenant_id ctx)) (λ _, ret stored))
            end
      end)))
  end).
End approvals.

(** ** The catalog *)

(** The columns that name an entry are unique, and a row is kept under its id. *)
Record catalog_ok (m : gmap string ToolDescriptor) : Prop := {
  ck_id : ∀ k x, m !! k = Some x → td_id x = k;
  ck_unique : ∀ k j x y, m !! k = Some x → m !! j = Some y →
    td_tenant x = td_tenant y → row_workspace x = row_workspace y → td_name x = td_name y → k = j;
}.

Definition named (t w name : string) (x : ToolDescriptor) : Prop := td_tenant x = t ∧ row_workspace x = w ∧ td_name x = name.

Lemma entry_of_Some t w name d x : catalog_ok (tt_catalog d) →
  entry_of t w name d = Some x ↔ tt_catalog d !! td_id x = Some x ∧ named t w name x.
Proof.
  intros [Hid Huniq]. unfold entry_of. split.
  - intros Hx. assert (x ∈ filter (λ x, td_tenant x = t ∧ row_workspace x = w ∧ td_name x = name) (rows (tt_catalog d))) as Hin.
    { destruct (filter _ _); [done|]. injection Hx as ->. by left. }
    apply list_elem_of_filter in Hin as [Hn [k Hk]%elem_of_rows]. split; [|done]. by rewrite (Hid _ _ Hk).
  - intros [Hx (Ht & Hw & Hn)]. destruct (filter _ _) as [|y l] eqn:Hl.
    + exfalso. apply (not_elem_of_nil x). rewrite <- Hl. apply list_elem_of_filter. split; [done|]. apply elem_of_rows. by eexists.
    + assert (y ∈ y :: l) as Hy by by left. rewrite <- Hl in Hy. apply list_elem_of_filter in Hy as [(Ht' & Hw' & Hn') [k Hk]%elem_of_rows].
      assert (k = td_id x) as -> by (eapply Huniq; [done|done|congruence..]). cbn. congruence.
Qed.

Lemma entry_of_None t w name d : catalog_ok (tt_catalog d) →
  entry_of t w name d = None ↔ ∀ k x, tt_catalog d !! k = Some x → ¬ named t w name x.
Proof.
  intros Hok. split.
  - intros Hn k x Hx Hnamed. assert (entry_of t w name d = Some x) as Hs; [|congruence]. apply entry_of_Some; [done|].
    by rewrite (ck_id _ Hok _ _ Hx).
  - intros Hno. destruct (entry_of t w name d) as [x|] eqn:Hx; [|done]. apply entry_of_Some in Hx as [Hx Hn]; [|done]. by destruct (Hno _ _ Hx).
Qed.

(** Writing an entry back, with the same name and id. *)
Lemma catalog_ok_replace m x y : catalog_ok m → m !! td_id x = Some x → td_id y = td_id x → td_tenant y = td_tenant x →
  row_workspace y = row_workspace x → td_name y = td_name x → catalog_ok (<[td_id x := y]> m).
Proof.
  intros [Hid Hu] Hx Hi Ht Hw Hn. split.
  - intros k z. rewrite lookup_insert_Some. intros [[<- <-]|[_ Hz]]; [done|by apply Hid].
  - intros k j a b. rewrite !lookup_insert_Some. intros [[<- <-]|[Hk Ha]] [[<- <-]|[Hj Hb]]; [done|..]; intros; [|..];
      (eapply Hu; [done|done|congruence..]).
Qed.

Lemma catalog_ok_insert m x : catalog_ok m → m !! td_id x = None →
  (∀ k y, m !! k = Some y → ¬ named (td_tenant x) (row_workspace x) (td_name x) y) → catalog_ok (<[td_id x := x]> m).
Proof.
  intros [Hid Hu] Hx Hno. split.
  - intros k z. rewrite lookup_insert_Some. intros [[<- <-]|[_ Hz]]; [done|by apply Hid].
  - intros k j a b. rewrite !lookup_insert_Some. intros [[<- <-]|[Hk Ha]] [[<- <-]|[Hj Hb]]; [done|..]; intros.
    + destruct (Hno _ _ Hb). by split_and!.
    + destruct (Hno _ _ Ha). by split_and!.
    + by eapply Hu.
Qed.

(** The entry a workspace reads for a tool, and the expression it decides by: a tool
    with no entry asks for nothing. *)
Definition entry_for (t name : string) (w : option string) (d : tool_tables) : option ToolDescriptor :=
  let w := default "" w in
  match (if bool_decide (w = "") then None else entry_of t w name d) with Some x => Some x | None => entry_of t "" name d end.

Lemma by_name_entry t name w d : by_name t name w d = (Ok (entry_for t name w d), d).
Proof. done. Qed.

Lemma entry_for_named t name w d x : catalog_ok (tt_catalog d) → entry_for t name w d = Some x →
  tt_catalog d !! td_id x = Some x ∧ td_tenant x = t ∧ td_name x = name ∧ entry_of t (row_workspace x) name d = Some x.
Proof.
  intros Hok. unfold entry_for. intros Hx.
  assert (∃ w', entry_of t w' name d = Some x) as [w' Hw].
  { destruct (if bool_decide _ then _ else _) as [y|] eqn:Hy; [|by eexists]. injection Hx as ->. case_bool_decide; [done|by eexists]. }
  pose proof Hw as (Hid & Ht & Hws & Hn)%entry_of_Some; [|done]. split_and!; [done..|]. by rewrite Hws.
Qed.

(** Rewriting the entry a workspace reads leaves it the one the workspace reads. *)
Lemma entry_for_replaced t name w d x y : catalog_ok (tt_catalog d) → entry_for t name w d = Some x → td_id y = td_id x →
  td_tenant y = td_tenant x → row_workspace y = row_workspace x → td_name y = td_name x →
  entry_for t name w (set_catalog (<[td_id x := y]> (tt_catalog d)) d) = Some y.
Proof.
  intros Hok Hx Hi Ht Hw Hn. pose proof (entry_for_named _ _ _ _ _ Hok Hx) as (Hid & Hxt & Hxn & _).
  pose proof (catalog_ok_replace _ x y Hok Hid Hi Ht Hw Hn) as Hok'. set (d' := set_catalog _ d).
  assert (∀ w', entry_of t w' name d = Some x → entry_of t w' name d' = Some y) as Hsame.
  { intros w' (_ & Hx1 & Hx2 & Hx3)%entry_of_Some; [|done]. apply entry_of_Some; [done|]. cbn [tt_catalog d' set_catalog].
    rewrite Hi, lookup_insert_eq. split; [done|]. unfold named. by rewrite Ht, Hw, Hn. }
  assert (∀ w', w' ≠ row_workspace x → entry_of t w' name d = None → entry_of t w' name d' = None) as Hnone.
  { intros w' Hne Hno. apply entry_of_None; [done|]. intros k z Hz (Hz1 & Hz2 & Hz3). cbn [tt_catalog d' set_catalog] in Hz.
    apply lookup_insert_Some in Hz as [[<- <-]|[_ Hz]]; [congruence|]. by apply (proj1 (entry_of_None _ _ _ d Hok) Hno k z Hz). }
  unfold entry_for in *. case_bool_decide as Hw0; [by apply Hsame|].
  destruct (entry_of t (default "" w) name d) as [z|] eqn:Hz.
  - injection Hx as ->. by rewrite (Hsame _ Hz).
  - rewrite (Hnone (default "" w)); [by apply Hsame| |done].
    apply entry_of_Some in Hx as (_ & _ & Hx & _); [|done]. by rewrite Hx.
Qed.

(** ** Accepting *)

Section accepting.
Context {P C : Type} `{AuthorizationLaws P} `{CacheLaws C} `{Codec AuthorizedScope}.
Variable sha : string → string.
Variable magnitude : Z → Z.
Variable round : Q → Q.

Abbreviation sys := (feedback_sys P C).
Abbreviation evaluates := (evaluate round magnitude).

(** What [upsert] makes of an entry of the catalog whose rule alone is sent. *)
Definition with_text (o : option string) (f : catalog_fields) : catalog_fields :=
  {| cf_description := cf_description f; cf_input_schema := cf_input_schema f; cf_required := cf_required f;
     cf_argument_entity_types := cf_argument_entity_types f; cf_side_effects := cf_side_effects f; cf_source := cf_source f;
     cf_server := cf_server f; cf_examples := cf_examples f; cf_redact := cf_redact f; cf_annotations := cf_annotations f;
     cf_approve_when := o |}.

Lemma upsert_rule now new_id e x d r d' : catalog_ok (tt_catalog d) →
  entry_of (td_tenant e) (row_workspace e) (td_name e) d = Some e →
  upsert sha now new_id (with_rule x e) (Some APPROVE_WHEN) d = (Ok r, d') →
  ∃ e', fst r = e' ∧ td_id e' = td_id e ∧ td_tenant e' = td_tenant e ∧ row_workspace e' = row_workspace e ∧ td_name e' = td_name e ∧
    risk e' = risk e ∧ rule_of e' = Some (chars (encode x)) ∧ d' = set_catalog (<[td_id e := e']> (tt_catalog d)) d.
Proof.
  intros Hok He Hrun. unfold upsert in Hrun. cbn [with_schema_hash with_rule with_fields td_tenant td_name td_workspace td_fields] in Hrun.
  change (row_workspace _) with (row_workspace e) in Hrun. rewrite He in Hrun.
  change (kept_fields _ _ _) with (with_text (Some (encode x)) (td_fields e)) in Hrun.
  apply entry_of_Some in He as [Hid _]; [|done].
  destruct (same_fields _ _) eqn:Hsame; injection Hrun as <- <-.
  - exists e. assert (cf_approve_when (td_fields e) = Some (encode x)) as Hrule.
    { unfold same_fields in Hsame. apply bool_decide_eq_true in Hsame. by apply (f_equal cf_approve_when) in Hsame. }
    split_and!; [done..| |]; [unfold rule_of; by rewrite Hrule|]. rewrite insert_id by done. by destruct d.
  - eexists. split; [reflexivity|]. by split_and!.
Qed.

(** What a workspace is asked by before a suggestion is accepted: a tool with no entry
    is asked for nothing. *)
Definition asks_before (e : option ToolDescriptor) : text := match e with Some e => asks_when e | None => lit "false" end.
Definition accepted_before (shape : string) (e : option ToolDescriptor) : bool :=
  match e with Some e => accepted e shape | None => false end.

(** The entry [accept] works on: the one the workspace reads, or a new blank one. *)
Definition entry_to_change (now : Z) (new_id t tool : string) (w : option string) : tprog ToolDescriptor :=
  bind (by_name t tool w) (λ found, match found with Some e => ret e | None => ensure sha now new_id t tool end).

Lemma entry_to_change_run now new_id t tool w d e d' : catalog_ok (tt_catalog d) → tt_catalog d !! new_id = None →
  entry_to_change now new_id t tool w d = (Ok e, d') →
  catalog_ok (tt_catalog d') ∧ entry_for t tool w d' = Some e ∧ asks_when e = asks_before (entry_for t tool w d) ∧
  (∀ shape, accepted e shape = accepted_before shape (entry_for t tool w d)) ∧
  (∀ k, k ≠ td_id e → tt_catalog d' !! k = tt_catalog d !! k) ∧ tt_approvals d' = tt_approvals d.
Proof.
  intros Hok Hnew Hrun. unfold entry_to_change in Hrun. apply bind_Ok_inv in Hrun as (found & d1 & Hfound & Hrun).
  rewrite by_name_entry in Hfound. injection Hfound as <- <-. destruct (entry_for t tool w d) as [x|] eqn:Hx.
  { injection Hrun as <- <-. by split_and!. }
  assert (entry_of t "" tool d = None) as Hnone. { unfold entry_for in Hx. by destruct (if bool_decide _ then _ else _). }
  unfold ensure in Hrun. apply bind_Ok_inv in Hrun as (again & d1 & Hagain & Hrun). rewrite by_name_entry in Hagain.
  assert (again = None ∧ d1 = d) as [-> ->]. { injection Hagain as <- <-. split; [|done]. unfold entry_for. by rewrite Hnone. }
  injection Hrun as <- <-. set (x := with_schema_hash _ _).
  assert (catalog_ok (<[td_id x := x]> (tt_catalog d))) as Hok'.
  { apply catalog_ok_insert; [done|done|]. intros k y Hy. by apply (proj1 (entry_of_None _ _ _ d Hok) Hnone k y Hy). }
  assert (∀ w', w' = "" ∨ entry_of t w' tool d = None → entry_of t w' tool (set_catalog (<[td_id x := x]> (tt_catalog d)) d)
    = if bool_decide (w' = "") then Some x else None) as Hread.
  { intros w' Hw'. case_bool_decide as Hw.
    - subst. apply entry_of_Some; [done|]. cbn [tt_catalog set_catalog]. rewrite lookup_insert_eq. by split_and!.
    - destruct Hw' as [->|Hw']; [done|]. apply entry_of_None; [done|]. intros k y. cbn [tt_catalog set_catalog].
      rewrite lookup_insert_Some. intros [[<- <-]|[_ Hy]] (Ht & Hws & Hn); [by apply Hw|].
      by apply (proj1 (entry_of_None _ _ _ d Hok) Hw' k y Hy). }
  split_and!; [done| |done|done| |done].
  - change new_id with (td_id x). pose proof (Hread "" (or_introl eq_refl)) as Hblank. rewrite bool_decide_true in Hblank by done.
    unfold entry_for in *. cbv zeta in *. rewrite Hblank. destruct (bool_decide_reflect (default "" w = "")) as [Hw|Hw]; [done|].
    destruct (entry_of t (default "" w) tool d) eqn:Hwn; [done|]. rewrite Hread by by right. by rewrite bool_decide_false.
  - intros k Hk. cbn [tt_catalog set_catalog]. by rewrite lookup_insert_ne.
Qed.

(** A rule that may be offered and is not part of the expression yet: it asks for more,
    or the tool asks for nothing. *)
Lemma offered_base c shape e : offered c shape (Some e) = Some AutoApprove → accepted e shape = false → asks_when e = lit "false".
Proof.
  unfold offered. destruct (suggestion c) as [[]|]; [|done..]. case_bool_decide as Hr; [done|]. intros Ho Ha. rewrite Ha, andb_true_r in Ho.
  unfold asks_when, base_of, rule_of. rewrite (bool_decide_false (risk e = Irreversible)) by done.
  destruct (cf_approve_when (td_fields e)) as [x|]; [|done]. destruct x as [|a x]; [done|]. by destruct (otruthy _) eqn:Ht.
Qed.

Lemma offered_suggested c shape e s : offered c shape (Some e) = Some s → suggestion c = Some s.
Proof.
  unfold offered. destruct (suggestion c) as [[]|]; [|done..]. case_bool_decide; [done|]. by destruct (otruthy _ && _).
Qed.

Lemma offer_run t agent tool shape c e (s : sys) r s' : offer magnitude t agent tool shape c e s = (Ok (Some r), s') →
  offered c shape e = Some r ∧ s' = s.
Proof.
  unfold offer. destruct (offered c shape e) as [[]|]; intros Hrun; [|by injection Hrun as <- <-|done].
  apply bind_Ok_inv in Hrun as (l & s1 & Hl & Hrun). unfold reviewers in Hl. apply bind_Ok_inv in Hl as (ds & s2 & Hds & Hl).
  injection Hds as _ <-. injection Hl as _ <-. destruct (_ <=? _)%nat; [|done]. injection Hrun as <- <-. by destruct s.
Qed.

Lemma in_tools_run {A} (m : tprog A) (s : sys) r s' : in_tools m s = (r, s') → ∃ d', m (fs_tools s) = (r, d') ∧ fs_tools s' = d'.
Proof. unfold in_tools, zoom. destruct (m (fs_tools s)) as [x d']. intros [= <- <-]. by exists d'. Qed.

Lemma bump_tools t (s : sys) r s' : bump_tenant t s = (r, s') → fs_tools s' = fs_tools s.
Proof.
  unfold bump_tenant. intros Hrun. assert (leaves fs_tools (bump_tenant (P := P) (C := C) t)) as Hl.
  { unfold bump_tenant. apply leaves_bind; [|by intros]. by apply leaves_away. }
  pose proof (Hl s) as Hs. unfold bump_tenant in Hs. by rewrite Hrun in Hs.
Qed.

Lemma entry_to_change_bind now new_id t tool w {A} (k : ToolDescriptor → prog sys A) (s : sys) :
  bind (in_tools (by_name t tool w)) (λ found,
    bind (match found with Some e => ret e | None => in_tools (ensure sha now new_id t tool) end) k) s =
  bind (in_tools (entry_to_change now new_id t tool w)) k s.
Proof.
  assert (in_tools (entry_to_change now new_id t tool w) s =
    (match entry_for t tool w (fs_tools s) with Some e => ret e | None => in_tools (ensure sha now new_id t tool) end) s) as Hsame.
  { unfold entry_to_change, in_tools, zoom. unfold bind. rewrite by_name_entry. destruct s. by destruct (entry_for _ _ _ _). }
  unfold bind at 3. rewrite Hsame. by destruct s.
Qed.

(** C20: Accepting a learned suggestion never makes a tool ask less: the entry the
    workspace reads afterwards decides every call as before, except that calls of the
    suggestion's argument shape are also asked about when the decisions support
    "always ask" and the expression does not hold the clause yet; and no other entry
    of the catalog changes. *)
Theorem accept_never_asks_less now new_id new_row ctx agent tool shape (s : sys) d s' :
  let before := entry_for (tenant_id ctx) tool (workspace_id ctx) (fs_tools s) in
  catalog_ok (tt_catalog (fs_tools s)) → tt_catalog (fs_tools s) !! new_id = None →
  accept sha magnitude round now new_id new_row ctx agent tool shape s = (Ok d, s') →
  entry_for (tenant_id ctx) tool (workspace_id ctx) (fs_tools s') = Some d ∧
  agent = default "" (agent_id ctx) ∧
  (∀ k, k ≠ td_id d → tt_catalog (fs_tools s') !! k = tt_catalog (fs_tools s) !! k) ∧
  ∃ c, tt_approvals (fs_tools s) !! (tenant_id ctx, agent, tool, shape) = Some c ∧
    ∀ args b, evaluates (asks_before before) args = Some b →
      evaluates (asks_when d) args =
        Some (b || (bool_decide (suggestion c = Some AlwaysAsk) && negb (accepted_before shape before)
                    && bool_decide (arg_shape magnitude args = chars shape))).
Proof.
  intros before Hok Hnew Hrun. unfold accept in Hrun. case_bool_decide as Hagent; [cbn [negb] in Hrun|done].
  apply bind_Ok_inv in Hrun as (counts & s1 & Hc & Hrun).
  assert (counts = tt_approvals (fs_tools s) !! (tenant_id ctx, agent, tool, shape) ∧ s1 = s) as [-> ->].
  { injection Hc as <- <-. by destruct s. }
  destruct (tt_approvals (fs_tools s) !! _) as [c|]; [|done]. case_bool_decide; [done|].
  rewrite entry_to_change_bind in Hrun. apply bind_Ok_inv in Hrun as (e & s2 & He & Hrest).
  apply in_tools_run in He as (d2 & He & Hs2).
  destruct (entry_to_change_run _ _ _ _ _ _ _ _ Hok Hnew He) as (Hok2 & Hentry & Hasks & Hacc & Hrest2 & Happr).
  fold before in Hasks, Hacc. rewrite <- Hs2 in *. clear He Hs2 d2.
  apply bind_Ok_inv in Hrest as (sg & s3 & Hoffer & Hrun). destruct sg as [sg|]; [|done].
  apply offer_run in Hoffer as [Hoff ->]. pose proof (offered_suggested _ _ _ _ Hoff) as Hsg.
  destruct (accepted e shape) eqn:Ha.
  { injection Hrun as <- <-. split_and!; [done..|]. exists c. split; [done|]. intros args b. rewrite <- Hasks, <- Hacc, Ha. cbn [negb].
    by rewrite andb_false_r, orb_false_r. }
  destruct (parse _ _) as [ex|] eqn:Hparse; [|done]. apply parse_inv in Hparse as [Hlen _].
  apply bind_Ok_inv in Hrun as ([e1 fresh] & s3 & Hup & Hrun). apply in_tools_run in Hup as (d3 & Hup & Hs3).
  apply bind_Ok_inv in Hrun as ([] & s4 & Hbump & Hrun). injection Hrun as -> ->. apply bump_tools in Hbump. rewrite Hs3 in Hbump.
  pose proof (entry_for_named _ _ _ _ _ Hok2 Hentry) as (Hid & Ht & Hn & Hof).
  rewrite <- Ht, <- Hn in Hof. destruct (upsert_rule _ _ _ _ _ _ _ Hok2 Hof Hup) as (e' & <- & Hi' & Ht' & Hw' & Hn' & Hr' & Hrule & Hd').
  cbn [fst] in *. rewrite Hbump, Hd'. split_and!; [by apply entry_for_replaced|done| |].
  { intros k Hk. cbn [tt_catalog set_catalog]. rewrite lookup_insert_ne by congruence. apply Hrest2. congruence. }
  exists c. split; [done|]. intros args b Hb. rewrite <- Hasks in Hb. rewrite <- Hacc, Ha, Hsg. cbn [negb].
  assert (asks_when d = compose (rule_of e) (risk e) sg (chars shape)) as ->.
  { unfold asks_when. rewrite Hrule, chars_encode, Hr'. unfold base_of at 1. by destruct (compose _ _ _ _) eqn:Hcomp; [destruct sg; cbn in Hcomp; repeat case_bool_decide|]. }
  rewrite (compose_evaluates _ _ (rule_of e) (risk e) sg (chars shape) args b Hb Hlen). destruct sg.
  - pose proof (offered_base _ _ _ Hoff Ha) as Hfalse. rewrite Hfalse in Hb. injection Hb as <-. reflexivity.
  - reflexivity.
Qed.
End accepting.

(** ** An instance

    The payment tool asks from 1000 upwards; five payments of a few hundred were
    refused, and the agent's "always ask" for them is accepted. *)

Definition asks_for_large : ToolDescriptor :=
  {| td_id := "tool_pay"; td_tenant := "acme"; td_workspace := None; td_name := "pay"; td_version := 1;
     td_fields := with_text (Some "amount >= 1000") blank_fields; td_schema_hash := ""; td_created_at := 0; td_updated_at := 0 |}.

Definition refused_often : feedback_sys provider MemoryCache :=
  {| fs_memory := said; fs_feedback := ∅;
     fs_tools := {| tt_catalog := {[ "tool_pay" := asks_for_large ]}; tt_calls := ∅; tt_outcomes := ∅; tt_stats := ∅;
       tt_approvals := {[ ("acme", "helper", "pay", "amount:num:1e2") := {| ac_approvals := 1; ac_rejections := 5; ac_edits := 0 |} ]};
       tt_procedures := ∅ |} |}.

Definition accepts_rule := accept (P := provider) (C := MemoryCache) (λ s, s) whole_log id 50 "tool_new" "tool_row" alices_agent "helper" "pay" "amount:num:1e2".

Lemma accept_never_asks_less_witness : ∃ d s', accepts_rule refused_often = (Ok d, s') ∧
  evaluate id whole_log (asks_when asks_for_large) [("amount", JNum 120)] = Some false ∧
  evaluate id whole_log (asks_when d) [("amount", JNum 120)] = Some true ∧
  evaluate id whole_log (asks_when d) [("amount", JNum 90)] = Some false.
Proof.
  assert (catalog_ok (tt_catalog (fs_tools refused_often))) as Hok.
  { cbn [refused_often fs_tools tt_catalog]. split.
    - intros k x [<- <-]%lookup_singleton_Some. reflexivity.
    - intros k j x y [<- <-]%lookup_singleton_Some [<- <-]%lookup_singleton_Some. reflexivity. }
  assert (entry_for "acme" "pay" (workspace_id alices_agent) (fs_tools refused_often) = Some asks_for_large) as He by (vm_compute; reflexivity).
  assert (tt_catalog (fs_tools refused_often) !! "tool_new" = None) as Hnew by (vm_compute; reflexivity).
  assert (tt_approvals (fs_tools refused_often) !! ("acme", "helper", "pay", "amount:num:1e2") =
    Some {| ac_approvals := 1; ac_rejections := 5; ac_edits := 0 |}) as Hc by (vm_compute; reflexivity).
  destruct (ran (λ _, true) (accepts_rule refused_often)) as (d & Hrun & _); [vm_compute; reflexivity|].
  exists d, (snd (accepts_rule refused_often)). revert Hok He Hnew Hc Hrun. generalize refused_often. intros s Hok He Hnew Hc Hrun.
  destruct (accept_never_asks_less (λ s, s) whole_log id 50 "tool_new" "tool_row" alices_agent "helper" "pay" "amount:num:1e2"
    s d (snd (accepts_rule s)) Hok Hnew Hrun) as (_ & _ & _ & c & Hc' & Hasks).
  change (tenant_id alices_agent) with "acme" in *. rewrite He in Hasks. rewrite Hc in Hc'. injection Hc' as <-.
  split_and!; [exact Hrun|vm_compute; reflexivity|..].
  - rewrite (Hasks [("amount", JNum 120)] false); vm_compute; reflexivity.
  - rewrite (Hasks [("amount", JNum 90)] false); vm_compute; reflexivity.
Defined.
