(* ===== verification/Trajectories.v ===== *)
(** * Trajectories: what a run's calls show
    (modules/tools/trajectories.py)

    A run's calls in step order, the edges they support - a value that comes back as
    an argument, one call after another - and the statistics of an edge over the runs
    of one task pattern. *)
From Stdlib Require Import QArith.
From S2P Require Import Prelude Text Dict Feedback Tools.
#[local] Open Scope Z_scope.

Definition CODE_MODE_TOOLS : list string := ["list_tool_files"; "read_tool_file"; "get_tool_docs"; "execute_tool_code"].
Definition MAX_DEPTH : nat := 6.
Definition MAX_FIELDS : nat := 200.
Definition _MIN_VALUE_LEN : nat := 3.

(** ** The leaves of a nested value *)

(** [out.update(new)]. *)
Definition dupdate {A} (new out : dict A) : dict A := foldl (λ d '(k, v), dset k v d) out new.

(** [levels] are the levels left: [MAX_DEPTH + 1 - depth]. *)
Fixpoint flatten (levels : nat) (prefix : string) (value : json) : dict json :=
  match levels with
  | O => []
  | S levels' =>
      match value with
      | JObj fields =>
          foldl (λ out '(key, sub),
            if (MAX_FIELDS <=? length out)%nat then out
            else dupdate (flatten levels' (if truthy prefix then prefix +:+ "." +:+ key else key) sub) out) [] fields
      | JList l =>
          foldl (λ out '(i, sub), dupdate (flatten levels' (prefix +:+ "[" +:+ text_of_Z (Z.of_nat i) +:+ "]") sub) out)
            [] (imap pair (take 20 l))
      | JNull | JBool _ => []
      | JNum _ | JStr _ => [(prefix, value)]
      end
  end.

Definition flattened (value : json) : dict json := flatten (S MAX_DEPTH) "" value.

(** ** Edges *)

Inductive EdgeKind : Set := Feeds | FollowedBy.
#[export] Instance EdgeKind_eq_dec : EqDecision EdgeKind.
Proof. solve_decision. Defined.

Record Signature := {
  sg_source_tool : string;
  sg_target_tool : string;
  sg_kind : EdgeKind;
  sg_source_field : option string;
  sg_target_field : option string;
}.
#[export] Instance Signature_eq_dec : EqDecision Signature.
Proof. solve_decision. Defined.

Record ChainEdge := {
  ce_signature : Signature;
  ce_source_invocation : string;
  ce_target_invocation : string;
}.

Record Trajectory := {
  tj_run : string;
  tj_task : string;
  tj_pattern : option string;
  tj_steps : list ToolInvocation;
  tj_succeeded : bool;
}.

Definition step_before (a b : ToolInvocation) : bool := bool_decide (by_step a b).

Definition build_trajectory (run_id : string) (invocations : list ToolInvocation) (ok : bool) : Trajectory :=
  let steps := sorted_by step_before (filter (λ i, iv_tool_name i ∉ CODE_MODE_TOOLS) invocations) in
  {| tj_run := run_id;
     tj_task := default "" (head (filter (λ t, truthy t = true) (iv_task <$> steps)));
     tj_pattern := head (filter (λ t, truthy t = true) (omap iv_task_pattern steps));
     tj_steps := steps; tj_succeeded := ok |}.

(** The same signature once, as it was first seen. *)
Fixpoint dedupe_from (seen : list Signature) (edges : list ChainEdge) : list ChainEdge :=
  match edges with
  | [] => []
  | e :: rest => if bool_decide (ce_signature e ∈ seen) then dedupe_from seen rest
                 else e :: dedupe_from (ce_signature e :: seen) rest
  end.
Definition _dedupe (edges : list ChainEdge) : list ChainEdge := dedupe_from [] edges.

Section mining.
(** [str.casefold], and how a number is written with ten significant digits. *)
Variable casefold : text → text.
Variable general10 : Z → string.

Definition normalise (value : json) : option text :=
  let long t := if (_MIN_VALUE_LEN <=? length t)%nat then Some t else None in
  match value with
  | JNum n => long (chars (general10 n))
  | JBool b => long (lit (if b then "1" else "0"))
  | JStr s => long (casefold (strip (chars s)))
  | _ => None
  end.

Definition target_values (target : ToolInvocation) : dict text :=
  omap (λ '(path, value), pair path <$> normalise value) (flattened (JObj (iv_args_redacted target))).

Definition feeds_edge (source target : ToolInvocation) (source_field target_field : string) : ChainEdge :=
  {| ce_signature := {| sg_source_tool := iv_tool_name source; sg_target_tool := iv_tool_name target; sg_kind := Feeds;
                        sg_source_field := Some source_field; sg_target_field := Some target_field |};
     ce_source_invocation := iv_id source; ce_target_invocation := iv_id target |}.

Definition follows_edge (previous target : ToolInvocation) : ChainEdge :=
  {| ce_signature := {| sg_source_tool := iv_tool_name previous; sg_target_tool := iv_tool_name target; sg_kind := FollowedBy;
                        sg_source_field := None; sg_target_field := None |};
     ce_source_invocation := iv_id previous; ce_target_invocation := iv_id target |}.

Definition feeds (source target : ToolInvocation) : list ChainEdge :=
  if succeeded source then
    iv_output_fields source ≫= λ '(src_path, src_value),
      match normalise src_value with
      | None => []
      | Some src_norm =>
          omap (λ '(tgt_path, tgt_norm), if bool_decide (src_norm = tgt_norm) then Some (feeds_edge source target src_path tgt_path) else None)
            (target_values target)
      end
  else [].

Fixpoint edges_from (earlier steps : list ToolInvocation) : list ChainEdge :=
  match steps with
  | [] => []
  | target :: rest =>
      (earlier ≫= λ source, feeds source target)
      ++ match last earlier with Some previous => [follows_edge previous target] | None => [] end
      ++ edges_from (earlier ++ [target]) rest
  end.

Definition mine_edges (t : Trajectory) : list ChainEdge := _dedupe (edges_from [] (tj_steps t)).
End mining.

(** ** How an edge behaved over many runs *)

Record EdgeSupport := {
  es_signature : Signature;
  es_support : Z;
  es_successes : Z;
  es_failures : Z;
  es_latencies : list Q;
  es_costs : list Q;
  es_failure_modes : dict string;
}.

Definition no_support (s : Signature) : EdgeSupport :=
  {| es_signature := s; es_support := 0; es_successes := 0; es_failures := 0; es_latencies := []; es_costs := []; es_failure_modes := [] |}.

Definition es_success_rate (e : EdgeSupport) : Q :=
  if es_support e =? 0 then 0 else inject_Z (es_successes e) / inject_Z (es_support e).

Definition _median (values : list Q) : option Q :=
  match values with
  | [] => None
  | _ =>
      let ordered := sorted_by Qle_bool values in
      let mid := (length ordered / 2)%nat in
      if Nat.odd (length ordered) then ordered !! mid
      else a ← ordered !! (mid - 1)%nat; b ← ordered !! mid; Some ((a + b) / 2)%Q
  end.

Definition median_latency_ms (e : EdgeSupport) : option Q := _median (es_latencies e).
Definition median_cost (e : EdgeSupport) : option Q := _median (es_costs e).

Definition _correction (t : Trajectory) (failed : ToolInvocation) : string :=
  match filter (λ s, iv_step failed < iv_step s ∧ succeeded s = true) (tj_steps t) with
  | [] => ""
  | fix_ :: _ => if bool_decide (iv_tool_name fix_ = iv_tool_name failed)
                 then "retry " +:+ iv_tool_name fix_ +:+ " with adjusted arguments" else "use " +:+ iv_tool_name fix_
  end.

Definition opt_list {A} (o : option A) : list A := match o with Some x => [x] | None => [] end.

(** What one edge of one run adds to its entry. *)
Definition count_edge (t : Trajectory) (edge : ChainEdge) (e : EdgeSupport) : EdgeSupport :=
  match head (filter (λ s, iv_id s = ce_target_invocation edge) (tj_steps t)) with
  | None => {| es_signature := es_signature e; es_support := es_support e + 1; es_successes := es_successes e;
               es_failures := es_failures e; es_latencies := es_latencies e; es_costs := es_costs e; es_failure_modes := es_failure_modes e |}
  | Some target =>
      let ok := succeeded target && tj_succeeded t in
      {| es_signature := es_signature e; es_support := es_support e + 1;
         es_successes := es_successes e + (if ok then 1 else 0); es_failures := es_failures e + (if ok then 0 else 1);
         es_latencies := es_latencies e ++ opt_list (iv_latency target); es_costs := es_costs e ++ opt_list (iv_cost target);
         es_failure_modes := match iv_error_class target with
                             | Some c => if negb ok && truthy c then dset c (_correction t target) (es_failure_modes e) else es_failure_modes e
                             | None => es_failure_modes e
                             end |}
  end.

(** [table.setdefault(signature, …)] and the change of the entry. *)
Fixpoint with_entry (s : Signature) (f : EdgeSupport → EdgeSupport) (table : list EdgeSupport) : list EdgeSupport :=
  match table with
  | [] => [f (no_support s)]
  | e :: rest => if decide (es_signature e = s) then f e :: rest else e :: with_entry s f rest
  end.

Section accumulating.
Variable casefold : text → text.
Variable general10 : Z → string.

Definition accumulate_run (table : list EdgeSupport) (t : Trajectory) : list EdgeSupport :=
  foldl (λ table edge, with_entry (ce_signature edge) (count_edge t edge) table) table (mine_edges casefold general10 t).

Definition accumulate (trajectories : list Trajectory) : list EdgeSupport := foldl accumulate_run [] trajectories.
End accumulating.

(** ** The leaves of a value are found once each *)

Lemma dict_ok_dupdate {A} (new out : dict A) : dict_ok out → dict_ok (dupdate new out).
Proof. unfold dupdate. revert out. induction new as [|[k v] new IH]; simpl; intros out Hout; [done|]. by apply IH, dict_ok_dset. Qed.

Lemma elem_dupdate {A} (x : string * A) new out : x ∈ dupdate new out → x ∈ new ∨ x ∈ out.
Proof.
  unfold dupdate. revert out. induction new as [|[k v] new IH]; simpl; intros out Hx; [by right|].
  destruct (IH _ Hx) as [?|[->|?]%elem_dset]; [left; by right|left; by left|by right].
Qed.

Lemma foldl_invariant {A B} (I : A → Prop) (f : A → B → A) l a : I a → (∀ a b, I a → b ∈ l → I (f a b)) → I (foldl f a l).
Proof.
  revert a. induction l as [|b l IH]; simpl; intros a Ha Hf; [done|]. apply IH; [apply Hf; [done|by left]|].
  intros. apply Hf; [done|by right].
Qed.

Lemma flatten_ok levels prefix v : dict_ok (flatten levels prefix v).
Proof.
  destruct levels as [|n]; [by apply NoDup_nil_2|].
  destruct v as [|b|z|x|l|fields]; [by apply NoDup_nil_2|by apply NoDup_nil_2|by apply NoDup_singleton|by apply NoDup_singleton|..].
  - apply (foldl_invariant dict_ok); [by apply NoDup_nil_2|]. intros out [i sub] Hout _. by apply dict_ok_dupdate.
  - apply (foldl_invariant dict_ok); [by apply NoDup_nil_2|]. intros out [key sub] Hout _. destruct (_ <=? _)%nat; [done|]. by apply dict_ok_dupdate.
Qed.

(** ** The edges of a run are exactly what its calls show *)

Lemma elem_dedupe seen edges e : e ∈ dedupe_from seen edges → e ∈ edges ∧ ce_signature e ∉ seen.
Proof.
  revert seen. induction edges as [|x edges IH]; simpl; intros seen; [by intros ?%elem_of_nil|]. case_bool_decide as Hx.
  - intros [? ?]%IH. split; [by right|done].
  - intros [->|[? Hn]%IH]%elem_of_cons; [split; [by left|done]|]. split; [by right|]. intros ?. apply Hn. by right.
Qed.

Lemma dedupe_NoDup seen edges : NoDup (ce_signature <$> dedupe_from seen edges).
Proof.
  revert seen. induction edges as [|x edges IH]; simpl; intros seen; [apply NoDup_nil_2|]. case_bool_decide; [apply IH|].
  csimpl. apply NoDup_cons. split; [|apply IH]. intros (e & He & [_ Hn]%elem_dedupe)%list_elem_of_fmap. apply Hn. rewrite <- He. by left.
Qed.

Lemma dedupe_keeps seen edges s : s ∈ ce_signature <$> edges → s ∉ seen → s ∈ ce_signature <$> dedupe_from seen edges.
Proof.
  revert seen. induction edges as [|x edges IH]; csimpl; intros seen; [by intros ?%elem_of_nil|]. rewrite elem_of_cons. intros Hs Hn.
  case_bool_decide as Hx.
  - apply IH; [|done]. destruct Hs as [->|]; [done|done].
  - csimpl. destruct (decide (s = ce_signature x)) as [->|Hne]; [by left|]. right. apply IH; [by destruct Hs|].
    intros [->|?]%elem_of_cons; done.
Qed.

Section edges.
Variable casefold : text → text.
Variable general10 : Z → string.

Abbreviation normal := (normalise casefold general10).
Abbreviation edges_of := (edges_from casefold general10).
Abbreviation mined := (mine_edges casefold general10).

(** What an edge of a run stands for: two of its calls, the source before the target;
    a value the source, having succeeded, returned and the target was called with, or
    nothing in between. *)
Inductive observed (steps : list ToolInvocation) : ChainEdge → Prop :=
| observed_feeds i j source target sp sv tp tv n :
    steps !! i = Some source → steps !! j = Some target → (i < j)%nat → succeeded source = true →
    (sp, sv) ∈ iv_output_fields source → (tp, tv) ∈ flattened (JObj (iv_args_redacted target)) →
    normal sv = Some n → normal tv = Some n → observed steps (feeds_edge source target sp tp)
| observed_follows i source target :
    steps !! i = Some source → steps !! S i = Some target → observed steps (follows_edge source target).

Lemma elem_target_values tp n target :
  (tp, n) ∈ target_values casefold general10 target ↔ ∃ tv, (tp, tv) ∈ flattened (JObj (iv_args_redacted target)) ∧ normal tv = Some n.
Proof.
  unfold target_values. rewrite list_elem_of_omap. split.
  - intros ([p v] & Hin & Hn). destruct (normal v) eqn:Hv; [|done]. injection Hn as <- <-. by exists v.
  - intros (tv & Hin & Hn). exists (tp, tv). by rewrite Hn.
Qed.

Lemma elem_feeds source target e : e ∈ feeds casefold general10 source target ↔ succeeded source = true ∧ ∃ sp sv tp tv n,
  (sp, sv) ∈ iv_output_fields source ∧ (tp, tv) ∈ flattened (JObj (iv_args_redacted target)) ∧
  normal sv = Some n ∧ normal tv = Some n ∧ e = feeds_edge source target sp tp.
Proof.
  unfold feeds. destruct (succeeded source); [|split; [by intros ?%elem_of_nil|by intros []]]. rewrite list_elem_of_bind. split.
  - intros ([sp sv] & He & Hsp). split; [done|]. destruct (normal sv) as [n|] eqn:Hn; [|by apply elem_of_nil in He].
    apply list_elem_of_omap in He as ([tp m] & Htp & He). case_bool_decide; [|done]. injection He as <-. subst m.
    apply elem_target_values in Htp as (tv & Htv & Hm). by exists sp, sv, tp, tv, n.
  - intros (_ & sp & sv & tp & tv & n & Hsp & Htp & Hn & Hm & ->). exists (sp, sv). split; [|done]. rewrite Hn. apply list_elem_of_omap.
    exists (tp, n). rewrite bool_decide_true by done. split; [|done]. apply elem_target_values. by exists tv.
Qed.

Lemma edges_from_observed earlier steps e : e ∈ edges_of earlier steps ↔
  ∃ done_ target rest, steps = done_ ++ target :: rest ∧
    ((∃ source, source ∈ earlier ++ done_ ∧ e ∈ feeds casefold general10 source target)
     ∨ (∃ previous, last (earlier ++ done_) = Some previous ∧ e = follows_edge previous target)).
Proof.
  revert earlier. induction steps as [|x steps IH]; intros earlier.
  - split; [by intros ?%elem_of_nil|]. intros ([|] & target & rest & [=] & _).
  - cbn [edges_from]. rewrite !elem_of_app, list_elem_of_bind, IH. split.
    + intros [(source & He & Hs)|[He|(dn & target & rest & -> & Hc)]].
      * exists [], x, steps. rewrite app_nil_r. split; [done|]. left. by exists source.
      * exists [], x, steps. rewrite app_nil_r. split; [done|]. right. destruct (last earlier); [|by apply elem_of_nil in He].
        apply list_elem_of_singleton in He as ->. by eexists.
      * exists (x :: dn), target, rest. split; [done|]. by rewrite <- app_assoc in Hc.
    + intros ([|y dn] & target & rest & Hs & Hc); injection Hs as -> ->.
      * rewrite app_nil_r in Hc. destruct Hc as [(source & Hs & He)|(p & Hp & ->)]; [left; by exists source|right; left].
        rewrite Hp. by apply list_elem_of_singleton.
      * right; right. exists dn, target, rest. split; [done|]. by rewrite <- app_assoc.
Qed.

Lemma observed_edges steps e : e ∈ edges_of [] steps ↔ observed steps e.
Proof.
  rewrite edges_from_observed. split.
  - intros (dn & target & rest & -> & [(source & [i Hi]%list_elem_of_lookup & He)|(p & Hp & ->)]).
    + apply elem_feeds in He as (Hok & sp & sv & tp & tv & n & Hsp & Htp & Hn & Hm & ->).
      apply (observed_feeds _ i (length dn) source target sp sv tp tv n); [by apply lookup_app_l_Some| |by eapply lookup_lt_Some|done..].
      by rewrite list_lookup_middle.
    + rewrite app_nil_l, last_lookup in Hp. apply (observed_follows _ (Nat.pred (length dn))); [by apply lookup_app_l_Some|].
      apply lookup_lt_Some in Hp as Hlt. replace (S (Nat.pred (length dn))) with (length dn) by lia. by rewrite list_lookup_middle.
  - intros [i j source target sp sv tp tv n Hi Hj Hlt Hok Hsp Htp Hn Hm|i source target Hi Hj].
    + exists (take j steps), target, (drop (S j) steps). split; [by rewrite take_drop_middle|]. left. exists source. split.
      * apply list_elem_of_lookup. exists i. by rewrite app_nil_l, lookup_take_lt.
      * apply elem_feeds. split; [done|]. by exists sp, sv, tp, tv, n.
    + exists (take (S i) steps), target, (drop (S (S i)) steps). split; [by rewrite take_drop_middle|]. right. exists source. split; [|done].
      rewrite app_nil_l. by rewrite (take_S_r _ _ source), last_snoc.
Qed.

Lemma mined_observed t e : e ∈ mined t → observed (tj_steps t) e.
Proof. intros [He _]%elem_dedupe. by apply observed_edges. Qed.

Lemma mined_complete t e : observed (tj_steps t) e → ce_signature e ∈ ce_signature <$> mined t.
Proof. intros He%observed_edges. apply dedupe_keeps; [by apply list_elem_of_fmap_2|]. by intros ?%elem_of_nil. Qed.

Lemma mined_NoDup t : NoDup (ce_signature <$> mined t).
Proof. apply dedupe_NoDup. Qed.

(** The call an observed edge ends at is one of the run's. *)
Lemma observed_target steps e : observed steps e → ∃ x, x ∈ steps ∧ iv_id x = ce_target_invocation e.
Proof. by destruct 1; exists target; (split; [eapply list_elem_of_lookup_2|]). Qed.
End edges.

(** ** The statistics of an edge count the runs that show it *)

Definition entry (s : Signature) (table : list EdgeSupport) : option EdgeSupport := head (filter (λ e, es_signature e = s) table).

Lemma count_edge_signature t edge e : es_signature (count_edge t edge e) = es_signature e.
Proof. unfold count_edge. by destruct (head _). Qed.

Lemma entry_signature s table e : entry s table = Some e → es_signature e = s ∧ e ∈ table.
Proof.
  unfold entry. intros He. assert (e ∈ filter (λ e, es_signature e = s) table) as Hin; [|by apply list_elem_of_filter in Hin].
  destruct (filter _ _); [done|]. injection He as ->. by left.
Qed.

Lemma entry_with s s' f table : (∀ e, es_signature (f e) = es_signature e) →
  entry s (with_entry s' f table) = if decide (s = s') then Some (f (default (no_support s') (entry s' table))) else entry s table.
Proof.
  unfold entry. intros Hf. induction table as [|e table IH]; cbn [with_entry].
  - rewrite filter_cons, Hf. cbn [no_support es_signature]. rewrite filter_nil.
    destruct (decide (s = s')) as [->|Hne]; [by rewrite decide_True|by rewrite decide_False].
  - destruct (decide (es_signature e = s')) as [He|He]; rewrite !filter_cons, ?Hf.
    + destruct (decide (s = s')) as [->|Hne]; [by rewrite !decide_True|]. by rewrite !decide_False by congruence.
    + rewrite (decide_False (P := es_signature e = s')) by done. destruct (decide (es_signature e = s)) as [Hs|Hs]; [|exact IH].
      rewrite decide_False; [done|]. congruence.
Qed.

Lemma with_entry_signatures s f table : (∀ e, es_signature (f e) = es_signature e) →
  es_signature <$> with_entry s f table =
  if decide (s ∈ es_signature <$> table) then es_signature <$> table else (es_signature <$> table) ++ [s].
Proof.
  intros Hf. induction table as [|e table IH]; csimpl.
  - by rewrite Hf.
  - destruct (decide (es_signature e = s)) as [<-|Hne]; csimpl.
    + rewrite decide_True by by left. by rewrite Hf.
    + rewrite IH. destruct (decide (s ∈ es_signature <$> table)); [by rewrite decide_True by by right|].
      rewrite decide_False; [done|]. intros [->|?]%elem_of_cons; done.
Qed.

Lemma with_entry_NoDup s f table : (∀ e, es_signature (f e) = es_signature e) →
  NoDup (es_signature <$> table) → NoDup (es_signature <$> with_entry s f table).
Proof.
  intros Hf Hn. rewrite with_entry_signatures by done. case_decide; [done|]. apply NoDup_app. split_and!; [done| |apply NoDup_singleton].
  by intros x Hx ->%list_elem_of_singleton.
Qed.

Section statistics.
Variable casefold : text → text.
Variable general10 : Z → string.

Abbreviation mined := (mine_edges casefold general10).

(** The runs that show an edge of a signature. *)
Definition runs_with (s : Signature) (l : list Trajectory) : list Trajectory := filter (λ t, s ∈ ce_signature <$> mined t) l.

(** The entry of a signature says how many runs show it and how many of those worked. *)
Record counts_runs (l : list Trajectory) (e : EdgeSupport) : Prop := {
  cr_seen : runs_with (es_signature e) l ≠ [];
  cr_support : es_support e = Z.of_nat (length (runs_with (es_signature e) l));
  cr_total : es_successes e + es_failures e = es_support e;
  cr_successes : 0 ≤ es_successes e ≤ Z.of_nat (length (filter (λ t, tj_succeeded t = true) (runs_with (es_signature e) l)));
  cr_failures : 0 ≤ es_failures e;
}.

Definition entry_right (l : list Trajectory) (s : Signature) (o : option EdgeSupport) : Prop :=
  match o with Some e => es_signature e = s ∧ counts_runs l e | None => runs_with s l = [] end.

Lemma runs_with_snoc s l t : runs_with s (l ++ [t]) = runs_with s l ++ (if decide (s ∈ ce_signature <$> mined t) then [t] else []).
Proof. unfold runs_with. rewrite filter_app, filter_cons, filter_nil. done. Qed.

Lemma entry_folded t edges s table : NoDup (ce_signature <$> edges) →
  entry s (foldl (λ table edge, with_entry (ce_signature edge) (count_edge t edge) table) table edges) =
  match head (filter (λ e, ce_signature e = s) edges) with
  | Some edge => Some (count_edge t edge (default (no_support s) (entry s table)))
  | None => entry s table
  end.
Proof.
  revert table. induction edges as [|x edges IH]; csimpl; intros table; [done|]. intros [Hx Hn]%NoDup_cons. rewrite IH by done.
  rewrite entry_with by apply count_edge_signature. rewrite filter_cons. destruct (decide (ce_signature x = s)) as [<-|Hne].
  - rewrite (decide_True (P := ce_signature x = ce_signature x)) by done. cbn [head].
    destruct (filter _ _) as [|y l] eqn:Hl; [done|]. exfalso. apply Hx.
    assert (y ∈ filter (λ e, ce_signature e = ce_signature x) edges) as [Hy ?]%list_elem_of_filter by (rewrite Hl; by left).
    rewrite <- Hy. by apply list_elem_of_fmap_2.
  - by rewrite (decide_False (P := s = ce_signature x)) by congruence.
Qed.

(** One run more. *)
Lemma counted_run l t edge e s : edge ∈ mined t → ce_signature edge = s → entry_right l s e →
  entry_right (l ++ [t]) s (Some (count_edge t edge (default (no_support s) e))).
Proof.
  intros Hedge Hs He. assert (s ∈ ce_signature <$> mined t) as Hin by (rewrite <- Hs; by apply list_elem_of_fmap_2).
  assert (es_signature (default (no_support s) e) = s) as Hsig by (destruct e; [apply He|done]).
  split; [by rewrite count_edge_signature|].
  assert (∃ target, head (filter (λ x, iv_id x = ce_target_invocation edge) (tj_steps t)) = Some target) as [target Htarget].
  { apply mined_observed, observed_target in Hedge as (x & Hx & Hid). destruct (filter _ _) as [|y r] eqn:Hl; [|by exists y].
    exfalso. apply (not_elem_of_nil x). rewrite <- Hl. by apply list_elem_of_filter. }
  assert (es_support (default (no_support s) e) = Z.of_nat (length (runs_with s l)) ∧
    es_successes (default (no_support s) e) + es_failures (default (no_support s) e) = es_support (default (no_support s) e) ∧
    0 ≤ es_successes (default (no_support s) e) ≤ Z.of_nat (length (filter (λ t, tj_succeeded t = true) (runs_with s l))) ∧
    0 ≤ es_failures (default (no_support s) e)) as (Hsup & Htot & Hsucc & Hfail).
  { destruct e as [e|]; [destruct He as [<- []]; cbn; tauto|]. cbn [entry_right] in He. rewrite He. cbn. lia. }
  unfold count_edge. rewrite Htarget. cbv zeta.
  split; cbn [es_signature es_support es_successes es_failures]; rewrite ?Hsig, ?runs_with_snoc, ?decide_True by done.
  - by destruct (runs_with s l).
  - rewrite length_app. cbn [length]. lia.
  - destruct (succeeded target && tj_succeeded t); lia.
  - rewrite filter_app, length_app, filter_cons, filter_nil. destruct (tj_succeeded t); rewrite ?andb_true_r, ?andb_false_r;
      [rewrite decide_True by done|rewrite decide_False by done]; cbn [length]; destruct (succeeded target); lia.
  - destruct (succeeded target && tj_succeeded t); lia.
Qed.

Lemma accumulate_run_right l table t : (∀ s, entry_right l s (entry s table)) →
  ∀ s, entry_right (l ++ [t]) s (entry s (accumulate_run casefold general10 table t)).
Proof.
  intros Hr s. unfold accumulate_run. rewrite entry_folded by apply mined_NoDup.
  destruct (head _) as [edge|] eqn:Hh.
  - assert (edge ∈ filter (λ e, ce_signature e = s) (mined t)) as [Hs He]%list_elem_of_filter.
    { destruct (filter _ _); [done|]. injection Hh as ->. by left. }
    by apply counted_run.
  - assert (s ∉ ce_signature <$> mined t) as Hnot.
    { intros (e & -> & He)%list_elem_of_fmap. destruct (filter _ _) as [|y r] eqn:Hl; [|done]. apply (not_elem_of_nil e). rewrite <- Hl.
      by apply list_elem_of_filter. }
    specialize (Hr s). destruct (entry s table) as [e|]; cbn in *; [|by rewrite runs_with_snoc, decide_False, app_nil_r].
    destruct Hr as [<- []]. split; [done|]. split; rewrite ?runs_with_snoc, ?decide_False, ?app_nil_r; done.
Qed.

Lemma accumulate_right l : (∀ s, entry_right l s (entry s (accumulate casefold general10 l))) ∧
  NoDup (es_signature <$> accumulate casefold general10 l).
Proof.
  unfold accumulate. induction l as [|t l [IH Hn]] using rev_ind; [split; [done|apply NoDup_nil_2]|]. rewrite foldl_app. cbn [foldl].
  split; [by apply accumulate_run_right|]. unfold accumulate_run. apply foldl_invariant; [done|]. intros table edge Ht _.
  by apply with_entry_NoDup; [apply count_edge_signature|].
Qed.

Lemma elem_entry table e : NoDup (es_signature <$> table) → e ∈ table → entry (es_signature e) table = Some e.
Proof.
  unfold entry. induction table as [|x table IH]; csimpl; [by intros _ ?%elem_of_nil|]. intros [Hx Hn]%NoDup_cons He.
  rewrite filter_cons. apply elem_of_cons in He as [->|He]; [by rewrite decide_True|]. rewrite decide_False; [by apply IH|].
  intros Heq. apply Hx. rewrite Heq. by apply list_elem_of_fmap_2.
Qed.

(** C19: The statistics of the runs of a task are exact. The table has one entry for
    each edge a run shows and no other - a value that one call returned and a later
    one was given, or one call right after another - and its support is the number of
    runs that show it, each a success or a failure, a success only in a run that
    succeeded. *)
Theorem accumulate_exact l :
  NoDup (es_signature <$> accumulate casefold general10 l) ∧
  (∀ e, e ∈ accumulate casefold general10 l → counts_runs l e) ∧
  ∀ s, s ∈ es_signature <$> accumulate casefold general10 l ↔
    ∃ t e, t ∈ l ∧ observed casefold general10 (tj_steps t) e ∧ ce_signature e = s.
Proof.
  destruct (accumulate_right l) as [Hr Hn]. split_and!; [done| |].
  - intros e He. specialize (Hr (es_signature e)). rewrite elem_entry in Hr by done. apply Hr.
  - intros s. split.
    + intros (e & -> & He)%list_elem_of_fmap. specialize (Hr (es_signature e)). rewrite elem_entry in Hr by done. destruct Hr as [_ [Hseen _ _ _ _]].
      destruct (runs_with (es_signature e) l) as [|t r] eqn:Hl; [done|].
      assert (t ∈ runs_with (es_signature e) l) as [(edge & Hs & Hedge)%list_elem_of_fmap Ht]%list_elem_of_filter by (rewrite Hl; by left).
      exists t, edge. split_and!; [done|by apply mined_observed|done].
    + intros (t & e & Ht & He & <-). specialize (Hr (ce_signature e)). destruct (entry _ _) as [x|] eqn:Hx.
      * apply entry_signature in Hx as [<- Hx]. by apply list_elem_of_fmap_2.
      * exfalso. cbn in Hr. apply (not_elem_of_nil t). rewrite <- Hr. apply list_elem_of_filter. split; [by apply mined_complete|done].
Qed.
End statistics.
