(* ===== verification/Procedures.v ===== *)
(** * Procedures: what worked, in what order
    (modules/tools/procedures.py)

    The runs of one task pattern that worked are folded into one ordered list of
    steps: the longest chain enough of them follow, each argument bound to the earlier
    output it came from, or to the constant it always was. *)
From Stdlib Require Import QArith Qminmax.
From S2P Require Import Prelude Text Dict Feedback Tools Trajectories.
#[local] Open Scope Z_scope.

Record Binding := {
  bn_argument : string;
  bn_source_step : option nat;
  bn_source_field : option string;
  bn_literal : option json;
}.

Definition resolvable_from_trajectory (b : Binding) : bool :=
  bool_decide (is_Some (bn_source_step b)) && bool_decide (is_Some (bn_source_field b)).

Record ProcedureStep := {
  ps_ordinal : nat;
  ps_tool : string;
  ps_bindings : list Binding;
  ps_expected_output : list string;
  ps_support : Z;
  ps_success_rate : Q;
  ps_median_latency_ms : option Q;
  ps_median_cost : option Q;
  ps_failure_modes : dict string;
}.

Definition preconditions (s : ProcedureStep) : list string :=
  omap (λ b, i ← bn_source_step b; f ← bn_source_field b; Some ("step" +:+ text_of_Z (Z.of_nat i) +:+ "." +:+ f)) (ps_bindings s).

Record Procedure := {
  pr_pattern : string;
  pr_steps : list ProcedureStep;
  pr_support : Z;
  pr_success_rate : Q;
  pr_last_used : option Z;
}.

Definition tools (p : Procedure) : list string := ps_tool <$> pr_steps p.

(** ** The chain most runs follow *)

(** One call more: a retry of the same tool is the same step, which is the call that worked. *)
Definition add_step (out : list ToolInvocation) (call : ToolInvocation) : list ToolInvocation :=
  match last out with
  | Some previous =>
      if bool_decide (iv_tool_name previous = iv_tool_name call) then
        if succeeded call || negb (succeeded previous) then take (Nat.pred (length out)) out ++ [call] else out
      else out ++ [call]
  | None => [call]
  end.
Definition _steps (t : Trajectory) : list ToolInvocation := foldl add_step [] (tj_steps t).

Definition sequence_of (t : Trajectory) : list string := iv_tool_name <$> _steps t.

Definition _follows (t : Trajectory) (sequence : list string) : bool :=
  bool_decide (take (length sequence) (sequence_of t) = sequence).

Abbreviation path := (list string).

(** [counts[p] += 1], of a dictionary in insertion order. *)
Fixpoint bump_path (p : path) (counts : list (path * nat)) : list (path * nat) :=
  match counts with
  | [] => [(p, 1%nat)]
  | (q, n) :: rest => if decide (p = q) then (q, S n) :: rest else (q, n) :: bump_path p rest
  end.

Definition prefixes (s : path) : list path := (λ n, take n s) <$> seq 1 (length s).

Definition path_counts (l : list Trajectory) : list (path * nat) :=
  foldl (λ counts t, foldl (λ counts p, bump_path p counts) counts (prefixes (sequence_of t))) [] l.

(** [max(items, key)] : the first of the greatest; [gt] compares keys. *)
Definition max_by {A} (gt : A → A → bool) (x : A) (l : list A) : A := foldl (λ best y, if gt y best then y else best) x l.

Definition required (runs : nat) : nat := Nat.max 2 ((runs + 1) / 2).

(** [a > b] of the lists of negated code points. *)
Fixpoint negated_after (a b : text) : bool :=
  match a, b with
  | [], _ => false
  | _ :: _, [] => true
  | x :: a', y :: b' => if (ord x =? ord y)%N then negated_after a' b' else (ord x <? ord y)%N
  end.

Definition more_support (a b : path * nat) : bool :=
  (b.2 <? a.2)%nat || ((a.2 =? b.2)%nat && (length b.1 <? length a.1)%nat).

Definition longer_path (a b : path * nat) : bool :=
  (length b.1 <? length a.1)%nat
  || ((length a.1 =? length b.1)%nat
      && ((b.2 <? a.2)%nat
          || ((a.2 =? b.2)%nat && negated_after (chars (default "" (head a.1))) (chars (default "" (head b.1)))))).

Definition _best_sequence (l : list Trajectory) : path :=
  match path_counts l with
  | [] => []
  | first :: rest =>
      match filter (λ c, required (length l) ≤ c.2)%nat (first :: rest) with
      | [] => (max_by more_support first rest).1
      | q :: qualifying => (max_by longer_path q qualifying).1
      end
  end.

(** ** Statistics of a step *)

Definition Qmax_of (l : list Q) : Q := match l with [] => 0%Q | x :: l' => foldl Qmax x l' end.
Definition Qmin_of (l : list Q) : option Q := match l with [] => None | x :: l' => Some (foldl Qmin x l') end.

Definition relevant (previous : string) (tool : string) (edges : list EdgeSupport) : list EdgeSupport :=
  filter (λ e, sg_source_tool (es_signature e) = previous ∧ sg_target_tool (es_signature e) = tool) edges.

Definition _apply_edge_stats (edges : list EdgeSupport) (previous : option string) (s : ProcedureStep) : ProcedureStep :=
  match previous with
  | None => s
  | Some p =>
      match relevant p (ps_tool s) edges with
      | [] => s
      | (e :: _) as l =>
          {| ps_ordinal := ps_ordinal s; ps_tool := ps_tool s; ps_bindings := ps_bindings s; ps_expected_output := ps_expected_output s;
             ps_support := foldl Z.max (es_support e) (es_support <$> l);
             ps_success_rate := Qmax_of (es_success_rate <$> l);
             ps_median_latency_ms := Qmin_of (omap median_latency_ms l);
             ps_median_cost := Qmin_of (omap median_cost l);
             ps_failure_modes := foldl (λ out e, dupdate (es_failure_modes e) out) (ps_failure_modes s) l |}
      end
  end.

(** The output paths of every sample that worked and returned something. *)
Definition _expected_output (samples : list ToolInvocation) : list string :=
  match filter (λ s, succeeded s = true ∧ iv_output_fields s ≠ []) samples with
  | [] => []
  | s :: rest => str_sorted (foldl (λ common s, filter (λ p, p ∈ (iv_output_fields s).*1) common) (fromkeys (iv_output_fields s).*1) rest)
  end.

Definition _ratio (a b : nat) : Q := match b with O => 0 | _ => inject_Z (Z.of_nat a) / inject_Z (Z.of_nat b) end.

Definition count_samples (samples : list ToolInvocation) (s : ProcedureStep) : ProcedureStep :=
  if ps_support s =? 0 then
    {| ps_ordinal := ps_ordinal s; ps_tool := ps_tool s; ps_bindings := ps_bindings s; ps_expected_output := ps_expected_output s;
       ps_support := Z.of_nat (length samples);
       ps_success_rate := _ratio (length (filter (λ s, succeeded s = true) samples)) (length samples);
       ps_median_latency_ms := ps_median_latency_ms s; ps_median_cost := ps_median_cost s; ps_failure_modes := ps_failure_modes s |}
  else s.

Section procedures.
(** [str.casefold], a number with ten significant digits, and the values a task names
    (modules/tools/patterns.py). *)
Variable casefold : text → text.
Variable general10 : Z → string.
Variable task_slots : string → list (string * string).

Abbreviation normal := (normalise casefold general10).

(** ** Where an argument comes from *)

Definition _about (t : Trajectory) : list string :=
  str_sorted (fromkeys ((λ '(_, v), encode (casefold (chars v))) <$> task_slots (tj_task t))).

Definition _same (left right : json) : bool :=
  match normal left, normal right with Some a, Some b => bool_decide (a = b) | _, _ => false end.

Fixpoint source_from (index : nat) (earlier : list ToolInvocation) (value : json) : option (nat * string) :=
  match earlier with
  | [] => None
  | step :: rest =>
      match head (filter (λ f, _same f.2 value = true) (iv_output_fields step)) with
      | Some (out_path, _) => Some (index, out_path)
      | None => source_from (S index) rest value
      end
  end.
Definition _source (earlier : list ToolInvocation) (value : json) : option (nat * string) := source_from 0 earlier value.

(** [str(value)], of a leaf. *)
Definition str_of (value : json) : string :=
  match value with JNum n => text_of_Z n | JStr s => s | JBool true => "True" | JBool false => "False" | _ => "None" end.

Definition _constant (value : json) (tasks : list (list string)) : bool :=
  (2 <=? length tasks)%nat && negb (existsb (λ about, bool_decide (encode (casefold (chars (str_of value))) ∈ about)) tasks).

(** What was seen of one argument: [observed], [named] and [sources] of its path. *)
Record Observed := {
  ob_values : list json;
  ob_named : list (list string);
  ob_source : option (nat * string);
}.
Definition unobserved : Observed := {| ob_values := []; ob_named := []; ob_source := None |}.

Definition observe (about : list string) (earlier : list ToolInvocation) (seen : dict Observed) (arg : string * json) : dict Observed :=
  let '(path, value) := arg in
  let o := default unobserved (dget path seen) in
  dset path {| ob_values := ob_values o ++ [value];
               ob_named := if decide (about ∈ ob_named o) then ob_named o else ob_named o ++ [about];
               ob_source := match ob_source o with Some s => Some s | None => _source earlier value end |} seen.

Definition observe_run (tool : string) (ordinal : nat) (sequence : path) (seen : dict Observed) (t : Trajectory) : dict Observed :=
  if negb (_follows t sequence) then seen
  else
    match _steps t !! ordinal with
    | None => seen
    | Some step =>
        if bool_decide (iv_tool_name step = tool)
        then foldl (observe (_about t) (take ordinal (_steps t))) seen (flattened (JObj (iv_args_redacted step)))
        else seen
    end.

Definition binding_of (arg : string * Observed) : Binding :=
  let '(path, o) := arg in
  match ob_source o with
  | Some (i, f) => {| bn_argument := path; bn_source_step := Some i; bn_source_field := Some f; bn_literal := None |}
  | None =>
      let literal :=
        match ob_values o with
        | v :: _ => if bool_decide (length (fromkeys (str_of <$> ob_values o)) = 1%nat) && _constant v (ob_named o) then Some v else None
        | [] => None
        end in
      {| bn_argument := path; bn_source_step := None; bn_source_field := None; bn_literal := literal |}
  end.

Definition by_path (a b : string * Observed) : bool := bool_decide (str_le a.1 b.1).

Definition _bindings (tool : string) (ordinal : nat) (sequence : path) (l : list Trajectory) : list Binding :=
  binding_of <$> sorted_by by_path (foldl (observe_run tool ordinal sequence) [] l).

(** ** The procedure *)

Definition mine_step (l successful : list Trajectory) (sequence : path) (ordinal : nat) (tool : string) : ProcedureStep :=
  let samples := filter (λ s, iv_tool_name s = tool) (successful ≫= tj_steps) in
  let previous := match ordinal with O => None | S i => sequence !! i end in
  count_samples samples (_apply_edge_stats (accumulate casefold general10 l) previous
    {| ps_ordinal := ordinal; ps_tool := tool; ps_bindings := _bindings tool ordinal sequence successful;
       ps_expected_output := _expected_output samples; ps_support := 0; ps_success_rate := 0;
       ps_median_latency_ms := None; ps_median_cost := None; ps_failure_modes := [] |}).

Definition worked (t : Trajectory) : bool := tj_succeeded t && negb (bool_decide (tj_steps t = [])).

Definition latest (l : list Z) : option Z := match l with [] => None | x :: l' => Some (foldl Z.max x l') end.

Definition mine_procedure (pattern : string) (l : list Trajectory) : option Procedure :=
  let successful := filter (λ t, worked t = true) l in
  let best := _best_sequence successful in
  match best with
  | [] => None
  | _ =>
      let matching := filter (λ t, _follows t best = true) successful in
      let total := filter (λ t, _follows t best = true) l in
      Some {| pr_pattern := pattern; pr_steps := imap (mine_step l successful best) best;
              pr_support := Z.of_nat (length matching); pr_success_rate := _ratio (length matching) (length total);
              pr_last_used := latest (iv_occurred_at <$> (total ≫= tj_steps)) |}
  end.
End procedures.

(** [decayed], with [idle_days] days of seconds. *)
Definition IDLE_SECONDS : Z := 60 * 86400.

Definition decayed (now : Z) (p : Procedure) : bool :=
  if negb (Qle_bool (1 # 2) (pr_success_rate p)) then true
  else match pr_last_used p with None => false | Some last_ => IDLE_SECONDS <? now - last_ end.

(** ** Retries are one step *)

(** The reference: consecutive equal names are one. *)
Fixpoint squash (l : list string) : list string :=
  match l with
  | x :: ((y :: _) as rest) => if bool_decide (x = y) then squash rest else x :: squash rest
  | _ => l
  end.

Lemma squash_snoc l x : squash (l ++ [x]) = match last l with
  | Some y => if bool_decide (y = x) then squash l else squash l ++ [x]
  | None => [x]
  end.
Proof.
  induction l as [|a l IH]; [done|]. destruct l as [|b l]; [cbn; by case_bool_decide; subst|].
  change (last (a :: b :: l)) with (last (b :: l)). change (squash ((a :: b :: l) ++ [x])) with
    (if bool_decide (a = b) then squash ((b :: l) ++ [x]) else a :: squash ((b :: l) ++ [x])).
  change (squash (a :: b :: l)) with (if bool_decide (a = b) then squash (b :: l) else a :: squash (b :: l)).
  rewrite IH. destruct (last (b :: l)) eqn:Hl; [|by apply last_None in Hl]. repeat case_bool_decide; done.
Qed.

Lemma take_pred_snoc {A} (l : list A) (x y : A) : take (Nat.pred (length (l ++ [x]))) (l ++ [x]) ++ [y] = l ++ [y].
Proof. rewrite length_app. cbn [length]. replace (Nat.pred (length l + 1)) with (length l) by lia. by rewrite take_app_length. Qed.

(** The steps of a run are its calls' tools with retries squashed, each step one of the
    calls; the last step is of the last call's tool. *)
Lemma steps_spec calls : let out := foldl add_step [] calls in
  iv_tool_name <$> out = squash (iv_tool_name <$> calls) ∧
  iv_tool_name <$> last out = iv_tool_name <$> last calls ∧ ∀ c, c ∈ out → c ∈ calls.
Proof.
  induction calls as [|c calls IH] using rev_ind; [by split_and!|]. cbv zeta in *. destruct IH as (Hn & Hl & Hin).
  rewrite foldl_app. cbn [foldl]. set (out := foldl add_step [] calls) in *. rewrite fmap_app, last_snoc. cbn [fmap list_fmap].
  rewrite squash_snoc, fmap_last, <- Hl, <- Hn. unfold add_step. destruct (last out) as [p|] eqn:Hp; cbn [fmap option_fmap option_map].
  - apply last_Some in Hp as [out' Hout]. case_bool_decide as Hpc; [destruct (_ || _)|].
    + rewrite Hout, take_pred_snoc. split_and!; [by rewrite !fmap_app; cbn [fmap list_fmap]; rewrite Hpc|by rewrite last_snoc|].
      intros x [Hx| ->%list_elem_of_singleton]%elem_of_app; [|by apply elem_of_app; right; left]. apply elem_of_app; left.
      apply Hin. rewrite Hout. apply elem_of_app. by left.
    + split_and!; [done|rewrite Hout, last_snoc; cbn; by rewrite Hpc|]. intros x Hx. apply elem_of_app. left. by apply Hin.
    + split_and!; [by rewrite fmap_app|by rewrite last_snoc|]. intros x [Hx|Hx]%elem_of_app; apply elem_of_app; [left; by apply Hin|by right].
  - apply last_None in Hp as ->. split_and!; [done|done|]. intros x ->%list_elem_of_singleton. apply elem_of_app. right. by left.
Qed.

Lemma sequence_of_squash t : sequence_of t = squash (iv_tool_name <$> tj_steps t).
Proof. apply steps_spec. Qed.

(** ** The counts of the prefixes *)

Definition followers (p : path) (l : list Trajectory) : nat := length (filter (λ t, _follows t p = true) l).

Definition count_of (p : path) (counts : list (path * nat)) : nat := default 0%nat (snd <$> head (filter (λ c, c.1 = p) counts)).

Lemma count_of_bump p q counts : count_of p (bump_path q counts) = (count_of p counts + if decide (p = q) then 1 else 0)%nat.
Proof.
  unfold count_of. induction counts as [|[r n] counts IH]; cbn [bump_path].
  - rewrite filter_cons, filter_nil. cbn [fst]. destruct (decide (p = q)) as [->|Hne]; [by rewrite decide_True|by rewrite decide_False].
  - destruct (decide (q = r)) as [->|Hqr]; rewrite !filter_cons; cbn [fst].
    + destruct (decide (p = r)) as [->|Hne]; [rewrite !decide_True by done; cbn; lia|]. rewrite !decide_False by done. lia.
    + destruct (decide (r = p)) as [->|Hne]; [|exact IH]. rewrite decide_False by done. cbn. lia.
Qed.

Lemma bump_keys p counts : (bump_path p counts).*1 = if decide (p ∈ counts.*1) then counts.*1 else counts.*1 ++ [p].
Proof.
  induction counts as [|[q n] counts IH]; csimpl; [done|]. destruct (decide (p = q)) as [->|Hne]; csimpl.
  - by rewrite decide_True by by left.
  - rewrite IH. destruct (decide (p ∈ counts.*1)); [by rewrite decide_True by by right|]. rewrite decide_False; [done|].
    intros [->|?]%elem_of_cons; done.
Qed.

Lemma elem_prefixes p s : p ∈ prefixes s ↔ p ≠ [] ∧ take (length p) s = p.
Proof.
  unfold prefixes. rewrite list_elem_of_fmap. split.
  - intros (n & -> & Hn%elem_of_seq). rewrite length_take, Nat.min_l by lia. split; [|done].
    intros He. apply (f_equal length) in He. rewrite length_take in He. cbn in He. lia.
  - intros [Hp Ht]. exists (length p). split; [done|]. apply elem_of_seq. destruct p; [done|]. apply (f_equal length) in Ht.
    rewrite length_take in Ht. cbn [length] in *. lia.
Qed.

Lemma prefixes_NoDup s : NoDup (prefixes s).
Proof.
  unfold prefixes. apply NoDup_fmap_2_strong; [|apply NoDup_seq]. intros a b Ha%elem_of_seq Hb%elem_of_seq Heq.
  apply (f_equal length) in Heq. rewrite !length_take in Heq. lia.
Qed.

Lemma count_of_bumps p l counts : NoDup l →
  count_of p (foldl (λ counts p, bump_path p counts) counts l) = (count_of p counts + if decide (p ∈ l) then 1 else 0)%nat.
Proof.
  revert counts. induction l as [|q l IH]; intros counts; [intros _; cbn; rewrite decide_False by apply not_elem_of_nil; lia|].
  intros [Hq Hn]%NoDup_cons. cbn [foldl]. rewrite IH, count_of_bump by done. destruct (decide (p = q)) as [->|Hne].
  - rewrite (decide_False (P := q ∈ l)), decide_True by (done || by left). lia.
  - destruct (decide (p ∈ l)); [rewrite decide_True by by right|rewrite decide_False by (intros [->|?]%elem_of_cons; done)]; lia.
Qed.

Lemma path_counts_snoc l t : path_counts (l ++ [t]) = foldl (λ counts p, bump_path p counts) (path_counts l) (prefixes (sequence_of t)).
Proof. unfold path_counts. by rewrite foldl_app. Qed.

Lemma follows_prefix t p : p ≠ [] → _follows t p = true ↔ p ∈ prefixes (sequence_of t).
Proof. intros Hp. unfold _follows. rewrite bool_decide_eq_true, elem_prefixes. tauto. Qed.

(** The count of a prefix is the number of runs that follow it. *)
Lemma path_counts_followers l p : p ≠ [] → count_of p (path_counts l) = followers p l.
Proof.
  intros Hp. unfold followers. induction l as [|t l IH] using rev_ind; [done|].
  rewrite path_counts_snoc, count_of_bumps, IH, filter_app, length_app, filter_cons, filter_nil by apply prefixes_NoDup. f_equal.
  destruct (decide (p ∈ prefixes (sequence_of t))) as [Hin|Hin]; [rewrite decide_True by by apply follows_prefix|rewrite decide_False by (rewrite follows_prefix by done; done)]; done.
Qed.

Lemma path_counts_keys l : NoDup (path_counts l).*1 ∧ ∀ p, p ∈ (path_counts l).*1 ↔ p ≠ [] ∧ (0 < followers p l)%nat.
Proof.
  induction l as [|t l [Hn Hk]] using rev_ind; [split; [apply NoDup_nil_2|]; intros p; split; [by intros ?%elem_of_nil|intros [_ Hlt]; cbn in Hlt; lia]|].
  rewrite path_counts_snoc. assert (∀ ps counts, NoDup counts.*1 → NoDup (foldl (λ counts p, bump_path p counts) counts ps).*1 ∧
    ∀ p, p ∈ (foldl (λ counts p, bump_path p counts) counts ps).*1 ↔ p ∈ counts.*1 ∨ p ∈ ps) as Hfold.
  { induction ps as [|q ps IHps]; intros counts Hc; cbn [foldl].
    - split; [done|]. intros p. split; [by left|]. intros [?|?%elem_of_nil]; done.
    - destruct (IHps (bump_path q counts)) as [Hn' Hin'].
      { rewrite bump_keys. case_decide; [done|]. apply NoDup_app. split_and!; [done| |apply NoDup_singleton]. by intros x ? ->%list_elem_of_singleton. }
      split; [done|]. intros p. rewrite Hin', bump_keys, elem_of_cons. case_decide; [|rewrite elem_of_app, list_elem_of_singleton]; [|tauto].
      split; [tauto|]. intros [?|[->|?]]; tauto. }
  destruct (Hfold (prefixes (sequence_of t)) _ Hn) as [Hn' Hin']. split; [done|]. intros p. rewrite Hin', Hk.
  unfold followers. rewrite filter_app, length_app, filter_cons, filter_nil. split.
  - intros [[? ?]|Hp]; [split; [done|lia]|]. assert (p ≠ []) as Hne by (by apply (elem_prefixes p (sequence_of t))). split; [done|].
    rewrite decide_True by (by apply follows_prefix). cbn. lia.
  - intros [Hne Hlt]. destruct (decide (_follows t p = true)) as [Hf|Hf]; [right; by apply follows_prefix|]. cbn in Hlt. left. split; [done|lia].
Qed.

(** ** The chain chosen *)

Section choosing.
Context {A : Type} (gt : A → A → bool).
Hypothesis gt_irrefl : ∀ a, gt a a = false.
Hypothesis gt_trans : ∀ a b c, gt a b = true → gt b c = true → gt a c = true.

Lemma max_by_spec x l : max_by gt x l ∈ x :: l ∧ ∀ y, y ∈ x :: l → gt y (max_by gt x l) = false.
Proof.
  unfold max_by. induction l as [|z l [IHin IHmax]] using rev_ind.
  - cbn [foldl]. split; [by left|]. by intros y ->%list_elem_of_singleton.
  - rewrite foldl_app. cbn [foldl]. set (best := foldl _ x l) in *. destruct (gt z best) eqn:Hz; (split; [|intros y Hy]).
    + right. apply elem_of_app. right. by left.
    + apply not_true_is_false. intros Hgt. pose proof (gt_trans _ _ _ Hgt Hz) as Hyb.
      rewrite app_comm_cons, elem_of_app, list_elem_of_singleton in Hy. destruct Hy as [Hy| ->]; [by rewrite IHmax in Hyb|by rewrite gt_irrefl in Hgt].
    + rewrite app_comm_cons. apply elem_of_app. by left.
    + rewrite app_comm_cons, elem_of_app, list_elem_of_singleton in Hy. destruct Hy as [Hy| ->]; [by apply IHmax|done].
Qed.
End choosing.

Lemma negated_irrefl a : negated_after a a = false.
Proof. induction a as [|x a IH]; [done|]. cbn. by rewrite N.eqb_refl. Qed.

Lemma negated_trans a b c : negated_after a b = true → negated_after b c = true → negated_after a c = true.
Proof.
  revert b c. induction a as [|x a IH]; intros [|y b] [|z c]; cbn; try done.
  destruct (N.eqb_spec (ord x) (ord y)) as [->|], (N.eqb_spec (ord y) (ord z)) as [Hyz|]; try done.
  - by apply IH.
  - rewrite <- Hyz in *. destruct (N.eqb_spec (ord x) (ord y)); [done|]. done.
  - rewrite !N.ltb_lt. intros. destruct (N.eqb_spec (ord x) (ord z)); [lia|]. apply N.ltb_lt. lia.
Qed.

Lemma more_support_true a b : more_support a b = true ↔ (b.2 < a.2 ∨ a.2 = b.2 ∧ length b.1 < length a.1)%nat.
Proof. unfold more_support. rewrite orb_true_iff, andb_true_iff, !Nat.ltb_lt, Nat.eqb_eq. done. Qed.

Lemma longer_path_true a b : longer_path a b = true ↔
  (length b.1 < length a.1 ∨ length a.1 = length b.1 ∧ (b.2 < a.2 ∨ a.2 = b.2 ∧
    negated_after (chars (default "" (head a.1))) (chars (default "" (head b.1))) = true))%nat.
Proof. unfold longer_path. rewrite !orb_true_iff, !andb_true_iff, !orb_true_iff, !andb_true_iff, !Nat.ltb_lt, !Nat.eqb_eq. done. Qed.

Lemma more_support_spec x l : max_by more_support x l ∈ x :: l ∧ ∀ y, y ∈ x :: l → more_support y (max_by more_support x l) = false.
Proof.
  apply max_by_spec.
  - intros a. apply not_true_is_false. rewrite more_support_true. lia.
  - intros a b c. rewrite !more_support_true. lia.
Qed.

Lemma longer_path_spec x l : max_by longer_path x l ∈ x :: l ∧ ∀ y, y ∈ x :: l → longer_path y (max_by longer_path x l) = false.
Proof.
  apply max_by_spec.
  - intros a. apply not_true_is_false. rewrite longer_path_true, negated_irrefl. intros [|[_ [|[_ ?]]]]; [lia|lia|done].
  - intros a b c. rewrite !longer_path_true. intros [|[? [|[? H1]]]] [|[? [|[? H2]]]]; try (left; lia); right; (split; [lia|]); try (left; lia).
    right. split; [lia|]. by eapply negated_trans.
Qed.

Lemma count_in l p n : (p, n) ∈ path_counts l → p ≠ [] ∧ n = followers p l.
Proof.
  intros Hin. destruct (path_counts_keys l) as [Hn Hk]. assert (p ∈ (path_counts l).*1) as Hp by (apply list_elem_of_fmap; by exists (p, n)).
  apply Hk in Hp as [Hne _]. split; [done|]. rewrite <- path_counts_followers by done. unfold count_of. clear Hk.
  induction (path_counts l) as [|[q m] counts IH]; [by apply elem_of_nil in Hin|]. csimpl in Hn. apply NoDup_cons in Hn as [Hq Hn].
  rewrite filter_cons. cbn [fst]. apply elem_of_cons in Hin as [[= <- <-]|Hin]; [by rewrite decide_True|].
  rewrite decide_False; [by apply IH|]. intros ->. apply Hq, list_elem_of_fmap. by exists (p, n).
Qed.

Lemma count_there l p : p ≠ [] → (0 < followers p l)%nat → (p, followers p l) ∈ path_counts l.
Proof.
  intros Hne Hlt. destruct (path_counts_keys l) as [_ Hk]. assert (p ∈ (path_counts l).*1) as ([q n] & Hq & Hin)%list_elem_of_fmap by by apply Hk. cbn in Hq. subst q.
  by destruct (count_in _ _ _ Hin) as [_ <-].
Qed.

(** What the chain of a list of runs is, when there is one: of the chains enough runs
    follow the longest, and of those the best followed; when no chain has enough runs,
    the best followed, and of those the longest. *)
Record chain_of (l : list Trajectory) (best : path) : Prop := {
  ch_nonempty : best ≠ [];
  ch_followed : (0 < followers best l)%nat;
  ch_enough : ∀ p, p ≠ [] → (required (length l) ≤ followers p l)%nat →
    (required (length l) ≤ followers best l ∧
     (length p < length best ∨ length p = length best ∧ followers p l ≤ followers best l))%nat;
  ch_few : (∀ p, p ≠ [] → (followers p l < required (length l))%nat) → ∀ p, p ≠ [] →
    (followers p l < followers best l ∨ followers p l = followers best l ∧ length p ≤ length best)%nat;
}.

Lemma best_sequence_chain l : _best_sequence l = [] ∧ (∀ t, t ∈ l → sequence_of t = []) ∨ chain_of l (_best_sequence l).
Proof.
  unfold _best_sequence. pose proof (count_there l) as Hthere. pose proof (λ p n, count_in l p n) as Hin.
  destruct (path_counts l) as [|first rest] eqn:Hc.
  { left. split; [done|]. intros t Ht. destruct (sequence_of t) as [|x s] eqn:Hs; [done|]. exfalso.
    apply (not_elem_of_nil ([x], followers [x] l)), Hthere; [done|]. unfold followers.
    assert (t ∈ filter (λ t, _follows t [x] = true) l) as Hf.
    { apply list_elem_of_filter. split; [|done]. unfold _follows. rewrite Hs. by apply bool_decide_eq_true. }
    destruct (filter _ l); [by apply elem_of_nil in Hf|]. cbn. lia. }
  right. destruct (filter _ (first :: rest)) as [|q qualifying] eqn:Hq.
  - destruct (more_support_spec first rest) as [Hbest Hmax]. destruct (max_by more_support first rest) as [best n] eqn:Hb.
    destruct (Hin _ _ Hbest) as [Hne ->]. cbn [fst].
    assert (∀ p, p ≠ [] → (0 < followers p l)%nat → (followers p l < required (length l))%nat ∧
      more_support (p, followers p l) (best, followers best l) = false) as Hall.
    { intros p Hp Hlt. pose proof (Hthere p Hp Hlt) as Hpin. split; [|by apply Hmax]. apply Nat.nle_gt. intros Hle.
      apply (not_elem_of_nil (p, followers p l)). rewrite <- Hq. by apply list_elem_of_filter. }
    assert (0 < followers best l)%nat as Hpos.
    { destruct (path_counts_keys l) as [_ Hk]. apply Hk. rewrite Hc. apply list_elem_of_fmap. by exists (best, followers best l). }
    split; [done|done| |].
    + intros p Hp Hle. destruct (Nat.eq_0_gt_0_cases (followers p l)) as [H0|Hlt]; [unfold required in Hle; lia|]. destruct (Hall p Hp Hlt). lia.
    + intros _ p Hp. destruct (Nat.eq_0_gt_0_cases (followers p l)) as [H0|Hlt]; [lia|]. destruct (Hall p Hp Hlt) as [_ Hm].
      assert (¬ more_support (p, followers p l) (best, followers best l) = true) as Hm' by congruence. rewrite more_support_true in Hm'. cbn in Hm'. lia.
  - destruct (longer_path_spec q qualifying) as [Hbest Hmax]. destruct (max_by longer_path q qualifying) as [best n] eqn:Hb.
    rewrite <- Hq in Hbest. apply list_elem_of_filter in Hbest as [Hn Hbest]. destruct (Hin _ _ Hbest) as [Hne ->]. cbn [fst snd] in *.
    split; [done|unfold required in Hn; lia| |].
    + intros p Hp Hle. split; [done|]. assert ((p, followers p l) ∈ first :: rest) as Hpin by (apply Hthere; [done|unfold required in Hle; lia]).
      assert (longer_path (p, followers p l) (best, followers best l) = false) as Hm.
      { apply Hmax. rewrite <- Hq. by apply list_elem_of_filter. }
      assert (¬ longer_path (p, followers p l) (best, followers best l) = true) as Hm' by congruence. rewrite longer_path_true in Hm'. cbn in Hm'. lia.
    + intros Hfew. specialize (Hfew best Hne). lia.
Qed.

(** ** Where the arguments of a step come from *)

Section provenance.
Variable casefold : text → text.
Variable general10 : Z → string.
Variable task_slots : string → list (string * string).

Abbreviation normal := (normalise casefold general10).
Abbreviation about := (_about casefold task_slots).
Abbreviation same := (_same casefold general10).
Abbreviation source := (_source casefold general10).
Abbreviation mine := (mine_procedure casefold general10 task_slots).

Lemma source_from_Some k earlier v i f : source_from casefold general10 k earlier v = Some (i, f) →
  (k ≤ i)%nat ∧ ∃ step w, earlier !! (i - k)%nat = Some step ∧ (f, w) ∈ iv_output_fields step ∧ same w v = true.
Proof.
  revert k. induction earlier as [|s earlier IH]; intros k; [done|]. cbn [source_from].
  destruct (head (filter _ (iv_output_fields s))) as [[g w]|] eqn:Hh.
  - intros [= <- <-]. split; [done|]. exists s, w. rewrite Nat.sub_diag. split; [done|].
    assert ((g, w) ∈ filter (λ x, same x.2 v = true) (iv_output_fields s)) as [? ?]%list_elem_of_filter by (destruct (filter _ _); [done|injection Hh as ->; by left]).
    done.
  - intros (Hk & step & w & Hs & Hf & Hw)%IH. split; [lia|]. exists step, w. by replace (i - k)%nat with (S (i - S k)) by lia.
Qed.

(** An argument that a run shows at a step of the chain, with what the run was about
    and the steps before. *)
Record shown := { sh_about : list string; sh_earlier : list ToolInvocation; sh_path : string; sh_value : json }.

Definition shown_by (tool : string) (ordinal : nat) (sequence : path) (t : Trajectory) : list shown :=
  if negb (_follows t sequence) then []
  else match _steps t !! ordinal with
       | Some step => if bool_decide (iv_tool_name step = tool)
                      then (λ '(p, v), {| sh_about := about t; sh_earlier := take ordinal (_steps t); sh_path := p; sh_value := v |})
                             <$> flattened (JObj (iv_args_redacted step))
                      else []
       | None => []
       end.

Definition observe_shown (seen : dict Observed) (s : shown) : dict Observed :=
  observe casefold general10 (sh_about s) (sh_earlier s) seen (sh_path s, sh_value s).

Lemma observe_runs_shown tool ordinal sequence l seen :
  foldl (observe_run casefold general10 task_slots tool ordinal sequence) seen l = foldl observe_shown seen (l ≫= shown_by tool ordinal sequence).
Proof.
  revert seen. induction l as [|t l IH]; intros seen; [done|]. cbn [foldl]. rewrite IH, bind_cons, foldl_app. f_equal.
  unfold observe_run, shown_by. destruct (negb _); [done|]. destruct (_steps t !! ordinal) as [step|]; [|done].
  case_bool_decide; [|done]. generalize (about t), (take ordinal (_steps t)), (flattened (JObj (iv_args_redacted step))). intros a e args.
  revert seen. induction args as [|[p v] args IHa]; intros seen; [done|]. cbn [foldl fmap list_fmap]. by rewrite IHa.
Qed.

(** What has been seen of each argument is all that was shown of it. *)
Definition seen_right (l : list shown) (p : string) (o : option Observed) : Prop :=
  let here := filter (λ s, sh_path s = p) l in
  match o with
  | None => here = []
  | Some o => here ≠ [] ∧ ob_values o = sh_value <$> here ∧ (∀ a, a ∈ ob_named o ↔ a ∈ sh_about <$> here) ∧ NoDup (ob_named o) ∧
              ob_source o = head (omap (λ s, source (sh_earlier s) (sh_value s)) here)
  end.

Lemma seen_all l : dict_ok (foldl observe_shown [] l) ∧ ∀ p, seen_right l p (dget p (foldl observe_shown [] l)).
Proof.
  induction l as [|s l [Hok IH]] using rev_ind; [split; [by apply NoDup_nil_2|done]|]. rewrite foldl_app. cbn [foldl].
  set (seen := foldl observe_shown [] l) in *. unfold observe_shown, observe. split; [by apply dict_ok_dset|]. intros p. rewrite dget_dset.
  specialize (IH p). unfold seen_right in *. rewrite filter_app, filter_cons, filter_nil.
  destruct (decide (p = sh_path s)) as [->|Hne]; [|rewrite decide_False, app_nil_r by done; exact IH].
  rewrite decide_True by done. set (here := filter _ l) in *. split_and!.
  - by destruct here.
  - cbn [ob_values]. rewrite fmap_app. destruct (dget (sh_path s) seen) as [o|]; [|by rewrite IH]. destruct IH as (_ & Hv & _). cbn. by rewrite Hv.
  - intros a. cbn [ob_named]. rewrite fmap_app, elem_of_app. cbn [fmap list_fmap]. rewrite list_elem_of_singleton.
    destruct (dget (sh_path s) seen) as [o|]; cbn [default id from_option].
    + destruct IH as (_ & _ & Hn & _). case_decide as Hs; [rewrite Hn in Hs |- *|rewrite elem_of_app, list_elem_of_singleton, Hn]; [|done].
      split; [by left|]. by intros [?| ->].
    + rewrite IH. unfold unobserved. cbn [ob_named]. case_decide as Hs; [by apply elem_of_nil in Hs|]. cbn. rewrite list_elem_of_singleton.
      split; [by right|]. by intros [?%elem_of_nil|].
  - cbn [ob_named]. case_decide as Hs; [|apply NoDup_app; split_and!; [|by intros x Hx ->%list_elem_of_singleton|apply NoDup_singleton]];
      (destruct (dget (sh_path s) seen) as [o|]; [apply IH|apply NoDup_nil_2]).
  - cbn [ob_source]. rewrite omap_app. destruct (dget (sh_path s) seen) as [o|]; cbn [default id from_option].
    + destruct IH as (_ & _ & _ & _ & Hsrc). rewrite Hsrc. destruct (omap _ here); [|done]. cbn. by destruct (source _ _).
    + rewrite IH. cbn. by destruct (source _ _).
Qed.

Lemma elem_shown_by tool ordinal sequence t s : s ∈ shown_by tool ordinal sequence t ↔
  _follows t sequence = true ∧ (∃ step, _steps t !! ordinal = Some step ∧ iv_tool_name step = tool ∧
    (sh_path s, sh_value s) ∈ flattened (JObj (iv_args_redacted step))) ∧ sh_about s = about t ∧ sh_earlier s = take ordinal (_steps t).
Proof.
  unfold shown_by. destruct (_follows t sequence); cbn [negb]; [|split; [by intros ?%elem_of_nil|by intros []]].
  destruct (_steps t !! ordinal) as [step|]; [|split; [by intros ?%elem_of_nil|by intros (_ & (? & ? & _) & _)]].
  case_bool_decide as Ht; [|split; [by intros ?%elem_of_nil|by intros (_ & (? & [= <-] & ? & _) & _)]]. rewrite list_elem_of_fmap. split.
  - intros ([p v] & -> & Hin). split_and!; [done| |done|done]. by exists step.
  - intros (_ & (? & [= <-] & _ & Hin) & Ha & He). exists (sh_path s, sh_value s). split; [|done]. destruct s. cbn in *. by subst.
Qed.

(** A run gives a step's argument a value. *)
Definition gives (sequence : path) (ordinal : nat) (tool arg : string) (t : Trajectory) (v : json) : Prop :=
  _follows t sequence = true ∧ ∃ step, _steps t !! ordinal = Some step ∧ iv_tool_name step = tool ∧
    (arg, v) ∈ flattened (JObj (iv_args_redacted step)).

(** What a binding claims of the runs that gave its argument at its step: an earlier
    step returned the value, in one of them; or all of them gave that constant, two of
    them were about different things, and no task of theirs names it. *)
Definition justified (l : list Trajectory) (sequence : path) (ordinal : nat) (tool : string) (b : Binding) : Prop :=
  (∃ t v, t ∈ l ∧ gives sequence ordinal tool (bn_argument b) t v) ∧
  (∀ i, bn_source_step b = Some i → (i < ordinal)%nat ∧ ∃ f t step w v, bn_source_field b = Some f ∧ t ∈ l ∧
     gives sequence ordinal tool (bn_argument b) t v ∧ _steps t !! i = Some step ∧ (f, w) ∈ iv_output_fields step ∧ same w v = true) ∧
  (∀ c, bn_literal b = Some c → bn_source_step b = None ∧
     (∀ t v, t ∈ l → gives sequence ordinal tool (bn_argument b) t v →
        str_of v = str_of c ∧ encode (casefold (chars (str_of c))) ∉ about t) ∧
     ∃ t t' v v', t ∈ l ∧ t' ∈ l ∧ gives sequence ordinal tool (bn_argument b) t v ∧ gives sequence ordinal tool (bn_argument b) t' v' ∧
       about t ≠ about t').

Lemma fromkeys_one {A} `{EqDecision A} (l : list A) x y : length (fromkeys l) = 1%nat → x ∈ l → y ∈ l → x = y.
Proof.
  intros Hl Hx Hy. rewrite <- elem_of_fromkeys in Hx, Hy. destruct (fromkeys l) as [|z [|]]; [done| |done].
  apply list_elem_of_singleton in Hx, Hy. congruence.
Qed.

Lemma bindings_justified l sequence ordinal tool b :
  b ∈ _bindings casefold general10 task_slots tool ordinal sequence l → justified l sequence ordinal tool b.
Proof.
  unfold _bindings. rewrite observe_runs_shown. intros ([p o] & -> & Hin)%list_elem_of_fmap. rewrite elem_sorted_by in Hin.
  destruct (seen_all (l ≫= shown_by tool ordinal sequence)) as [Hok Hall]. apply elem_dget in Hin; [|done]. specialize (Hall p). rewrite Hin in Hall.
  destruct Hall as (Hne & Hv & Hn & Hnn & Hs). set (here := filter _ _) in *.
  assert (∀ s, s ∈ here → ∃ t, t ∈ l ∧ gives sequence ordinal tool p t (sh_value s) ∧ sh_about s = about t ∧ sh_earlier s = take ordinal (_steps t)) as Hhere.
  { intros s [<- (t & Hst & Ht)%list_elem_of_bind]%list_elem_of_filter. apply elem_shown_by in Hst as (Hf & Hstep & Ha & He). by exists t. }
  assert (∀ t v, t ∈ l → gives sequence ordinal tool p t v → ∃ s, s ∈ here ∧ sh_value s = v ∧ sh_about s = about t) as Hgive.
  { intros t v Ht (Hf & Hstep). exists {| sh_about := about t; sh_earlier := take ordinal (_steps t); sh_path := p; sh_value := v |}.
    split_and!; [|done|done]. apply list_elem_of_filter. split; [done|]. apply list_elem_of_bind. exists t. split; [|done]. by apply elem_shown_by. }
  assert (bn_argument (binding_of casefold (p, o)) = p) as Harg by (unfold binding_of; by destruct (ob_source o) as [[]|]).
  unfold justified. rewrite Harg. split_and!.
  - destruct here as [|s r]; [done|]. destruct (Hhere s ltac:(by left)) as (t & Ht & Hg & _). by exists t, (sh_value s).
  - intros i Hi. unfold binding_of in Hi |- *. destruct (ob_source o) as [[i' f]|]; [|done]. injection Hi as ->.
    assert ((i, f) ∈ omap (λ s, source (sh_earlier s) (sh_value s)) here) as (s & Hsh & Hsrc)%list_elem_of_omap.
    { destruct (omap _ _); [done|]. injection Hs as <-. by left. }
    destruct (Hhere s Hsh) as (t & Ht & Hg & _ & He). rewrite He in Hsrc. apply source_from_Some in Hsrc as (_ & step & w & Hst & Hf & Hw).
    rewrite Nat.sub_0_r in Hst. apply lookup_take_Some in Hst as [Hst Hlt]. split; [done|]. by exists f, t, step, w, (sh_value s).
  - intros c Hc. unfold binding_of in Hc |- *. destruct (ob_source o) as [[]|]; [done|]. cbn [bn_literal bn_source_step] in *. split; [done|].
    rewrite Hv in Hc. destruct (sh_value <$> here) as [|v vs] eqn:Hvs; [done|]. case_bool_decide as Hone; [|done].
    destruct (_constant casefold v (ob_named o)) eqn:Hk; [|done]. injection Hc as <-.
    apply andb_true_iff in Hk as [Htwo%Nat.leb_le Hnone%negb_true_iff]. split.
    + intros t w Ht Hg. destruct (Hgive t w Ht Hg) as (s & Hsh & Hw & Ha). split.
      * apply (fromkeys_one (str_of <$> v :: vs)); [done| |by left]. rewrite <- Hvs, <- Hw. by do 2 apply list_elem_of_fmap_2.
      * intros Hin'. assert (existsb (λ a, bool_decide (encode (casefold (chars (str_of v))) ∈ a)) (ob_named o) = true); [|congruence].
        apply existsb_exists. exists (about t). split; [|by apply bool_decide_eq_true]. apply list_elem_of_In, Hn. rewrite <- Ha. by apply list_elem_of_fmap_2.
    + destruct (ob_named o) as [|a [|a' rest]]; [cbn in Htwo; lia|cbn in Htwo; lia|]. apply NoDup_cons in Hnn as [Hne' _].
      pose proof (proj1 (Hn a) ltac:(by left)) as (s & -> & Hsh)%list_elem_of_fmap.
      pose proof (proj1 (Hn a') ltac:(right; by left)) as (s' & -> & Hsh')%list_elem_of_fmap.
      destruct (Hhere s Hsh) as (t & Ht & Hg & Ha & _), (Hhere s' Hsh') as (t' & Ht' & Hg' & Ha' & _).
      exists t, t', (sh_value s), (sh_value s'). rewrite <- Ha, <- Ha'. split_and!; try done. intros Heq. apply Hne'. rewrite Heq. by left.
Qed.

(** ** The procedure *)

Lemma stats_keep edges previous samples s : let s' := count_samples samples (_apply_edge_stats edges previous s) in
  ps_tool s' = ps_tool s ∧ ps_ordinal s' = ps_ordinal s ∧ ps_bindings s' = ps_bindings s.
Proof.
  unfold count_samples, _apply_edge_stats. destruct previous as [p|]; [destruct (relevant p (ps_tool s) edges)|];
    cbv zeta; destruct (_ =? 0); done.
Qed.

Lemma mined_inv pattern l p : mine pattern l = Some p → let ok := filter (λ t, worked t = true) l in
  _best_sequence ok ≠ [] ∧ tools p = _best_sequence ok ∧
  pr_steps p = imap (mine_step casefold general10 task_slots l ok (tools p)) (tools p) ∧ pr_pattern p = pattern ∧
  pr_support p = Z.of_nat (followers (tools p) ok) ∧ pr_success_rate p = _ratio (followers (tools p) ok) (followers (tools p) l).
Proof.
  unfold mine_procedure. cbv zeta. set (ok := filter _ l). destruct (_best_sequence ok) as [|x best] eqn:Hb; [done|]. intros [= <-].
  assert (∀ f q, (∀ i x, ps_tool (f i x) = x) → ps_tool <$> imap f q = q) as Hmap.
  { intros f q. revert f. induction q as [|y q IH]; intros f Hf; [done|]. cbn. rewrite Hf. f_equal. apply IH. intros; apply Hf. }
  assert (∀ p, pr_steps p = imap (mine_step casefold general10 task_slots l ok (x :: best)) (x :: best) → tools p = x :: best) as Ht.
  { intros p Hp. unfold tools. rewrite Hp. apply Hmap. intros i y. unfold mine_step. by apply stats_keep. }
  rewrite Ht by reflexivity. by split_and!.
Qed.

Lemma worked_sequence t : worked t = true → sequence_of t ≠ [].
Proof.
  unfold worked. intros [_ Hn%negb_true_iff%bool_decide_eq_false]%andb_true_iff. rewrite sequence_of_squash. destruct (tj_steps t) as [|x steps]; [done|].
  clear Hn. intros Hs. revert x Hs. induction steps as [|y steps IH]; intros x; [done|]. csimpl.
  change (squash (iv_tool_name x :: iv_tool_name y :: (iv_tool_name <$> steps))) with
    (if bool_decide (iv_tool_name x = iv_tool_name y) then squash (iv_tool_name y :: (iv_tool_name <$> steps))
     else iv_tool_name x :: squash (iv_tool_name y :: (iv_tool_name <$> steps))).
  case_bool_decide; [|done]. apply (IH y).
Qed.

Lemma followers_worked p l : (followers p (filter (λ t, worked t = true) l) ≤ followers p l)%nat.
Proof.
  unfold followers. induction l as [|t l IH]; [done|]. rewrite !filter_cons. destruct (decide (worked t = true)); [rewrite filter_cons|];
    destruct (decide (_follows t p = true)); cbn [length]; lia.
Qed.

Lemma ratio_spec a b : (0 < a)%nat → (a ≤ b)%nat → ((0 < _ratio a b)%Q ∧ (_ratio a b <= 1)%Q) ∧ (_ratio a b * inject_Z (Z.of_nat b) == inject_Z (Z.of_nat a))%Q.
Proof.
  intros Ha Hab. destruct b as [|b]; [lia|]. unfold _ratio. set (d := inject_Z (Z.of_nat (S b))).
  assert (0 < d)%Q as Hd by (unfold d, Qlt; cbn; lia). split; [split|].
  - apply Qlt_shift_div_l; [done|]. rewrite Qmult_0_l. unfold Qlt; cbn; lia.
  - apply Qle_shift_div_r; [done|]. rewrite Qmult_1_l. unfold d. rewrite <- Zle_Qle. lia.
  - field. intros Hz. rewrite Hz in Hd. by apply Qlt_irrefl in Hd.
Qed.

(** The latest instant is one of them. *)
Lemma latest_newest l : match latest l with None => l = [] | Some x => x ∈ l ∧ ∀ y, y ∈ l → y ≤ x end.
Proof.
  unfold latest. destruct l as [|x l]; [done|]. revert x. induction l as [|z l IH]; intros x; cbn [foldl].
  - split; [by left|]. by intros y ->%list_elem_of_singleton.
  - destruct (IH (Z.max x z)) as [Hin Hmax]. split.
    + apply elem_of_cons in Hin as [->|Hin]; [|by do 2 right]. destruct (Z.max_spec x z) as [[_ ->]|[_ ->]]; [right; by left|by left].
    + pose proof (Hmax (Z.max x z) ltac:(by left)). intros y [->|[->|Hy]%elem_of_cons]%elem_of_cons; [lia|lia|]. apply Hmax. by right.
Qed.

Lemma mined_last pattern l p : mine pattern l = Some p →
  pr_last_used p = latest (iv_occurred_at <$> (filter (λ t, _follows t (tools p) = true) l ≫= tj_steps)).
Proof.
  intros Hm. destruct (mined_inv _ _ _ Hm) as (_ & Ht & _). rewrite Ht. revert Hm. unfold mine_procedure. cbv zeta.
  destruct (_best_sequence _); [done|]. by intros [= <-].
Qed.

(** A procedure that has not decayed was followed by a run with a call not long ago. *)
Lemma lately_followed now pattern l p : mine pattern l = Some p → decayed now p = false →
  ∃ r c, r ∈ l ∧ _follows r (tools p) = true ∧ c ∈ tj_steps r ∧ now - iv_occurred_at c ≤ IDLE_SECONDS.
Proof.
  intros Hm Hd. pose proof (mined_last _ _ _ Hm) as Hl. destruct (mined_inv _ _ _ Hm) as (Hne & Ht & _).
  destruct (best_sequence_chain (filter (λ t, worked t = true) l)) as [[? _]|[_ Hpos _ _]]; [done|]. rewrite <- Ht in Hpos.
  pose proof (latest_newest (iv_occurred_at <$> (filter (λ t, _follows t (tools p) = true) l ≫= tj_steps))) as Hs. rewrite <- Hl in Hs.
  unfold decayed in Hd. destruct (negb _); [done|]. destruct (pr_last_used p) as [x|].
  - destruct Hs as [(c & -> & (r & Hc & [Hf Hr]%list_elem_of_filter)%list_elem_of_bind)%list_elem_of_fmap _].
    exists r, c. apply Z.ltb_ge in Hd. by split_and!.
  - exfalso. unfold followers in Hpos. destruct (filter _ (filter _ l)) as [|r k] eqn:Hk; [cbn in Hpos; lia|].
    assert (r ∈ r :: k) as Hr by by left. rewrite <- Hk in Hr. apply list_elem_of_filter in Hr as [Hf [Hw Hr]%list_elem_of_filter].
    unfold worked in Hw. apply andb_true_iff in Hw as [_ Hw%negb_true_iff%bool_decide_eq_false].
    destruct (tj_steps r) as [|c cs] eqn:Hc; [done|]. apply fmap_nil_inv in Hs. apply (not_elem_of_nil c). rewrite <- Hs.
    apply list_elem_of_bind. exists r. rewrite Hc. split; [by left|]. by apply list_elem_of_filter.
Qed.

Lemma ratio_at_least a b : (3 # 5 <= _ratio a b)%Q → 3 * Z.of_nat b ≤ 5 * Z.of_nat a.
Proof.
  destruct b as [|b]; [lia|]. unfold _ratio. intros Hr. set (d := inject_Z (Z.of_nat (S b))) in *.
  assert (0 < d)%Q as Hd by (unfold d, Qlt; cbn; lia). apply (Qmult_le_r _ _ d Hd) in Hr.
  assert (inject_Z (Z.of_nat a) / d * d == inject_Z (Z.of_nat a))%Q as Heq.
  { field. intros Hz. rewrite Hz in Hd. by apply Qlt_irrefl in Hd. }
  rewrite Heq in Hr. unfold d, Qle in Hr. cbn in Hr. lia.
Qed.

(** C18: The procedure of a task is the chain of its runs that worked. There is one as
    soon as a run worked; its tools are the longest chain that half of those runs and
    two at least follow (the best followed chain when none has so many), retries being
    one step; its support is the number of those runs that follow it, and its rate
    their share of all the runs that follow it. *)
Theorem procedure_is_followed_chain pattern l : let ok := filter (λ t, worked t = true) l in
  match mine pattern l with
  | None => ok = []
  | Some p =>
      chain_of ok (tools p) ∧ (∀ i s, pr_steps p !! i = Some s → ps_ordinal s = i) ∧
      pr_support p = Z.of_nat (followers (tools p) ok) ∧ 0 < pr_support p ∧
      (0 < pr_success_rate p)%Q ∧ (pr_success_rate p <= 1)%Q ∧ (pr_success_rate p * inject_Z (Z.of_nat (followers (tools p) l)) == inject_Z (pr_support p))%Q
  end.
Proof.
  intros ok. destruct (mine pattern l) as [p|] eqn:Hm.
  - destruct (mined_inv _ _ _ Hm) as (Hne & Ht & Hsteps & _ & Hs & Hr). fold ok in Hne, Ht, Hs, Hr, Hsteps.
    destruct (best_sequence_chain ok) as [[? _]|Hc]; [done|]. rewrite <- Ht in Hc. pose proof (ch_followed _ _ Hc) as Hpos.
    destruct (ratio_spec (followers (tools p) ok) (followers (tools p) l)) as [Hrate Hmul]; [done|apply followers_worked|].
    rewrite Hs, Hr. split_and!; [done| |done|lia|apply Hrate|apply Hrate|done].
    intros i s. rewrite Hsteps, list_lookup_imap. destruct (tools p !! i) as [x|]; [|done]. intros [= <-]. by apply stats_keep.
  - unfold mine_procedure in Hm. fold ok in Hm. destruct (_best_sequence ok) eqn:Hb; [|done].
    destruct (best_sequence_chain ok) as [[_ Hall]|[Hc _ _ _]]; [|done]. destruct ok as [|t r] eqn:Hok; [done|]. exfalso.
    assert (t ∈ ok) as [Hw _]%list_elem_of_filter by (rewrite Hok; by left). apply (worked_sequence t Hw), Hall. by left.
Qed.

(** C17: A procedure invents nothing. An argument is bound to the output of an earlier
    step only if a run that worked and follows the chain passed such a value from that
    step to this one. It is bound to a constant only if every run that worked, follows
    the chain and gave the argument at that step gave it this text, two of those runs
    were about different things, and no task of those runs names it; a run that leaves
    the argument out has no say. And every argument was given by a run. *)
Theorem procedure_invents_nothing pattern l p i s b : mine pattern l = Some p → pr_steps p !! i = Some s → b ∈ ps_bindings s →
  justified (filter (λ t, worked t = true) l) (tools p) i (ps_tool s) b.
Proof.
  intros Hm Hs Hb. destruct (mined_inv _ _ _ Hm) as (_ & _ & Hsteps & _). rewrite Hsteps, list_lookup_imap in Hs.
  destruct (tools p !! i) as [x|]; [|done]. injection Hs as <-. revert Hb. unfold mine_step.
  rewrite (proj2 (proj2 (stats_keep _ _ _ _))), (proj1 (stats_keep _ _ _ _)). apply bindings_justified.
Qed.
End provenance.

(** ** An instance

    Two runs look a supplier up and pay it in euros; the second pays at the second
    attempt. The procedure is look up, then pay: the supplier is what the look-up
    returned, the currency a constant of the task. *)

Definition call_ (id tool : string) (step : Z) (args out : list (string * json)) (status : ToolStatus) (task : string) : ToolInvocation :=
  {| iv_id := id; iv_tenant := "acme"; iv_tool_id := tool; iv_tool_name := tool; iv_tool_version := 1; iv_run := Some task;
     iv_thread := None; iv_turn := None; iv_workspace := None; iv_user := Some "alice"; iv_agent := Some "helper";
     iv_principal := None; iv_step := step; iv_args_redacted := args; iv_args_hash := ""; iv_output_summary := "";
     iv_output_digest := None; iv_output_blob_ref := None; iv_output_fields := out; iv_status := status; iv_error_class := None;
     iv_latency := None; iv_cost := None; iv_task := task; iv_task_pattern := Some "pay {entity}"; iv_sub_calls := [];
     iv_visibility_keys := ["principal:acme/agent:alice/helper"]; iv_occurred_at := 100 + step |}.

Definition paying (supplier : string) (retry : bool) : Trajectory :=
  build_trajectory supplier
    ([call_ (supplier +:+ "_1") "lookup" 1 [("name", JStr supplier)] [("supplier.id", JStr (supplier +:+ "-77"))] TOk supplier]
     ++ (if retry then [call_ (supplier +:+ "_2") "pay" 2 [("to", JStr (supplier +:+ "-77"))] [] TError supplier] else [])
     ++ [call_ (supplier +:+ "_3") "pay" 3 [("to", JStr (supplier +:+ "-77")); ("currency", JStr "EUR")] [] TOk supplier]) true.

Definition mine_demo := mine_procedure casefold (λ _, "") (λ task, [("entity", task)]).

Lemma procedure_invents_nothing_witness : ∃ p s b1 b2,
  mine_demo "pay {entity}" [paying "Acme" false; paying "Bolt" true] = Some p ∧ tools p = ["lookup"; "pay"] ∧ pr_support p = 2 ∧
  pr_steps p !! 1%nat = Some s ∧ ps_bindings s = [b1; b2] ∧ bn_literal b1 = Some (JStr "EUR") ∧ bn_source_step b2 = Some 0%nat ∧
  bn_source_field b2 = Some "supplier.id" ∧
  justified casefold (λ _, "") (λ task, [("entity", task)]) (filter (λ t, worked t = true) [paying "Acme" false; paying "Bolt" true]) (tools p) 1 (ps_tool s) b2.
Proof.
  destruct (mine_demo "pay {entity}" [paying "Acme" false; paying "Bolt" true]) as [p|] eqn:Hp; [|by vm_compute in Hp].
  assert (tools p = ["lookup"; "pay"] ∧ pr_support p = 2) as [Ht Hs] by (vm_compute in Hp; by injection Hp as <-).
  destruct (pr_steps p !! 1%nat) as [s|] eqn:Hst; [|vm_compute in Hp; by injection Hp as <-].
  destruct (ps_bindings s) as [|b1 [|b2 [|]]] eqn:Hb; try (vm_compute in Hp; injection Hp as <-; cbn in Hst; by injection Hst as <-).
  exists p, s, b1, b2. split_and!; [done..| | | |].
  - vm_compute in Hp. injection Hp as <-. cbn in Hst. injection Hst as <-. cbn in Hb. by injection Hb as <- <-.
  - vm_compute in Hp. injection Hp as <-. cbn in Hst. injection Hst as <-. cbn in Hb. by injection Hb as <- <-.
  - vm_compute in Hp. injection Hp as <-. cbn in Hst. injection Hst as <-. cbn in Hb. by injection Hb as <- <-.
  - apply (procedure_invents_nothing casefold (λ _, "") (λ task, [("entity", task)]) "pay {entity}" [paying "Acme" false; paying "Bolt" true] p 1 s b2 Hp Hst).
    rewrite Hb. right. by left.
Defined.
