(* ===== verification/ToolEdges.v ===== *)
(** * ToolEdges: what recorded calls say about entities
    (modules/tools/edges.py)

    A call with an argument its catalog entry types used that entity; one that
    succeeded and had one such argument identifies it by the ids it returned. *)
From Stdlib Require Import QArith.
From S2P Require Import Prelude Ids Text Dict MemoryModel Feedback Tools GraphStore.
#[local] Open Scope Z_scope.

Definition TOOL_ENTITY_TYPE : string := "TOOL".
Definition IDENTIFIER_ENTITY_TYPE : string := "IDENTIFIER".
Definition IDENTIFIERS_MAX : nat := 3.
Definition _REDACTED : text := lit "[redacted]".
Definition _INDEX : regex := Then (One (λ c, bool_decide (c = chr "["))) (Then (Plus isdecimal) (One (λ c, bool_decide (c = chr "]")))).

Section edges.
(** The digest of [stable_key], and [str.casefold] with the normal form of [canonical_entity]. *)
Variable blake2b : string → string.
Variable casefold : text → text.
Variable canonical_entity : string → string.

Definition entity_id_for (t scope_key canonical : string) : string := "ent_" +:+ stable_key blake2b [t; scope_key; canonical].
Definition relation_id_for (t subject predicate object source : string) : string :=
  "rel_" +:+ stable_key blake2b [t; subject; predicate; object; source].

Definition _is_identifier (path : string) : bool :=
  let without := concat (re_split (chars path) _INDEX) in
  let leaf := casefold (default [] (last (split_on (chr ".") without))) in
  bool_decide (leaf = lit "id") || Text.starts_with (reverse (lit "_id")) (reverse leaf).

Definition _evidence (call : ToolInvocation) : EvidenceRef :=
  {| ev_source_type := EvToolResult; ev_source_id := iv_id call; ev_message_id := None; ev_document_id := None;
     ev_document_version_id := None; ev_chunk_id := None; ev_node_id := None; ev_page := None; ev_span := (None, None);
     ev_agent_id := iv_agent call; ev_agent_run_id := iv_run call; ev_tool_run_id := None; ev_observed_at := iv_occurred_at call;
     ev_source_hash := None; ev_confidence := None |}.

Definition _entity (call : ToolInvocation) (audience name entity_type : string) : Entity :=
  let canonical := canonical_entity name in
  {| e_id := entity_id_for (iv_tenant call) audience canonical; e_tenant := iv_tenant call; e_name := name; e_canonical_name := canonical;
     e_type := entity_type; e_aliases := []; e_scope_key := audience; e_visibility_keys := iv_visibility_keys call;
     e_evidence := [_evidence call]; e_mention_count := 1; e_revision := 1; e_summary := "" |}.

Definition _relation (call : ToolInvocation) (subject : Entity) (predicate words : string) (object : Entity) (detail : string) : Relation :=
  {| r_id := relation_id_for (iv_tenant call) (e_id subject) predicate (e_id object) (iv_id call); r_tenant := iv_tenant call;
     r_subject := e_id subject; r_predicate := predicate; r_object := e_id object; r_layer := layer_for predicate; r_scope_key := e_scope_key subject;
     r_visibility_keys := iv_visibility_keys call; r_valid_from := None; r_valid_to := None; r_observed_at := iv_occurred_at call;
     r_invalidated_at := None; r_status := "CURRENT"; r_superseded_by := None; r_confidence := if succeeded call then 1 else 1 # 2;
     r_evidence := [_evidence call]; r_memory_id := None; r_document_id := None;
     r_fact_text := e_name subject +:+ " " +:+ words +:+ " " +:+ e_name object; r_attributes := [("detail", JStr detail)] |}.

(** [str(value).strip()] of a text or an integer, if there is something left. *)
Definition text_value (value : json) : option text :=
  let t := match value with JStr s => strip (chars s) | JNum n => strip (chars (text_of_Z n)) | _ => [] end in
  match t with [] => None | _ => Some t end.

Definition _typed_arguments (call : ToolInvocation) (entry : ToolDescriptor) : list (string * string * string) :=
  omap (λ '(argument, entity_type),
    value ← dget argument (iv_args_redacted call);
    t ← text_value value;
    if bool_decide (t = _REDACTED) then None else Some (argument, encode t, entity_type))
    (merge_sort (λ a b : string * string, str_le a.1 b.1) (map_to_list (cf_argument_entity_types (td_fields entry)))).

Definition tool_edges (call : ToolInvocation) (entry : ToolDescriptor) : list Entity * list Relation :=
  match iv_visibility_keys call with
  | [] => ([], [])
  | audience :: _ =>
      match _typed_arguments call entry with
      | [] => ([], [])
      | typed =>
          let tool := _entity call audience (iv_tool_name call) TOOL_ENTITY_TYPE in
          let used := (λ '(argument, value, entity_type), (argument, _entity call audience value entity_type)) <$> typed in
          let entities := tool :: (snd <$> used) in
          let relations := (λ '(argument, e), _relation call tool "used_entity" "used entity" e argument) <$> used in
          match used with
          | [(_, subject)] =>
              if succeeded call then
                let ids := take IDENTIFIERS_MAX (filter (λ f, _is_identifier f.1 = true) (iv_output_fields call)) in
                let found := omap (λ '(path, value), pair path ∘ encode <$> text_value value) ids in
                let identifiers := (λ '(path, name), (path, _entity call audience name IDENTIFIER_ENTITY_TYPE)) <$> found in
                (entities ++ (snd <$> identifiers),
                 relations ++ ((λ '(path, e), _relation call subject "identified_by" "identified by" e path) <$> identifiers))
              else (entities, relations)
          | _ => (entities, relations)
          end
      end
  end.

(** Every edge of a call carries the call's audience, names the call as its evidence,
    and joins two of the entities that come with it. *)
Definition of_call (call : ToolInvocation) (entities : list Entity) (r : Relation) : Prop :=
  r_tenant r = iv_tenant call ∧ r_visibility_keys r = iv_visibility_keys call ∧ ev_source_id <$> r_evidence r = [iv_id call] ∧
  r_subject r ∈ e_id <$> entities ∧ r_object r ∈ e_id <$> entities.

Definition entity_of_call (call : ToolInvocation) (e : Entity) : Prop :=
  e_tenant e = iv_tenant call ∧ e_visibility_keys e = iv_visibility_keys call ∧ head (iv_visibility_keys call) = Some (e_scope_key e).

Lemma of_call_more call l l' r : (∀ e, e ∈ l → e ∈ l') → of_call call l r → of_call call l' r.
Proof.
  unfold of_call. intros Hl (? & ? & ? & Hs & Ho). apply list_elem_of_fmap in Hs as (a & Ha & Hin), Ho as (b & Hb & Hin').
  split_and!; [done..| |]; [rewrite Ha|rewrite Hb]; apply list_elem_of_fmap_2; auto.
Qed.

Lemma relation_of_call call a b l p w d : a ∈ l → b ∈ l → of_call call l (_relation call a p w b d).
Proof. intros Ha Hb. split_and!; try done; cbn [_relation r_subject r_object]; by apply list_elem_of_fmap_2. Qed.

Lemma tool_edges_of_call call entry : let '(entities, relations) := tool_edges call entry in
  (∀ e, e ∈ entities → entity_of_call call e) ∧ ∀ r, r ∈ relations → of_call call entities r.
Proof.
  unfold tool_edges. destruct (iv_visibility_keys call) as [|audience keys] eqn:Hk; [split; by intros ? ?%elem_of_nil|].
  destruct (_typed_arguments call entry) as [|a typed]; [split; by intros ? ?%elem_of_nil|].
  set (tool := _entity call audience (iv_tool_name call) TOOL_ENTITY_TYPE). set (used := _ <$> a :: typed).
  assert (∀ name ty, entity_of_call call (_entity call audience name ty)) as Hent by (intros; unfold entity_of_call; by rewrite Hk).
  assert (∀ e, e ∈ tool :: (snd <$> used) → entity_of_call call e) as Hents.
  { intros e [->|(p & -> & (x & -> & _)%list_elem_of_fmap)%list_elem_of_fmap]%elem_of_cons; [apply Hent|]. destruct x as [[? ?] ?]. apply Hent. }
  assert (∀ r, r ∈ ((λ '(argument, e), _relation call tool "used_entity" "used entity" e argument) <$> used) → of_call call (tool :: (snd <$> used)) r) as Hrels.
  { intros r ([arg e] & -> & Hin)%list_elem_of_fmap. apply relation_of_call; [by left|]. right. apply list_elem_of_fmap. by exists (arg, e). }
  destruct used as [|[arg subject] [|]]; [by split| |by split]. destruct (succeeded call); [|by split].
  set (found := omap _ _). split.
  - intros e [He|(p & -> & ([path name] & -> & _)%list_elem_of_fmap)%list_elem_of_fmap]%elem_of_app; [by apply Hents|apply Hent].
  - intros r [Hr|([path e] & -> & Hin)%list_elem_of_fmap]%elem_of_app.
    + apply (of_call_more _ (tool :: (snd <$> [(arg, subject)]))); [intros; apply elem_of_app; by left|by apply Hrels].
    + apply relation_of_call; apply elem_of_app; [left; right; by left|right]. apply list_elem_of_fmap. by exists (path, e).
Qed.
End edges.
