(* ===== verification/Learning.v ===== *)
(** * Learning: recorded calls become stored procedures
    (modules/tools/learning.py, adapters/db/tool_repository.py)

    The [tools.learn] job: for each task pattern and audience the calls not learned
    yet touch, the pattern is mined again and its one stored procedure updated. *)
From Stdlib Require Import QArith.
From stdpp Require Import sorting.
From S2P Require Import Prelude Errors Ids Text JsonText Dict Visibility Revisions Feedback Tools Trajectories Procedures GraphStore ToolEdges.
#[local] Open Scope Z_scope.

Definition LEARN_BATCH : nat := 500.
Definition PATTERN_CALLS_MAX : nat := 480.
Definition PROCEDURE_MIN_SUPPORT : Z := 2.
Definition PROCEDURE_MIN_SUCCESS_RATE : Q := 3 # 5.

#[export] Instance Q_eq_dec : EqDecision Q.
Proof. solve_decision. Defined.
#[export] Instance StoredProcedure_eq_dec : EqDecision StoredProcedure.
Proof. solve_decision. Defined.

(** [succeeded], of a run: its label, and its calls without one. *)
Definition run_succeeded (outcome : option RunOutcome) (calls : list ToolInvocation) : option bool :=
  let clean := forallb succeeded calls in
  let some := negb (bool_decide (calls = [])) in
  match outcome with
  | None => if negb some || negb clean then Some false else None
  | Some o =>
      if negb (teaches o) then None
      else if bool_decide (ro_source o = SYSTEM) && negb (ro_success o) && some && clean then None
      else Some (ro_success o)
  end.

(** ** Who a call is learned for *)

Definition _agent_private_key (call : ToolInvocation) : string :=
  let agent := default "None" (iv_agent call) in
  let principal := match iv_user call with
                   | Some u => if truthy u then "agent:" +:+ u +:+ "/" +:+ agent else "agent:" +:+ agent
                   | None => "agent:" +:+ agent
                   end in
  "principal:" +:+ iv_tenant call +:+ "/" +:+ principal.

(** [None] when the call has no audience: [visibility_keys[0]] raises. *)
Definition audience_of (call : ToolInvocation) : option (string * option string) :=
  match iv_visibility_keys call with
  | [] => None
  | key :: _ =>
      match iv_agent call with
      | Some a => if truthy a && bool_decide (key = _agent_private_key call) then Some (agent_audience (iv_tenant call) a, Some a) else Some (key, None)
      | None => Some (key, None)
      end
  end.

Definition contributors (calls : list ToolInvocation) : Z * option string :=
  let users := fromkeys (iv_user <$> calls) in
  (Z.of_nat (length users), match users with [u] => u | _ => None end).

(** ** What is stored of a procedure *)

Section payload.
(** How JSON keeps a float, [round(x, 4)], and the digest of [stable_hash]. *)
Variable jfloat : Q → json.
Variable round4 : Q → Q.
Variable sha : string → string.

Definition jstr (o : option string) : json := match o with Some s => JStr s | None => JNull end.

(** [to_payload], without its bindings. *)
Definition to_payload (s : ProcedureStep) : json :=
  JObj [("ordinal", JNum (Z.of_nat (ps_ordinal s))); ("tool", JStr (ps_tool s)); ("preconditions", JList (JStr <$> preconditions s));
        ("expected_output", JList (JStr <$> ps_expected_output s)); ("support", JNum (ps_support s));
        ("success_rate", jfloat (round4 (ps_success_rate s)));
        ("median_latency_ms", default JNull (jfloat <$> ps_median_latency_ms s)); ("median_cost", default JNull (jfloat <$> ps_median_cost s));
        ("failure_modes", JObj ((λ '(k, v), (k, JStr v)) <$> ps_failure_modes s))].

Definition binding_payload (ordinal : nat) (b : Binding) : json :=
  JObj [("step", JNum (Z.of_nat ordinal)); ("argument", JStr (bn_argument b));
        ("source_step", default JNull (JNum ∘ Z.of_nat <$> bn_source_step b)); ("source_field", jstr (bn_source_field b));
        ("literal", default JNull (bn_literal b))].

Definition steps_payload (p : Procedure) : list json := to_payload <$> pr_steps p.
Definition bindings_payload (p : Procedure) : list json := pr_steps p ≫= λ s, binding_payload (ps_ordinal s) <$> ps_bindings s.

Definition steps_fingerprint (p : Procedure) : string :=
  stable_hash sha (JObj [("tools", JList (JStr <$> tools p)); ("bindings", JList (bindings_payload p))]).

Definition admitted (now : Z) (mined : Procedure) : bool :=
  (PROCEDURE_MIN_SUPPORT <=? pr_support mined) && Qle_bool PROCEDURE_MIN_SUCCESS_RATE (pr_success_rate mined) && negb (decayed now mined).

Definition _status (now : Z) (mined : Procedure) (steps_hash : string) (existing : option StoredProcedure) : ProcedureStatus :=
  if match existing with
     | Some e => bool_decide (sp_status e = Rejected_) && bool_decide (sp_steps_hash e = steps_hash)
     | None => false
     end then Rejected_
  else if admitted now mined then Active
  else match existing with
       | Some e => if negb (bool_decide (sp_status e = Candidate)) then Retired else Candidate
       | None => Candidate
       end.

Definition new_procedure (new_id t audience pattern : string) (agent : option string) : StoredProcedure :=
  {| sp_id := new_id; sp_tenant := t; sp_scope_key := audience; sp_pattern := pattern; sp_steps := []; sp_bindings := [];
     sp_success_rate := 0; sp_support := 0; sp_status := Candidate; sp_steps_hash := ""; sp_workspace := None; sp_updated_at := 0;
     sp_agent := agent; sp_users := 0; sp_sole_user := None |}.

Definition merge (now : Z) (new_id : string) (existing : option StoredProcedure) (mined : option Procedure) (t audience : string)
    (owner : ToolInvocation) (agent : option string) (users : Z) (sole_user : option string) : option StoredProcedure :=
  match mined with
  | None =>
      match existing with
      | None => None
      | Some e => if bool_decide (sp_status e = Retired ∨ sp_status e = Rejected_) then None
                  else Some (with_procedure_status Retired now e)
      end
  | Some m =>
      let steps_hash := steps_fingerprint m in
      let base := match existing with Some e => e | None => new_procedure new_id t audience (pr_pattern m) agent end in
      Some {| sp_id := sp_id base; sp_tenant := sp_tenant base; sp_scope_key := sp_scope_key base; sp_pattern := sp_pattern base;
              sp_steps := steps_payload m; sp_bindings := bindings_payload m; sp_success_rate := round4 (pr_success_rate m);
              sp_support := pr_support m; sp_status := _status now m steps_hash existing; sp_steps_hash := steps_hash;
              sp_workspace := iv_workspace owner; sp_updated_at := now; sp_agent := sp_agent base; sp_users := users;
              sp_sole_user := sole_user |}
  end.

Definition _unchanged (merged : StoredProcedure) (existing : option StoredProcedure) : bool :=
  match existing with
  | Some e => bool_decide (with_procedure_status (sp_status merged) (sp_updated_at e) merged = e)
  | None => false
  end.
End payload.

(** ** The procedures table *)

Definition by_pattern_of (t scope_key pattern : string) (d : tool_tables) : option StoredProcedure :=
  head (filter (λ p, sp_tenant p = t ∧ sp_scope_key p = scope_key ∧ sp_pattern p = pattern) (rows (tt_procedures d))).
Definition by_pattern (t scope_key pattern : string) : tprog (option StoredProcedure) := gets (by_pattern_of t scope_key pattern).

Definition with_procedure_id (i : string) (p : StoredProcedure) : StoredProcedure :=
  {| sp_id := i; sp_tenant := sp_tenant p; sp_scope_key := sp_scope_key p; sp_pattern := sp_pattern p; sp_steps := sp_steps p;
     sp_bindings := sp_bindings p; sp_success_rate := sp_success_rate p; sp_support := sp_support p; sp_status := sp_status p;
     sp_steps_hash := sp_steps_hash p; sp_workspace := sp_workspace p; sp_updated_at := sp_updated_at p; sp_agent := sp_agent p;
     sp_users := sp_users p; sp_sole_user := sp_sole_user p |}.

(** Every column but the tenant and the id is overwritten when the pattern has a row. *)
Definition save_procedure (p : StoredProcedure) : tprog unit := λ d,
  let stored := match by_pattern_of (sp_tenant p) (sp_scope_key p) (sp_pattern p) d with
                | Some old => with_procedure_id (sp_id old) p
                | None => p
                end in
  (Ok tt, set_procedures (<[(sp_tenant p, sp_id stored) := stored]> (tt_procedures d)) d).

Definition outcomes (t : string) (runs : list string) : tprog (list (string * RunOutcome)) :=
  gets (λ d, omap (λ r, pair r <$> tt_outcomes d !! (t, r)) runs).

Definition catalog_by_ids (t : string) (ids : list string) : tprog (list ToolDescriptor) :=
  gets (λ d, filter (λ e, td_tenant e = t ∧ td_id e ∈ ids) (rows (tt_catalog d))).

(** ** The job *)

Record learn_state := {
  ln_tools : tool_tables;
  ln_revisions : revisions;
  ln_graph : option graph;
}.
Abbreviation lprog A := (prog learn_state A).

Definition on_tools {A} (m : tprog A) : lprog A :=
  zoom ln_tools (λ x s, {| ln_tools := x; ln_revisions := ln_revisions s; ln_graph := ln_graph s |}) m.
Definition on_revisions {A} (m : prog revisions A) : lprog A :=
  zoom ln_revisions (λ x s, {| ln_tools := ln_tools s; ln_revisions := x; ln_graph := ln_graph s |}) m.

Record pattern_group := { pg_tenant : string; pg_audience : string; pg_agent : option string; pg_pattern : string }.
#[export] Instance pattern_group_eq_dec : EqDecision pattern_group.
Proof. solve_decision. Defined.

Definition group_of (call : ToolInvocation) : option pattern_group :=
  match iv_task_pattern call with
  | Some pattern =>
      if truthy pattern then
        '(audience, agent) ← audience_of call;
        Some {| pg_tenant := iv_tenant call; pg_audience := audience; pg_agent := agent; pg_pattern := pattern |}
      else None
  | None => None
  end.

(** The order of the tuples [(tenant, audience, agent or "", pattern)]. *)
Definition group_key (g : pattern_group) : list string := [pg_tenant g; pg_audience g; default "" (pg_agent g); pg_pattern g].
Fixpoint key_le (a b : list string) : bool :=
  match a, b with
  | [], _ => true
  | _ :: _, [] => false
  | x :: a', y :: b' => if bool_decide (x = y) then key_le a' b' else String.ltb x y
  end.
Definition groups_of (calls : list ToolInvocation) : list pattern_group :=
  sorted_by (λ a b, key_le (group_key a) (group_key b)) (fromkeys (omap group_of calls)).

Definition runs_of (calls : list ToolInvocation) : list (string * list ToolInvocation) :=
  (λ r, (r, filter (λ c, iv_run c = Some r) calls)) <$>
  fromkeys (omap (λ c, match iv_run c with Some r => if truthy r then Some r else None | None => None end) calls).

Section job.
Variable casefold : text → text.
Variable general10 : Z → string.
Variable task_slots : string → list (string * string).
Variable jfloat : Q → json.
Variable round4 : Q → Q.
Variable sha : string → string.
Variable blake2b : string → string.
Variable canonical_entity : string → string.
(** The id a new procedure of a pattern gets. *)
Variable new_id : pattern_group → string.

Definition _trajectories (t : string) (calls : list ToolInvocation) : tprog (list Trajectory) :=
  let by_run := runs_of calls in
  bind (outcomes t by_run.*1) (λ labels,
  ret (omap (λ '(run, l), build_trajectory run l <$> run_succeeded (dget run labels) l) by_run)).

(** The newest calls of the pattern that its audience learns from. *)
Definition calls_of_group (g : pattern_group) : tprog (list ToolInvocation) :=
  match pg_agent g with
  | None => for_pattern (pg_tenant g) (pg_audience g) (pg_pattern g) PATTERN_CALLS_MAX
  | Some agent =>
      bind (for_agent_pattern (pg_tenant g) agent (pg_pattern g) PATTERN_CALLS_MAX) (λ l,
      if existsb (λ c, bool_decide (audience_of c = None)) l then raise IndexError
      else ret (filter (λ c, fst <$> audience_of c = Some (pg_audience g)) l))
  end.

Definition owner_of (calls : list ToolInvocation) : option ToolInvocation :=
  match filter (λ c, succeeded c = true) calls with c :: _ => Some c | [] => head calls end.

(** What [_mine] would store, from the tables as they are. *)
Definition remined (now : Z) (g : pattern_group) : tprog (option StoredProcedure) :=
  bind (calls_of_group g) (λ calls,
  bind (_trajectories (pg_tenant g) calls) (λ trajectories,
  bind (by_pattern (pg_tenant g) (pg_audience g) (pg_pattern g)) (λ existing,
  ret match owner_of calls with
      | None => None
      | Some owner =>
          let '(users, sole_user) := contributors calls in
          match merge jfloat round4 sha now (new_id g) existing (mine_procedure casefold general10 task_slots (pg_pattern g) trajectories)
                  (pg_tenant g) (pg_audience g) owner (pg_agent g) users sole_user with
          | None => None
          | Some merged => if _unchanged merged existing then None else Some merged
          end
      end))).

Definition _mine (now : Z) (g : pattern_group) : lprog unit :=
  bind (on_tools (remined now g)) (λ found,
  match found with
  | None => ret tt
  | Some merged =>
      bind (on_tools (save_procedure merged)) (λ _,
      bind (on_revisions (bump (pg_tenant g) RTenant "")) (λ _, ret tt))
  end).

Definition add_edges (entities : list Entity) (relations : list Relation) : lprog unit :=
  modify (λ s, {| ln_tools := ln_tools s; ln_revisions := ln_revisions s;
                  ln_graph := upsert_relations relations ∘ upsert_entities entities <$> ln_graph s |}).

Definition edge_audiences (t : string) (relations : list Relation) : gset revision_key :=
  ⋃ ((λ r, let keys := audience_revision_keys t (r_visibility_keys r) in
          if decide (keys = ∅) then {[ (RevGraph, "") ]} else keys) <$> relations).

(** The edges of one tenant's calls: the graph is written call by call, the counters after. *)
Definition tenant_edges (t : string) (calls : list ToolInvocation) : lprog unit :=
  bind (on_tools (catalog_by_ids t (str_sorted (fromkeys (iv_tool_id <$> calls))))) (λ entries,
  let found := omap (λ c, match head (filter (λ e, td_id e = iv_tool_id c) entries) with
                          | Some e => match tool_edges blake2b casefold canonical_entity c e with (_, []) => None | r => Some r end
                          | None => None
                          end) calls in
  bind (mapM_ (λ '(entities, relations), add_edges entities relations) found) (λ _,
  mapM_ (λ k : revision_key, let '(kind, i) := k in bind (on_revisions (bump t kind i)) (λ _, ret tt))
    (elements (edge_audiences t (found ≫= snd))))).

Definition by_tenant (calls : list ToolInvocation) : list (string * list ToolInvocation) :=
  (λ t, (t, filter (λ c, iv_tenant c = t) calls)) <$> fromkeys (iv_tenant <$> calls).

Definition _edges (calls : list ToolInvocation) : lprog unit := λ s,
  match ln_graph s with
  | None => (Ok tt, s)
  | Some _ => mapM_ (λ '(t, l), tenant_edges t l) (by_tenant calls) s
  end.

Definition learn (now : Z) (t : option string) : lprog nat :=
  bind (on_tools (unlearned t LEARN_BATCH)) (λ calls,
  match calls with
  | [] => ret 0%nat
  | _ =>
      bind (mapM_ (_mine now) (groups_of calls)) (λ _,
      bind (_edges calls) (λ _,
      bind (mapM_ (λ '(t, l), on_tools (mark_learned now t (iv_id <$> l))) (by_tenant calls)) (λ _,
      ret (length calls))))
  end).
End job.

(** ** One procedure of a pattern *)

(** A row is kept under its tenant and id, and the pattern's columns are unique. *)
Record procedures_ok (d : tool_tables) : Prop := {
  po_id : ∀ k p, tt_procedures d !! k = Some p → k = (sp_tenant p, sp_id p);
  po_unique : ∀ k j p q, tt_procedures d !! k = Some p → tt_procedures d !! j = Some q →
    sp_tenant p = sp_tenant q → sp_scope_key p = sp_scope_key q → sp_pattern p = sp_pattern q → k = j;
}.

Definition is_of (t a pattern : string) (p : StoredProcedure) : Prop := sp_tenant p = t ∧ sp_scope_key p = a ∧ sp_pattern p = pattern.

Lemma by_pattern_Some t a pattern d p : procedures_ok d →
  by_pattern_of t a pattern d = Some p ↔ tt_procedures d !! (t, sp_id p) = Some p ∧ is_of t a pattern p.
Proof.
  intros [Hid Hu]. unfold by_pattern_of. split.
  - intros Hp. assert (p ∈ filter (λ p, sp_tenant p = t ∧ sp_scope_key p = a ∧ sp_pattern p = pattern) (rows (tt_procedures d)))
      as [(<- & Ha & Hpat) [k Hk]%elem_of_rows]%list_elem_of_filter by (destruct (filter _ _); [done|injection Hp as ->; by left]).
    rewrite <- (Hid _ _ Hk). by split_and!.
  - intros [Hp (Ht & Ha & Hpat)]. destruct (filter _ _) as [|q l] eqn:Hl.
    + exfalso. apply (not_elem_of_nil p). rewrite <- Hl. apply list_elem_of_filter. split; [done|]. apply elem_of_rows. by eexists.
    + assert (q ∈ filter (λ p, sp_tenant p = t ∧ sp_scope_key p = a ∧ sp_pattern p = pattern) (rows (tt_procedures d)))
        as [(Ht' & Ha' & Hpat') [k Hk]%elem_of_rows]%list_elem_of_filter by (rewrite Hl; by left).
      assert (k = (t, sp_id p)) as -> by (eapply Hu; [done|done|congruence..]). cbn. congruence.
Qed.

Lemma by_pattern_None t a pattern d : procedures_ok d →
  by_pattern_of t a pattern d = None ↔ ∀ k p, tt_procedures d !! k = Some p → ¬ is_of t a pattern p.
Proof.
  intros Hok. split.
  - intros Hn k p Hp Hof. assert (by_pattern_of t a pattern d = Some p) as Hs; [|congruence]. apply by_pattern_Some; [done|].
    rewrite (po_id _ Hok _ _ Hp) in Hp. destruct Hof as (<- & ? & ?). by split_and!.
  - intros Hno. destruct (by_pattern_of t a pattern d) as [p|] eqn:Hp; [|done]. apply by_pattern_Some in Hp as [Hp Hof]; [|done].
    by destruct (Hno _ _ Hp).
Qed.

(** What saving a procedure comes to: its pattern's row is it, the others are as they were. *)
Definition same_calls_outcomes (d d' : tool_tables) : Prop := tt_calls d' = tt_calls d ∧ tt_outcomes d' = tt_outcomes d.

Lemma save_run p d r d' : procedures_ok d →
  match by_pattern_of (sp_tenant p) (sp_scope_key p) (sp_pattern p) d with
  | Some old => sp_id old = sp_id p
  | None => tt_procedures d !! (sp_tenant p, sp_id p) = None
  end → save_procedure p d = (r, d') →
  d' = set_procedures (<[(sp_tenant p, sp_id p) := p]> (tt_procedures d)) d ∧ procedures_ok d' ∧
  ∀ t a pattern, by_pattern_of t a pattern d' = if decide (is_of t a pattern p) then Some p else by_pattern_of t a pattern d.
Proof.
  intros Hok Hid Hrun. unfold save_procedure in Hrun.
  assert (d' = set_procedures (<[(sp_tenant p, sp_id p) := p]> (tt_procedures d)) d) as ->.
  { destruct (by_pattern_of _ _ _ d) as [old|]; injection Hrun as _ <-; [|done]. rewrite Hid. by destruct p. }
  clear Hrun. assert (procedures_ok (set_procedures (<[(sp_tenant p, sp_id p) := p]> (tt_procedures d)) d)) as Hok'.
  { split.
    - intros k q. cbn. rewrite lookup_insert_Some. intros [[<- <-]|[_ Hq]]; [done|by apply Hok].
    - assert (∀ k q, tt_procedures d !! k = Some q → is_of (sp_tenant p) (sp_scope_key p) (sp_pattern p) q → k = (sp_tenant p, sp_id p)) as Hsame.
      { intros k q Hq Hof. destruct (by_pattern_of _ _ _ d) as [old|] eqn:Hold.
        - apply by_pattern_Some in Hold as [Hold (Ho1 & Ho2 & Ho3)]; [|done]. rewrite <- Hid. destruct Hof as (Hq1 & Hq2 & Hq3).
          eapply (po_unique _ Hok); [done|done|congruence..].
        - destruct (proj1 (by_pattern_None _ _ _ _ Hok) Hold k q Hq Hof). }
      intros k j q1 q2. cbn. rewrite !lookup_insert_Some. intros [[<- <-]|[_ H1]] [[<- <-]|[_ H2]] ? ? ?; [done|..].
      + symmetry. by apply (Hsame _ q2).
      + by apply (Hsame _ q1).
      + by eapply (po_unique _ Hok). }
  split_and!; [done|done|]. intros t a pattern. case_decide as Hof.
  - apply by_pattern_Some; [done|]. split; [|done]. destruct Hof as (<- & _). cbn. by rewrite lookup_insert_eq.
  - destruct (by_pattern_of t a pattern d) as [q|] eqn:Hq.
    + apply by_pattern_Some in Hq as [Hq Hqof]; [|done]. apply by_pattern_Some; [done|]. split; [|done]. cbn. rewrite lookup_insert_ne; [done|].
      intros [= Ht Hi]. destruct (by_pattern_of (sp_tenant p) _ _ d) as [old|] eqn:Hold.
      * apply by_pattern_Some in Hold as [Hold Hoof]; [|done]. rewrite Hid, Hi, Ht, Hq in Hold. injection Hold as <-. apply Hof. destruct Hqof, Hoof.
        unfold is_of in *. split_and!; [done|naive_solver..].
      * congruence.
    + apply by_pattern_None; [done|]. intros k q. cbn. rewrite lookup_insert_Some. intros [[<- <-]|[_ Hk]]; [done|].
      by apply (proj1 (by_pattern_None _ _ _ _ Hok) Hq k q).
Qed.

(** ** Merging again *)

Section merging.
Variable jfloat : Q → json.
Variable round4 : Q → Q.
Variable sha : string → string.

Lemma status_again now m h existing st p : _status now m h existing = st → sp_status p = st → sp_steps_hash p = h →
  _status now m h (Some p) = st.
Proof.
  unfold _status. intros <- -> ->. rewrite (bool_decide_true (h = h)), andb_true_r by done.
  destruct (match existing with Some e => _ | None => false end); [by rewrite bool_decide_true|].
  destruct (admitted now m); [by rewrite bool_decide_false|]. destruct existing as [e|]; [destruct (negb _)|]; reflexivity.
Qed.

Lemma merge_again now i existing mined t a owner agent users sole p :
  merge jfloat round4 sha now i existing mined t a owner agent users sole = Some p →
  match merge jfloat round4 sha now i (Some p) mined t a owner agent users sole with
  | Some q => _unchanged q (Some p) = true
  | None => True
  end.
Proof.
  destruct mined as [m|]; cbn [merge].
  - intros Hp. injection Hp as <-. unfold _unchanged. apply bool_decide_eq_true. cbn [sp_status sp_updated_at].
    unfold with_procedure_status. cbn. f_equal. by eapply status_again.
  - destruct existing as [e|]; [|done]. case_bool_decide; [done|]. intros [= <-]. cbn. by rewrite bool_decide_true by by left.
Qed.

Lemma merge_names now i existing mined t a owner agent users sole p :
  merge jfloat round4 sha now i existing mined t a owner agent users sole = Some p →
  match existing with
  | Some e => sp_id p = sp_id e ∧ sp_tenant p = sp_tenant e ∧ sp_scope_key p = sp_scope_key e ∧ sp_pattern p = sp_pattern e
  | None => ∃ m, mined = Some m ∧ sp_id p = i ∧ sp_tenant p = t ∧ sp_scope_key p = a ∧ sp_pattern p = pr_pattern m
  end.
Proof.
  destruct mined as [m|]; cbn [merge].
  - intros [= <-]. destruct existing; [by split_and!|]. exists m. by split_and!.
  - destruct existing as [e|]; [|done]. case_bool_decide; [done|]. intros [= <-]. by split_and!.
Qed.
End merging.

(** ** Mining a pattern *)

Section mining.
Variable casefold : text → text.
Variable general10 : Z → string.
Variable task_slots : string → list (string * string).
Variable jfloat : Q → json.
Variable round4 : Q → Q.
Variable sha : string → string.
Variable blake2b : string → string.
Variable canonical_entity : string → string.
Variable new_id : pattern_group → string.

Abbreviation mined_of := (mine_procedure casefold general10 task_slots).
Abbreviation remined_ := (remined casefold general10 task_slots jfloat round4 sha new_id).
Abbreviation mine_ := (_mine casefold general10 task_slots jfloat round4 sha new_id).
Abbreviation learn_ := (learn casefold general10 task_slots jfloat round4 sha blake2b canonical_entity new_id).

Definition slot (g : pattern_group) (d : tool_tables) : option StoredProcedure := by_pattern_of (pg_tenant g) (pg_audience g) (pg_pattern g) d.
Definition slot_of (g : pattern_group) (p : StoredProcedure) : Prop := is_of (pg_tenant g) (pg_audience g) (pg_pattern g) p.

(** The runs a pattern is mined from: those with evidence either way. *)
Definition labelled (t : string) (calls : list ToolInvocation) (outs : gmap (string * string) RunOutcome) : list Trajectory :=
  let by_run := runs_of calls in
  omap (λ '(run, l), build_trajectory run l <$> run_succeeded (dget run (omap (λ r, pair r <$> outs !! (t, r)) by_run.*1)) l) by_run.

Definition proposal (now : Z) (g : pattern_group) (calls : list ToolInvocation) (outs : gmap (string * string) RunOutcome)
    (existing : option StoredProcedure) : option StoredProcedure :=
  match owner_of calls with
  | None => None
  | Some owner =>
      match merge jfloat round4 sha now (new_id g) existing (mined_of (pg_pattern g) (labelled (pg_tenant g) calls outs))
              (pg_tenant g) (pg_audience g) owner (pg_agent g) (contributors calls).1 (contributors calls).2 with
      | None => None
      | Some merged => if _unchanged merged existing then None else Some merged
      end
  end.

Lemma remined_eq now g d : remined_ now g d =
  match fst (calls_of_group g d) with
  | Ok calls => (Ok (proposal now g calls (tt_outcomes d) (slot g d)), d)
  | Raise e => (Raise e, d)
  end.
Proof.
  assert (snd (calls_of_group g d) = d) as Hd.
  { unfold calls_of_group. destruct (pg_agent g); [|done]. unfold for_agent_pattern, gets, bind. by destruct (existsb _ _). }
  unfold remined. unfold bind at 1. destruct (calls_of_group g d) as [[calls|e] d1]; cbn [fst snd] in *; subst d1; [|done]. done.
Qed.

Lemma proposal_again now g calls outs existing p : proposal now g calls outs existing = Some p → proposal now g calls outs (Some p) = None.
Proof.
  unfold proposal. destruct (owner_of calls) as [owner|]; [|done]. destruct (merge _ _ _ _ _ existing _ _ _ _ _ _ _) as [m|] eqn:Hm; [|done].
  destruct (_unchanged m existing); [done|]. intros [= ->]. apply merge_again in Hm. destruct (merge _ _ _ _ _ _ _ _ _ _ _ _ _) as [q|]; [|done]. by rewrite Hm.
Qed.

Lemma proposal_names now g calls outs d p : procedures_ok d → tt_procedures d !! (pg_tenant g, new_id g) = None →
  proposal now g calls outs (slot g d) = Some p →
  slot_of g p ∧ match slot g d with Some old => sp_id old = sp_id p | None => sp_id p = new_id g end.
Proof.
  intros Hok Hfresh. unfold proposal. destruct (owner_of calls) as [owner|]; [|done].
  destruct (merge _ _ _ _ _ (slot g d) _ _ _ _ _ _ _) as [m|] eqn:Hm; [|done].
  destruct (_unchanged m (slot g d)); [done|]. intros [= ->]. apply merge_names in Hm. destruct (slot g d) as [old|] eqn:Hs.
  - apply by_pattern_Some in Hs as [_ (H1 & H2 & H3)]; [|done]. destruct Hm as (-> & Ht & Ha & Hp). split; [|done].
    unfold slot_of, is_of. by rewrite Ht, Ha, Hp.
  - destruct Hm as (m & Hmined & Hi & Ht & Ha & Hp). split; [|done]. apply mined_inv in Hmined as (_ & _ & _ & Hpat & _).
    unfold slot_of, is_of. by rewrite Ht, Ha, Hp.
Qed.

(** The tables as one pattern's mining leaves them. *)
Record mined_step (now : Z) (g : pattern_group) (d d' : tool_tables) : Prop := {
  ms_calls : tt_calls d' = tt_calls d;
  ms_outcomes : tt_outcomes d' = tt_outcomes d;
  ms_ok : procedures_ok d';
  ms_others : ∀ t a pattern, (t, a, pattern) ≠ (pg_tenant g, pg_audience g, pg_pattern g) → by_pattern_of t a pattern d' = by_pattern_of t a pattern d;
  ms_rows : ∀ k p, tt_procedures d' !! k = Some p → tt_procedures d !! k = Some p ∨ slot_of g p ∧ (k = (pg_tenant g, new_id g) ∨ is_Some (tt_procedures d !! k));
  ms_slot : ∃ calls, fst (calls_of_group g d) = Ok calls ∧
    slot g d' = match proposal now g calls (tt_outcomes d) (slot g d) with Some p => Some p | None => slot g d end;
}.

Lemma mine_run now g (s : learn_state) u s' : procedures_ok (ln_tools s) → tt_procedures (ln_tools s) !! (pg_tenant g, new_id g) = None →
  mine_ now g s = (Ok u, s') → mined_step now g (ln_tools s) (ln_tools s').
Proof.
  intros Hok Hfresh Hrun. unfold _mine in Hrun. apply bind_Ok_inv in Hrun as (found & s1 & Hf & Hrun).
  unfold on_tools, zoom in Hf. rewrite remined_eq in Hf. destruct (fst (calls_of_group g (ln_tools s))) as [calls|] eqn:Hc; [|done].
  injection Hf as <- <-. destruct (proposal now g calls _ _) as [p|] eqn:Hp.
  - destruct (proposal_names now g calls _ _ _ Hok Hfresh Hp) as [Hof Hid].
    apply bind_Ok_inv in Hrun as ([] & s2 & Hsave & Hrun). apply bind_Ok_inv in Hrun as (v & s3 & Hb & [= _ <-]).
    assert (ln_tools s3 = ln_tools s2) as -> by (unfold on_revisions, zoom in Hb; cbn in Hb; by injection Hb as _ <-).
    unfold on_tools, zoom in Hsave. destruct (save_procedure p _) as [r d'] eqn:Hsv. injection Hsave as -> <-. cbn [ln_tools] in *.
    destruct Hof as (Ht & Ha & Hpat). unfold slot in *. rewrite <- Ht, <- Ha, <- Hpat in *.
    destruct (save_run p (ln_tools s) (Ok tt) d' Hok) as (-> & Hok' & Hslots); [|done|].
    { destruct (by_pattern_of _ _ _ (ln_tools s)); [done|]. by rewrite Hid. }
    split; [done|done|done| | |].
    + intros t a pattern Hne. rewrite Hslots. rewrite decide_False; [done|]. intros (<- & <- & <-). by rewrite Ht, Ha, Hpat in Hne.
    + intros k q. cbn. rewrite lookup_insert_Some. intros [[<- <-]|[_ Hq]]; [right|by left]. split; [by rewrite <- ?Ht, <- ?Ha, <- ?Hpat|].
      destruct (by_pattern_of _ _ _ (ln_tools s)) as [old|] eqn:Hold; [|left; by rewrite Hid, Ht]. right.
      apply by_pattern_Some in Hold as [Hold _]; [|done]. rewrite <- Hid. eauto.
    + exists calls. split; [done|]. unfold slot. rewrite <- Ht, <- Ha, <- Hpat. rewrite Hp. rewrite Hslots. by rewrite decide_True.
  - injection Hrun as _ <-. cbn [ln_tools]. split; [done|done|done|done|by left|]. exists calls. split; [done|]. by rewrite Hp.
Qed.

(** ** Mining every pattern a batch touches *)

Definition same_reads (d d' : tool_tables) : Prop := (∀ p, calls_of p d' = calls_of p d) ∧ tt_outcomes d' = tt_outcomes d.

Lemma calls_of_group_same g d d' : (∀ p, calls_of p d' = calls_of p d) → fst (calls_of_group g d') = fst (calls_of_group g d).
Proof.
  intros Hc. unfold calls_of_group, for_pattern, for_agent_pattern, gets, bind. destruct (pg_agent g); [|cbn; by rewrite Hc].
  rewrite Hc. by destruct (existsb _ _).
Qed.

(** Mining the pattern again would change nothing. *)
Definition settled (now : Z) (g : pattern_group) (d : tool_tables) : Prop := remined_ now g d = (Ok None, d).

Lemma settled_after now g d d' : mined_step now g d d' → settled now g d'.
Proof.
  intros [Hc Ho _ _ _ (calls & Hcalls & Hslot)]. unfold settled. rewrite remined_eq.
  rewrite (calls_of_group_same g d d') by (intros; unfold calls_of; by rewrite Hc). rewrite Hcalls, Ho, Hslot.
  destruct (proposal now g calls _ (slot g d)) as [p|] eqn:Hp; [by rewrite (proposal_again _ _ _ _ _ _ Hp)|]. by rewrite Hp.
Qed.

Lemma settled_same now g d d' : same_reads d d' → slot g d' = slot g d → settled now g d → settled now g d'.
Proof.
  intros [Hc Ho] Hs. unfold settled. rewrite !remined_eq, (calls_of_group_same g d d' Hc), Ho, Hs.
  destruct (fst (calls_of_group g d)) as [calls|]; [|done]. by intros [= ->].
Qed.

Definition group_names (g : pattern_group) : string * string * string := (pg_tenant g, pg_audience g, pg_pattern g).
Definition fresh_id (g : pattern_group) : string * string := (pg_tenant g, new_id g).

(** What mining a list of patterns leaves. *)
Record mined_all (now : Z) (gs : list pattern_group) (d d' : tool_tables) : Prop := {
  ma_calls : tt_calls d' = tt_calls d;
  ma_outcomes : tt_outcomes d' = tt_outcomes d;
  ma_ok : procedures_ok d';
  ma_others : ∀ t a pattern, (t, a, pattern) ∉ group_names <$> gs → by_pattern_of t a pattern d' = by_pattern_of t a pattern d;
  ma_settled : ∀ g, g ∈ gs → settled now g d';
  ma_slots : ∀ g, g ∈ gs → ∃ calls, fst (calls_of_group g d) = Ok calls ∧
    slot g d' = match proposal now g calls (tt_outcomes d) (slot g d) with Some p => Some p | None => slot g d end;
}.

Lemma mines_run now gs (s : learn_state) u s' : procedures_ok (ln_tools s) → NoDup (group_names <$> gs) → NoDup (fresh_id <$> gs) →
  (∀ g, g ∈ gs → tt_procedures (ln_tools s) !! fresh_id g = None) →
  mapM_ (mine_ now) gs s = (Ok u, s') → mined_all now gs (ln_tools s) (ln_tools s').
Proof.
  revert s u. induction gs as [|g gs IH]; intros s u Hok Hnames Hids Hfresh Hrun.
  - injection Hrun as _ <-. split; try done; by intros ? ?%elem_of_nil.
  - csimpl in Hnames. csimpl in Hids. apply NoDup_cons in Hnames as [Hg Hnames], Hids as [Hi Hids].
    cbn [mapM_] in Hrun. apply bind_Ok_inv in Hrun as (v & s1 & Hm & Hrun).
    pose proof (mine_run now g s v s1 Hok (Hfresh g ltac:(by left)) Hm) as Hstep.
    pose proof Hstep as [Hc Ho Hok1 Hoth Hrows Hslot]. apply IH in Hrun as [Hc' Ho' Hok' Hoth' Hset' Hslots']; [|done|done|done|].
    + split; [congruence|congruence|done| | |].
      * intros t a pattern. csimpl. intros [Hne Hnot]%not_elem_of_cons. by rewrite Hoth', Hoth.
      * intros h [->|Hh]%elem_of_cons; [|by apply Hset']. apply (settled_same now g (ln_tools s1)).
        -- split; [|done]. intros p. unfold calls_of. by rewrite Hc'.
        -- by apply Hoth'.
        -- by apply (settled_after now g (ln_tools s)).
      * intros h [->|Hh]%elem_of_cons.
        -- destruct Hslot as (calls & Hcalls & Hslot). exists calls. split; [done|]. rewrite <- Hslot. by apply Hoth'.
        -- destruct (Hslots' h Hh) as (calls & Hcalls & Hslot'). exists calls.
           rewrite (calls_of_group_same h (ln_tools s)) in Hcalls by (intros; unfold calls_of; by rewrite Hc). split; [done|].
           rewrite Ho in Hslot'. assert (slot h (ln_tools s1) = slot h (ln_tools s)) as Heq; [|by rewrite <- Heq].
           apply Hoth. intros Heq. apply Hg. change (group_names h = group_names g) in Heq. rewrite <- Heq. by apply list_elem_of_fmap_2.
    + intros h Hh. destruct (tt_procedures (ln_tools s1) !! fresh_id h) as [p|] eqn:Hp; [|done]. exfalso.
      pose proof (Hfresh h ltac:(by right)) as Hno. destruct (Hrows _ _ Hp) as [?|(_ & [Heq|[q Hq]])]; [congruence| |congruence].
      apply Hi. change (fresh_id h = fresh_id g) in Heq. rewrite <- Heq. by apply list_elem_of_fmap_2.
Qed.

(** ** The rest of the job *)

Lemma tools_edges calls : leaves ln_tools (_edges casefold blake2b canonical_entity calls).
Proof.
  unfold _edges. intros s. destruct (ln_graph s); [|done]. revert s. apply leaves_mapM. intros [t l]. unfold tenant_edges.
  apply leaves_bind; [by intros []|]. intros entries. cbv zeta. apply leaves_bind; intros.
  - apply leaves_mapM. intros [es rs]. by apply leaves_modify.
  - apply leaves_mapM. intros [k i]. apply leaves_bind; [by apply leaves_away|by intros].
Qed.

(** Marking rows changes when they were learned and nothing else. *)
Definition marked (now : Z) (l : list (string * list ToolInvocation)) (r : call_row) : call_row :=
  foldl (λ r '(t, calls), learned_row (Some now) (λ i, bool_decide (iv_tenant i = t ∧ iv_id i ∈ iv_id <$> calls)) r) r l.

Lemma marked_call now l r : cr_call (marked now l r) = cr_call r.
Proof. unfold marked. revert r. induction l as [|[t calls] l IH]; intros r; [done|]. cbn. rewrite IH. unfold learned_row. by case_bool_decide. Qed.

Lemma marked_keeps now l r : cr_learned_at r = Some now → cr_learned_at (marked now l r) = Some now.
Proof.
  unfold marked. revert r. induction l as [|[t calls] l IH]; intros r Hr; [done|]. cbn. apply IH. unfold learned_row. by case_bool_decide.
Qed.

Lemma marked_learned now l r t calls : (t, calls) ∈ l → iv_tenant (cr_call r) = t → cr_call r ∈ calls → cr_learned_at (marked now l r) = Some now.
Proof.
  revert r. induction l as [|[t' calls'] l IH]; intros r; [by intros ?%elem_of_nil|].
  change (marked now ((t', calls') :: l) r) with (marked now l (learned_row (Some now) (λ i, bool_decide (iv_tenant i = t' ∧ iv_id i ∈ iv_id <$> calls')) r)).
  intros [[= <- <-]|Hin]%elem_of_cons Ht Hc.
  - apply marked_keeps. unfold learned_row. rewrite bool_decide_true; [done|]. split; [done|]. by apply list_elem_of_fmap_2.
  - apply IH; [done|..]; unfold learned_row; by case_bool_decide.
Qed.

Lemma marks_run now l (s : learn_state) u s' : mapM_ (λ '(t, calls), on_tools (mark_learned now t (iv_id <$> calls))) l s = (Ok u, s') →
  ln_tools s' = set_calls (marked now l <$> tt_calls (ln_tools s)) (ln_tools s).
Proof.
  revert s. induction l as [|[t calls] l IH]; intros s Hrun.
  - injection Hrun as _ <-. unfold marked. cbn [foldl]. rewrite map_fmap_id. by destruct (ln_tools s).
  - cbn [mapM_] in Hrun. apply bind_Ok_inv in Hrun as (v & s1 & Hm & Hrun). injection Hm as _ <-. apply IH in Hrun. rewrite Hrun.
    cbn [ln_tools set_calls tt_calls]. by rewrite <- map_fmap_compose.
Qed.

Lemma rows_fmap {V} (f : V → V) (m : gmap string V) : rows (f <$> m) = f <$> rows m.
Proof. unfold rows. rewrite map_to_list_fmap, <- !list_fmap_compose. done. Qed.

Lemma marked_reads now l d : same_reads d (set_calls (marked now l <$> tt_calls d) d).
Proof.
  split; [|done]. intros p. unfold calls_of. cbn [set_calls tt_calls]. rewrite rows_fmap, <- list_fmap_compose. f_equal.
  apply list_fmap_ext. intros _ r _. apply marked_call.
Qed.

(** What a batch may assume: no call's audience is written like an agent's own, and a
    new procedure's id is new. *)
Record batch_ok (calls : list ToolInvocation) (d : tool_tables) : Prop := {
  bo_apart : ∀ c t a, c ∈ calls → head (iv_visibility_keys c) ≠ Some (agent_audience t a);
  bo_new : ∀ g, g ∈ groups_of calls → tt_procedures d !! fresh_id g = None;
  bo_ids : ∀ g h, g ∈ groups_of calls → h ∈ groups_of calls → new_id g = new_id h → g = h;
}.

Lemma elem_groups g calls : g ∈ groups_of calls ↔ ∃ c, c ∈ calls ∧ group_of c = Some g.
Proof. unfold groups_of. rewrite elem_sorted_by, elem_of_fromkeys, list_elem_of_omap. done. Qed.

Lemma groups_NoDup calls : NoDup (groups_of calls).
Proof. unfold groups_of. rewrite sorted_by_perm. apply NoDup_fromkeys. Qed.

Lemma agent_audience_inj t a b : agent_audience t a = agent_audience t b → a = b.
Proof. unfold agent_audience. intros H. by do 3 apply (inj (String.append _)) in H. Qed.

Lemma group_of_spec c g : group_of c = Some g → pg_tenant g = iv_tenant c ∧
  match pg_agent g with
  | Some a => pg_audience g = agent_audience (pg_tenant g) a
  | None => head (iv_visibility_keys c) = Some (pg_audience g)
  end.
Proof.
  unfold group_of, audience_of. destruct (iv_task_pattern c) as [p|]; [|done]. destruct (truthy p); [|done].
  destruct (iv_visibility_keys c) as [|k ks]; [done|]. destruct (iv_agent c) as [a|]; [|by intros [= <-]]. by destruct (_ && _); intros [= <-].
Qed.

Lemma group_names_inj calls d g h : batch_ok calls d → g ∈ groups_of calls → h ∈ groups_of calls → group_names g = group_names h → g = h.
Proof.
  intros [Hapart _ _] (c & Hc & Hg)%elem_groups (e & He & Hh)%elem_groups Hn. apply group_of_spec in Hg as [_ Hg], Hh as [_ Hh].
  destruct g as [t a ag pat], h as [t' a' ag' pat']. unfold group_names in Hn. cbn in *. injection Hn as <- <- <-.
  destruct ag as [x|], ag' as [y|]; subst.
  - apply agent_audience_inj in Hh as ->. done.
  - by destruct (Hapart e t x He).
  - by destruct (Hapart c t y Hc).
  - done.
Qed.

(** The job, step by step. *)
Lemma learn_run now t (s : learn_state) calls n s' : procedures_ok (ln_tools s) → unlearned t LEARN_BATCH (ln_tools s) = (Ok calls, ln_tools s) →
  batch_ok calls (ln_tools s) → learn_ now t s = (Ok n, s') →
  ∃ d, mined_all now (groups_of calls) (ln_tools s) d ∧ ln_tools s' = set_calls (marked now (by_tenant calls) <$> tt_calls d) d.
Proof.
  intros Hok Hbatch Hb Hrun. unfold learn in Hrun. apply bind_Ok_inv in Hrun as (l & s1 & Hl & Hrun).
  unfold on_tools, zoom in Hl. rewrite Hbatch in Hl. injection Hl as <- <-. destruct calls as [|c calls]; [|set (calls' := c :: calls) in *].
  - injection Hrun as _ <-. cbn [ln_tools]. exists (ln_tools s). split; [|].
    + split; try done; by intros ? ?%elem_of_nil.
    + unfold marked. cbn. rewrite map_fmap_id. by destruct (ln_tools s).
  - apply bind_Ok_inv in Hrun as (u & s2 & Hm & Hrun). apply bind_Ok_inv in Hrun as (u2 & s3 & He & Hrun).
    apply bind_Ok_inv in Hrun as (u3 & s4 & Hmk & [= _ <-]). apply (leaves_run ln_tools _ _ _ _ (tools_edges calls')) in He.
    apply marks_run in Hmk. exists (ln_tools s2). rewrite Hmk, He. split; [|done].
    apply (mines_run now (groups_of calls') {| ln_tools := ln_tools s; ln_revisions := ln_revisions s; ln_graph := ln_graph s |} u s2); [done|..|done].
    + apply NoDup_fmap_2_strong; [|apply groups_NoDup]. intros g h Hg Hh. by eapply group_names_inj.
    + apply NoDup_fmap_2_strong; [|apply groups_NoDup]. intros g h Hg Hh [= _ Hid]. by eapply (bo_ids _ _ Hb).
    + apply (bo_new _ _ Hb).
Qed.

(** C16: Learning settles. After the job every call of its batch is marked learned, and
    mining any pattern the batch touches once more would change nothing: its procedure
    is what its newest calls and their outcomes support. No other procedure is
    changed, and a pattern keeps one procedure. *)
Theorem learn_settles now t (s : learn_state) calls n s' : procedures_ok (ln_tools s) →
  unlearned t LEARN_BATCH (ln_tools s) = (Ok calls, ln_tools s) → batch_ok calls (ln_tools s) → learn_ now t s = (Ok n, s') →
  procedures_ok (ln_tools s') ∧
  (∀ k r, tt_calls (ln_tools s') !! k = Some r → cr_call r ∈ calls → cr_learned_at r = Some now) ∧
  (∀ g, g ∈ groups_of calls → settled now g (ln_tools s')) ∧
  ∀ t a pattern, (t, a, pattern) ∉ group_names <$> groups_of calls →
    by_pattern_of t a pattern (ln_tools s') = by_pattern_of t a pattern (ln_tools s).
Proof.
  intros Hok Hbatch Hb Hrun. destruct (learn_run _ _ _ _ _ _ Hok Hbatch Hb Hrun) as (d & [Hc Ho Hok' Hoth Hset _] & ->). split_and!.
  - destruct Hok'. by split.
  - intros k r. cbn [set_calls tt_calls]. rewrite lookup_fmap_Some. intros (r0 & <- & _) Hin. rewrite marked_call in Hin.
    apply (marked_learned now (by_tenant calls) r0 (iv_tenant (cr_call r0)) (filter (λ c, iv_tenant c = iv_tenant (cr_call r0)) calls)); [|done|].
    + unfold by_tenant. apply list_elem_of_fmap. exists (iv_tenant (cr_call r0)). split; [done|]. apply elem_of_fromkeys. by apply list_elem_of_fmap_2.
    + by apply list_elem_of_filter.
  - intros g Hg. apply (settled_same now g d); [apply marked_reads|done|by apply Hset].
  - intros t' a pattern Hnot. by rewrite <- Hoth.
Qed.

(** C15: What is offered was earned. A procedure the job makes active is the chain mined
    from the labelled runs of its pattern. Its support is the number of those runs that
    worked and follow the chain, two at least; of all of them that follow it, six in ten
    worked at least; one of them that follows it, worked or not, has a call of the last
    60 days; and it is not the one a reviewer rejected. *)
Theorem learn_admits_what_worked now t (s : learn_state) calls n s' : procedures_ok (ln_tools s) →
  unlearned t LEARN_BATCH (ln_tools s) = (Ok calls, ln_tools s) → batch_ok calls (ln_tools s) → learn_ now t s = (Ok n, s') →
  ∀ t a pattern p, by_pattern_of t a pattern (ln_tools s') = Some p → sp_status p = Active →
  by_pattern_of t a pattern (ln_tools s) = Some p ∨
  ∃ g m mined_from, g ∈ groups_of calls ∧ group_names g = (t, a, pattern) ∧ fst (calls_of_group g (ln_tools s)) = Ok mined_from ∧
    let runs := labelled t mined_from (tt_outcomes (ln_tools s)) in
    let ok := filter (λ r, worked r = true) runs in
    mined_of pattern runs = Some m ∧ chain_of ok (tools m) ∧ sp_steps p = steps_payload jfloat round4 m ∧
    sp_support p = Z.of_nat (followers (tools m) ok) ∧ 2 ≤ sp_support p ∧
    3 * Z.of_nat (followers (tools m) runs) ≤ 5 * Z.of_nat (followers (tools m) ok) ∧
    (∃ r c, r ∈ runs ∧ _follows r (tools m) = true ∧ c ∈ tj_steps r ∧ now - iv_occurred_at c ≤ IDLE_SECONDS) ∧
    ∀ old, by_pattern_of t a pattern (ln_tools s) = Some old → sp_status old = Rejected_ → sp_steps_hash old ≠ sp_steps_hash p.
Proof.
  intros Hok Hbatch Hb Hrun t' a pattern p Hp Hact. destruct (learn_run _ _ _ _ _ _ Hok Hbatch Hb Hrun) as (d & [_ _ _ Hoth _ Hslots] & Hd).
  assert (by_pattern_of t' a pattern d = Some p) as Hp' by by rewrite Hd in Hp. clear Hp.
  destruct (decide ((t', a, pattern) ∈ group_names <$> groups_of calls)) as [Hin|Hnot]; [|left; by rewrite <- (Hoth _ _ _ Hnot)].
  apply list_elem_of_fmap in Hin as (g & Hg & Hgin). injection Hg as -> -> ->. destruct (Hslots g Hgin) as (from & Hfrom & Hslot).
  unfold slot in Hslot. rewrite Hp' in Hslot. destruct (proposal now g from _ _) as [q|] eqn:Hprop; [|by left]. injection Hslot as <-. right.
  unfold proposal in Hprop. destruct (owner_of from) as [owner|]; [|done]. destruct (mined_of (pg_pattern g) _) as [m|] eqn:Hm.
  - cbn [merge] in Hprop. destruct (_unchanged _ _); [done|]. injection Hprop as <-. cbn [sp_status] in Hact. exists g, m, from.
    unfold _status in Hact. destruct (match by_pattern_of _ _ _ _ with Some e => _ | None => false end) eqn:Hrej; [done|].
    destruct (admitted now m) eqn:Hadm; [|repeat case_match; done].
    apply andb_true_iff in Hadm as [[Hs%Z.leb_le Hr%Qle_bool_iff]%andb_true_iff Hd'%negb_true_iff].
    destruct (mined_inv casefold general10 task_slots _ _ _ Hm) as (Hne & Ht & _ & _ & Hsup & Hrate).
    cbv zeta. split_and!; try done.
    + rewrite Ht. destruct (best_sequence_chain (filter (λ r, worked r = true) (labelled (pg_tenant g) from (tt_outcomes (ln_tools s))))) as [[? _]|?]; done.
    + apply ratio_at_least. by rewrite <- Hrate.
    + by apply (lately_followed casefold general10 task_slots now (pg_pattern g)).
    + intros old Hold Hst. rewrite Hold, Hst, bool_decide_true in Hrej by done. cbn [andb sp_steps_hash] in *. by apply bool_decide_eq_false in Hrej.
  - cbn [merge] in Hprop. unfold slot in Hprop. destruct (by_pattern_of _ _ _ (ln_tools s)) as [e|]; [|done]. case_bool_decide; [done|].
    destruct (_unchanged _ _); [done|]. by injection Hprop as <-.
Qed.
End mining.

(** ** An instance

    The two runs of [Procedures] are recorded and labelled by their user; the job makes
    of them the agent's procedure for paying. *)

Definition call_rows (l : list ToolInvocation) : gmap string call_row :=
  list_to_map ((λ c, (iv_id c, {| cr_call := c; cr_key := iv_id c; cr_learned_at := None |})) <$> l).

Definition went_well (run : string) : RunOutcome :=
  {| ro_tenant := "acme"; ro_run := run; ro_success := true; ro_note := None; ro_source := HUMAN; ro_recorded_at := 150 |}.

Definition recorded_runs : learn_state :=
  {| ln_tools :=
       {| tt_catalog := ∅; tt_calls := call_rows (tj_steps (paying "Acme" false) ++ tj_steps (paying "Bolt" true));
          tt_outcomes := <[("acme", "Acme") := went_well "Acme"]> {[ ("acme", "Bolt") := went_well "Bolt" ]};
          tt_stats := ∅; tt_approvals := ∅; tt_procedures := ∅ |};
     ln_revisions := ∅; ln_graph := None |}.

Definition whole_number (q : Q) : json := JNum (Qnum q).
Definition proc_id (g : pattern_group) : string := "proc_" +:+ pg_pattern g.
Definition names_task (task : string) : list (string * string) := [("entity", task)].
Definition demo_learn := learn casefold (λ _, "") names_task whole_number (λ q, q) (λ s, s) (λ s, s) (λ s, s) proc_id 200 None.
Definition demo_batch : list ToolInvocation := match fst (unlearned None LEARN_BATCH (ln_tools recorded_runs)) with Ok l => l | Raise _ => [] end.

Lemma demo_batch_read : unlearned None LEARN_BATCH (ln_tools recorded_runs) = (Ok demo_batch, ln_tools recorded_runs).
Proof. reflexivity. Qed.

Lemma demo_procedures_ok : procedures_ok (ln_tools recorded_runs).
Proof. by split. Qed.

Lemma demo_batch_ok : batch_ok proc_id demo_batch (ln_tools recorded_runs).
Proof.
  split.
  - intros c t a Hc Hh. assert (forallb (λ c, bool_decide (head (iv_visibility_keys c) = Some "principal:acme/agent:alice/helper")) demo_batch = true) as Hall
      by (vm_compute; reflexivity).
    rewrite forallb_forall in Hall. specialize (Hall c (proj1 (list_elem_of_In _ _) Hc)). apply bool_decide_eq_true in Hall. rewrite Hall in Hh.
    by injection Hh.
  - done.
  - intros g h Hg Hh _. assert (length (groups_of demo_batch) = 1%nat) as Hl by (vm_compute; reflexivity).
    destruct (groups_of demo_batch) as [|x [|]]; [done| |done]. apply list_elem_of_singleton in Hg, Hh. congruence.
Qed.

Lemma demo_learned : ∃ s', demo_learn recorded_runs = (Ok 5%nat, s') ∧
  ∃ p, by_pattern_of "acme" "agent:acme/helper" "pay {entity}" (ln_tools s') = Some p ∧ sp_status p = Active.
Proof.
  exists (snd (demo_learn recorded_runs)). split; [vm_compute; reflexivity|]. eexists. split; [vm_compute; reflexivity|reflexivity].
Qed.

Lemma learn_settles_witness : ∃ s', demo_learn recorded_runs = (Ok 5%nat, s') ∧ procedures_ok (ln_tools s') ∧
  (∀ k r, tt_calls (ln_tools s') !! k = Some r → cr_call r ∈ demo_batch → cr_learned_at r = Some 200) ∧
  ∀ g, g ∈ groups_of demo_batch → settled casefold (λ _, "") names_task whole_number (λ q, q) (λ s, s) proc_id 200 g (ln_tools s').
Proof.
  destruct demo_learned as (s' & Hrun & _). exists s'. split; [exact Hrun|]. pose proof demo_batch_read as Hbatch. pose proof demo_batch_ok as Hb.
  pose proof demo_procedures_ok as Hok. unfold demo_learn in Hrun. revert Hrun Hbatch Hb Hok. generalize recorded_runs demo_batch. intros s calls Hrun Hbatch Hb Hok.
  destruct (learn_settles casefold (λ _, "") names_task whole_number (λ q, q) (λ s, s) (λ s, s) (λ s, s) proc_id 200 None s calls 5 s' Hok Hbatch Hb Hrun)
    as (H1 & H2 & H3 & _). exact (conj H1 (conj H2 H3)).
Defined.

Lemma learn_admits_what_worked_witness : ∃ s' p, demo_learn recorded_runs = (Ok 5%nat, s') ∧
  by_pattern_of "acme" "agent:acme/helper" "pay {entity}" (ln_tools s') = Some p ∧ sp_status p = Active ∧ 2 ≤ sp_support p.
Proof.
  destruct demo_learned as (s' & Hrun & p & Hp & Hact). exists s', p. split; [exact Hrun|]. split; [exact Hp|]. split; [exact Hact|].
  pose proof demo_batch_read as Hbatch. pose proof demo_batch_ok as Hb. pose proof demo_procedures_ok as Hok.
  assert (by_pattern_of "acme" "agent:acme/helper" "pay {entity}" (ln_tools recorded_runs) = None) as Hbefore by reflexivity.
  unfold demo_learn in Hrun. revert Hrun Hbatch Hb Hok Hbefore. generalize recorded_runs demo_batch. intros s calls Hrun Hbatch Hb Hok Hbefore.
  destruct (learn_admits_what_worked casefold (λ _, "") names_task whole_number (λ q, q) (λ s, s) (λ s, s) (λ s, s) proc_id 200 None s calls 5 s'
    Hok Hbatch Hb Hrun "acme" "agent:acme/helper" "pay {entity}" p Hp Hact) as [Hold|(g & m & from & _ & _ & _ & _ & _ & _ & _ & Hs & _)].
  - rewrite Hbefore in Hold. discriminate.
  - exact Hs.
Defined.

(** A user whose one call of the pattern has no outcome taught the procedure nothing,
    and counts as one who produced it: the procedure learned from Alice's runs alone is
    offered to Bob. *)
Definition bobs_call : ToolInvocation :=
  {| iv_id := "b_1"; iv_tenant := "acme"; iv_tool_id := "lookup"; iv_tool_name := "lookup"; iv_tool_version := 1; iv_run := Some "Cole";
     iv_thread := None; iv_turn := None; iv_workspace := None; iv_user := Some "bob"; iv_agent := Some "helper";
     iv_principal := None; iv_step := 1; iv_args_redacted := []; iv_args_hash := ""; iv_output_summary := "";
     iv_output_digest := None; iv_output_blob_ref := None; iv_output_fields := []; iv_status := TOk; iv_error_class := None;
     iv_latency := None; iv_cost := None; iv_task := "Cole"; iv_task_pattern := Some "pay {entity}"; iv_sub_calls := [];
     iv_visibility_keys := ["principal:acme/agent:bob/helper"]; iv_occurred_at := 120 |}.

Definition with_bob : learn_state :=
  {| ln_tools := set_calls (<["b_1" := {| cr_call := bobs_call; cr_key := "b_1"; cr_learned_at := None |}]> (tt_calls (ln_tools recorded_runs)))
                   (ln_tools recorded_runs);
     ln_revisions := ∅; ln_graph := None |}.

Example bystander_counts : ∃ p, let s' := snd (demo_learn with_bob) in
  by_pattern_of "acme" "agent:acme/helper" "pay {entity}" (ln_tools s') = Some p ∧ sp_users p = 2 ∧
  labelled "acme" (match fst (calls_of_group {| pg_tenant := "acme"; pg_audience := "agent:acme/helper"; pg_agent := Some "helper";
    pg_pattern := "pay {entity}" |} (ln_tools with_bob)) with Ok l => l | Raise _ => [] end) (tt_outcomes (ln_tools with_bob))
    ≫= (λ t, fromkeys (iv_user <$> tj_steps t)) = [Some "alice"; Some "alice"] ∧
  may_read_procedure "acme" [] (Some "helper") (Some "bob") p = true.
Proof. eexists. cbv zeta. split_and!; vm_compute; reflexivity. Qed.
