(* ===== verification/ConversationRepo.v ===== *)
(** * ConversationRepo: the tables of conversations (adapters/db/repositories.py;
    ThreadRow, SessionRow, TurnRow, MessageRow, MessageAttachmentRow, AgentRunRow
    and ObservationRow of adapters/db/orm.py; domain/observation.py).

    A table is a map from its primary key. An insert that breaks a primary key, a
    unique constraint or a foreign key raises [IntegrityError]. Reads go through
    the tenant: a row of another tenant is not there. *)
From Stdlib Require Import QArith.
From S2P Require Import Prelude Errors Ids Context Visibility Messages MemoryModel.
#[local] Open Scope Z_scope.

(** ** Observations *)

Inductive ObservationKind : Set :=
| OMessage | OFile | OAgentResult | OToolResult | ODecision | OFeedback | OEvent | OImport.
#[export] Instance ObservationKind_eq_dec : EqDecision ObservationKind.
Proof. solve_decision. Defined.

Record ProcessingHints := {
  hi_lifetime : option Lifetime;
  hi_memory_type : option MemoryType;
  hi_custom_type : option string;
  hi_visibility : option Visibility;
  hi_importance : option Q;
  hi_skip_extraction : bool;
  hi_skip_embedding : bool;
  hi_skip_graph : bool;
  hi_skip_summary : bool;
}.

Definition no_hints : ProcessingHints :=
  {| hi_lifetime := None; hi_memory_type := None; hi_custom_type := None; hi_visibility := None;
     hi_importance := None; hi_skip_extraction := false; hi_skip_embedding := false; hi_skip_graph := false;
     hi_skip_summary := false |}.

(** [ob_provenance] is the context whose lineage was copied
    ([MemoryExecutionContext.provenance]). *)
Record Observation := {
  obs_id : string;
  obs_provenance : MemoryExecutionContext;
  obs_principal : string;
  obs_kind : ObservationKind;
  obs_content : string;
  obs_hash : string;
  obs_message : option string;
  obs_document : option string;
  obs_tool_run : option string;
  obs_source_system : option string;
  obs_source_id : option string;
  obs_hints : ProcessingHints;
  obs_custom : gmap string json;
  obs_occurred_at : Z;
  obs_created_at : Z;
  obs_processed_at : option Z;
  obs_status : string;
  obs_lang : string;
}.

(** ** Rows *)

(** [content] is NULL once the payload has been purged; the attachments are in
    their own table. *)
Record message_row := {
  mr_message : Message;
  mr_content : option string;
  mr_content_bytes : Z;
  mr_archived_at : option Z;
  mr_segment : option string;
}.

(** [cv_attachments] in the order of insertion. *)
Record conversations := {
  cv_threads : gmap string Thread;
  cv_sessions : gmap string Session;
  cv_turns : gmap string Turn;
  cv_messages : gmap string message_row;
  cv_attachments : list Attachment;
  cv_runs : gmap string AgentRun;
  cv_observations : gmap string Observation;
}.

Abbreviation cprog A := (prog conversations A).

Definition set_threads (x : gmap string Thread) (c : conversations) : conversations :=
  {| cv_threads := x; cv_sessions := cv_sessions c; cv_turns := cv_turns c; cv_messages := cv_messages c;
     cv_attachments := cv_attachments c; cv_runs := cv_runs c; cv_observations := cv_observations c |}.
Definition set_sessions (x : gmap string Session) (c : conversations) : conversations :=
  {| cv_threads := cv_threads c; cv_sessions := x; cv_turns := cv_turns c; cv_messages := cv_messages c;
     cv_attachments := cv_attachments c; cv_runs := cv_runs c; cv_observations := cv_observations c |}.
Definition set_turns (x : gmap string Turn) (c : conversations) : conversations :=
  {| cv_threads := cv_threads c; cv_sessions := cv_sessions c; cv_turns := x; cv_messages := cv_messages c;
     cv_attachments := cv_attachments c; cv_runs := cv_runs c; cv_observations := cv_observations c |}.
Definition set_messages (x : gmap string message_row) (a : list Attachment) (c : conversations) : conversations :=
  {| cv_threads := cv_threads c; cv_sessions := cv_sessions c; cv_turns := cv_turns c; cv_messages := x;
     cv_attachments := a; cv_runs := cv_runs c; cv_observations := cv_observations c |}.
Definition set_runs (x : gmap string AgentRun) (c : conversations) : conversations :=
  {| cv_threads := cv_threads c; cv_sessions := cv_sessions c; cv_turns := cv_turns c; cv_messages := cv_messages c;
     cv_attachments := cv_attachments c; cv_runs := x; cv_observations := cv_observations c |}.
Definition set_observations (x : gmap string Observation) (c : conversations) : conversations :=
  {| cv_threads := cv_threads c; cv_sessions := cv_sessions c; cv_turns := cv_turns c; cv_messages := cv_messages c;
     cv_attachments := cv_attachments c; cv_runs := cv_runs c; cv_observations := x |}.

(** A row with a fresh key, its constraints checked by [ok]. *)
Definition insert {V} (get : conversations → gmap string V) (put : gmap string V → conversations → conversations)
    (ok : conversations → bool) (k : string) (v : V) : cprog unit :=
  λ c, if bool_decide (get c !! k = None) && ok c then (Ok tt, put (<[k := v]> (get c)) c) else (Raise IntegrityError, c).

(** A row by its key, if it is the tenant's and passes [p]. *)
Definition tenants_row {V} (tenant : V → string) (p : V → bool) (t k : string) (m : gmap string V) : option V :=
  match m !! k with
  | Some v => if String.eqb (tenant v) t && p v then Some v else None
  | None => None
  end.

Definition any {V} (_ : V) : bool := true.

(** ** SqlThreadRepository *)

Definition threads_add (th : Thread) : cprog unit := insert cv_threads set_threads any (th_id th) th.

Definition any_in_workspace (t w : string) : cprog bool :=
  gets (λ c, existsb (λ th, String.eqb (th_tenant th) t && bool_decide (th_workspace th = Some w)) (rows (cv_threads c))).

Definition undeleted (th : Thread) : bool := bool_decide (th_deleted_at th = None).

Definition thread_of (t i : string) (c : conversations) : option Thread :=
  tenants_row th_tenant undeleted t i (cv_threads c).

Definition threads_get (t i : string) : cprog (option Thread) := gets (thread_of t i).

Definition touched_thread (now : Z) (title : option string) (custom : option (gmap string json)) (th : Thread) : Thread :=
  {| th_id := th_id th; th_tenant := th_tenant th; th_workspace := th_workspace th; th_owner := th_owner th;
     th_title := match title with Some s => Some s | None => th_title th end;
     th_source_system := th_source_system th; th_source_id := th_source_id th; th_system := th_system th;
     th_custom := default (th_custom th) custom; th_revision := th_revision th + 1;
     th_created_at := th_created_at th; th_updated_at := now; th_archived_at := th_archived_at th;
     th_deleted_at := th_deleted_at th |}.

Definition threads_touch (now : Z) (t i : string) (title : option string) (custom : option (gmap string json)) :
    cprog Z :=
  λ c, match tenants_row th_tenant any t i (cv_threads c) with
       | Some th => let th' := touched_thread now title custom th in
                    (Ok (th_revision th'), set_threads (<[i := th']> (cv_threads c)) c)
       | None => (Ok 0, c)
       end.

Definition deleted_thread (now : Z) (th : Thread) : Thread :=
  {| th_id := th_id th; th_tenant := th_tenant th; th_workspace := th_workspace th; th_owner := th_owner th;
     th_title := th_title th; th_source_system := th_source_system th; th_source_id := th_source_id th;
     th_system := th_system th; th_custom := th_custom th; th_revision := th_revision th + 1;
     th_created_at := th_created_at th; th_updated_at := th_updated_at th; th_archived_at := th_archived_at th;
     th_deleted_at := Some now |}.

Definition threads_soft_delete (now : Z) (t i : string) : cprog bool :=
  λ c, match thread_of t i c with
       | Some th => (Ok true, set_threads (<[i := deleted_thread now th]> (cv_threads c)) c)
       | None => (Ok false, c)
       end.

Definition owned_in (t owner : string) (workspace : option string) (ids : list string) : cprog (gset string) :=
  gets (λ c, list_to_set (th_id <$> filter (λ th, th_tenant th = t ∧ th_id th ∈ ids ∧ th_owner th = Some owner ∧
                                              th_workspace th = workspace ∧ th_deleted_at th = None)
                                     (rows (cv_threads c)))).

(** ** SqlSessionRepository *)

Definition sessions_add (s : Session) : cprog unit :=
  insert cv_sessions set_sessions (λ c, bool_decide (is_Some (cv_threads c !! se_thread s))) (se_id s) s.

Definition sessions_get (t i : string) : cprog (option Session) :=
  gets (λ c, tenants_row se_tenant any t i (cv_sessions c)).

(** ** SqlTurnRepository *)

(** [uq_turns_thread_sequence] and the foreign keys. *)
Definition turn_fits (u : Turn) (c : conversations) : bool :=
  bool_decide (is_Some (cv_sessions c !! tu_session u)) && bool_decide (is_Some (cv_threads c !! tu_thread u)) &&
  negb (existsb (λ v, String.eqb (tu_thread v) (tu_thread u) && Z.eqb (tu_sequence v) (tu_sequence u))
          (rows (cv_turns c))).

Definition turns_add (u : Turn) : cprog unit := insert cv_turns set_turns (turn_fits u) (tu_id u) u.

Definition turns_get (t i : string) : cprog (option Turn) :=
  gets (λ c, tenants_row tu_tenant any t i (cv_turns c)).

Definition turns_of (t th : string) (c : conversations) : list Turn :=
  filter (λ u, tu_thread u = th ∧ tu_tenant u = t) (rows (cv_turns c)).

(** [coalesce(max(sequence), 0) + 1]. *)
Definition next_after (l : list Z) : Z := foldr Z.max 0 l + 1.

Definition next_turn (t th : string) : cprog Z := gets (λ c, next_after (tu_sequence <$> turns_of t th c)).

(** ORDER BY sequence DESC. *)
Definition descending {A} (f : A → Z) (x y : A) : Prop := f y ≤ f x.
#[export] Instance descending_dec {A} (f : A → Z) x y : Decision (descending f x y).
Proof. unfold descending. apply _. Defined.

Definition latest_of (t th : string) (c : conversations) : option Turn :=
  match ordered (descending tu_sequence) (Some 1%nat) (turns_of t th c) with
  | u :: _ => tenants_row tu_tenant any t (tu_id u) (cv_turns c)
  | [] => None
  end.

Definition latest_turn (t th : string) : cprog (option Turn) := gets (latest_of t th).

(** ** SqlMessageRepository *)

Definition shown (content_ : string) (attachments : list Attachment) (m : Message) : Message :=
  {| message_id := message_id m; m_thread_id := m_thread_id m; m_session_id := m_session_id m;
     m_turn_id := m_turn_id m; m_tenant_id := m_tenant_id m; role := role m; kind := kind m;
     sequence := sequence m; content := content_; content_hash := content_hash m; m_version := m_version m;
     author_principal := author_principal m; m_agent_run_id := m_agent_run_id m;
     parent_message_id := parent_message_id m; m_attachments := attachments; m_tool_calls := m_tool_calls m;
     tool_call_id := tool_call_id m; source_system := source_system m; source_message_id := source_message_id m;
     occurred_at := occurred_at m; message_created_at := message_created_at m; archive_status := archive_status m;
     m_system := m_system m; m_custom_metadata := m_custom_metadata m; message_deleted_at := message_deleted_at m |}.

(** [_row_to_message]. *)
Definition row_to_message (r : message_row) (attachments : list Attachment) : Message :=
  shown (default "" (mr_content r)) attachments (mr_message r).

Definition row_of_message (m : Message) : message_row :=
  {| mr_message := shown (content m) [] m; mr_content := Some (content m);
     mr_content_bytes := Z.of_nat (String.length (content m)); mr_archived_at := None; mr_segment := None |}.

(** The row an attachment of [m] is stored as. *)
Definition attachment_row (m : Message) (a : Attachment) : Attachment :=
  {| at_id := at_id a; at_message := message_id m; at_document := at_document a; at_filename := at_filename a;
     at_media_type := at_media_type a; at_size_bytes := at_size_bytes a; at_checksum := at_checksum a |}.

(** [uq_messages_thread_sequence], the foreign keys, and the attachments' keys. *)
Definition message_fits (m : Message) (c : conversations) : bool :=
  bool_decide (is_Some (cv_threads c !! m_thread_id m)) && bool_decide (is_Some (cv_sessions c !! m_session_id m)) &&
  bool_decide (is_Some (cv_turns c !! m_turn_id m)) &&
  negb (existsb (λ r, String.eqb (m_thread_id (mr_message r)) (m_thread_id m)
                      && Z.eqb (sequence (mr_message r)) (sequence m)) (rows (cv_messages c))) &&
  bool_decide (NoDup ((at_id <$> cv_attachments c) ++ (at_id <$> m_attachments m))).

Definition messages_add (m : Message) : cprog unit :=
  λ c, insert cv_messages (λ x c', set_messages x (cv_attachments c' ++ (attachment_row m <$> m_attachments m)) c')
         (message_fits m) (message_id m) (row_of_message m) c.

Definition attachments_of (c : conversations) (i : string) : list Attachment :=
  filter (λ a, at_message a = i) (cv_attachments c).

Definition with_attachments (c : conversations) (r : message_row) : Message :=
  row_to_message r (attachments_of c (message_id (mr_message r))).

Definition not_deleted (r : message_row) : bool := bool_decide (message_deleted_at (mr_message r) = None).

Definition messages_get (t i : string) : cprog (option Message) :=
  gets (λ c, with_attachments c <$> tenants_row (λ r, m_tenant_id (mr_message r)) not_deleted t i (cv_messages c)).

Definition in_thread (t th : string) (r : message_row) : bool :=
  String.eqb (m_tenant_id (mr_message r)) t && String.eqb (m_thread_id (mr_message r)) th.

Definition thread_rows (t th : string) (c : conversations) : list message_row :=
  filter (λ r, in_thread t th r = true) (rows (cv_messages c)).

Definition next_message (t th : string) : cprog Z :=
  gets (λ c, next_after ((λ r, sequence (mr_message r)) <$> thread_rows t th c)).

Abbreviation row_sequence r := (sequence (mr_message r)).

(** The newest [limit] of the rows, oldest first ([_oldest_first]). *)
Definition oldest_first (limit : nat) (l : list message_row) (c : conversations) : list Message :=
  with_attachments c <$> rev (ordered (descending (λ r, row_sequence r)) (Some limit) l).

Definition listed (before_sequence : option Z) (include_internal : bool) (r : message_row) : bool :=
  not_deleted r && (include_internal || bool_decide (kind (mr_message r) = VISIBLE)) &&
  match before_sequence with Some b => Z.ltb (row_sequence r) b | None => true end.

Definition list_thread (t th : string) (limit : nat) (before_sequence : option Z) (include_internal : bool) :
    cprog (list Message) :=
  gets (λ c, oldest_first limit
               (filter (λ r, listed before_sequence include_internal r = true) (thread_rows t th c)) c).

(** Where the newest [turns] turns start: the [turns]-th newest question. *)
Definition question (r : message_row) : bool :=
  not_deleted r && bool_decide (role (mr_message r) = RUser) && bool_decide (kind (mr_message r) = VISIBLE).

Definition window_start (turns : Z) (l : list message_row) : Z :=
  match drop (Z.to_nat (Z.max turns 1 - 1))
          (ordered (descending (λ r, row_sequence r)) None (filter (λ r, question r = true) l)) with
  | r :: _ => row_sequence r
  | [] => 0
  end.

Definition in_window (start : Z) (r : message_row) : bool :=
  not_deleted r && Z.leb start (row_sequence r) &&
  (bool_decide (kind (mr_message r) = VISIBLE)
   || bool_decide (role (mr_message r) = RTool) && bool_decide (is_Some (tool_call_id (mr_message r)))).

Definition list_window (t th : string) (turns : Z) (limit : nat) : cprog (list Message) :=
  gets (λ c, let l := thread_rows t th c in
             oldest_first limit (filter (λ r, in_window (window_start turns l) r = true) l) c).

(** ORDER BY sequence. *)
Definition ascending {A} (f : A → Z) (x y : A) : Prop := f x ≤ f y.
#[export] Instance ascending_dec {A} (f : A → Z) x y : Decision (ascending f x y).
Proof. unfold ascending. apply _. Defined.

Definition list_after (t th : string) (after_sequence : Z) (limit : nat) : cprog (list Message) :=
  gets (λ c, (λ r, row_to_message r []) <$>
               ordered (ascending (λ r, row_sequence r)) (Some limit)
                 (filter (λ r, listed None false r = true ∧ after_sequence < row_sequence r) (thread_rows t th c))).

Definition from_source (t system i : string) (r : message_row) : bool :=
  String.eqb (m_tenant_id (mr_message r)) t && bool_decide (source_system (mr_message r) = Some system)
  && bool_decide (source_message_id (mr_message r) = Some i).

Definition find_by_source (t system i : string) : cprog (option Message) :=
  gets (λ c, (λ r, row_to_message r []) <$> head (filter (λ r, from_source t system i r = true) (rows (cv_messages c)))).

(** *** Archive *)

Definition set_archive (st : ArchiveStatus) (m : Message) : Message :=
  {| message_id := message_id m; m_thread_id := m_thread_id m; m_session_id := m_session_id m;
     m_turn_id := m_turn_id m; m_tenant_id := m_tenant_id m; role := role m; kind := kind m;
     sequence := sequence m; content := content m; content_hash := content_hash m; m_version := m_version m;
     author_principal := author_principal m; m_agent_run_id := m_agent_run_id m;
     parent_message_id := parent_message_id m; m_attachments := m_attachments m; m_tool_calls := m_tool_calls m;
     tool_call_id := tool_call_id m; source_system := source_system m; source_message_id := source_message_id m;
     occurred_at := occurred_at m; message_created_at := message_created_at m; archive_status := st;
     m_system := m_system m; m_custom_metadata := m_custom_metadata m; message_deleted_at := message_deleted_at m |}.

(** ORDER BY tenant_id, thread_id, sequence. *)
Definition staged_le (a b : message_row) : Prop :=
  let m := mr_message a in let n := mr_message b in
  if String.eqb (m_tenant_id m) (m_tenant_id n) then
    if String.eqb (m_thread_id m) (m_thread_id n) then sequence m ≤ sequence n
    else str_le (m_thread_id m) (m_thread_id n)
  else str_le (m_tenant_id m) (m_tenant_id n).
#[export] Instance staged_le_dec a b : Decision (staged_le a b).
Proof.
  unfold staged_le. destruct (String.eqb _ _); [destruct (String.eqb (m_thread_id _) _)|]; apply _.
Defined.

Definition staged (older_than : option Z) (t th : option string) (r : message_row) : bool :=
  bool_decide (archive_status (mr_message r) = STAGED)
  && match older_than with Some x => Z.leb (message_created_at (mr_message r)) x | None => true end
  && match t with Some x => String.eqb (m_tenant_id (mr_message r)) x | None => true end
  && match th with Some x => String.eqb (m_thread_id (mr_message r)) x | None => true end.

Definition list_staged (older_than : option Z) (limit : nat) (t th : option string) : cprog (list Message) :=
  gets (λ c, (λ r, row_to_message r []) <$>
               ordered staged_le (Some limit) (filter (λ r, staged older_than t th r = true) (rows (cv_messages c)))).

Definition archived_row (segment : string) (at_ : Z) (r : message_row) : message_row :=
  {| mr_message := set_archive ARCHIVED_ (mr_message r); mr_content := mr_content r;
     mr_content_bytes := mr_content_bytes r; mr_archived_at := Some at_; mr_segment := Some segment |}.

(** The rows of [ids] rewritten by [f]; how many there were. *)
Definition rewrite_rows (ids : list string) (f : message_row → message_row) : cprog Z :=
  λ c, let hit r := bool_decide (message_id (mr_message r) ∈ ids) in
       (Ok (Z.of_nat (length (filter (λ r, hit r = true) (rows (cv_messages c))))),
        set_messages ((λ r, if hit r then f r else r) <$> cv_messages c) (cv_attachments c) c).

Definition mark_archived (ids : list string) (segment : string) (at_ : Z) : cprog Z :=
  match ids with
  | [] => ret 0
  | _ => rewrite_rows ids (archived_row segment at_)
  end.

Definition purgeable (archived_before min_bytes : Z) (r : message_row) : bool :=
  bool_decide (archive_status (mr_message r) = ARCHIVED_)
  && match mr_archived_at r with Some x => Z.leb x archived_before | None => false end
  && Z.leb min_bytes (mr_content_bytes r) && bool_decide (is_Some (mr_content r)).

Definition purged_row (r : message_row) : message_row :=
  {| mr_message := set_archive PURGED (mr_message r); mr_content := None; mr_content_bytes := mr_content_bytes r;
     mr_archived_at := mr_archived_at r; mr_segment := mr_segment r |}.

Definition purge_payloads (archived_before min_bytes : Z) (limit : nat) : cprog Z :=
  λ c, match (λ r, message_id (mr_message r)) <$>
               take limit (filter (λ r, purgeable archived_before min_bytes r = true) (rows (cv_messages c))) with
       | [] => (Ok 0, c)
       | ids => rewrite_rows ids purged_row c
       end.

(** ** SqlAgentRunRepository *)

Definition runs_add (r : AgentRun) : cprog unit := insert cv_runs set_runs any (ar_id r) r.

Definition runs_get (t i : string) : cprog (option AgentRun) := gets (λ c, tenants_row ar_tenant any t i (cv_runs c)).

Definition completed_run (now : Z) (status : string) (r : AgentRun) : AgentRun :=
  {| ar_id := ar_id r; ar_tenant := ar_tenant r; ar_thread := ar_thread r; ar_session := ar_session r;
     ar_turn := ar_turn r; ar_work := ar_work r; ar_task := ar_task r; ar_agent := ar_agent r; ar_group := ar_group r;
     ar_parent := ar_parent r; ar_status := status; ar_started_at := ar_started_at r; ar_completed_at := Some now;
     ar_trace := ar_trace r; ar_custom := ar_custom r |}.

Definition runs_complete (now : Z) (t i status : string) : cprog unit :=
  modify (λ c, match tenants_row ar_tenant any t i (cv_runs c) with
               | Some r => set_runs (<[i := completed_run now status r]> (cv_runs c)) c
               | None => c
               end).

(** ** SqlObservationRepository *)

Definition observations_add (o : Observation) : cprog unit :=
  insert cv_observations set_observations any (obs_id o) o.

Definition obs_tenant (o : Observation) : string := tenant_id (obs_provenance o).

Definition observations_get (t i : string) : cprog (option Observation) :=
  gets (λ c, tenants_row obs_tenant any t i (cv_observations c)).

Definition processed (now : Z) (status : string) (o : Observation) : Observation :=
  {| obs_id := obs_id o; obs_provenance := obs_provenance o; obs_principal := obs_principal o; obs_kind := obs_kind o;
     obs_content := obs_content o; obs_hash := obs_hash o; obs_message := obs_message o;
     obs_document := obs_document o; obs_tool_run := obs_tool_run o; obs_source_system := obs_source_system o;
     obs_source_id := obs_source_id o; obs_hints := obs_hints o; obs_custom := obs_custom o;
     obs_occurred_at := obs_occurred_at o; obs_created_at := obs_created_at o; obs_processed_at := Some now;
     obs_status := status; obs_lang := obs_lang o |}.

Definition mark_processed (now : Z) (t i status : string) : cprog unit :=
  modify (λ c, match tenants_row obs_tenant any t i (cv_observations c) with
               | Some o => set_observations (<[i := processed now status o]> (cv_observations c)) c
               | None => c
               end).

(** The newest message said before [o] in the same workspace and thread, at most
    [within] earlier. *)
Definition precedes (within : Z) (o x : Observation) : bool :=
  String.eqb (obs_tenant x) (obs_tenant o) && bool_decide (obs_kind x = OMessage)
  && negb (String.eqb (obs_id x) (obs_id o)) && Z.ltb (obs_created_at x) (obs_created_at o)
  && Z.leb (obs_occurred_at x) (obs_occurred_at o) && Z.leb (obs_occurred_at o - within) (obs_occurred_at x)
  && bool_decide (workspace_id (obs_provenance x) = workspace_id (obs_provenance o))
  && bool_decide (thread_id (obs_provenance x) = thread_id (obs_provenance o)).

Definition preceding_message (o : Observation) (within : Z) : cprog (option Observation) :=
  gets (λ c, head (ordered (descending obs_created_at) (Some 1%nat)
                     (filter (λ x, precedes within o x = true) (rows (cv_observations c))))).

(** ** Lemmas *)

Lemma insert_inv {V} (get : conversations → gmap string V) put ok k v c c' :
  insert get put ok k v c = (Ok tt, c') → get c !! k = None ∧ ok c = true ∧ c' = put (<[k := v]> (get c)) c.
Proof.
  unfold insert. destruct (bool_decide _) eqn:Hk; [|done]. apply bool_decide_eq_true in Hk.
  destruct (ok c) eqn:Hok; [|done]. by intros [= <-].
Qed.

Lemma tenants_row_Some {V} (tenant : V → string) p t k m v :
  tenants_row tenant p t k m = Some v ↔ m !! k = Some v ∧ tenant v = t ∧ p v = true.
Proof.
  unfold tenants_row. destruct (m !! k) as [x|]; [|by split; [|intros [? _]]].
  destruct (String.eqb_spec (tenant x) t) as [<-|Hne], (p x) eqn:Hp; simpl; split.
  all: try (intros [= <-]; by split_and!). all: try done. all: intros ([= <-] & ? & ?); congruence.
Qed.

Lemma rows_insert_new {V} (m : gmap string V) k v : m !! k = None → rows (<[k := v]> m) ≡ₚ v :: rows m.
Proof. intros Hk. unfold rows. by rewrite map_to_list_insert. Qed.

(** *** Numbering: the sequences 1, 2, ... without a gap *)

Definition numbered (l : list Z) : Prop := l ≡ₚ seqZ 1 (Z.of_nat (length l)).

#[export] Instance foldr_max_proper : Proper ((≡ₚ) ==> (=)) (foldr Z.max 0).
Proof. induction 1; simpl; lia. Qed.

Lemma numbered_nil : numbered [].
Proof. unfold numbered. reflexivity. Qed.

Lemma numbered_perm l l' : l ≡ₚ l' → numbered l → numbered l'.
Proof. unfold numbered. intros Hl Hn. rewrite <- (Permutation_length Hl). by rewrite <- Hl. Qed.

Lemma foldr_max_nonneg l : 0 ≤ foldr Z.max 0 l.
Proof. induction l; simpl; lia. Qed.

Lemma foldr_max_app l l' : foldr Z.max 0 (l ++ l') = Z.max (foldr Z.max 0 l) (foldr Z.max 0 l').
Proof. pose proof (foldr_max_nonneg l'). induction l; simpl; lia. Qed.

Lemma seqZ_snoc n : seqZ 1 (Z.of_nat (S n)) = seqZ 1 (Z.of_nat n) ++ [1 + Z.of_nat n].
Proof. rewrite Nat2Z.inj_succ, <- Z.add_1_r, seqZ_app by lia. f_equal. Qed.

Lemma seqZ_ascending n : StronglySorted Z.le (seqZ 1 (Z.of_nat n)).
Proof.
  induction n as [|n IH]; [constructor|]. rewrite seqZ_snoc. apply StronglySorted_app. split_and!; [|done|by repeat constructor].
  intros x y Hx%elem_of_seqZ ->%list_elem_of_singleton. lia.
Qed.

Lemma numbered_next l : numbered l → next_after l = Z.of_nat (length l) + 1.
Proof.
  unfold numbered, next_after. intros Hl. rewrite Hl at 1. f_equal. generalize (length l). intros n. clear.
  induction n as [|n IH]; [done|]. rewrite seqZ_snoc, foldr_max_app, IH. cbn. lia.
Qed.

Lemma numbered_cons l : numbered l → numbered (next_after l :: l).
Proof.
  intros Hl. rewrite (numbered_next l Hl). unfold numbered in *. cbn [length]. rewrite seqZ_snoc, <- Hl.
  by rewrite Z.add_comm, Permutation_app_comm.
Qed.

Lemma numbered_elem l x : numbered l → x ∈ l → 1 ≤ x ≤ Z.of_nat (length l).
Proof. unfold numbered. intros Hl Hx. rewrite Hl in Hx. apply elem_of_seqZ in Hx. lia. Qed.

Lemma numbered_NoDup l : numbered l → NoDup l.
Proof. unfold numbered. intros Hl. rewrite Hl. apply NoDup_seqZ. Qed.

(** *** The invariant of the tables *)

(** Chat is what people and the assistant say; tool fields are where they belong;
    no message is deleted by itself. *)
Definition lawful (m : Message) : Prop :=
  (kind m = VISIBLE → role m ∈ [RUser; RAssistant; RSystem]) ∧
  tool_fields_problem (role m) (m_tool_calls m) (tool_call_id m) = None ∧ message_deleted_at m = None.

(** Every session is of a thread, every turn of a session, every message of a
    turn, all of one tenant; the turns and the messages of a thread are numbered
    without a gap. *)
Record conv_ok (c : conversations) : Prop := {
  ok_thread i th : cv_threads c !! i = Some th → th_id th = i;
  ok_session i s : cv_sessions c !! i = Some s →
    se_id s = i ∧ ∃ th, cv_threads c !! se_thread s = Some th ∧ th_tenant th = se_tenant s;
  ok_turn i u : cv_turns c !! i = Some u →
    tu_id u = i ∧ ∃ s, cv_sessions c !! tu_session u = Some s ∧ se_thread s = tu_thread u ∧ se_tenant s = tu_tenant u;
  ok_message i r : cv_messages c !! i = Some r →
    message_id (mr_message r) = i ∧ lawful (mr_message r) ∧
    ∃ u, cv_turns c !! m_turn_id (mr_message r) = Some u ∧ tu_session u = m_session_id (mr_message r) ∧
         tu_thread u = m_thread_id (mr_message r) ∧ tu_tenant u = m_tenant_id (mr_message r);
  ok_turns t th : numbered (tu_sequence <$> turns_of t th c);
  ok_messages t th : numbered ((λ r, row_sequence r) <$> thread_rows t th c);
  ok_attachment a : a ∈ cv_attachments c → is_Some (cv_messages c !! at_message a);
}.

Lemma conv_ok_ext c c' :
  cv_threads c' = cv_threads c → cv_sessions c' = cv_sessions c → cv_turns c' = cv_turns c →
  cv_messages c' = cv_messages c → cv_attachments c' = cv_attachments c → conv_ok c → conv_ok c'.
Proof.
  intros Ht Hs Hu Hm Ha [H1 H2 H3 H4 H5 H6 H7]. unfold turns_of, thread_rows in *.
  split; unfold turns_of, thread_rows; rewrite ?Ht, ?Hs, ?Hu, ?Hm, ?Ha; done.
Qed.

Lemma conv_ok_put_thread c th :
  conv_ok c → (∀ old, cv_threads c !! th_id th = Some old → th_tenant old = th_tenant th) →
  conv_ok (set_threads (<[th_id th := th]> (cv_threads c)) c).
Proof.
  intros [H1 H2 H3 H4 H5 H6 H7] Hold. split; try done; cbn.
  - intros i x. rewrite lookup_insert_Some. intros [[<- <-]|[_ Hx]]; [done|by apply H1].
  - intros i s Hs. destruct (H2 i s Hs) as (Hi & x & Hx & Ht). split; [done|].
    destruct (decide (th_id th = se_thread s)) as [Heq|Hne].
    + rewrite <- Heq, lookup_insert_eq. exists th. split; [done|]. rewrite <- Ht. symmetry. apply Hold. by rewrite Heq.
    + rewrite lookup_insert_ne by done. by exists x.
Qed.

Lemma conv_ok_add_session c s th :
  conv_ok c → cv_sessions c !! se_id s = None → cv_threads c !! se_thread s = Some th → th_tenant th = se_tenant s →
  conv_ok (set_sessions (<[se_id s := s]> (cv_sessions c)) c).
Proof.
  intros [H1 H2 H3 H4 H5 H6 H7] Hfresh Hth Ht. split; try done; cbn.
  - intros i x. rewrite lookup_insert_Some. intros [[<- <-]|[_ Hx]]; [by eauto|by apply H2].
  - intros i u Hu. destruct (H3 i u Hu) as (Hi & x & Hx & Hrest). split; [done|]. exists x.
    rewrite lookup_insert_ne; [done|]. congruence.
Qed.

Lemma turns_of_insert t th c k u :
  cv_turns c !! k = None →
  turns_of t th (set_turns (<[k := u]> (cv_turns c)) c) ≡ₚ
    (if decide (tu_thread u = th ∧ tu_tenant u = t) then [u] else []) ++ turns_of t th c.
Proof. intros Hk. unfold turns_of. cbn. rewrite rows_insert_new by done. rewrite filter_cons. by case_decide. Qed.

Lemma conv_ok_add_turn c u s :
  conv_ok c → cv_turns c !! tu_id u = None → cv_sessions c !! tu_session u = Some s → se_thread s = tu_thread u →
  se_tenant s = tu_tenant u → tu_sequence u = next_after (tu_sequence <$> turns_of (tu_tenant u) (tu_thread u) c) →
  conv_ok (set_turns (<[tu_id u := u]> (cv_turns c)) c).
Proof.
  intros [H1 H2 H3 H4 H5 H6 H7] Hfresh Hs Hth Ht Hn. split; try done.
  - intros i x. cbn. rewrite lookup_insert_Some. intros [[<- <-]|[_ Hx]]; [by eauto|by apply H3].
  - intros i r Hr. destruct (H4 i r Hr) as (Hi & Hl & x & Hx & Hrest). split_and!; [done..|]. exists x.
    cbn. rewrite lookup_insert_ne; [done|]. congruence.
  - intros t th. eapply numbered_perm; [symmetry; by apply fmap_Permutation, turns_of_insert|].
    case_decide as Hd; [|apply H5]. destruct Hd as [<- <-]. cbn. rewrite Hn. by apply numbered_cons.
Qed.

Lemma thread_rows_insert t th c k r a :
  cv_messages c !! k = None →
  thread_rows t th (set_messages (<[k := r]> (cv_messages c)) a c) ≡ₚ
    (if in_thread t th r then [r] else []) ++ thread_rows t th c.
Proof.
  intros Hk. unfold thread_rows. cbn. rewrite rows_insert_new by done. rewrite filter_cons.
  case_decide as Hd; destruct (in_thread t th r); done.
Qed.

Lemma in_thread_spec t th r :
  in_thread t th r = true ↔ m_tenant_id (mr_message r) = t ∧ m_thread_id (mr_message r) = th.
Proof. unfold in_thread. rewrite andb_true_iff, !String.eqb_eq. done. Qed.

(** The table after [messages_add]. *)
Definition with_message (m : Message) (c : conversations) : conversations :=
  set_messages (<[message_id m := row_of_message m]> (cv_messages c))
    (cv_attachments c ++ (attachment_row m <$> m_attachments m)) c.

Lemma conv_ok_add_message c m u :
  conv_ok c → cv_messages c !! message_id m = None → lawful m → cv_turns c !! m_turn_id m = Some u →
  tu_session u = m_session_id m → tu_thread u = m_thread_id m → tu_tenant u = m_tenant_id m →
  sequence m = next_after ((λ r, row_sequence r) <$> thread_rows (m_tenant_id m) (m_thread_id m) c) →
  conv_ok (with_message m c).
Proof.
  intros [H1 H2 H3 H4 H5 H6 H7] Hfresh Hl Hu Hs Hth Ht Hn. split; try done.
  - intros i r. cbn. rewrite lookup_insert_Some. intros [[<- <-]|[_ Hr]]; [|by apply H4].
    split_and!; [done..|]. by exists u.
  - intros t th. eapply numbered_perm; [symmetry; by apply fmap_Permutation, thread_rows_insert|].
    destruct (in_thread t th (row_of_message m)) eqn:Hd; [|apply H6].
    apply in_thread_spec in Hd as [<- <-]. cbn. rewrite Hn. by apply numbered_cons.
  - intros a. cbn. intros [Ha|Ha]%elem_of_app.
    + destruct (decide (message_id m = at_message a)) as [->|Hne]; [by rewrite lookup_insert_eq|].
      rewrite lookup_insert_ne by done. by apply H7.
    + apply list_elem_of_fmap in Ha as (b & -> & _). cbn. by rewrite lookup_insert_eq.
Qed.

(** *** The thread in order *)

#[export] Instance ascending_trans {A} (f : A → Z) : Transitive (ascending f).
Proof. intros x y z. unfold ascending. lia. Qed.
#[export] Instance ascending_total {A} (f : A → Z) : Total (ascending f).
Proof. intros x y. unfold ascending. lia. Qed.
#[export] Instance descending_trans {A} (f : A → Z) : Transitive (descending f).
Proof. intros x y z. unfold descending. lia. Qed.
#[export] Instance descending_total {A} (f : A → Z) : Total (descending f).
Proof. intros x y. unfold descending. lia. Qed.

Section order.
Context {A : Type} (f : A → Z).
Implicit Types l : list A.

Lemma NoDup_key l x y : NoDup (f <$> l) → x ∈ l → y ∈ l → f x = f y → x = y.
Proof.
  induction l as [|z l IH]; [by intros _ ?%elem_of_nil|]. rewrite fmap_cons. intros [Hz Hl]%NoDup_cons.
  intros [->|Hx]%elem_of_cons [->|Hy]%elem_of_cons Heq; [done| | |by apply IH].
  - destruct Hz. rewrite Heq. by apply list_elem_of_fmap_2.
  - destruct Hz. rewrite <- Heq. by apply list_elem_of_fmap_2.
Qed.

Lemma elem_of_rev x l : x ∈ rev l → x ∈ l.
Proof. by rewrite <- Permutation_rev. Qed.

Lemma rev_take n l : rev (take n l) = lastn n (rev l).
Proof.
  unfold lastn. rewrite skipn_rev, length_rev. destruct (decide (n ≤ length l)%nat).
  - by replace (length l - (length l - n))%nat with n by lia.
  - rewrite !take_ge by lia. done.
Qed.

Lemma StronglySorted_rev (R : relation A) l : StronglySorted R l → StronglySorted (flip R) (rev l).
Proof.
  induction 1 as [|x l Hl IH Hx]; [constructor|]. simpl. apply StronglySorted_app. split_and!; [|done|by repeat constructor].
  intros y z Hy%elem_of_rev ->%list_elem_of_singleton. by eapply (proj1 (Forall_forall _ _) Hx).
Qed.

(** The newest [n] rows that pass a test, oldest first, are the last [n] that pass
    it in order. *)
Lemma newest_oldest (p : A → bool) n l : NoDup (f <$> l) →
  rev (ordered (descending f) (Some n) (filter (λ x, p x = true) l)) =
    lastn n (filter (λ x, p x = true) (merge_sort (ascending f) l)).
Proof.
  intros Hnd. cbn [ordered]. rewrite rev_take. f_equal. rewrite <- (merge_sort_filter (ascending f)).
  2:{ intros x y Hx Hy H1 H2. apply (NoDup_key l); [done..|]. unfold ascending in *. lia. }
  apply (StronglySorted_unique_strong (ascending f)).
  - intros x y Hx Hy H1 H2. apply (NoDup_key l); [done| | |unfold ascending in *; lia].
    + apply elem_of_rev in Hx. rewrite merge_sort_Permutation in Hx. by apply list_elem_of_filter in Hx as [_ ?].
    + rewrite merge_sort_Permutation in Hy. by apply list_elem_of_filter in Hy as [_ ?].
  - apply (StronglySorted_rev (descending f)). apply StronglySorted_merge_sort; apply _.
  - apply StronglySorted_merge_sort; apply _.
  - by rewrite <- Permutation_rev, !merge_sort_Permutation.
Qed.
End order.

Abbreviation by_sequence := (ascending (λ r, row_sequence r)).

(** The messages of a thread, oldest first. *)
Definition messages_of (t th : string) (c : conversations) : list Message :=
  with_attachments c <$> merge_sort by_sequence (thread_rows t th c).

Definition shows (before_sequence : option Z) (include_internal : bool) (m : Message) : bool :=
  bool_decide (message_deleted_at m = None) && (include_internal || visible m) &&
  match before_sequence with Some b => Z.ltb (sequence m) b | None => true end.

Lemma filter_fmap {A B} (f : A → B) (p : B → bool) (l : list A) :
  filter (λ y, p y = true) (f <$> l) = f <$> filter (λ x, p (f x) = true) l.
Proof.
  induction l as [|x l IH]; [done|]. rewrite fmap_cons, !filter_cons. destruct (decide (p (f x) = true)); [|done].
  by rewrite fmap_cons, IH.
Qed.

Lemma sequences_NoDup c t th : conv_ok c → NoDup ((λ r, row_sequence r) <$> thread_rows t th c).
Proof. intros Hc. apply numbered_NoDup, (ok_messages _ Hc). Qed.

(** A page is the end of what it may show. *)
Lemma list_thread_spec c t th limit before inc : conv_ok c →
  list_thread t th limit before inc c =
    (Ok (lastn limit (filter (λ m, shows before inc m = true) (messages_of t th c))), c).
Proof.
  intros Hc. unfold list_thread, gets, oldest_first. rewrite newest_oldest by by apply sequences_NoDup.
  rewrite fmap_lastn. unfold messages_of. by rewrite filter_fmap.
Qed.

(** The messages of a thread are numbered 1, 2, ... in order. *)
Lemma messages_of_sequence c t th : conv_ok c →
  sequence <$> messages_of t th c = seqZ 1 (Z.of_nat (length (messages_of t th c))).
Proof.
  intros Hc. unfold messages_of. rewrite length_fmap. rewrite <- list_fmap_compose.
  apply (StronglySorted_unique_strong Z.le).
  - intros x y _ _. lia.
  - apply StronglySorted_fmap with by_sequence; [|apply StronglySorted_merge_sort; apply _]. done.
  - apply seqZ_ascending.
  - pose proof (ok_messages _ Hc t th) as Hn. unfold numbered in Hn. rewrite length_fmap in Hn.
    rewrite merge_sort_Permutation, <- Hn. by apply fmap_Permutation.
Qed.

(** *** What a new message changes *)

(** A message as it is read back: its attachments name it. *)
Definition stored (m : Message) : Message := shown (content m) (attachment_row m <$> m_attachments m) m.

Section add_message.
Context (c : conversations) (Hc : conv_ok c) (m : Message) (Hfresh : cv_messages c !! message_id m = None).

Lemma filter_none {A} (P : A → Prop) `{∀ x, Decision (P x)} l : (∀ x, x ∈ l → ¬ P x) → filter P l = [].
Proof.
  intros Hl. apply elem_of_nil_inv. intros x [Hp Hx]%list_elem_of_filter. by apply (Hl x).
Qed.

Lemma attachments_of_old i : is_Some (cv_messages c !! i) → attachments_of (with_message m c) i = attachments_of c i.
Proof.
  intros Hi. unfold attachments_of. cbn. rewrite filter_app, (filter_none _ (_ <$> _)); [apply app_nil_r|].
  intros a (b & -> & _)%list_elem_of_fmap. cbn. intros <-. rewrite Hfresh in Hi. by destruct Hi.
Qed.

Lemma attachments_of_new : attachments_of (with_message m c) (message_id m) = attachment_row m <$> m_attachments m.
Proof.
  unfold attachments_of. cbn. rewrite filter_app, filter_none.
  - simpl. induction (m_attachments m) as [|a l IH]; [done|]. rewrite fmap_cons, filter_cons_True by done. by rewrite IH.
  - intros a Ha Heq. destruct (ok_attachment _ Hc a Ha) as [r Hr]. congruence.
Qed.

Lemma elem_thread_rows t th r :
  r ∈ thread_rows t th c ↔ in_thread t th r = true ∧ cv_messages c !! message_id (mr_message r) = Some r.
Proof.
  unfold thread_rows. rewrite list_elem_of_filter, elem_of_rows. split; intros [Hp Hr]; split; try done; [|by eauto].
  destruct Hr as [k Hk]. by destruct (ok_message _ Hc k r Hk) as [-> _].
Qed.

Lemma merge_sort_snoc {A} (f : A → Z) x l :
  (∀ y, y ∈ l → f y < f x) → NoDup (f <$> l) →
  merge_sort (ascending f) (x :: l) = merge_sort (ascending f) l ++ [x].
Proof.
  intros Hlt Hnd. apply (StronglySorted_unique_strong (ascending f)).
  - intros y z Hy Hz H1 H2. rewrite merge_sort_Permutation in Hy.
    rewrite merge_sort_Permutation, Permutation_app_comm in Hz. apply (NoDup_key f (x :: l)); [|done..|unfold ascending in *; lia].
    rewrite fmap_cons. apply NoDup_cons. split; [|done]. intros (w & Hw & Hin)%list_elem_of_fmap.
    specialize (Hlt w Hin). lia.
  - apply StronglySorted_merge_sort; apply _.
  - apply StronglySorted_app. split_and!; [|apply StronglySorted_merge_sort; apply _|by repeat constructor].
    intros y z Hy ->%list_elem_of_singleton. rewrite merge_sort_Permutation in Hy. specialize (Hlt y Hy).
    unfold ascending. lia.
  - by rewrite !merge_sort_Permutation, Permutation_app_comm.
Qed.

Lemma merge_sort_perm_key {A} (f : A → Z) l l' :
  l ≡ₚ l' → NoDup (f <$> l) → merge_sort (ascending f) l = merge_sort (ascending f) l'.
Proof.
  intros Hl Hnd. apply (StronglySorted_unique_strong (ascending f)).
  - intros x y Hx Hy H1 H2. rewrite merge_sort_Permutation in Hx, Hy. rewrite <- Hl in Hy.
    apply (NoDup_key f l); [done..|unfold ascending in *; lia].
  - apply StronglySorted_merge_sort; apply _.
  - apply StronglySorted_merge_sort; apply _.
  - by rewrite !merge_sort_Permutation.
Qed.

Lemma with_attachments_old t th l :
  l ⊆ thread_rows t th c → (with_attachments (with_message m c) <$> l) = (with_attachments c <$> l).
Proof.
  intros Hl. apply list_fmap_ext. intros i r Hr. unfold with_attachments. rewrite attachments_of_old; [done|].
  apply list_elem_of_lookup_2, Hl, elem_thread_rows in Hr as [_ Hr]. by exists r.
Qed.

Lemma messages_of_other t th : ¬ (m_tenant_id m = t ∧ m_thread_id m = th) →
  messages_of t th (with_message m c) = messages_of t th c.
Proof.
  intros Hne. assert (thread_rows t th (with_message m c) ≡ₚ thread_rows t th c) as Hperm.
  { unfold with_message. rewrite thread_rows_insert by done. destruct (in_thread t th (row_of_message m)) eqn:Hin; [|done].
    by apply in_thread_spec in Hin. }
  unfold messages_of. rewrite (merge_sort_perm_key _ _ _ Hperm).
  - apply (with_attachments_old t th). intros r. by rewrite merge_sort_Permutation.
  - rewrite Hperm. by apply sequences_NoDup.
Qed.

Lemma messages_of_add t th : m_tenant_id m = t → m_thread_id m = th →
  sequence m = next_after ((λ r, row_sequence r) <$> thread_rows t th c) →
  messages_of t th (with_message m c) = messages_of t th c ++ [stored m].
Proof.
  intros Ht Hth Hn. pose proof (ok_messages _ Hc t th) as Hnum. rewrite (numbered_next _ Hnum) in Hn.
  assert (thread_rows t th (with_message m c) ≡ₚ row_of_message m :: thread_rows t th c) as Hperm.
  { unfold with_message. rewrite thread_rows_insert by done.
    by rewrite (proj2 (in_thread_spec t th (row_of_message m)) (conj Ht Hth)). }
  assert (∀ y, y ∈ thread_rows t th c → row_sequence y < row_sequence (row_of_message m)) as Hlt.
  { intros y Hy. cbn. rewrite Hn. assert (row_sequence y ∈ ((λ r, row_sequence r) <$> thread_rows t th c)) as Hin.
    { by apply (list_elem_of_fmap_2 (λ r, row_sequence r)). }
    apply (numbered_elem _ _ Hnum) in Hin. lia. }
  unfold messages_of. rewrite (merge_sort_perm_key _ _ _ Hperm).
  - rewrite merge_sort_snoc by (done || by apply sequences_NoDup). rewrite fmap_app. f_equal.
    + apply (with_attachments_old t th). intros r. by rewrite merge_sort_Permutation.
    + cbn. unfold with_attachments. cbn [mr_message row_of_message message_id shown]. by rewrite attachments_of_new.
  - rewrite Hperm, fmap_cons. apply NoDup_cons. split; [|by apply sequences_NoDup].
    intros (y & Hy & Hin)%list_elem_of_fmap. specialize (Hlt y Hin). lia.
Qed.
End add_message.

(** The messages do not depend on the other tables. *)
Lemma messages_of_ext t th c c' :
  cv_messages c' = cv_messages c → cv_attachments c' = cv_attachments c → messages_of t th c' = messages_of t th c.
Proof.
  intros Hm Ha. unfold messages_of, thread_rows. rewrite Hm. apply list_fmap_ext. intros i r _.
  unfold with_attachments, attachments_of. by rewrite Ha.
Qed.
