(* ===== verification/Summary.v ===== *)
(** * Summary: the rolling summary of a thread
    (modules/conversation/summary.py, the thread summaries of
    adapters/db/profile_repository.py)

    The extractive digest, its bound, and the job that folds the messages after
    the last summary into the next version: a read in one unit of work and a write
    in another, so two runs of it may overlap. What the tenant's model answers is
    an argument. *)
From stdpp Require Import sorting.
From S2P Require Import Prelude Errors Text Messages Revisions Tasks Outbox UnitOfWork ConversationRepo.
#[local] Open Scope Z_scope.

(** ** The digest *)

Definition SUMMARY_SOURCE_MESSAGES : nat := 200.
Definition SUMMARY_MAX_CHARS : nat := 2000.
Definition LINE_CHARS : nat := 160.
Definition EXTRACTIVE : string := "extractive".

(** [(?<=[.!?])\s+]. *)
Definition after_sentence : regex :=
  Then (Behind (λ c, bool_decide (c ∈ lit ".!?"))) (Plus isspace).

Fixpoint fill_line (line : text) (rest : list text) : text :=
  match rest with
  | [] => line
  | sentence :: rest' =>
      if (LINE_CHARS <? length line + 1 + length sentence)%nat then line
      else fill_line (line ++ lit " " ++ sentence) rest'
  end.

Definition _line (t : text) : text :=
  match re_split (strip t) after_sentence with
  | first :: rest => fill_line (take LINE_CHARS first) rest
  | [] => []
  end.

(** A visible message that says something. *)
Definition told (m : Message) : bool := bool_decide (kind m = VISIBLE) && negb (bool_decide (strip (chars (content m)) = [])).

Definition digest (messages : list Message) : list text :=
  (λ m, lower (lit (role_value (role m))) ++ lit ": " ++ _line (chars (content m))) <$> filter (λ m, told m = true) messages.

Fixpoint lines_size (lines : list text) : nat :=
  match lines with [] => O | l :: rest => (length l + 1 + lines_size rest)%nat end.

(** The [while] loop: the oldest lines go until the rest fits. *)
Fixpoint fit_lines (lines : list text) : list text :=
  match lines with
  | [] => []
  | _ :: rest => if (SUMMARY_MAX_CHARS <? lines_size lines)%nat then fit_lines rest else lines
  end.

Definition rolled (previous : text) (messages : list Message) : text :=
  join [newline] (fit_lines (splitlines previous ++ digest messages)).

(** ** Summaries and their table *)

Record ThreadSummary := {
  ts_tenant : string;
  ts_thread : string;
  ts_version : Z;
  ts_text : text;
  ts_covers : Z;
  ts_model : string;
  ts_created_at : Z;
}.

(** The tables a refresh reads and writes; a summary's key is its tenant, thread
    and version. *)
Record summary_tables := {
  sb_conversations : conversations;
  sb_summaries : gmap (string * string * Z) ThreadSummary;
}.

Abbreviation sprog A := (prog summary_tables A).

Definition by_version (x y : ThreadSummary) : Prop := ts_version y ≤ ts_version x.

#[export] Instance by_version_dec x y : Decision (by_version x y).
Proof. unfold by_version. apply _. Defined.

Definition summaries_of (t th : string) (d : summary_tables) : list ThreadSummary :=
  filter (λ s, ts_tenant s = t ∧ ts_thread s = th) (snd <$> map_to_list (sb_summaries d)).

(** [SqlThreadSummaryRepository.latest]. *)
Definition latest (t th : string) : sprog (option ThreadSummary) :=
  gets (λ d, head (ordered by_version (Some 1%nat) (summaries_of t th d))).

Definition summary_key (s : ThreadSummary) : string * string * Z := (ts_tenant s, ts_thread s, ts_version s).

(** [SqlThreadSummaryRepository.add]: nothing happens when the version is there. *)
Definition add (s : ThreadSummary) : sprog bool := λ d,
  match sb_summaries d !! summary_key s with
  | Some _ => (Ok false, d)
  | None => (Ok true, {| sb_conversations := sb_conversations d; sb_summaries := <[summary_key s := s]> (sb_summaries d) |})
  end.

Definition in_conversations {A} (m : cprog A) : sprog A :=
  zoom sb_conversations (λ c d, {| sb_conversations := c; sb_summaries := sb_summaries d |}) m.

(** ** The refresh *)

(** [_abstractive]: [structured] is what the model's client returns for the
    prompt, the "summary" of its answer ("" when there is none). *)
Definition last_chars (n : nat) (t : text) : text := drop (length t - n) t.

Definition prompt_lines (messages : list Message) : text :=
  join [newline] ((λ m, lower (lit (role_value (role m))) ++ lit ": " ++ join (lit " ") (words (chars (content m))))
                    <$> filter (λ m, told m = true) messages).

Definition prompt (previous : text) (messages : list Message) : text :=
  lit "Previous summary:" ++ [newline] ++ match previous with [] => lit "(none)" | _ => previous end ++ [newline; newline] ++
  lit "New messages:" ++ [newline] ++ last_chars 8000 (prompt_lines messages).

Definition _abstractive (structured : text → text) (previous : text) (messages : list Message) : option text :=
  let t := strip (structured (prompt previous messages)) in
  match t with
  | [] => None
  | _ => if (length t <=? 3000)%nat then Some t else None
  end.

(** The model a principal's tenant wants summaries written with. *)
Record Assist := {
  as_model : string;
  as_structured : text → text;
}.

Definition _fold (assist : option Assist) (previous : text) (messages : list Message) : text * string :=
  match assist with
  | Some a => match _abstractive (as_structured a) previous messages with
              | Some written => (written, as_model a)
              | None => (rolled previous messages, EXTRACTIVE)
              end
  | None => (rolled previous messages, EXTRACTIVE)
  end.

(** The last message of the read. *)
Definition next_summary (assist : option Assist) (now : Z) (t th : string) (previous : option ThreadSummary) (new : list Message) :
    option ThreadSummary :=
  match last new with
  | None => None
  | Some m =>
      let '(text_, model) := _fold assist (match previous with Some p => ts_text p | None => [] end) new in
      Some {| ts_tenant := t; ts_thread := th; ts_version := match previous with Some p => ts_version p | None => 0 end + 1;
              ts_text := text_; ts_covers := sequence m; ts_model := model; ts_created_at := now |}
  end.

Section refresh.
Context {Q : Type} `{TaskQueue Q}.
Context (locked : gset Z).

Abbreviation dprog A := (prog (database summary_tables * Q) A).

(** The first unit of work: [None] for a thread that is gone. *)
Definition refresh_read (t th : string) : dprog (option (option ThreadSummary * list Message)) :=
  with_uow (work_rest (
    bind (in_conversations (threads_get t th)) (λ thread,
    match thread with
    | None => ret None
    | Some _ =>
        bind (latest t th) (λ previous,
        bind (in_conversations (list_after t th (match previous with Some p => ts_covers p | None => 0 end) SUMMARY_SOURCE_MESSAGES))
          (λ new, ret (Some (previous, new))))
    end))).

(** The second. *)
Definition refresh_write (now : Z) (s : ThreadSummary) : dprog unit :=
  with_uow (
    bind (work_rest (add s)) (λ added,
    if added then
      bind (work_revisions (bump (ts_tenant s) RevThread (ts_thread s))) (λ _, commit now locked)
    else ret tt)).

Definition refresh (assist : option Assist) (now : Z) (t th : string) : dprog (option ThreadSummary) :=
  bind (refresh_read t th) (λ found,
  match found with
  | None => ret None
  | Some (previous, new) =>
      match next_summary assist now t th previous new with
      | None => ret previous
      | Some s => bind (refresh_write now s) (λ _, ret (Some s))
      end
  end).
End refresh.

(** ** The digest is bounded *)

Lemma fit_lines_drop lines : ∃ n, fit_lines lines = drop n lines ∧ (∀ k, (k < n)%nat → (SUMMARY_MAX_CHARS < lines_size (drop k lines))%nat) ∧
  (lines_size (fit_lines lines) ≤ SUMMARY_MAX_CHARS)%nat.
Proof.
  induction lines as [|l rest (n & Hn & Hk & Hs)]; [exists O; split_and!; [done|lia|unfold SUMMARY_MAX_CHARS; simpl; lia]|].
  cbn [fit_lines]. destruct (Nat.ltb_spec SUMMARY_MAX_CHARS (lines_size (l :: rest))).
  - exists (S n). split_and!; [done| |done]. intros [|k] ?; [done|]. apply Hk. lia.
  - exists O. split_and!; [done|lia|done].
Qed.

Lemma join_size lines : lines ≠ [] → (S (length (join [newline] lines)) = lines_size lines)%nat.
Proof.
  induction lines as [|l [|l2 rest] IH]; intros Hne; [done|simpl; lia|]. specialize (IH ltac:(done)).
  change (join [newline] (l :: l2 :: rest)) with (l ++ [newline] ++ join [newline] (l2 :: rest)).
  rewrite !length_app. cbn [lines_size length] in *. lia.
Qed.

Lemma rolled_short previous messages : (length (rolled previous messages) < SUMMARY_MAX_CHARS)%nat.
Proof.
  destruct (fit_lines_drop (splitlines previous ++ digest messages)) as (n & _ & _ & Hs). unfold rolled.
  destruct (fit_lines _) as [|l rest] eqn:Hf; [unfold SUMMARY_MAX_CHARS; simpl; lia|].
  pose proof (join_size (l :: rest) ltac:(done)). lia.
Qed.

(** The extractive summary is bounded and keeps the newest: whatever the
    summary before and the messages, it is under 2000 characters, made of the
    last of the lines there were, and one line more would not fit. *)
Theorem rolled_bounded previous messages :
  (length (rolled previous messages) < SUMMARY_MAX_CHARS)%nat ∧
  ∃ n, rolled previous messages = join [newline] (drop n (splitlines previous ++ digest messages)) ∧
    ∀ k, (k < n)%nat → (SUMMARY_MAX_CHARS < lines_size (drop k (splitlines previous ++ digest messages)))%nat.
Proof.
  split; [apply rolled_short|]. destruct (fit_lines_drop (splitlines previous ++ digest messages)) as (n & Hn & Hk & _).
  exists n. unfold rolled. by rewrite Hn.
Qed.

Lemma fold_bounded assist previous messages : (length (_fold assist previous messages).1 ≤ 3000)%nat.
Proof.
  assert (length (rolled previous messages) ≤ 3000)%nat.
  { pose proof (rolled_short previous messages) as H. unfold SUMMARY_MAX_CHARS in H. lia. }
  unfold _fold, _abstractive. repeat case_match; simplify_eq; simpl; try done.
  match goal with H : (_ <=? _)%nat = true |- _ => by apply Nat.leb_le in H end.
Qed.

(** ** What a refresh reads and writes *)

(** Every summary under its own key. *)
Definition summaries_wf (d : summary_tables) : Prop := ∀ k s, sb_summaries d !! k = Some s → summary_key s = k.

(** [s] is a fold of [previous] (none: of nothing) and of messages after it. *)
Definition follows (previous : option ThreadSummary) (s : ThreadSummary) : Prop :=
  ∃ assist messages,
    (ts_text s, ts_model s) = _fold assist (match previous with Some p => ts_text p | None => [] end) messages ∧ messages ≠ [] ∧
    Forall (λ m, match previous with Some p => ts_covers p | None => 0 end < sequence m ≤ ts_covers s) messages.

(** The versions of a thread's summary are 1, ..., [n], each a fold of the one before. *)
Definition chain (d : summary_tables) (t th : string) (n : Z) : Prop :=
  0 ≤ n ∧ (∀ v, is_Some (sb_summaries d !! (t, th, v)) ↔ 1 ≤ v ≤ n) ∧
  ∀ v s, sb_summaries d !! (t, th, v) = Some s → follows (sb_summaries d !! (t, th, v - 1)) s.

Lemma elem_summaries_of t th d s : summaries_wf d →
  s ∈ summaries_of t th d ↔ sb_summaries d !! (t, th, ts_version s) = Some s ∧ ts_tenant s = t ∧ ts_thread s = th.
Proof.
  intros Hwf. unfold summaries_of. rewrite list_elem_of_filter, list_elem_of_fmap. split.
  - intros ((Ht & Hth) & [k x] & -> & Hin%elem_of_map_to_list). simpl in *. pose proof (Hwf k x Hin) as Hk. subst k. unfold summary_key in Hin.
    rewrite Ht, Hth in Hin. done.
  - intros (Hs & Ht & Hth). split; [done|]. exists ((t, th, ts_version s), s). split; [done|]. by apply elem_of_map_to_list.
Qed.

Lemma latest_spec t th d n : summaries_wf d → chain d t th n →
  latest t th d = (Ok (sb_summaries d !! (t, th, n)), d).
Proof.
  intros Hwf (Hn & Hv & _). unfold latest, gets. f_equal. f_equal. unfold ordered.
  destruct (merge_sort by_version (summaries_of t th d)) as [|x l] eqn:Hs.
  - destruct (sb_summaries d !! (t, th, n)) as [s|] eqn:Hl; [exfalso|done].
    pose proof (Hwf _ _ Hl) as Hk. unfold summary_key in Hk. injection Hk as Ht Hth Hver.
    assert (s ∈ summaries_of t th d) as Hin by (apply elem_summaries_of; [done|]; by rewrite Hver).
    rewrite <- (merge_sort_Permutation by_version), Hs in Hin. by apply elem_of_nil in Hin.
  - simpl. assert (x ∈ summaries_of t th d) as Hx by (rewrite <- (merge_sort_Permutation by_version), Hs; by left).
    apply (elem_summaries_of _ _ _ _ Hwf) in Hx as (Hx & _ & _).
    assert (1 ≤ ts_version x ≤ n) as Hxv by (apply Hv; by rewrite Hx).
    destruct (proj2 (Hv n)) as [s Hl]; [lia|]. pose proof (Hwf _ _ Hl) as Hk. unfold summary_key in Hk. injection Hk as Ht Hth Hver.
    assert (s ∈ x :: l) as Hin.
    { rewrite <- Hs, merge_sort_Permutation. apply elem_summaries_of; [done|]. by rewrite Hver. }
    assert (by_version x s) as Hle.
    { apply elem_of_cons in Hin as [->|Hin]; [unfold by_version; lia|].
      assert (StronglySorted by_version (x :: l)) as Hsort.
      { rewrite <- Hs. apply Sorted_StronglySorted; [unfold by_version; intros ???; lia|].
        apply Sorted_merge_sort. unfold by_version. intros ??. lia. }
      apply StronglySorted_inv in Hsort as [_ Hall]. rewrite Forall_forall in Hall. by apply Hall. }
    unfold by_version in Hle. rewrite Hver in Hle. assert (ts_version x = n) as Heq by lia. by rewrite <- Heq, Hx.
Qed.

(** The messages a summary covering up to [covered] leaves unread. *)
Definition unread (t th : string) (covered : Z) (c : conversations) : list message_row :=
  filter (λ r, listed None false r = true ∧ covered < row_sequence r) (thread_rows t th c).

Lemma list_after_spec t th covered limit c :
  list_after t th covered limit c = (Ok ((λ r, row_to_message r []) <$> ordered (ascending (λ r, row_sequence r)) (Some limit) (unread t th covered c)), c).
Proof. done. Qed.

Lemma sequence_row r l : sequence (row_to_message r l) = row_sequence r.
Proof. unfold row_to_message. by repeat case_match. Qed.

Lemma Sorted_fmap_rel {A B} (R : A → A → Prop) (S : B → B → Prop) (f : A → B) l :
  (∀ x y, R x y → S (f x) (f y)) → Sorted R l → Sorted S (f <$> l).
Proof.
  intros Hf. induction 1 as [|x l Hl IH Hx]; csimpl; constructor; [done|]. destruct Hx; csimpl; constructor. by apply Hf.
Qed.

Lemma read_after t th covered limit c :
  let new := (λ r, row_to_message r []) <$> ordered (ascending (λ r, row_sequence r)) (Some limit) (unread t th covered c) in
  Sorted (ascending sequence) new ∧ Forall (λ m, covered < sequence m) new.
Proof.
  cbn zeta. unfold ordered. split.
  - eapply Sorted_fmap_rel; [|apply Sorted_take, Sorted_merge_sort; intros x y; unfold ascending; lia].
    intros x y. unfold ascending. by rewrite !sequence_row.
  - apply Forall_fmap, Forall_take, Forall_forall. intros r Hr. rewrite merge_sort_Permutation in Hr.
    apply list_elem_of_filter in Hr as [[_ Hr] _]. change (covered < sequence (row_to_message r [])). by rewrite sequence_row.
Qed.

Lemma next_summary_follows assist now t th previous new s covered :
  covered = match previous with Some p => ts_covers p | None => 0 end →
  Sorted (ascending sequence) new → Forall (λ m, covered < sequence m) new →
  next_summary assist now t th previous new = Some s →
  follows previous s ∧ ts_tenant s = t ∧ ts_thread s = th ∧
  ts_version s = match previous with Some p => ts_version p | None => 0 end + 1 ∧ (∃ m, last new = Some m ∧ ts_covers s = sequence m).
Proof.
  intros Hc Hsort Hall Hs. unfold next_summary in Hs. destruct (last new) as [m|] eqn:Hm; [|done].
  destruct (_fold _ _ _) as [tx model] eqn:Hf. injection Hs as <-. split_and!; [|done..|by exists m]. exists assist, new. simpl.
  split_and!; [by rewrite Hf|by intros ->|]. apply Forall_forall. intros x Hx. rewrite Forall_forall in Hall. specialize (Hall x Hx).
  rewrite <- Hc. split; [done|]. apply last_Some in Hm as [l ->]. apply Sorted_StronglySorted in Hsort; [|unfold ascending; intros ???; lia].
  apply elem_of_app in Hx as [Hx|Hx%list_elem_of_singleton]; [|subst; lia].
  apply StronglySorted_app in Hsort as (Hsort & _ & _). unfold ascending in Hsort. apply Hsort; [done|by left].
Qed.

Section runs.
Context {Q : Type} `{TaskQueue Q}.
Implicit Types d : database summary_tables.

Lemma refresh_read_run t th d (q : Q) n :
  summaries_wf (d_rest d) → chain (d_rest d) t th n →
  let previous := sb_summaries (d_rest d) !! (t, th, n) in
  let covered := match previous with Some p => ts_covers p | None => 0 end in
  refresh_read t th (d, q) =
    (Ok (match thread_of t th (sb_conversations (d_rest d)) with
         | None => None
         | Some _ => Some (previous, (λ r, row_to_message r []) <$>
             ordered (ascending (λ r, row_sequence r)) (Some SUMMARY_SOURCE_MESSAGES) (unread t th covered (sb_conversations (d_rest d))))
         end), (d, q)).
Proof.
  intros Hwf Hc. cbn zeta. unfold refresh_read, with_uow, enter, work_rest, in_work, zoom. cbn [u_work fst snd].
  set (body := bind _ _).
  assert (body (d_rest d) =
    (Ok (match thread_of t th (sb_conversations (d_rest d)) with
         | None => None
         | Some _ => Some (sb_summaries (d_rest d) !! (t, th, n), (λ r, row_to_message r []) <$>
             ordered (ascending (λ r, row_sequence r)) (Some SUMMARY_SOURCE_MESSAGES)
               (unread t th (match sb_summaries (d_rest d) !! (t, th, n) with Some p => ts_covers p | None => 0 end)
                  (sb_conversations (d_rest d))))
         end), d_rest d)) as ->.
  { assert ({| sb_conversations := sb_conversations (d_rest d); sb_summaries := sb_summaries (d_rest d) |} = d_rest d) as Heta.
    { by destruct (d_rest d). }
    unfold body. erewrite bind_ok; [|unfold in_conversations, zoom, threads_get, gets; reflexivity]. rewrite Heta.
    destruct (thread_of _ _ _); [|done]. erewrite bind_ok; [|by apply latest_spec].
    unfold in_conversations, zoom, bind, list_after, gets. simpl. rewrite Heta. done. }
  unfold leave, set_work, with_outbox, with_rest. simpl. by destruct d as [[? ?] ? ?].
Qed.

Lemma refresh_write_run locked now s d (q : Q) :
  ∃ d' q', refresh_write locked now s (d, q) = (Ok tt, (d', q')) ∧ d_rest d' = snd (add s (d_rest d)).
Proof.
  unfold refresh_write, with_uow, enter. cbn [fst snd]. set (u := Build_uow _ _ _ _ _ _ _).
  destruct (add s (d_rest d)) as [[added|e] rest] eqn:Ha; [|unfold add in Ha; by case_match].
  assert (work_rest (add s) u = (Ok added, set_work (with_rest rest d) u)) as Hw.
  { unfold work_rest, in_work, zoom. simpl. by rewrite Ha. }
  erewrite bind_ok; [|exact Hw]. destruct added.
  - set (u1 := set_work _ u). destruct (bump (ts_tenant s) RevThread (ts_thread s) (d_revisions d)) as [v rev] eqn:Hb.
    assert (work_revisions (bump (ts_tenant s) RevThread (ts_thread s)) u1 = (v, set_work (with_revisions rev (with_rest rest d)) u1)) as Hr.
    { unfold work_revisions, in_work, zoom, u1, u. cbn [u_work set_work with_rest d_revisions]. by rewrite Hb. }
    destruct v as [v|e]; [|unfold bump in Hb; done]. erewrite bind_ok; [|exact Hr]. set (u2 := set_work _ u1).
    destruct (commit_rest now locked u2) as (u3 & -> & Hc). eexists _, _. split; [done|]. unfold leave. simpl. by rewrite Hc.
  - eexists _, _. split; [done|]. unfold leave. simpl. unfold add in Ha. by case_match; simplify_eq.
Qed.
End runs.

(** ** Refreshes that overlap *)

Section overlapping.
Context {Q : Type} `{TaskQueue Q}.

(** The database, the queue, and the summaries refreshes have folded and not yet
    written: each between its two units of work. *)
Record sworld := {
  sw_database : database summary_tables;
  sw_queue : Q;
  sw_folded : list ThreadSummary;
}.

(** Other requests change anything but the summaries; a refresh reads and folds;
    or writes what it folded, perhaps again after a crash. *)
Inductive sstep (w : sworld) : sworld → Prop :=
| st_others d : sb_summaries (d_rest d) = sb_summaries (d_rest (sw_database w)) →
    sstep w {| sw_database := d; sw_queue := sw_queue w; sw_folded := sw_folded w |}
| st_read assist now t th previous new s d q :
    refresh_read t th (sw_database w, sw_queue w) = (Ok (Some (previous, new)), (d, q)) →
    next_summary assist now t th previous new = Some s →
    sstep w {| sw_database := d; sw_queue := q; sw_folded := s :: sw_folded w |}
| st_write locked now s r d q :
    s ∈ sw_folded w → refresh_write locked now s (sw_database w, sw_queue w) = (r, (d, q)) →
    sstep w {| sw_database := d; sw_queue := q; sw_folded := sw_folded w |}.

(** What was folded is too late, or the next version. *)
Definition folded_ok (d : summary_tables) (s : ThreadSummary) : Prop :=
  ∃ n, chain d (ts_tenant s) (ts_thread s) n ∧
    (1 ≤ ts_version s ≤ n ∨ (ts_version s = n + 1 ∧ follows (sb_summaries d !! (ts_tenant s, ts_thread s, n)) s)).

Record sinv (w : sworld) : Prop := {
  si_wf : summaries_wf (d_rest (sw_database w));
  si_chain : ∀ t th, ∃ n, chain (d_rest (sw_database w)) t th n;
  si_folded : ∀ s, s ∈ sw_folded w → folded_ok (d_rest (sw_database w)) s;
}.

Lemma chain_ext d d' t th n : sb_summaries d' = sb_summaries d → chain d t th n → chain d' t th n.
Proof. intros Hd. unfold chain. by rewrite Hd. Qed.

Lemma folded_ok_ext d d' s : sb_summaries d' = sb_summaries d → folded_ok d s → folded_ok d' s.
Proof. intros Hd (n & Hc & Hs). exists n. rewrite Hd. split; [by eapply chain_ext|done]. Qed.

Lemma chain_unique d t th n m : chain d t th n → chain d t th m → n = m.
Proof.
  intros (Hn & Hvn & _) (Hm & Hvm & _). destruct (Z.lt_trichotomy n m) as [Hlt|[?|Hlt]]; [|done|].
  - assert (1 ≤ m ≤ n); [|lia]. apply Hvn, Hvm. lia.
  - assert (1 ≤ n ≤ m); [|lia]. apply Hvm, Hvn. lia.
Qed.

(** Adding the next version. *)
Lemma chain_add d s t th n :
  chain d t th n → (t = ts_tenant s ∧ th = ts_thread s → ts_version s = n + 1 ∧ follows (sb_summaries d !! (t, th, n)) s) →
  chain {| sb_conversations := sb_conversations d; sb_summaries := <[summary_key s := s]> (sb_summaries d) |} t th
    (if decide (t = ts_tenant s ∧ th = ts_thread s) then n + 1 else n).
Proof.
  intros (Hn & Hv & Hf) Hs. unfold chain, summary_key. cbn [sb_summaries]. case_decide as Hk.
  - destruct Hk as [-> ->]. destruct (Hs ltac:(done)) as [Hver Hfol]. rewrite Hver. split_and!; [lia| |].
    + intros v. destruct (decide (v = n + 1)) as [->|Hne].
      * rewrite lookup_insert_eq. split; [lia|by eexists].
      * rewrite lookup_insert_ne by congruence. rewrite Hv. lia.
    + intros v x. destruct (decide (v = n + 1)) as [->|Hne].
      * rewrite lookup_insert_eq. intros [= <-]. rewrite lookup_insert_ne by (intros [=]; lia). by replace (n + 1 - 1) with n by lia.
      * rewrite lookup_insert_ne by congruence. intros Hx. assert (1 ≤ v ≤ n) as Hvn by (apply Hv; by eexists).
        rewrite lookup_insert_ne by (intros [=]; lia). by apply Hf.
  - assert (∀ v, (ts_tenant s, ts_thread s, ts_version s) ≠ (t, th, v)) as Hne by (intros v [=]; destruct Hk; done).
    split_and!; [done| |].
    + intros v. rewrite lookup_insert_ne by apply Hne. apply Hv.
    + intros v x. rewrite !lookup_insert_ne by apply Hne. apply Hf.
Qed.

Lemma sstep_inv w w' : sstep w w' → sinv w → sinv w'.
Proof.
  intros [d Hd|assist now t th previous new s d q Hread Hnext|locked now s r d q Hin Hwrite] [Hwf Hc Hf]; simpl in *.
  - constructor; simpl.
    + intros k s. rewrite Hd. apply Hwf.
    + intros t th. destruct (Hc t th) as [n Hn]. exists n. by eapply chain_ext.
    + intros s Hs. eapply folded_ok_ext; [done|by apply Hf].
  - destruct (Hc t th) as [n Hn]. rewrite (refresh_read_run _ _ _ _ _ Hwf Hn) in Hread.
    destruct (thread_of _ _ _); [|done]. injection Hread as <- <- <- <-. constructor; simpl; [done|done|].
    intros x [->|Hx]%elem_of_cons; [|by apply Hf].
    eapply next_summary_follows in Hnext as (Hfol & Ht & Hth & Hver & _); [|done| |].
    + exists n. rewrite Ht, Hth. split; [done|]. right. split; [|done]. rewrite Hver. destruct (_ !! _) as [p|] eqn:Hp; [|].
      * pose proof (Hwf _ _ Hp) as Hk. unfold summary_key in Hk. congruence.
      * destruct Hn as (Hn0 & Hv & _). destruct (decide (1 ≤ n)); [|lia]. destruct (proj2 (Hv n)) as [? ?]; [lia|congruence].
    + apply read_after.
    + apply read_after.
  - destruct (refresh_write_run locked now s (sw_database w) (sw_queue w)) as (d1 & q1 & Hrun & Hrest).
    rewrite Hwrite in Hrun. injection Hrun as -> -> ->. unfold add in Hrest.
    destruct (sb_summaries (d_rest (sw_database w)) !! summary_key s) as [old|] eqn:Hold; simpl in Hrest.
    { constructor; simpl; rewrite Hrest; done. }
    destruct (Hf s Hin) as (n & Hn & Hs).
    assert (ts_version s = n + 1 ∧ follows (sb_summaries (d_rest (sw_database w)) !! (ts_tenant s, ts_thread s, n)) s) as Hnew.
    { destruct Hs as [Hs|Hs]; [|done]. destruct Hn as (_ & Hv & _). destruct (proj2 (Hv _) Hs) as [x Hx]. unfold summary_key in Hold. congruence. }
    constructor; simpl; rewrite Hrest.
    + intros k x. cbn [sb_summaries]. rewrite lookup_insert_Some. intros [[<- <-]|[_ Hx]]; [done|by apply Hwf].
    + intros t th. destruct (Hc t th) as [m Hm]. eexists. apply (chain_add _ s t th m Hm). intros [-> ->].
      by rewrite (chain_unique _ _ _ _ _ Hm Hn).
    + intros x Hx. destruct (Hf x Hx) as (m & Hm & Hxm). eexists. split.
      { apply (chain_add _ s _ _ m Hm). intros [Ht Hth]. rewrite Ht, Hth in Hm. rewrite Ht, Hth.
        by rewrite (chain_unique _ _ _ _ _ Hm Hn). }
      case_decide as Hk; [left; destruct Hm as [? _]; destruct Hxm as [?|[? _]]; lia|].
      destruct Hxm as [?|[? Hfol]]; [by left|right]. split; [done|]. cbn [sb_summaries].
      rewrite lookup_insert_ne; [done|]. unfold summary_key. intros [=]. destruct Hk. done.
Qed.

(** Overlapping refreshes keep one history: whatever other requests do and
    however the reads and writes of refreshes of a thread interleave, its versions
    are 1, 2, ... with none missing, and each is the fold of the version before it
    and of messages that come after what that one covers. *)
Theorem summaries_chain d q w :
  sb_summaries (d_rest d) = ∅ → rtc sstep {| sw_database := d; sw_queue := q; sw_folded := [] |} w →
  ∀ t th, ∃ n, chain (d_rest (sw_database w)) t th n.
Proof.
  intros Hd Hsteps. apply si_chain.
  assert (sinv {| sw_database := d; sw_queue := q; sw_folded := [] |}) as Hinv.
  { constructor; simpl; unfold summaries_wf, chain; rewrite ?Hd; [done| |by intros ? ?%elem_of_nil].
    intros t th. exists 0. split_and!; [done| |done]. intros v. rewrite lookup_empty. split; [by intros [? ?]|lia]. }
  revert Hinv. induction Hsteps as [|w1 w2 w3 Hs _ IH]; [done|]. intros Hinv. by eapply IH, sstep_inv.
Qed.
End overlapping.

(** ** Refreshes catch up *)

Section catching_up.
Context {Q : Type} `{TaskQueue Q}.
Context (locked : gset Z) (t th : string).
Implicit Types d : database summary_tables.

(** What version [n] (0: none yet) covers. *)
Definition covered (d : summary_tables) (n : Z) : Z := match sb_summaries d !! (t, th, n) with Some p => ts_covers p | None => 0 end.

Lemma unread_after covered_ covered' c : covered_ ≤ covered' →
  unread t th covered' c = filter (λ r, covered' < row_sequence r) (unread t th covered_ c).
Proof.
  intros Hle. unfold unread. rewrite list_filter_filter. apply list_filter_iff. intros r. split; [intros [? ?]|tauto].
  split_and!; [done|done|lia].
Qed.

Lemma filter_length_perm {A} (P : A → Prop) `{∀ x, Decision (P x)} l k : l ≡ₚ k → length (filter P l) = length (filter P k).
Proof. intros Hp. by rewrite Hp. Qed.

Lemma filter_nothing {A} (P : A → Prop) `{∀ x, Decision (P x)} l : (∀ x, x ∈ l → ¬ P x) → filter P l = [].
Proof.
  induction l as [|x l IH]; [done|]. intros HP. rewrite filter_cons_False by (apply HP; by left).
  apply IH. intros y Hy. apply HP. by right.
Qed.

(** The messages after the last of the [k] oldest. *)
Lemma unread_rest covered_ c k m :
  last (ordered (ascending (λ r, row_sequence r)) (Some k) (unread t th covered_ c)) = Some m →
  covered_ < row_sequence m ∧ (length (unread t th (row_sequence m) c) ≤ length (unread t th covered_ c) - k)%nat.
Proof.
  unfold ordered. set (l := merge_sort _ _). intros Hm.
  assert (l ≡ₚ unread t th covered_ c) as Hp by apply merge_sort_Permutation.
  assert (StronglySorted (ascending (λ r, row_sequence r)) l) as Hsort.
  { apply Sorted_StronglySorted; [unfold ascending; intros ???; lia|]. apply Sorted_merge_sort. unfold ascending. intros ??. lia. }
  assert (m ∈ take k l) as Hin by by eapply last_Some_elem_of.
  assert (covered_ < row_sequence m) as Hlt.
  { assert (m ∈ unread t th covered_ c) as Hu by (rewrite <- Hp; by eapply subseteq_take).
    by apply list_elem_of_filter in Hu as [[_ ?] _]. }
  split; [done|]. rewrite (unread_after covered_) by lia. rewrite <- (filter_length_perm _ _ _ Hp), <- (Permutation_length Hp).
  rewrite <- (take_drop k l) at 1. rewrite filter_app.
  assert (filter (λ r, row_sequence m < row_sequence r) (take k l) = []) as ->.
  { apply filter_nothing. intros r Hr Hrm. apply last_Some in Hm as [l' Hl']. rewrite Hl' in Hr.
    rewrite <- (take_drop k l) in Hsort. apply StronglySorted_app in Hsort as (_ & Hsort & _). rewrite Hl' in Hsort.
    apply StronglySorted_app in Hsort as (Hle & _ & _). apply elem_of_app in Hr as [Hr|Hr%list_elem_of_singleton]; [|subst; lia].
    specialize (Hle r m Hr ltac:(by left)). unfold ascending in Hle. lia. }
  simpl. pose proof (length_filter (λ r, row_sequence m < row_sequence r) (drop k l)). rewrite length_drop in *. lia.
Qed.

(** The version after the last is not there. *)
Lemma next_is_new d n s : summaries_wf (d_rest d) → chain (d_rest d) t th n → ts_tenant s = t → ts_thread s = th →
  ts_version s = match sb_summaries (d_rest d) !! (t, th, n) with Some p => ts_version p | None => 0 end + 1 →
  ts_version s = n + 1 ∧ sb_summaries (d_rest d) !! summary_key s = None.
Proof.
  intros Hwf (Hn & Hv & _) Ht Hth Hver. assert (ts_version s = n + 1) as Hn1.
  { rewrite Hver. destruct (sb_summaries (d_rest d) !! (t, th, n)) as [p|] eqn:Hp.
    - pose proof (Hwf _ _ Hp) as Hk. unfold summary_key in Hk. congruence.
    - destruct (decide (1 ≤ n)); [|lia]. destruct (proj2 (Hv n)) as [? ?]; [lia|congruence]. }
  split; [done|]. unfold summary_key. rewrite Ht, Hth, Hn1. apply eq_None_not_Some. intros Hs%Hv. lia.
Qed.

(** One refresh: the next version is written, or everything was read. *)
Lemma refresh_run assist now d (q : Q) n thread :
  summaries_wf (d_rest d) → chain (d_rest d) t th n → thread_of t th (sb_conversations (d_rest d)) = Some thread →
  let c := sb_conversations (d_rest d) in
  ∃ d' q' n', snd (refresh locked assist now t th (d, q)) = (d', q') ∧ sb_conversations (d_rest d') = c ∧
    summaries_wf (d_rest d') ∧ chain (d_rest d') t th n' ∧
    (length (unread t th (covered (d_rest d') n') c) ≤ length (unread t th (covered (d_rest d) n) c) - SUMMARY_SOURCE_MESSAGES)%nat.
Proof.
  intros Hwf Hn Hthread. cbn zeta. unfold refresh. set (c := sb_conversations (d_rest d)).
  erewrite bind_ok; [|by apply refresh_read_run]. rewrite Hthread. fold c. fold (covered (d_rest d) n).
  set (rows := ordered _ _ _). set (new := (λ r, row_to_message r []) <$> rows).
  destruct (next_summary _ _ _ _ _ new) as [s|] eqn:Hnext.
  - assert (∃ m, last rows = Some m ∧ ts_covers s = row_sequence m) as (m & Hm & Hcov).
    { apply (next_summary_follows _ _ _ _ _ _ _ (covered (d_rest d) n)) in Hnext as (_ & _ & _ & _ & m & Hm & Hcov);
        [|done|apply read_after..]. unfold new in Hm. rewrite fmap_last in Hm.
      apply fmap_Some in Hm as (r & Hr & ->). exists r. split; [done|]. by rewrite Hcov, sequence_row. }
    apply unread_rest in Hm as [Hlt Hlen].
    apply (next_summary_follows _ _ _ _ _ _ _ (covered (d_rest d) n)) in Hnext as (Hfol & Ht & Hth & Hver & _); [|done|apply read_after..].
    destruct (refresh_write_run locked now s d q) as (d' & q' & Hrun & Hrest). erewrite bind_ok; [|exact Hrun].
    destruct (next_is_new _ _ _ Hwf Hn Ht Hth Hver) as [Hv Hnone].
    unfold add in Hrest. rewrite Hnone in Hrest. simpl in Hrest. exists d', q', (n + 1). rewrite Hrest. cbn [snd sb_conversations].
    split_and!; [done|done| | |].
    + intros k x. cbn [sb_summaries]. rewrite lookup_insert_Some. intros [[<- <-]|[_ Hx]]; [done|by apply Hwf].
    + pose proof (chain_add _ s t th n Hn ltac:(intros _; split; [done|exact Hfol])) as Hadd.
      by rewrite decide_True in Hadd by done.
    + unfold covered at 1. cbn [sb_summaries]. replace (t, th, n + 1) with (summary_key s) by (unfold summary_key; by rewrite Ht, Hth, Hv).
      rewrite lookup_insert_eq, Hcov. done.
  - exists d, q, n. split_and!; [done..|]. fold c. unfold next_summary in Hnext. destruct (last new) eqn:Hl; [by destruct (_fold _ _ _)|].
    apply last_None in Hl. unfold new in Hl. apply fmap_nil_inv in Hl. unfold rows, ordered in Hl. apply (f_equal length) in Hl.
    rewrite length_take, (Permutation_length (merge_sort_Permutation _ _)) in Hl. cbn [length] in Hl. unfold SUMMARY_SOURCE_MESSAGES in *. lia.
Qed.

(** Refreshes one after another, each with its model and its time. *)
Fixpoint refreshes (runs : list (option Assist * Z)) : prog (database summary_tables * Q) unit :=
  match runs with
  | [] => ret tt
  | (assist, now) :: runs' => λ w, refreshes runs' (snd (refresh locked assist now t th w))
  end.

(** C29: A summary catches up: when nobody writes to the thread, enough refreshes
    (one for every 200 messages) leave no message after what the last version
    covers, whatever model writes them. The thread is not deleted, and a message is a
    visible one that is not either. *)
Theorem summary_catches_up runs d (q : Q) n thread :
  summaries_wf (d_rest d) → chain (d_rest d) t th n → thread_of t th (sb_conversations (d_rest d)) = Some thread →
  (length (unread t th (covered (d_rest d) n) (sb_conversations (d_rest d))) ≤ SUMMARY_SOURCE_MESSAGES * length runs)%nat →
  ∃ d' q' n', snd (refreshes runs (d, q)) = (d', q') ∧ sb_conversations (d_rest d') = sb_conversations (d_rest d) ∧
    chain (d_rest d') t th n' ∧ unread t th (covered (d_rest d') n') (sb_conversations (d_rest d)) = [].
Proof.
  revert d q n. induction runs as [|[assist now] runs IH]; intros d q n Hwf Hn Hthread Hlen.
  - exists d, q, n. split_and!; [done..|]. apply nil_length_inv. rewrite Nat.mul_0_r in Hlen. lia.
  - destruct (refresh_run assist now d q n thread Hwf Hn Hthread) as (d1 & q1 & n1 & Hrun & Hc & Hwf1 & Hn1 & Hlen1).
    destruct (IH d1 q1 n1 Hwf1 Hn1) as (d2 & q2 & n2 & Hrun2 & Hc2 & Hn2 & Hnil).
    + by rewrite Hc.
    + rewrite Hc. cbn [length] in Hlen. lia.
    + exists d2, q2, n2. cbn [refreshes]. rewrite Hrun, Hc2, Hc in *. done.
Qed.

(** A thread that is gone: nothing is read, nothing is written. *)
Lemma refresh_gone assist now d (q : Q) n :
  summaries_wf (d_rest d) → chain (d_rest d) t th n → thread_of t th (sb_conversations (d_rest d)) = None →
  refresh locked assist now t th (d, q) = (Ok None, (d, q)).
Proof. intros Hwf Hn Hthread. unfold refresh. erewrite bind_ok; [|by apply refresh_read_run]. by rewrite Hthread. Qed.
End catching_up.

(** ** A thread of three messages *)

Definition lines_of (l : list string) : string := encode (join [newline] (lit <$> l)).

Definition w_thread : Thread :=
  {| th_id := "t1"; th_tenant := "acme"; th_workspace := None; th_owner := None; th_title := None; th_source_system := None;
     th_source_id := None; th_system := ∅; th_custom := ∅; th_revision := 1; th_created_at := 0; th_updated_at := 0;
     th_archived_at := None; th_deleted_at := None |}.

Definition w_message (id : string) (n : Z) (s : string) : Message :=
  {| message_id := id; m_thread_id := "t1"; m_session_id := "s1"; m_turn_id := "u1"; m_tenant_id := "acme"; role := RUser;
     kind := VISIBLE; sequence := n; content := s; content_hash := ""; m_version := 1; author_principal := "alice";
     m_agent_run_id := None; parent_message_id := None; m_attachments := []; m_tool_calls := []; tool_call_id := None;
     source_system := None; source_message_id := None; occurred_at := n; message_created_at := n;
     archive_status := STAGED; m_system := ∅; m_custom_metadata := ∅; message_deleted_at := None |}.

Definition w_row (id : string) (n : Z) (s : string) : message_row :=
  {| mr_message := w_message id n s; mr_content := Some s; mr_content_bytes := 0; mr_archived_at := None; mr_segment := None |}.

Definition w_conversations : conversations :=
  {| cv_threads := {["t1" := w_thread]}; cv_sessions := ∅; cv_turns := ∅;
     cv_messages := list_to_map [("m1", w_row "m1" 1 "Ship it. Today."); ("m2", w_row "m2" 2 "Done"); ("m3", w_row "m3" 3 "Thanks!")];
     cv_attachments := []; cv_runs := ∅; cv_observations := ∅ |}.

Definition w_database : database summary_tables :=
  {| d_outbox := no_rows; d_revisions := ∅; d_rest := {| sb_conversations := w_conversations; sb_summaries := ∅ |} |}.

Definition w_queue : recording * list JobSpec := (queue_of ["summary.refresh"] false, []).

Abbreviation w_refreshed := (refresh ∅ None 100 "acme" "t1" (w_database, w_queue)).

Example first_summary :
  match w_refreshed with
  | (Ok (Some s), _) =>
      encode (ts_text s) = lines_of ["user: Ship it. Today."; "user: Done"; "user: Thanks!"] ∧
      ts_version s = 1 ∧ ts_covers s = 3 ∧ ts_model s = EXTRACTIVE
  | _ => False
  end.
Proof. vm_compute. repeat split. Qed.

Lemma nothing_yet_chain t th : chain (d_rest w_database) t th 0.
Proof.
  unfold chain. cbn [w_database d_rest sb_summaries]. split_and!; [done| |intros v s; by rewrite lookup_empty].
  intros v. rewrite lookup_empty. split; [by intros [? ?]|lia].
Qed.

(** Two refreshes read the thread before either writes: one version. *)
Lemma summaries_chain_witness :
  let new := [w_message "m1" 1 "Ship it. Today."; w_message "m2" 2 "Done"; w_message "m3" 3 "Thanks!"] in
  ∃ s w, next_summary None 100 "acme" "t1" None new = Some s ∧
    rtc (sstep (Q := recording * list JobSpec)) {| sw_database := w_database; sw_queue := w_queue; sw_folded := [] |} w ∧
    sw_folded w = [s; s] ∧ ∃ n, chain (d_rest (sw_database w)) "acme" "t1" n.
Proof.
  intros new. destruct (next_summary None 100 "acme" "t1" None new) as [s|] eqn:Hs; [|by vm_compute in Hs].
  destruct (refresh_write_run ∅ 101 s w_database w_queue) as (d1 & q1 & Hw1 & _).
  destruct (refresh_write_run ∅ 102 s d1 q1) as (d2 & q2 & Hw2 & _).
  exists s, {| sw_database := d2; sw_queue := q2; sw_folded := [s; s] |}. split; [done|].
  assert (refresh_read "acme" "t1" (w_database, w_queue) = (Ok (Some (None, new)), (w_database, w_queue))) as Hread by (vm_compute; reflexivity).
  assert (rtc sstep {| sw_database := w_database; sw_queue := w_queue; sw_folded := [] |}
    {| sw_database := d2; sw_queue := q2; sw_folded := [s; s] |}) as Hsteps.
  { eapply rtc_l; [exact (st_read {| sw_database := w_database; sw_queue := w_queue; sw_folded := [] |} _ _ _ _ _ _ _ _ _ Hread Hs)|].
    eapply rtc_l; [exact (st_read {| sw_database := w_database; sw_queue := w_queue; sw_folded := [s] |} _ _ _ _ _ _ _ _ _ Hread Hs)|].
    eapply rtc_l; [exact (st_write {| sw_database := w_database; sw_queue := w_queue; sw_folded := [s; s] |} _ _ _ _ _ _
      ltac:(by left) Hw1)|].
    apply rtc_once. exact (st_write {| sw_database := d1; sw_queue := q1; sw_folded := [s; s] |} _ _ _ _ _ _ ltac:(by left) Hw2). }
  split; [exact Hsteps|]. split; [done|]. exact (summaries_chain w_database w_queue _ eq_refl Hsteps "acme" "t1").
Defined.

Lemma summary_catches_up_witness :
  ∃ d' q' n', snd (refreshes ∅ "acme" "t1" [(None, 100)] (w_database, w_queue)) = (d', q') ∧
    unread "acme" "t1" (covered "acme" "t1" (d_rest d') n') w_conversations = [].
Proof.
  destruct (summary_catches_up ∅ "acme" "t1" [(None, 100)] w_database w_queue 0 w_thread) as (d' & q' & n' & Hrun & _ & _ & Hnil).
  - intros k s Hk. exact (False_ind _ (lookup_empty_Some k s Hk)).
  - apply nothing_yet_chain.
  - vm_compute. reflexivity.
  - apply Nat.leb_le. vm_compute. reflexivity.
  - exists d', q', n'. split; [exact Hrun|exact Hnil].
Defined.

(** A message of two lines is two lines of the digest: once the next fold has to
    drop a line, half of it can go. *)
Example a_line_is_several :
  length (digest [w_message "m1" 1 (lines_of ["The plan"; "is ready"])]) = 1%nat ∧
  length (splitlines (rolled [] [w_message "m1" 1 (lines_of ["The plan"; "is ready"])])) = 2%nat.
Proof. vm_compute. repeat split. Qed.
