(* ===== verification/Profile.v ===== *)
(** * Profile: the pinned profile blocks
    (modules/profile/service.py, domain/profile.py, the blocks of
    adapters/db/profile_repository.py, [about_user] of
    adapters/db/memory_repository.py)

    People and agents edit a block; two background jobs write blocks too, each with a
    read in one unit of work and a write in another, so that edits and other jobs come
    in between. What the tenant's model answers, the rules restated by later ones and
    the context a standing question is answered from are arguments. *)
From stdpp Require Import sorting.
From S2P Require Import Prelude Errors Ids Context Rebac Text Visibility Revisions AuthzProvider AuthzService.
From S2P Require Import Cache TenancyRepo TenancyService Tasks Outbox UnitOfWork MemoryModel MemoryRepo MemoryService Summary.
#[local] Open Scope Z_scope.

(** ** Blocks *)

Definition PROFILE_BLOCK_MAX_CHARS : nat := 4000.
Definition SOURCE_QUERY_MAX_CHARS : nat := 1000.
Definition USER_BLOCK : string := "user".
Definition PROFILE_MEMORY_TYPES : list MemoryType := [MUser; MPreference].
Definition QUERY_REFRESH : Z := 3600.
Definition QUERY_BATCH : nat := 100.
Definition QUERY_LINES : nat := 12.
Definition PROFILE_MEMORIES_MAX : nat := 50.
Definition TASK_PROFILE_REFRESH : string := "profile.refresh".
Definition TASK_PROFILE_QUERY : string := "profile.query".

Inductive BlockSource : Set := Learned | Edited.
#[export] Instance BlockSource_eq_dec : EqDecision BlockSource.
Proof. solve_decision. Defined.

Record ProfileBlock := {
  pb_tenant : string;
  pb_scope : string;
  pb_block : string;
  pb_text : text;
  pb_version : Z;
  pb_source : BlockSource;
  pb_updated_at : Z;
  pb_query : option text;
  pb_context : option json;
  pb_due : option Z;
}.

Definition block_key (b : ProfileBlock) : string * string * string := (pb_tenant b, pb_scope b, pb_block b).
Abbreviation blocks_table := (gmap (string * string * string) ProfileBlock).

(** [model_copy(update={"text": .., "source": ..})]. *)
Definition with_text (t : text) (source : BlockSource) (b : ProfileBlock) : ProfileBlock :=
  {| pb_tenant := pb_tenant b; pb_scope := pb_scope b; pb_block := pb_block b; pb_text := t; pb_version := pb_version b;
     pb_source := source; pb_updated_at := pb_updated_at b; pb_query := pb_query b; pb_context := pb_context b; pb_due := pb_due b |}.
Definition with_version (v : Z) (b : ProfileBlock) : ProfileBlock :=
  {| pb_tenant := pb_tenant b; pb_scope := pb_scope b; pb_block := pb_block b; pb_text := pb_text b; pb_version := v;
     pb_source := pb_source b; pb_updated_at := pb_updated_at b; pb_query := pb_query b; pb_context := pb_context b; pb_due := pb_due b |}.
Definition with_due (d : option Z) (b : ProfileBlock) : ProfileBlock :=
  {| pb_tenant := pb_tenant b; pb_scope := pb_scope b; pb_block := pb_block b; pb_text := pb_text b; pb_version := pb_version b;
     pb_source := pb_source b; pb_updated_at := pb_updated_at b; pb_query := pb_query b; pb_context := pb_context b; pb_due := d |}.

(** [block.split(".", 1)[0]]. *)
Definition _level (block : string) : string := (str_partition "." block).1.1.

(** [[a-z0-9]] and [[a-z0-9_-]]. *)
Definition name_start (c : ascii) : bool :=
  let n := N_of_ascii c in ((97 <=? n) && (n <=? 122) || (48 <=? n) && (n <=? 57))%N.
Definition name_char (c : ascii) : bool := name_start c || Ascii.eqb c "_" || Ascii.eqb c "-".

(** [BLOCK_NAME]; [$] also matches before a newline that ends the text. *)
Fixpoint chomp (s : string) : string :=
  match s with
  | String c EmptyString => if Ascii.eqb c "010" then "" else s
  | String c s' => String c (chomp s')
  | EmptyString => ""
  end.

(** [BLOCK_NAME.match(block)], and its first group. *)
Definition block_level (block : string) : option string :=
  let '(level, dotted, name) := str_partition "." (chomp block) in
  if bool_decide (level ∈ ["user"; "agent"; "workspace"]) then
    if negb dotted then Some level
    else match name with
         | String c rest => if name_start c && str_forall name_char rest && Nat.leb (String.length rest) 39 then Some level else None
         | EmptyString => None
         end
  else None.

Definition profile_scopes (ctx : MemoryExecutionContext) : list (string * string) :=
  (if otruthy (user_id ctx) then [("user", "user:" +:+ default "" (user_id ctx))] else []) ++
  (if otruthy (agent_id ctx) then [("agent", principal_id ctx)] else []) ++
  (if otruthy (workspace_id ctx) then [("workspace", "workspace:" +:+ default "" (workspace_id ctx))] else []).

Definition scope_of_level (level : string) (ctx : MemoryExecutionContext) : option string :=
  snd <$> head (filter (λ x, x.1 = level) (profile_scopes ctx)).

Definition block_scope (block : string) (ctx : MemoryExecutionContext) : res string :=
  match block_level block with
  | None => Raise (err ValidationFailed "a profile block is user, agent or workspace, optionally .<name>")
  | Some level => match scope_of_level level ctx with
                  | Some scope => Ok scope
                  | None => Raise (err ValidationFailed ("a " +:+ level +:+ " block needs a " +:+ level +:+ " in the scope"))
                  end
  end.

(** ** The table *)

Definition block_le (a b : ProfileBlock) : Prop := str_le (pb_block a) (pb_block b).
#[export] Instance block_le_dec a b : Decision (block_le a b).
Proof. unfold block_le. apply _. Defined.

Definition blocks_of (t : string) (scope_keys : list string) : prog blocks_table (list ProfileBlock) :=
  gets (λ d, ordered block_le None (filter (λ b, pb_tenant b = t ∧ pb_scope b ∈ scope_keys) (rows d))).

Definition get_block (t scope block : string) : prog blocks_table (option ProfileBlock) := gets (λ d, d !! (t, scope, block)).

Definition put (b : ProfileBlock) : prog blocks_table ProfileBlock := λ d,
  let stored := with_version (match d !! block_key b with Some row => pb_version row + 1 | None => 1 end) b in
  (Ok stored, <[block_key b := stored]> d).

Definition question_due (now : Z) (b : ProfileBlock) : bool :=
  bool_decide (is_Some (pb_query b)) && match pb_due b with Some d => Z.leb d now | None => false end.

Definition due_le (a b : ProfileBlock) : Prop := default 0 (pb_due a) ≤ default 0 (pb_due b).
#[export] Instance due_le_dec a b : Decision (due_le a b).
Proof. unfold due_le. apply _. Defined.

(** The due blocks, oldest first, moved on to [next_at]; a claim is no new version. *)
Definition claim_due (now : Z) (limit : nat) (next_at : Z) : prog blocks_table (list ProfileBlock) := λ d,
  let claimed := with_due (Some next_at) <$> ordered due_le (Some limit) (filter (λ b, question_due now b = true) (rows d)) in
  (Ok claimed, foldl (λ d b, <[block_key b := b]> d) d claimed).

(** *** [SqlMemoryRepository.about_user] *)

Definition about_user_row (t u : string) (types : list MemoryType) (r : memory_row) : bool :=
  let m := r_memory r in
  bool_decide (m_tenant m = t) && bool_decide (sc_user (m_scope m) = Some u) && bool_decide (m_type m ∈ types) && current r
  && existsb (λ k, bool_decide (k ∈ r_visibility_keys r)) ["user:" +:+ t +:+ "/" +:+ u; "principal:" +:+ t +:+ "/user:" +:+ u].

Definition about_user (t u : string) (types : list MemoryType) (limit : nat) : mprog (list CanonicalMemory) :=
  gets (λ s, to_domain <$> ordered newest_first (Some limit) (select (about_user_row t u types) s)).

(** ** Texts *)

(** [text.replace(old, new, 1)], for an [old] that is not empty. *)
Fixpoint replace_first (old new t : text) : text :=
  if Text.starts_with old t then new ++ drop (length old) t
  else match t with [] => [] | c :: t' => c :: replace_first old new t' end.

(** The loop of [_bounded]: lines are taken until one does not fit. *)
Fixpoint fitting (used : nat) (lines : list text) : list text :=
  match lines with
  | [] => []
  | line :: rest =>
      if (PROFILE_BLOCK_MAX_CHARS <? used + length line + 1)%nat then []
      else line :: fitting (used + (length line + 1)) rest
  end.
Definition _bounded (lines : list text) : text := join [newline] (fitting 0 lines).

Definition flat (m : CanonicalMemory) : text := join (lit " ") (words (chars (m_content m))).
Definition bullet (t : text) : text := lit "- " ++ t.

Definition type_word (t : MemoryType) : string := match t with MUser => "user" | MPreference => "preference" | _ => "" end.

(** What is asked of the model ([user] of [structured]). *)
Definition profile_prompt (memories : list CanonicalMemory) : text :=
  join [newline] ((λ m, lit "- " ++ lit (type_word (m_type m)) ++ lit ": " ++ chars (m_content m)) <$> memories).
Definition query_prompt (question : text) (texts : list text) : text :=
  join [newline] ((lit "question: " ++ question) :: (bullet <$> texts)).

Definition fits_block (t : text) : bool := (length t <=? PROFILE_BLOCK_MAX_CHARS)%nat.

Section texts.
Variable casefold : text → text.
Variable restated_rules : list CanonicalMemory → list string.
(** The "profile" of the model's answer, "" without one. *)
Variable structured : text → text.

Definition template (memories : list CanonicalMemory) : text :=
  let gone := restated_rules memories in
  _bounded (fromkeys ((λ m, bullet (flat m)) <$> filter (λ m, m_id m ∉ gone) memories)).

(** The facts learned after the edit that the text does not state yet. *)
Definition unsaid (t : text) (since : Z) (m : CanonicalMemory) : bool :=
  Z.ltb since (m_created_at m) && negb (Text.contains (casefold (flat m)) (casefold t)).

Definition appended (t : text) (memories : list CanonicalMemory) (since : Z) : text :=
  match filter (λ m, unsaid t since m = true) memories with
  | [] => t
  | new => _bounded (splitlines t ++ fromkeys ((λ m, bullet (flat m)) <$> new))
  end.

Definition _compose (memories : list CanonicalMemory) (current : option ProfileBlock) : text :=
  let learn :=
    let written := strip (structured (profile_prompt memories)) in
    if negb (bool_decide (written = [])) && fits_block written then written else template memories in
  match current with
  | Some c => match pb_source c with
              | Edited => appended (pb_text c) memories (pb_updated_at c)
              | Learned => learn
              end
  | None => learn
  end.

Definition _answer (question : text) (texts : list text) : text :=
  match texts with
  | [] => []
  | _ =>
      let written := strip (structured (query_prompt question texts)) in
      if negb (bool_decide (written = [])) && fits_block written then written
      else _bounded ((λ t, bullet (join (lit " ") (words t))) <$> take QUERY_LINES texts)
  end.
End texts.

(** ** The service *)

Record profile_sys {P C : Type} := {
  pf_sys : tenancy_sys P C;
  pf_blocks : blocks_table;
  pf_session : session;
  pf_outbox : outbox;
}.
Arguments profile_sys : clear implicits.

Definition _query_job (b : ProfileBlock) : JobSpec :=
  {| js_task := TASK_PROFILE_QUERY; js_queue := SUMMARY;
     js_payload := JObj [("tenant_id", JStr (pb_tenant b)); ("scope_key", JStr (pb_scope b)); ("block", JStr (pb_block b))];
     js_idempotency_key := None;
     js_lock := Some ("profile-query:" +:+ pb_tenant b +:+ ":" +:+ pb_scope b +:+ ":" +:+ pb_block b);
     js_priority := None; js_schedule := None; js_tenant := Some (pb_tenant b) |}.

Definition profile_refresh_job (t u : string) : JobSpec :=
  {| js_task := TASK_PROFILE_REFRESH; js_queue := SUMMARY; js_payload := JObj [("tenant_id", JStr t); ("user_id", JStr u)];
     js_idempotency_key := None; js_lock := None; js_priority := None; js_schedule := None; js_tenant := Some t |}.

(** The counter a write moves ([_bump]); a level that is none raises. *)
Definition bumped_revision (block scope : string) : res revision_key :=
  let level := _level block in
  if bool_decide (level = "user") then Ok (RevUser, (str_partition ":" scope).2)
  else if bool_decide (level = "agent") then
    let principal := str_rpart "/" scope in
    let '(_, colon, agent) := str_partition ":" principal in
    Ok (RevAgent, if colon then agent else principal)
  else if bool_decide (level = "workspace") then Ok (RTenant, "")
  else Raise (KeyError level).

Definition profile_lock (t scope block : string) : string := "profile:" +:+ t +:+ ":" +:+ scope +:+ ":" +:+ block.

Section service.
Context {P C : Type} `{AuthorizationLaws P} `{CacheLaws C}.
Variable casefold : text → text.
Variable restated_rules : list CanonicalMemory → list string.
Variable dump_context : MemoryExecutionContext → json.

Abbreviation sys := (profile_sys P C).
Abbreviation pprog A := (prog sys A).

Definition set_pf_sys (x : tenancy_sys P C) (s : sys) : sys :=
  {| pf_sys := x; pf_blocks := pf_blocks s; pf_session := pf_session s; pf_outbox := pf_outbox s |}.
Definition set_pf_blocks (x : blocks_table) (s : sys) : sys :=
  {| pf_sys := pf_sys s; pf_blocks := x; pf_session := pf_session s; pf_outbox := pf_outbox s |}.
Definition set_pf_session (x : session) (s : sys) : sys :=
  {| pf_sys := pf_sys s; pf_blocks := pf_blocks s; pf_session := x; pf_outbox := pf_outbox s |}.
Definition set_pf_outbox (x : outbox) (s : sys) : sys :=
  {| pf_sys := pf_sys s; pf_blocks := pf_blocks s; pf_session := pf_session s; pf_outbox := x |}.

Definition in_sys {A} (m : prog (tenancy_sys P C) A) : pprog A := zoom pf_sys set_pf_sys m.
Definition in_blocks {A} (m : prog blocks_table A) : pprog A := zoom pf_blocks set_pf_blocks m.
Definition in_memories {A} (m : mprog A) : pprog A := zoom pf_session set_pf_session m.
Definition enqueue_ (now : Z) (spec : JobSpec) : pprog unit :=
  bind (zoom pf_outbox set_pf_outbox (add_job now spec)) (λ _, ret tt).
Definition bump_ (t : string) (k : RevisionKind) (i : string) : pprog unit :=
  bind (in_sys (in_authz (on_revisions (bump t k i)))) (λ _, ret tt).

Definition blocks (ctx : MemoryExecutionContext) : pprog (list ProfileBlock) :=
  in_blocks (blocks_of (tenant_id ctx) (profile_scopes ctx).*2).

Definition _bump (t block scope : string) : pprog unit :=
  bind (lift (bumped_revision block scope)) (λ k, bump_ t k.1 k.2).

Definition _writable (ctx : MemoryExecutionContext) (block : string) : pprog string :=
  bind (lift (block_scope block ctx)) (λ scope,
  bind (if bool_decide (_level block = "workspace") then bind (in_sys (require_workspace_member ctx false)) (λ _, ret tt) else ret tt) (λ _,
  bind (in_sys (serialize (profile_lock (tenant_id ctx) scope block))) (λ _,
  ret scope))).

(** The text an edit asks for. *)
Definition edited_text (block : string) (current : option ProfileBlock) (old : text) (new : option text) : res text :=
  match new with
  | None => Ok (default [] (pb_text <$> current))
  | Some n =>
      match old with
      | [] => Ok n
      | _ => match current with
             | None => Raise (err NotFound ("no " +:+ block +:+ " block"))
             | Some c => if Text.contains old (pb_text c) then Ok (replace_first old n (pb_text c))
                         else Raise (err Conflict "the text to replace is not in the block: read it again")
             end
      end
  end.

(** [source_query]: [None] is UNSET. *)
Definition asks (source_query : option (option text)) : option text :=
  match source_query with Some (Some ((_ :: _) as q)) => Some q | _ => None end.

Definition edited_block (now : Z) (ctx : MemoryExecutionContext) (scope block : string) (current : option ProfileBlock) (t : text)
    (source_query : option (option text)) : ProfileBlock :=
  let keep {A} (f : ProfileBlock → option A) (set_ : option A) : option A :=
    match source_query with Some _ => set_ | None => current ≫= f end in
  {| pb_tenant := tenant_id ctx; pb_scope := scope; pb_block := block; pb_text := t; pb_version := 0; pb_source := Edited;
     pb_updated_at := now; pb_query := keep pb_query (asks source_query);
     pb_context := keep pb_context ((λ _, dump_context ctx) <$> asks source_query);
     pb_due := keep pb_due ((λ _, now) <$> asks source_query) |}.

Definition edit (now : Z) (ctx : MemoryExecutionContext) (block : string) (old : text) (new : option text)
    (source_query : option (option text)) : pprog ProfileBlock :=
  bind (_writable ctx block) (λ scope,
  bind (in_blocks (get_block (tenant_id ctx) scope block)) (λ current,
  bind (lift (edited_text block current old new)) (λ t,
  if negb (fits_block t) then raise (err ValidationFailed "a profile block holds at most 4000 characters")
  else
    let b := edited_block now ctx scope block current t source_query in
    if (SOURCE_QUERY_MAX_CHARS <? length (default [] (pb_query b)))%nat then raise (ValueError "source_query")
    else
      bind (in_blocks (put b)) (λ stored,
      bind (match asks source_query with Some _ => enqueue_ now (_query_job stored) | None => ret tt end) (λ _,
      bind (_bump (tenant_id ctx) block scope) (λ _,
      ret stored)))))).

Definition enqueue_refresh (now : Z) (t u : string) : pprog unit := enqueue_ now (profile_refresh_job t u).

(** *** The profile job: its read, and its write *)

Definition user_scope (u : string) : string := "user:" +:+ u.

Definition refresh_read (t u : string) : pprog (list CanonicalMemory * option ProfileBlock) :=
  bind (in_memories (about_user t u PROFILE_MEMORY_TYPES PROFILE_MEMORIES_MAX)) (λ memories,
  bind (in_blocks (get_block t (user_scope u) USER_BLOCK)) (λ current,
  ret (filter (λ m, m_lifetime m ≠ SHORT_TERM) memories, current))).

Definition new_user_block (now : Z) (t u : string) (written : text) : ProfileBlock :=
  {| pb_tenant := t; pb_scope := user_scope u; pb_block := USER_BLOCK; pb_text := written; pb_version := 0; pb_source := Learned;
     pb_updated_at := now; pb_query := None; pb_context := None; pb_due := None |}.

Definition refresh_write (now : Z) (t u : string) (current : option ProfileBlock) (written : text) : pprog (option ProfileBlock) :=
  bind (in_sys (serialize (profile_lock t (user_scope u) USER_BLOCK))) (λ _,
  bind (in_blocks (get_block t (user_scope u) USER_BLOCK)) (λ latest,
  if match latest, current with Some l, Some c => negb (Z.eqb (pb_version l) (pb_version c)) | _, _ => false end then ret latest
  else
    bind (in_blocks (put (match current with
                          | None => new_user_block now t u written
                          | Some c => with_text written (pb_source c) c
                          end))) (λ stored,
    bind (bump_ t RevUser u) (λ _, ret (Some stored))))).

(** Between them: what the refresh wants to write, when it is something new. *)
Definition refresh_text (structured : text → text) (memories : list CanonicalMemory) (current : option ProfileBlock) : option text :=
  match memories with
  | [] => None
  | _ => let written := _compose casefold restated_rules structured memories current in
         if bool_decide (pb_text <$> current = Some written) then None else Some written
  end.

Definition refresh_user (structured : text → text) (now : Z) (t u : string) : pprog (option ProfileBlock) :=
  bind (refresh_read t u) (λ '(memories, current),
  match refresh_text structured memories current with
  | None => ret current
  | Some written => refresh_write now t u current written
  end).

(** *** Standing questions *)

Definition schedule_due (now : Z) : pprog nat :=
  bind (in_blocks (claim_due now QUERY_BATCH (now + QUERY_REFRESH))) (λ due,
  bind (mapM_ (λ b, enqueue_ now (_query_job b)) due) (λ _, ret (length due))).

(** The question of a block, with the context it is answered in. *)
Definition standing (current : option ProfileBlock) : option (text * json) :=
  match current with
  | Some b => match pb_query b, pb_context b with
              | _, Some (JObj []) => None
              | Some ((_ :: _) as q), Some c => Some (q, c)
              | _, _ => None
              end
  | None => None
  end.

Definition answer_write (t scope block : string) (question written : text) : pprog (option ProfileBlock) :=
  bind (in_sys (serialize (profile_lock t scope block))) (λ _,
  bind (in_blocks (get_block t scope block)) (λ latest,
  match latest with
  | None => ret None
  | Some l =>
      if negb (bool_decide (pb_query l = Some question)) || bool_decide (pb_text l = written) then ret latest
      else
        bind (in_blocks (put (with_text written Learned l))) (λ stored,
        bind (_bump t block scope) (λ _, ret (Some stored)))
  end)).

(** [evidence]: the texts of the context built for a question, or what building raised. *)
Definition answer_query (structured : text → text) (evidence : json → text → res (list text)) (t scope block : string) :
    pprog (option ProfileBlock) :=
  bind (in_blocks (get_block t scope block)) (λ current,
  match standing current with
  | None => ret current
  | Some (question, context) =>
      bind (lift (evidence context question)) (λ texts,
      answer_write t scope block question (_answer structured question texts))
  end).
End service.

(** ** Lines *)

(** A line: no line boundary is in it. *)
Definition unbroken (t : text) : Prop := Forall (λ c, is_boundary c = false) t.

Lemma splitlines_from_ind (Q : text → text → list text → Prop) :
  (∀ cur, Q cur [] (match cur with [] => [] | _ => [reverse cur] end)) →
  (∀ cur c t, is_boundary c = false → Q (c :: cur) t (splitlines_from (c :: cur) t) → Q cur (c :: t) (splitlines_from (c :: cur) t)) →
  (∀ cur c sep t, is_boundary c = true → (length sep ≤ 1)%nat → Q [] t (splitlines_from [] t) →
     Q cur (c :: sep ++ t) (reverse cur :: splitlines_from [] t)) →
  ∀ t cur, Q cur t (splitlines_from cur t).
Proof.
  intros Hnil Hstep Hbreak t. induction t as [[|c t] IH] using (induction_ltof1 _ (@length char)); unfold ltof in IH; intros cur; [apply Hnil|].
  cbn [splitlines_from]. destruct (is_boundary c) eqn:Hc; [|apply Hstep; [done|apply IH; simpl; lia]].
  destruct t as [|d t]; [apply (Hbreak cur c [] []); simpl; [done|lia|apply (Hnil [])]|]. destruct (_ && _).
  - apply (Hbreak cur c [d] t); simpl; [done|lia|]. apply IH. simpl. lia.
  - apply (Hbreak cur c [] (d :: t)); simpl; [done|lia|]. apply IH. simpl. lia.
Qed.

Lemma splitlines_size t : (lines_size (splitlines t) ≤ S (length t))%nat.
Proof.
  unfold splitlines. enough (∀ cur, lines_size (splitlines_from cur t) ≤ S (length cur + length t))%nat as H by apply (H []).
  revert t. apply (splitlines_from_ind (λ cur t l, lines_size l ≤ S (length cur + length t))%nat).
  - intros [|c cur]; cbn [lines_size length]; [lia|]. rewrite length_reverse. simpl. lia.
  - intros cur c t _ H. simpl in *. lia.
  - intros cur c sep t _ _ H. cbn [lines_size length] in *. rewrite length_reverse, length_app. lia.
Qed.

Lemma splitlines_unbroken t : Forall unbroken (splitlines t).
Proof.
  enough (∀ cur, unbroken cur → Forall unbroken (splitlines_from cur t)) as H by (apply H; constructor). revert t.
  apply (splitlines_from_ind (λ cur t l, unbroken cur → Forall unbroken l)).
  - intros [|c cur] Hcur; [constructor|]. constructor; [|constructor]. by apply Forall_reverse.
  - intros cur c t Hc IH Hcur. apply IH. by constructor.
  - intros cur c sep t _ _ IH Hcur. constructor; [by apply Forall_reverse|]. apply IH. constructor.
Qed.

Lemma splitlines_from_line cur a rest : unbroken a →
  splitlines_from cur (a ++ newline :: rest) = (reverse cur ++ a) :: splitlines_from [] rest.
Proof.
  intros Ha. revert cur. induction Ha as [|c a Hc Ha IH]; intros cur.
  - cbn [app splitlines_from]. change (is_boundary newline) with true. cbn iota. rewrite app_nil_r.
    destruct rest as [|d rest]; [done|]. by rewrite bool_decide_false by done.
  - cbn [app splitlines_from]. rewrite Hc, IH, reverse_cons, <- app_assoc. done.
Qed.

Lemma splitlines_from_last cur a : unbroken a → splitlines_from cur a = match reverse cur ++ a with [] => [] | l => [l] end.
Proof.
  intros Ha. revert cur. induction Ha as [|c a Hc Ha IH]; intros cur.
  - cbn [splitlines_from]. rewrite app_nil_r. destruct cur as [|c cur]; [done|]. destruct (reverse (c :: cur)) eqn:He; [|done].
    apply (f_equal length) in He. by rewrite length_reverse in He.
  - cbn [splitlines_from]. rewrite Hc, IH, reverse_cons, <- app_assoc. done.
Qed.

(** Joined lines are read back; an empty last one is not. *)
Lemma splitlines_join_last lines l : Forall unbroken lines → unbroken l →
  splitlines (join [newline] (lines ++ [l])) = lines ++ (if decide (l = []) then [] else [l]).
Proof.
  intros Hl Hlast. induction Hl as [|a lines Ha Hl IH]; cbn [app].
  - unfold splitlines. cbn [join]. rewrite (splitlines_from_last [] l Hlast). by destruct l.
  - destruct (lines ++ [l]) as [|p ps] eqn:Hps; [by destruct lines|]. unfold splitlines in *.
    change (join [newline] (a :: p :: ps)) with (a ++ newline :: join [newline] (p :: ps)).
    rewrite (splitlines_from_line [] a _ Ha). cbn [app reverse rev_append]. by rewrite <- IH.
Qed.

(** What [_bounded] keeps: the lines up to the first that does not fit. *)
Lemma fitting_take used lines : ∃ n, fitting used lines = take n lines ∧
  (lines_size (fitting used lines) + used ≤ Nat.max used PROFILE_BLOCK_MAX_CHARS)%nat.
Proof.
  revert used. induction lines as [|l lines IH]; intros used; [exists O; split; [done|simpl; lia]|]. cbn [fitting].
  destruct (Nat.ltb_spec PROFILE_BLOCK_MAX_CHARS (used + length l + 1)) as [Hlt|Hle]; [exists O; split; [done|simpl; lia]|].
  destruct (IH (used + (length l + 1))%nat) as (n & Hn & Hs). exists (S n). cbn [take lines_size]. rewrite Hn in *. split; [done|]. lia.
Qed.

Lemma lines_size_app a b : lines_size (a ++ b) = (lines_size a + lines_size b)%nat.
Proof. induction a as [|l a IH]; [done|]. cbn [app lines_size]. lia. Qed.

Lemma fitting_all used a b : (used + lines_size a ≤ PROFILE_BLOCK_MAX_CHARS)%nat →
  fitting used (a ++ b) = a ++ fitting (used + lines_size a) b.
Proof.
  revert used. induction a as [|l a IH]; intros used Hs; cbn [app fitting lines_size] in *; [by rewrite Nat.add_0_r|].
  destruct (Nat.ltb_spec PROFILE_BLOCK_MAX_CHARS (used + length l + 1)); [lia|]. rewrite IH by lia. do 3 f_equal. lia.
Qed.

Lemma bounded_fits lines : (length (_bounded lines) < PROFILE_BLOCK_MAX_CHARS)%nat.
Proof.
  destruct (fitting_take 0 lines) as (n & Hn & Hs). unfold _bounded. destruct (fitting 0 lines) as [|l ls]; [simpl; unfold PROFILE_BLOCK_MAX_CHARS; lia|].
  pose proof (join_size (l :: ls) ltac:(done)). lia.
Qed.

Lemma boundary_space c : is_boundary c = true → isspace c = true.
Proof.
  unfold is_boundary, isspace, within_ranges. cbn [existsb fst snd]. rewrite !orb_true_iff, !andb_true_iff, !N.leb_le. lia.
Qed.

Lemma unbroken_words t : Forall unbroken (words t).
Proof.
  unfold words. enough (∀ cur, unbroken cur → Forall unbroken (words_from cur t)) as H by (apply H; constructor).
  induction t as [|c t IH]; intros cur Hcur; cbn [words_from].
  - destruct cur; [constructor|]. constructor; [by apply Forall_reverse|constructor].
  - destruct (isspace c) eqn:Hc.
    + apply Forall_app. split; [|apply IH; constructor]. destruct cur; [constructor|]. constructor; [by apply Forall_reverse|constructor].
    + apply IH. constructor; [|done]. destruct (is_boundary c) eqn:Hb; [|done]. apply boundary_space in Hb. congruence.
Qed.

Lemma unbroken_join sep ws : unbroken sep → Forall unbroken ws → unbroken (join sep ws).
Proof.
  intros Hsep. induction 1 as [|w ws Hw Hws IH]; [constructor|]. destruct ws as [|w2 ws]; [done|].
  change (join sep (w :: w2 :: ws)) with (w ++ sep ++ join sep (w2 :: ws)). by do 2 (apply Forall_app; split; [done|]).
Qed.

Lemma unbroken_bullet m : unbroken (bullet (flat m)).
Proof.
  apply Forall_app. split; [repeat constructor|]. apply unbroken_join; [repeat constructor|apply unbroken_words].
Qed.

(** ** What a refresh adds to an edit *)

Section appending.
Variable casefold : text → text.

(** [t'] is the edit [e] with facts learned after it below; of [e] at most empty lines
    at its end are gone. *)
Definition extends (since : Z) (e t' : text) : Prop :=
  t' = e ∨ ∃ kept facts blank, t' = join [newline] (kept ++ (bullet ∘ flat <$> facts)) ∧ splitlines e = kept ++ replicate blank [] ∧
    Forall (λ m, since < m_created_at m) facts ∧ (lines_size (kept ++ (bullet ∘ flat <$> facts)) ≤ PROFILE_BLOCK_MAX_CHARS)%nat.

(** Read line by line, what extends an edit is some of its lines, then facts. *)
Lemma extends_lines since e t' : (length e < PROFILE_BLOCK_MAX_CHARS)%nat → extends since e t' →
  ∃ kept facts blank, splitlines t' = kept ++ (bullet ∘ flat <$> facts) ∧ splitlines e = kept ++ replicate blank [] ∧
    Forall (λ m, since < m_created_at m) facts ∧ (lines_size (kept ++ (bullet ∘ flat <$> facts)) ≤ PROFILE_BLOCK_MAX_CHARS)%nat.
Proof.
  intros He [->|(kept & facts & blank & -> & Hk & Hfacts & Hsize)].
  - exists (splitlines e), [], O. rewrite !app_nil_r. split_and!; try done. pose proof (splitlines_size e). lia.
  - pose proof (splitlines_unbroken e) as Hub. rewrite Hk in Hub. apply Forall_app in Hub as [Hub _].
    destruct facts as [|m facts _] using rev_ind.
    + cbn [fmap list_fmap] in *. rewrite app_nil_r in *. destruct kept as [|l kept _] using rev_ind; [exists [], [], blank; split_and!; [done|done|constructor|simpl; lia]|].
      apply Forall_app in Hub as [Hub Hl]. apply Forall_inv in Hl. rewrite splitlines_join_last by done. rewrite lines_size_app in Hsize.
      destruct (decide (l = [])) as [->|Hne].
      * exists kept, [], (S blank). rewrite !app_nil_r. split_and!; [done|by rewrite Hk, <- app_assoc|done|simpl in *; lia].
      * exists (kept ++ [l]), [], blank. rewrite !app_nil_r. split_and!; [done|done|done|by rewrite lines_size_app].
    + exists kept, (facts ++ [m]), blank. split_and!; [|done..]. rewrite fmap_app, app_assoc. cbn [fmap list_fmap].
      rewrite splitlines_join_last; [by rewrite decide_False| |apply unbroken_bullet].
      apply Forall_app. split; [done|]. apply Forall_fmap, Forall_true. intros x. apply unbroken_bullet.
Qed.

(** One more refresh extends it further, unless the edit fills the block. *)
Lemma appended_extends since e t' memories : (length e < PROFILE_BLOCK_MAX_CHARS)%nat → extends since e t' →
  extends since e (appended casefold t' memories since).
Proof.
  intros He Hext. unfold appended. destruct (filter _ memories) as [|m new] eqn:Hnew; [done|]. right.
  assert (Forall (λ m, since < m_created_at m) (m :: new)) as Hsince.
  { apply Forall_forall. intros x Hx. rewrite <- Hnew in Hx. apply list_elem_of_filter in Hx as [Hx _]. unfold unsaid in Hx.
    apply andb_true_iff in Hx as [Hx _]. by apply Z.ltb_lt. }
  set (more := fromkeys ((λ m, bullet (flat m)) <$> m :: new)).
  assert (∃ facts, more = (bullet ∘ flat <$> facts) ∧ Forall (λ m, since < m_created_at m) facts) as (facts & Hmore & Hfacts).
  { assert (∀ l, (∀ x, x ∈ l → x ∈ (λ m, bullet (flat m)) <$> m :: new) →
      ∃ facts, l = (bullet ∘ flat <$> facts) ∧ Forall (λ m, since < m_created_at m) facts) as Hall.
    { induction l as [|x l IH]; intros Hl; [by exists []|]. destruct IH as (facts & -> & Hf); [intros y Hy; apply Hl; by right|].
      destruct (proj1 (list_elem_of_fmap _ _ _) (Hl x ltac:(left))) as (y & -> & Hy). exists (y :: facts). split; [done|].
      constructor; [|done]. by eapply Forall_forall in Hsince. }
    apply Hall. intros x Hx. unfold more in Hx. by rewrite elem_of_fromkeys in Hx. }
  destruct (extends_lines since e t' He Hext) as (kept & old & blank & Ht & Hk & Hold & Hsize).
  unfold _bounded. rewrite Ht, fitting_all by (simpl; lia). cbn [Nat.add].
  destruct (fitting_take (lines_size (kept ++ (bullet ∘ flat <$> old))) more) as (n & -> & Hn).
  exists kept, (old ++ take n facts), blank. rewrite Hmore, fmap_app, fmap_take, app_assoc. split_and!; [done|done| |].
  - apply Forall_app. split; [done|]. by apply Forall_take.
  - rewrite lines_size_app. rewrite <- Hmore. lia.
Qed.
End appending.

(** ** A refresh keeps what a person wrote *)

Section keeping.
#[local] Set Default Proof Using "Type".
Context {P C : Type} `{AuthorizationLaws P} `{CacheLaws C}.
Variable casefold : text → text.
Variable restated_rules : list CanonicalMemory → list string.
Variable structured : text → text.

(** The block is the edit [e] of the instant [since], or extends it. *)
Definition holds_edit (since : Z) (e : text) (b : ProfileBlock) : Prop :=
  pb_source b = Edited ∧ pb_updated_at b = since ∧ extends since e (pb_text b).

(** A refresh keeps an edit. Its write finds the block an edit, perhaps extended
    already; whatever block it had read before - this one, if the versions are the same
    - and whatever the memories and the model said, the block still holds the edit: the
    refresh left it alone, or put facts learned after the edit below it. The edit is of
    fewer than 4000 characters, and the refresh had read some block: one that read none
    overwrites the edit made meanwhile ([first_refresh_overwrites]). *)
Theorem refresh_keeps_edit since e memories c w now t u (s s' : profile_sys P C) l r :
  (length e < PROFILE_BLOCK_MAX_CHARS)%nat → pf_blocks s !! (t, user_scope u, USER_BLOCK) = Some l → block_key l = (t, user_scope u, USER_BLOCK) →
  holds_edit since e l → (pb_version c = pb_version l → c = l) →
  refresh_text casefold restated_rules structured memories (Some c) = Some w → refresh_write now t u (Some c) w s = (Ok r, s') →
  ∃ l', pf_blocks s' !! (t, user_scope u, USER_BLOCK) = Some l' ∧ holds_edit since e l'.
Proof.
  intros He Hl Hkey Hedit Hsame Hw Hrun. unfold refresh_write in Hrun. apply bind_Ok_inv in Hrun as ([] & s1 & Hlock & Hrun).
  apply (leaves_run pf_blocks) in Hlock; [|by apply leaves_away]. apply bind_Ok_inv in Hrun as (latest & s2 & Hget & Hrun).
  assert (latest = Some l ∧ s2 = s1) as [-> ->].
  { unfold in_blocks, zoom, get_block, gets in Hget. rewrite Hlock, Hl in Hget. injection Hget as <- <-. rewrite <- Hlock. split; [done|by destruct s1]. }
  destruct (negb _) eqn:Hv; [injection Hrun as _ <-; exists l; by rewrite Hlock|].
  apply negb_false_iff, Z.eqb_eq in Hv. specialize (Hsame (eq_sym Hv)) as ->. destruct Hedit as (Hsrc & Hat & Hext).
  apply bind_Ok_inv in Hrun as (stored & s3 & Hput & Hrun). apply bind_Ok_inv in Hrun as ([] & s4 & Hbump & [= _ <-]).
  apply (leaves_run pf_blocks) in Hbump; [|unfold bump_; apply leaves_bind; [by apply leaves_away|by intros]]. rewrite Hbump.
  unfold in_blocks, zoom, put in Hput. injection Hput as _ <-. cbn [pf_blocks set_pf_blocks].
  change (block_key (with_text w (pb_source l) l)) with (block_key l). rewrite Hkey. eexists. split; [apply lookup_insert_eq|].
  split_and!; [done|done|]. cbn [pb_text with_version with_text].
  unfold refresh_text, _compose in Hw. rewrite Hsrc in Hw. destruct memories as [|m ms]; [done|]. case_bool_decide; [done|]. injection Hw as <-.
  rewrite Hat. by apply appended_extends.
Qed.
End keeping.

(** ** Instances *)

(** Alice's memory, made at 100. *)
Definition leeds : list CanonicalMemory := to_domain <$> rows (s_rows (ms_session said)).

Definition profile_start : profile_sys provider MemoryCache :=
  {| pf_sys := bare; pf_blocks := ∅; pf_session := {| s_rows := ∅; s_dependencies := []; s_invalidated := []; s_invalidated_memories := [] |};
     pf_outbox := {| ob_rows := ∅; ob_next := 1 |} |}.

Definition no_dump (_ : MemoryExecutionContext) : json := JNull.
Definition alice_edits (now : Z) (t : text) := edit (P := provider) (C := MemoryCache) no_dump now alice USER_BLOCK [] (Some t) None.
Definition refreshes (now : Z) (current : option ProfileBlock) (written : text) :=
  refresh_write (P := provider) (C := MemoryCache) now "acme" "alice" current written.
Definition block_text (s : profile_sys provider MemoryCache) : option text :=
  pb_text <$> pf_blocks s !! ("acme", user_scope "alice", USER_BLOCK).

(** What the job would write over a block, and the block after it wrote it. *)
Definition refreshed (now : Z) (current : option ProfileBlock) (s : profile_sys provider MemoryCache) : option text :=
  match refresh_text (λ t, t) (λ _, []) (λ _, []) leeds current with
  | None => block_text s
  | Some w => block_text (snd (refreshes now current w s))
  end.
Definition stored_block (s : profile_sys provider MemoryCache) : option ProfileBlock := pf_blocks s !! ("acme", user_scope "alice", USER_BLOCK).

Definition edited_early := snd (alice_edits 50 (lit "I like tea") profile_start).

(** A fact learned after the edit is put below it. *)
Example fact_below_the_edit :
  encode <$> refreshed 200 (stored_block edited_early) edited_early = Some ("I like tea" +:+ String "010" "- I live in Leeds").
Proof. vm_compute. reflexivity. Qed.

(** The refresh that read no block overwrites the one Alice has written meanwhile. *)
Example first_refresh_overwrites :
  encode <$> block_text edited_early = Some "I like tea" ∧ encode <$> refreshed 200 None edited_early = Some "- I live in Leeds".
Proof. vm_compute. done. Qed.

(** An edit that fills the block is lost: its one line does not fit with its line
    break, so the first fact learned after it leaves nothing of it. *)
Example full_edit_is_lost :
  let s := snd (alice_edits 50 (replicate PROFILE_BLOCK_MAX_CHARS (chr "x")) profile_start) in
  length <$> block_text s = Some 4000%nat ∧ refreshed 200 (stored_block s) s = Some [].
Proof. vm_compute. done. Qed.

Lemma refresh_keeps_edit_witness :
  ∃ l, stored_block edited_early = Some l ∧ holds_edit 50 (pb_text l) l ∧
  ∃ w l', refresh_text (λ t, t) (λ _, []) (λ _, []) leeds (Some l) = Some w ∧ pb_text l ≠ w ∧
    stored_block (snd (refreshes 200 (Some l) w edited_early)) = Some l' ∧ holds_edit 50 (pb_text l) l'.
Proof.
  destruct (stored_block edited_early) as [l|] eqn:Hl; [|by vm_compute in Hl].
  assert (pb_source l = Edited ∧ pb_updated_at l = 50 ∧ bool_decide (length (pb_text l) < PROFILE_BLOCK_MAX_CHARS)%nat = true ∧
    block_key l = ("acme", user_scope "alice", USER_BLOCK)) as (Hs & Hu & Hlen & Hk) by (vm_compute in Hl; by injection Hl as <-).
  assert (holds_edit 50 (pb_text l) l) as Hedit by (split_and!; [exact Hs|exact Hu|by left]).
  exists l. split; [done|]. split; [exact Hedit|].
  destruct (refresh_text (λ t, t) (λ _, []) (λ _, []) leeds (Some l)) as [w|] eqn:Hw; [|vm_compute in Hl; injection Hl as <-; by vm_compute in Hw].
  destruct (ran (λ _, true) (refreshes 200 (Some l) w edited_early)) as (r & Hr & _).
  { vm_compute in Hl. injection Hl as <-. vm_compute. reflexivity. }
  apply bool_decide_eq_true in Hlen. unfold refreshes in Hr. unfold stored_block in Hl.
  destruct (refresh_keeps_edit (λ t, t) (λ _, []) (λ _, []) 50 (pb_text l) leeds l w 200 "acme" "alice" edited_early _ l r Hlen Hl Hk Hedit
    (λ _, eq_refl) Hw Hr) as (l' & Hl' & Hedit').
  exists w, l'. split_and!; [done| |exact Hl'|exact Hedit'].
  intros <-. unfold refresh_text in Hw. destruct leeds as [|c l0]; [done|]. case_bool_decide as Hne; [done|]. injection Hw as Hw. apply Hne.
  change (Some (pb_text l) = Some (_compose (λ t, t) (λ _, []) (λ _, []) (c :: l0) (Some l))). f_equal. exact (eq_sym Hw).
Defined.
