(* ===== verification/Conversation.v ===== *)
(** * Conversation: threads, turns and messages
    (modules/conversation/service.py, the jobs of modules/conversation/summary.py).

    One request runs in one unit of work, whose working copy is the state: the
    conversation tables, the outbox, and what [TenancyService] works on (teams,
    authorization, revision counters, the cache). The instant, the fresh ids and
    the hash functions are arguments. *)
From Stdlib Require Import QArith.
From S2P Require Import Prelude Errors Ids Context Rebac Revisions AuthzProvider AuthzService Cache.
From S2P Require Import Messages HotThread Tenancy TenancyRepo TenancyService Tasks Outbox ConversationRepo.
#[local] Open Scope Z_scope.

(** ** Data *)

Record MessageAck := {
  ma_message_id : string;
  ma_thread_id : string;
  ma_session_id : string;
  ma_turn_id : string;
  ma_sequence : Z;
  ma_job_ids : list string;
  ma_deduplicated : bool;
  ma_observation_id : option string;
}.

Record AppendResult := {
  ap_ack : MessageAck;
  ap_message : option Message;
  ap_revision : Z;
}.

(** What [append_message] is asked to store. *)
Record submission := {
  sb_role : MessageRole;
  sb_content : string;
  sb_kind : MessageKind;
  sb_attachments : list Attachment;
  sb_custom : option (gmap string json);
  sb_occurred_at : option Z;
  sb_source_system : option string;
  sb_source_message : option string;
  sb_parent : option string;
  sb_tool_calls : list MessageToolCall;
  sb_tool_call_id : option string;
}.

Record conv_sys {P C : Type} := {
  cs_sys : tenancy_sys P C;
  cs_conv : conversations;
  cs_outbox : outbox;
}.
Arguments conv_sys : clear implicits.

(** ** The jobs *)

Definition TASK_PROCESS_OBSERVATION : string := "memory.process_observation".
Definition TASK_ARCHIVE_STAGE : string := "archive.stage_message".
Definition TASK_SUMMARY_REFRESH : string := "summary.refresh".
Definition TASK_EPISODE_INDEX : string := "episode.index".
Definition EPISODE_INDEX_DELAY_SECONDS : Z := 120.
Definition SUMMARY_EVERY : Z := 20.

Definition observation_job (ctx : MemoryExecutionContext) (observation_id : string) : JobSpec :=
  {| js_task := TASK_PROCESS_OBSERVATION; js_queue := CHAT_FAST;
     js_payload := JObj [("tenant_id", JStr (tenant_id ctx)); ("observation_id", JStr observation_id);
                         ("trace_id", JStr (trace_id ctx))];
     js_idempotency_key := Some ("obs:" +:+ observation_id);
     js_lock := Some ("observe:" +:+ tenant_id ctx +:+ ":" +:+ or_str (thread_id ctx) "None");
     js_priority := None; js_schedule := None; js_tenant := Some (tenant_id ctx) |}.

Definition thread_payload (t i : string) : list (string * json) := [("tenant_id", JStr t); ("thread_id", JStr i)].

Definition archive_job (t i : string) : JobSpec :=
  {| js_task := TASK_ARCHIVE_STAGE; js_queue := ARCHIVE; js_payload := JObj (thread_payload t i);
     js_idempotency_key := Some ("archive:thread:" +:+ t +:+ ":" +:+ i);
     js_lock := Some ("archive:" +:+ t +:+ ":" +:+ i); js_priority := None; js_schedule := Some 60;
     js_tenant := Some t |}.

(** [enqueue_refresh]: no key, so every call adds a job. *)
Definition refresh_job (t i principal : string) : JobSpec :=
  {| js_task := TASK_SUMMARY_REFRESH; js_queue := SUMMARY;
     js_payload := JObj (thread_payload t i ++ [("principal_id", JStr principal)]);
     js_idempotency_key := None; js_lock := None; js_priority := None; js_schedule := None; js_tenant := Some t |}.

(** [enqueue_episode_index]: one job per window of two minutes. *)
Definition episode_job (now : Z) (t i : string) : JobSpec :=
  {| js_task := TASK_EPISODE_INDEX; js_queue := SUMMARY; js_payload := JObj (thread_payload t i);
     js_idempotency_key := Some ("episode:" +:+ t +:+ ":" +:+ i +:+ ":" +:+
                                   text_of_Z (now / EPISODE_INDEX_DELAY_SECONDS));
     js_lock := None; js_priority := None; js_schedule := Some EPISODE_INDEX_DELAY_SECONDS; js_tenant := Some t |}.

(** The job [delete_thread] queues. *)
Definition forget_episode_job (t i : string) : JobSpec :=
  {| js_task := TASK_EPISODE_INDEX; js_queue := SUMMARY; js_payload := JObj (thread_payload t i);
     js_idempotency_key := Some ("episode:" +:+ t +:+ ":" +:+ i +:+ ":deleted");
     js_lock := None; js_priority := None; js_schedule := None; js_tenant := Some t |}.

(** ** Operations *)

(** [ctx.model_copy(update={"session_id": .., "turn_id": ..})]. *)
Definition with_lineage (session turn : string) (c : MemoryExecutionContext) : MemoryExecutionContext :=
  {| tenant_id := tenant_id c; workspace_id := workspace_id c; user_id := user_id c; thread_id := thread_id c;
     session_id := Some session; turn_id := Some turn; work_id := work_id c; task_id := task_id c;
     agent_id := agent_id c; agent_group_id := agent_group_id c; agent_run_id := agent_run_id c;
     parent_agent_run_id := parent_agent_run_id c; request_id := request_id c; correlation_id := correlation_id c;
     causation_id := causation_id c; trace_id := trace_id c; custom_metadata := custom_metadata c |}.

Section service.
Context {P C : Type} `{AuthorizationLaws P} `{CacheLaws C}.
Variable blake2b : string → string.
Variable sha : string → string.
Variable detect_language : string → string.
Variable repr : json → string.
Variable max_messages : nat.
Variable hot_ttl : Z.
Variable archive_enabled : bool.

Abbreviation sys := (conv_sys P C).
Abbreviation vprog A := (prog sys A).

Definition set_cs_sys (x : tenancy_sys P C) (s : sys) : sys :=
  {| cs_sys := x; cs_conv := cs_conv s; cs_outbox := cs_outbox s |}.
Definition set_cs_conv (x : conversations) (s : sys) : sys :=
  {| cs_sys := cs_sys s; cs_conv := x; cs_outbox := cs_outbox s |}.
Definition set_cs_outbox (x : outbox) (s : sys) : sys :=
  {| cs_sys := cs_sys s; cs_conv := cs_conv s; cs_outbox := x |}.

Definition in_sys {A} (m : prog (tenancy_sys P C) A) : vprog A := zoom cs_sys set_cs_sys m.
Definition conv {A} (m : cprog A) : vprog A := zoom cs_conv set_cs_conv m.
Definition authorize {A} (m : prog (authz_state P C) A) : vprog A := in_sys (in_authz m).
Definition bump_ (t : string) (k : RevisionKind) (i : string) : vprog unit :=
  bind (authorize (on_revisions (bump t k i))) (λ _, ret tt).
Definition hot {A} (m : prog C A) : vprog A := authorize (on_az_cache m).

Definition enqueue_ (now : Z) (spec : JobSpec) : vprog (option Z) := zoom cs_outbox set_cs_outbox (add_job now spec).

(** What the tenancy service sees of the thread table: the anchors in use. *)
Definition label_thread (th : Thread) : vprog unit :=
  in_sys (modify (λ s, match th_workspace th with
                       | Some w => {| ts_db := ts_db s; ts_authz := ts_authz s;
                                      ts_thread_labels := {[(th_tenant th, w)]} ∪ ts_thread_labels s;
                                      ts_document_labels := ts_document_labels s; ts_locks := ts_locks s |}
                       | None => s
                       end)).

Definition new_thread (now : Z) (ctx : MemoryExecutionContext) (i : string) (title : option string)
    (custom : option (gmap string json)) (source_system_ source_thread : option string) : Thread :=
  {| th_id := i; th_tenant := tenant_id ctx; th_workspace := workspace_id ctx; th_owner := user_id ctx;
     th_title := title; th_source_system := source_system_; th_source_id := source_thread; th_system := ∅;
     th_custom := default ∅ custom; th_revision := 0; th_created_at := now; th_updated_at := now;
     th_archived_at := None; th_deleted_at := None |}.

Definition create_thread (now : Z) (ctx : MemoryExecutionContext) (fresh : string) (thread_id_ title : option string)
    (custom : option (gmap string json)) (source_system_ source_thread : option string) : vprog Thread :=
  let t := tenant_id ctx in
  let i := or_str thread_id_ (or_str (thread_id ctx) fresh) in
  bind (conv (threads_get t i)) (λ existing,
  match existing with
  | Some th => bind (authorize (require ctx "can_read" "thread" i)) (λ _, ret th)
  | None =>
      let th := new_thread now ctx i title custom source_system_ source_thread in
      bind (in_sys (require_workspace_member ctx true)) (λ team,
      bind (conv (threads_add th)) (λ _,
      bind (label_thread th) (λ _,
      bind (authorize (grant_thread ctx i (ws_id <$> team) true)) (λ _,
      bind (bump_ t RevThread i) (λ _,
      bind (if otruthy (user_id ctx) then bump_ t RevUser (default "" (user_id ctx)) else ret tt) (λ _,
      ret th))))))
  end).

Definition may_write_thread (ctx : MemoryExecutionContext) (i : string) : vprog bool :=
  authorize (allowed ctx "can_write" "thread" i).

Definition asked (ctx : MemoryExecutionContext) (i : string) (may_write : option bool) : vprog bool :=
  match may_write with
  | Some b => ret b
  | None => may_write_thread ctx i
  end.

Definition thread_lock (t i : string) : string := "thread:" +:+ t +:+ "/" +:+ i.

Definition patch_thread (now : Z) (ctx : MemoryExecutionContext) (fresh i : string) (title : option string)
    (custom : option (gmap string json)) (may_write : option bool) : vprog Thread :=
  let t := tenant_id ctx in
  bind (asked ctx i may_write) (λ may,
  bind (in_sys (serialize (thread_lock t i))) (λ _,
  bind (conv (threads_get t i)) (λ existing,
  match existing with
  | None => create_thread now ctx fresh (Some i) title custom None None
  | Some th =>
      bind (if may then ret tt else authorize (require ctx "can_write" "thread" i)) (λ _,
      if bool_decide (title = None) && bool_decide (custom = None) then ret th
      else
      bind (conv (threads_touch now t i title custom)) (λ _,
      bind (bump_ t RevThread i) (λ _,
      bind (conv (threads_get t i)) (λ updated,
      match updated with
      | Some u => ret u
      | None => raise AssertionError
      end))))
  end))).

Definition found {A} (what : string) (m : vprog (option A)) : vprog A :=
  bind m (λ o, match o with Some x => ret x | None => raise (err NotFound (what +:+ " not found")) end).

Definition get_thread (ctx : MemoryExecutionContext) (i : string) : vprog Thread :=
  bind (found "Thread" (conv (threads_get (tenant_id ctx) i))) (λ th,
  bind (authorize (require ctx "can_read" "thread" i)) (λ _, ret th)).

Definition delete_thread (now : Z) (ctx : MemoryExecutionContext) (i : string) : vprog unit :=
  let t := tenant_id ctx in
  bind (found "Thread" (conv (threads_get t i))) (λ th,
  bind (authorize (require ctx "can_write" "thread" i)) (λ _,
  bind (conv (threads_soft_delete now t i)) (λ _,
  bind (bump_ t RevThread i) (λ _,
  bind (if otruthy (th_owner th) then bump_ t RevUser (default "" (th_owner th)) else ret tt) (λ _,
  bind (enqueue_ now (forget_episode_job t i)) (λ _,
  hot (invalidate t i))))))).

(** [str(ctx.custom_metadata.get("client", "sdk"))]; [repr] is the text of a list
    or an object. *)
Definition py_str (j : json) : string :=
  match j with
  | JNull => "None"
  | JBool b => if b then "True" else "False"
  | JNum n => text_of_Z n
  | JStr s => s
  | _ => repr j
  end.

Definition client_of (ctx : MemoryExecutionContext) : string :=
  py_str (default (JStr "sdk") (custom_metadata ctx !! "client")).

Definition lineage (ctx : MemoryExecutionContext) (r : MessageRole) : vprog MemoryExecutionContext :=
  if otruthy (session_id ctx) && otruthy (turn_id ctx) then ret ctx
  else
  let t := tenant_id ctx in
  let i := or_str (thread_id ctx) "" in
  let session := or_str (session_id ctx) (thread_session_id blake2b t i) in
  bind (match turn_id ctx with
        | Some u => ret u
        | None =>
            bind (if decide (r = RUser) then ret None else conv (latest_turn t i)) (λ latest,
            let next := bind (conv (next_turn t i)) (λ n, ret (thread_turn_id blake2b t i n)) in
            match latest with
            | Some u => if String.eqb (tu_session u) session then ret (tu_id u) else next
            | None => next
            end)
        end) (λ turn,
  ret (with_lineage session turn ctx)).

Definition ensure_session_and_turn (now : Z) (ctx : MemoryExecutionContext) (i session turn : string) : vprog unit :=
  let t := tenant_id ctx in
  bind (conv (sessions_get t session)) (λ found_session,
  bind (match found_session with
        | None => conv (sessions_add
                    {| se_id := session; se_thread := i; se_tenant := t; se_user := user_id ctx;
                       se_client := Some (client_of ctx); se_started_at := now; se_custom := ∅ |})
        | Some s => if String.eqb (se_thread s) i then ret tt
                    else raise (err ValidationFailed "session_id belongs to a different thread")
        end) (λ _,
  bind (conv (turns_get t turn)) (λ found_turn,
  match found_turn with
  | None =>
      bind (conv (next_turn t i)) (λ n,
      conv (turns_add {| tu_id := turn; tu_session := session; tu_thread := i; tu_tenant := t; tu_sequence := n;
                         tu_started_at := now; tu_custom := ∅ |}))
  | Some u => if String.eqb (tu_session u) session then ret tt
              else raise (err ValidationFailed "turn_id belongs to a different session")
  end))).

Definition ensure_agent_run (now : Z) (ctx : MemoryExecutionContext) (run : string) : vprog unit :=
  let t := tenant_id ctx in
  match agent_id ctx with
  | Some agent =>
      if truthy agent then
        bind (conv (runs_get t run)) (λ existing,
        match existing with
        | Some _ => ret tt
        | None => conv (runs_add
            {| ar_id := run; ar_tenant := t; ar_thread := thread_id ctx; ar_session := session_id ctx;
               ar_turn := turn_id ctx; ar_work := work_id ctx; ar_task := task_id ctx; ar_agent := agent;
               ar_group := agent_group_id ctx; ar_parent := parent_agent_run_id ctx; ar_status := "RUNNING";
               ar_started_at := now; ar_completed_at := None; ar_trace := Some (trace_id ctx); ar_custom := ∅ |})
        end)
      else raise AssertionError
  | None => raise AssertionError
  end.

(** The checks made before anything is read. *)
Definition submission_problem (ctx : MemoryExecutionContext) (x : submission) : option string :=
  if negb (otruthy (thread_id ctx)) then Some "thread_id is required for messages"
  else
  let k := if decide (sb_role x = REvent) then INTERNAL else sb_kind x in
  if bool_decide (k = VISIBLE) && negb (bool_decide (sb_role x ∈ [RUser; RAssistant; RSystem]))
  then Some "visible messages must have role USER, ASSISTANT or SYSTEM"
  else if bool_decide (k = INTERNAL) && bool_decide (agent_id ctx = None) && bool_decide (sb_role x = RAgent)
  then Some "internal AGENT messages require agent_id in the scope"
  else tool_fields_problem (sb_role x) (sb_tool_calls x) (sb_tool_call_id x).

Definition kind_stored (x : submission) : MessageKind := if decide (sb_role x = REvent) then INTERNAL else sb_kind x.

Definition new_message (now : Z) (ctx : MemoryExecutionContext) (message_id_ : string) (x : submission)
    (i session turn : string) (n : Z) : Message :=
  let text := sanitise (sb_content x) in
  {| message_id := message_id_; m_thread_id := i; m_session_id := session; m_turn_id := turn;
     m_tenant_id := tenant_id ctx; role := sb_role x; kind := kind_stored x; sequence := n; content := text;
     content_hash := sha text; m_version := 1; author_principal := principal_id ctx;
     m_agent_run_id := agent_run_id ctx; parent_message_id := sb_parent x; m_attachments := sb_attachments x;
     m_tool_calls := sb_tool_calls x; tool_call_id := sb_tool_call_id x; source_system := sb_source_system x;
     source_message_id := sb_source_message x; occurred_at := default now (sb_occurred_at x);
     message_created_at := now; archive_status := STAGED;
     m_system := {["trace_id" := JStr (trace_id ctx); "request_id" := JStr (request_id ctx)]};
     m_custom_metadata := default ∅ (sb_custom x); message_deleted_at := None |}.

Definition observation_of (now : Z) (ctx : MemoryExecutionContext) (observation_id : string) (x : submission)
    (m : Message) : Observation :=
  {| obs_id := observation_id; obs_provenance := ctx; obs_principal := principal_id ctx;
     obs_kind := if decide (sb_role x = REvent) then OEvent else OMessage; obs_content := content m;
     obs_hash := content_hash m; obs_message := Some (message_id m); obs_document := None; obs_tool_run := None;
     obs_source_system := sb_source_system x; obs_source_id := sb_source_message x; obs_hints := no_hints;
     obs_custom := {["role" := JStr (role_value (sb_role x)); "kind" := JStr (message_kind_value (kind m))]};
     obs_occurred_at := occurred_at m; obs_created_at := now; obs_processed_at := None; obs_status := "PENDING";
     obs_lang := detect_language (content m) |}.

Definition job_id (outbox_id : option Z) : list string :=
  match outbox_id with
  | Some n => ["obx_" +:+ text_of_Z n]
  | None => []
  end.

(** The jobs of one message. *)
Definition enqueue_jobs (now : Z) (ctx : MemoryExecutionContext) (i observation_id : string) (k : MessageKind) (n : Z) :
    vprog (list string) :=
  let t := tenant_id ctx in
  bind (enqueue_ now (observation_job ctx observation_id)) (λ first,
  bind (if archive_enabled then enqueue_ now (archive_job t i) else ret None) (λ second,
  bind (if Z.eqb (n mod SUMMARY_EVERY) 0 then enqueue_ now (refresh_job t i (principal_id ctx))
        else if decide (k = VISIBLE) then enqueue_ now (episode_job now t i)
        else ret None) (λ _,
  ret (job_id first ++ job_id second)))).

(** [self.create_thread] where the thread is new, else the write check. *)
Definition open_thread (now : Z) (ctx : MemoryExecutionContext) (i : string) (may : bool) : vprog unit :=
  bind (conv (threads_get (tenant_id ctx) i)) (λ existing,
  match existing with
  | None => bind (create_thread now ctx "" (Some i) None None None None) (λ _, ret tt)
  | Some _ => if may then ret tt else authorize (require ctx "can_write" "thread" i)
  end).

(** The message of an import that is already stored. *)
Definition stored_before (t : string) (x : submission) : vprog (option Message) :=
  if otruthy (sb_source_system x) && otruthy (sb_source_message x)
  then conv (find_by_source t (default "" (sb_source_system x)) (default "" (sb_source_message x)))
  else ret None.

(** The writes of a new message, once its lineage is known. *)
Definition store_message (now : Z) (ctx : MemoryExecutionContext) (message_id_ observation_id : string) (x : submission)
    (i session turn : string) : vprog AppendResult :=
  let t := tenant_id ctx in
  bind (ensure_session_and_turn now ctx i session turn) (λ _,
  bind (if otruthy (agent_run_id ctx) then ensure_agent_run now ctx (default "" (agent_run_id ctx)) else ret tt) (λ _,
  bind (conv (next_message t i)) (λ n,
  let m := new_message now ctx message_id_ x i session turn n in
  bind (conv (messages_add m)) (λ _,
  bind (conv (observations_add (observation_of now ctx observation_id x m))) (λ _,
  bind (enqueue_jobs now ctx i observation_id (kind m) n) (λ jobs,
  bind (conv (threads_touch now t i None None)) (λ revision,
  bind (bump_ t RevThread i) (λ _,
  ret {| ap_ack := {| ma_message_id := message_id m; ma_thread_id := i; ma_session_id := session; ma_turn_id := turn;
                      ma_sequence := n; ma_job_ids := jobs; ma_deduplicated := false;
                      ma_observation_id := Some observation_id |};
         ap_message := Some m; ap_revision := revision |})))))))).

(** The rest of an append, on the thread it opened. *)
Definition append_to (now : Z) (ctx : MemoryExecutionContext) (message_id_ observation_id : string) (x : submission)
    (i : string) : vprog AppendResult :=
  bind (stored_before (tenant_id ctx) x) (λ dup,
  match dup with
  | Some m =>
      ret {| ap_ack := {| ma_message_id := message_id m; ma_thread_id := m_thread_id m;
                          ma_session_id := m_session_id m; ma_turn_id := m_turn_id m; ma_sequence := sequence m;
                          ma_job_ids := []; ma_deduplicated := true; ma_observation_id := None |};
             ap_message := None; ap_revision := 0 |}
  | None =>
      bind (lineage ctx (sb_role x)) (λ ctx',
      match session_id ctx', turn_id ctx' with
      | Some session, Some turn =>
          if truthy session && truthy turn then store_message now ctx' message_id_ observation_id x i session turn
          else raise AssertionError
      | _, _ => raise AssertionError
      end)
  end).

Definition append_message (now : Z) (ctx : MemoryExecutionContext) (message_id_ observation_id : string)
    (x : submission) (may_write : option bool) : vprog AppendResult :=
  match submission_problem ctx x with
  | Some problem => raise (err ValidationFailed problem)
  | None =>
      let t := tenant_id ctx in
      let i := default "" (thread_id ctx) in
      bind (asked ctx i may_write) (λ may,
      bind (in_sys (serialize (thread_lock t i))) (λ _,
      bind (open_thread now ctx i may) (λ _,
      append_to now ctx message_id_ observation_id x i)))
  end.

(** After the commit: the message is pushed to the thread's cached list. *)
Definition after_commit (r : AppendResult) : vprog unit :=
  match ap_message r with
  | Some m => hot (append max_messages hot_ttl m (ap_revision r))
  | None => ret tt
  end.

Definition list_messages (ctx : MemoryExecutionContext) (i : string) (limit : nat) (before_sequence : option Z)
    (include_internal : bool) : vprog (list Message) :=
  let t := tenant_id ctx in
  bind (found "Thread" (conv (threads_get t i))) (λ th,
  bind (authorize (require ctx "can_read" "thread" i)) (λ _,
  let newest := negb include_internal && bool_decide (before_sequence = None) in
  bind (if newest then hot (recent t i (Z.of_nat limit) (Some (th_revision th))) else ret None) (λ cached,
  match cached with
  | Some l => ret l
  | None =>
      bind (conv (list_thread t i limit before_sequence include_internal)) (λ messages,
      bind (if newest then hot (refill max_messages hot_ttl t i messages (th_revision th)) else ret tt) (λ _,
      ret messages))
  end))).

Definition window_messages (ctx : MemoryExecutionContext) (i : string) (turns : Z) (limit : nat) : vprog (list Message) :=
  bind (conv (threads_get (tenant_id ctx) i)) (λ th,
  match th with
  | None => ret []
  | Some _ => bind (authorize (require ctx "can_read" "thread" i)) (λ _,
              conv (list_window (tenant_id ctx) i turns limit))
  end).

Definition get_message (ctx : MemoryExecutionContext) (message_id_ : string) : vprog Message :=
  bind (found "Message" (conv (messages_get (tenant_id ctx) message_id_))) (λ m,
  bind (authorize (require ctx "can_read" "thread" (m_thread_id m))) (λ _,
  if bool_decide (kind m = INTERNAL) && negb (is_agent ctx) && negb (String.eqb (author_principal m) (principal_id ctx))
  then raise (err ScopeDenied "Internal messages are not visible to this principal")
  else ret m)).
End service.

(** ** Runs *)

Section runs.
#[local] Set Default Proof Using "Type".
Context {P C : Type} `{AuthorizationLaws P} `{CacheLaws C}.
Implicit Types s : conv_sys P C.

(** A step on the rest of the system leaves the tables alone. *)
Abbreviation aside := (leaves (E := exn) (cs_conv (P := P) (C := C))).

Lemma aside_in_sys {A} (m : prog (tenancy_sys P C) A) : aside (in_sys m).
Proof. by apply leaves_away. Qed.

Lemma aside_authorize {A} (m : prog (authz_state P C) A) : aside (authorize m).
Proof. apply aside_in_sys. Qed.

Lemma aside_bump t k i : aside (bump_ t k i).
Proof. apply leaves_bind; [apply aside_authorize|intros; apply leaves_ret]. Qed.

Lemma aside_enqueue now spec : aside (enqueue_ now spec).
Proof. by apply leaves_away. Qed.

Lemma conv_run {A} (m : cprog A) s : conv m s = (fst (m (cs_conv s)), set_cs_conv (snd (m (cs_conv s))) s).
Proof. unfold conv, zoom. by destruct (m (cs_conv s)). Qed.

Lemma conv_inv {A} (m : cprog A) s a s' : conv m s = (Ok a, s') →
  m (cs_conv s) = (Ok a, cs_conv s') ∧ s' = set_cs_conv (cs_conv s') s.
Proof. rewrite conv_run. destruct (m (cs_conv s)) as [o c]. cbn. by intros [= -> <-]. Qed.

Lemma conv_gets {A} (f : conversations → A) s : conv (gets f) s = (Ok (f (cs_conv s)), s).
Proof. rewrite conv_run. by destruct s. Qed.
End runs.

#[export] Hint Resolve aside_in_sys aside_authorize aside_bump aside_enqueue : frame.

(** ** Appending *)

(** The thread a request works on: there before, or created by it. *)
Record opened (now : Z) (t i : string) (c c' : conversations) : Prop := {
  op_thread : ∃ th, thread_of t i c' = Some th;
  op_tables : c' = c ∨ ∃ th, th_id th = i ∧ th_tenant th = t ∧ th_revision th = 0 ∧ cv_threads c !! i = None ∧
                c' = set_threads (<[i := th]> (cv_threads c)) c;
}.

Lemma opened_ok now t i c c' : opened now t i c c' → conv_ok c →
  conv_ok c' ∧ cv_messages c' = cv_messages c ∧ cv_attachments c' = cv_attachments c ∧ cv_turns c' = cv_turns c ∧
  cv_sessions c' = cv_sessions c.
Proof.
  intros [_ [->|(th & <- & _ & _ & Hfresh & ->)]] Hc; [done|]. split; [|done].
  apply conv_ok_put_thread; [done|]. intros old Hold. congruence.
Qed.

(** What the lineage of a message adds: its session and turn, with the messages
    as they were. *)
Record placed (t i session turn : string) (c c' : conversations) : Prop := {
  pl_ok : conv_ok c';
  pl_threads : cv_threads c' = cv_threads c;
  pl_messages : cv_messages c' = cv_messages c;
  pl_attachments : cv_attachments c' = cv_attachments c;
  pl_turn : ∃ u, cv_turns c' !! turn = Some u ∧ tu_session u = session ∧ tu_thread u = i ∧ tu_tenant u = t;
  pl_new : cv_turns c !! turn = None →
    turns_of t i c' ≡ₚ default (Build_Turn turn session i t 0 0 ∅) (cv_turns c' !! turn) :: turns_of t i c ∧
    (tu_sequence <$> cv_turns c' !! turn) = Some (next_after (tu_sequence <$> turns_of t i c));
  pl_old : is_Some (cv_turns c !! turn) → cv_turns c' = cv_turns c;
}.

(** What one stored message does to the tables. *)
Record message_stored (now : Z) (t i session turn : string) (m : Message) (revision : Z) (c c' : conversations) :
    Prop := {
  st_fresh : cv_messages c !! message_id m = None;
  st_number : sequence m = Z.of_nat (length (messages_of t i c)) + 1;
  st_where : m_tenant_id m = t ∧ m_thread_id m = i ∧ m_session_id m = session ∧ m_turn_id m = turn;
  st_ok : conv_ok c';
  st_messages : messages_of t i c' = messages_of t i c ++ [stored m];
  st_rows : cv_messages c' = <[message_id m := row_of_message m]> (cv_messages c);
  st_others t' i' : ¬ (t = t' ∧ i = i') → messages_of t' i' c' = messages_of t' i' c;
  st_thread : ∃ th, cv_threads c !! i = Some th ∧ cv_threads c' = <[i := touched_thread now None None th]> (cv_threads c) ∧
    revision = th_revision th + 1;
  st_turn : ∃ c1, placed t i session turn c c1 ∧ cv_turns c' = cv_turns c1;
}.

Lemma conv_ok_touch now c i th : conv_ok c → cv_threads c !! i = Some th →
  conv_ok (set_threads (<[i := touched_thread now None None th]> (cv_threads c)) c).
Proof.
  intros Hc Hth. rewrite <- (ok_thread _ Hc _ _ Hth).
  apply (conv_ok_put_thread _ (touched_thread now None None th)); [done|]. cbn. intros old.
  rewrite (ok_thread _ Hc _ _ Hth). congruence.
Qed.

Lemma placed_stored now t i session turn m th runs obs c c1 :
  conv_ok c → placed t i session turn c c1 → cv_threads c !! i = Some th → cv_messages c1 !! message_id m = None →
  m_tenant_id m = t ∧ m_thread_id m = i ∧ m_session_id m = session ∧ m_turn_id m = turn → lawful m →
  sequence m = next_after ((λ r, row_sequence r) <$> thread_rows t i c1) →
  message_stored now t i session turn m (th_revision th + 1) c
    (set_observations obs (set_runs runs (set_threads (<[i := touched_thread now None None th]> (cv_threads c1))
       (with_message m c1)))).
Proof.
  intros Hc Hplace Hth Hfresh Hwhere Hlaw Hn. pose proof (pl_ok _ _ _ _ _ _ Hplace) as Hc1.
  pose proof (pl_threads _ _ _ _ _ _ Hplace) as Hths. pose proof (pl_messages _ _ _ _ _ _ Hplace) as Hms.
  assert (∀ t' i', messages_of t' i' c1 = messages_of t' i' c) as Hsame
    by (intros; apply messages_of_ext; [done|apply (pl_attachments _ _ _ _ _ _ Hplace)]).
  destruct (pl_turn _ _ _ _ _ _ Hplace) as (u & Hturn & Hus & Hui & Hut). destruct Hwhere as (Hmt & Hmi & Hmse & Hmtu).
  split; try done.
  - by rewrite <- Hms.
  - rewrite Hn, numbered_next by apply (ok_messages _ Hc1). rewrite <- Hsame. unfold messages_of. rewrite !length_fmap.
    by rewrite merge_sort_Permutation.
  - apply (conv_ok_ext (set_threads (<[i := touched_thread now None None th]> (cv_threads (with_message m c1)))
      (with_message m c1))); try done.
    apply conv_ok_touch; [|cbn; by rewrite Hths]. apply (conv_ok_add_message _ m u); try done; congruence.
  - rewrite <- Hsame. rewrite <- (messages_of_add c1 Hc1 m Hfresh t i) by done. by apply messages_of_ext.
  - cbn. by rewrite Hms.
  - intros t' i' Hne. rewrite <- Hsame, <- (messages_of_other c1 Hc1 m Hfresh t' i') by naive_solver. by apply messages_of_ext.
  - exists th. cbn. by rewrite Hths.
  - by exists c1.
Qed.
Section append_lemmas.
#[local] Set Default Proof Using "Type".
Context {P C : Type} `{AuthorizationLaws P} `{CacheLaws C}.
Variable blake2b : string → string.
Variable sha : string → string.
Variable detect_language : string → string.
Variable repr : json → string.
Variable archive_enabled : bool.
Implicit Types s : conv_sys P C.

Abbreviation append_ := (append_message (P := P) (C := C) blake2b sha detect_language repr archive_enabled).

Lemma or_str_truthy i d : truthy i = true → or_str (Some i) d = i.
Proof. intros Hi. simpl. by rewrite Hi. Qed.

Lemma create_thread_run now ctx fresh i title custom ss st s th s' : truthy i = true →
  create_thread now ctx fresh (Some i) title custom ss st s = (Ok th, s') →
  opened now (tenant_id ctx) i (cs_conv s) (cs_conv s').
Proof.
  intros Hi Hrun. unfold create_thread in Hrun. rewrite (or_str_truthy i) in Hrun by done.
  erewrite bind_ok in Hrun; [|apply conv_gets]. destruct (thread_of (tenant_id ctx) i (cs_conv s)) as [old|] eqn:Hold.
  - apply (leaves_run cs_conv _ s) in Hrun; [|auto with frame]. rewrite Hrun. split; [by eauto|by left].
  - apply bind_Ok_inv in Hrun as (team & s1 & Hteam & Hrun). apply (leaves_run cs_conv _ s) in Hteam; [|auto with frame].
    apply bind_Ok_inv in Hrun as ([] & s2 & Hadd & Hrun). apply conv_inv in Hadd as [Hadd _].
    apply insert_inv in Hadd as (Hfresh & _ & Hs2). rewrite Hteam in Hfresh, Hs2. cbn [th_id new_thread] in Hfresh, Hs2.
    apply (leaves_run cs_conv _ s2) in Hrun; [|unfold label_thread; auto 10 with frame]. rewrite Hrun, Hs2. split.
    + exists (new_thread now ctx i title custom ss st). apply tenants_row_Some. cbn. rewrite lookup_insert_eq. done.
    + right. exists (new_thread now ctx i title custom ss st). done.
Qed.

Lemma open_thread_run now ctx i may s s' : truthy i = true →
  open_thread now ctx i may s = (Ok tt, s') → opened now (tenant_id ctx) i (cs_conv s) (cs_conv s').
Proof.
  intros Hi Hrun. unfold open_thread in Hrun. erewrite bind_ok in Hrun; [|apply conv_gets].
  destruct (thread_of (tenant_id ctx) i (cs_conv s)) as [old|] eqn:Hold.
  - apply (leaves_run cs_conv _ s) in Hrun; [|auto with frame]. rewrite Hrun. split; [by eauto|by left].
  - apply bind_Ok_inv in Hrun as (th & s1 & Hth & Hret). injection Hret as <-. by apply (create_thread_run _ _ _ _ _ _ _ _ _ _ _ Hi) in Hth.
Qed.

Lemma ensure_run now ctx i session turn s s' : conv_ok (cs_conv s) → is_Some (thread_of (tenant_id ctx) i (cs_conv s)) →
  ensure_session_and_turn repr now ctx i session turn s = (Ok tt, s') →
  placed (tenant_id ctx) i session turn (cs_conv s) (cs_conv s').
Proof.
  intros Hc [th Hth] Hrun. apply tenants_row_Some in Hth as (Hth & Ht & _). unfold ensure_session_and_turn in Hrun.
  erewrite bind_ok in Hrun; [|apply conv_gets]. apply bind_Ok_inv in Hrun as ([] & s1 & Hses & Hrun).
  assert (conv_ok (cs_conv s1) ∧ cv_threads (cs_conv s1) = cv_threads (cs_conv s) ∧
    cv_messages (cs_conv s1) = cv_messages (cs_conv s) ∧ cv_attachments (cs_conv s1) = cv_attachments (cs_conv s) ∧
    cv_turns (cs_conv s1) = cv_turns (cs_conv s) ∧
    ∃ se, cv_sessions (cs_conv s1) !! session = Some se ∧ se_thread se = i ∧ se_tenant se = tenant_id ctx)
    as (Hc1 & Hths & Hms & Has & Htu & se & Hse & Hsi & Hst).
  { destruct (tenants_row _ _ _ _ _) as [se|] eqn:Hrow.
    - apply tenants_row_Some in Hrow as (Hse & Hst & _). destruct (String.eqb_spec (se_thread se) i) as [Hsi|]; [|done].
      injection Hses as <-. split_and!; try done. by exists se.
    - apply conv_inv in Hses as [Hadd _]. apply insert_inv in Hadd as (Hfresh & _ & ->). split_and!; try done.
      + by apply conv_ok_add_session with th.
      + eexists. split_and!; [apply lookup_insert_eq|done|done]. }
  erewrite bind_ok in Hrun; [|apply conv_gets]. destruct (tenants_row tu_tenant _ _ _ _) as [u|] eqn:Hrow.
  - apply tenants_row_Some in Hrow as (Hu & Hut & _). destruct (String.eqb_spec (tu_session u) session) as [Hus|]; [|done].
    injection Hrun as <-. split; try done; [|congruence]. exists u. split_and!; [done..| |done].
    destruct (ok_turn _ Hc1 _ _ Hu) as (_ & se' & Hse' & Hth' & _). congruence.
  - erewrite bind_ok in Hrun; [|apply conv_gets]. apply conv_inv in Hrun as [Hadd _].
    apply insert_inv in Hadd as (Hfresh & _ & ->). cbn [tu_id] in Hfresh |- *. split; try done.
    + by apply conv_ok_add_turn with se.
    + eexists. split_and!; [apply lookup_insert_eq|done..].
    + intros _. cbn [cv_turns set_turns]. rewrite lookup_insert_eq. cbn [default fmap option_fmap option_map tu_sequence].
      split; [|unfold turns_of; by rewrite Htu]. rewrite turns_of_insert by done. cbn [tu_thread tu_tenant].
      rewrite decide_True by done. cbn. unfold turns_of. by rewrite Htu.
    + rewrite <- Htu, Hfresh. by intros [].
Qed.

(** The turn of a message that names none: its own for a question, the latest one
    of the session otherwise. *)
Definition turn_for (t i session : string) (r : MessageRole) (c : conversations) : string :=
  let next := thread_turn_id blake2b t i (next_after (tu_sequence <$> turns_of t i c)) in
  match (if decide (r = RUser) then None else latest_of t i c) with
  | Some u => if String.eqb (tu_session u) session then tu_id u else next
  | None => next
  end.

Definition lineage_of (ctx : MemoryExecutionContext) (r : MessageRole) (c : conversations) : MemoryExecutionContext :=
  if otruthy (session_id ctx) && otruthy (turn_id ctx) then ctx
  else
  let t := tenant_id ctx in
  let i := or_str (thread_id ctx) "" in
  let session := or_str (session_id ctx) (thread_session_id blake2b t i) in
  with_lineage session (default (turn_for t i session r c) (turn_id ctx)) ctx.

Lemma lineage_eq ctx r s : lineage blake2b ctx r s = (Ok (lineage_of ctx r (cs_conv s)), s).
Proof.
  unfold lineage, lineage_of. destruct (otruthy (session_id ctx) && otruthy (turn_id ctx)); [done|].
  destruct (turn_id ctx) as [u|]; [done|]. unfold turn_for, bind, latest_turn, next_turn, ret. cbv zeta.
  destruct (decide (r = RUser)); [by rewrite conv_gets|]. rewrite conv_gets.
  destruct (latest_of _ _ _) as [u|]; [|by rewrite conv_gets]. destruct (String.eqb _ _); [done|by rewrite conv_gets].
Qed.

Lemma jobs_aside now ctx i o k n : leaves (cs_conv (P := P) (C := C)) (enqueue_jobs archive_enabled now ctx i o k n).
Proof.
  unfold enqueue_jobs. auto 10 with frame.
Qed.

Lemma submission_lawful now ctx ctx' mid x i session turn n :
  submission_problem ctx x = None → lawful (new_message sha now ctx' mid x i session turn n).
Proof.
  unfold submission_problem, lawful, new_message, kind_stored. cbn.
  destruct (negb (otruthy _)); [done|]. destruct (bool_decide (_ = VISIBLE) && _) eqn:Hv; [done|].
  destruct (bool_decide (_ = INTERNAL) && _ && _); [done|]. intros Hp. split; [|done]. intros Hk.
  apply andb_false_iff in Hv as [Hv|Hv]; [by apply bool_decide_eq_false in Hv|].
  by apply negb_false_iff, bool_decide_eq_true in Hv.
Qed.

Lemma insert_run {V} (get : conversations → gmap string V) put ok k v s s' :
  conv (P := P) (C := C) (insert get put ok k v) s = (Ok tt, s') →
  get (cs_conv s) !! k = None ∧ cs_conv s' = put (<[k := v]> (get (cs_conv s))) (cs_conv s).
Proof. intros [Hadd _]%conv_inv. by apply insert_inv in Hadd as (? & _ & ?). Qed.

Lemma agent_run_tables now ctx run s s' :
  ensure_agent_run (P := P) (C := C) now ctx run s = (Ok tt, s') →
  ∃ runs, cs_conv s' = set_runs runs (cs_conv s).
Proof.
  assert (∀ c, c = set_runs (cv_runs c) c) as Hsame by by intros [].
  unfold ensure_agent_run. destruct (agent_id ctx) as [agent|]; [|done]. destruct (truthy agent); [|done]. intros Hrun.
  erewrite bind_ok in Hrun; [|apply conv_gets]. destruct (tenants_row _ _ _ _ _).
  - injection Hrun as <-. eexists. apply Hsame.
  - apply insert_run in Hrun as [_ Hrun]. by eexists.
Qed.

(** The tables after [store_message]: those after placing the message in a turn,
    with the message, the thread's revision, and rows of the other tables. *)
Lemma store_tables now ctx mid oid x i session turn s r s' :
  conv_ok (cs_conv s) → is_Some (thread_of (tenant_id ctx) i (cs_conv s)) →
  store_message sha detect_language repr archive_enabled now ctx mid oid x i session turn s = (Ok r, s') →
  ∃ c1 th runs obs jobs, placed (tenant_id ctx) i session turn (cs_conv s) c1 ∧ cv_threads (cs_conv s) !! i = Some th ∧
    let n := next_after ((λ r, row_sequence r) <$> thread_rows (tenant_id ctx) i c1) in
    let m := new_message sha now ctx mid x i session turn n in
    cv_messages c1 !! mid = None ∧
    cs_conv s' = set_observations obs (set_runs runs
                   (set_threads (<[i := touched_thread now None None th]> (cv_threads c1)) (with_message m c1))) ∧
    r = {| ap_ack := {| ma_message_id := mid; ma_thread_id := i; ma_session_id := session; ma_turn_id := turn;
                        ma_sequence := n; ma_job_ids := jobs; ma_deduplicated := false; ma_observation_id := Some oid |};
           ap_message := Some m; ap_revision := th_revision th + 1 |}.
Proof.
  intros Hc Hth Hrun. unfold store_message in Hrun.
  apply bind_Ok_inv in Hrun as ([] & s1 & Hplace & Hrun). apply ensure_run in Hplace; [|done..].
  apply bind_Ok_inv in Hrun as ([] & s2 & Hruns & Hrun).
  assert (∃ runs, cs_conv s2 = set_runs runs (cs_conv s1)) as [runs Hs2].
  { destruct (otruthy (agent_run_id ctx)); [by eapply agent_run_tables|]. injection Hruns as <-.
    exists (cv_runs (cs_conv s1)). by destruct (cs_conv s1). }
  unfold next_message in Hrun. erewrite bind_ok in Hrun; [|apply conv_gets]. cbv beta zeta in Hrun.
  apply bind_Ok_inv in Hrun as ([] & s3 & Hadd & Hrun). apply insert_run in Hadd as [Hfresh Hs3].
  apply bind_Ok_inv in Hrun as ([] & s4 & Hobs & Hrun). apply insert_run in Hobs as [_ Hs4].
  apply bind_Ok_inv in Hrun as (jobs & s5 & Hjobs & Hrun). apply (leaves_run cs_conv _ s4) in Hjobs; [|apply jobs_aside].
  apply bind_Ok_inv in Hrun as (rev & s6 & Htouch & Hrun). apply conv_inv in Htouch as [Htouch _].
  apply bind_Ok_inv in Hrun as ([] & s7 & Hbump & Hret). apply (leaves_run cs_conv _ s6) in Hbump; [|auto with frame].
  injection Hret as <- <-. destruct Hth as [th Hth]. apply tenants_row_Some in Hth as (Hth & Ht & _).
  assert (cv_threads (cs_conv s5) = cv_threads (cs_conv s1)) as Hths by by rewrite Hjobs, Hs4, Hs3, Hs2.
  pose proof (pl_threads _ _ _ _ _ _ Hplace) as Hths1. unfold threads_touch in Htouch. rewrite Hths, Hths1 in Htouch.
  rewrite (proj2 (tenants_row_Some th_tenant any (tenant_id ctx) i (cv_threads (cs_conv s)) th)) in Htouch by done.
  injection Htouch as <- Hs6. exists (cs_conv s1), th, runs, (cv_observations (cs_conv s4)), jobs.
  cbv zeta. split_and!; [done|done|by rewrite Hs2 in Hfresh| |by rewrite Hs2].
  rewrite Hbump, <- Hs6, Hjobs, Hs4, Hs3, Hs2, <- Hths1. done.
Qed.


Definition source_of (x : submission) : option (string * string) :=
  if otruthy (sb_source_system x) && otruthy (sb_source_message x)
  then Some (default "" (sb_source_system x), default "" (sb_source_message x)) else None.

Definition known_source (t : string) (x : submission) (c : conversations) : option Message :=
  '(system, i) ← source_of x; (λ r, row_to_message r []) <$>
    head (filter (λ r, from_source t system i r = true) (rows (cv_messages c))).

(** A known source is the source of a row of the tenant. *)
Lemma known_source_row t x c m : known_source t x c = Some m → ∃ k row system id,
  cv_messages c !! k = Some row ∧ m_tenant_id (mr_message row) = t ∧
  sb_source_system x = Some system ∧ truthy system = true ∧ source_system (mr_message row) = Some system ∧
  sb_source_message x = Some id ∧ truthy id = true ∧ source_message_id (mr_message row) = Some id ∧
  m = row_to_message row [].
Proof.
  unfold known_source, source_of. destruct (otruthy _ && otruthy _) eqn:Htr; [|done]. apply andb_true_iff in Htr as [Hs Hi].
  destruct (sb_source_system x) as [system|]; [|done]. destruct (sb_source_message x) as [id|]; [|done]. cbn.
  set (l := filter _ _). destruct l as [|row l'] eqn:Hl; [done|]. intros [= <-].
  assert (row ∈ l) as [Hrow Hin]%list_elem_of_filter by (rewrite Hl; by left). apply elem_of_rows in Hin as [k Hk].
  unfold from_source in Hrow. rewrite !andb_true_iff, !bool_decide_eq_true, String.eqb_eq in Hrow. destruct Hrow as [[Ht Hss] Hsm].
  by exists k, row, system, id.
Qed.

Lemma stored_before_eq t x s : stored_before (P := P) (C := C) t x s = (Ok (known_source t x (cs_conv s)), s).
Proof.
  unfold stored_before, known_source, source_of. destruct (otruthy _ && otruthy _); [|done].
  unfold find_by_source. by rewrite conv_gets.
Qed.

Lemma append_start now ctx mid oid x mw s r s' : append_ now ctx mid oid x mw s = (Ok r, s') →
  let i := default "" (thread_id ctx) in
  submission_problem ctx x = None ∧ truthy i = true ∧ ∃ s1, opened now (tenant_id ctx) i (cs_conv s) (cs_conv s1) ∧
    append_to blake2b sha detect_language repr archive_enabled now ctx mid oid x i s1 = (Ok r, s').
Proof.
  intros Hrun. cbv zeta. unfold append_message in Hrun.
  destruct (submission_problem ctx x) as [p|] eqn:Hp; [done|]. split; [done|].
  set (i := default "" (thread_id ctx)) in *. assert (truthy i = true) as Hi.
  { unfold submission_problem in Hp. unfold i. destruct (thread_id ctx) as [v|]; cbn in *; [|done]. by destruct (truthy v). }
  split; [done|]. apply bind_Ok_inv in Hrun as (may & s1 & Hask & Hrun).
  apply (leaves_run cs_conv _ s) in Hask; [|unfold asked, may_write_thread; destruct mw; auto with frame].
  apply bind_Ok_inv in Hrun as ([] & s2 & Hlock & Hrun). apply (leaves_run cs_conv _ s1) in Hlock; [|auto with frame].
  apply bind_Ok_inv in Hrun as ([] & s3 & Hopen & Hrun). apply open_thread_run in Hopen; [|done].
  rewrite Hlock, Hask in Hopen. by exists s3.
Qed.

Lemma append_run now ctx mid oid x mw s r s' : conv_ok (cs_conv s) → append_ now ctx mid oid x mw s = (Ok r, s') →
  let t := tenant_id ctx in let i := default "" (thread_id ctx) in
  submission_problem ctx x = None ∧ truthy i = true ∧ ∃ c, opened now t i (cs_conv s) c ∧
  match known_source t x c with
  | Some m => cs_conv s' = c ∧ ap_message r = None ∧ ma_deduplicated (ap_ack r) = true ∧
              ma_message_id (ap_ack r) = message_id m ∧ ma_sequence (ap_ack r) = sequence m ∧
              ma_thread_id (ap_ack r) = m_thread_id m
  | None =>
      let ctx' := lineage_of ctx (sb_role x) c in
      ∃ session turn m, session_id ctx' = Some session ∧ turn_id ctx' = Some turn ∧
        m = new_message sha now ctx' mid x i session turn (ma_sequence (ap_ack r)) ∧
        ap_message r = Some m ∧ ma_deduplicated (ap_ack r) = false ∧ ma_message_id (ap_ack r) = mid ∧
        ma_thread_id (ap_ack r) = i ∧ ma_session_id (ap_ack r) = session ∧ ma_turn_id (ap_ack r) = turn ∧
        message_stored now t i session turn m (ap_revision r) c (cs_conv s')
  end.
Proof.
  intros Hc (Hp & Hi & s3 & Hopen & Hrun)%append_start. cbv zeta. split_and!; [done..|]. exists (cs_conv s3). split; [done|].
  set (i := default "" (thread_id ctx)) in *. unfold append_to in Hrun.
  erewrite bind_ok in Hrun; [|apply stored_before_eq]. destruct (known_source (tenant_id ctx) x (cs_conv s3)) as [m|] eqn:Hk.
  - by injection Hrun as <- <-.
  - erewrite bind_ok in Hrun; [|apply lineage_eq]. set (ctx' := lineage_of ctx (sb_role x) (cs_conv s3)) in *.
    assert (tenant_id ctx' = tenant_id ctx) as Ht by (unfold ctx', lineage_of; by destruct (_ && _)).
    destruct (session_id ctx') as [session|]; [|done]. destruct (turn_id ctx') as [turn|]; [|done].
    destruct (truthy session && truthy turn); [|done]. exists session, turn.
    destruct (opened_ok _ _ _ _ _ Hopen Hc) as [Hc3 _].
    destruct (store_tables now ctx' mid oid x i session turn s3 r s' Hc3) as (c1 & th & runs & obs & jobs & Hpl & Hth & Hst);
      [rewrite Ht; apply (op_thread _ _ _ _ _ Hopen)|done|]. destruct Hst as (Hfresh & Hs' & ->). rewrite Ht in *.
    eexists. split_and!; try done. cbn [ap_revision]. rewrite Hs'.
    apply placed_stored; try done. by apply (submission_lawful now ctx).
Qed.

(** C30: the messages of a thread are numbered in the order they are appended. When
    an append returns, either the message is new, and the thread is its messages
    as they were followed by this one, whose sequence is one more than their
    number; or a message of the same source (its system and the id it has there) is
    stored in the tenant, no message was written, and the answer names that message
    with its thread and sequence. Other threads are untouched, and the tables stay
    consistent: sessions, turns and messages agree on their thread and tenant, the
    turns and messages of every thread are numbered 1, 2, ... without a gap, and what
    is visible is said by a user, the assistant or the system (no tool output). *)
Theorem append_message_numbers now ctx mid oid x mw s r s' :
  conv_ok (cs_conv s) → append_ now ctx mid oid x mw s = (Ok r, s') →
  let t := tenant_id ctx in let i := default "" (thread_id ctx) in
  conv_ok (cs_conv s') ∧
  (∀ t' i', ¬ (t = t' ∧ i = i') → messages_of t' i' (cs_conv s') = messages_of t' i' (cs_conv s)) ∧
  match ap_message r with
  | Some m =>
      messages_of t i (cs_conv s') = messages_of t i (cs_conv s) ++ [stored m] ∧
      sequence m = Z.of_nat (length (messages_of t i (cs_conv s))) + 1 ∧ ma_sequence (ap_ack r) = sequence m ∧
      content m = sanitise (sb_content x) ∧ content_hash m = sha (content m) ∧ role m = sb_role x ∧
      (visible m = true → role m ∈ [RUser; RAssistant; RSystem]) ∧ visible (stored m) = visible m
  | None =>
      ma_deduplicated (ap_ack r) = true ∧ cv_messages (cs_conv s') = cv_messages (cs_conv s) ∧
      messages_of t i (cs_conv s') = messages_of t i (cs_conv s) ∧
      ∃ k row system id, cv_messages (cs_conv s) !! k = Some row ∧ m_tenant_id (mr_message row) = t ∧
        sb_source_system x = Some system ∧ truthy system = true ∧ source_system (mr_message row) = Some system ∧
        sb_source_message x = Some id ∧ truthy id = true ∧ source_message_id (mr_message row) = Some id ∧
        ma_message_id (ap_ack r) = message_id (mr_message row) ∧ ma_sequence (ap_ack r) = sequence (mr_message row) ∧
        ma_thread_id (ap_ack r) = m_thread_id (mr_message row)
  end.
Proof.
  intros Hc Hrun t i. destruct (append_run now ctx mid oid x mw s r s' Hc Hrun) as (Hp & _ & c & Hopen & Hcases).
  fold t i in Hopen, Hcases. destruct (opened_ok _ _ _ _ _ Hopen Hc) as (Hc1 & Hms & Has & _).
  assert (∀ t' i', messages_of t' i' c = messages_of t' i' (cs_conv s)) as Hsame by (intros; by apply messages_of_ext).
  destruct (known_source t x c) as [m|] eqn:Hk.
  - destruct Hcases as (-> & -> & Hd & Hi & Hq & Hth). split_and!; [done|by intros; apply Hsame|done|exact Hms|apply Hsame|].
    destruct (known_source_row _ _ _ _ Hk) as (k & row & system & id & Hrow & ? & ? & ? & ? & ? & ? & ? & ->). rewrite Hms in Hrow.
    by exists k, row, system, id.
  - destruct Hcases as (session & turn & m & _ & _ & Hm & -> & _ & _ & _ & _ & _ & Hst).
    pose proof (st_number _ _ _ _ _ _ _ _ _ Hst) as Hn. pose proof (st_messages _ _ _ _ _ _ _ _ _ Hst) as Happ.
    rewrite Hsame in Hn, Happ. split_and!; [apply (st_ok _ _ _ _ _ _ _ _ _ Hst)| |done|done|by rewrite Hm| | | | |done];
      try by rewrite Hm.
    + intros t' i' Hne. rewrite (st_others _ _ _ _ _ _ _ _ _ Hst) by done. apply Hsame.
    + intros Hv. apply bool_decide_eq_true in Hv. rewrite Hm in Hv |- *. by apply (submission_lawful now ctx _ _ _ _ _ _ _ Hp).
Qed.

Lemma source_of_Some x system i : source_of x = Some (system, i) →
  sb_source_system x = Some system ∧ sb_source_message x = Some i.
Proof.
  unfold source_of. destruct (sb_source_system x) as [a|], (sb_source_message x) as [b|]; cbn; try done.
  - by destruct (truthy a && truthy b); [intros [= -> ->]|].
  - by rewrite andb_false_r.
Qed.

Lemma known_source_new t x c c' m i n now ctx' session turn :
  known_source t x c = None → is_Some (source_of x) → tenant_id ctx' = t →
  m = new_message sha now ctx' (message_id m) x i session turn n → cv_messages c !! message_id m = None →
  cv_messages c' = <[message_id m := row_of_message m]> (cv_messages c) →
  known_source t x c' = Some (row_to_message (row_of_message m) []).
Proof.
  intros Hk [[system j] Hsrc] Ht Hm Hfresh Hc'. unfold known_source in *. rewrite Hsrc in *. cbn in Hk |- *.
  apply source_of_Some in Hsrc as [Hs Hj]. rewrite Hc'. set (p := λ r, from_source t system j r = true) in *.
  assert (filter p (rows (cv_messages c)) = []) as Hnone by by destruct (filter p (rows (cv_messages c))).
  assert (filter p (rows (<[message_id m := row_of_message m]> (cv_messages c))) = [row_of_message m]) as ->; [|done].
  apply Permutation_singleton_r. rewrite rows_insert_new by done. rewrite filter_cons_True.
  - by rewrite Hnone.
  - unfold p, from_source. rewrite Hm. cbn. rewrite Hs, Hj, Ht, String.eqb_refl, !bool_decide_eq_true_2 by done. done.
Qed.

Lemma lineage_tenant ctx r c : tenant_id (lineage_of ctx r c) = tenant_id ctx.
Proof. unfold lineage_of. by destruct (_ && _). Qed.

(** An import stores a source message once. After an append that names a source
    has returned, every append that names the same source, in any thread of the
    tenant and with any text, is answered with the first one's message, sequence
    and thread, and writes no message. *)
Theorem imports_stored_once now ctx mid oid x mw s r s' now2 ctx2 mid2 oid2 x2 mw2 s2 r2 s2' :
  conv_ok (cs_conv s) → is_Some (source_of x) → append_ now ctx mid oid x mw s = (Ok r, s') →
  cs_conv s2 = cs_conv s' → tenant_id ctx2 = tenant_id ctx → source_of x2 = source_of x →
  append_ now2 ctx2 mid2 oid2 x2 mw2 s2 = (Ok r2, s2') →
  ma_deduplicated (ap_ack r2) = true ∧ ap_message r2 = None ∧
  ma_message_id (ap_ack r2) = ma_message_id (ap_ack r) ∧ ma_sequence (ap_ack r2) = ma_sequence (ap_ack r) ∧
  ma_thread_id (ap_ack r2) = ma_thread_id (ap_ack r) ∧ cv_messages (cs_conv s2') = cv_messages (cs_conv s2).
Proof.
  intros Hc Hsrc Hrun Hs2 Ht Hsame Hrun2.
  destruct (append_run now ctx mid oid x mw s r s' Hc Hrun) as (_ & _ & c & Hopen & Hcases).
  destruct (opened_ok _ _ _ _ _ Hopen Hc) as (Hc1 & _).
  assert (conv_ok (cs_conv s') ∧ ∃ m, known_source (tenant_id ctx) x (cs_conv s') = Some m ∧
    ma_message_id (ap_ack r) = message_id m ∧ ma_sequence (ap_ack r) = sequence m ∧
    ma_thread_id (ap_ack r) = m_thread_id m) as (Hc' & m & Hk & Hid & Hseq & Hthread).
  { destruct (known_source (tenant_id ctx) x c) as [m|] eqn:Hk.
    - destruct Hcases as (-> & _ & _ & Hid & Hseq & Hth). split; [done|]. by exists m.
    - destruct Hcases as (session & turn & m & _ & _ & Hm & _ & _ & Hid & Hth & _ & _ & Hst).
      pose proof (st_where _ _ _ _ _ _ _ _ _ Hst) as (_ & Hmi & _). split; [apply (st_ok _ _ _ _ _ _ _ _ _ Hst)|].
      eexists. split_and!.
      + eapply known_source_new; [done|done|apply lineage_tenant| |apply (st_fresh _ _ _ _ _ _ _ _ _ Hst)|
          apply (st_rows _ _ _ _ _ _ _ _ _ Hst)]. by rewrite Hm at 1; rewrite Hm.
      + cbn. by rewrite Hid, Hm.
      + cbn. by rewrite Hm.
      + cbn. by rewrite Hth, Hmi. }
  rewrite <- Hs2 in Hc'.
  destruct (append_run now2 ctx2 mid2 oid2 x2 mw2 s2 r2 s2' Hc' Hrun2) as (_ & _ & c2 & Hopen2 & Hcases2).
  destruct (opened_ok _ _ _ _ _ Hopen2 Hc') as (_ & Hms & _).
  assert (known_source (tenant_id ctx2) x2 c2 = Some m) as Hk2.
  { rewrite <- Hk. unfold known_source. by rewrite Hsame, Ht, Hms, Hs2. }
  rewrite Hk2 in Hcases2. destruct Hcases2 as (-> & -> & -> & -> & -> & ->). by rewrite Hms.
Qed.

(** The session is the thread's own, and its latest turn is [turn]. *)
Definition current_turn (t i turn : string) (c : conversations) : Prop :=
  conv_ok c ∧ ∃ u, latest_of t i c = Some u ∧ tu_id u = turn ∧ tu_session u = thread_session_id blake2b t i.

Lemma latest_of_ext t i c c' : cv_turns c' = cv_turns c → latest_of t i c' = latest_of t i c.
Proof. intros Hc. unfold latest_of, turns_of. by rewrite Hc. Qed.

Lemma latest_of_new t i c u l : conv_ok c → cv_turns c !! tu_id u = Some u → tu_tenant u = t →
  turns_of t i c ≡ₚ u :: l → tu_sequence u = next_after (tu_sequence <$> l) → numbered (tu_sequence <$> l) →
  latest_of t i c = Some u.
Proof.
  intros Hc Hu Ht Hperm Hn Hnum. rewrite (numbered_next _ Hnum) in Hn.
  assert (ordered (descending tu_sequence) (Some 1%nat) (turns_of t i c) = [u]) as Hlast.
  { pose proof (ok_turns _ Hc t i) as Hnt. apply numbered_NoDup in Hnt.
    pose proof (newest_oldest tu_sequence (λ _, true) 1 (turns_of t i c) Hnt) as Hrev.
    rewrite !filter_all_true in Hrev by by apply Forall_true.
    rewrite (merge_sort_perm_key tu_sequence _ _ Hperm Hnt), merge_sort_snoc in Hrev.
    - rewrite lastn_snoc in Hrev. unfold lastn in Hrev. rewrite Nat.sub_0_r, drop_all in Hrev. cbn [app] in Hrev.
      apply (f_equal (@rev _)) in Hrev. by rewrite rev_involutive in Hrev.
    - intros y Hy. assert (tu_sequence y ∈ (tu_sequence <$> l)) as Hin by by apply list_elem_of_fmap_2.
      apply (numbered_elem _ _ Hnum) in Hin. lia.
    - by apply numbered_NoDup. }
  unfold latest_of. rewrite Hlast. by apply tenants_row_Some.
Qed.

Lemma own_lineage ctx r c i : thread_id ctx = Some i → truthy i = true → session_id ctx = None → turn_id ctx = None →
  let session := thread_session_id blake2b (tenant_id ctx) i in
  session_id (lineage_of ctx r c) = Some session ∧
  turn_id (lineage_of ctx r c) = Some (turn_for (tenant_id ctx) i session r c).
Proof.
  intros Hth Hi Hs Hu. unfold lineage_of. rewrite Hs, Hu, Hth. cbn. by rewrite Hi.
Qed.

Lemma question_opens_turn now t i session turn m rev c c' :
  conv_ok c → message_stored now t i session turn m rev c c' → cv_turns c !! turn = None →
  session = thread_session_id blake2b t i → current_turn t i turn c'.
Proof.
  intros Hc Hst Hfresh Hsession. split; [apply (st_ok _ _ _ _ _ _ _ _ _ Hst)|].
  destruct (st_turn _ _ _ _ _ _ _ _ _ Hst) as (c1 & Hpl & Hc').
  destruct (pl_turn _ _ _ _ _ _ Hpl) as (u & Hu & Hus & Hui & Hut).
  destruct (pl_new _ _ _ _ _ _ Hpl Hfresh) as [Hperm Hseq]. rewrite Hu in Hperm, Hseq. cbn in Hperm, Hseq.
  injection Hseq as Hseq. pose proof (ok_turn _ (pl_ok _ _ _ _ _ _ Hpl) _ _ Hu) as (Hid & _). exists u.
  split_and!; [|done|by rewrite Hus]. rewrite (latest_of_ext _ _ c1) by done.
  eapply latest_of_new; [apply (pl_ok _ _ _ _ _ _ Hpl)|by rewrite Hid|done|done|done|apply (ok_turns _ Hc)].
Qed.

Lemma answer_keeps_turn now t i turn m rev c c' :
  current_turn t i turn c → message_stored now t i (thread_session_id blake2b t i) turn m rev c c' →
  current_turn t i turn c'.
Proof.
  intros [Hc (u & Hu & Hid & Hs)] Hst. split; [apply (st_ok _ _ _ _ _ _ _ _ _ Hst)|].
  destruct (st_turn _ _ _ _ _ _ _ _ _ Hst) as (c1 & Hpl & Hc'). exists u. split_and!; [|done..].
  rewrite (latest_of_ext _ _ c); [done|]. rewrite Hc'. apply (pl_old _ _ _ _ _ _ Hpl).
  unfold latest_of in Hu. destruct (ordered _ _ _) as [|v l]; [done|]. apply tenants_row_Some in Hu as (Hv & _).
  destruct (ok_turn _ Hc _ _ Hv) as [Hvid _]. rewrite <- Hid, Hvid. by exists u.
Qed.

(** Messages appended to a thread one after the other, none of them a question,
    none naming its session or turn; between them anything may happen that leaves
    the conversation tables alone. *)
Inductive answers (t i : string) : list AppendResult → conversations → conversations → Prop :=
| answers_none c : answers t i [] c c
| answers_one now ctx mid oid x mw s r s' rs c :
    tenant_id ctx = t → thread_id ctx = Some i → session_id ctx = None → turn_id ctx = None → sb_role x ≠ RUser →
    append_ now ctx mid oid x mw s = (Ok r, s') → ma_deduplicated (ap_ack r) = false →
    answers t i rs (cs_conv s') c → answers t i (r :: rs) (cs_conv s) c.

Lemma answers_stay t i rs c1 c2 : answers t i rs c1 c2 → ∀ turn, current_turn t i turn c1 → truthy i = true →
  Forall (λ a, ma_turn_id (ap_ack a) = turn ∧ ma_session_id (ap_ack a) = thread_session_id blake2b t i) rs.
Proof.
  induction 1 as [c|now ctx mid oid x mw s r s' rs c <- Hth Hsn Htn Hrole Hrun Hnew _ IH]; [constructor|].
  intros turn Hcur Hi. destruct (append_run now ctx mid oid x mw s r s' (proj1 Hcur) Hrun) as (_ & _ & c0 & Hopen & Hcases).
  destruct (opened_ok _ _ _ _ _ Hopen (proj1 Hcur)) as (Hc0 & _ & _ & Htu & _).
  rewrite Hth in *. cbn [default] in *. destruct (known_source _ x c0).
  { by destruct Hcases as (_ & _ & Hd & _); rewrite Hd in Hnew. }
  destruct Hcases as (session & turn' & m & Hs & Hu & _ & _ & _ & _ & _ & Hse & Hturn & Hst).
  destruct (own_lineage ctx (sb_role x) c0 i Hth Hi Hsn Htn) as [Hs' Hu']. rewrite Hs in Hs'. rewrite Hu in Hu'.
  injection Hs' as ->. injection Hu' as ->. destruct Hcur as [_ (u & Hlat & Hid & Hus)].
  assert (turn_for (tenant_id ctx) i (thread_session_id blake2b (tenant_id ctx) i) (sb_role x) c0 = turn) as Heq.
  { unfold turn_for. rewrite decide_False by done. rewrite (latest_of_ext _ _ (cs_conv s)) by done.
    by rewrite Hlat, Hus, String.eqb_refl. }
  rewrite Heq in *. constructor; [by rewrite Hturn, Hse|]. apply IH; [|done].
  eapply answer_keeps_turn; [|exact Hst]. split; [done|]. exists u. split_and!; [|done..].
  by rewrite (latest_of_ext _ _ (cs_conv s)).
Qed.

(** A question and everything said while answering it share a turn. A question
    that names no session and no turn opens a turn (here one whose derived id is
    not taken), in the thread's own session; every later message of the thread
    that names neither and is not a question joins that turn and session, until
    the next question. *)
Theorem answers_join_question now ctx mid oid x mw s r s' rs c :
  conv_ok (cs_conv s) → session_id ctx = None → turn_id ctx = None → sb_role x = RUser →
  append_ now ctx mid oid x mw s = (Ok r, s') → ma_deduplicated (ap_ack r) = false →
  cv_turns (cs_conv s) !! ma_turn_id (ap_ack r) = None →
  answers (tenant_id ctx) (default "" (thread_id ctx)) rs (cs_conv s') c →
  Forall (λ a, ma_turn_id (ap_ack a) = ma_turn_id (ap_ack r) ∧ ma_session_id (ap_ack a) = ma_session_id (ap_ack r)) rs.
Proof.
  intros Hc Hsn Htn Hrole Hrun Hnew Hfresh Hans.
  destruct (append_run now ctx mid oid x mw s r s' Hc Hrun) as (_ & Hi & c0 & Hopen & Hcases).
  destruct (opened_ok _ _ _ _ _ Hopen Hc) as (Hc0 & _ & _ & Htu & _).
  destruct (thread_id ctx) as [i|] eqn:Hth; [|done]. cbn [default] in *. destruct (known_source _ x c0).
  { by destruct Hcases as (_ & _ & Hd & _); rewrite Hd in Hnew. }
  destruct Hcases as (session & turn & m & Hs & Hu & _ & _ & _ & _ & _ & Hse & Hturn & Hst).
  destruct (own_lineage ctx (sb_role x) c0 i Hth Hi Hsn Htn) as [Hs' _]. rewrite Hs in Hs'. injection Hs' as Hs'.
  assert (current_turn (tenant_id ctx) i turn (cs_conv s')) as Hcur.
  { eapply question_opens_turn; [exact Hc0|exact Hst|by rewrite Htu, <- Hturn|done]. }
  rewrite Hse, Hs', Hturn. exact (answers_stay _ _ _ _ _ Hans _ Hcur Hi).
Qed.

End append_lemmas.

(** ** The cached list *)

Section caching.
#[local] Set Default Proof Using "Type".
Context {P C : Type} `{AuthorizationLaws P} `{Laws : CacheLaws C}.
Variable max_messages : nat.
Variable hot_ttl : Z.
Implicit Types s : conv_sys P C.

Definition cache_of (s : conv_sys P C) : C := az_cache (ts_authz (cs_sys s)).

Abbreviation cacheless m := (leaves (E := exn) cache_of m).
Abbreviation authz_cacheless m := (leaves (E := exn) (az_cache (P := P) (C := C)) m).
Abbreviation sys_cacheless m := (leaves (E := exn) (λ s : tenancy_sys P C, az_cache (ts_authz s)) m).

Lemma cacheless_conv {A} (m : cprog A) : cacheless (conv m).
Proof. by apply leaves_away. Qed.

Lemma cacheless_enqueue now spec : cacheless (enqueue_ now spec).
Proof. by apply leaves_away. Qed.

Lemma cacheless_in_sys {A} (m : prog (tenancy_sys P C) A) : sys_cacheless m → cacheless (in_sys m).
Proof. by apply (leaves_zoom cache_of (λ s : tenancy_sys P C, az_cache (ts_authz s)) cs_sys). Qed.

Lemma cacheless_in_authz {A} (m : prog (authz_state P C) A) : authz_cacheless m → sys_cacheless (in_authz m).
Proof. by apply (leaves_zoom (λ s : tenancy_sys P C, az_cache (ts_authz s)) az_cache ts_authz). Qed.

Lemma cacheless_provider {A} (m : prog P A) : authz_cacheless (on_provider m).
Proof. by apply leaves_away. Qed.

Lemma cacheless_revisions {A} (m : prog revisions A) : authz_cacheless (on_revisions m).
Proof. by apply leaves_away. Qed.

Lemma cacheless_in_db {A} (m : tdb A) : sys_cacheless (in_db m).
Proof. by apply leaves_away. Qed.

#[local] Hint Resolve cacheless_conv cacheless_enqueue cacheless_in_sys cacheless_in_authz cacheless_provider
  cacheless_revisions cacheless_in_db : frame.

Lemma cacheless_require ctx relation type i : authz_cacheless (require ctx relation type i).
Proof. unfold require, allowed, deny. auto 10 with frame. Qed.

Lemma cacheless_bump t k i : cacheless (bump_ t k i).
Proof. unfold bump_, authorize. auto 10 with frame. Qed.

Lemma cacheless_grant ctx i w b : authz_cacheless (grant_thread ctx i w b).
Proof. unfold grant_thread, bump_membership. auto 10 with frame. Qed.

#[local] Hint Resolve cacheless_require cacheless_bump cacheless_grant : frame.

Lemma cacheless_member ctx b : sys_cacheless (require_workspace_member ctx b).
Proof. unfold require_workspace_member. auto 15 with frame. Qed.

Lemma cacheless_label th : cacheless (label_thread th).
Proof. apply cacheless_in_sys, leaves_modify. intros s. by destruct (th_workspace th). Qed.

#[local] Hint Resolve cacheless_member cacheless_label : frame.

Lemma cacheless_create now ctx fresh i title custom ss st : cacheless (create_thread now ctx fresh i title custom ss st).
Proof. unfold create_thread, authorize. auto 20 with frame. Qed.

#[local] Hint Resolve cacheless_create : frame.

Variable blake2b : string → string.
Variable sha : string → string.
Variable detect_language : string → string.
Variable repr : json → string.
Variable archive_enabled : bool.

Abbreviation append_ := (append_message (P := P) (C := C) blake2b sha detect_language repr archive_enabled).

Lemma cacheless_store now ctx mid oid x i session turn :
  cacheless (store_message (P := P) (C := C) sha detect_language repr archive_enabled now ctx mid oid x i session turn).
Proof.
  unfold store_message. apply leaves_bind; [unfold ensure_session_and_turn; auto 20 with frame|intros _].
  apply leaves_bind; [unfold ensure_agent_run; auto 20 with frame|intros _]. unfold enqueue_jobs. auto 25 with frame.
Qed.

Lemma cacheless_append now ctx mid oid x mw : cacheless (append_ now ctx mid oid x mw).
Proof.
  unfold append_message. destruct (submission_problem ctx x); [auto with frame|].
  apply leaves_bind; [unfold asked, may_write_thread, authorize, allowed; destruct mw; auto 10 with frame|intros may].
  apply leaves_bind; [by apply cacheless_in_sys, leaves_modify|intros _].
  apply leaves_bind; [unfold open_thread, authorize; auto 20 with frame|intros _].
  unfold append_to. apply leaves_bind; [unfold stored_before; auto with frame|intros [m|]; [auto with frame|]].
  apply leaves_bind; [intros s; by rewrite lineage_eq|intros ctx'].
  destruct (session_id ctx') as [session|], (turn_id ctx') as [turn|]; try by apply leaves_raise.
  apply leaves_if; [apply cacheless_store|apply leaves_raise].
Qed.

Definition revision_of (i : string) (c : conversations) : Z := default 0 (th_revision <$> cv_threads c !! i).

(** What [HotThread] knows of thread [i]. *)
Definition hot_state (t i : string) (s : conv_sys P C) (gap : hot_gap) (commits : list (Message * Z)) : hstate (C := C) :=
  {| h_store := messages_of t i (cs_conv s); h_rev := revision_of i (cs_conv s); h_cache := cache_of s;
     h_gap := gap; h_commits := commits |}.

(** The cached list and the store are in a state the thread's life can reach. *)
Definition tracked (t i : string) (s : conv_sys P C) (gap : hot_gap) : Prop :=
  conv_ok (cs_conv s) ∧ ∃ c0 commits, reachable max_messages hot_ttl t i c0 (hot_state t i s gap commits).

Lemma hot_run {A} (m : prog C A) s :
  fst (hot m s) = fst (m (cache_of s)) ∧ cache_of (snd (hot m s)) = snd (m (cache_of s)) ∧
  cs_conv (snd (hot m s)) = cs_conv s.
Proof.
  unfold hot, authorize, in_sys, in_authz, on_az_cache, zoom, cache_of. by destruct (m (az_cache (ts_authz (cs_sys s)))).
Qed.

Lemma messages_of_row t i c m : conv_ok c → m ∈ messages_of t i c → ∃ r, r ∈ thread_rows t i c ∧ m = with_attachments c r.
Proof.
  intros Hc (r & -> & Hr)%list_elem_of_fmap. rewrite merge_sort_Permutation in Hr. by exists r.
Qed.

Lemma messages_of_undeleted t i c m : conv_ok c → m ∈ messages_of t i c → message_deleted_at m = None.
Proof.
  intros Hc (r & Hr & ->)%messages_of_row; [|done]. apply elem_thread_rows in Hr as [_ Hr]; [|done].
  by destruct (ok_message _ Hc _ _ Hr) as (_ & (_ & _ & Hd) & _).
Qed.

Lemma newest_shown t i c limit : conv_ok c →
  lastn limit (filter (λ m, shows None false m = true) (messages_of t i c)) = newest_visible limit (messages_of t i c).
Proof.
  intros Hc. unfold newest_visible. f_equal. apply list_filter_ext. intros m Hm. unfold shows.
  by rewrite (messages_of_undeleted t i c m Hc Hm), andb_true_r.
Qed.

(** A step that keeps the tables, and does to the cache only what time and
    evictions do. *)
Lemma tracked_env t i s s' b : tracked t i s b → cs_conv s' = cs_conv s →
  (stored_list (cache_of s') (hkey t i) = stored_list (cache_of s) (hkey t i) ∨ stored_list (cache_of s') (hkey t i) = []) →
  (entry (cache_of s') (rkey t i) = entry (cache_of s) (rkey t i) ∨ entry (cache_of s') (rkey t i) = None) →
  tracked t i s' b.
Proof.
  intros (Hc & c0 & k & Hreach) Hconv Hl He. split; [by rewrite Hconv|]. exists c0, k. unfold hot_state. rewrite Hconv.
  eapply reachable_step; [exact Hreach|]. by apply (step_env _ _ _ _ (hot_state t i s b k) (cache_of s')).
Qed.

Lemma stored_named m : Forall (λ a, at_message a = message_id m) (m_attachments m) → stored m = m.
Proof.
  intros Hall. unfold stored. assert (attachment_row m <$> m_attachments m = m_attachments m) as ->; [|by destruct m].
  induction Hall as [|a l Ha _ IH]; [done|]. rewrite fmap_cons, IH. f_equal. destruct a. cbn in Ha. by subst.
Qed.

Lemma revision_opened now t i c c' : opened now t i c c' → revision_of i c' = revision_of i c.
Proof.
  intros [_ [->|(th & _ & _ & Hrev & Hfresh & ->)]]; [done|]. unfold revision_of. cbn.
  rewrite lookup_insert_eq, Hfresh. cbn. by rewrite Hrev.
Qed.

Lemma next_is_last t i c m : conv_ok c → sequence m = Z.of_nat (length (messages_of t i c)) + 1 →
  (∀ x, x ∈ messages_of t i c → sequence x < sequence m) ∧ 1 ≤ sequence m.
Proof.
  intros Hc Hm. split; [|lia]. intros x Hx. apply (list_elem_of_fmap_2 sequence) in Hx.
  rewrite messages_of_sequence in Hx by done. apply elem_of_seqZ in Hx. lia.
Qed.

Hypothesis Hmax : (1 ≤ max_messages)%nat.
Hypothesis Httl : 0 < hot_ttl.

Lemma tracked_recent t i limit rev s b : tracked t i s b → tracked t i (snd (hot (recent t i limit rev) s)) b.
Proof using Laws.
  intros Ht. destruct (hot_run (recent t i limit rev) s) as (_ & Hcache & Hconv).
  destruct (recent_env t i limit rev (cache_of s)) as (Hl & He & _).
  apply (tracked_env t i s); [done..| |]; rewrite Hcache; [done|by left].
Qed.

Lemma tracked_refill t i limit s b : tracked t i s b → b ≠ Misled →
  ∃ b', b' ≠ Misled ∧ tracked t i (snd (hot (refill max_messages hot_ttl t i (newest_visible limit (messages_of t i (cs_conv s)))
                                 (revision_of i (cs_conv s))) s)) b'.
Proof using Laws.
  intros Ht Hb. remember (newest_visible limit (messages_of t i (cs_conv s))) as ms eqn:Hms. destruct (hot_run (refill max_messages hot_ttl t i ms (revision_of i (cs_conv s))) s)
    as (_ & Hcache & Hconv). set (s' := snd _) in *. destruct ms as [|m ms'].
  - exists b. split; [done|]. apply (tracked_env t i s); [done..| |]; rewrite Hcache; by left.
  - destruct Ht as (Hc & c0 & k & Hreach). set (h := hot_state t i s b k) in *.
    exists (h_gap (refilled max_messages hot_ttl t i h limit (h_store h) (h_rev h))). split.
    { cbn. destruct (up (cache_of s)); [|done]. by case_bool_decide. }
    split; [by rewrite Hconv|]. exists c0, k.
    assert (hot_state t i s' (h_gap (refilled max_messages hot_ttl t i h limit (h_store h) (h_rev h))) k =
      refilled max_messages hot_ttl t i h limit (h_store h) (h_rev h)) as ->.
    { unfold refilled, hot_state. cbn [h_store h_rev h_cache h_gap h_commits h hot_state]. rewrite Hconv, Hcache, Hms. done. }
    eapply reachable_step; [exact Hreach|]. apply step_refill; [done|apply Z.le_refl|done|].
    change (newest_visible limit (messages_of t i (cs_conv s)) ≠ []). by rewrite <- Hms.
Qed.

(** What [list_messages] does once the thread is found and the caller may read
    it. *)
Definition serve (t i : string) (limit : nat) (before : option Z) (inc : bool) (revision : Z) :
    prog (conv_sys P C) (list Message) :=
  let newest := negb inc && bool_decide (before = None) in
  bind (if newest then hot (recent t i (Z.of_nat limit) (Some revision)) else ret None) (λ cached,
  match cached with
  | Some l => ret l
  | None =>
      bind (conv (list_thread t i limit before inc)) (λ messages,
      bind (if newest then hot (refill max_messages hot_ttl t i messages revision) else ret tt) (λ _, ret messages))
  end).

Lemma list_messages_serve ctx i limit before inc s l s' : 
  list_messages max_messages hot_ttl ctx i limit before inc s = (Ok l, s') →
  ∃ s1, cs_conv s1 = cs_conv s ∧ cache_of s1 = cache_of s ∧
    serve (tenant_id ctx) i limit before inc (revision_of i (cs_conv s)) s1 = (Ok l, s').
Proof.
  intros Hrun. unfold list_messages, found in Hrun.
  apply bind_Ok_inv in Hrun as (th & s0 & Hfound & Hrun). erewrite bind_ok in Hfound; [|apply conv_gets].
  destruct (thread_of (tenant_id ctx) i (cs_conv s)) as [th'|] eqn:Hth; [|done]. injection Hfound as <- <-.
  apply tenants_row_Some in Hth as (Hth & _ & _). apply bind_Ok_inv in Hrun as ([] & s1 & Hreq & Hrun).
  exists s1. unfold revision_of. rewrite Hth. split_and!; [|eapply (leaves_run cache_of); [|exact Hreq]|exact Hrun].
  - by eapply leaves_run in Hreq; [|apply aside_authorize].
  - apply cacheless_in_sys, cacheless_in_authz, cacheless_require.
Qed.

Lemma serve_store t i limit before inc revision s l s' : conv_ok (cs_conv s) →
  negb inc && bool_decide (before = None) = false → serve t i limit before inc revision s = (Ok l, s') →
  s' = s ∧ l = lastn limit (filter (λ m, shows before inc m = true) (messages_of t i (cs_conv s))).
Proof.
  intros Hc Hn Hrun. unfold serve in Hrun. rewrite Hn in Hrun. apply bind_Ok_inv in Hrun as (? & ? & Hnone & Hrun).
  injection Hnone as <- <-. apply bind_Ok_inv in Hrun as (ms & s3 & Hms & Hrun).
  rewrite (conv_run (list_thread t i limit before inc) s), list_thread_spec in Hms by done. injection Hms as <- <-.
  injection Hrun as <- <-. by destruct s.
Qed.

Lemma serve_newest t i limit s l s' b : tracked t i s b → b ≠ Misled → (1 ≤ limit)%nat →
  serve t i limit None false (revision_of i (cs_conv s)) s = (Ok l, s') →
  l = newest_visible limit (messages_of t i (cs_conv s)) ∧ cs_conv s' = cs_conv s ∧ ∃ b', tracked t i s' b' ∧ b' ≠ Misled.
Proof using Hmax Httl Laws.
  intros Ht Hb Hlimit Hrun. pose proof Ht as (Hc & c0 & k & Hreach). unfold serve in Hrun. cbn [negb andb bool_decide] in Hrun.
  rewrite bool_decide_eq_true_2 in Hrun by done. apply bind_Ok_inv in Hrun as (cached & s2 & Hcached & Hrun).
  destruct (recent_is_newest max_messages hot_ttl t i c0 _ limit Hmax Httl Hlimit Hreach Hb) as (r & Hr & Hans).
  cbn [h_rev h_store h_cache hot_state] in Hr, Hans.
  pose proof (tracked_recent t i (Z.of_nat limit) (Some (revision_of i (cs_conv s))) s b Ht) as Ht2.
  destruct (hot_run (recent t i (Z.of_nat limit) (Some (revision_of i (cs_conv s)))) s) as (Hfst & _ & Hconv2).
  rewrite Hcached in *. cbn [fst snd] in *. rewrite Hr in Hfst. injection Hfst as ->. destruct r as [l'|].
  - injection Hrun as <- <-. destruct Hans as [|[= ->]]; [done|]. split_and!; [done..|by exists b].
  - apply bind_Ok_inv in Hrun as (ms & s3 & Hms & Hrun).
    rewrite (conv_run (list_thread t i limit None false) s2), list_thread_spec, Hconv2, newest_shown in Hms by by rewrite ?Hconv2.
    injection Hms as <- <-. apply bind_Ok_inv in Hrun as ([] & s4 & Hrefill & Hret). injection Hret as <- <-.
    assert (set_cs_conv (cs_conv s) s2 = s2) as Hsame by (rewrite <- Hconv2; by destruct s2). rewrite Hsame in Hrefill.
    destruct (tracked_refill t i limit s2 b Ht2 Hb) as (b' & Hb' & Ht'). rewrite Hconv2, Hrefill in Ht'. split_and!; [done| |by exists b'].
    match type of Hrefill with hot ?m _ = _ => pose proof (hot_run m s2) as (_ & _ & Hconv4) end.
    rewrite Hrefill in Hconv4. cbn in Hconv4. by rewrite Hconv4.
Qed.


(** An append and its push after the commit keep the cached list in step with
    the store: after them the thread is [tracked] again, with nothing missing if
    nothing was and the cache is up, so the next page is exact whichever side answers
    it; and only an internal message recorded with the cache up while a visible push
    is missing misleads it ([recent_stale_after_outage]). The attachments are taken to
    name their message already (the routes give a placeholder, which only the cached
    copy keeps and no response shows). *)
Theorem append_keeps_cache_fresh now ctx mid oid x mw s b r s1 s2 :
  let t := tenant_id ctx in let i := default "" (thread_id ctx) in
  tracked t i s b → Forall (λ a, at_message a = mid) (sb_attachments x) →
  append_ now ctx mid oid x mw s = (Ok r, s1) → after_commit max_messages hot_ttl r s1 = (Ok tt, s2) →
  ∃ b', tracked t i s2 b' ∧ (b = Whole → up (cache_of s) = true → b' = Whole) ∧
    (b ≠ Misled → kind_stored x = VISIBLE ∨ b = Whole ∨ up (cache_of s) = false → b' ≠ Misled) ∧ cs_conv s2 = cs_conv s1.
Proof using Type.
  intros t i Ht Hnamed Hrun Hafter. pose proof Ht as (Hc & c0 & k & Hreach).
  pose proof (cacheless_append now ctx mid oid x mw s) as Hcache. rewrite Hrun in Hcache. cbn [snd] in Hcache.
  destruct (append_run blake2b sha detect_language repr archive_enabled now ctx mid oid x mw s r s1 Hc Hrun)
    as (_ & _ & c & Hopen & Hcases). fold t i in Hopen, Hcases.
  destruct (opened_ok _ _ _ _ _ Hopen Hc) as (Hc1 & Hms & Has & _). pose proof (revision_opened _ _ _ _ _ Hopen) as Hrev.
  assert (messages_of t i c = messages_of t i (cs_conv s)) as Hsame by by apply messages_of_ext.
  unfold after_commit in Hafter. destruct (known_source t x c) as [m|].
  - destruct Hcases as (Hc' & Hnone & _). rewrite Hnone in Hafter. injection Hafter as <-. exists b.
    split_and!; [|done..]. split; [by rewrite Hc'|]. exists c0, k. unfold hot_state. by rewrite Hc', Hsame, Hrev, Hcache.
  - destruct Hcases as (session & turn & m & _ & _ & Hm & Hsome & _ & _ & _ & _ & _ & Hst). rewrite Hsome in Hafter.
    destruct (hot_run (append max_messages hot_ttl m (ap_revision r)) s1) as (_ & Hcache2 & Hconv2).
    rewrite Hafter in Hcache2, Hconv2. cbn [snd] in Hcache2, Hconv2. rewrite Hcache in Hcache2.
    pose proof (st_number _ _ _ _ _ _ _ _ _ Hst) as Hn. pose proof (st_messages _ _ _ _ _ _ _ _ _ Hst) as Happ.
    destruct (st_where _ _ _ _ _ _ _ _ _ Hst) as (Hmt & Hmi & _).
    destruct (st_thread _ _ _ _ _ _ _ _ _ Hst) as (th & Hth & Hths & Hrevision).
    rewrite Hsame in Hn, Happ. rewrite stored_named in Happ by by rewrite Hm.
    assert (revision_of i (cs_conv s) = th_revision th) as Hr by (rewrite <- Hrev; unfold revision_of; by rewrite Hth).
    set (h := hot_state t i s b k) in *. set (h' := after_append max_messages hot_ttl h m).
    assert (hot_state t i s2 (h_gap h') (h_commits h') = h') as Hh.
    { unfold h', h, hot_state, after_append, pushed, committed. cbn [h_store h_rev h_cache h_gap h_commits].
      rewrite Hconv2, Happ, Hcache2, Hr, <- Hrevision. f_equal. unfold revision_of. rewrite Hths, lookup_insert_eq. by rewrite Hrevision. }
    assert (visible m = bool_decide (kind_stored x = VISIBLE)) as Hv by by rewrite Hm.
    assert (newest_seq (messages_of t i (cs_conv s) ++ [m]) = Some (sequence m) ∨ visible m = false) as Hnew.
    { unfold newest_seq. rewrite vis_of_snoc. destruct (visible m); [left; by rewrite last_snoc|by right]. }
    exists (h_gap h'). split_and!; [|intros -> Hup|intros Hb Hok|done].
    + split; [rewrite Hconv2; apply (st_ok _ _ _ _ _ _ _ _ _ Hst)|]. exists c0, (h_commits h'). rewrite Hh.
      destruct (next_is_last t i (cs_conv s) m Hc Hn) as [Hlt Hpos].
      eapply reachable_step; [eapply reachable_step; [exact Hreach|by apply step_commit]|]. apply step_push. by left.
    + cbn. rewrite Hup. destruct (visible m); [|done]. destruct Hnew as [Hnew|]; [|done]. by rewrite bool_decide_eq_true_2.
    + cbn. destruct (up (cache_of s)); destruct (visible m); [| |discriminate|exact Hb].
      * destruct Hnew as [Hnew|]; [|discriminate]. by rewrite bool_decide_eq_true_2.
      * destruct Hok as [Hk|[->|Hf]]; [|discriminate|discriminate Hf]. symmetry in Hv. by apply bool_decide_eq_false in Hv.
Qed.
End caching.

(** ** Deleting a thread *)

Section deleting.
#[local] Set Default Proof Using "Type".
Context {P C : Type} `{AuthorizationLaws P} `{CacheLaws C}.
Variable blake2b : string → string.
Variable sha : string → string.
Variable detect_language : string → string.
Variable repr : json → string.
Variable max_messages : nat.
Variable hot_ttl : Z.
Variable archive_enabled : bool.
Implicit Types s : conv_sys P C.

Definition thread_gone (i : string) (c : conversations) : Prop :=
  ∃ th, cv_threads c !! i = Some th ∧ is_Some (th_deleted_at th).

Lemma thread_of_gone t i c : thread_gone i c → thread_of t i c = None.
Proof.
  intros (th & Hth & Hd). unfold thread_of, tenants_row, undeleted. rewrite Hth.
  rewrite bool_decide_eq_false_2 by by destruct Hd as [x ->]. by rewrite andb_false_r.
Qed.

(** Nothing creates a thread over a deleted one. *)
Lemma create_over_gone now ctx fresh i title custom ss st s : truthy i = true → thread_gone i (cs_conv s) →
  ∃ e, fst (create_thread now ctx fresh (Some i) title custom ss st s) = Raise e.
Proof.
  intros Hi Hgone. destruct (create_thread _ _ _ _ _ _ _ _ s) as [[th|e] s'] eqn:Hrun; [|by exists e]. exfalso.
  destruct (create_thread_run _ _ _ _ _ _ _ _ _ _ _ Hi Hrun) as [[x Hx] [Heq|(y & _ & _ & _ & Hnone & _)]].
  - by rewrite Heq, thread_of_gone in Hx.
  - destruct Hgone as (z & Hz & _). congruence.
Qed.

(** A deleted thread is over. Once [delete_thread] has returned, in every state
    in which the row is still deleted, the thread is not found by its readers,
    its window is empty, and no message is ever appended to it nor the thread
    created again under its id, by any caller of any tenant. *)
Theorem deleted_thread_stays_deleted now ctx i s s' :
  truthy i = true → delete_thread now ctx i s = (Ok tt, s') →
  thread_gone i (cs_conv s') ∧
  ∀ s2, thread_gone i (cs_conv s2) → ∀ ctx2 now2,
    get_thread ctx2 i s2 = (Raise (err NotFound "Thread not found"), s2) ∧
    (∀ limit before inc, list_messages max_messages hot_ttl ctx2 i limit before inc s2 =
                           (Raise (err NotFound "Thread not found"), s2)) ∧
    (∀ turns limit, window_messages ctx2 i turns limit s2 = (Ok [], s2)) ∧
    (∀ title custom fresh, ∃ e, fst (create_thread now2 ctx2 fresh (Some i) title custom None None s2) = Raise e) ∧
    (∀ mid oid x mw, thread_id ctx2 = Some i →
       ∃ e, fst (append_message blake2b sha detect_language repr archive_enabled now2 ctx2 mid oid x mw s2) = Raise e).
Proof.
  intros Hi Hrun. split.
  - unfold delete_thread, found in Hrun. apply bind_Ok_inv in Hrun as (th & s0 & Hfound & Hrun).
    erewrite bind_ok in Hfound; [|apply conv_gets].
    destruct (thread_of (tenant_id ctx) i (cs_conv s)) as [th'|] eqn:Hth; [|done]. injection Hfound as <- <-.
    apply bind_Ok_inv in Hrun as ([] & s1 & Hreq & Hrun). apply (leaves_run cs_conv _ s) in Hreq; [|apply aside_authorize].
    apply bind_Ok_inv in Hrun as (b & s2 & Hdel & Hrun). apply conv_inv in Hdel as [Hdel _].
    unfold threads_soft_delete in Hdel. rewrite Hreq, Hth in Hdel. injection Hdel as _ Hs2.
    apply (leaves_run cs_conv _ s2) in Hrun; [|unfold hot; auto 10 with frame]. rewrite Hrun, <- Hs2.
    exists (deleted_thread now th'). cbn. rewrite lookup_insert_eq. split; [done|by eexists].
  - intros s2 Hgone ctx2 now2. pose proof (thread_of_gone (tenant_id ctx2) i _ Hgone) as Hnone. split_and!.
    + unfold get_thread, found, bind, threads_get. rewrite conv_gets, Hnone. done.
    + intros. unfold list_messages, found, bind, threads_get. rewrite conv_gets, Hnone. done.
    + intros. unfold window_messages, bind, threads_get. rewrite conv_gets, Hnone. done.
    + intros. by apply create_over_gone.
    + intros mid oid x mw Hth.
      destruct (append_message _ _ _ _ _ _ _ _ _ _ _ s2) as [[r|e] s3] eqn:Hrun2; [|by exists e]. exfalso.
      apply append_start in Hrun2 as (_ & _ & s4 & [[y Hy] [Heq|(z & _ & _ & _ & Hfresh & _)]] & _); rewrite Hth in *.
      * cbn in Hy. by rewrite Heq, thread_of_gone in Hy.
      * destruct Hgone as (w & Hw & _). cbn in Hfresh. congruence.
Qed.
End deleting.

(** ** Instances *)

Definition no_conversations : conversations :=
  {| cv_threads := ∅; cv_sessions := ∅; cv_turns := ∅; cv_messages := ∅; cv_attachments := []; cv_runs := ∅;
     cv_observations := ∅ |}.
Definition conv_start : conv_sys provider MemoryCache :=
  {| cs_sys := bare; cs_conv := no_conversations; cs_outbox := {| ob_rows := ∅; ob_next := 1 |} |}.

Definition text (r : MessageRole) (k : MessageKind) (content_ : string) : submission :=
  {| sb_role := r; sb_content := content_; sb_kind := k; sb_attachments := []; sb_custom := None;
     sb_occurred_at := None; sb_source_system := None; sb_source_message := None; sb_parent := None;
     sb_tool_calls := []; sb_tool_call_id := None |}.
Definition imported (content_ : string) : submission :=
  {| sb_role := RUser; sb_content := content_; sb_kind := VISIBLE; sb_attachments := []; sb_custom := None;
     sb_occurred_at := None; sb_source_system := Some "slack"; sb_source_message := Some "42"; sb_parent := None;
     sb_tool_calls := []; sb_tool_call_id := None |}.

Definition helper : MemoryExecutionContext := ctx_of "acme" (Some "alice") (Some "t1") (Some "helper") None.

Definition unknown_language (_ : string) : string := "en".
Definition no_repr (_ : json) : string := "".

#[local] Notation demo_append := (append_message (P := provider) (C := MemoryCache) id_hash id_hash unknown_language no_repr true).

Lemma conv_ok_start : conv_ok no_conversations.
Proof. split; try done; [intros t th; apply numbered_nil..|]. intros a Ha. by apply elem_of_nil in Ha. Qed.

(** The listing shows what reading refuses. Alice's agent records an internal
    message; asked for it by id, Alice is refused, being neither an agent nor its
    author; asked for the thread with its internal messages, she is given it. *)
Theorem listing_shows_internal_messages :
  let s1 := snd (demo_append 100 alice "m1" "o1" (text RUser VISIBLE "hi") None conv_start) in
  let s2 := snd (demo_append 101 helper "m2" "o2" (text RTool INTERNAL "trace") None s1) in
  match fst (list_messages 200 3600 alice "t1" 10 None true s2), fst (get_message alice "m2" s2) with
  | Ok l, Raise e => content <$> l = ["hi"; "trace"] ∧
                     e = err ScopeDenied "Internal messages are not visible to this principal"
  | _, _ => False
  end.
Proof. vm_compute. split; reflexivity. Qed.

(** Deleting a thread leaves its messages readable by id. After Alice has
    deleted the thread, listing it answers that it does not exist, and reading one
    of its messages answers the message. *)
Theorem deleted_thread_serves_messages :
  let s1 := snd (demo_append 100 alice "m1" "o1" (text RUser VISIBLE "hi") None conv_start) in
  let s2 := snd (delete_thread 101 alice "t1" s1) in
  match fst (list_messages 200 3600 alice "t1" 10 None true s2), fst (get_message alice "m1" s2) with
  | Raise e, Ok m => e = err NotFound "Thread not found" ∧ content m = "hi"
  | _, _ => False
  end.
Proof. vm_compute. split; reflexivity. Qed.

(** The turn, the sequence and the duplicate flag an append answered with. *)
Definition fresh_ack (r : AppendResult) : bool := negb (ma_deduplicated (ap_ack r)).

Lemma append_message_numbers_witness :
  let s := snd (demo_append 100 alice "m1" "o1" (text RUser VISIBLE "hi") None conv_start) in
  content <$> messages_of "acme" "t1" (cs_conv s) = ["hi"] ∧ conv_ok (cs_conv s).
Proof.
  intros s. destruct (ran (λ r, bool_decide (content <$> ap_message r = Some "hi"))
    (demo_append 100 alice "m1" "o1" (text RUser VISIBLE "hi") None conv_start)) as (r & Hr & Hf);
    [vm_compute; reflexivity|].
  apply bool_decide_eq_true in Hf. unfold s. clear s. revert Hr.
  generalize (snd (demo_append 100 alice "m1" "o1" (text RUser VISIBLE "hi") None conv_start)). intros s Hr.
  destruct (append_message_numbers id_hash id_hash unknown_language no_repr true 100 alice "m1" "o1"
    (text RUser VISIBLE "hi") None conv_start r s conv_ok_start Hr) as (Hc & _ & Hm).
  split; [|exact Hc]. destruct (ap_message r) as [m|]; [|discriminate Hf]. injection Hf as Hf.
  destruct Hm as [Hm _]. change (messages_of "acme" "t1" (cs_conv s) = [] ++ [stored m]) in Hm.
  rewrite Hm. cbn. by rewrite Hf.
Defined.

Lemma imports_stored_once_witness :
  let s := snd (demo_append 100 alice "m1" "o1" (imported "hi") None conv_start) in
  ∃ r s', demo_append 200 alice "m2" "o2" (imported "hi again") None s = (Ok r, s') ∧
    ma_deduplicated (ap_ack r) = true ∧ ma_message_id (ap_ack r) = "m1".
Proof.
  destruct (ran (λ r, bool_decide (ma_message_id (ap_ack r) = "m1"))
    (demo_append 100 alice "m1" "o1" (imported "hi") None conv_start)) as (r & Hr & Hid); [vm_compute; reflexivity|].
  destruct (ran (λ _, true) (demo_append 200 alice "m2" "o2" (imported "hi again") None
    (snd (demo_append 100 alice "m1" "o1" (imported "hi") None conv_start)))) as (r2 & Hr2 & _); [vm_compute; reflexivity|].
  revert Hr2. generalize (snd (demo_append 200 alice "m2" "o2" (imported "hi again") None
    (snd (demo_append 100 alice "m1" "o1" (imported "hi") None conv_start)))). revert Hr.
  generalize (snd (demo_append 100 alice "m1" "o1" (imported "hi") None conv_start)). intros s Hr s2 Hr2.
  apply bool_decide_eq_true in Hid. exists r2, s2. split; [exact Hr2|].
  destruct (imports_stored_once id_hash id_hash unknown_language no_repr true 100 alice "m1" "o1" (imported "hi") None
    conv_start r s 200 alice "m2" "o2" (imported "hi again") None s r2 s2 conv_ok_start) as (Hd & _ & Hm & _);
    [eexists; reflexivity|exact Hr|reflexivity..|exact Hr2|].
  split; [exact Hd|]. rewrite Hm. exact Hid.
Defined.

Lemma answers_join_question_witness :
  let s := snd (demo_append 100 alice "m1" "o1" (text RUser VISIBLE "hi") None conv_start) in
  ∃ r a s', demo_append 100 alice "m1" "o1" (text RUser VISIBLE "hi") None conv_start = (Ok r, s) ∧
    demo_append 101 alice "m2" "o2" (text RAssistant VISIBLE "hello") None s = (Ok a, s') ∧
    ma_turn_id (ap_ack a) = ma_turn_id (ap_ack r).
Proof.
  destruct (ran fresh_ack (demo_append 100 alice "m1" "o1" (text RUser VISIBLE "hi") None conv_start))
    as (r & Hr & Hf); [vm_compute; reflexivity|].
  destruct (ran fresh_ack (demo_append 101 alice "m2" "o2" (text RAssistant VISIBLE "hello") None
    (snd (demo_append 100 alice "m1" "o1" (text RUser VISIBLE "hi") None conv_start)))) as (a & Ha & Hfa);
    [vm_compute; reflexivity|].
  revert Ha. generalize (snd (demo_append 101 alice "m2" "o2" (text RAssistant VISIBLE "hello") None
    (snd (demo_append 100 alice "m1" "o1" (text RUser VISIBLE "hi") None conv_start)))). revert Hr.
  generalize (snd (demo_append 100 alice "m1" "o1" (text RUser VISIBLE "hi") None conv_start)).
  intros s Hr s2 Ha. exists r, a, s2. split_and!; [exact Hr|exact Ha|].
  apply negb_true_iff in Hf. apply negb_true_iff in Hfa.
  pose proof (answers_join_question id_hash id_hash unknown_language no_repr true 100 alice "m1" "o1"
    (text RUser VISIBLE "hi") None conv_start r s [a] (cs_conv s2) conv_ok_start eq_refl eq_refl eq_refl Hr Hf
    eq_refl) as Hall.
  assert (answers id_hash id_hash unknown_language no_repr true (P := provider) (C := MemoryCache) "acme" "t1" [a] (cs_conv s) (cs_conv s2)) as Hans.
  { eapply (answers_one id_hash id_hash unknown_language no_repr true "acme" "t1" 101 alice "m2" "o2" (text RAssistant VISIBLE "hello") None);
      [reflexivity|reflexivity|reflexivity|reflexivity|discriminate|exact Ha|exact Hfa|constructor]. }
  specialize (Hall Hans). apply Forall_cons in Hall as [[Ht _] _]. exact Ht.
Defined.

Lemma tracked_start : tracked (P := provider) (C := MemoryCache) 200 3600 "acme" "t1" conv_start Whole.
Proof. split; [apply conv_ok_start|]. eexists _, []. apply reachable_start; vm_compute; reflexivity. Qed.

#[local] Notation hi_session := (thread_session_id id_hash "acme" "t1").
#[local] Notation hi_turn := (thread_turn_id id_hash "acme" "t1" 1).
Definition hello : Message :=
  new_message id_hash 100 (with_lineage hi_session hi_turn alice) "m1" (text RUser VISIBLE "hi") "t1" hi_session hi_turn 1.

(** The thread's first message is appended and pushed. *)
#[local] Notation first_message := (bind (demo_append 100 alice "m1" "o1" (text RUser VISIBLE "hi") None) (λ r,
  bind (after_commit 200 3600 r) (λ _, ret r))).

Lemma first_message_tracked : tracked 200 3600 "acme" "t1" (snd (first_message conv_start)) Whole.
Proof.
  assert (conv_ok (cs_conv (snd (first_message conv_start)))) as Hc.
  { destruct (ran (λ _, true) (demo_append 100 alice "m1" "o1" (text RUser VISIBLE "hi") None conv_start)) as (r & Hr & _);
      [vm_compute; reflexivity|].
    rewrite (bind_ok _ _ _ _ _ Hr). revert Hr.
    generalize (snd (demo_append 100 alice "m1" "o1" (text RUser VISIBLE "hi") None conv_start)). intros s Hr.
    pose proof (append_run id_hash id_hash unknown_language no_repr true 100 alice "m1" "o1" (text RUser VISIBLE "hi")
      None conv_start r s conv_ok_start Hr) as (_ & _ & c & Hopen & Hst).
    assert (cs_conv (snd (bind (after_commit (P := provider) (C := MemoryCache) 200 3600 r) (λ _, ret r) s)) = cs_conv s) as ->.
    { apply leaves_bind; [|intros; apply leaves_ret]. unfold after_commit, hot. destruct (ap_message r); auto 10 with frame. }
    destruct (opened_ok _ _ _ _ _ Hopen conv_ok_start) as (Hc & _).
    destruct (known_source _ _ c); [by destruct Hst as [-> _]|]. destruct Hst as (x & y & z & _ & _ & _ & _ & _ & _ & _ & _ & _ & Hst).
    apply (st_ok _ _ _ _ _ _ _ _ _ Hst). }
  split; [exact Hc|]. destruct tracked_start as (_ & c0 & k & Hreach). exists c0, ((hello, 1) :: k).
  assert (hot_state "acme" "t1" (snd (first_message conv_start)) Whole ((hello, 1) :: k) =
    after_append 200 3600 (hot_state "acme" "t1" conv_start Whole k) hello) as ->; [vm_compute; reflexivity|].
  apply (reachable_step _ _ _ _ _ (committed (hot_state "acme" "t1" conv_start Whole k) hello)).
  - eapply reachable_step; [exact Hreach|]. apply step_commit; [reflexivity|reflexivity|intros x Hx; by apply elem_of_nil in Hx|by vm_compute].
  - apply step_push. by left.
Qed.


Lemma append_keeps_cache_fresh_witness :
  ∃ r s1 s2, demo_append 100 alice "m1" "o1" (text RUser VISIBLE "hi") None conv_start = (Ok r, s1) ∧
    after_commit 200 3600 r s1 = (Ok tt, s2) ∧ tracked 200 3600 "acme" "t1" s2 Whole.
Proof.
  destruct (ran (λ _, true) (first_message conv_start)) as (r0 & Hrun & _); [vm_compute; reflexivity|].
  assert (up (cache_of (P := provider) conv_start) = true) as Hup by reflexivity. pose proof tracked_start as Ht.
  revert Hrun. generalize (snd (first_message conv_start)). revert Hup Ht. generalize conv_start.
  intros s0 Hup Ht s' Hrun. apply bind_Ok_inv in Hrun as (r & s1 & Hr & Hrun).
  apply bind_Ok_inv in Hrun as ([] & s2 & Hs2 & _).
  destruct (append_keeps_cache_fresh 200 3600 id_hash id_hash unknown_language no_repr true 100 alice "m1" "o1"
    (text RUser VISIBLE "hi") None s0 Whole r s1 s2) as (b & Hb & Hf & _);
    [exact Ht|constructor|exact Hr|exact Hs2|]. rewrite (Hf eq_refl Hup) in Hb. by exists r, s1, s2.
Defined.

Lemma deleted_thread_stays_deleted_witness :
  let s := snd (first_message conv_start) in
  match delete_thread 101 alice "t1" s with
  | (Ok _, s') => get_thread alice "t1" s' = (Raise (err NotFound "Thread not found"), s')
  | (Raise _, _) => False
  end.
Proof.
  intros s. destruct (ran (λ _, true) (delete_thread 101 alice "t1" s)) as ([] & Hd & _); [vm_compute; reflexivity|].
  unfold s in *. clear s. rewrite Hd. revert Hd.
  generalize (snd (delete_thread 101 alice "t1" (snd (first_message conv_start)))).
  generalize (snd (first_message conv_start)). intros s s' Hd.
  destruct (deleted_thread_stays_deleted id_hash id_hash unknown_language no_repr 200 3600 true 101 alice "t1" s s' eq_refl Hd)
    as [Hgone Hall]. exact (proj1 (Hall s' Hgone alice 0)).
Defined.
