(* ===== verification/Archive.v ===== *)
(** * The archive

    modules/archive/service.py over SqlArchiveRepository
    (adapters/db/repositories.py), the message repository, the outbox and the blob
    store: staged messages are written to an immutable segment, the segment is
    verified, its manifest and the messages' state are committed together, and
    only then may the payloads be purged. [ArchiveSettings] is the configuration;
    the segment ids and the clock are arguments. *)
From stdpp Require Import base gmap list strings sorting.
From Stdlib Require Import ZArith Lia Ascii String.
From S2P Require Import Prelude Json Errors Tasks Outbox Messages Segments Blob ConversationRepo Conversation.
#[local] Open Scope string_scope.
#[local] Open Scope Z_scope.

(** ** SqlArchiveRepository *)

Definition UPLOADING : string := "UPLOADING".
Definition VERIFIED : string := "VERIFIED".
Definition FAILED : string := "FAILED".

(** The domain object, with the row's [created_at]. *)
Record ArchiveSegment := {
  sg_id : string;
  sg_tenant : string;
  sg_kind : string;
  sg_thread : option string;
  sg_document : option string;
  sg_bucket : string;
  sg_key : string;
  sg_generation : option string;
  sg_size : Z;
  sg_raw : Z;
  sg_checksum : string;
  sg_count : Z;
  sg_first : option Z;
  sg_last : option Z;
  sg_first_at : option Z;
  sg_last_at : option Z;
  sg_status : string;
  sg_manifest : json;
  sg_verified_at : option Z;
  sg_error : option string;
  sg_created_at : Z;
}.

Abbreviation segments := (gmap string ArchiveSegment).

(** The primary key, and [uq_archive_segments_key]. *)
Definition segments_add (g : ArchiveSegment) : prog segments unit :=
  λ m, if bool_decide (is_Some (m !! sg_id g))
          || existsb (λ h, String.eqb (sg_bucket h) (sg_bucket g) && String.eqb (sg_key h) (sg_key g)) (rows m)
       then (Raise IntegrityError, m)
       else (Ok tt, <[sg_id g := g]> m).

Definition segments_get (i : string) : prog segments (option ArchiveSegment) := gets (lookup i).

Definition verified_segment (generation : option string) (at_ : Z) (g : ArchiveSegment) : ArchiveSegment :=
  {| sg_id := sg_id g; sg_tenant := sg_tenant g; sg_kind := sg_kind g; sg_thread := sg_thread g;
     sg_document := sg_document g; sg_bucket := sg_bucket g; sg_key := sg_key g; sg_generation := generation;
     sg_size := sg_size g; sg_raw := sg_raw g; sg_checksum := sg_checksum g; sg_count := sg_count g;
     sg_first := sg_first g; sg_last := sg_last g; sg_first_at := sg_first_at g; sg_last_at := sg_last_at g;
     sg_status := VERIFIED; sg_manifest := sg_manifest g; sg_verified_at := Some at_; sg_error := None;
     sg_created_at := sg_created_at g |}.

Definition mark_verified (i : string) (generation : option string) (at_ : Z) : prog segments unit :=
  modify (alter (verified_segment generation at_) i).

Definition failed_segment (error : string) (g : ArchiveSegment) : ArchiveSegment :=
  {| sg_id := sg_id g; sg_tenant := sg_tenant g; sg_kind := sg_kind g; sg_thread := sg_thread g;
     sg_document := sg_document g; sg_bucket := sg_bucket g; sg_key := sg_key g; sg_generation := sg_generation g;
     sg_size := sg_size g; sg_raw := sg_raw g; sg_checksum := sg_checksum g; sg_count := sg_count g;
     sg_first := sg_first g; sg_last := sg_last g; sg_first_at := sg_first_at g; sg_last_at := sg_last_at g;
     sg_status := FAILED; sg_manifest := sg_manifest g; sg_verified_at := sg_verified_at g;
     sg_error := Some (substring 0 2000 error); sg_created_at := sg_created_at g |}.

Definition mark_segment_failed (i error : string) : prog segments unit := modify (alter (failed_segment error) i).

Definition list_by_status (status : string) (older_than : option Z) (limit : nat) : prog segments (list ArchiveSegment) :=
  gets (λ m, ordered (ascending sg_created_at) (Some limit)
               (filter (λ g, String.eqb (sg_status g) status
                            && match older_than with Some x => Z.leb (sg_created_at g) x | None => true end = true)
                  (rows m))).

(** ORDER BY first_sequence; NULL last. *)
Definition first_le (g h : ArchiveSegment) : Prop :=
  match sg_first g, sg_first h with
  | Some x, Some y => x ≤ y
  | None, Some _ => False
  | _, None => True
  end.
#[export] Instance first_le_dec g h : Decision (first_le g h).
Proof. unfold first_le. destruct (sg_first g), (sg_first h); apply _. Defined.

Definition list_for_thread (t th : string) : prog segments (list ArchiveSegment) :=
  gets (λ m, ordered first_le None (filter (λ g, sg_tenant g = t ∧ sg_thread g = Some th) (rows m))).

Definition list_verified (limit offset : nat) : prog segments (list ArchiveSegment) :=
  gets (λ m, take limit (drop offset (ordered (ascending sg_created_at) None (filter (λ g, sg_status g = VERIFIED) (rows m))))).

(** ** ArchiveService *)

(** config/constants.py. *)
Record ArchiveSettings := {
  ar_target_bytes : Z;
  ar_max_messages : Z;
  ar_zstd_level : Z;
  ar_purge_grace : Z;
  ar_purge_min_bytes : Z;
  ar_tenant_shards : Z;
}.

(** The database and the blob store. *)
Record archive_db := {
  ad_conv : conversations;
  ad_segments : segments;
  ad_outbox : outbox;
}.

Record archive_sys {B : Type} := {
  as_db : archive_db;
  as_blob : B;
}.
Arguments archive_sys : clear implicits.

Record report := {
  rp_requeued_threads : nat;
  rp_uploading_repaired : nat;
  rp_failed_requeued : nat;
  rp_verify_mismatch : nat;
  rp_verify_unreadable : nat;
}.

(** The job a reconcile queues: [archive_job] without its delay. *)
Definition requeue_job (t th : string) : JobSpec :=
  {| js_task := TASK_ARCHIVE_STAGE; js_queue := ARCHIVE; js_payload := JObj (thread_payload t th);
     js_idempotency_key := Some ("archive:thread:" +:+ t +:+ ":" +:+ th);
     js_lock := Some ("archive:" +:+ t +:+ ":" +:+ th); js_priority := None; js_schedule := None; js_tenant := Some t |}.

(** Pairs of texts as Python orders tuples. *)
Definition pair_le (x y : string * string) : Prop := if decide (x.1 = y.1) then str_le x.2 y.2 else str_le x.1 y.1.
#[export] Instance pair_le_dec x y : Decision (pair_le x y).
Proof. unfold pair_le. case_decide; apply _. Defined.

(** [try: ... except Exception]. *)
Definition attempt {S A} (m : prog S A) : prog S (res A) := λ s, let '(r, s') := m s in (Ok r, s').

Definition on_conv {A} (m : cprog A) : prog archive_db A :=
  zoom ad_conv (λ c d, {| ad_conv := c; ad_segments := ad_segments d; ad_outbox := ad_outbox d |}) m.
Definition on_segments {A} (m : prog segments A) : prog archive_db A :=
  zoom ad_segments (λ x d, {| ad_conv := ad_conv d; ad_segments := x; ad_outbox := ad_outbox d |}) m.
Definition on_jobs {A} (m : oprog A) : prog archive_db A :=
  zoom ad_outbox (λ x d, {| ad_conv := ad_conv d; ad_segments := ad_segments d; ad_outbox := x |}) m.

(** The ids a manifest lists. *)
Definition manifest_ids (manifest : json) : list string :=
  match jget "message_ids" manifest with
  | Some (JList l) => omap str_of l
  | _ => []
  end.

Section service.
#[local] Set Default Proof Using "Type".
Context {B : Type} `{BlobStore B}.
Variable sha : string → string.
Variable compress : Z → string → string.
Variable decompress : string → option string.
Variable repr : json → string.
Variable cfg : ArchiveSettings.
Variable chat_bucket : string.

Abbreviation sys := (archive_sys B).
Abbreviation aprog A := (prog sys A).

Definition set_db (d : archive_db) (s : sys) : sys := {| as_db := d; as_blob := as_blob s |}.
Definition set_blob (b : B) (s : sys) : sys := {| as_db := as_db s; as_blob := b |}.

(** A unit of work that ends in its commit; an exception leaves the database as it
    was. *)
Definition in_tx {A} (m : prog archive_db A) : aprog A :=
  λ s, match m (as_db s) with
       | (Ok a, d) => (Ok a, set_db d s)
       | (Raise e, _) => (Raise e, s)
       end.
Definition blob {A} (m : prog B A) : aprog A := zoom as_blob set_blob m.

(** The row of a segment that is about to be uploaded. *)
Definition uploading (now : Z) (t th : string) (b : BuiltSegment) (count : Z) : ArchiveSegment :=
  {| sg_id := bs_id b; sg_tenant := t; sg_kind := "chat"; sg_thread := Some th; sg_document := None;
     sg_bucket := chat_bucket; sg_key := bs_key b; sg_generation := None;
     sg_size := Z.of_nat (String.length (bs_data b)); sg_raw := bs_raw_bytes b; sg_checksum := bs_checksum b;
     sg_count := count; sg_first := Some (bs_first_sequence b); sg_last := Some (bs_last_sequence b);
     sg_first_at := Some (bs_first_at b); sg_last_at := Some (bs_last_at b); sg_status := UPLOADING;
     sg_manifest := bs_manifest b; sg_verified_at := None; sg_error := None; sg_created_at := now |}.

(** The upload and its verification. *)
Definition upload (b : BuiltSegment) : aprog (BlobRef * bool) :=
  bind (blob (bl_put chat_bucket (bs_key b) (bs_data b) (Some (bs_checksum b)) (Some 0))) (λ ref,
  bind (blob (bl_verify ref)) (λ verified, ret (ref, verified))).

(** The manifest verified and the messages archived, in one transaction. *)
Definition confirm (i : string) (generation : option string) (at_ : Z) (ids : list string) : prog archive_db unit :=
  bind (on_segments (mark_verified i generation at_)) (λ _,
  bind (on_conv (mark_archived ids i at_)) (λ _, ret tt)).

Definition archive_messages (segment_id : string) (now : Z) (t th : string) (messages : list Message) : aprog string :=
  match build_segment sha compress segment_id now messages t th (ar_tenant_shards cfg) (ar_zstd_level cfg) with
  | Raise e => raise e
  | Ok built =>
      bind (in_tx (on_segments (segments_add (uploading now t th built (Z.of_nat (length messages)))))) (λ _,
      bind (attempt (upload built)) (λ result,
      match result with
      | Raise e =>
          bind (in_tx (on_segments (mark_segment_failed (bs_id built) (exn_text e)))) (λ _,
          raise (err DependencyUnavailable ("blob store unavailable: " +:+ exn_name e)))
      | Ok (_, false) =>
          bind (in_tx (on_segments (mark_segment_failed (bs_id built) "verification failed"))) (λ _,
          raise (err CorruptSource ("segment " +:+ bs_id built +:+ " failed verification; messages stay STAGED")))
      | Ok (ref, true) =>
          bind (in_tx (confirm (bs_id built) (br_generation ref) now (bs_message_ids built))) (λ _, ret (bs_id built))
      end))
  end.

(** [staged.sort(key=lambda m: m.sequence)]. *)
Definition by_sequence (l : list Message) : list Message := merge_sort (ascending sequence) l.

Fixpoint archive_plans (fresh : nat → string) (now : Z) (t th : string) (k : nat) (plans : list SegmentPlan) :
    aprog (list string) :=
  match plans with
  | [] => ret []
  | p :: l =>
      bind (archive_messages (fresh k) now t th (sp_messages p)) (λ i,
      bind (archive_plans fresh now t th (S k) l) (λ ids, ret (i :: ids)))
  end.

Definition archive_thread (fresh : nat → string) (now : Z) (t th : string) : aprog (list string) :=
  bind (in_tx (on_conv (list_staged None (Z.to_nat (ar_max_messages cfg * 4)) (Some t) (Some th)))) (λ staged,
  match staged with
  | [] => ret []
  | _ => archive_plans fresh now t th 0 (plan_segments (by_sequence staged) (ar_target_bytes cfg) (ar_max_messages cfg))
  end).

Definition purge_staged_payloads (now : Z) (limit : nat) : aprog Z :=
  in_tx (on_conv (purge_payloads (now - ar_purge_grace cfg) (ar_purge_min_bytes cfg) limit)).

(** The loop over the records of one segment: the text of the message, [None] when
    no record is its. A line that is not JSON raises when it is reached. *)
Fixpoint find_record (m : Message) (records : list (option json)) : res (option string) :=
  match records with
  | [] => Ok None
  | None :: _ => Raise (ValueError "not JSON")
  | Some record :: l =>
      match jget "message_id" record with
      | None => Raise (KeyError "message_id")
      | Some i =>
          if bool_decide (i = JStr (message_id m)) then
            match jget "content_hash" record with
            | None => Raise (KeyError "content_hash")
            | Some h =>
                if bool_decide (h = JStr (content_hash m)) then
                  match jget "content" record with
                  | None => Raise (KeyError "content")
                  | Some c => Ok (Some (py_str repr c))
                  end
                else Raise (err CorruptSource "archived content hash does not match the canonical record")
            end
          else find_record m l
      end
  end.

Definition in_range (m : Message) (g : ArchiveSegment) : bool :=
  String.eqb (sg_status g) VERIFIED && Z.leb (default 0 (sg_first g)) (sequence m) && Z.leb (sequence m) (default 0 (sg_last g)).

Fixpoint search_segments (m : Message) (l : list ArchiveSegment) : aprog string :=
  match l with
  | [] => raise (err NotFound ("archived content for " +:+ message_id m +:+ " not found"))
  | g :: l =>
      if in_range m g then
        bind (blob (bl_get (sg_bucket g) (sg_key g) (sg_generation g))) (λ data,
        match read_segment decompress data with
        | None => raise (Other "ZstdError" "")
        | Some records =>
            match find_record m records with
            | Raise e => raise e
            | Ok (Some text) => ret text
            | Ok None => search_segments m l
            end
        end)
      else search_segments m l
  end.

Definition load_message_content (m : Message) : aprog string :=
  if decide (archive_status m = PURGED) then
    bind (in_tx (on_segments (list_for_thread (m_tenant_id m) (m_thread_id m)))) (search_segments m)
  else ret (content m).

(** *** Reconciliation *)

Fixpoint mapM_list {S A C} (f : A → prog S C) (l : list A) : prog S (list C) :=
  match l with
  | [] => ret []
  | x :: l => bind (f x) (λ y, bind (mapM_list f l) (λ ys, ret (y :: ys)))
  end.

Definition count_true (l : list bool) : nat := length (filter (λ b, b = true) l).

(** Whether an upload whose commit is missing is there: the object and whether it
    is verified. *)
Definition intact (g : ArchiveSegment) : aprog (option BlobRef * bool) :=
  bind (attempt (blob (bl_head (sg_bucket g) (sg_key g)))) (λ head,
  match head with
  | Raise _ => ret (None, false)
  | Ok ref =>
      if String.eqb (br_checksum ref) (sg_checksum g) then
        bind (attempt (blob (bl_verify ref))) (λ v, ret (Some ref, match v with Ok b => b | Raise _ => false end))
      else ret (Some ref, false)
  end).

(** Whether the segment was repaired. *)
Definition repair (now : Z) (g : ArchiveSegment) : aprog bool :=
  bind (intact g) (λ '(head, ok),
  match head, ok with
  | Some ref, true =>
      bind (in_tx (confirm (sg_id g) (br_generation ref) now (manifest_ids (sg_manifest g)))) (λ _, ret true)
  | _, _ =>
      bind (in_tx (on_segments (mark_segment_failed (sg_id g) "object missing or unverifiable at reconcile"))) (λ _, ret false)
  end).

(** A verified segment read again: unreadable ([None]), or whether it no longer
    matches, in which case it is quarantined. *)
Definition recheck (g : ArchiveSegment) : aprog (option bool) :=
  bind (attempt (bind (blob (bl_head (sg_bucket g) (sg_key g))) (λ ref,
                 if String.eqb (br_checksum ref) (sg_checksum g)
                 then bind (blob (bl_verify ref)) (λ v, ret (negb v)) else ret true))) (λ r,
  match r with
  | Raise _ => ret None
  | Ok true => bind (in_tx (on_segments (mark_segment_failed (sg_id g) "checksum mismatch at reconcile"))) (λ _, ret (Some true))
  | Ok false => ret (Some false)
  end).

(** One transaction queues the threads whose messages are staged for too long. *)
Definition requeue (now : Z) (threads : list (string * string)) : aprog nat :=
  match threads with
  | [] => ret 0%nat
  | _ =>
      bind (in_tx (mapM_list (λ '(t, th), on_jobs (add_job now (requeue_job t th))) threads)) (λ ids,
      ret (count_true ((λ i, bool_decide (is_Some i)) <$> ids)))
  end.

(** The threads of some messages: [sorted({(m.tenant_id, m.thread_id) ...})]. *)
Definition threads_of (l : list Message) : list (string * string) :=
  merge_sort pair_le (fromkeys ((λ m, (m_tenant_id m, m_thread_id m)) <$> l)).

Definition reconcile (now stale_after : Z) (verify_sample : nat) : aprog report :=
  let stale := now - stale_after in
  bind (in_tx (on_conv (list_staged (Some stale) 2000 None None))) (λ staged,
  bind (in_tx (on_segments (list_by_status UPLOADING (Some stale) 200))) (λ uploading_,
  bind (in_tx (on_segments (list_by_status FAILED (Some stale) 200))) (λ failed,
  bind (in_tx (on_segments (list_verified verify_sample 0))) (λ verified,
  bind (requeue now (threads_of staged)) (λ requeued,
  bind (mapM_list (repair now) (uploading_ ++ failed)%list) (λ repaired,
  bind (mapM_list recheck verified) (λ checked,
  ret {| rp_requeued_threads := requeued;
         rp_uploading_repaired := count_true repaired;
         rp_failed_requeued := length repaired - count_true repaired;
         rp_verify_mismatch := length (filter (λ c, c = Some true) checked);
         rp_verify_unreadable := length (filter (λ c, c = None) checked) |}))))))).

End service.

(** *** The lifecycle of the bucket *)

Record BlobLifecycle := { lc_policy : string; lc_nearline : Z; lc_coldline : Z; lc_archive : Z }.

Definition lifecycle_policy (l : BlobLifecycle) : json :=
  if String.eqb (lc_policy l) "autoclass" then
    JObj [("autoclass", JObj [("enabled", JBool true); ("terminalStorageClass", JStr "ARCHIVE")])]
  else
    JObj [("lifecycle", JObj [("rule", JList ((λ '(class, days),
      JObj [("action", JObj [("type", JStr "SetStorageClass"); ("storageClass", JStr class)]);
            ("condition", JObj [("age", JNum days)])]) <$>
      [("NEARLINE", lc_nearline l); ("COLDLINE", lc_coldline l); ("ARCHIVE", lc_archive l)]))])].
