(* ===== verification/ArchiveSafety.v ===== *)
(** * The archive loses nothing

    The steps of [Archive] as a transition system: every transaction and every call
    of the blob store is a step of its own, so a crash, a lost answer or another
    worker may come between any two of them. The invariant of its reachable states
    is what modules/archive/service.py promises: a payload leaves the database only
    when a stored segment holds it. *)
From stdpp Require Import base gmap list strings sorting relations.
From Stdlib Require Import ZArith Lia Ascii String.
From S2P Require Import Prelude Json Errors Context AuthzService TenancyService Outbox Messages Segments Blob ConversationRepo Conversation Archive.
#[local] Open Scope string_scope.
#[local] Open Scope Z_scope.

(** ** What archiving leaves of a message *)

(** A message without its attachments, as [list_staged] reads it. *)
Definition bare_message (m : Message) : Message := shown (content m) [] m.

(** [x] is the message [y] but for its state of archival. *)
Record kin (x y : Message) : Prop := {
  kin_id : message_id x = message_id y;
  kin_content : content x = content y;
  kin_hash : content_hash x = content_hash y;
  kin_sequence : sequence x = sequence y;
  kin_tenant : m_tenant_id x = m_tenant_id y;
  kin_thread : m_thread_id x = m_thread_id y;
  kin_record : message_record (bare_message x) = message_record (bare_message y);
}.

#[export] Instance kin_equiv : Equivalence kin.
Proof.
  split; [done|intros x y []; split; congruence|].
  intros x y z [] []; split; congruence.
Qed.

(** A row's payload: [mr_message] keeps the text the message was stored with, so a
    row whose payload is there shows it, and one whose payload was purged does
    not. *)
Record row_wf (i : string) (r : message_row) : Prop := {
  rw_id : message_id (mr_message r) = i;
  rw_payload : mr_content r = None ∨ mr_content r = Some (content (mr_message r));
  rw_staged : archive_status (mr_message r) = STAGED → mr_content r <> None;
  rw_known : archive_status (mr_message r) ≠ ARCHIVING;
}.

Lemma kin_set_archive st m : kin (set_archive st m) m.
Proof. done. Qed.

Lemma kin_row_to_message r a : mr_content r = Some (content (mr_message r)) → kin (row_to_message r a) (mr_message r).
Proof. intros Hc. unfold row_to_message. rewrite Hc. done. Qed.

Section safety.
#[local] Set Default Proof Using "Type".
Context {B : Type} (sha : string → string) `{BlobLaws B sha}.
Variable compress : Z → string → string.
Variable cfg : ArchiveSettings.
Variable chat_bucket : string.

Abbreviation build i now ms t th := (build_segment sha compress i now ms t th (ar_tenant_shards cfg) (ar_zstd_level cfg)).

(** The system, and the messages every segment was built from. *)
Record world := { w_sys : archive_sys B; w_built : gmap string (list Message) }.

Abbreviation messages w := (cv_messages (ad_conv (as_db (w_sys w)))).
Abbreviation segs w := (ad_segments (as_db (w_sys w))).
Abbreviation stored w := (stored_at (as_blob (w_sys w))).

Definition with_db (f : archive_db → archive_db) (w : world) : world :=
  {| w_sys := set_db (f (as_db (w_sys w))) (w_sys w); w_built := w_built w |}.
Definition put_segments (x : segments) (d : archive_db) : archive_db :=
  {| ad_conv := ad_conv d; ad_segments := x; ad_outbox := ad_outbox d |}.
Definition put_conv (c : conversations) (d : archive_db) : archive_db :=
  {| ad_conv := c; ad_segments := ad_segments d; ad_outbox := ad_outbox d |}.

(** [m] is a message of the thread, as its row has it. *)
Definition taken (t th : string) (c : conversations) (m : Message) : Prop :=
  m_tenant_id m = t ∧ m_thread_id m = th ∧ m = bare_message m ∧ ∃ r, cv_messages c !! message_id m = Some r ∧ kin m (mr_message r).

(** Messages by their sequence. *)
Definition in_order (ms : list Message) : Prop := StronglySorted (ascending sequence) ms.

(** [w] built the segment [i], registered as [g], from [ms]. *)
Record describes (w : world) (i : string) (g : ArchiveSegment) (ms : list Message) : Prop := {
  ds_built : w_built w !! i = Some ms;
  ds_segment : ∃ now t th b, build i now ms t th = Ok b ∧ sg_tenant g = t ∧ sg_thread g = Some th ∧
    sg_key g = bs_key b ∧ sg_first g = Some (bs_first_sequence b) ∧ sg_last g = Some (bs_last_sequence b) ∧
    sg_manifest g = bs_manifest b ∧ sg_checksum g = bs_checksum b ∧ in_order ms ∧
    Forall (taken t th (ad_conv (as_db (w_sys w)))) ms ∧
    (∀ d ref, stored w !! (sg_bucket g, sg_key g) = Some (d, ref) → d = bs_data b);
  ds_id : sg_id g = i;
  ds_bucket : sg_bucket g = chat_bucket;
  ds_verified : sg_status g = VERIFIED →
    ∃ d ref, stored w !! (sg_bucket g, sg_key g) = Some (d, ref) ∧ br_generation ref = sg_generation g;
}.

(** A stored segment holds the message of row [r]. Where no verified segment was
    ever quarantined ([q] is false) it is a verified one. *)
Definition kept (q : bool) (w : world) (r : message_row) : Prop :=
  ∃ i g ms m, segs w !! i = Some g ∧ w_built w !! i = Some ms ∧ m ∈ ms ∧ kin m (mr_message r) ∧
    is_Some (stored w !! (sg_bucket g, sg_key g)) ∧ (q = false → sg_status g = VERIFIED).

Record safe (q : bool) (w : world) : Prop := {
  sf_rows i r : messages w !! i = Some r → row_wf i r;
  sf_kept i r : messages w !! i = Some r → archive_status (mr_message r) ≠ STAGED → kept q w r;
  sf_segments i g : segs w !! i = Some g → ∃ ms, describes w i g ms;
  sf_keys i j g h : segs w !! i = Some g → segs w !! j = Some h → sg_key g = sg_key h → i = j;
  sf_objects k o : stored w !! (chat_bucket, k) = Some o → ∃ i g, segs w !! i = Some g ∧ sg_key g = k;
}.

(** *** The steps *)

(** Messages may be added, staged with their payload; nothing else is done to
    them. *)
Definition only_added (c c' : conversations) : Prop :=
  (∀ i r, cv_messages c !! i = Some r → cv_messages c' !! i = Some r) ∧
  (∀ i r, cv_messages c !! i = None → cv_messages c' !! i = Some r →
     message_id (mr_message r) = i ∧ mr_content r = Some (content (mr_message r)) ∧ archive_status (mr_message r) = STAGED).

Inductive wstep (q : bool) (w : world) : world → Prop :=
| step_register now i t th ms b count x :
    build i now ms t th = Ok b → in_order ms → Forall (taken t th (ad_conv (as_db (w_sys w)))) ms →
    segments_add (uploading chat_bucket now t th b count) (segs w) = (Ok tt, x) →
    wstep q w {| w_sys := set_db (put_segments x (as_db (w_sys w))) (w_sys w); w_built := <[i := ms]> (w_built w) |}
| step_put now i t th ms b g r s' :
    segs w !! i = Some g → w_built w !! i = Some ms → build i now ms t th = Ok b → sg_key g = bs_key b →
    bl_put chat_bucket (bs_key b) (bs_data b) (Some (bs_checksum b)) (Some 0) (as_blob (w_sys w)) = (r, s') →
    wstep q w {| w_sys := set_blob s' (w_sys w); w_built := w_built w |}
| step_confirm i g d ref at_ d' :
    segs w !! i = Some g → stored w !! (sg_bucket g, sg_key g) = Some (d, ref) →
    confirm i (br_generation ref) at_ (manifest_ids (sg_manifest g)) (as_db (w_sys w)) = (Ok tt, d') →
    wstep q w (with_db (λ _, d') w)
| step_fail i error :
    (∀ g, segs w !! i = Some g → q = true ∨ sg_status g ≠ VERIFIED) →
    wstep q w (with_db (put_segments (alter (failed_segment error) i (segs w))) w)
| step_purge before min_bytes limit n c :
    purge_payloads before min_bytes limit (ad_conv (as_db (w_sys w))) = (Ok n, c) →
    wstep q w (with_db (put_conv c) w)
| step_messages c : only_added (ad_conv (as_db (w_sys w))) c → wstep q w (with_db (put_conv c) w)
| step_jobs o : wstep q w (with_db (λ d, {| ad_conv := ad_conv d; ad_segments := ad_segments d; ad_outbox := o |}) w)
| step_blob s' : stored_at s' = stored w → wstep q w {| w_sys := set_blob s' (w_sys w); w_built := w_built w |}.

(** *** Preservation *)

(** Rows keep their messages. *)
Definition rows_kin (c c' : conversations) : Prop :=
  ∀ i r, cv_messages c !! i = Some r → ∃ r', cv_messages c' !! i = Some r' ∧ kin (mr_message r) (mr_message r').

Lemma taken_kin t th c c' m : rows_kin c c' → taken t th c m → taken t th c' m.
Proof.
  intros Hc (Ht & Hth & Hbare & r & Hr & Hk). split_and!; [done..|]. destruct (Hc _ _ Hr) as (r' & Hr' & Hk').
  exists r'. split; [done|]. by transitivity (mr_message r).
Qed.

(** Segments, keys and objects do not depend on the messages' state. *)
Lemma safe_messages q w c :
  safe q w → rows_kin (ad_conv (as_db (w_sys w))) c → (∀ i r, cv_messages c !! i = Some r → row_wf i r) →
  (∀ i r, cv_messages c !! i = Some r → archive_status (mr_message r) ≠ STAGED → kept q w r) →
  safe q (with_db (put_conv c) w).
Proof.
  intros [H1 H2 H3 H4 H5] Hkin Hwf Hkept. split; cbn; [done| |intros i g Hg|done|done].
  - intros i r Hr Hs. exact (Hkept i r Hr Hs).
  - destruct (H3 i g Hg) as [ms [Hb (now & t & th & b & Hseg) Hid Hbk Hv]]. exists ms. split; [done| |done..].
    exists now, t, th, b. destruct Hseg as (? & ? & ? & ? & ? & ? & ? & ? & ? & Htaken & Hd). split_and!; try done.
    eapply Forall_impl; [exact Htaken|]. intros m. by apply taken_kin.
Qed.
(** Registered segments change in ways that keep what they are. *)
Definition same_segment (g h : ArchiveSegment) : Prop :=
  sg_id h = sg_id g ∧ sg_tenant h = sg_tenant g ∧ sg_thread h = sg_thread g ∧ sg_bucket h = sg_bucket g ∧
  sg_key h = sg_key g ∧ sg_first h = sg_first g ∧ sg_last h = sg_last g ∧ sg_manifest h = sg_manifest g ∧
  sg_checksum h = sg_checksum g.

Lemma describes_same w w' i g h ms :
  describes w i g ms → same_segment g h → w_built w' !! i = w_built w !! i → stored w' = stored w →
  rows_kin (ad_conv (as_db (w_sys w))) (ad_conv (as_db (w_sys w'))) →
  (sg_status h = VERIFIED → ∃ d ref, stored w !! (sg_bucket g, sg_key g) = Some (d, ref) ∧ br_generation ref = sg_generation h) →
  describes w' i h ms.
Proof.
  intros [Hb (now & t & th & b & Hbuild & Hseg) Hid Hbk _] (S1 & S2 & S3 & S4 & S5 & S6 & S7 & S8 & S9) Hw Hst Hkin Hv.
  split; rewrite ?Hst, ?S1, ?S4, ?S5; [congruence| |done..]. exists now, t, th, b.
  destruct Hseg as (? & ? & ? & ? & ? & ? & ? & Hord & Htaken & Hd). split_and!; try congruence; try exact Hord.
  - eapply Forall_impl; [exact Htaken|]. intros m. by apply taken_kin.
  - exact Hd.
Qed.

Lemma rows_kin_refl c : rows_kin c c.
Proof. intros i r Hr. by exists r. Qed.

Lemma build_data i now ms t th b : build i now ms t th = Ok b → bs_data b = compress (ar_zstd_level cfg) (segment_text ms).
Proof. by destruct ms; [|intros [= <-]]. Qed.

Lemma build_ids i now ms t th b : build i now ms t th = Ok b → bs_id b = i ∧ manifest_ids (bs_manifest b) = message_id <$> ms.
Proof.
  destruct ms as [|m0 ms]; [done|]. intros [= <-]. split; [done|]. cbn [bs_manifest]. unfold manifest_ids.
  change (omap str_of (JStr <$> (message_id <$> m0 :: ms)) = message_id <$> m0 :: ms).
  induction (message_id <$> m0 :: ms) as [|x l IH]; [done|]. cbn. by rewrite IH.
Qed.

Lemma safe_register q w now i t th ms b count x :
  safe q w → build i now ms t th = Ok b → in_order ms → Forall (taken t th (ad_conv (as_db (w_sys w)))) ms →
  segments_add (uploading chat_bucket now t th b count) (segs w) = (Ok tt, x) →
  safe q {| w_sys := set_db (put_segments x (as_db (w_sys w))) (w_sys w); w_built := <[i := ms]> (w_built w) |}.
Proof.
  intros [H1 H2 H3 H4 H5] Hb Hord Htaken Hadd. destruct (build_ids _ _ _ _ _ _ Hb) as [Hid _].
  unfold segments_add in Hadd. cbn [sg_id sg_bucket sg_key uploading] in Hadd. rewrite Hid in Hadd.
  destruct (_ || _) eqn:Hclash; [done|]. injection Hadd as <-. apply orb_false_iff in Hclash as [Hnew Hkey].
  apply bool_decide_eq_false, eq_None_not_Some in Hnew.
  assert (∀ j g, segs w !! j = Some g → sg_key g ≠ bs_key b) as Hfree.
  { intros j g Hg Hk. destruct (H3 j g Hg) as [ms' [_ _ _ Hbk _]].
    apply not_true_iff_false in Hkey. apply Hkey, existsb_exists. exists g. split; [apply list_elem_of_In, elem_of_rows; by exists j|].
    by rewrite Hbk, Hk, !String.eqb_refl. }
  assert (∀ j g, segs w !! j = Some g → j ≠ i) as Hother by (intros j g Hg ->; congruence).
  split; cbn; [done|..].
  - intros k r Hr Hs. destruct (H2 k r Hr Hs) as (j & g & ms' & m & Hg & Hms & Hrest). exists j, g, ms', m. cbn.
    rewrite !lookup_insert_ne by by apply not_eq_sym, (Hother j g). done.
  - intros j g [[<- <-]|[Hne Hg]]%lookup_insert_Some.
    + exists ms. split; cbn; [by rewrite lookup_insert_eq| |done..].
      exists now, t, th, b. split_and!; try done. intros d ref Hd. destruct (H5 _ _ Hd) as (j & g & Hg & Hk).
      by destruct (Hfree j g Hg).
    + destruct (H3 j g Hg) as [ms' Hd]. exists ms'. eapply describes_same; [exact Hd|done| |done|apply rows_kin_refl|apply Hd].
      cbn. by rewrite lookup_insert_ne.
  - intros j k g h [[<- <-]|[Hj Hg]]%lookup_insert_Some [[<- <-]|[Hk Hh]]%lookup_insert_Some Heq; cbn in Heq; [done|..|by apply (H4 j k g h)].
    + by destruct (Hfree k h Hh).
    + by destruct (Hfree j g Hg).
  - intros k o Ho. destruct (H5 k o Ho) as (j & g & Hg & Hk). exists j, g.
    by rewrite lookup_insert_ne by by apply not_eq_sym, (Hother j g).
Qed.

Lemma safe_put q w now i t th ms b g r s' :
  safe q w → segs w !! i = Some g → w_built w !! i = Some ms → build i now ms t th = Ok b → sg_key g = bs_key b →
  bl_put chat_bucket (bs_key b) (bs_data b) (Some (bs_checksum b)) (Some 0) (as_blob (w_sys w)) = (r, s') →
  safe q {| w_sys := set_blob s' (w_sys w); w_built := w_built w |}.
Proof.
  intros [H1 H2 H3 H4 H5] Hg Hms Hb Hk Hput.
  destruct (law_put chat_bucket (bs_key b) (bs_data b) (bs_checksum b) (as_blob (w_sys w))) as (r' & s'' & Hput' & Hlaw).
  rewrite Hput in Hput'. injection Hput' as <- <-.
  assert (stored_at s' = stored w ∨ ∃ ref, stored w !! (chat_bucket, bs_key b) = None ∧
    stored_at s' = <[(chat_bucket, bs_key b) := (bs_data b, ref)]> (stored w)) as Hobj.
  { destruct r as [ref|e]; [right; exists ref; tauto|]. destruct Hlaw as [|(ref & ? & ? & _)]; [by left|right; by exists ref]. }
  assert (∀ p o, stored w !! p = Some o → stored_at s' !! p = Some o) as Hgrow.
  { intros p o Hp. destruct Hobj as [->|(ref & Hnone & ->)]; [done|]. rewrite lookup_insert_ne; [done|congruence]. }
  split; cbn; [done|..].
  - intros k x Hx Hs. destruct (H2 k x Hx Hs) as (j & h & ms' & m & Hh & Hms' & Hin & Hkin & [o Ho] & Hq).
    exists j, h, ms', m. split_and!; try done. cbn. exists o. by apply Hgrow.
  - intros j h Hh. destruct (H3 j h Hh) as [ms' [Hb' (now' & t' & th' & b' & Hbuild' & ? & ? & Hkey' & ? & ? & ? & ? & ? & Htaken & Hd) Hid Hbk Hv]].
    exists ms'. split; [done| |done|done|].
    + exists now', t', th', b'. split_and!; try done. cbn. intros d ref. destruct Hobj as [->|(ref' & Hnone & ->)]; [apply Hd|].
      rewrite lookup_insert_Some. intros [[[= _ Heq] [= <- <-]]|[_ Hold]]; [|by apply (Hd d ref)].
      assert (i = j) as <- by (apply (H4 i j g h Hg Hh); congruence). rewrite Hms in Hb'. injection Hb' as <-.
      by rewrite (build_data _ _ _ _ _ _ Hb), (build_data _ _ _ _ _ _ Hbuild').
    + intros Hver. destruct (Hv Hver) as (d & ref & Hd' & Hgen). exists d, ref. split; [by apply Hgrow|done].
  - done.
  - intros k o Ho. destruct Hobj as [Heq|(ref & Hnone & Heq)]; rewrite Heq in Ho; [by apply (H5 k o)|].
    apply lookup_insert_Some in Ho as [[[= <-] _]|[_ Hold]]; [by exists i, g|by apply (H5 k o)].
Qed.

(** *** A table of rows rewritten *)

Lemma rewritten_lookup ids f c i r :
  (∀ j x, cv_messages c !! j = Some x → message_id (mr_message x) = j) →
  cv_messages (snd (rewrite_rows ids f c)) !! i = Some r ↔
  ∃ x, cv_messages c !! i = Some x ∧ r = (if decide (i ∈ ids) then f x else x).
Proof.
  intros Hids. cbn. rewrite lookup_fmap, fmap_Some. split; intros (x & Hx & ->); exists x; (split; [done|]);
    cbv beta;
    rewrite (Hids _ _ Hx); by destruct (decide (i ∈ ids)); [rewrite bool_decide_eq_true_2|rewrite bool_decide_eq_false_2].
Qed.

Lemma safe_rewrite q w ids f :
  safe q w → (∀ r, kin (mr_message r) (mr_message (f r))) →
  (∀ i r, messages w !! i = Some r → i ∈ ids → row_wf i (f r) ∧ kept q w (f r)) →
  safe q (with_db (put_conv (snd (rewrite_rows ids f (ad_conv (as_db (w_sys w)))))) w).
Proof.
  intros Hs Hf Hhit. pose proof Hs as [H1 H2 _ _ _].
  assert (∀ j x, messages w !! j = Some x → message_id (mr_message x) = j) as Hids by by intros j x Hx; apply (H1 j x).
  apply safe_messages; [done|..].
  - intros i r Hr. exists (if decide (i ∈ ids) then f r else r). split; [by apply rewritten_lookup; [|exists r]|].
    case_decide; [apply Hf|done].
  - intros i r (x & Hx & ->)%rewritten_lookup; [|done]. case_decide; [by apply Hhit|by apply H1].
  - intros i r (x & Hx & ->)%rewritten_lookup Hst; [|done]. case_decide; [by apply (Hhit i)|by apply (H2 i)].
Qed.

Lemma kept_kin q w r r' : kin (mr_message r) (mr_message r') → kept q w r → kept q w r'.
Proof. intros Hk (i & g & ms & m & ? & ? & ? & Hm & ?). exists i, g, ms, m. split_and!; try tauto. by transitivity (mr_message r). Qed.
Lemma safe_alter q w i f :
  safe q w → (∀ g, same_segment g (f g)) →
  (∀ g, segs w !! i = Some g → sg_status (f g) = VERIFIED →
     ∃ d ref, stored w !! (sg_bucket g, sg_key g) = Some (d, ref) ∧ br_generation ref = sg_generation (f g)) →
  (∀ g, segs w !! i = Some g → q = false → sg_status g = VERIFIED → sg_status (f g) = VERIFIED) →
  safe q (with_db (put_segments (alter f i (segs w))) w).
Proof.
  intros Hsafe Hf Hver Hq. pose proof Hsafe as [H1 H2 H3 H4 H5].
  assert (∀ j h, alter f i (segs w) !! j = Some h → ∃ g, segs w !! j = Some g ∧ same_segment g h ∧ h = (if decide (i = j) then f g else g)) as Hback.
  { intros j h. rewrite lookup_alter_Some. intros [(<- & g & Hg & ->)|[Hne Hg]].
    - exists g. rewrite decide_True by done. split_and!; [done|apply Hf|done].
    - exists h. rewrite decide_False by done. split_and!; done. }
  assert (∀ j g, segs w !! j = Some g → ∃ h, alter f i (segs w) !! j = Some h ∧ same_segment g h ∧
    (q = false → sg_status g = VERIFIED → sg_status h = VERIFIED)) as Hforth.
  { intros j g Hg. destruct (decide (i = j)) as [<-|Hne].
    - exists (f g). rewrite lookup_alter_eq, Hg. split_and!; [done|apply Hf|]. intros; by apply (Hq g).
    - exists g. rewrite lookup_alter_ne by done. done. }
  split; cbn; [done|..].
  - intros k r Hr Hst. destruct (H2 k r Hr Hst) as (j & g & ms & m & Hg & Hms & Hin & Hkin & Hob & Hv).
    destruct (Hforth j g Hg) as (h & Hh & (_ & _ & _ & S4 & S5 & _) & Hhv). exists j, h, ms, m. cbn. rewrite S4, S5. split_and!; tauto.
  - intros j h Hh. destruct (Hback j h Hh) as (g & Hg & Hsame & Heq). destruct (H3 j g Hg) as [ms Hd]. exists ms.
    eapply describes_same; [exact Hd|exact Hsame|done|done|apply rows_kin_refl|]. rewrite Heq. case_decide as Hij.
    + subst j. by apply Hver.
    + apply (ds_verified _ _ _ _ Hd).
  - intros j k g h Hg Hh Heq. destruct (Hback j g Hg) as (g' & Hg' & (_ & _ & _ & _ & E1 & _) & _).
    destruct (Hback k h Hh) as (h' & Hh' & (_ & _ & _ & _ & E2 & _) & _). apply (H4 j k g' h'); congruence.
  - intros k o Ho. destruct (H5 k o Ho) as (j & g & Hg & Hk). destruct (Hforth j g Hg) as (h & Hh & (_ & _ & _ & _ & E & _) & _).
    exists j, h. split; [done|congruence].
Qed.

Lemma row_wf_kin i r f : row_wf i r → kin (mr_message r) (mr_message (f r)) →
  mr_content (f r) = None ∨ mr_content (f r) = mr_content r → archive_status (mr_message (f r)) = ARCHIVED_ ∨ archive_status (mr_message (f r)) = PURGED →
  row_wf i (f r).
Proof.
  intros [Hid Hp _ _] [Kid Kc _ _ _ _] Hc Hs. split; [congruence| |intros; destruct Hs; congruence|destruct Hs; congruence].
  destruct Hc as [->| ->]; [by left|]. by rewrite <- Kc.
Qed.

Lemma safe_confirm q w i g d ref at_ d' :
  safe q w → segs w !! i = Some g → stored w !! (sg_bucket g, sg_key g) = Some (d, ref) →
  confirm i (br_generation ref) at_ (manifest_ids (sg_manifest g)) (as_db (w_sys w)) = (Ok tt, d') →
  safe q (with_db (λ _, d') w).
Proof.
  intros Hsafe Hg Hd Hrun. pose proof (sf_segments _ _ Hsafe i g Hg) as [ms Hdesc].
  destruct (ds_segment _ _ _ _ Hdesc) as (now & t & th & b & Hb & _ & _ & _ & _ & _ & Hman & _ & _ & Htaken & _).
  destruct (build_ids _ _ _ _ _ _ Hb) as [_ Hids]. rewrite Hman, Hids in Hrun.
  assert (safe q (with_db (put_segments (alter (verified_segment (br_generation ref) at_) i (segs w))) w)) as Hs1.
  { apply safe_alter; [done|done| |done]. intros h Hh _. rewrite Hg in Hh. injection Hh as <-. by exists d, ref. }
  assert (d' = put_conv (snd (rewrite_rows (message_id <$> ms) (archived_row i at_) (ad_conv (as_db (w_sys w)))))
    (put_segments (alter (verified_segment (br_generation ref) at_) i (segs w)) (as_db (w_sys w)))) as ->.
  { destruct ms as [|m0 ms]; [done|]. by injection Hrun as <-. }
  apply (safe_rewrite q _ (message_id <$> ms) (archived_row i at_) Hs1); [done|]. intros k r Hr Hk.
  split.
  - apply row_wf_kin; [by apply (sf_rows _ _ Hsafe)|done|by right|by left].
  - apply list_elem_of_fmap in Hk as (m & -> & Hm). rewrite Forall_forall in Htaken.
    destruct (Htaken m Hm) as (_ & _ & _ & r' & Hr' & Hkin). assert (Some r = Some r') as [= <-] by by rewrite <- Hr'.
    exists i, (verified_segment (br_generation ref) at_ g), ms, m. split_and!; try done.
    + cbn. by rewrite lookup_alter_eq, Hg.
    + apply (ds_built _ _ _ _ Hdesc).
    + by transitivity (mr_message r).
Qed.

Lemma safe_purge q w before min_bytes limit n c :
  safe q w → purge_payloads before min_bytes limit (ad_conv (as_db (w_sys w))) = (Ok n, c) →
  safe q (with_db (put_conv c) w).
Proof.
  intros Hsafe Hrun. unfold purge_payloads in Hrun.
  set (hits := take limit _) in Hrun. assert (∀ i r, messages w !! i = Some r → i ∈ (λ r, message_id (mr_message r)) <$> hits →
    archive_status (mr_message r) = ARCHIVED_) as Hhits.
  { intros i r Hr (x & -> & Hx)%list_elem_of_fmap. apply elem_of_take in Hx as (k & Hx & _).
    apply list_elem_of_lookup_2, list_elem_of_filter in Hx as [Hp Hx]. apply elem_of_rows in Hx as [j Hj].
    rewrite <- (rw_id _ _ (sf_rows _ _ Hsafe j x Hj)) in Hj. assert (Some r = Some x) as [= ->] by by rewrite <- Hj.
    unfold purgeable in Hp. repeat apply andb_true_iff in Hp as [Hp _]. by apply bool_decide_eq_true in Hp. }
  destruct (_ <$> hits) as [|i0 ids] eqn:Hids; [injection Hrun as _ <-; by destruct w as [[[] ?] ?]|].
  injection Hrun as _ <-. apply (safe_rewrite q w (i0 :: ids) purged_row Hsafe); [done|]. intros i r Hr Hi. split.
  - apply row_wf_kin; [by apply (sf_rows _ _ Hsafe)|done|by left|by right].
  - apply (kept_kin q w r); [done|]. apply (sf_kept _ _ Hsafe i r Hr). by rewrite (Hhits i r Hr Hi).
Qed.

Lemma safe_added q w c : safe q w → only_added (ad_conv (as_db (w_sys w))) c → safe q (with_db (put_conv c) w).
Proof.
  intros Hsafe [Hold Hnew]. assert (∀ i r, cv_messages c !! i = Some r → messages w !! i = Some r ∨
    (message_id (mr_message r) = i ∧ mr_content r = Some (content (mr_message r)) ∧ archive_status (mr_message r) = STAGED)) as Hcases.
  { intros i r Hr. destruct (messages w !! i) as [x|] eqn:Hx; [left; by rewrite <- Hr, (Hold i x Hx)|right; by apply Hnew]. }
  apply safe_messages; [done|intros i r Hr; exists r; by split; [apply Hold|]|..].
  - intros i r [Hr|(Hid & Hc & Hst)]%Hcases; [by apply (sf_rows _ _ Hsafe)|]. split; [done|by right|by rewrite Hc|by rewrite Hst].
  - intros i r [Hr|(_ & _ & Hst)]%Hcases Hs; [by apply (sf_kept _ _ Hsafe i)|done].
Qed.

Lemma wstep_safe q w w' : wstep q w w' → safe q w → safe q w'.
Proof.
  destruct 1; intros Hs.
  - by eapply safe_register.
  - by eapply safe_put.
  - by eapply safe_confirm.
  - apply safe_alter; [done|done|done|]. intros g Hg Hq Hv. destruct (H1 g Hg); congruence.
  - by eapply safe_purge.
  - by apply safe_added.
  - destruct Hs as [H2 H3 H4 H5 H6]. split; try done.
    intros i g Hg. destruct (H4 i g Hg) as [ms Hd]. exists ms. by eapply describes_same; [exact Hd|done..|apply rows_kin_refl|apply Hd].
  - destruct Hs as [H2 H3 H4 H5 H6]. split; cbn; rewrite ?H1; try done.
    + intros i r Hr Hst. destruct (H3 i r Hr Hst) as (j & g & ms & m & Hrest). exists j, g, ms, m. cbn. by rewrite H1.
    + intros i g Hg. destruct (H4 i g Hg) as [ms Hd]. exists ms.
      by eapply describes_same; [exact Hd|done..|apply rows_kin_refl|apply Hd].
Qed.
(** *** Reachable states *)

Definition reaches (q : bool) : world → world → Prop := rtc (wstep q).

Lemma reaches_safe q w w' : reaches q w w' → safe q w → safe q w'.
Proof. induction 1 as [|w1 w2 w3 Hstep _ IH]; [done|]. intros Hs. by eapply IH, wstep_safe. Qed.

Lemma rewrite_rows_kin q w ids f : safe q w → (∀ r, kin (mr_message r) (mr_message (f r))) →
  rows_kin (ad_conv (as_db (w_sys w))) (snd (rewrite_rows ids f (ad_conv (as_db (w_sys w))))).
Proof.
  intros Hsafe Hf i r Hr. exists (if decide (i ∈ ids) then f r else r).
  split; [|case_decide; [apply Hf|done]]. apply rewritten_lookup; [|by exists r].
  intros j x Hx. by apply (rw_id _ _ (sf_rows _ _ Hsafe j x Hx)).
Qed.

Lemma wstep_kin q w w' : wstep q w w' → safe q w → rows_kin (ad_conv (as_db (w_sys w))) (ad_conv (as_db (w_sys w'))).
Proof.
  destruct 1; intros Hs; try apply rows_kin_refl.
  - unfold confirm in H3. set (ids := manifest_ids _) in H3. destruct ids as [|i0 ids'] eqn:Hids.
    + injection H3 as <-. apply rows_kin_refl.
    + injection H3 as <-. by apply (rewrite_rows_kin q w (i0 :: ids')).
  - unfold purge_payloads in H1. destruct (_ <$> _) as [|i0 ids'] in H1; [injection H1 as _ <-; apply rows_kin_refl|].
    injection H1 as _ <-. by apply (rewrite_rows_kin q w (i0 :: ids')).
  - intros i r Hr. exists r. split; [by apply H1|done].
Qed.

#[export] Instance same_segment_preorder : PreOrder same_segment.
Proof.
  split; [by intros g; split_and!|]. intros g h k (? & ? & ? & ? & ? & ? & ? & ? & ?) (? & ? & ? & ? & ? & ? & ? & ? & ?).
  split_and!; congruence.
Qed.

Definition segments_stay (x y : segments) : Prop := ∀ i g, x !! i = Some g → ∃ h, y !! i = Some h ∧ same_segment g h.

Lemma alter_stays i f x : (∀ g, same_segment g (f g)) → segments_stay x (alter f i x).
Proof.
  intros Hf j g Hg. destruct (decide (i = j)) as [<-|Hne].
  - exists (f g). by rewrite lookup_alter_eq, Hg.
  - exists g. by rewrite lookup_alter_ne.
Qed.

Lemma wstep_segments q w w' : wstep q w w' → segments_stay (segs w) (segs w').
Proof.
  destruct 1; try (intros j h Hh; by exists h).
  - intros j h Hh. unfold segments_add in H4. destruct (_ || _) eqn:Hclash in H4; [done|]. injection H4 as <-.
    apply orb_false_iff in Hclash as [Hnew _]. apply bool_decide_eq_false, eq_None_not_Some in Hnew.
    exists h. split; [|done]. cbn. rewrite lookup_insert_ne; [done|]. intros <-. cbn in Hnew. congruence.
  - unfold confirm in H3. destruct (manifest_ids _); injection H3 as <-; by apply alter_stays.
  - by apply alter_stays.
Qed.

(** ** What the operations do is such steps

    [traced q P m Q]: run from a safe world where [P] holds, [m] takes steps to the
    state it ends in, whether it returns or raises; where it returns, [Q] holds of
    the result. [P] and [Q] may speak of what the steps keep. *)
Definition traced {A} (q : bool) (P : world → Prop) (m : prog (archive_sys B) A) (Q : A → world → Prop) : Prop :=
  ∀ w, safe q w → P w → ∃ x, let w' := {| w_sys := snd (m (w_sys w)); w_built := x |} in
    reaches q w w' ∧ ∀ a, fst (m (w_sys w)) = Ok a → Q a w'.

Lemma traced_bind {A C} q P (m : prog (archive_sys B) A) Q (k : A → prog (archive_sys B) C) R :
  traced q P m Q → (∀ a, traced q (Q a) (k a) R) → traced q P (bind m k) R.
Proof.
  intros Hm Hk w Hs HP. destruct (Hm w Hs HP) as (x & Hreach & HQ). unfold bind.
  destruct (m (w_sys w)) as [[a|e] s1] eqn:Hrun; cbn [fst snd] in *.
  - destruct (Hk a {| w_sys := s1; w_built := x |}) as (y & Hreach' & HR); [by eapply reaches_safe|by apply HQ|].
    exists y. split; [by etransitivity|done].
  - exists x. split; [done|]. done.
Qed.

Lemma traced_ret {A} q (P : world → Prop) (a : A) (Q : A → world → Prop) : (∀ w, P w → Q a w) → traced q P (ret a) Q.
Proof. intros HQ w _ HP. exists (w_built w). destruct w. cbn. split; [apply rtc_refl|]. intros ? [= <-]. by apply HQ. Qed.

Lemma traced_raise {A} q P e (Q : A → world → Prop) : traced q P (raise e) Q.
Proof. intros w _ _. exists (w_built w). destruct w. split; [apply rtc_refl|done]. Qed.

Lemma traced_weaken {A} q (P P' : world → Prop) (m : prog (archive_sys B) A) (Q Q' : A → world → Prop) :
  traced q P m Q → (∀ w, P' w → P w) → (∀ a w, Q a w → Q' a w) → traced q P' m Q'.
Proof. intros Hm HP HQ w Hs Hw. destruct (Hm w Hs (HP w Hw)) as (x & Hr & Hres). exists x. split; [done|]. eauto. Qed.

(** A predicate no step can break. *)
Definition stable (q : bool) (P : world → Prop) : Prop := ∀ w w', safe q w → wstep q w w' → P w → P w'.

Lemma stable_reaches q P w w' : stable q P → reaches q w w' → safe q w → P w → P w'.
Proof. intros Hp. induction 1 as [|w1 w2 w3 Hstep _ IH]; [done|]. intros Hs Hw. eapply IH; [by eapply wstep_safe|by eapply Hp]. Qed.

Lemma traced_stable {A} q P F (m : prog (archive_sys B) A) Q :
  stable q F → traced q P m Q → traced q (λ w, P w ∧ F w) m (λ a w, Q a w ∧ F w).
Proof.
  intros HF Hm w Hs [HP HFw]. destruct (Hm w Hs HP) as (x & Hr & HQ). exists x. split; [done|].
  intros a Ha. split; [by apply HQ|]. by eapply stable_reaches.
Qed.

Lemma stable_taken q t th ms : stable q (λ w, Forall (taken t th (ad_conv (as_db (w_sys w)))) ms).
Proof.
  intros w w' Hs Hstep Hall. eapply Forall_impl; [exact Hall|]. intros m. by apply taken_kin, (wstep_kin q).
Qed.

Lemma stable_segment q i g : stable q (λ w, ∃ h, segs w !! i = Some h ∧ same_segment g h).
Proof.
  intros w w' Hs Hstep (h & Hh & Hsame). destruct (wstep_segments _ _ _ Hstep i h Hh) as (k & Hk & Hsame').
  exists k. split; [done|]. by transitivity h.
Qed.
(** *** Archiving *)

(** The segment [i] is registered, built from [ms] as [b], and not verified yet. *)
Definition registered (i : string) (ms : list Message) (b : BuiltSegment) (w : world) : Prop :=
  ∃ g, segs w !! i = Some g ∧ w_built w !! i = Some ms ∧ sg_key g = bs_key b ∧ sg_bucket g = chat_bucket ∧
    sg_manifest g = bs_manifest b ∧ sg_status g ≠ VERIFIED.

Lemma traced_register q now i t th ms b count : build i now ms t th = Ok b → in_order ms →
  traced q (λ w, Forall (taken t th (ad_conv (as_db (w_sys w)))) ms)
    (in_tx (on_segments (segments_add (uploading chat_bucket now t th b count)))) (λ _, registered i ms b).
Proof.
  intros Hb Hord w Hs Htaken. unfold in_tx, on_segments, zoom.
  destruct (segments_add (uploading chat_bucket now t th b count) (segs w)) as [r x] eqn:Hadd.
  destruct r as [[]|e]; [|exists (w_built w); destruct w; split; [apply rtc_refl|done]].
  exists (<[i := ms]> (w_built w)). split; [apply rtc_once; by eapply step_register|]. intros [] _.
  destruct (build_ids _ _ _ _ _ _ Hb) as [Hid _].
  unfold segments_add in Hadd. destruct (_ || _) in Hadd; [done|]. injection Hadd as <-. cbn. rewrite Hid.
  eexists. cbn. rewrite !lookup_insert_eq. done.
Qed.

(** A call of the blob store that changes nothing stored. *)
Lemma traced_read {A} q (P : world → Prop) (m : prog B A) (Q : res A → world → Prop) :
  (∀ w, P w → stored_at (snd (m (as_blob (w_sys w)))) = stored w ∧
     Q (fst (m (as_blob (w_sys w)))) {| w_sys := set_blob (snd (m (as_blob (w_sys w)))) (w_sys w); w_built := w_built w |}) →
  traced q P (attempt (blob m)) (λ r w, Q r w).
Proof.
  intros Hm w Hs HP. destruct (Hm w HP) as [Hst HQ]. unfold attempt, blob, zoom in *.
  destruct (m (as_blob (w_sys w))) as [r s'] eqn:Hrun. cbn [fst snd] in *. exists (w_built w).
  split; [by apply rtc_once, step_blob|]. by intros ? [= <-].
Qed.

Lemma attempt_bind {A C} (m : prog (archive_sys B) A) (k : A → prog (archive_sys B) C) s :
  attempt (bind m k) s = bind (attempt m) (λ r, match r with Ok a => attempt (k a) | Raise e => ret (Raise e) end) s.
Proof. unfold attempt, bind. destruct (m s) as [[a|e] s']; done. Qed.

Lemma traced_ext {A} q P (m m' : prog (archive_sys B) A) Q : (∀ s, m s = m' s) → traced q P m' Q → traced q P m Q.
Proof. intros Heq Hm w Hs HP. destruct (Hm w Hs HP) as (x & Hr). exists x. by rewrite Heq. Qed.

Lemma traced_upload q now i t th ms b : build i now ms t th = Ok b →
  traced q (registered i ms b) (attempt (upload chat_bucket b)) (λ r w, registered i ms b w ∧
    match r with Ok (ref, true) => ∃ d, stored w !! (chat_bucket, bs_key b) = Some (d, ref) | _ => True end).
Proof.
  intros Hb. eapply traced_ext; [intros s; apply attempt_bind|].
  eapply (traced_bind q _ _ (λ r w, registered i ms b w ∧
    match r with Ok ref => stored w !! (chat_bucket, bs_key b) = Some (bs_data b, ref) ∧ br_bucket ref = chat_bucket ∧ br_key ref = bs_key b | Raise _ => True end)).
  - intros w Hs (g & Hg & Hms & Hk & Hbk & Hman & Hst). unfold attempt, blob, zoom.
    destruct (law_put chat_bucket (bs_key b) (bs_data b) (bs_checksum b) (as_blob (w_sys w))) as (r & s' & Hput & Hlaw).
    rewrite Hput. exists (w_built w). split; [apply rtc_once; by eapply step_put|]. intros ? [= <-]. split; [by exists g|].
    destruct r as [ref|e]; [|done]. destruct Hlaw as (_ & Heq & Hrb & Hrk & _). cbn. rewrite Heq, lookup_insert_eq. done.
  - intros [ref|e]; [|apply traced_ret; by intros w [? _]]. eapply traced_ext; [intros s; apply attempt_bind|].
    eapply (traced_bind q _ _ (λ r w, registered i ms b w ∧ stored w !! (chat_bucket, bs_key b) = Some (bs_data b, ref))).
    + apply traced_read. intros w (Hreg & Hst & _ & _).
      destruct (law_verify ref (as_blob (w_sys w))) as (r & s' & Hv & Heq & _). rewrite Hv. cbn [fst snd]. split; [done|].
      split; [exact Hreg|]. by rewrite <- Hst, <- Heq.
    + intros [v|e]; [|apply traced_ret; by intros w [? _]]. apply (traced_ret q _ (Ok (ref, v))).
      intros w [Hreg Hst]. split; [done|]. destruct v; [by eexists|done].
Qed.

Lemma traced_fail q (P : world → Prop) i error : (∀ w g, P w → segs w !! i = Some g → q = true ∨ sg_status g ≠ VERIFIED) →
  traced q P (in_tx (on_segments (mark_segment_failed i error))) (λ _ _, True).
Proof.
  intros HP w Hs Hw. exists (w_built w). split; [|done]. apply rtc_once.
  apply (step_fail q w i error). intros g Hg. by apply (HP w g).
Qed.

Lemma traced_confirm q (P : world → Prop) i ref at_ ids :
  (∀ w, P w → ∃ g d, segs w !! i = Some g ∧ stored w !! (sg_bucket g, sg_key g) = Some (d, ref) ∧ ids = manifest_ids (sg_manifest g)) →
  traced q P (in_tx (confirm i (br_generation ref) at_ ids)) (λ _ _, True).
Proof.
  intros HP w Hs Hw. destruct (HP w Hw) as (g & d & Hg & Hd & ->). exists (w_built w). split; [|done].
  unfold in_tx. destruct (confirm i (br_generation ref) at_ (manifest_ids (sg_manifest g)) (as_db (w_sys w))) as [r d'] eqn:Hrun.
  assert (r = Ok tt) as ->; [|apply rtc_once; by eapply step_confirm].
  unfold confirm in Hrun. destruct (manifest_ids _) in Hrun; by injection Hrun as <- _.
Qed.

Lemma traced_archive_messages q i now t th ms : in_order ms →
  traced q (λ w, Forall (taken t th (ad_conv (as_db (w_sys w)))) ms)
    (archive_messages sha compress cfg chat_bucket i now t th ms) (λ _ _, True).
Proof.
  intros Hord. unfold archive_messages. destruct (build i now ms t th) as [b|e] eqn:Hb; [|apply traced_raise].
  destruct (build_ids _ _ _ _ _ _ Hb) as [Hid Hids].
  assert (bs_message_ids b = message_id <$> ms) as Hbids by (destruct ms; [done|by injection Hb as <-]).
  eapply traced_bind; [by apply traced_register|]. intros []. eapply traced_bind; [by eapply traced_upload|].
  rewrite Hid. intros [[ref [|]]|e].
  - eapply traced_bind; [|intros []; by apply traced_ret].
    apply traced_confirm. intros w ((g & Hg & Hms & Hk & Hbk & Hman & _) & d & Hd). exists g, d.
    split_and!; [done|by rewrite Hbk, Hk|by rewrite Hman, Hids].
  - eapply traced_bind; [|intros []; apply traced_raise]. apply traced_fail.
    intros w g ((h & Hh & _ & _ & _ & _ & Hst) & _) Hg. right. congruence.
  - eapply traced_bind; [|intros []; apply traced_raise]. apply traced_fail.
    intros w g ((h & Hh & _ & _ & _ & _ & Hst) & _) Hg. right. congruence.
Qed.
Abbreviation all_taken t th ms := (λ w, Forall (taken t th (ad_conv (as_db (w_sys w)))) ms).

Lemma traced_plans q fresh now t th k plans : in_order (concat (sp_messages <$> plans)) →
  traced q (all_taken t th (concat (sp_messages <$> plans)))
    (archive_plans sha compress cfg chat_bucket fresh now t th k plans) (λ _ _, True).
Proof.
  revert k. induction plans as [|p plans IH]; intros k Hord; [by apply traced_ret|]. cbn [archive_plans fmap list_fmap concat] in *.
  apply StronglySorted_app in Hord as (_ & Hp & Hplans).
  eapply (traced_bind q _ _ (λ _, all_taken t th (concat (sp_messages <$> plans)))).
  - eapply traced_weaken; [apply traced_stable; [|by apply (traced_archive_messages q (fresh k) now t th (sp_messages p))]|..].
    + apply (stable_taken q t th (concat (sp_messages <$> plans))).
    + intros w Hall. by apply Forall_app in Hall.
    + by intros a w [_ Hall].
  - intros i. eapply traced_bind; [by apply IH|]. intros ids. by apply traced_ret.
Qed.

(** A query. *)
Lemma traced_query {A} q P (f : archive_db → A) (Q : A → world → Prop) :
  (∀ w, safe q w → P w → Q (f (as_db (w_sys w))) w) → traced q P (in_tx (gets f)) Q.
Proof.
  intros HQ w Hs HP. exists (w_built w). destruct w as [[d s0] W]. split; [apply rtc_refl|]. intros a [= <-]. exact (HQ _ Hs HP).
Qed.

Lemma conv_query {A} (f : conversations → A) (s : archive_sys B) : in_tx (on_conv (gets f)) s = in_tx (gets (λ d, f (ad_conv d))) s.
Proof. by destruct s as [[] ?]. Qed.

Lemma segments_query {A} (f : segments → A) (s : archive_sys B) :
  in_tx (on_segments (gets f)) s = in_tx (gets (λ d, f (ad_segments d))) s.
Proof. by destruct s as [[] ?]. Qed.

Lemma staged_taken q t th limit w : safe q w →
  Forall (taken t th (ad_conv (as_db (w_sys w))))
    ((λ r, row_to_message r []) <$> ordered staged_le (Some limit) (filter (λ r, staged None (Some t) (Some th) r = true) (rows (messages w)))).
Proof.
  intros Hs. apply Forall_fmap, Forall_forall. intros r Hr. apply elem_of_ordered_sub in Hr.
  apply list_elem_of_filter in Hr as [Hst Hr]. apply elem_of_rows in Hr as [i Hi].
  pose proof (sf_rows _ _ Hs i r Hi) as [Hid Hp Hsp _]. unfold staged in Hst.
  apply andb_true_iff in Hst as [[[Hst _]%andb_true_iff Ht]%andb_true_iff Hth].
  apply bool_decide_eq_true in Hst. apply String.eqb_eq in Ht, Hth. cbn. split_and!; [done..|].
  exists r. split; [rewrite <- Hid in Hi; exact Hi|]. apply kin_row_to_message. destruct Hp as [Hn|]; [by destruct (Hsp Hst)|done].
Qed.

Lemma traced_archive_thread q fresh now t th :
  traced q (λ _, True) (archive_thread sha compress cfg chat_bucket fresh now t th) (λ _ _, True).
Proof.
  unfold archive_thread. set (limit := Z.to_nat _).
  eapply (traced_bind q _ _ (λ l, all_taken t th l)).
  - eapply traced_ext; [intros s; apply conv_query|].
    apply traced_query. intros w Hs _. by apply (staged_taken q).
  - intros [|m l]; [by apply traced_ret|]. unfold plan_segments. eapply traced_weaken; [apply traced_plans| |done].
    + rewrite plan_from_concat. apply (StronglySorted_merge_sort (ascending sequence)).
    + intros w Hall. rewrite plan_from_concat. cbn [app]. unfold by_sequence. by rewrite (merge_sort_Permutation (ascending sequence) (m :: l)).
Qed.

Lemma traced_purge q now limit : traced q (λ _, True) (purge_staged_payloads cfg now limit) (λ _ _, True).
Proof.
  intros w Hs _. exists (w_built w). split; [|done]. unfold purge_staged_payloads, in_tx, on_conv, zoom.
  destruct (purge_payloads _ _ limit (ad_conv (as_db (w_sys w)))) as [[n|e] c] eqn:Hrun.
  - apply rtc_once. by eapply step_purge.
  - destruct w. apply rtc_refl.
Qed.

(** A segment a worker read, as its row is now. *)
Definition current (g : ArchiveSegment) (w : world) : Prop := ∃ h, segs w !! sg_id g = Some h ∧ same_segment g h.

Lemma traced_intact q g : traced q (current g) (intact g) (λ r w, current g w ∧
  match r with (Some ref, true) => ∃ d, stored w !! (sg_bucket g, sg_key g) = Some (d, ref) | _ => True end).
Proof.
  unfold intact. eapply (traced_bind q _ _ (λ r w, current g w ∧
    match r with Ok ref => ∃ d, stored w !! (sg_bucket g, sg_key g) = Some (d, ref) | Raise _ => True end)).
  - apply traced_read. intros w Hc. destruct (law_head (sg_bucket g) (sg_key g) (as_blob (w_sys w))) as (r & s' & Hrun & Heq & Hr).
    rewrite Hrun. cbn [fst snd]. split; [done|]. split; [exact Hc|]. destruct r as [ref|e]; [|done].
    destruct Hr as [d Hd]. exists d. cbn. by rewrite Heq.
  - intros [ref|e]; [|apply traced_ret; tauto]. destruct (String.eqb _ _); [|apply traced_ret; tauto].
    eapply (traced_bind q _ _ (λ _ w, current g w ∧ ∃ d, stored w !! (sg_bucket g, sg_key g) = Some (d, ref))).
    + apply traced_read. intros w (Hc & d & Hd). destruct (law_verify ref (as_blob (w_sys w))) as (r & s' & Hv & Heq & _).
      rewrite Hv. cbn [fst snd]. split; [done|]. split; [exact Hc|]. exists d. cbn. by rewrite Heq.
    + intros [v|e]; apply traced_ret; intros w [Hc Hd]; (split; [done|]); [by destruct v|done].
Qed.

Lemma traced_repair now g : traced true (current g) (repair now g) (λ _ _, True).
Proof.
  unfold repair. eapply traced_bind; [apply traced_intact|]. intros [[ref|] ok].
  - destruct ok.
    + eapply traced_bind; [|intros []; by apply traced_ret]. apply traced_confirm.
      intros w ((h & Hh & _ & _ & _ & Hb & Hk & _ & _ & Hm & _) & d & Hd). exists h, d. split_and!; [done|congruence|congruence].
    + eapply traced_bind; [|intros []; by apply traced_ret]. apply traced_fail. by left.
  - eapply traced_bind; [|intros []; by apply traced_ret]. apply traced_fail. by left.
Qed.

Lemma traced_recheck g : traced true (λ _, True) (recheck g) (λ _ _, True).
Proof.
  unfold recheck. eapply (traced_bind _ _ _ (λ _ _, True)).
  - eapply traced_ext; [intros s; apply attempt_bind|]. eapply (traced_bind _ _ _ (λ _ _, True)).
    + apply traced_read. intros w _. destruct (law_head (sg_bucket g) (sg_key g) (as_blob (w_sys w))) as (r & s' & Hrun & Heq & _).
      by rewrite Hrun.
    + intros [ref|e]; [|by apply traced_ret]. destruct (String.eqb _ _); [|by apply (traced_ret _ _ (Ok true))].
      eapply traced_ext; [intros s; apply attempt_bind|]. eapply (traced_bind _ _ _ (λ _ _, True)).
      * apply traced_read. intros w _. destruct (law_verify ref (as_blob (w_sys w))) as (r & s' & Hrun & Heq & _). by rewrite Hrun.
      * intros [v|e]; [by apply (traced_ret _ _ (Ok (negb v)))|by apply traced_ret].
  - intros [[|]|e]; [|by apply traced_ret..].
    eapply traced_bind; [|intros []; by apply traced_ret]. apply traced_fail. by left.
Qed.

Lemma stable_current q g : stable q (current g).
Proof. apply stable_segment. Qed.

Lemma stable_all q {A} (P : A → world → Prop) l : (∀ x, stable q (P x)) → stable q (λ w, Forall (λ x, P x w) l).
Proof. intros HP w w' Hs Hstep Hall. eapply Forall_impl; [exact Hall|]. intros x. by apply (HP x w w'). Qed.

Lemma traced_list q {A C} (P : A → world → Prop) (f : A → prog (archive_sys B) C) l :
  (∀ x, stable q (P x)) → (∀ x, traced q (P x) (f x) (λ _ _, True)) →
  traced q (λ w, Forall (λ x, P x w) l) (mapM_list f l) (λ _ _, True).
Proof.
  intros HP Hf. induction l as [|x l IH]; [by apply traced_ret|]. cbn [mapM_list].
  eapply (traced_bind q _ _ (λ _ w, Forall (λ x, P x w) l)).
  - eapply traced_weaken; [apply (traced_stable q (P x) (λ w, Forall (λ x, P x w) l)); [by apply stable_all|apply Hf]|..].
    + intros w Hall. by apply Forall_cons in Hall.
    + by intros a w [_ Hall].
  - intros y. eapply traced_bind; [apply IH|]. intros ys. by apply traced_ret.
Qed.

Lemma traced_requeue q now l : traced q (λ _, True) (requeue now l) (λ _ _, True).
Proof.
  unfold requeue. destruct l as [|x l]; [by apply traced_ret|]. eapply (traced_bind _ _ _ (λ _ _, True)); [|intros ids; by apply traced_ret].
  intros w Hs _. exists (w_built w). split; [|done]. unfold in_tx.
  assert (∀ l d, ∃ r o, mapM_list (λ '(t, th), on_jobs (add_job now (requeue_job t th))) l d =
    (r, {| ad_conv := ad_conv d; ad_segments := ad_segments d; ad_outbox := o |})) as Hjobs.
  { intros l'. induction l' as [|[t th] l' IH]; intros d; [by exists (Ok []), (ad_outbox d); destruct d|].
    cbn [mapM_list]. unfold bind at 1, on_jobs, zoom. destruct (add_job now (requeue_job t th) (ad_outbox d)) as [[j|e] o].
    - destruct (IH {| ad_conv := ad_conv d; ad_segments := ad_segments d; ad_outbox := o |}) as (r & o' & Hr).
      unfold bind. unfold on_jobs, zoom in Hr. rewrite Hr. destruct r; by eexists _, _.
    - by eexists _, _. }
  destruct (Hjobs (x :: l) (as_db (w_sys w))) as (r & o & Hr). rewrite Hr. destruct r as [ids|e]; cbn [snd].
  - apply rtc_once. by apply (step_jobs q w o).
  - destruct w. apply rtc_refl.
Qed.

(** The listed segments are rows. *)
Lemma listed_current q P (f : segments → list ArchiveSegment) :
  (∀ x g, g ∈ f x → g ∈ rows x) →
  traced q P (in_tx (on_segments (gets f))) (λ l w, Forall (λ g, current g w) l).
Proof.
  intros Hf. eapply traced_ext; [intros s; apply segments_query|]. apply traced_query.
  intros w Hs _. apply Forall_forall. intros g [i Hi]%Hf%elem_of_rows.
  destruct (sf_segments _ _ Hs i g Hi) as [ms [_ _ Hid _ _]]. exists g. by rewrite Hid.
Qed.

Lemma by_status_rows (p : ArchiveSegment → bool) limit (x : segments) g :
  g ∈ ordered (ascending sg_created_at) (Some limit) (filter (λ g, p g = true) (rows x)) → g ∈ rows x.
Proof. intros Hg%elem_of_ordered_sub. by apply list_elem_of_filter in Hg as [_ Hg]. Qed.

Lemma traced_reconcile now stale sample : traced true (λ _, True) (reconcile now stale sample) (λ _ _, True).
Proof.
  unfold reconcile. eapply (traced_bind _ _ _ (λ _ _, True)).
  { eapply traced_ext; [intros s; apply conv_query|]. by apply traced_query. }
  intros staged. eapply traced_bind; [apply listed_current; intros x g; apply by_status_rows|]. intros up.
  eapply traced_bind; [eapply traced_weaken; [apply traced_stable; [apply (stable_all true current up), stable_current|]|..]|].
  { apply (listed_current true (λ _, True)). intros x g. apply by_status_rows. }
  { by intros w Hup. } { intros failed w Hboth. exact Hboth. }
  intros failed. cbv beta. eapply (traced_bind _ _ _ (λ _ w, Forall (λ g, current g w) (up ++ failed)%list)).
  { eapply traced_weaken; [apply traced_stable; [apply (stable_all true current (up ++ failed)%list), stable_current|]|..].
    - eapply (traced_ext true (λ _, True)); [intros s; apply segments_query|]. apply (traced_query _ _ _ (λ _ _, True)). done.
    - intros w [Hf Hu]. split; [done|]. by apply Forall_app.
    - by intros a w [_ Hall]. }
  intros verified. eapply (traced_bind _ _ _ (λ _ w, Forall (λ g, current g w) (up ++ failed)%list)).
  { eapply traced_weaken; [apply traced_stable; [apply (stable_all true current (up ++ failed)%list), stable_current|apply traced_requeue]|..].
    - by intros w Hall.
    - by intros a w [_ Hall]. }
  intros requeued. eapply traced_bind; [apply (traced_list true current); [apply stable_current|apply traced_repair]|].
  intros repaired. eapply traced_bind; [|intros checked; by apply traced_ret].
  eapply traced_weaken; [apply (traced_list true (λ _ _, True) recheck verified); [by intros ? ? ?|apply traced_recheck]| |done].
  intros w _. by apply Forall_true.
Qed.
(** ** The theorems *)

(** What a worker does. *)
Inductive archive_op :=
| Archive (fresh : nat → string) (now : Z) (t th : string)
| Purge (now : Z) (limit : nat)
| Reconcile (now stale : Z) (sample : nat).

Definition run_op (o : archive_op) : prog (archive_sys B) unit :=
  match o with
  | Archive fresh now t th => bind (archive_thread sha compress cfg chat_bucket fresh now t th) (λ _, ret tt)
  | Purge now limit => bind (purge_staged_payloads cfg now limit) (λ _, ret tt)
  | Reconcile now stale sample => bind (reconcile now stale sample) (λ _, ret tt)
  end.

(** Nothing archived yet: no segment, nothing in the bucket, every message staged
    with its payload. *)
Definition pristine (s : archive_sys B) : Prop :=
  ad_segments (as_db s) = ∅ ∧ (∀ k, stored_at (as_blob s) !! (chat_bucket, k) = None) ∧
  ∀ i r, cv_messages (ad_conv (as_db s)) !! i = Some r →
    message_id (mr_message r) = i ∧ mr_content r = Some (content (mr_message r)) ∧ archive_status (mr_message r) = STAGED.

Lemma pristine_safe q s : pristine s → safe q {| w_sys := s; w_built := ∅ |}.
Proof.
  intros (Hsegs & Hblob & Hmsgs). split; cbn; rewrite ?Hsegs; try done.
  - intros i r (Hid & Hc & Hs)%Hmsgs. split; [done|by right|by rewrite Hc|by rewrite Hs].
  - intros i r (_ & _ & Hs)%Hmsgs Hne. by rewrite Hs in Hne.
  - intros k o Ho. by rewrite Hblob in Ho.
Qed.

(** The states a system can be in: after any operations of any workers, in which
    each may have raised, have been cut short or have been overtaken by the others
    between any two of its transactions and calls; with [q] false, states in which
    no verified segment was quarantined. *)
Definition reachable_archive (q : bool) (s0 s : archive_sys B) : Prop :=
  pristine s0 ∧ ∃ x, reaches q {| w_sys := s0; w_built := ∅ |} {| w_sys := s; w_built := x |}.

Definition is_reconcile (o : archive_op) : bool := match o with Reconcile _ _ _ => true | _ => false end.

(** C8: archiving, purging and reconciling are made of the steps of the archive's
    transition system. Run from a state it can reach, each of them ends in a state
    it can reach, whether it returns or raises; and only reconciling quarantines a
    verified segment. *)
Theorem archive_operations_are_steps q s0 s o :
  reachable_archive q s0 s → is_reconcile o = false ∨ q = true → reachable_archive q s0 (snd (run_op o s)).
Proof.
  intros (Hp & x & Hreach) Hq. split; [done|].
  assert (traced q (λ _, True) (run_op o) (λ _ _, True)) as Ht.
  { destruct o; cbn [run_op]; (eapply traced_bind; [|intros ?; by apply traced_ret]);
      [apply traced_archive_thread|apply traced_purge|]. destruct Hq as [| ->]; [done|apply traced_reconcile]. }
  destruct (Ht _ (reaches_safe _ _ _ Hreach (pristine_safe _ _ Hp)) I) as (y & Hreach' & _).
  exists y. by etransitivity.
Qed.

(** [text] is on a line of a segment that is registered and stored. *)
Definition in_a_segment (decompress : string → option string) (s : archive_sys B) (i text : string) : Prop :=
  ∃ j g d ref ms m, ad_segments (as_db s) !! j = Some g ∧
    stored_at (as_blob s) !! (sg_bucket g, sg_key g) = Some (d, ref) ∧
    decompress d = Some (segment_text ms) ∧ m ∈ ms ∧ message_id m = i ∧ content m = text.

(** C5: no text is lost. In every state the archive can reach, crashes, outages and
    concurrent workers included, the text a message was stored with is in its row,
    or it is in a segment that is registered and stored. *)
Theorem archive_never_loses_text decompress q s0 s i r :
  (∀ level raw, decompress (compress level raw) = Some raw) → reachable_archive q s0 s →
  cv_messages (ad_conv (as_db s)) !! i = Some r →
  mr_content r = Some (content (mr_message r)) ∨ in_a_segment decompress s i (content (mr_message r)).
Proof.
  intros Hzstd (Hp & x & Hreach) Hr.
  pose proof (reaches_safe _ _ _ Hreach (pristine_safe _ _ Hp)) as Hs.
  destruct (sf_rows _ _ Hs i r Hr) as [Hid Hc Hst _].
  destruct (decide (archive_status (mr_message r) = STAGED)) as [Hstaged|Hne].
  { destruct Hc as [Hc|Hc]; [by destruct (Hst Hstaged)|by left]. }
  right. destruct (sf_kept _ _ Hs i r Hr Hne) as (j & g & ms & m & Hg & Hms & Hm & Hk & [[d ref] Hd] & _).
  destruct (sf_segments _ _ Hs j g Hg) as [ms' [Hms' (now & t & th & b & Hb & _ & _ & _ & _ & _ & _ & _ & _ & _ & Hdata) _ _ _]].
  assert (ms' = ms) as -> by congruence. exists j, g, d, ref, ms, m. split_and!; try done.
  - by rewrite (Hdata d ref Hd), (build_data _ _ _ _ _ _ Hb), Hzstd.
  - by rewrite (kin_id _ _ Hk).
  - apply (kin_content _ _ Hk).
Qed.
(** *** Reading a purged message *)

Section loading.
Variable decompress : string → option string.
Variable repr : json → string.
Hypothesis zstd : ∀ level raw, decompress (compress level raw) = Some raw.

(** The records of a segment's messages: the text of the first with the id. *)
Lemma find_record_messages m ms : (∀ x, x ∈ ms → message_id x = message_id m → content_hash x = content_hash m) →
  find_record repr m ((λ x, Some (message_record x)) <$> ms) =
  Ok (content <$> head (filter (λ x, message_id x = message_id m) ms)).
Proof.
  intros Hhash. induction ms as [|x ms IH]; [done|]. cbn [fmap list_fmap find_record].
  change (jget "message_id" (message_record x)) with (Some (JStr (message_id x))). cbv iota.
  change (jget "content_hash" (message_record x)) with (Some (JStr (content_hash x))). cbv iota.
  change (jget "content" (message_record x)) with (Some (JStr (content x))). cbv iota.
  rewrite filter_cons. destruct (decide (message_id x = message_id m)) as [Hid|Hne].
  - rewrite bool_decide_eq_true_2 by congruence. rewrite bool_decide_eq_true_2; [done|].
    f_equal. apply Hhash; [left|done].
  - rewrite bool_decide_eq_false_2 by congruence. apply IH. intros y Hy. apply Hhash. by right.
Qed.

Lemma in_order_bounds i now ms t th b x : build i now ms t th = Ok b → in_order ms → x ∈ ms →
  bs_first_sequence b ≤ sequence x ≤ bs_last_sequence b.
Proof.
  intros Hb Hord Hx. destruct ms as [|m0 ms]; [done|]. injection Hb as <-. cbn [bs_first_sequence bs_last_sequence].
  destruct (last (m0 :: ms)) as [z|] eqn:Hlast; [|by apply last_None in Hlast]. cbn. unfold in_order in Hord. split.
  - apply elem_of_cons in Hx as [->|Hx]; [done|]. apply StronglySorted_inv in Hord as [_ Hall].
    rewrite Forall_forall in Hall. by apply Hall.
  - apply last_Some in Hlast as [l' Heq]. rewrite Heq in Hord, Hx. apply StronglySorted_app in Hord as (Hall & _ & _).
    apply elem_of_app in Hx as [Hx| ->%list_elem_of_singleton]; [|done]. apply Hall; [done|by apply list_elem_of_singleton].
Qed.

(** Every segment of the thread was built from messages on one line each. *)
Definition readable_thread (w : world) (t th : string) : Prop :=
  ∀ j g ms, segs w !! j = Some g → w_built w !! j = Some ms → sg_tenant g = t → sg_thread g = Some th → Forall one_line ms.

Lemma search_finds q w i r m l s :
  safe q w → messages w !! i = Some r → message_id m = i → content_hash m = content_hash (mr_message r) →
  sequence m = sequence (mr_message r) → readable_thread w (m_tenant_id m) (m_thread_id m) →
  (∀ g, g ∈ l → g ∈ rows (segs w) ∧ sg_tenant g = m_tenant_id m ∧ sg_thread g = Some (m_thread_id m)) →
  (∃ j g ms x, g ∈ l ∧ sg_status g = VERIFIED ∧ segs w !! j = Some g ∧ w_built w !! j = Some ms ∧ x ∈ ms ∧ message_id x = i) →
  online (as_blob s) = true → stored_at (as_blob s) = stored w →
  ∃ s', search_segments decompress repr m l s = (Ok (content (mr_message r)), s').
Proof using zstd.
  intros Hs Hr Hmi Hmh Hmq Hone. revert s. induction l as [|g l IH]; intros s Hl Hin Hup Hst.
  { destruct Hin as (j & g & ms & x & Hg & _). by apply elem_of_nil in Hg. }
  destruct (Hl g ltac:(by left)) as (Hrow & Hgt & Hgth). apply elem_of_rows in Hrow as [j Hj].
  destruct (sf_segments _ _ Hs j g Hj) as [ms [Hms (now & t & th & b & Hb & Ht & Hth & Hk & Hfirst & Hlast & _ & _ & Hord & Htaken & Hdata) Hid Hbk Hver]].
  pose proof (Hone j g ms Hj Hms Hgt Hgth) as Hlines.
  assert (∀ x, x ∈ ms → message_id x = message_id m → kin x (mr_message r)) as Hsame.
  { intros x Hx Hxm. rewrite Forall_forall in Htaken. destruct (Htaken x Hx) as (_ & _ & _ & r' & Hr' & Hk').
    assert (Some r = Some r') as [= <-] by by rewrite <- Hr', Hxm, Hmi. done. }
  cbn [search_segments]. destruct (in_range m g) eqn:Hrange.
  - unfold in_range in Hrange. apply andb_true_iff in Hrange as [[Hv _]%andb_true_iff _]. apply String.eqb_eq in Hv.
    destruct (Hver Hv) as (d & ref & Hd & Hgen).
    destruct (law_get (sg_bucket g) (sg_key g) (sg_generation g) (as_blob s)) as (res & s1 & Hget & Hkeep & Hup1 & Hres).
    assert (∃ d', res = Ok d' ∧ d' = bs_data b) as (d' & -> & ->).
    { destruct res as [d'|e].
      - destruct Hres as [ref' Hd']. exists d'. split; [done|]. rewrite Hst in Hd'. by apply (Hdata d' ref').
      - exfalso. destruct Hres as [|Hres]; [congruence|]. rewrite Hst in Hres. by destruct (Hres d ref Hd). }
    unfold bind, blob, zoom. rewrite Hget. cbv beta iota zeta.
    rewrite (build_data _ _ _ _ _ _ Hb), (read_text compress decompress zstd); [|by destruct ms|done].
    rewrite find_record_messages by by intros x Hx Hxm; rewrite Hmh; apply (kin_hash _ _ (Hsame x Hx Hxm)).
    destruct (filter (λ x, message_id x = message_id m) ms) as [|x xs] eqn:Hf; cbn [head fmap option_fmap option_map].
    + apply IH; [intros g' Hg'; apply Hl; by right| |by rewrite <- Hup1 in Hup|by cbn; rewrite Hkeep].
      destruct Hin as (j' & g' & ms' & x & Hg' & Hv' & Hj' & Hms' & Hx & Hxi). apply elem_of_cons in Hg' as [->|Hg'].
      * exfalso. destruct (sf_segments _ _ Hs j' g Hj') as [? [_ _ Hid' _ _]]. assert (ms' = ms) as -> by congruence.
        assert (x ∈ filter (λ x, message_id x = message_id m) ms) as Hbad.
        { apply list_elem_of_filter. split; [|done]. by rewrite Hxi, Hmi. }
        rewrite Hf in Hbad. by apply elem_of_nil in Hbad.
      * by exists j', g', ms', x.
    + assert (x ∈ filter (λ x, message_id x = message_id m) ms) as Hx by (rewrite Hf; left).
      apply list_elem_of_filter in Hx as [Hxm Hx]. eexists. unfold ret.
      by rewrite (kin_content _ _ (Hsame x Hx Hxm)).
  - apply IH; [intros g' Hg'; apply Hl; by right| |done|done].
    destruct Hin as (j' & g' & ms' & x & Hg' & Hv' & Hj' & Hms' & Hx & Hxi). apply elem_of_cons in Hg' as [->|Hg']; [|by exists j', g', ms', x].
    exfalso. destruct (sf_segments _ _ Hs j' g Hj') as [? [_ _ Hid' _ _]]. assert (ms' = ms) as -> by congruence.
    assert (message_id x = message_id m) as Hxm by by rewrite Hxi, Hmi.
    pose proof (in_order_bounds _ _ _ _ _ _ x Hb Hord Hx) as [Hlo Hhi]. rewrite (kin_sequence _ _ (Hsame x Hx Hxm)), <- Hmq in Hlo, Hhi.
    unfold in_range in Hrange. rewrite Hv', String.eqb_refl, Hfirst, Hlast in Hrange. cbn in Hrange.
    rewrite !(proj2 (Z.leb_le _ _)) in Hrange by done. done.
Qed.
(** The messages of a thread as they were stored are on one line each. *)
Definition one_line_thread (c : conversations) (t th : string) : Prop :=
  ∀ i r, cv_messages c !! i = Some r → m_tenant_id (mr_message r) = t → m_thread_id (mr_message r) = th →
    one_line (bare_message (mr_message r)).

Lemma readable_lines q w t th : safe q w → one_line_thread (ad_conv (as_db (w_sys w))) t th → readable_thread w t th.
Proof.
  intros Hs Hone j g ms Hj Hms Hgt Hgth.
  destruct (sf_segments _ _ Hs j g Hj) as [ms' [Hms' (now & t' & th' & b & _ & Ht & Hth & _ & _ & _ & _ & _ & _ & Htaken & _) _ _ _]].
  assert (ms' = ms) as -> by congruence. assert (t' = t) as -> by congruence. assert (th' = th) as -> by congruence.
  eapply Forall_impl; [exact Htaken|]. intros m (Hmt & Hmth & Hbare & r & Hr & Hk). unfold one_line. rewrite Hbare, (kin_record _ _ Hk).
  apply (Hone _ _ Hr); [by rewrite <- (kin_tenant _ _ Hk)|by rewrite <- (kin_thread _ _ Hk)].
Qed.

(** C9: a purged message is read from the archive. In every state reached without a
    quarantine, with the blob store answering, [load_message_content] of a message
    as the repository gives it returns the text it was stored with, archived,
    purged or neither; the messages of its thread must have no line separator above
    ASCII, and its row must not show an empty payload as [ARCHIVED]. *)
Theorem purged_text_is_read s0 s i r a :
  reachable_archive false s0 s → online (as_blob s) = true → cv_messages (ad_conv (as_db s)) !! i = Some r →
  one_line_thread (ad_conv (as_db s)) (m_tenant_id (mr_message r)) (m_thread_id (mr_message r)) →
  archive_status (mr_message r) = PURGED ∨ mr_content r ≠ None →
  ∃ s', load_message_content decompress repr (row_to_message r a) s = (Ok (content (mr_message r)), s').
Proof using zstd.
  intros (Hp & x & Hreach) Hup Hr Hone Hst. pose proof (reaches_safe _ _ _ Hreach (pristine_safe _ _ Hp)) as Hs.
  set (w := {| w_sys := s; w_built := x |}) in *. destruct (sf_rows _ _ Hs i r Hr) as [Hid Hc _ _]. unfold load_message_content.
  change (archive_status (row_to_message r a)) with (archive_status (mr_message r)). destruct (decide _) as [Hpurged|Hne].
  - destruct (sf_kept _ _ Hs i r Hr) as (j & g & ms & m & Hg & Hms & Hm & Hk & _ & Hv); [by rewrite Hpurged|].
    destruct (sf_segments _ _ Hs j g Hg) as [ms' [Hms' (now & t & th & b & _ & Ht & Hth & _ & _ & _ & _ & _ & _ & Htaken & _) _ _ _]].
    assert (ms' = ms) as -> by congruence. rewrite Forall_forall in Htaken. destruct (Htaken m Hm) as (Hmt & Hmth & _).
    erewrite bind_ok; [|etransitivity; [apply segments_query|by destruct s as [[] ?]]].
    eapply (search_finds false w i r); try done.
    + by apply (readable_lines false).
    + intros h. cbn. intros Hh. unfold ordered in Hh. rewrite merge_sort_Permutation in Hh.
      by apply list_elem_of_filter in Hh as [[? ?] ?].
    + exists j, g, ms, m. split_and!; try done; [|by apply Hv|by rewrite (kin_id _ _ Hk)].
      cbn. unfold ordered. rewrite merge_sort_Permutation. apply list_elem_of_filter. split; [|apply elem_of_rows; by exists j].
      split; [by rewrite Ht, <- (kin_tenant _ _ Hk)|by rewrite Hth, <- (kin_thread _ _ Hk), Hmth].
  - exists s. destruct Hst as [|Hpay]; [done|]. destruct Hc as [|Hc]; [done|]. unfold row_to_message. by rewrite Hc.
Qed.
End loading.
(** *** All or nothing *)

Lemma upload_stored b s r s' : upload chat_bucket b s = (r, s') → as_db s' = as_db s ∧
  ∀ ref, r = Ok (ref, true) → stored_at (as_blob s') !! (chat_bucket, bs_key b) = Some (bs_data b, ref).
Proof.
  unfold upload, bind, blob, zoom.
  destruct (law_put chat_bucket (bs_key b) (bs_data b) (bs_checksum b) (as_blob s)) as (rp & s1 & Hput & Hlaw). rewrite Hput.
  destruct rp as [ref|e]; [|by intros [= <- <-]]. destruct Hlaw as (_ & Hst & _). cbn.
  destruct (law_verify ref s1) as (rv & s2 & Hver & Hkeep & _). rewrite Hver. destruct rv as [v|e]; [|by intros [= <- <-]].
  intros [= <- <-]. split; [done|]. intros ? [= <- ->]. cbn. by rewrite Hkeep, Hst, lookup_insert_eq.
Qed.

(** Archiving a segment is all or nothing. If it returns, the segment is
    registered as verified, its object is stored with the bytes of the messages,
    and exactly those messages are marked archived in it. If it raises, no message
    and no job has changed: either nothing was registered, or the segment is there
    as failed and the error says the store is unavailable or the source corrupt. *)
Theorem archive_messages_all_or_nothing i now t th ms s r s' :
  archive_messages sha compress cfg chat_bucket i now t th ms s = (r, s') →
  ad_outbox (as_db s') = ad_outbox (as_db s) ∧
  match r with
  | Ok j => j = i ∧ ms ≠ [] ∧
      (∃ g ref, ad_segments (as_db s') !! i = Some g ∧ sg_status g = VERIFIED ∧ sg_generation g = br_generation ref ∧
         stored_at (as_blob s') !! (chat_bucket, sg_key g) = Some (compress (ar_zstd_level cfg) (segment_text ms), ref)) ∧
      ad_conv (as_db s') = snd (rewrite_rows (message_id <$> ms) (archived_row i now) (ad_conv (as_db s)))
  | Raise e => ad_conv (as_db s') = ad_conv (as_db s) ∧
      (s' = s ∧ (e = ValueError "cannot build an empty segment" ∨ e = IntegrityError) ∨
       (∃ g, ad_segments (as_db s') !! i = Some g ∧ sg_status g = FAILED) ∧
       ∃ m, e = err DependencyUnavailable m ∨ e = err CorruptSource m)
  end.
Proof.
  unfold archive_messages. destruct (build i now ms t th) as [b|e] eqn:Hb.
  2:{ intros [= <- <-]. destruct ms; [|done]. injection Hb as <-. split; [done|]. split; [done|]. left. split; [done|by left]. }
  destruct (build_ids _ _ _ _ _ _ Hb) as [Hid _]. pose proof (build_data _ _ _ _ _ _ Hb) as Hdata.
  assert (bs_message_ids b = message_id <$> ms) as Hids by (destruct ms; [done|by injection Hb as <-]).
  assert (ms ≠ []) as Hne by by destruct ms. unfold bind at 1. unfold in_tx at 1. unfold on_segments at 1. unfold zoom at 1.
  unfold segments_add. cbn [sg_id uploading]. rewrite Hid. destruct (_ || _).
  { intros [= <- <-]. split; [done|]. split; [done|]. left. split; [done|by right]. }
  set (g := uploading chat_bucket now t th b _). set (s1 := set_db _ s). unfold bind at 1. unfold attempt at 1.
  destruct (upload chat_bucket b s1) as [ru s2] eqn:Hup. apply upload_stored in Hup as [Hdb Hstored].
  assert (∀ error, ∃ h, alter (failed_segment error) i (ad_segments (as_db s2)) !! i = Some h ∧ sg_status h = FAILED) as Hfail.
  { intros error. exists (failed_segment error g). rewrite lookup_alter_eq, Hdb. cbn. by rewrite lookup_insert_eq. }
  destruct ru as [[ref [|]]|e].
  - specialize (Hstored ref eq_refl). unfold bind, in_tx, confirm, on_segments, on_conv, zoom. cbn. rewrite Hids.
    destruct ms as [|m0 ms]; [done|]. intros [= <- <-]. split; [by rewrite Hdb|]. split_and!; [done|done| |by cbn; rewrite Hdb].
    exists (verified_segment (br_generation ref) now g), ref. split_and!; [|done|done|].
    + cbn. by rewrite lookup_alter_eq, Hdb; cbn; rewrite lookup_insert_eq.
    + rewrite <- Hdata. exact Hstored.
  - intros [= <- <-]. split; [by cbn; rewrite Hdb|]. split; [by cbn; rewrite Hdb|]. right. split; [apply Hfail|]. eexists. by right.
  - intros [= <- <-]. split; [by cbn; rewrite Hdb|]. split; [by cbn; rewrite Hdb|]. right. split; [apply Hfail|]. eexists. by left.
Qed.
End safety.

(** ** Instances *)

Definition small_config : ArchiveSettings :=
  {| ar_target_bytes := 1000; ar_max_messages := 10; ar_zstd_level := 6; ar_purge_grace := 3600; ar_purge_min_bytes := 1;
     ar_tenant_shards := 64 |}.
Definition no_compression (_ : Z) (raw : string) : string := raw.
Definition seg (k : nat) : string := "seg" +:+ text_of_Z (Z.of_nat k).

(** One staged message, nothing archived. *)
Definition said (content_ : string) : message_row :=
  row_of_message (new_message id_hash 100 (with_lineage "s1" "u1" alice) "m1" (text RUser VISIBLE content_) "t1" "s1" "u1" 1).
Definition staged_message (content_ : string) : archive_sys MemoryBlobStore :=
  {| as_db := {| ad_conv := set_messages {["m1" := said content_]} [] no_conversations; ad_segments := ∅;
                 ad_outbox := {| ob_rows := ∅; ob_next := 1 |} |}; as_blob := new_blobs |}.

#[local] Instance demo_blobs : BlobStore MemoryBlobStore := MemoryBlobStore_store id_hash.

#[local] Notation demo_op := (run_op (B := MemoryBlobStore) id_hash no_compression small_config "chat").
#[local] Notation demo_load := (load_message_content (B := MemoryBlobStore) Some no_repr).

(** What reading the message by the repository and the archive gives. *)
Definition read_back (s : archive_sys MemoryBlobStore) : res string :=
  match cv_messages (ad_conv (as_db s)) !! "m1" with
  | Some r => fst (demo_load (row_to_message r []) s)
  | None => Raise (err NotFound "")
  end.

Definition distrust (s : archive_sys MemoryBlobStore) : archive_sys MemoryBlobStore :=
  set_blob (set_corrupt_next true (as_blob s)) s.

Definition archived (k : nat) (s : archive_sys MemoryBlobStore) : archive_sys MemoryBlobStore :=
  snd (demo_op (Archive (λ j, seg (k + j)) 200 "acme" "t1") s).
Definition purged (s : archive_sys MemoryBlobStore) : archive_sys MemoryBlobStore := snd (demo_op (Purge 5000 10) s).
Definition reconciled (s : archive_sys MemoryBlobStore) : archive_sys MemoryBlobStore := snd (demo_op (Reconcile 6000 900 50) s).

Lemma pristine_staged content_ : pristine (H0 := MemoryBlobStore_laws id_hash) id_hash "chat" (staged_message content_).
Proof.
  split_and!; [done|done|]. intros i r Hr.
  change (({["m1" := said content_]} : gmap string message_row) !! i = Some r) in Hr. apply lookup_singleton_Some in Hr as [<- <-]. done.
Qed.

Example archive_ex : read_back (purged (archived 0 (staged_message "hi"))) = Ok "hi".
Proof. vm_compute. reflexivity. Qed.

(** U+2028 LINE SEPARATOR. *)
Definition line_separator : string := String (chr 226) (String (chr 128) (String (chr 168) "")).

(** Three ways a reader loses a text the archive holds. A first upload that fails
    its verification is archived again; once the payload is purged, reconciling
    finds the first upload intact and marks the message [ARCHIVED] again, so it is
    read as the empty text. A verified segment that fails one recheck is
    quarantined while its messages stay [ARCHIVED] (they are neither staged nor
    queued again), their payload is still purged, and nothing is found. A text with
    a line separator, which JSON leaves as it is, is written on one line and read
    as two. *)
Theorem archived_text_can_be_hidden :
  let twice := archived 1 (archived 0 (distrust (staged_message "hi"))) in
  let quarantined := reconciled (distrust (archived 0 (staged_message "hi"))) in
  let cut := archived 0 (staged_message ("a" +:+ line_separator +:+ "b")) in
  (read_back twice = Ok "hi" ∧ read_back (purged twice) = Ok "hi" ∧ read_back (reconciled (purged twice)) = Ok "") ∧
  (read_back quarantined = Ok "hi" ∧ ob_rows (ad_outbox (as_db quarantined)) = ∅ ∧
     (archive_status ∘ mr_message <$> cv_messages (ad_conv (as_db quarantined)) !! "m1") = Some ARCHIVED_ ∧
     read_back (purged quarantined) = Raise (err NotFound "archived content for m1 not found")) ∧
  (read_back cut = Ok ("a" +:+ line_separator +:+ "b") ∧ read_back (purged cut) = Raise (ValueError "not JSON")).
Proof. vm_compute. split_and!; reflexivity. Qed.

#[local] Instance demo_laws : BlobLaws MemoryBlobStore id_hash := MemoryBlobStore_laws id_hash.

Lemma reachable_start q content_ :
  reachable_archive id_hash no_compression small_config "chat" q (staged_message content_) (staged_message content_).
Proof. split; [apply pristine_staged|]. exists ∅. apply rtc_refl. Qed.

Lemma reachable_traced {A} q s0 s (m : prog (archive_sys MemoryBlobStore) A) :
  reachable_archive id_hash no_compression small_config "chat" q s0 s →
  traced id_hash no_compression small_config "chat" q (λ _, True) m (λ _ _, True) →
  reachable_archive id_hash no_compression small_config "chat" q s0 (snd (m s)).
Proof.
  intros (Hp & x & Hreach) Hm. split; [done|].
  destruct (Hm _ (reaches_safe _ _ _ _ _ _ _ Hreach (pristine_safe _ _ _ _ _ _ Hp)) I) as (y & Hr & _).
  exists y. by etransitivity.
Qed.

Lemma reachable_purged q content_ :
  reachable_archive id_hash no_compression small_config "chat" q (staged_message content_) (purged (archived 0 (staged_message content_))).
Proof.
  apply reachable_traced; [apply reachable_traced; [apply reachable_start|]|].
  - eapply traced_bind; [apply traced_archive_thread|]. intros ?. by apply traced_ret.
  - eapply traced_bind; [apply traced_purge|]. intros ?. by apply traced_ret.
Qed.

Lemma archive_operations_are_steps_witness :
  reachable_archive id_hash no_compression small_config "chat" true (staged_message "hi") (reconciled (staged_message "hi")).
Proof. apply archive_operations_are_steps; [apply reachable_start|by right]. Defined.

Lemma archive_never_loses_text_witness :
  let s := purged (archived 0 (staged_message "hi")) in
  (mr_content <$> cv_messages (ad_conv (as_db s)) !! "m1") = Some None ∧ in_a_segment id_hash Some s "m1" "hi".
Proof.
  intros s. split; [vm_compute; reflexivity|].
  destruct (archive_never_loses_text id_hash no_compression small_config "chat" Some true (staged_message "hi") s "m1"
    (purged_row (archived_row "seg0" 200 (said "hi")))) as [Hrow|Hseg];
    [reflexivity|apply reachable_purged|vm_compute; reflexivity|discriminate Hrow|exact Hseg].
Defined.

Lemma one_line_hi : one_line_thread (ad_conv (as_db (purged (archived 0 (staged_message "hi"))))) "acme" "t1".
Proof.
  intros i r Hr _ _. assert (cv_messages (ad_conv (as_db (purged (archived 0 (staged_message "hi"))))) =
    {["m1" := purged_row (archived_row "seg0" 200 (said "hi"))]}) as Heq by (vm_compute; reflexivity).
  rewrite Heq in Hr. apply lookup_singleton_Some in Hr as [_ <-]. reflexivity.
Qed.

Lemma purged_text_is_read_witness : read_back (purged (archived 0 (staged_message "hi"))) = Ok "hi".
Proof.
  destruct (purged_text_is_read id_hash no_compression small_config "chat" Some no_repr (λ _ _, eq_refl) (staged_message "hi")
    (purged (archived 0 (staged_message "hi"))) "m1" (purged_row (archived_row "seg0" 200 (said "hi"))) []) as [s' Hs];
    [apply reachable_purged|reflexivity|vm_compute; reflexivity|apply one_line_hi|by left|].
  unfold read_back. assert (cv_messages (ad_conv (as_db (purged (archived 0 (staged_message "hi"))))) !! "m1" =
    Some (purged_row (archived_row "seg0" 200 (said "hi")))) as -> by (vm_compute; reflexivity).
  rewrite Hs. reflexivity.
Defined.

Lemma archive_messages_all_or_nothing_witness :
  let s := distrust (staged_message "hi") in
  let out := archive_messages id_hash no_compression small_config "chat" "seg0" 200 "acme" "t1" [row_to_message (said "hi") []] s in
  fst out = Raise (err CorruptSource "segment seg0 failed verification; messages stay STAGED") ∧
  ad_conv (as_db (snd out)) = ad_conv (as_db s).
Proof.
  intros s out. assert (fst out = Raise (err CorruptSource "segment seg0 failed verification; messages stay STAGED")) as Hout;
    [vm_compute; reflexivity|].
  split; [exact Hout|].
  pose proof (archive_messages_all_or_nothing id_hash no_compression small_config "chat" "seg0" 200 "acme" "t1"
    [row_to_message (said "hi") []] s (fst out) (snd out) (surjective_pairing out)) as [_ Hcases].
  rewrite Hout in Hcases. exact (proj1 Hcases).
Defined.
